(* ===== verification/_CoqProject ===== *)
-Q . S2P
Prelude.v
CryptoHash.v
PowTarget.v
Share.v
SidechainParams.v
Difficulty.v
ShareChain.v
ChainWork.v
ChainInv.v
ChainPromote.v
ChainAdmit.v
ChainReplay.v
ChainPrune.v
ChainHistory.v
Demo.v
ChainSpec.v
Pplns.v
PplnsReward.v
PplnsWindows.v
PplnsCoinbase.v
P2pProtocol.v
P2pShare.v
P2pSync.v
P2pSpec.v
ShareStore.v
StoreSpec.v
ReplayStore.v
MiningHeader.v
BlockTemplate.v
MiningContext.v
WorkArchive.v
WorkRetrieval.v
WireTypes.v
PeerGuard.v
Witnesses.v
ZanoCurve.v
MinerTxBinding.v
PayoutPolicy.v
ZanoAddress.v
PplnsTemplate.v
MinerTxProofs.v
ContextTrust.v
HistoricalTrust.v
Restart.v
RpcClient.v
BlockSubmitter.v
StratumProtocol.v
StratumSession.v
StratumSubmission.v
StratumServer.v
StratumInv.v
NodeState.v
NodeLogic.v
NodeInv.v
P2pNode.v
NodeSpec.v
NodeHandle.v
NodeReconcile.v
NodeCalls.v
NodeResume.v
StratumSpec.v
StratumFlow.v
TrustDemo.v
RestartDemo.v
NodeDemo.v
StratumDemo.v
P2pTransport.v
TokenBucket.v
P2pRuntime.v
P2pRuntimeSpec.v
RuntimeSetup.v
TemplateRefresh.v
Daemon.v
DaemonSpec.v
Startup.v
DaemonDemo.v
Metrics.v
