(* ===== verification/Prelude.v ===== *)
(** * zano-p2pool: verification library

    zano-p2pool is a decentralised mining pool for Zano: every node keeps the
    same chain of shares (the sidechain), decides from it who is paid by the
    next block, and admits a share from the network only when the Zano work it
    was mined on has crossed the node's own trust checks.  This library models
    the parts of the program that decide (paths are under [src/]: headers in
    [include/zano_p2pool/], code in [src/]) and proves what makes them correct.

    ** How a definition reads

    A struct is a [Record], an enumeration an [Inductive], a member function a
    [Definition] of the source's name.  Machine integers are [Z] with their
    wrap-around and casts written out; byte strings are [list byte], fixed arrays
    [bytes n] (stdpp vectors), [std::map] a [gmap] walked in key order by a
    sorted list where the order matters, [std::string] a list of characters.  A
    function that throws returns [res A]: a value, or an exception with its kind
    and text.  A function that changes state is [exec S A := S → res A * S]: the
    state after a throw is the state the C++ object is left in, so partial
    updates are visible.  Callbacks and the daemon behind them run in a world
    type [W] of which nothing is assumed: they may answer the same question
    differently each time and may throw.

    ** The parts, and where they are modelled

    - [Prelude]: exceptions, the [exec] monad, bytes, big-endian codecs, sorting
      and list facts, the tactics and hint bases the other files use.
    - [CryptoHash]: [src/crypto_hash.cpp], Keccak and hexadecimal text, executable.
    - [PowTarget]: [src/pow_target.cpp], [src/progpowz.cpp],
      [src/share_validation.cpp]; [Share]: [src/share.cpp]; [SidechainParams],
      [Difficulty]: the consensus parameters and the retarget.
    - [ShareChain] is all of [src/share_chain.cpp]; [ChainWork], [ChainInv],
      [ChainPromote], [ChainAdmit], [ChainReplay], [ChainPrune] prove that its
      operations keep the invariant [chain_inv]; [ChainHistory] defines reachable
      chains by steps; [ChainSpec] has the theorems.
    - [Pplns], [PplnsCoinbase]: [src/pplns.cpp], [src/pplns_coinbase.cpp], who is
      paid what; [PplnsReward], [PplnsWindows] the proofs.
    - [P2pProtocol], [P2pShare], [P2pSync]: the wire format, the registry of
      trusted work with the share receiver, synchronisation by id
      ([src/p2p_protocol.cpp], [p2p_share.cpp], [p2p_sync.cpp], [p2p_tip.cpp]);
      [P2pSpec] the theorems.
    - [ShareStore], [StoreSpec]: the append-only share file of
      [share_store.hpp]; [ReplayStore]: [src/replay_validation_store.cpp].
    - [MiningHeader], [BlockTemplate], [MiningContext]: block blobs, the daemon's
      templates and the contexts peers propose ([src/mining_header.cpp],
      [block_template.cpp], [p2p_mining_context.cpp]).
    - [WorkArchive], [WorkRetrieval]: the local archive of work and its transfer
      between peers; [PeerGuard]: bans and retry delays.
    - [ZanoCurve], [MinerTxBinding], [PayoutPolicy], [MinerTxProofs],
      [ContextTrust]: from a coinbase of a peer to trusted work
      ([src/zano_curve.cpp], [p2p_miner_tx_binding.cpp], [p2p_payout_policy.cpp],
      [p2p_miner_tx_proofs.cpp], [p2p_mining_context_trust.cpp]).
    - [HistoricalTrust]: [src/historical_work.cpp], [historical_payout.cpp],
      [historical_trust.cpp]; [Restart]: [src/restart_revalidation.cpp],
      [restart_recovery.cpp].
    - [RpcClient]: [src/rpc_client.cpp]; [BlockSubmitter]:
      [src/block_submitter.cpp], its worker thread as steps that interleave.
    - [WireTypes]: what the parsers of peer messages can return.
    - [NodeState], [P2pNode]: [src/p2p_node.cpp], the node that joins all of
      these: its tables and reconciliation, and message handling, retries and
      replay recovery.  The state of a message pass is the local variables of
      [handle], the node and the world; the runtime that carries messages is a
      record of functions on the world.  [NodeLogic] has the weakest
      preconditions the proofs use, [NodeInv] the invariant and the abstract
      machine, [NodeSpec], [NodeHandle], [NodeReconcile], [NodeCalls],
      [NodeResume] the proofs and theorems, [NodeDemo] their instances.
    - [ZanoAddress], [PplnsTemplate]: [src/zano_address.cpp], the address codec,
      and [src/zano_miner_tx.cpp], [pplns_block_template.cpp],
      [pplns_template.hpp], the pool's own block template.
    - [StratumProtocol], [StratumSession], [StratumSubmission], [StratumServer]:
      [src/stratum_*.cpp], the miners' side: texts, sessions and their work,
      submissions, and the server with its line framing.  The server's state
      joins the registry of sessions, the nonces seen and the shared chain;
      [StratumInv] has the invariant, [StratumSpec], [StratumFlow] the theorems,
      [StratumDemo] their instances.
    - [P2pTransport]: [src/p2p_transport.cpp], framed envelopes over sockets.  A
      socket is a script of what its kernel calls return; listening, accepting
      and connecting go through the class [SocketApi].
    - [TokenBucket]: [token_bucket.hpp], on binary64 numbers.
    - [P2pRuntime]: [src/p2p_runtime.cpp], the peers, their scores and the
      reconnect targets, as state passing; each turn of a thread is a function.
      It discharges the record of functions that [P2pNode] asks for.
      [P2pRuntimeSpec] cuts it into its critical sections.
    - [RuntimeSetup]: [src/runtime_network.cpp], [seed_nodes.cpp] and the options
      of [src/main.cpp].
    - [TemplateRefresh]: [src/template_refresh.cpp].
    - [Daemon]: the loop of [src/main.cpp] and the callbacks it hands out.  Its
      state [Daemon] holds the live template, the node (with the chain that the
      server shares), the files, the server and the submitter; the RPC, the
      runtime, the clock and the listening socket live in the world.
      [Startup]: [main] up to the loop.  [DaemonSpec] has the theorems,
      [DaemonDemo] their instances.
    - [Metrics]: [metrics_snapshot.hpp], [src/metrics_server.cpp] and the
      provider of [main].
    - [Demo], [Witnesses], [TrustDemo], [RestartDemo]: concrete pools the theorems
      are instantiated on.

    ** What the theorems show

    Consensus: every history of the share chain keeps the invariant, a chain with
    the same connected shares has the same best tip, cumulative work is path work,
    admission answers for every share and pruning removes exactly a subtree.
    Admission: a share enters through the network or is validated later only with
    trusted work for its own parent, proven PoW and the expected difficulty; work
    becomes trusted only through the crossings, whose gates read the same bytes.
    Payouts: the windows, the division of a reward, the coinbase plan and the
    check of a peer's coinbase against it are exact.  Durability: what is written
    is read back, torn writes are recovered from, and a restart gives back the
    chain and its verdicts or trusts nothing.  Network: tables are bounded,
    transfers complete, codecs are bijections on valid messages.  Daemon side:
    what the client returns is what the daemon said, and a found block is
    submitted as the template it solved.

    The node: every public operation refines a small machine over the registry
    and the share chain, each of whose moves carries the evidence it rests on
    ([node_refines]); its invariant holds after every sequence of calls
    ([node_invariant]); reconciliation is exact and idempotent
    ([reconcile_exact]); the queue of deferred descendants drains within one turn
    per deferred candidate, which is the fuel the definition runs with
    ([resume_terminates]); the choice of the next ancestor to fetch
    ([frontier_choice]); and what parsers return ([wire_typed]).
    Miners: the work a session holds always comes from a published template
    ([stratum_invariant]), what a submission is answered ([submit_routes]), that
    miners do not disturb each other ([line_isolated]), that a nonce counts once
    ([nonce_counts_once]), that solved work is credited ([solved_work_credited]),
    that framing does not depend on how bytes arrive ([framing_independent]).
    Templates and addresses: a ready template pays the plan ([template_pays_pool])
    and an address has one text ([address_text_unique]).
    Connections: envelopes travel unchanged however the bytes are cut
    ([envelopes_travel]) and both ends of a handshake agree
    ([handshake_agreement]).  The runtime: all it does is a sequence of critical
    sections ([runtime_refines]), each of which keeps its invariant
    ([runtime_invariant]); a ban takes effect at once ([ban_enforced]; [ban_race]
    shows the window that is left); a relay is not echoed ([relay_exact]).
    The daemon: after a reorganisation nothing of the displaced branch is served
    ([reorg_fail_closed]), a pass serves exactly what it built
    ([pass_installs]), and so does the start ([startup_closed]); a scrape reads
    back what was counted ([scrape_reads_back]).

    ** Fuel and bounds

    Recursion that is not structural takes fuel, and each theorem that a function
    answers shows its fuel to be enough: orphan promotion and pruning take the
    number of shares present, a varint 10 rounds (64 bits in 7-bit groups), the
    transaction tree 64 levels, the rounds of a range proof 6, the transfer of a
    work record 4 rounds (its payload is at most four chunks), the eviction of
    templates 2 rounds.  Where fuel runs out the result is a value no C++ path
    returns.

    ** Assumptions

    Allocation and thread creation succeed.  [std::sort] is a merge sort by the
    same order (the orders are total on what is sorted).  File operations succeed
    apart from torn tails, and a replaced file appears whole; a directory lists
    its names in some fixed order.  ProgPoWZ, json-c, Zano's curve library and
    curl are parameters ([ProgPow], [JsonC], [ZanoCrypto], [curl_easy_perform]);
    nothing is assumed of them beyond the hypotheses a theorem names, and the
    demo files instantiate them with toy functions.  Theorems about the clock ask
    that it reads a time before 2106.

    ** Not modelled

    A call on the node is one atomic step: the moments between two sections of
    [state_mutex_] inside one call are not interleaved with other calls.  In the
    same way a turn of the daemon's loop and each callback is one step.
    Of [src/main.cpp] the texts it prints, the signal handlers, the waiting
    between two turns and the retries of the very first template are left out;
    of the Stratum and metrics servers the system calls that open their sockets.
    The command-line tools ([src/work_audit.cpp], [src/header_check.cpp]) only
    call what is modelled. *)

From Stdlib Require Export ZArith Lia Bool.
From Stdlib.Strings Require Byte Ascii.
From stdpp Require Export base numbers list strings vector gmap sorting.
From stdpp Require Export options.

#[global] Set Default Proof Using "Type".

Abbreviation byte := Corelib.Init.Byte.byte.
Open Scope Z_scope.

(** ** Exceptions

    C++ exceptions are values of [res]: the exception class of the standard
    library and the text handed to its constructor.  [Terminate] is the end of
    the process, which no handler catches. *)

Inductive exn_kind :=
| InvalidArgument | RuntimeError | LogicError | OutOfRange | OverflowError | BadAlloc
| RpcError (code : Z)
| Terminate.

Record exn := Exn { exn_class : exn_kind; exn_what : string }.

Inductive res (A : Type) :=
| Ok (a : A)
| Throw (e : exn).
Arguments Ok {_} _.
Arguments Throw {_} _.

#[export] Instance res_ret : MRet res := @Ok.
#[export] Instance res_bind : MBind res := λ A B f m,
  match m with Ok a => f a | Throw e => Throw e end.
#[export] Instance res_fmap : FMap res := λ A B f m,
  match m with Ok a => Ok (f a) | Throw e => Throw e end.

Definition throw {A} (k : exn_kind) (what : string) : res A := Throw (Exn k what).

(** [throw_if b k what] is the C++ statement [if (b) throw k(what);]. *)
Definition throw_if (b : bool) (k : exn_kind) (what : string) : res () :=
  if b then throw k what else Ok ().

(** An exception that leaves a [noexcept] function ends the process. *)
Definition noexcept {A} (r : res A) : res A :=
  match r with Ok a => Ok a | Throw _ => throw Terminate "std::terminate" end.

(** [catch (const std::runtime_error&)] takes this exception. *)
Definition is_runtime_error (e : exn) : bool :=
  match exn_class e with RuntimeError | OverflowError | RpcError _ => true | _ => false end.

Definition is_ok {A} (r : res A) : bool :=
  match r with Ok _ => true | Throw _ => false end.

Lemma res_bind_ok {A B} (m : res A) (f : A → res B) b :
  (m ≫= f) = Ok b ↔ ∃ a, m = Ok a ∧ f a = Ok b.
Proof. destruct m; simpl; naive_solver. Qed.

Lemma res_fmap_ok {A B} (m : res A) (f : A → B) b :
  f <$> m = Ok b ↔ ∃ a, m = Ok a ∧ b = f a.
Proof. destruct m; simpl; naive_solver. Qed.

Lemma throw_if_ok b k what u : throw_if b k what = Ok u ↔ b = false.
Proof. destruct u, b; simpl; unfold throw; naive_solver. Qed.

(** [exec]: a statement sequence over a mutable object.  A throw leaves the
    object as the statements before it made it, which is what the caller that
    catches the exception sees. *)
Definition exec (S A : Type) : Type := S → res A * S.

Definition exec_ret {S A} (a : A) : exec S A := λ s, (Ok a, s).
Definition exec_throw {S A} (k : exn_kind) (what : string) : exec S A :=
  λ s, (throw k what, s).
Definition exec_bind {S A B} (m : exec S A) (f : A → exec S B) : exec S B :=
  λ s, match m s with
       | (Ok a, s') => f a s'
       | (Throw e, s') => (Throw e, s')
       end.
(** Evaluate a const method of the object. *)
Definition exec_const {S A} (m : S → res A) : exec S A := λ s, (m s, s).
Definition exec_get {S} : exec S S := λ s, (Ok s, s).
Definition exec_modify {S} (f : S → S) : exec S () := λ s, (Ok (), f s).

(** A part of a state as a state. *)
Definition zoom {S T A} (get : S → T) (put : T → S → S) (m : exec T A) : exec S A :=
  λ s, let '(r, t) := m (get s) in (r, put t s).

Declare Scope pool_scope.
Delimit Scope pool_scope with pool.
Notation "x <- m ;; k" := (exec_bind m (λ x, k))
  (at level 100, m at next level, right associativity) : pool_scope.
Notation "'do' m ;; k" := (exec_bind m (λ _, k))
  (at level 100, m at next level, right associativity) : pool_scope.

Lemma exec_bind_ok {S A B} (m : exec S A) (f : A → exec S B) s b s' :
  exec_bind m f s = (Ok b, s') ↔ ∃ a s1, m s = (Ok a, s1) ∧ f a s1 = (Ok b, s').
Proof. unfold exec_bind. destruct (m s) as [[a|e] s1]; naive_solver. Qed.

(** ** Machine integers *)

Definition u8_max : Z := 255.
Definition u32_max : Z := 4294967295.
Definition u64_max : Z := 18446744073709551615.
Definition u128_max : Z := 340282366920938463463374607431768211455.
Definition u256_max : Z :=
  115792089237316195423570985008687907853269984665640564039457584007913129639935.

Definition is_u8 (z : Z) : Prop := 0 ≤ z ≤ u8_max.
Definition is_u16 (z : Z) : Prop := 0 ≤ z ≤ 65535.
Definition is_u32 (z : Z) : Prop := 0 ≤ z ≤ u32_max.
Definition is_u64 (z : Z) : Prop := 0 ≤ z ≤ u64_max.

Definition wrap8 (z : Z) : Z := z mod 256.
Definition wrap32 (z : Z) : Z := z mod 4294967296.
Definition wrap64 (z : Z) : Z := z mod 18446744073709551616.

Lemma wrap64_id z : is_u64 z → wrap64 z = z.
Proof. unfold is_u64, u64_max, wrap64. intros. apply Z.mod_small. lia. Qed.
Lemma wrap64_range z : is_u64 (wrap64 z).
Proof. unfold wrap64, is_u64, u64_max. pose proof (Z.mod_pos_bound z 18446744073709551616). lia. Qed.

(** ** Bytes *)

Definition byte_to_Z (b : byte) : Z := Z.of_N (Byte.to_N b).
(** [static_cast<std::uint8_t>(z)]. *)
Definition byte_of_Z (z : Z) : byte :=
  match Byte.of_N (Z.to_N (wrap8 z)) with Some b => b | None => Byte.x00 end.

#[export] Instance byte_eq_dec : EqDecision byte := Byte.byte_eq_dec.

#[export] Instance byte_inhabited : Inhabited byte := populate Byte.x00.

Lemma byte_to_Z_range b : 0 ≤ byte_to_Z b < 256.
Proof.
  unfold byte_to_Z. pose proof (Byte.to_N_bounded b). lia.
Qed.

Lemma byte_to_of_Z z : byte_to_Z (byte_of_Z z) = z mod 256.
Proof.
  unfold byte_of_Z, byte_to_Z, wrap8.
  pose proof (Z.mod_pos_bound z 256 ltac:(lia)).
  destruct (Byte.of_N _) as [b|] eqn:E.
  - apply Byte.to_of_N in E. rewrite E. lia.
  - apply Byte.of_N_None_iff in E. lia.
Qed.

Lemma byte_of_to_Z b : byte_of_Z (byte_to_Z b) = b.
Proof.
  unfold byte_of_Z, wrap8. pose proof (byte_to_Z_range b).
  rewrite Z.mod_small by lia. unfold byte_to_Z.
  by rewrite N2Z.id, Byte.of_to_N.
Qed.

Lemma byte_to_Z_inj b c : byte_to_Z b = byte_to_Z c → b = c.
Proof. intros E. rewrite <-(byte_of_to_Z b), <-(byte_of_to_Z c). by rewrite E. Qed.

Lemma byte_of_Z_mod z : byte_of_Z (z mod 256) = byte_of_Z z.
Proof. unfold byte_of_Z, wrap8. by rewrite Z.mod_mod by lia. Qed.

#[export] Program Instance byte_countable : Countable byte :=
  inj_countable' Byte.to_N (λ n, default Byte.x00 (Byte.of_N n)) _.
Next Obligation. intros b. simpl. by rewrite Byte.of_to_N. Qed.

(** ** Big-endian integers *)

(** Number denoted by a byte string, most significant byte first. *)
Definition be_Z (l : list byte) : Z :=
  fold_left (λ v b, v * 256 + byte_to_Z b) l 0.

(** The [n] low-order bytes of [z], most significant first: the loop
    [for (shift = 8*(n-1); shift >= 0; shift -= 8) push_back(z >> shift)]. *)
Fixpoint be_bytes (n : nat) (z : Z) : list byte :=
  match n with
  | O => []
  | S m => byte_of_Z (Z.shiftr z (8 * Z.of_nat m)) :: be_bytes m z
  end.

Definition pow256 (n : nat) : Z := 256 ^ Z.of_nat n.

Lemma pow256_pos n : 0 < pow256 n.
Proof. unfold pow256. apply Z.pow_pos_nonneg; lia. Qed.
Lemma pow256_S n : pow256 (S n) = 256 * pow256 n.
Proof. unfold pow256. rewrite Nat2Z.inj_succ, Z.pow_succ_r; lia. Qed.
Lemma pow256_add n m : pow256 (n + m) = pow256 n * pow256 m.
Proof. unfold pow256. rewrite Nat2Z.inj_add, Z.pow_add_r; lia. Qed.
Lemma pow256_shift n : 2 ^ (8 * Z.of_nat n) = pow256 n.
Proof. unfold pow256. rewrite Z.pow_mul_r by lia. done. Qed.

Lemma be_Z_acc l v :
  fold_left (λ v b, v * 256 + byte_to_Z b) l v = v * pow256 (length l) + be_Z l.
Proof.
  unfold be_Z. revert v. induction l as [|b l IH]; intros v; simpl.
  - unfold pow256. simpl. lia.
  - rewrite IH, (IH (0 * 256 + byte_to_Z b)), pow256_S. lia.
Qed.

Lemma be_Z_nil : be_Z [] = 0.
Proof. done. Qed.
Lemma be_Z_cons b l : be_Z (b :: l) = byte_to_Z b * pow256 (length l) + be_Z l.
Proof. unfold be_Z at 1. simpl. apply be_Z_acc. Qed.
Lemma be_Z_app l k : be_Z (l ++ k) = be_Z l * pow256 (length k) + be_Z k.
Proof. unfold be_Z at 1. rewrite fold_left_app. apply be_Z_acc. Qed.
Lemma be_Z_snoc l b : be_Z (l ++ [b]) = be_Z l * 256 + byte_to_Z b.
Proof. rewrite be_Z_app. done. Qed.

Lemma be_Z_range l : 0 ≤ be_Z l < pow256 (length l).
Proof.
  induction l as [|b l IH].
  - rewrite be_Z_nil. unfold pow256. simpl. lia.
  - rewrite be_Z_cons. simpl length. rewrite pow256_S.
    pose proof (byte_to_Z_range b). nia.
Qed.

Lemma be_Z_inj l k : length l = length k → be_Z l = be_Z k → l = k.
Proof.
  revert k. induction l as [|b l IH]; intros [|c k] Hlen E; try done.
  rewrite !be_Z_cons in E. injection Hlen as Hlen.
  pose proof (be_Z_range l). pose proof (be_Z_range k).
  rewrite <-Hlen in *.
  assert (byte_to_Z b = byte_to_Z c) as Hb by nia.
  f_equal; [by apply byte_to_Z_inj|]. apply IH; [done|]. nia.
Qed.

Lemma length_be_bytes n z : length (be_bytes n z) = n.
Proof. induction n; simpl; congruence. Qed.

Lemma be_Z_be_bytes n z : be_Z (be_bytes n z) = z mod pow256 n.
Proof.
  induction n as [|n IH]; simpl be_bytes.
  - unfold pow256. simpl. by rewrite Z.mod_1_r.
  - rewrite be_Z_cons, length_be_bytes, IH, byte_to_of_Z, Z.shiftr_div_pow2 by lia.
    rewrite pow256_shift, pow256_S. pose proof (pow256_pos n).
    rewrite (Z.mul_comm 256), Z.rem_mul_r by lia. lia.
Qed.

Lemma be_bytes_be_Z l : be_bytes (length l) (be_Z l) = l.
Proof.
  apply be_Z_inj; [apply length_be_bytes|].
  rewrite be_Z_be_bytes. apply Z.mod_small, be_Z_range.
Qed.

Lemma be_Z_zero l : be_Z l = 0 ↔ Forall (λ b, b = Byte.x00) l.
Proof.
  induction l as [|b l IH].
  - split; auto.
  - rewrite be_Z_cons, Forall_cons, <-IH. pose proof (be_Z_range l).
    pose proof (byte_to_Z_range b). split; [intros E|intros [-> ->]; done].
    assert (byte_to_Z b = 0) as Hb by nia. rewrite Hb in E.
    split; [by apply byte_to_Z_inj|lia].
Qed.

(** One step of [value <<= 8; value |= byte] on an unbounded integer. *)
Lemma shift_or_byte v b :
  0 ≤ v → Z.lor (Z.shiftl v 8) (byte_to_Z b) = v * 256 + byte_to_Z b.
Proof.
  intros Hv. pose proof (byte_to_Z_range b).
  assert (Z.land (Z.shiftl v 8) (byte_to_Z b) = 0) as Hland.
  { apply Z.bits_inj'; intros i Hi. rewrite Z.bits_0, Z.land_spec.
    destruct (Z.lt_ge_cases i 8).
    - by rewrite Z.shiftl_spec_low by lia.
    - rewrite <-(Z.mod_small (byte_to_Z b) (2 ^ 8)) by lia.
      rewrite Z.mod_pow2_bits_high by lia. apply andb_false_r. }
  rewrite <-Z.lxor_lor, <-Z.add_nocarry_lxor by done.
  by rewrite Z.shiftl_mul_pow2 by lia.
Qed.

(** ** [std::array<std::uint8_t, N>] *)

Abbreviation bytes n := (vec byte n).

(** [std::array<std::uint8_t, N>{}], and [std::copy_n] of the first [n] bytes
    of [l] into it. *)
Fixpoint arr_of (n : nat) (l : list byte) : bytes n :=
  match n with
  | O => [#]
  | S m => match l with
           | [] => Byte.x00 ::: arr_of m []
           | b :: l' => b ::: arr_of m l'
           end
  end.

Definition arr_zero (n : nat) : bytes n := vreplicate n Byte.x00.

Fixpoint vsnoc {n} (v : bytes n) (b : byte) : bytes (S n) :=
  match v with
  | [#] => [# b]
  | c ::: w => c ::: vsnoc w b
  end.

(** [for (i = N; i-- > 0;) { a[i] = value & 0xff; value >>= 8; }]. *)
Fixpoint fill_be (n : nat) (value : Z) : bytes n :=
  match n with
  | O => [#]
  | S m => vsnoc (fill_be m (Z.shiftr value 8)) (byte_of_Z (Z.land value 255))
  end.

Definition arr_Z {n} (v : bytes n) : Z := be_Z (vec_to_list v).

Lemma arr_of_list n l :
  (n ≤ length l)%nat → vec_to_list (arr_of n l) = take n l.
Proof.
  revert l. induction n as [|n IH]; intros l Hl; [done|].
  destruct l as [|b l]; simpl in *; [lia|]. f_equal. apply IH. lia.
Qed.

Lemma arr_of_app n (v : bytes n) l : arr_of n (vec_to_list v ++ l) = v.
Proof. induction v; simpl; congruence. Qed.

Lemma arr_of_to_list n (v : bytes n) : arr_of n (vec_to_list v) = v.
Proof. rewrite <-(app_nil_r (vec_to_list v)). apply arr_of_app. Qed.

Lemma vec_to_list_vsnoc n (v : bytes n) b :
  vec_to_list (vsnoc v b) = vec_to_list v ++ [b].
Proof. induction v; simpl; congruence. Qed.

Lemma arr_Z_range {n} (v : bytes n) : 0 ≤ arr_Z v < pow256 n.
Proof. pose proof (be_Z_range (vec_to_list v)) as H. by rewrite length_vec_to_list in H. Qed.

Lemma arr_Z_inj {n} (v w : bytes n) : arr_Z v = arr_Z w → v = w.
Proof.
  intros E. apply vec_to_list_inj2, be_Z_inj; [|done].
  by rewrite !length_vec_to_list.
Qed.

Lemma arr_Z_fill_be n z : arr_Z (fill_be n z) = z mod pow256 n.
Proof.
  unfold arr_Z. revert z. induction n as [|n IH]; intros z; simpl.
  - unfold pow256. by rewrite Z.mod_1_r.
  - rewrite vec_to_list_vsnoc, be_Z_snoc, IH, byte_to_of_Z, pow256_S.
    change 255 with (Z.ones 8). rewrite Z.land_ones by lia.
    rewrite Z.mod_mod, Z.shiftr_div_pow2 by lia. change (2 ^ 8) with 256.
    pose proof (pow256_pos n). rewrite Z.rem_mul_r by lia. lia.
Qed.

(** Array keys are encoded by their number, so that maps keyed by share ids
    evaluate. *)
#[export] Program Instance bytes_countable {n} : Countable (bytes n) | 0 := {|
  encode v := Z.to_pos (1 + arr_Z v);
  decode p := Some (fill_be n (Z.pos p - 1))
|}.
Next Obligation.
  intros n v. simpl. f_equal. apply arr_Z_inj. rewrite arr_Z_fill_be.
  pose proof (arr_Z_range v). rewrite Z2Pos.id by lia.
  replace (1 + arr_Z v - 1) with (arr_Z v) by lia. by apply Z.mod_small.
Qed.

Lemma shiftr8_iter_zero n z :
  0 ≤ z → (Nat.iter n (λ v, Z.shiftr v 8) z = 0 ↔ z < pow256 n).
Proof.
  intros Hz. revert z Hz. induction n as [|n IH]; intros z Hz.
  - simpl. unfold pow256. simpl. lia.
  - rewrite Nat.iter_succ_r, IH by (apply Z.shiftr_nonneg; lia).
    rewrite Z.shiftr_div_pow2, pow256_S by lia. change (2 ^ 8) with 256.
    pose proof (pow256_pos n). split; intros.
    + pose proof (Z.mod_pos_bound z 256). pose proof (Z.div_mod z 256). nia.
    + apply Z.div_lt_upper_bound; lia.
Qed.

#[global] Arguments be_bytes : simpl never.
#[global] Arguments fill_be : simpl never.
#[global] Arguments arr_of : simpl never.

Lemma arr_Z_zero n : arr_Z (arr_zero n) = 0.
Proof.
  unfold arr_Z, arr_zero. rewrite vec_to_list_replicate.
  apply be_Z_zero, Forall_replicate. done.
Qed.

(** ** Lexicographic order on byte arrays

    [std::array::operator<] and [std::lexicographical_compare]. *)
Fixpoint lex_lt (a b : list byte) : bool :=
  match a, b with
  | [], [] => false
  | [], _ :: _ => true
  | _ :: _, [] => false
  | x :: a', y :: b' =>
      if byte_to_Z x <? byte_to_Z y then true
      else if byte_to_Z y <? byte_to_Z x then false
      else lex_lt a' b'
  end.

Definition arr_lt {n} (a b : bytes n) : bool := lex_lt (vec_to_list a) (vec_to_list b).

Lemma lex_lt_be a b : length a = length b → lex_lt a b = (be_Z a <? be_Z b).
Proof.
  revert b. induction a as [|x a IH]; intros [|y b] Hlen; try done.
  injection Hlen as Hlen. simpl lex_lt. rewrite !be_Z_cons, IH, Hlen by done.
  pose proof (be_Z_range a) as Ha. pose proof (be_Z_range b) as Hb.
  rewrite Hlen in Ha.
  destruct (Z.ltb_spec (byte_to_Z x) (byte_to_Z y)); [symmetry; apply Z.ltb_lt; nia|].
  destruct (Z.ltb_spec (byte_to_Z y) (byte_to_Z x)); [symmetry; apply Z.ltb_ge; nia|].
  assert (byte_to_Z x = byte_to_Z y) as -> by lia.
  destruct (Z.ltb_spec (be_Z a) (be_Z b)); symmetry; [apply Z.ltb_lt|apply Z.ltb_ge]; lia.
Qed.

(** The byte order is the numeric order of the big-endian contents. *)
Lemma arr_lt_Z {n} (a b : bytes n) : arr_lt a b = (arr_Z a <? arr_Z b).
Proof. apply lex_lt_be. by rewrite !length_vec_to_list. Qed.

Lemma arr_lt_spec {n} (a b : bytes n) : reflect (arr_Z a < arr_Z b) (arr_lt a b).
Proof. rewrite arr_lt_Z. apply Z.ltb_spec0. Qed.

Definition arr_le {n} (a b : bytes n) : Prop := arr_lt b a = false.
#[export] Instance arr_le_dec {n} (a b : bytes n) : Decision (arr_le a b).
Proof. unfold arr_le. apply _. Defined.

Lemma arr_le_Z {n} (a b : bytes n) : arr_le a b ↔ arr_Z a ≤ arr_Z b.
Proof. unfold arr_le. rewrite arr_lt_Z. apply Z.ltb_ge. Qed.

Definition arr_eqb {n} (a b : bytes n) : bool := bool_decide (a = b).

Lemma arr_eqb_true {n} (a b : bytes n) : arr_eqb a b = true ↔ a = b.
Proof. apply bool_decide_eq_true. Qed.
Lemma arr_eqb_false {n} (a b : bytes n) : arr_eqb a b = false ↔ a ≠ b.
Proof. apply bool_decide_eq_false. Qed.
Lemma arr_eqb_refl {n} (a : bytes n) : arr_eqb a a = true.
Proof. by apply arr_eqb_true. Qed.

(** [std::all_of(begin, end, [](auto b) { return b == 0; })]. *)
Definition all_zero (l : list byte) : bool := forallb (λ b, byte_to_Z b =? 0) l.

Lemma all_zero_be l : all_zero l = (be_Z l =? 0).
Proof.
  apply eq_true_iff_eq. unfold all_zero.
  rewrite forallb_forall, Z.eqb_eq, be_Z_zero, Forall_forall.
  setoid_rewrite list_elem_of_In.
  split; intros H x Hx; specialize (H x Hx).
  - apply Z.eqb_eq in H. by apply byte_to_Z_inj.
  - by rewrite H.
Qed.

Lemma all_zero_arr {n} (a : bytes n) : all_zero (vec_to_list a) = (arr_Z a =? 0).
Proof. apply all_zero_be. Qed.

Lemma arr_Z_eq_zero {n} (a : bytes n) : arr_Z a = 0 ↔ a = arr_zero n.
Proof.
  rewrite <-(arr_Z_zero n). split; [apply arr_Z_inj|by intros ->].
Qed.

(** ** Ordered traversal

    [std::map] is a [gmap]; a range-for over it visits the entries in key
    order, which [map_sorted] makes explicit.  [std::sort] by a strict order is
    [merge_sort] by its non-strict closure: the comparators of the code are
    total and the sorted elements distinct, so the result is unique. *)
Definition key_le {n A} (p q : bytes n * A) : Prop := arr_le p.1 q.1.
#[export] Instance key_le_dec {n A} (p q : bytes n * A) : Decision (key_le p q).
Proof. unfold key_le. apply _. Defined.

Definition map_sorted {n A} (m : gmap (bytes n) A) : list (bytes n * A) :=
  merge_sort key_le (map_to_list m).

Definition sort_ids {n} (l : list (bytes n)) : list (bytes n) := merge_sort arr_le l.

#[export] Instance arr_le_total {n} : Total (@arr_le n).
Proof. intros a b. rewrite !arr_le_Z. lia. Qed.
#[export] Instance arr_le_trans {n} : Transitive (@arr_le n).
Proof. intros a b c. rewrite !arr_le_Z. lia. Qed.
#[export] Instance arr_le_antisymm {n} : AntiSymm (=) (@arr_le n).
Proof. intros a b. rewrite !arr_le_Z. intros. apply arr_Z_inj. lia. Qed.
#[export] Instance key_le_total {n A} : Total (@key_le n A).
Proof. intros a b. apply arr_le_total. Qed.
#[export] Instance key_le_trans {n A} : Transitive (@key_le n A).
Proof. intros a b c. apply arr_le_trans. Qed.

Lemma map_sorted_perm {n A} (m : gmap (bytes n) A) : map_sorted m ≡ₚ map_to_list m.
Proof. apply merge_sort_Permutation. Qed.

Lemma elem_of_map_sorted {n A} (m : gmap (bytes n) A) k x :
  (k, x) ∈ map_sorted m ↔ m !! k = Some x.
Proof. rewrite map_sorted_perm. apply elem_of_map_to_list. Qed.

Lemma map_sorted_sorted {n A} (m : gmap (bytes n) A) :
  StronglySorted key_le (map_sorted m).
Proof. apply StronglySorted_merge_sort; apply _. Qed.

Lemma NoDup_fst_map_sorted {n A} (m : gmap (bytes n) A) : NoDup (map_sorted m).*1.
Proof. unfold map_sorted. rewrite merge_sort_Permutation. apply NoDup_fst_map_to_list. Qed.

Lemma length_map_sorted {n A} (m : gmap (bytes n) A) : length (map_sorted m) = size m.
Proof. by rewrite map_sorted_perm, length_map_to_list. Qed.

Lemma elem_of_sort_ids {n} (l : list (bytes n)) k : k ∈ sort_ids l ↔ k ∈ l.
Proof. unfold sort_ids. by rewrite merge_sort_Permutation. Qed.

Lemma drop_lookup_total (n : nat) (l : list byte) :
  (n < length l)%nat → drop n l = l !!! n :: drop (S n) l.
Proof.
  intros Hn. destruct (lookup_lt_is_Some_2 l n Hn) as [b Hb].
  by rewrite (drop_S _ _ _ Hb), (list_lookup_total_correct _ _ _ Hb).
Qed.

Lemma filter_none {A} (P : A → Prop) `{!∀ x, Decision (P x)} (l : list A) :
  (∀ x, x ∈ l → ¬ P x) → filter P l = [].
Proof.
  induction l as [|x l IH]; intros Hall; [done|]. rewrite filter_cons, decide_False by (apply Hall; left).
  apply IH. intros y Hy. apply Hall. by right.
Qed.

Lemma filter_all {A} (P : A → Prop) `{!∀ x, Decision (P x)} (l : list A) :
  (∀ x, x ∈ l → P x) → filter P l = l.
Proof.
  induction l as [|x l IH]; intros Hall; [done|]. rewrite filter_cons, decide_True by (apply Hall; left).
  f_equal. apply IH. intros y Hy. apply Hall. by right.
Qed.

(** ** Sums *)
Fixpoint sum_by {A} (f : A → Z) (l : list A) : Z :=
  match l with [] => 0 | x :: l' => f x + sum_by f l' end.

Lemma sum_by_app {A} (f : A → Z) l k : sum_by f (l ++ k) = sum_by f l + sum_by f k.
Proof. induction l; simpl in *; lia. Qed.

#[export] Instance sum_by_perm {A} (f : A → Z) : Proper ((≡ₚ) ==> (=)) (sum_by f).
Proof. induction 1; simpl in *; lia. Qed.

Lemma sum_by_nonneg {A} (f : A → Z) l : (∀ x, x ∈ l → 0 ≤ f x) → 0 ≤ sum_by f l.
Proof.
  induction l as [|x l IH]; simpl; intros H; [lia|].
  pose proof (H x ltac:(left)). specialize (IH (λ y Hy, H y ltac:(by right))). lia.
Qed.

Lemma sum_by_elem_le {A} (f : A → Z) l x :
  x ∈ l → (∀ y, y ∈ l → 0 ≤ f y) → f x ≤ sum_by f l.
Proof.
  intros (l1 & l2 & ->)%list_elem_of_split Hf. rewrite sum_by_app. simpl.
  pose proof (sum_by_nonneg f l1 ltac:(intros; apply Hf, elem_of_app; by left)).
  pose proof (sum_by_nonneg f l2
    ltac:(intros; apply Hf, elem_of_app; right; by right)). lia.
Qed.

Lemma sum_by_fmap {A B} (g : A → B) (f : B → Z) l :
  sum_by f (g <$> l) = sum_by (λ x, f (g x)) l.
Proof. induction l as [|x l IH]; csimpl; [done|]. by rewrite IH. Qed.

Lemma sum_by_ext {A} (f g : A → Z) l :
  (∀ x, x ∈ l → f x = g x) → sum_by f l = sum_by g l.
Proof.
  induction l as [|x l IH]; simpl; intros H; [done|].
  rewrite (H x) by left. f_equal. apply IH. intros. apply H. by right.
Qed.

(** ** Automation

    [res_inv] splits an equation [m = Ok x] between the statements of [m]. *)
Create HintDb pool discriminated.

Ltac res_inv_step :=
  match goal with
  | H : Throw _ = Ok _ |- _ => discriminate H
  | H : throw _ _ = Ok _ |- _ => discriminate H
  | H : Ok _ = Ok _ |- _ => injection H as H; try subst
  | H : mret _ = Ok _ |- _ => injection H as H; try subst
  | H : throw_if _ _ _ = Ok _ |- _ => apply throw_if_ok in H
  | H : (_ ≫= _) = Ok _ |- _ =>
      apply res_bind_ok in H; destruct H as [? [? H]]
  | H : (_ <$> _) = Ok _ |- _ =>
      apply res_fmap_ok in H; destruct H as [? [? H]]
  end.
Ltac res_inv := repeat (res_inv_step; simpl in *).

(** Turn the boolean tests of the code into propositions. *)
Ltac bool_prop :=
  repeat match goal with
  | H : _ && _ = true |- _ => apply andb_true_iff in H; destruct H
  | H : _ || _ = false |- _ => apply orb_false_iff in H; destruct H
  | H : negb _ = true |- _ => apply negb_true_iff in H
  | H : negb _ = false |- _ => apply negb_false_iff in H
  | H : bool_decide _ = true |- _ => apply bool_decide_eq_true in H
  | H : bool_decide _ = false |- _ => apply bool_decide_eq_false in H
  | H : arr_eqb _ _ = true |- _ => apply arr_eqb_true in H
  | H : arr_eqb _ _ = false |- _ => apply arr_eqb_false in H
  | H : (_ =? _) = true |- _ => apply Z.eqb_eq in H
  | H : (_ =? _) = false |- _ => apply Z.eqb_neq in H
  | H : (_ <? _) = true |- _ => apply Z.ltb_lt in H
  | H : (_ <? _) = false |- _ => apply Z.ltb_ge in H
  | H : (_ <=? _) = true |- _ => apply Z.leb_le in H
  | H : (_ <=? _) = false |- _ => apply Z.leb_gt in H
  end.

#[export] Hint Resolve arr_Z_range be_Z_range byte_to_Z_range pow256_pos : pool.

(** ** Decimal strings

    [std::string] is a list of characters.  [dec_str z] is the decimal text
    that [std::to_string] and [cpp_int::convert_to<std::string>] print for a
    non-negative [z]: one digit is produced per division by ten, and
    [S (log2 z)] divisions reach zero. *)
Definition char_Z (c : Ascii.ascii) : Z := Z.of_N (Ascii.N_of_ascii c).
Definition dec_char (d : Z) : Ascii.ascii := Ascii.ascii_of_N (Z.to_N (48 + d)).

Fixpoint dec_digits (fuel : nat) (z : Z) : list Ascii.ascii :=
  match fuel with
  | O => []
  | S f => (if z / 10 =? 0 then [] else dec_digits f (z / 10)) ++ [dec_char (z mod 10)]
  end.
Definition dec_str (z : Z) : list Ascii.ascii := dec_digits (S (Z.to_nat (Z.log2 z))) z.

Lemma char_Z_dec_char d : 0 ≤ d < 10 → char_Z (dec_char d) = 48 + d.
Proof.
  intros. unfold char_Z, dec_char. rewrite Ascii.N_ascii_embedding by lia. lia.
Qed.

Lemma dec_digits_ind (P : Z → list Ascii.ascii → Prop) :
  (∀ d, 0 ≤ d < 10 → P d [dec_char d]) →
  (∀ z d l, 0 < z → 0 ≤ d < 10 → P z l → P (10 * z + d) (l ++ [dec_char d])) →
  ∀ z, 0 ≤ z → P z (dec_str z).
Proof.
  intros H0 HS z Hz. unfold dec_str.
  assert (z < 2 ^ Z.of_nat (S (Z.to_nat (Z.log2 z)))) as Hf.
  { destruct (Z.eq_dec z 0) as [->|]; [simpl; lia|].
    rewrite Nat2Z.inj_succ, Z2Nat.id by apply Z.log2_nonneg.
    apply Z.log2_spec. lia. }
  assert (0 < S (Z.to_nat (Z.log2 z)))%nat as Hp by lia.
  revert Hf Hp. generalize (S (Z.to_nat (Z.log2 z))) as fuel. intros fuel.
  revert z Hz. induction fuel as [|f IH]; intros z Hz Hf Hp; [lia|].
  cbn [dec_digits]. pose proof (Z.mod_pos_bound z 10). pose proof (Z.div_mod z 10).
  rewrite Nat2Z.inj_succ, Z.pow_succ_r in Hf by lia.
  destruct (Z.eqb_spec (z / 10) 0) as [E|E].
  - simpl. replace (z mod 10) with z by lia. apply H0. lia.
  - replace z with (10 * (z / 10) + z mod 10) at 1 by lia.
    pose proof (Z.div_pos z 10). apply HS; [lia|lia|]. apply IH; [lia|lia|].
    destruct f; [|lia]. change (2 ^ Z.of_nat 0) with 1 in Hf. lia.
Qed.
