(* ===== verification/CryptoHash.v ===== *)
(** Keccak-256 (the CryptoNote fast hash) and the hexadecimal codec:
    [src/crypto_hash.cpp].  Lanes are 64-bit words held as [Z]; the permutation
    state is a list of 25 lanes, updated in place lane by lane as the C++
    array is. *)
From Stdlib Require Import Ascii String.
From S2P Require Import Prelude.

Abbreviation Hash256 := (bytes 32).

(** ** Keccak-f[1600] *)

Definition kRoundConstants : list Z := [
  0x0000000000000001; 0x0000000000008082; 0x800000000000808a; 0x8000000080008000;
  0x000000000000808b; 0x0000000080000001; 0x8000000080008081; 0x8000000000008009;
  0x000000000000008a; 0x0000000000000088; 0x0000000080008009; 0x000000008000000a;
  0x000000008000808b; 0x800000000000008b; 0x8000000000008089; 0x8000000000008003;
  0x8000000000008002; 0x8000000000000080; 0x000000000000800a; 0x800000008000000a;
  0x8000000080008081; 0x8000000000008080; 0x0000000080000001; 0x8000000080008008].

Definition kRotationConstants : list Z := [
  1; 3; 6; 10; 15; 21; 28; 36; 45; 55; 2; 14;
  27; 41; 56; 8; 25; 43; 62; 18; 39; 61; 20; 44].

Definition kPiLane : list nat := [
  10; 7; 11; 17; 18; 3; 5; 16; 8; 21; 24; 4;
  15; 23; 19; 13; 12; 2; 20; 14; 22; 9; 6; 1]%nat.

Definition rotl64 (value shift : Z) : Z :=
  Z.lor (wrap64 (Z.shiftl value shift)) (Z.shiftr value (64 - shift)).

(** [~x] on [std::uint64_t]. *)
Definition not64 (x : Z) : Z := Z.land (Z.lnot x) u64_max.

Definition load_le64 (p : list byte) : Z :=
  foldr (λ i value, Z.lor value (Z.shiftl (byte_to_Z (p !!! i)) (8 * Z.of_nat i)))
    0 (seq 0 8).

Definition store_le64 (value : Z) : list byte :=
  (λ i, byte_of_Z (Z.shiftr value (8 * Z.of_nat i))) <$> seq 0 8.

Definition xor_lane (i : nat) (t : Z) (state : list Z) : list Z :=
  <[i := Z.lxor (state !!! i) t]> state.

Definition keccak_theta (state : list Z) : list Z :=
  let bc := (λ i, Z.lxor (Z.lxor (Z.lxor (Z.lxor (state !!! i) (state !!! (i + 5)))
                    (state !!! (i + 10))) (state !!! (i + 15))) (state !!! (i + 20)))%nat
            <$> seq 0 5 in
  fold_left
    (λ st i,
       let t := Z.lxor (bc !!! ((i + 4) mod 5)) (rotl64 (bc !!! ((i + 1) mod 5)) 1) in
       fold_left (λ st j, xor_lane (j + i) t st) [0; 5; 10; 15; 20] st)%nat
    (seq 0 5) state.

Definition keccak_rho_pi (state : list Z) : list Z :=
  (fold_left
     (λ acc jr,
        let '(t, st) := acc in
        let '(j, r) := jr in
        (st !!! j, <[j := rotl64 t r]> st))
     (zip kPiLane kRotationConstants) (state !!! 1%nat, state)).2.

Definition keccak_chi (state : list Z) : list Z :=
  fold_left
    (λ st j,
       let bc := (λ i, st !!! (j + i)%nat) <$> seq 0 5 in
       fold_left
         (λ st i,
            xor_lane (j + i) (Z.land (not64 (bc !!! ((i + 1) mod 5)))
                                     (bc !!! ((i + 2) mod 5))) st)
         (seq 0 5) st)%nat
    [0; 5; 10; 15; 20]%nat state.

Definition keccak_f1600 (state : list Z) : list Z :=
  fold_left
    (λ st rc, xor_lane 0 rc (keccak_chi (keccak_rho_pi (keccak_theta st))))
    kRoundConstants state.

(** ** The sponge *)

Definition kRate : nat := 136.
Definition kRateWords : nat := 17.

Definition absorb_block (block : list byte) (state : list Z) : list Z :=
  keccak_f1600
    (fold_left (λ st i, xor_lane i (load_le64 (drop (i * 8) block)) st)
       (seq 0 kRateWords) state).

(** [while (data.size() >= kRate)]: [fuel] bounds the iterations. *)
Fixpoint absorb_full (fuel : nat) (data : list byte) (state : list Z)
  : list byte * list Z :=
  match fuel with
  | O => (data, state)
  | S f => if (kRate <=? length data)%nat
           then absorb_full f (drop kRate data) (absorb_block data state)
           else (data, state)
  end.

(** The padded last block: the remaining bytes, [0x01], zeros, and the top bit
    of the last byte. *)
Definition pad_tail (data : list byte) : list byte :=
  let tail := data ++ replicate (kRate - length data) Byte.x00 in
  let tail := <[length data := Byte.x01]> tail in
  <[(kRate - 1)%nat :=
      byte_of_Z (Z.lor (byte_to_Z (tail !!! (kRate - 1)%nat)) 0x80)]> tail.

Definition cn_fast_hash (data : list byte) : Hash256 :=
  let '(rest, state) := absorb_full (length data) data (replicate 25 0) in
  let state := absorb_block (pad_tail rest) state in
  arr_of 32 (concat ((λ i, store_le64 (state !!! i)) <$> seq 0 4)).

(** The loop has consumed every full block before the padding is written, so
    the write [tail\[data.size()\] = 0x01] is in range. *)
Lemma absorb_full_rest fuel data state :
  (length data ≤ fuel)%nat → (length (absorb_full fuel data state).1 < kRate)%nat.
Proof.
  revert data state. induction fuel as [|fuel IH]; intros data state Hf; cbn [absorb_full].
  - simpl. unfold kRate. lia.
  - destruct (Nat.leb_spec kRate (length data)); [|done].
    apply IH. rewrite length_drop. unfold kRate in *. lia.
Qed.

Lemma absorb_full_fuel fuel fuel' data state :
  (length data ≤ fuel)%nat → (length data ≤ fuel')%nat →
  absorb_full fuel data state = absorb_full fuel' data state.
Proof.
  revert fuel' data state.
  induction fuel as [|fuel IH]; intros [|fuel'] data state H H'; cbn [absorb_full]; try done.
  all: try (destruct (Nat.leb_spec kRate (length data)); unfold kRate in *; [lia|done]).
  destruct (Nat.leb_spec kRate (length data)) as [Hge|]; [|done].
  unfold kRate in *. apply IH; rewrite length_drop; lia.
Qed.

Lemma length_pad_tail data :
  (length data < kRate)%nat → length (pad_tail data) = kRate.
Proof.
  intros H. unfold pad_tail. rewrite !length_insert, length_app, length_replicate.
  lia.
Qed.

(** ** Hexadecimal *)

Definition kHex : list ascii :=
  ["0"; "1"; "2"; "3"; "4"; "5"; "6"; "7"; "8"; "9";
   "a"; "b"; "c"; "d"; "e"; "f"]%char.

Definition hex_nibble (c : ascii) : res Z :=
  if (48 <=? char_Z c) && (char_Z c <=? 57) then Ok (char_Z c - 48)
  else if (97 <=? char_Z c) && (char_Z c <=? 102) then Ok (char_Z c - 97 + 10)
  else if (65 <=? char_Z c) && (char_Z c <=? 70) then Ok (char_Z c - 65 + 10)
  else throw InvalidArgument "invalid hexadecimal character".

Fixpoint hex_pairs (hex : list ascii) : res (list byte) :=
  match hex with
  | h :: l :: rest =>
      high ← hex_nibble h;
      low ← hex_nibble l;
      bytes ← hex_pairs rest;
      mret (byte_of_Z (Z.lor (Z.shiftl high 4) low) :: bytes)
  | _ => Ok []
  end.

Definition hex_to_bytes (hex : list ascii) : res (list byte) :=
  let hex := match hex with
             | "0"%char :: "x"%char :: rest => rest
             | "0"%char :: "X"%char :: rest => rest
             | _ => hex
             end in
  _ ← throw_if (Nat.odd (length hex)) InvalidArgument
        "hex string must contain an even number of digits";
  hex_pairs hex.

Definition hex_digit (nibble : Z) : ascii := nth (Z.to_nat nibble) kHex "0"%char.

Fixpoint bytes_to_hex (l : list byte) : list ascii :=
  match l with
  | [] => []
  | b :: l' =>
      hex_digit (Z.shiftr (byte_to_Z b) 4) :: hex_digit (Z.land (byte_to_Z b) 15)
      :: bytes_to_hex l'
  end.

Definition hash_to_hex (hash : Hash256) : list ascii := bytes_to_hex (vec_to_list hash).

Definition nibbles : list Z := seqZ 0 16.

Lemma nibble_elem z : 0 ≤ z < 16 → z ∈ nibbles.
Proof. intros. apply elem_of_seqZ. lia. Qed.

Lemma hex_nibble_digit z : 0 ≤ z < 16 → hex_nibble (hex_digit z) = Ok z.
Proof.
  intros Hz. apply nibble_elem in Hz.
  assert (Forall (λ z, hex_nibble (hex_digit z) = Ok z) nibbles) as H
    by (repeat constructor).
  by rewrite Forall_forall in H; apply H.
Qed.

Lemma hex_digit_not_x z :
  0 ≤ z < 16 → hex_digit z ≠ "x"%char ∧ hex_digit z ≠ "X"%char.
Proof.
  intros Hz. apply nibble_elem in Hz.
  assert (Forall (λ z, hex_digit z ≠ "x"%char ∧ hex_digit z ≠ "X"%char) nibbles) as H
    by (repeat constructor; done).
  by rewrite Forall_forall in H; apply H.
Qed.

Lemma nibbles_of_byte b :
  0 ≤ Z.shiftr (byte_to_Z b) 4 < 16 ∧ 0 ≤ Z.land (byte_to_Z b) 15 < 16 ∧
  byte_of_Z (Z.lor (Z.shiftl (Z.shiftr (byte_to_Z b) 4) 4)
                   (Z.land (byte_to_Z b) 15)) = b.
Proof. destruct b; vm_compute; repeat split; done. Qed.

Lemma hex_pairs_bytes l : hex_pairs (bytes_to_hex l) = Ok l.
Proof.
  induction l as [|b l IH]; [done|]. simpl.
  destruct (nibbles_of_byte b) as (H1 & H2 & H3).
  rewrite !hex_nibble_digit by done. simpl. rewrite IH. simpl. by rewrite H3.
Qed.

Lemma length_bytes_to_hex l : length (bytes_to_hex l) = (2 * length l)%nat.
Proof. induction l; simpl; lia. Qed.

(** Decoding the lower-case hexadecimal text that [bytes_to_hex] prints
    gives the bytes back, for every byte string; in particular the optional
    [0x] prefix stripped by [hex_to_bytes] never eats printed digits. *)
Theorem hex_to_bytes_to_hex : ∀ l : list byte, hex_to_bytes (bytes_to_hex l) = Ok l.
Proof.
  intros l. unfold hex_to_bytes.
  assert (match bytes_to_hex l with
          | "0"%char :: "x"%char :: rest => rest
          | "0"%char :: "X"%char :: rest => rest
          | _ => bytes_to_hex l
          end = bytes_to_hex l) as ->.
  { destruct l as [|b l]; [done|]. destruct (nibbles_of_byte b) as (_ & H2 & _).
    apply hex_digit_not_x in H2 as [Hx HX]. simpl.
    repeat match goal with |- context [match ?x with _ => _ end] => destruct x end;
      try done; by destruct Hx || by destruct HX. }
  rewrite length_bytes_to_hex.
  replace (Nat.odd (2 * length l)) with false
    by (by rewrite Nat.odd_mul). simpl. apply hex_pairs_bytes.
Qed.

(** Known answer: Keccak-256 of the empty string. *)
Example cn_fast_hash_empty :
  string_of_list_ascii (hash_to_hex (cn_fast_hash [])) =
  "c5d2460186f7233c927e7db2dcc703c0e500b653ca82273b7bfad8045d85a470"%string.
Proof. vm_compute. reflexivity. Qed.
