(* ===== verification/PowTarget.v ===== *)
(** Proof-of-work targets and candidate classification:
    [src/pow_target.cpp], [src/progpowz.cpp], [src/share_validation.cpp].

    The ethash/ProgPoW implementation that [progpowz_hash] wraps is not part of
    the repository: it enters through the class [ProgPow]. *)
From Stdlib Require Import Ascii.
From S2P Require Import Prelude CryptoHash.

Abbreviation str := (list ascii).

(** ** Decimal uint128 parsing *)

Definition wrap256 (z : Z) : Z := z mod (u256_max + 1).

(** The digit loop of [parse_difficulty] ([pow_target.cpp]) and
    [parse_uint128_decimal] ([share.cpp]), on a [uint256_t] accumulator; the two
    functions differ in the text of the range error. *)
Fixpoint parse_digits (range_error : string) (text : str) (value : Z) : res Z :=
  match text with
  | [] => Ok value
  | ch :: rest =>
      _ ← throw_if ((char_Z ch <? 48) || (57 <? char_Z ch)) InvalidArgument
            "difficulty must contain decimal digits only";
      let value := wrap256 (wrap256 (value * 10) + (char_Z ch - 48)) in
      _ ← throw_if (u128_max <? value) OutOfRange range_error;
      parse_digits range_error rest value
  end.

Definition parse_u128 (range_error : string) (text : str) : res Z :=
  _ ← throw_if (bool_decide (text = [])) InvalidArgument "difficulty is empty";
  value ← parse_digits range_error text 0;
  _ ← throw_if (value =? 0) InvalidArgument "difficulty must be greater than zero";
  mret value.

Definition parse_difficulty : str → res Z :=
  parse_u128 "difficulty exceeds Zano uint128 range".

(** ** Targets *)

Record DifficultyTarget := mkTarget { big_endian : Hash256 }.

Definition bytes_to_uint256 (l : Hash256) : Z :=
  fold_left (λ value b, Z.lor (wrap256 (Z.shiftl value 8)) (byte_to_Z b))
    (vec_to_list l) 0.

Definition uint256_to_big_endian_bytes (value : Z) : Hash256 := fill_be 32 value.

Definition target_hex (t : DifficultyTarget) : str :=
  bytes_to_hex (vec_to_list (big_endian t)).

Definition difficulty_to_target (difficulty_decimal : str) : res DifficultyTarget :=
  difficulty ← parse_difficulty difficulty_decimal;
  mret (mkTarget (uint256_to_big_endian_bytes (u256_max / difficulty))).

Definition hash_meets_target (hash : Hash256) (target : DifficultyTarget) : bool :=
  bytes_to_uint256 hash <=? bytes_to_uint256 (big_endian target).

Definition hash_meets_difficulty (hash : Hash256) (difficulty_decimal : str) : res bool :=
  target ← difficulty_to_target difficulty_decimal;
  mret (hash_meets_target hash target).

(** ** The ProgPoWZ back end *)

Inductive ProgPowZContextMode := Light | Full.

Record ProgPowZResult := mkPow { final_hash : Hash256; mix_hash : Hash256 }.
#[export] Instance ProgPowZResult_eq_dec : EqDecision ProgPowZResult.
Proof. solve_decision. Defined.

(** What the ethash library supplies: whether it is compiled in
    ([ZANO_P2POOL_HAVE_PROGPOWZ]), the hash under a light epoch context, and the
    full context of an epoch, which may fail to allocate. *)
Class ProgPow := {
  have_progpowz : bool;
  progpow_hash_light (epoch block_number : Z) (header : Hash256) (nonce : Z)
    : ProgPowZResult;
  progpow_context_full (epoch : Z)
    : option (Z → Hash256 → Z → ProgPowZResult)
}.

Definition kProgPowZEpochLength : Z := 30000.
Definition int_max : Z := 2147483647.

Definition progpowz_epoch (height : Z) : Z := height / kProgPowZEpochLength.

Definition progpowz_seed (height : Z) : res Hash256 :=
  _ ← throw_if (int_max <? height) OutOfRange
        "height exceeds the block-number range supported by ProgPoWZ";
  mret (Nat.iter (Z.to_nat (progpowz_epoch height))
          (λ seed, cn_fast_hash (vec_to_list seed)) (arr_zero 32)).

Section WithBackend.
Context `{!ProgPow}.

Definition progpowz_available : bool := have_progpowz.

Definition progpowz_hash (height : Z) (header_hash : Hash256) (nonce : Z)
    (mode : ProgPowZContextMode) : res ProgPowZResult :=
  if negb have_progpowz then
    throw RuntimeError "ProgPoWZ support is not enabled; configure with -DZANO_P2POOL_ZANO_SOURCE_DIR=/absolute/path/to/zano"
  else
    _ ← throw_if (int_max <? height) OutOfRange
          "height exceeds the block-number range supported by ProgPoWZ";
    let epoch := progpowz_epoch height in
    match mode with
    | Light => mret (progpow_hash_light epoch height header_hash nonce)
    | Full =>
        match progpow_context_full epoch with
        | None => throw BadAlloc "std::bad_alloc"
        | Some hash => mret (hash height header_hash nonce)
        end
    end.

(** ** Candidate classification *)

Inductive CandidateClassification := ClassInvalid | ClassShare | ClassBlock.
#[export] Instance CandidateClassification_eq_dec : EqDecision CandidateClassification.
Proof using Type. solve_decision. Defined.

Record CandidateValidation := mkValidation {
  pow : ProgPowZResult;
  meets_share_difficulty : bool;
  meets_network_difficulty : bool;
  classification : CandidateClassification }.
#[export] Instance CandidateValidation_eq_dec : EqDecision CandidateValidation.
Proof using Type. solve_decision. Defined.

Definition classify_pow_hash (pow_hash : Hash256) (share_difficulty network_difficulty : str)
    : res CandidateClassification :=
  network ← hash_meets_difficulty pow_hash network_difficulty;
  if network : bool then mret ClassBlock
  else
    share ← hash_meets_difficulty pow_hash share_difficulty;
    if share : bool then mret ClassShare else mret ClassInvalid.

Definition validate_candidate (height : Z) (mining_header_hash : Hash256) (nonce : Z)
    (share_difficulty network_difficulty : str) (mode : ProgPowZContextMode)
    : res CandidateValidation :=
  pow ← progpowz_hash height mining_header_hash nonce mode;
  meets_share ← hash_meets_difficulty (final_hash pow) share_difficulty;
  meets_network ← hash_meets_difficulty (final_hash pow) network_difficulty;
  mret (mkValidation pow meets_share meets_network
          (if meets_network : bool then ClassBlock
           else if meets_share : bool then ClassShare else ClassInvalid)).

End WithBackend.

(** ** Lemmas *)

Lemma bytes_to_uint256_Z h : bytes_to_uint256 h = arr_Z h.
Proof.
  unfold bytes_to_uint256, arr_Z.
  assert (∀ l k, (length k + length l ≤ 32)%nat →
    fold_left (λ value b, Z.lor (wrap256 (Z.shiftl value 8)) (byte_to_Z b)) l (be_Z k)
    = be_Z (k ++ l)) as H.
  { induction l as [|b l IH]; intros k Hk; simpl in *; [by rewrite app_nil_r|].
    unfold wrap256. rewrite Z.mod_small.
    - rewrite shift_or_byte by apply be_Z_range.
      rewrite <-be_Z_snoc, IH by (rewrite length_app; simpl; lia).
      by rewrite <-app_assoc.
    - rewrite Z.shiftl_mul_pow2 by lia. pose proof (be_Z_range k).
      assert (pow256 (length k) ≤ pow256 31).
      { unfold pow256. apply Z.pow_le_mono_r; lia. }
      change (u256_max + 1) with (pow256 31 * 256). change (2 ^ 8) with 256. lia. }
  apply (H _ []). simpl. by rewrite length_vec_to_list.
Qed.

Section Parsing.
Context (err : string).

Lemma parse_digits_snoc text d v w :
  parse_digits err text v = Ok w → 0 ≤ w → 0 ≤ d < 10 → 10 * w + d ≤ u128_max →
  parse_digits err (text ++ [dec_char d]) v = Ok (10 * w + d).
Proof.
  revert v. induction text as [|c text IH]; intros v Hp Hw Hd Hmax; simpl in *.
  - injection Hp as ->. rewrite char_Z_dec_char by done.
    destruct (Z.ltb_spec (48 + d) 48), (Z.ltb_spec 57 (48 + d)); try lia. simpl.
    assert (u128_max < u256_max) by done.
    unfold wrap256. rewrite (Z.mod_small (w * 10)), Z.mod_small by lia.
    replace (w * 10 + (48 + d - 48)) with (10 * w + d) by lia.
    by destruct (Z.ltb_spec u128_max (10 * w + d)); [lia|].
  - apply res_bind_ok in Hp as ([] & -> & Hp). simpl.
    apply res_bind_ok in Hp as ([] & -> & Hp). simpl. by apply IH.
Qed.

Lemma parse_digits_dec_str z :
  0 ≤ z ≤ u128_max → parse_digits err (dec_str z) 0 = Ok z.
Proof.
  intros [Hz Hmax]. revert Hmax.
  apply (dec_digits_ind (λ z l, z ≤ u128_max → parse_digits err l 0 = Ok z)); [| |done].
  - intros d Hd _. apply (parse_digits_snoc [] d 0 0); try done. unfold u128_max. lia.
  - intros w d l Hw Hd IH Hmax. apply parse_digits_snoc; try lia. apply IH. lia.
Qed.

Lemma dec_str_not_nil z : dec_str z ≠ [].
Proof. unfold dec_str. simpl. intros H. by apply app_eq_nil in H as [_ H]. Qed.

(** Printing and parsing a positive uint128 are inverse. *)
Lemma parse_u128_dec_str z : 0 < z ≤ u128_max → parse_u128 err (dec_str z) = Ok z.
Proof.
  intros Hz. unfold parse_u128.
  rewrite bool_decide_false by apply dec_str_not_nil. simpl.
  rewrite parse_digits_dec_str by lia. simpl.
  by destruct (Z.eqb_spec z 0); [lia|].
Qed.

Lemma parse_digits_range text v w :
  0 ≤ v → parse_digits err text v = Ok w → 0 ≤ w ∧ (text ≠ [] → w ≤ u128_max).
Proof.
  revert v. induction text as [|c text IH]; intros v Hv Hp; simpl in *.
  - res_inv. by split.
  - res_inv. bool_prop. apply IH in Hp as Hr; [|by apply Z.mod_pos_bound].
    destruct Hr as [??]. destruct text; [|split; [done|auto]].
    simpl in Hp. res_inv. by split.
Qed.

Lemma parse_u128_range text d : parse_u128 err text = Ok d → 0 < d ≤ u128_max.
Proof.
  unfold parse_u128. intros H. res_inv. bool_prop.
  match goal with H : parse_digits _ _ _ = _ |- _ =>
    apply parse_digits_range in H as [??]; [|lia] end.
  split; [lia|]. auto.
Qed.

End Parsing.

Lemma target_Z d :
  0 < d → arr_Z (uint256_to_big_endian_bytes (u256_max / d)) = u256_max / d.
Proof.
  intros Hd. unfold uint256_to_big_endian_bytes. rewrite arr_Z_fill_be.
  apply Z.mod_small. split; [by apply Z.div_pos|].
  apply Z.le_lt_trans with u256_max; [|done]. apply Z.div_le_upper_bound; [done|].
  unfold u256_max. nia.
Qed.

Lemma hash_meets_difficulty_parsed hash text d :
  parse_difficulty text = Ok d →
  hash_meets_difficulty hash text = Ok (bool_decide (arr_Z hash * d ≤ u256_max)).
Proof.
  intros Hp. pose proof (parse_u128_range _ _ _ Hp).
  unfold hash_meets_difficulty, difficulty_to_target. rewrite Hp. simpl.
  unfold hash_meets_target. simpl.
  rewrite !bytes_to_uint256_Z, target_Z by lia. unfold mret, res_ret. f_equal.
  pose proof (arr_Z_range hash).
  apply eq_true_iff_eq. rewrite Z.leb_le, bool_decide_eq_true. split; intros.
  - pose proof (Z.mul_div_le u256_max d). nia.
  - apply Z.div_le_lower_bound; lia.
Qed.

(** The target check is Zano's consensus rule.  For every hash and every
    difficulty text, [hash_meets_difficulty] fails exactly as the decimal parser
    fails, and otherwise answers whether [hash * difficulty <= 2^256 - 1], the
    hash read as a big-endian 256-bit number. *)
Theorem hash_meets_difficulty_spec : ∀ (hash : Hash256) (text : str),
  hash_meets_difficulty hash text =
    match parse_difficulty text with
    | Ok d => Ok (bool_decide (arr_Z hash * d ≤ u256_max))
    | Throw e => Throw e
    end.
Proof.
  intros hash text. destruct (parse_difficulty text) as [d|e] eqn:E.
  - by apply hash_meets_difficulty_parsed.
  - unfold hash_meets_difficulty, difficulty_to_target. by rewrite E.
Qed.

(** The two classification routines agree.  When [validate_candidate]
    returns, its class is the one [classify_pow_hash] computes from the final
    hash, and it records exactly the two difficulty tests; and when the network
    difficulty is at least the share difficulty a block candidate also meets
    the share difficulty. *)
Theorem validate_candidate_classifies `{!ProgPow} :
  ∀ height header nonce share_d network_d mode v ds dn,
  parse_difficulty share_d = Ok ds →
  parse_difficulty network_d = Ok dn →
  validate_candidate height header nonce share_d network_d mode = Ok v →
  classify_pow_hash (final_hash (pow v)) share_d network_d = Ok (classification v) ∧
  meets_share_difficulty v = bool_decide (arr_Z (final_hash (pow v)) * ds ≤ u256_max) ∧
  meets_network_difficulty v = bool_decide (arr_Z (final_hash (pow v)) * dn ≤ u256_max) ∧
  (ds ≤ dn → classification v = ClassBlock → meets_share_difficulty v = true).
Proof.
  intros height header nonce sd nd mode v ds dn Hs Hn Hv.
  unfold validate_candidate in Hv. res_inv.
  unfold classify_pow_hash.
  rewrite (hash_meets_difficulty_parsed _ _ _ Hs) in *.
  rewrite (hash_meets_difficulty_parsed _ _ _ Hn) in *. res_inv.
  split; [by repeat case_bool_decide|]. split; [done|]. split; [done|].
  intros Hle Hb. apply bool_decide_eq_true.
  assert (arr_Z (final_hash x) * dn ≤ u256_max)
    by (revert Hb; by repeat case_bool_decide).
  match goal with |- context [arr_Z ?h] => pose proof (arr_Z_range h) end. nia.
Qed.
