(* ===== verification/Share.v ===== *)
(** The canonical share record and its wire form: [include/zano_p2pool/share.hpp],
    [src/share.cpp]. *)
From Stdlib Require Import Ascii.
From S2P Require Import Prelude CryptoHash PowTarget.

Abbreviation ShareId := Hash256.
Abbreviation MinerId := Hash256.
Abbreviation Difficulty128 := (bytes 16).

Record PayoutPublicKeys := mkPayout {
  spend_public_key : Hash256;
  view_public_key : Hash256 }.
#[export] Instance PayoutPublicKeys_eq_dec : EqDecision PayoutPublicKeys.
Proof. solve_decision. Defined.

Definition kShareVersion1 : Z := 1.
Definition kShareVersion2 : Z := 2.
Definition kShareV1SerializedSize : nat := 165.
Definition kShareV2SerializedSize : nat := kShareV1SerializedSize + 64.

Record Share := mkShare {
  version : Z;
  parent_id : ShareId;
  share_height : Z;
  timestamp : Z;
  zano_height : Z;
  mining_header_hash : Hash256;
  nonce : Z;
  share_difficulty : Difficulty128;
  network_difficulty : Difficulty128;
  miner_id : MinerId;
  payout : option PayoutPublicKeys }.
#[export] Instance Share_eq_dec : EqDecision Share.
Proof. solve_decision. Defined.

(** The ranges of the fixed-width integer members. *)
Record share_wf (s : Share) : Prop := {
  wf_version : is_u8 (version s);
  wf_height : is_u64 (share_height s);
  wf_timestamp : is_u64 (timestamp s);
  wf_zano_height : is_u64 (zano_height s);
  wf_nonce : is_u64 (nonce s) }.

Definition kShareMagic : bytes 4 := [# Byte.x5a; Byte.x50; Byte.x32; Byte.x53].
Definition kPayoutMinerDomain : list byte :=
  [Byte.x5a; Byte.x50; Byte.x32; Byte.x50; Byte.x00].

(** ** Difficulty conversions *)

Definition parse_uint128_decimal : str → res Z :=
  parse_u128 "difficulty exceeds uint128 range".

Definition difficulty128_from_decimal (decimal : str) : res Difficulty128 :=
  value ← parse_uint128_decimal decimal;
  mret (fill_be 16 value).

Definition difficulty128_to_decimal (difficulty : Difficulty128) : str :=
  dec_str (fold_left (λ value b, Z.lor (Z.shiftl value 8) (byte_to_Z b))
             (vec_to_list difficulty) 0).

Definition difficulty128_is_zero (difficulty : Difficulty128) : bool :=
  all_zero (vec_to_list difficulty).

Definition is_zero_share_id (id : ShareId) : bool := all_zero (vec_to_list id).

Definition miner_id_from_payout (p : PayoutPublicKeys) : MinerId :=
  cn_fast_hash (kPayoutMinerDomain ++ vec_to_list (spend_public_key p)
                  ++ vec_to_list (view_public_key p)).

(** ** Field readers and writers *)

Definition append_u64_be (out : list byte) (value : Z) : list byte :=
  out ++ be_bytes 8 value.

Definition append_array {n} (out : list byte) (value : bytes n) : list byte :=
  out ++ vec_to_list value.

(** [offset > bytes.size() || bytes.size() - offset < n]. *)
Definition short_read (bytes : list byte) (offset n : nat) : bool :=
  (length bytes <? offset)%nat || (length bytes - offset <? n)%nat.

Definition read_u64_be (bytes : list byte) (offset : nat) : res (Z * nat) :=
  _ ← throw_if (short_read bytes offset 8) RuntimeError "truncated share uint64 field";
  mret (fold_left (λ value b, Z.lor (wrap64 (Z.shiftl value 8)) (byte_to_Z b))
          (take 8 (drop offset bytes)) 0, (offset + 8)%nat).

Definition read_array (n : nat) (bs : list byte) (offset : nat) : res (bytes n * nat) :=
  _ ← throw_if (short_read bs offset n) RuntimeError "truncated share byte-array field";
  mret (arr_of n (drop offset bs), (offset + n)%nat).

(** ** Serialization *)

Definition serialize_share (share : Share) : res (list byte) :=
  _ ← throw_if (negb (version share =? kShareVersion1) &&
                negb (version share =? kShareVersion2))
        InvalidArgument "unsupported share version";
  _ ← throw_if ((version share =? kShareVersion1) && bool_decide (is_Some (payout share)))
        InvalidArgument "share v1 cannot carry payout public keys";
  _ ← (if version share =? kShareVersion2 then
         match payout share with
         | None => throw InvalidArgument "share v2 requires payout public keys"
         | Some p => throw_if (negb (arr_eqb (miner_id share) (miner_id_from_payout p)))
                       InvalidArgument
                       "share v2 miner id does not match payout public keys"
         end
       else Ok ());
  let expected_size := if version share =? kShareVersion1
                       then kShareV1SerializedSize else kShareV2SerializedSize in
  let bytes := append_array [] kShareMagic in
  let bytes := bytes ++ [byte_of_Z (version share)] in
  let bytes := append_array bytes (parent_id share) in
  let bytes := append_u64_be bytes (share_height share) in
  let bytes := append_u64_be bytes (timestamp share) in
  let bytes := append_u64_be bytes (zano_height share) in
  let bytes := append_array bytes (mining_header_hash share) in
  let bytes := append_u64_be bytes (nonce share) in
  let bytes := append_array bytes (share_difficulty share) in
  let bytes := append_array bytes (network_difficulty share) in
  let bytes := append_array bytes (miner_id share) in
  let bytes := match payout share with
               | Some p =>
                   if version share =? kShareVersion2
                   then append_array (append_array bytes (spend_public_key p))
                          (view_public_key p)
                   else bytes
               | None => bytes
               end in
  _ ← throw_if (negb (length bytes =? expected_size)%nat) LogicError
        "share serialized-size invariant failed";
  mret bytes.

(** The v2 trailer of [deserialize_share]. *)
Definition read_payout (version : Z) (miner_id : MinerId) (bytes : list byte) (offset : nat)
    : res (option PayoutPublicKeys * nat) :=
  if version =? kShareVersion2 then
    '(spend, offset) ← read_array 32 bytes offset;
    '(view, offset) ← read_array 32 bytes offset;
    let payout := mkPayout spend view in
    _ ← throw_if (negb (arr_eqb miner_id (miner_id_from_payout payout))) RuntimeError
          "share v2 miner id does not match payout public keys";
    mret (Some payout, offset)
  else mret (None, offset).

Definition deserialize_share (bytes : list byte) : res Share :=
  _ ← throw_if (length bytes <? 5)%nat RuntimeError "truncated share encoding";
  '(magic, offset) ← read_array 4 bytes 0;
  _ ← throw_if (negb (arr_eqb magic kShareMagic)) RuntimeError "invalid share domain marker";
  let version := byte_to_Z (bytes !!! offset) in
  let offset := S offset in
  let expected_size := if version =? kShareVersion1 then kShareV1SerializedSize
                       else if version =? kShareVersion2 then kShareV2SerializedSize
                       else 0%nat in
  _ ← throw_if (expected_size =? 0)%nat RuntimeError "unsupported share version";
  _ ← throw_if (negb (length bytes =? expected_size)%nat) RuntimeError
        "share has invalid serialized size";
  '(parent_id, offset) ← read_array 32 bytes offset;
  '(share_height, offset) ← read_u64_be bytes offset;
  '(timestamp, offset) ← read_u64_be bytes offset;
  '(zano_height, offset) ← read_u64_be bytes offset;
  '(mining_header_hash, offset) ← read_array 32 bytes offset;
  '(nonce, offset) ← read_u64_be bytes offset;
  '(share_difficulty, offset) ← read_array 16 bytes offset;
  '(network_difficulty, offset) ← read_array 16 bytes offset;
  '(miner_id, offset) ← read_array 32 bytes offset;
  '(payout, offset) ← read_payout version miner_id bytes offset;
  _ ← throw_if (negb (offset =? length bytes)%nat) LogicError
        "share parser did not consume canonical encoding";
  mret (mkShare version parent_id share_height timestamp zano_height
          mining_header_hash nonce share_difficulty network_difficulty miner_id payout).

Definition share_id (share : Share) : res ShareId :=
  cn_fast_hash <$> serialize_share share.

(** ** Lemmas *)

Lemma difficulty128_is_zero_Z d : difficulty128_is_zero d = (arr_Z d =? 0).
Proof. apply all_zero_arr. Qed.

Lemma is_zero_share_id_Z id : is_zero_share_id id = (arr_Z id =? 0).
Proof. apply all_zero_arr. Qed.

Lemma is_zero_share_id_spec id : is_zero_share_id id = true ↔ id = arr_zero 32.
Proof. rewrite is_zero_share_id_Z, Z.eqb_eq. apply arr_Z_eq_zero. Qed.

Lemma shift_or_be l v :
  0 ≤ v →
  fold_left (λ value b, Z.lor (Z.shiftl value 8) (byte_to_Z b)) l v
  = v * pow256 (length l) + be_Z l.
Proof.
  intros Hv. rewrite <-be_Z_acc. revert v Hv.
  induction l as [|b l IH]; intros v Hv; simpl; [done|].
  rewrite shift_or_byte by done. apply IH. pose proof (byte_to_Z_range b). lia.
Qed.

Lemma difficulty128_to_decimal_Z d : difficulty128_to_decimal d = dec_str (arr_Z d).
Proof. unfold difficulty128_to_decimal. by rewrite shift_or_be by lia. Qed.

Lemma diff128_range (d : Difficulty128) : 0 ≤ arr_Z d ≤ u128_max.
Proof. pose proof (arr_Z_range d) as H. change (pow256 16) with (u128_max + 1) in H. lia. Qed.

Lemma parse_difficulty_decimal d :
  difficulty128_is_zero d = false → parse_difficulty (difficulty128_to_decimal d) = Ok (arr_Z d).
Proof.
  rewrite difficulty128_is_zero_Z, difficulty128_to_decimal_Z. intros H. bool_prop.
  apply parse_u128_dec_str. pose proof (diff128_range d). lia.
Qed.

(** The canonical encodings: v1 without payout keys, v2 with the keys the miner
    id is the hash of. *)
Definition share_canonical (s : Share) : bool :=
  match payout s with
  | None => version s =? kShareVersion1
  | Some p => (version s =? kShareVersion2) && arr_eqb (miner_id s) (miner_id_from_payout p)
  end.

Definition payout_bytes (o : option PayoutPublicKeys) : list byte :=
  match o with
  | None => []
  | Some p => vec_to_list (spend_public_key p) ++ vec_to_list (view_public_key p)
  end.

(** The layout of an encoded share, field by field. *)
Definition share_layout (s : Share) : list byte :=
  vec_to_list kShareMagic ++ [byte_of_Z (version s)] ++ vec_to_list (parent_id s)
  ++ be_bytes 8 (share_height s) ++ be_bytes 8 (timestamp s) ++ be_bytes 8 (zano_height s)
  ++ vec_to_list (mining_header_hash s) ++ be_bytes 8 (nonce s)
  ++ vec_to_list (share_difficulty s) ++ vec_to_list (network_difficulty s)
  ++ vec_to_list (miner_id s) ++ payout_bytes (payout s).

Definition share_size (s : Share) : nat :=
  match payout s with None => kShareV1SerializedSize | Some _ => kShareV2SerializedSize end.

Lemma length_share_layout s : length (share_layout s) = share_size s.
Proof.
  unfold share_layout, share_size, payout_bytes.
  rewrite !length_app, !length_vec_to_list, !length_be_bytes.
  destruct (payout s); rewrite ?length_app, ?length_vec_to_list; done.
Qed.

Lemma serialize_share_ok s b :
  serialize_share s = Ok b ↔ share_canonical s = true ∧ b = share_layout s.
Proof.
  pose proof (length_share_layout s) as Hlen.
  unfold serialize_share, share_canonical, share_size, append_array, append_u64_be in *.
  rewrite app_nil_l, <-!app_assoc.
  change kShareVersion1 with 1 in *. change kShareVersion2 with 2 in *.
  unfold share_layout, payout_bytes in *. destruct (payout s) as [p|].
  - rewrite (bool_decide_true (is_Some (Some p))) by done.
    destruct (Z.eqb_spec (version s) 1), (Z.eqb_spec (version s) 2); try lia;
      cbn [throw_if mbind res_bind negb andb]; try by (split; [|intros [??]]).
    destruct (arr_eqb _ _); cbn [throw_if mbind res_bind negb]; [|by split; [|intros [??]]].
    rewrite <-!app_assoc. rewrite (proj2 (Nat.eqb_eq _ _) Hlen). unfold mret, res_ret.
    split; [by intros [= <-]|by intros [_ ->]].
  - rewrite (bool_decide_false (is_Some None)) by apply is_Some_None.
    destruct (Z.eqb_spec (version s) 1), (Z.eqb_spec (version s) 2); try lia;
      cbn [throw_if mbind res_bind negb andb]; try by (split; [|intros [??]]).
    rewrite app_nil_r in *. rewrite (proj2 (Nat.eqb_eq _ _) Hlen). unfold mret, res_ret.
    split; [by intros [= <-]|by intros [_ ->]].
Qed.

(** Readers, as equations between the unread suffixes. *)
Lemma short_read_spec l off n :
  short_read l off n = false ↔ (off ≤ length l ∧ n ≤ length (drop off l))%nat.
Proof.
  unfold short_read. rewrite orb_false_iff, length_drop, !Nat.ltb_ge. done.
Qed.

Lemma wrap64_fold_be l k :
  (length k + length l ≤ 8)%nat →
  fold_left (λ value b, Z.lor (wrap64 (Z.shiftl value 8)) (byte_to_Z b)) l (be_Z k)
  = be_Z (k ++ l).
Proof.
  revert k. induction l as [|b l IH]; intros k Hk; simpl in *; [by rewrite app_nil_r|].
  unfold wrap64. rewrite Z.mod_small.
  - rewrite shift_or_byte by apply be_Z_range.
    rewrite <-be_Z_snoc, IH by (rewrite length_app; simpl; lia). by rewrite <-app_assoc.
  - rewrite Z.shiftl_mul_pow2 by lia. pose proof (be_Z_range k).
    assert (pow256 (length k) ≤ pow256 7) by (unfold pow256; apply Z.pow_le_mono_r; lia).
    change (2 ^ 8) with 256. change (pow256 7) with 72057594037927936 in *. lia.
Qed.

Lemma wrap64_fold_be0 l :
  (length l ≤ 8)%nat →
  fold_left (λ value b, Z.lor (wrap64 (Z.shiftl value 8)) (byte_to_Z b)) l 0 = be_Z l.
Proof. apply (wrap64_fold_be l []). Qed.

Lemma read_array_ok n l off (v : bytes n) off' :
  read_array n l off = Ok (v, off') ↔
  off' = (off + n)%nat ∧ (off ≤ length l)%nat ∧
  drop off l = vec_to_list v ++ drop off' l.
Proof.
  unfold read_array. rewrite res_bind_ok. setoid_rewrite throw_if_ok.
  setoid_rewrite short_read_spec. split.
  - intros ([] & [Ho Hn] & E). injection E as <- <-.
    split; [done|]. split; [done|].
    by rewrite arr_of_list, <-drop_drop, take_drop by done.
  - intros (-> & Ho & E). exists (). rewrite E, arr_of_app.
    rewrite length_app, length_vec_to_list. repeat split; try done; lia.
Qed.

Lemma read_u64_ok l off v off' :
  read_u64_be l off = Ok (v, off') ↔
  off' = (off + 8)%nat ∧ (off ≤ length l)%nat ∧ is_u64 v ∧
  drop off l = be_bytes 8 v ++ drop off' l.
Proof.
  unfold read_u64_be. rewrite res_bind_ok. setoid_rewrite throw_if_ok.
  setoid_rewrite short_read_spec. split.
  - intros ([] & [Ho Hn] & E). injection E as <- <-.
    set (w := take 8 (drop off l)).
    assert (length w = 8%nat) as Hw by (unfold w; rewrite length_take; lia).
    rewrite wrap64_fold_be0 by lia.
    split; [done|]. split; [done|]. split.
    + pose proof (be_Z_range w) as H. rewrite Hw in H.
      change (pow256 8) with (u64_max + 1) in H. unfold is_u64. lia.
    + rewrite <-Hw at 1. rewrite be_bytes_be_Z. unfold w.
      by rewrite <-drop_drop, take_drop.
  - intros (-> & Ho & Hv & E). exists (). rewrite E.
    rewrite length_app, length_be_bytes. split; [split; [done|lia]|].
    rewrite take_app_length' by (by rewrite length_be_bytes).
    rewrite wrap64_fold_be0 by (by rewrite length_be_bytes).
    rewrite be_Z_be_bytes, Z.mod_small; [done|].
    unfold is_u64, u64_max in Hv. change (pow256 8) with 18446744073709551616. lia.
Qed.

Lemma drop_app_nonempty {A} off (l x k : list A) :
  drop off l = x ++ k → x ≠ [] → (off ≤ length l)%nat ∧ drop (off + length x) l = k.
Proof.
  intros E Hx. split.
  - destruct (decide (off ≤ length l)%nat) as [|Hgt]; [done|].
    rewrite drop_ge in E by lia. symmetry in E. by apply app_nil in E as [-> _].
  - by rewrite <-drop_drop, E, drop_app_length.
Qed.

Lemma read_array_at n l off (v : bytes (S n)) k :
  drop off l = vec_to_list v ++ k →
  read_array (S n) l off = Ok (v, (off + S n)%nat) ∧ drop (off + S n) l = k.
Proof.
  intros E. destruct (drop_app_nonempty off l (vec_to_list v) k) as [Ho Ek]; [done| |].
  { intros Hn. apply (f_equal length) in Hn. by rewrite length_vec_to_list in Hn. }
  rewrite length_vec_to_list in Ek. split; [|done].
  apply read_array_ok. rewrite Ek. done.
Qed.

Lemma read_u64_at l off v k :
  drop off l = be_bytes 8 v ++ k → is_u64 v →
  read_u64_be l off = Ok (v, (off + 8)%nat) ∧ drop (off + 8) l = k.
Proof.
  intros E Hv. destruct (drop_app_nonempty off l (be_bytes 8 v) k) as [Ho Ek]; [done..|].
  rewrite length_be_bytes in Ek. split; [|done].
  apply read_u64_ok. rewrite Ek. done.
Qed.

Ltac read_field H :=
  let E := fresh in
  first
    [ destruct (read_array_at _ _ _ _ _ H) as [-> E]
    | destruct (read_u64_at _ _ _ _ H) as [-> E]; [done|] ];
  clear H; rename E into H; cbn [mbind res_bind].

Lemma byte_of_version s : is_u8 (version s) → byte_to_Z (byte_of_Z (version s)) = version s.
Proof. intros []. rewrite byte_to_of_Z. apply Z.mod_small. unfold u8_max in *. lia. Qed.

(** The encoding is determined by the layout: [l] is parsed to [s] exactly when
    it is the layout of a canonical, well-formed [s]. *)
Lemma deserialize_share_layout s :
  share_wf s → share_canonical s = true → deserialize_share (share_layout s) = Ok s.
Proof.
  intros [Hv Hh Ht Hz Hn] Hc. pose proof (length_share_layout s) as Hlen.
  assert (drop 0 (share_layout s) = share_layout s) as E by done.
  remember (share_layout s) as l eqn:El. rewrite El in E at 2.
  unfold share_layout in E. clear El. unfold deserialize_share.
  assert (5 ≤ length l)%nat by (rewrite Hlen; unfold share_size; destruct (payout s);
    apply Nat.leb_le; done).
  destruct (Nat.ltb_spec (length l) 5); [lia|]. cbn [throw_if mbind res_bind].
  read_field E.
  rewrite arr_eqb_refl.
  cbn [negb throw_if mbind res_bind Nat.add] in *.
  assert (l !!! 4%nat = byte_of_Z (version s)) as ->.
  { rewrite <-(Nat.add_0_r 4), <-lookup_total_drop, E. done. }
  rewrite byte_of_version by done.
  destruct (drop_app_nonempty _ _ _ _ E) as [_ E1]; [done|]. clear E. rename E1 into E.
  cbn [length Nat.add] in E.
  unfold share_canonical in Hc. destruct s as [ver par h ts zh mh no sd nd mi po].
  unfold share_size, payout_bytes in *. cbn -[kShareVersion1 kShareVersion2 kShareV1SerializedSize
    kShareV2SerializedSize be_bytes] in *.
  destruct po as [[sp vi]|].
  - apply andb_true_iff in Hc as [Hver Hmi]. bool_prop. subst ver.
    change (kShareVersion2 =? kShareVersion1) with false.
    change (kShareVersion2 =? kShareVersion2) with true. rewrite Hlen, Nat.eqb_refl.
    change (kShareV2SerializedSize =? 0)%nat with false. cbn [negb throw_if mbind res_bind].
    do 9 read_field E. unfold read_payout.
    change (kShareVersion2 =? kShareVersion2) with true. cbn [spend_public_key view_public_key] in E.
    rewrite <-(app_nil_r (vec_to_list vi)) in E. do 2 read_field E.
    by rewrite Hmi, arr_eqb_refl.
  - bool_prop. subst ver.
    change (kShareVersion1 =? kShareVersion1) with true.
    change (kShareVersion1 =? kShareVersion2) with false. rewrite Hlen, Nat.eqb_refl.
    change (kShareV1SerializedSize =? 0)%nat with false. cbn [negb throw_if mbind res_bind].
    do 9 read_field E. done.
Qed.

Lemma read_payout_inv ver mi l off po off' :
  read_payout ver mi l off = Ok (po, off') → off' = length l →
  payout_bytes po = drop off l ∧
  match po with
  | None => (ver =? kShareVersion2) = false
  | Some p => (ver =? kShareVersion2) && arr_eqb mi (miner_id_from_payout p) = true
  end.
Proof.
  unfold read_payout. intros Hpo ->. destruct (ver =? kShareVersion2).
  - apply res_bind_ok in Hpo as ([sp off1] & (-> & _ & E10)%read_array_ok & Hpo).
    apply res_bind_ok in Hpo as ([vi off2] & (-> & _ & E11)%read_array_ok & Hpo).
    apply res_bind_ok in Hpo as (_ & Hmi%throw_if_ok & [= <- Hoff]).
    apply negb_false_iff in Hmi. split; [|done].
    rewrite E10, E11. unfold payout_bytes. cbn [spend_public_key view_public_key].
    rewrite (drop_ge l) by lia. by rewrite app_nil_r.
  - injection Hpo as <- ->. by rewrite drop_all.
Qed.

Lemma deserialize_share_inv l s :
  deserialize_share l = Ok s →
  share_wf s ∧ share_canonical s = true ∧ l = share_layout s.
Proof.
  unfold deserialize_share. intros H.
  apply res_bind_ok in H as (_ & H5%throw_if_ok & H). apply Nat.ltb_ge in H5.
  apply res_bind_ok in H as ([magic off] & (-> & _ & Hm)%read_array_ok & H).
  apply res_bind_ok in H as (_ & Hmagic%throw_if_ok & H). bool_prop. subst magic.
  cbn [Nat.add] in *.
  apply res_bind_ok in H as (_ & _ & H).
  apply res_bind_ok in H as (_ & Hlen%throw_if_ok & H).
  apply negb_false_iff, Nat.eqb_eq in Hlen.
  apply res_bind_ok in H as ([par off] & (-> & _ & E1)%read_array_ok & H).
  apply res_bind_ok in H as ([h off] & (-> & _ & Hh & E2)%read_u64_ok & H).
  apply res_bind_ok in H as ([ts off] & (-> & _ & Ht & E3)%read_u64_ok & H).
  apply res_bind_ok in H as ([zh off] & (-> & _ & Hz & E4)%read_u64_ok & H).
  apply res_bind_ok in H as ([mh off] & (-> & _ & E5)%read_array_ok & H).
  apply res_bind_ok in H as ([no off] & (-> & _ & Hn & E6)%read_u64_ok & H).
  apply res_bind_ok in H as ([sd off] & (-> & _ & E7)%read_array_ok & H).
  apply res_bind_ok in H as ([nd off] & (-> & _ & E8)%read_array_ok & H).
  apply res_bind_ok in H as ([mi off] & (-> & _ & E9)%read_array_ok & H).
  apply res_bind_ok in H as ([po off] & Hpo & H).
  apply res_bind_ok in H as (_ & Hoff%throw_if_ok & [= <-]).
  apply negb_false_iff, Nat.eqb_eq in Hoff.
  assert (drop 4 l = l !!! 4%nat :: drop 5 l) as Hver by (apply drop_lookup_total; lia).
  apply read_payout_inv in Hpo as [Epo Hcan]; [|done].
  assert (match po with
          | None => byte_to_Z (l !!! 4%nat) =? kShareVersion1
          | Some p => (byte_to_Z (l !!! 4%nat) =? kShareVersion2)
                      && arr_eqb mi (miner_id_from_payout p)
          end = true) as Hc.
  { destruct po; [done|]. simpl in Epo. apply (f_equal length) in Epo.
    rewrite length_drop in Epo. simpl in Epo. rewrite Hcan in Hlen.
    by destruct (byte_to_Z (l !!! 4%nat) =? kShareVersion1); simpl in Hlen; [|lia]. }
  split; [|split; [done|]].
  - constructor; try done. unfold is_u8, u8_max. simpl.
    pose proof (byte_to_Z_range (l !!! 4%nat)). lia.
  - unfold share_layout. simpl version. rewrite byte_of_to_Z.
    cbn [parent_id share_height timestamp zano_height mining_header_hash nonce
         share_difficulty network_difficulty miner_id payout].
    rewrite Epo, <-E9, <-E8, <-E7, <-E6, <-E5, <-E4, <-E3, <-E2, <-E1.
    change ([l !!! 4%nat] ++ drop 5 l) with (l !!! 4%nat :: drop 5 l).
    by rewrite <-Hver, <-Hm.
Qed.

(** ** Properties *)

(** [serialize_share] accepts exactly the canonical shares -- v1 without
    payout keys, v2 whose miner id is the hash of its payout keys -- and encodes
    them in 165 and 229 bytes; every other share is refused. *)
Theorem serialize_share_total : ∀ s : Share,
  match serialize_share s with
  | Ok b => share_canonical s = true ∧
            length b = (match payout s with None => 165 | Some _ => 229 end)%nat
  | Throw e => share_canonical s = false ∧ exn_class e = InvalidArgument
  end.
Proof.
  intros s. destruct (serialize_share s) as [b|e] eqn:E.
  - apply serialize_share_ok in E as [Hc ->]. split; [done|].
    rewrite length_share_layout. unfold share_size. by destruct (payout s).
  - assert (share_canonical s = false) as Hc.
    { apply not_true_iff_false. intros Hc.
      assert (serialize_share s = Ok (share_layout s)) by (by apply serialize_share_ok).
      congruence. }
    split; [done|]. unfold serialize_share, share_canonical in *.
    change kShareVersion1 with 1 in *. change kShareVersion2 with 2 in *.
    destruct (Z.eqb_spec (version s) 1), (Z.eqb_spec (version s) 2); try lia;
      destruct (payout s); try done;
      rewrite ?bool_decide_true, ?bool_decide_false in E by done;
      cbn [negb andb throw_if mbind res_bind] in *; try congruence;
      try (by injection E as <-).
    rewrite Hc in E. simpl in E. by injection E as <-.
Qed.

(** Decoding what was encoded gives the share back. *)
Theorem deserialize_serialize_share : ∀ (s : Share) (b : list byte),
  share_wf s → serialize_share s = Ok b → deserialize_share b = Ok s.
Proof.
  intros s b Hwf [Hc ->]%serialize_share_ok. by apply deserialize_share_layout.
Qed.

(** The wire form is canonical: a byte string that decodes is the encoding
    of the share it decodes to, so no two byte strings decode to one share and a
    share id is the hash of the received bytes. *)
Theorem serialize_deserialize_share : ∀ (b : list byte) (s : Share),
  deserialize_share b = Ok s →
  serialize_share s = Ok b ∧ share_wf s ∧ share_id s = Ok (cn_fast_hash b).
Proof.
  intros b s (Hwf & Hc & Hb)%deserialize_share_inv.
  assert (serialize_share s = Ok b) as Hs by (by apply serialize_share_ok).
  split; [done|]. split; [done|]. unfold share_id. by rewrite Hs.
Qed.

(** A nonzero 128-bit difficulty survives the trip through its decimal
    text. *)
Theorem difficulty128_decimal_roundtrip : ∀ d : Difficulty128,
  difficulty128_is_zero d = false →
  difficulty128_from_decimal (difficulty128_to_decimal d) = Ok d.
Proof.
  intros d Hz. rewrite difficulty128_to_decimal_Z.
  rewrite difficulty128_is_zero_Z in Hz. bool_prop.
  unfold difficulty128_from_decimal, parse_uint128_decimal.
  pose proof (diff128_range d). rewrite parse_u128_dec_str by lia. simpl.
  unfold mret, res_ret. f_equal. apply arr_Z_inj. rewrite arr_Z_fill_be.
  apply Z.mod_small. apply arr_Z_range.
Qed.
