(* ===== verification/SidechainParams.v ===== *)
(** Consensus parameters of the sidechain and their identity:
    [include/zano_p2pool/sidechain_params.hpp]. *)
From S2P Require Import Prelude CryptoHash PowTarget Share.

Abbreviation SidechainId := Hash256.

Definition kSidechainParameterVersion : Z := 4.
Definition kSidechainIdDomain : list byte :=
  [Byte.x5a; Byte.x50; Byte.x32; Byte.x53; Byte.x49; Byte.x44; Byte.x56; Byte.x34].
Definition kOperatorFeeBasisPointDenominator : Z := 10000.
Definition kCanonicalOperatorFeeBasisPoints : Z := 100.
Definition kCanonicalPplnsWindowShares : Z := 31.
Definition kShareMaxFutureSeconds : Z := 60.
Definition kShareMaxParentBackstepSeconds : Z := 60.

Definition kCanonicalOperatorFeePayout : PayoutPublicKeys := mkPayout
  (fill_be 32 0x0a7e53f700f46f2e5d283aaacbfc6e69c9532a5628c9fdf807f258e0cbba0ce1)
  (fill_be 32 0xdd5dd90b2cc8c197ea297e06561929c0422bfe9bff495c5d6272c2373f5f129e).

(** An [enum class : std::uint8_t] can hold values outside its enumerators,
    which the code guards against; the constructor [OtherNetwork] carries them. *)
Inductive SidechainParentNetwork := Testnet | Mainnet | OtherNetwork (tag : Z).
#[export] Instance SidechainParentNetwork_eq_dec : EqDecision SidechainParentNetwork.
Proof. solve_decision. Defined.

Definition network_tag (n : SidechainParentNetwork) : Z :=
  match n with Testnet => 1 | Mainnet => 2 | OtherNetwork tag => tag end.

Record SidechainParameters := mkParams {
  parameter_version : Z;
  parent_network : SidechainParentNetwork;
  minimum_share_version : Z;
  maximum_share_version : Z;
  max_future_seconds : Z;
  max_parent_backstep_seconds : Z;
  target_share_seconds : Z;
  minimum_share_difficulty : Z;
  difficulty_window_shares : Z;
  pplns_window_shares : Z;
  pplns_max_network_difficulty_multiplier : Z;
  operator_fee_basis_points : Z;
  operator_fee_payout : PayoutPublicKeys }.

(** Ranges of the fixed-width integer members. *)
Record params_wf (p : SidechainParameters) : Prop := {
  pwf_parameter_version : is_u8 (parameter_version p);
  pwf_min_version : is_u8 (minimum_share_version p);
  pwf_max_version : is_u8 (maximum_share_version p);
  pwf_future : is_u64 (max_future_seconds p);
  pwf_backstep : is_u64 (max_parent_backstep_seconds p);
  pwf_target : is_u64 (target_share_seconds p);
  pwf_min_diff : is_u64 (minimum_share_difficulty p);
  pwf_window : is_u64 (difficulty_window_shares p);
  pwf_pplns : is_u64 (pplns_window_shares p);
  pwf_multiplier : is_u64 (pplns_max_network_difficulty_multiplier p);
  pwf_fee : is_u64 (operator_fee_basis_points p) }.

Definition default_sidechain_parameters : SidechainParameters := {|
  parameter_version := kSidechainParameterVersion;
  parent_network := Testnet;
  minimum_share_version := kShareVersion2;
  maximum_share_version := kShareVersion2;
  max_future_seconds := kShareMaxFutureSeconds;
  max_parent_backstep_seconds := kShareMaxParentBackstepSeconds;
  target_share_seconds := 10;
  minimum_share_difficulty := 100000000;
  difficulty_window_shares := 2160;
  pplns_window_shares := kCanonicalPplnsWindowShares;
  pplns_max_network_difficulty_multiplier := 2;
  operator_fee_basis_points := kCanonicalOperatorFeeBasisPoints;
  operator_fee_payout := kCanonicalOperatorFeePayout |}.

Definition set_parent_network (n : SidechainParentNetwork) (p : SidechainParameters) :=
  mkParams (parameter_version p) n (minimum_share_version p) (maximum_share_version p)
    (max_future_seconds p) (max_parent_backstep_seconds p) (target_share_seconds p)
    (minimum_share_difficulty p) (difficulty_window_shares p) (pplns_window_shares p)
    (pplns_max_network_difficulty_multiplier p) (operator_fee_basis_points p)
    (operator_fee_payout p).

Definition canonical_sidechain_parameters (network : SidechainParentNetwork)
    : res SidechainParameters :=
  match network with
  | Testnet | Mainnet => Ok (set_parent_network network default_sidechain_parameters)
  | OtherNetwork _ => throw InvalidArgument "unsupported sidechain parent network"
  end.

Definition serialize_sidechain_parameters (params : SidechainParameters) : res (list byte) :=
  _ ← throw_if (negb (parameter_version params =? kSidechainParameterVersion))
        InvalidArgument "unsupported sidechain parameter version";
  _ ← throw_if (negb (bool_decide (parent_network params = Testnet)) &&
                negb (bool_decide (parent_network params = Mainnet)))
        InvalidArgument "unsupported sidechain parent network";
  _ ← throw_if ((minimum_share_version params =? 0) ||
                (maximum_share_version params <? minimum_share_version params))
        InvalidArgument "invalid sidechain share-version range";
  _ ← throw_if (target_share_seconds params =? 0)
        InvalidArgument "sidechain target share interval must be nonzero";
  _ ← throw_if (minimum_share_difficulty params =? 0)
        InvalidArgument "sidechain minimum share difficulty must be nonzero";
  _ ← throw_if (difficulty_window_shares params <? 2)
        InvalidArgument "sidechain difficulty window must contain at least 2 shares";
  _ ← throw_if ((pplns_window_shares params =? 0) ||
                (kCanonicalPplnsWindowShares <? pplns_window_shares params))
        InvalidArgument "sidechain PPLNS share window must be between 1 and 31";
  _ ← throw_if (pplns_max_network_difficulty_multiplier params =? 0)
        InvalidArgument "sidechain PPLNS work multiplier must be nonzero";
  _ ← throw_if ((operator_fee_basis_points params =? 0) ||
                (kOperatorFeeBasisPointDenominator <=? operator_fee_basis_points params))
        InvalidArgument "sidechain operator fee must be between 1 and 9999 basis points";
  _ ← throw_if (arr_eqb (spend_public_key (operator_fee_payout params)) (arr_zero 32) ||
                arr_eqb (view_public_key (operator_fee_payout params)) (arr_zero 32))
        InvalidArgument "sidechain operator fee payout identity must be nonzero";
  let bytes := kSidechainIdDomain in
  let bytes := bytes ++ [byte_of_Z (network_tag (parent_network params))] in
  let bytes := bytes ++ [byte_of_Z (minimum_share_version params)] in
  let bytes := bytes ++ [byte_of_Z (maximum_share_version params)] in
  let bytes := append_u64_be bytes (max_future_seconds params) in
  let bytes := append_u64_be bytes (max_parent_backstep_seconds params) in
  let bytes := append_u64_be bytes (target_share_seconds params) in
  let bytes := append_u64_be bytes (minimum_share_difficulty params) in
  let bytes := append_u64_be bytes (difficulty_window_shares params) in
  let bytes := append_u64_be bytes (pplns_window_shares params) in
  let bytes := append_u64_be bytes (pplns_max_network_difficulty_multiplier params) in
  let bytes := append_u64_be bytes (operator_fee_basis_points params) in
  let bytes := append_array bytes (spend_public_key (operator_fee_payout params)) in
  let bytes := append_array bytes (view_public_key (operator_fee_payout params)) in
  mret bytes.

Definition sidechain_id (params : SidechainParameters) : res SidechainId :=
  cn_fast_hash <$> serialize_sidechain_parameters params.

Definition is_zero_sidechain_id (id : SidechainId) : bool := all_zero (vec_to_list id).

(** ** Lemmas *)

(** What the serializer's checks establish. *)
Record params_valid (p : SidechainParameters) : Prop := {
  pv_version : parameter_version p = kSidechainParameterVersion;
  pv_network : parent_network p = Testnet ∨ parent_network p = Mainnet;
  pv_share_version : minimum_share_version p ≠ 0 ∧
                     minimum_share_version p ≤ maximum_share_version p;
  pv_target : target_share_seconds p ≠ 0;
  pv_min_diff : minimum_share_difficulty p ≠ 0;
  pv_window : 2 ≤ difficulty_window_shares p;
  pv_pplns : pplns_window_shares p ≠ 0 ∧ pplns_window_shares p ≤ kCanonicalPplnsWindowShares;
  pv_multiplier : pplns_max_network_difficulty_multiplier p ≠ 0;
  pv_fee : operator_fee_basis_points p ≠ 0 ∧ operator_fee_basis_points p < 10000;
  pv_payout : spend_public_key (operator_fee_payout p) ≠ arr_zero 32 ∧
              view_public_key (operator_fee_payout p) ≠ arr_zero 32 }.

Definition params_layout (p : SidechainParameters) : list byte :=
  kSidechainIdDomain ++
  [byte_of_Z (network_tag (parent_network p)); byte_of_Z (minimum_share_version p);
   byte_of_Z (maximum_share_version p)] ++
  be_bytes 8 (max_future_seconds p) ++ be_bytes 8 (max_parent_backstep_seconds p) ++
  be_bytes 8 (target_share_seconds p) ++ be_bytes 8 (minimum_share_difficulty p) ++
  be_bytes 8 (difficulty_window_shares p) ++ be_bytes 8 (pplns_window_shares p) ++
  be_bytes 8 (pplns_max_network_difficulty_multiplier p) ++
  be_bytes 8 (operator_fee_basis_points p) ++
  vec_to_list (spend_public_key (operator_fee_payout p)) ++
  vec_to_list (view_public_key (operator_fee_payout p)).

Lemma serialize_params_ok p b :
  serialize_sidechain_parameters p = Ok b → params_valid p ∧ b = params_layout p.
Proof.
  unfold serialize_sidechain_parameters. intros H.
  repeat match type of H with
  | (throw_if _ _ _ ≫= _) = _ =>
      let E := fresh "E" in
      apply res_bind_ok in H as (_ & E%throw_if_ok & H)
  end.
  injection H as <-. bool_prop. split.
  - constructor; try done.
    apply andb_false_iff in E0 as [?|?]; bool_prop; auto.
  - unfold append_array, append_u64_be, params_layout. by rewrite <-!app_assoc.
Qed.

Lemma be_bytes_inj n a b : be_bytes n a = be_bytes n b → a mod pow256 n = b mod pow256 n.
Proof. intros E. by rewrite <-!be_Z_be_bytes, E. Qed.

Lemma be_bytes8_inj a b : is_u64 a → is_u64 b → be_bytes 8 a = be_bytes 8 b → a = b.
Proof.
  unfold is_u64, u64_max. intros Ha Hb E. apply be_bytes_inj in E.
  change (pow256 8) with 18446744073709551616 in E. rewrite !Z.mod_small in E by lia. done.
Qed.

Lemma byte_of_Z_inj a b : is_u8 a → is_u8 b → byte_of_Z a = byte_of_Z b → a = b.
Proof.
  unfold is_u8, u8_max. intros Ha Hb E. apply (f_equal byte_to_Z) in E.
  rewrite !byte_to_of_Z, !Z.mod_small in E by lia. done.
Qed.

(** The identity encoding loses nothing: two parameter sets that pass the
    checks and have the same serialization are equal field by field, so the
    sidechain id commits to every consensus parameter. *)
Theorem serialize_params_injective : ∀ (p q : SidechainParameters) (b : list byte),
  params_wf p → params_wf q →
  serialize_sidechain_parameters p = Ok b →
  serialize_sidechain_parameters q = Ok b →
  p = q.
Proof.
  intros p q b Hp Hq [Vp Ep]%serialize_params_ok [Vq Eq]%serialize_params_ok.
  rewrite Ep in Eq. clear b Ep. unfold params_layout in Eq. apply app_inv_head in Eq.
  repeat (apply app_inj_1 in Eq as [? Eq];
          [|by rewrite ?length_be_bytes, ?length_vec_to_list]).
  destruct Hp, Hq, Vp, Vq.
  destruct p as [? ? ? ? ? ? ? ? ? ? ? ? [? ?]], q as [? ? ? ? ? ? ? ? ? ? ? ? [? ?]].
  simpl in *.
  match goal with H : [_; _; _] = [_; _; _] |- _ => injection H as ? ? ? end.
  f_equal; try (by apply be_bytes8_inj); try (by apply byte_of_Z_inj); try lia.
  - destruct pv_network0 as [->| ->], pv_network1 as [->| ->]; done.
  - f_equal; by apply vec_to_list_inj2.
Qed.

(** Both canonical parameter sets pass their own validation gate, and their
    sidechain ids differ, so a testnet node never accepts mainnet peers. *)
Theorem canonical_sidechain_ids_distinct :
  ∃ pt pm it im,
    canonical_sidechain_parameters Testnet = Ok pt ∧
    canonical_sidechain_parameters Mainnet = Ok pm ∧
    sidechain_id pt = Ok it ∧ sidechain_id pm = Ok im ∧
    it ≠ im ∧ is_zero_sidechain_id it = false ∧ is_zero_sidechain_id im = false.
Proof.
  do 4 eexists. split; [reflexivity|]. split; [reflexivity|].
  split; [vm_compute; reflexivity|]. split; [vm_compute; reflexivity|].
  split; [|split; vm_compute; reflexivity].
  intros E. apply (f_equal vec_to_list) in E. vm_compute in E. congruence.
Qed.
