(* ===== verification/Difficulty.v ===== *)
(** Branch-relative share-difficulty retargeting:
    [include/zano_p2pool/sidechain_difficulty.hpp].  [cpp_int] is [Z];
    timestamps keep the wrap-around of [std::uint64_t] written out. *)
From S2P Require Import Prelude CryptoHash PowTarget Share SidechainParams.

Abbreviation ChainWork := (bytes 32).

Record SidechainDifficultySample := mkSample {
  sample_timestamp : Z;
  sample_work : ChainWork }.

Definition big_endian_to_int (l : list byte) : Z :=
  fold_left (λ value b, Z.shiftl value 8 + byte_to_Z b) l 0.

Definition int_to_difficulty128 (value : Z) : res Difficulty128 :=
  _ ← throw_if (value <=? 0) RuntimeError "sidechain difficulty must be positive";
  let result := fill_be 16 value in
  let value := Nat.iter 16 (λ v, Z.shiftr v 8) value in
  _ ← throw_if (negb (value =? 0)) RuntimeError "sidechain difficulty exceeds 128 bits";
  mret result.

(** [std::nth_element] followed by reading position [i]: the element a full
    sort would put there. *)
Definition nth_element (l : list Z) (i : nat) : Z := nth i (merge_sort Z.le l) 0.

(** The delta loop. *)
Fixpoint timestamp_deltas (oldest : Z) (samples : list SidechainDifficultySample)
    : res (list Z) :=
  match samples with
  | [] => Ok []
  | sample :: rest =>
      let delta := wrap64 (sample_timestamp sample - oldest) in
      _ ← throw_if (u32_max <? delta) RuntimeError
            "sidechain difficulty timestamp range is too large";
      deltas ← timestamp_deltas oldest rest;
      mret (delta :: deltas)
  end.

Definition oldest_timestamp (samples : list SidechainDifficultySample) : Z :=
  fold_left (λ o s, Z.min o (sample_timestamp s)) samples u64_max.

(** The work loop: the (minimum, maximum) cumulative work of the retained
    samples; [None] is [found == false]. *)
Definition retained_work (t1 t2 : Z) (samples : list SidechainDifficultySample)
    : option (Z * Z) :=
  fold_left
    (λ acc s,
       if (sample_timestamp s <? t1) || (t2 <? sample_timestamp s) then acc
       else
         let work := big_endian_to_int (vec_to_list (sample_work s)) in
         match acc with
         | None => Some (work, work)
         | Some (lo, hi) => Some (Z.min lo work, Z.max hi work)
         end)
    samples None.

Definition calculate_next_sidechain_difficulty
    (history : list SidechainDifficultySample)
    (target_share_seconds minimum_share_difficulty difficulty_window_shares : Z)
    (network_difficulty : Difficulty128) : res Difficulty128 :=
  _ ← throw_if ((target_share_seconds =? 0) || (minimum_share_difficulty =? 0) ||
                (difficulty_window_shares <? 2))
        InvalidArgument "invalid sidechain difficulty parameters";
  _ ← throw_if (difficulty128_is_zero network_difficulty)
        InvalidArgument "network difficulty must be nonzero";
  let network := big_endian_to_int (vec_to_list network_difficulty) in
  let effective_minimum := Z.min minimum_share_difficulty network in
  if bool_decide (history = []) then int_to_difficulty128 effective_minimum
  else
    let sample_count :=
      Z.to_nat (Z.min (Z.of_nat (length history)) difficulty_window_shares) in
    let samples := take sample_count history in
    let oldest := oldest_timestamp samples in
    deltas ← timestamp_deltas oldest samples;
    let cut_size := ((sample_count + 9) / 10)%nat in
    let index1 := (cut_size - 1)%nat in
    let index2 := (sample_count - cut_size)%nat in
    let timestamp1 := wrap64 (oldest + nth_element deltas index1) in
    let timestamp2 := wrap64 (oldest + nth_element deltas index2) in
    let delta_index := if (index1 <? index2)%nat then Z.of_nat (index2 - index1) else 1 in
    let timestamp_span :=
      if timestamp1 <? timestamp2 then timestamp2 - timestamp1 else 0 in
    let delta_t := Z.max timestamp_span delta_index in
    match retained_work timestamp1 timestamp2 samples with
    | None => throw RuntimeError "sidechain difficulty retained no samples"
    | Some (minimum_work, maximum_work) =>
        let next := (maximum_work - minimum_work) * target_share_seconds / delta_t in
        let next := Z.max next effective_minimum in
        let next := Z.min next network in
        int_to_difficulty128 next
    end.

(** ** Lemmas *)

Lemma big_endian_to_int_be l : big_endian_to_int l = be_Z l.
Proof.
  unfold big_endian_to_int, be_Z. generalize 0.
  induction l as [|b l IH]; intros v; simpl; [done|].
  by rewrite IH, Z.shiftl_mul_pow2 by lia.
Qed.

Lemma int_to_difficulty128_ok z :
  0 < z ≤ u128_max → ∃ d, int_to_difficulty128 z = Ok d ∧ arr_Z d = z.
Proof.
  intros Hz. exists (fill_be 16 z). unfold int_to_difficulty128.
  destruct (Z.leb_spec z 0); [lia|]. cbn [throw_if mbind res_bind].
  assert (z < pow256 16) by (change (pow256 16) with (u128_max + 1); lia).
  rewrite (proj2 (shiftr8_iter_zero 16 z ltac:(lia))) by done. split; [done|].
  rewrite arr_Z_fill_be. apply Z.mod_small. lia.
Qed.

Abbreviation ts := sample_timestamp.
Definition sample_Z (s : SidechainDifficultySample) : Z := arr_Z (sample_work s).

Lemma oldest_timestamp_spec samples :
  samples ≠ [] → (∀ s, s ∈ samples → is_u64 (ts s)) →
  (∃ s, s ∈ samples ∧ oldest_timestamp samples = ts s) ∧
  (∀ s, s ∈ samples → oldest_timestamp samples ≤ ts s).
Proof.
  unfold oldest_timestamp, is_u64. intros Hne Hwf.
  assert (∀ l o, (fold_left (λ o s, Z.min o (ts s)) l o = o ∨
             ∃ s, s ∈ l ∧ fold_left (λ o s, Z.min o (ts s)) l o = ts s) ∧
           fold_left (λ o s, Z.min o (ts s)) l o ≤ o ∧
           ∀ s, s ∈ l → fold_left (λ o s, Z.min o (ts s)) l o ≤ ts s) as H.
  { clear. induction l as [|x l IH]; intros o; simpl; [set_solver by lia|].
    destruct (IH (Z.min o (ts x))) as (Hor & Hle & Hall). split; [|split; [lia|]].
    - destruct Hor as [E|(s & Hs & E)]; [|right; exists s; split; [by right|done]].
      destruct (Z.min_spec o (ts x)) as [[_ Em]|[_ Em]]; rewrite Em in E at 2;
        [by left|right; exists x; split; [by left|done]].
    - intros s [->|Hs]%elem_of_cons; [lia|auto]. }
  destruct (H samples u64_max) as (Hor & Hle & Hall). split; [|done].
  destruct Hor as [E|?]; [|done]. rewrite E.
  destruct samples as [|x l]; [done|]. exists x. split; [by left|].
  assert (x ∈ x :: l) as Hx by left. specialize (Hall x Hx). specialize (Hwf x Hx). lia.
Qed.

Lemma timestamp_deltas_ok oldest samples :
  (∀ s, s ∈ samples → 0 ≤ ts s - oldest ≤ u32_max) →
  timestamp_deltas oldest samples = Ok ((λ s, ts s - oldest) <$> samples).
Proof.
  induction samples as [|x l IH]; intros H; [done|]. csimpl.
  pose proof (H x ltac:(left)). rewrite wrap64_id by (unfold is_u64, u32_max, u64_max in *; lia).
  destruct (Z.ltb_spec u32_max (ts x - oldest)); [lia|]. cbn [throw_if mbind res_bind].
  rewrite IH; [done|]. intros s Hs. apply H. by right.
Qed.

Lemma nth_element_elem l i : (i < length l)%nat → nth_element l i ∈ l.
Proof.
  intros Hi. unfold nth_element.
  assert (∀ x, x ∈ merge_sort Z.le l → x ∈ l) as H
    by (intros x; by rewrite merge_sort_Permutation).
  apply H, list_elem_of_In, nth_In. by rewrite merge_sort_Permutation.
Qed.

Lemma sorted_nth_mono (l : list Z) i j :
  StronglySorted Z.le l → (i ≤ j)%nat → (j < length l)%nat → nth i l 0 ≤ nth j l 0.
Proof.
  intros Hs. revert i j. induction Hs as [|x l Hl IH Hx]; intros [|i] [|j] Hij Hj;
    simpl in *; try lia.
  - rewrite Forall_forall in Hx. apply Hx, list_elem_of_In, nth_In. lia.
  - apply IH; lia.
Qed.

Lemma nth_element_mono l i j :
  (i ≤ j)%nat → (j < length l)%nat → nth_element l i ≤ nth_element l j.
Proof.
  intros Hij Hj. apply sorted_nth_mono; [|done|by rewrite merge_sort_Permutation].
  apply StronglySorted_merge_sort; apply _.
Qed.

(** [retained_work] is the minimum and the maximum of the work in the band. *)
Definition in_band (t1 t2 : Z) (s : SidechainDifficultySample) : Prop := t1 ≤ ts s ≤ t2.

Definition band_extremes (t1 t2 : Z) (samples : list SidechainDifficultySample)
    (o : option (Z * Z)) : Prop :=
  match o with
  | None => ∀ s, s ∈ samples → ¬ in_band t1 t2 s
  | Some (lo, hi) =>
      (∀ s, s ∈ samples → in_band t1 t2 s → lo ≤ sample_Z s ≤ hi) ∧
      (∃ s, s ∈ samples ∧ in_band t1 t2 s ∧ sample_Z s = lo) ∧
      (∃ s, s ∈ samples ∧ in_band t1 t2 s ∧ sample_Z s = hi)
  end.

Lemma band_extremes_snoc t1 t2 l s o :
  band_extremes t1 t2 l o →
  band_extremes t1 t2 (l ++ [s])
    (if (ts s <? t1) || (t2 <? ts s) then o
     else match o with
          | None => Some (sample_Z s, sample_Z s)
          | Some (lo, hi) => Some (Z.min lo (sample_Z s), Z.max hi (sample_Z s))
          end).
Proof.
  intros H. destruct ((ts s <? t1) || (t2 <? ts s)) eqn:E.
  - assert (¬ in_band t1 t2 s)
      by (unfold in_band; apply orb_true_iff in E as [?|?]; bool_prop; lia).
    destruct o as [[lo hi]|]; simpl in *; setoid_rewrite elem_of_app;
      setoid_rewrite list_elem_of_singleton; naive_solver.
  - assert (in_band t1 t2 s) by (unfold in_band; bool_prop; lia).
    destruct o as [[lo hi]|]; simpl in *; setoid_rewrite elem_of_app;
      setoid_rewrite list_elem_of_singleton; [|naive_solver lia].
    destruct H as (Hall & (a & ? & ? & Ha) & (b & ? & ? & Hb)). split; [|split].
    + intros x [Hx| ->] Hband; [specialize (Hall x Hx Hband); lia|lia].
    + destruct (Z.min_spec lo (sample_Z s)) as [[_ ->]|[_ ->]]; eauto 7.
    + destruct (Z.max_spec hi (sample_Z s)) as [[_ ->]|[_ ->]]; eauto 7.
Qed.

Lemma retained_work_spec t1 t2 samples :
  band_extremes t1 t2 samples (retained_work t1 t2 samples).
Proof.
  unfold retained_work. induction samples as [|s l IH] using rev_ind.
  - simpl. set_solver.
  - rewrite fold_left_app. simpl. rewrite big_endian_to_int_be.
    by apply band_extremes_snoc.
Qed.

(** ** Retargeting on a window without timestamp overflow

    The loops reduce to order statistics: [t1] and [t2] are the timestamps at
    the 10% cuts of the sorted window, and the retained work is measured over
    the shares between them. *)
Definition window_ok (samples : list SidechainDifficultySample) : Prop :=
  (∀ s, s ∈ samples → is_u64 (ts s)) ∧
  (∀ s t, s ∈ samples → t ∈ samples → ts s - ts t ≤ u32_max).

Definition cut_of (n : nat) : nat := ((n + 9) / 10)%nat.

Lemma cut_of_bounds n :
  (1 ≤ n)%nat → (1 ≤ cut_of n ∧ cut_of n - 1 ≤ n - cut_of n ∧ n - cut_of n < n)%nat.
Proof. unfold cut_of. intros. pose proof (Nat.div_mod_eq (n + 9) 10).
  pose proof (Nat.mod_upper_bound (n + 9) 10). lia.
Qed.

Definition cut_time (samples : list SidechainDifficultySample) (i : nat) : Z :=
  nth i (merge_sort Z.le (ts <$> samples)) 0.

Lemma sorted_shift (l : list Z) o :
  StronglySorted Z.le l → StronglySorted Z.le ((λ x, x - o) <$> l).
Proof.
  induction 1 as [|x l Hl IH Hx]; [constructor|]. csimpl. constructor; [done|].
  rewrite Forall_fmap. eapply Forall_impl; [done|]. simpl. lia.
Qed.

Lemma nth_element_shift l o i :
  (i < length l)%nat → nth_element ((λ x, x - o) <$> l) i = nth i (merge_sort Z.le l) 0 - o.
Proof.
  intros Hi. unfold nth_element.
  assert (merge_sort Z.le ((λ x, x - o) <$> l) = (λ x, x - o) <$> merge_sort Z.le l) as ->.
  { apply (StronglySorted_unique Z.le).
    - apply StronglySorted_merge_sort; apply _.
    - apply sorted_shift, StronglySorted_merge_sort; apply _.
    - rewrite merge_sort_Permutation. apply fmap_Permutation. symmetry.
      apply merge_sort_Permutation. }
  rewrite (nth_indep _ 0 ((λ x, x - o) 0))
    by (rewrite length_fmap, merge_sort_Permutation; done).
  apply (map_nth (λ x, x - o)).
Qed.

Lemma cut_time_elem samples i :
  (i < length samples)%nat → ∃ s, s ∈ samples ∧ cut_time samples i = ts s.
Proof.
  intros Hi. pose proof (nth_element_elem (ts <$> samples) i) as H.
  rewrite length_fmap in H. specialize (H Hi).
  apply list_elem_of_fmap in H as (s & E & Hs). exists s. done.
Qed.

Lemma cut_time_mono samples i j :
  (i ≤ j)%nat → (j < length samples)%nat → cut_time samples i ≤ cut_time samples j.
Proof.
  intros Hij Hj. apply (nth_element_mono (ts <$> samples)); [done|]. by rewrite length_fmap.
Qed.

(** The value the code computes before clamping. *)
Definition retarget (samples : list SidechainDifficultySample) (target : Z) : Z :=
  let n := length samples in
  let t1 := cut_time samples (cut_of n - 1) in
  let t2 := cut_time samples (n - cut_of n) in
  let delta_index := Z.max 1 (Z.of_nat (n - cut_of n) - Z.of_nat (cut_of n - 1)) in
  match retained_work t1 t2 samples with
  | None => 0
  | Some (lo, hi) => (hi - lo) * target / Z.max (t2 - t1) delta_index
  end.

Definition clamp (lo hi z : Z) : Z := Z.min (Z.max z lo) hi.

Lemma window_take (history : list SidechainDifficultySample) window :
  2 ≤ window → history ≠ [] →
  let n := Z.to_nat (Z.min (Z.of_nat (length history)) window) in
  length (take n history) = n ∧ (1 ≤ n)%nat ∧ take n history = take (Z.to_nat window) history.
Proof.
  intros Hw Hne n. assert (1 ≤ length history)%nat by (destruct history; simpl; [done|lia]).
  unfold n. split; [rewrite length_take; lia|]. split; [lia|].
  destruct (Z.le_ge_cases (Z.of_nat (length history)) window).
  - rewrite Z.min_l by done. rewrite !take_ge by lia. done.
  - by rewrite Z.min_r by done.
Qed.

Lemma calculate_reduces history target minimum window network :
  target ≠ 0 → minimum ≠ 0 → 2 ≤ window → difficulty128_is_zero network = false →
  history ≠ [] → window_ok (take (Z.to_nat window) history) →
  calculate_next_sidechain_difficulty history target minimum window network =
  int_to_difficulty128
    (clamp (Z.min minimum (arr_Z network)) (arr_Z network)
       (retarget (take (Z.to_nat window) history) target)).
Proof.
  intros Ht Hm Hw Hn Hne. destruct (window_take history window Hw Hne) as (Hlen & Hn1 & Htake).
  unfold calculate_next_sidechain_difficulty.
  set (n := Z.to_nat (Z.min (Z.of_nat (length history)) window)) in *.
  rewrite Htake in *. set (samples := take (Z.to_nat window) history) in *.
  intros [Hu Hspan].
  destruct (Z.eqb_spec target 0); [done|]. destruct (Z.eqb_spec minimum 0); [done|].
  destruct (Z.ltb_spec window 2); [lia|]. rewrite Hn, bool_decide_false by done.
  cbn [orb throw_if mbind res_bind].
  assert (samples ≠ []) as Hsne by (destruct samples; simpl in *; [lia|done]).
  destruct (oldest_timestamp_spec samples Hsne Hu) as [(so & Hso & Eo) Hold].
  assert (∀ s, s ∈ samples → 0 ≤ ts s - oldest_timestamp samples ≤ u32_max) as Hd.
  { intros s Hs. specialize (Hold s Hs). specialize (Hspan s so Hs Hso). lia. }
  rewrite timestamp_deltas_ok by done. cbn [mbind res_bind].
  assert (∀ i, (i < n)%nat →
    wrap64 (oldest_timestamp samples
            + nth_element ((λ s, ts s - oldest_timestamp samples) <$> samples) i)
    = cut_time samples i) as Hcut.
  { intros i Hi.
    change ((λ s, ts s - oldest_timestamp samples) <$> samples)
      with ((λ x, x - oldest_timestamp samples) ∘ ts <$> samples).
    rewrite list_fmap_compose.
    rewrite nth_element_shift by (rewrite length_fmap; lia). fold (cut_time samples i).
    replace (_ + (_ - _)) with (cut_time samples i) by lia. apply wrap64_id.
    destruct (cut_time_elem samples i) as (s & Hs & ->); [lia|]. auto. }
  fold (cut_of n). destruct (cut_of_bounds n Hn1) as (? & ? & ?).
  rewrite !Hcut by lia. unfold retarget. rewrite Hlen.
  assert (cut_time samples (cut_of n - 1) ≤ cut_time samples (n - cut_of n))
    by (apply cut_time_mono; lia).
  set (t1 := cut_time samples (cut_of n - 1)) in *.
  set (t2 := cut_time samples (n - cut_of n)) in *.
  rewrite big_endian_to_int_be. fold (arr_Z network).
  pose proof (retained_work_spec t1 t2 samples) as Hret.
  destruct (retained_work t1 t2 samples) as [[lo hi]|].
  - replace (Z.max (if t1 <? t2 then _ else _) _)
      with (Z.max (t2 - t1)
              (Z.max 1 (Z.of_nat (n - cut_of n) - Z.of_nat (cut_of n - 1)))); [done|].
    destruct (Z.ltb_spec t1 t2), (Nat.ltb_spec (cut_of n - 1) (n - cut_of n)); lia.
  - exfalso. destruct (cut_time_elem samples (cut_of n - 1)) as (s & Hs & E); [lia|].
    apply (Hret s Hs). unfold in_band. fold t1 in E. lia.
Qed.

Lemma clamp_bounds lo hi z : lo ≤ hi → lo ≤ clamp lo hi z ≤ hi.
Proof. unfold clamp. lia. Qed.

Lemma band_extremes_unique t1 t2 l k o o' :
  l ≡ₚ k → band_extremes t1 t2 l o → band_extremes t1 t2 k o' → o = o'.
Proof.
  intros Hp H H'. assert (∀ s, s ∈ l ↔ s ∈ k) as Hin by (intros s; by rewrite Hp).
  destruct o as [[lo hi]|], o' as [[lo' hi']|]; simpl in *; [|naive_solver..].
  destruct H as (Hall & (a & ? & ? & Ha) & (b & ? & ? & Hb)).
  destruct H' as (Hall' & (a' & ? & ? & Ha') & (b' & ? & ? & Hb')).
  pose proof (Hall a' ltac:(by apply Hin)). pose proof (Hall b' ltac:(by apply Hin)).
  pose proof (Hall' a ltac:(by apply Hin)). pose proof (Hall' b ltac:(by apply Hin)).
  f_equal. f_equal; intuition lia.
Qed.

Lemma retarget_perm l k target : l ≡ₚ k → retarget l target = retarget k target.
Proof.
  intros Hp. unfold retarget, cut_time. rewrite (Permutation_length Hp).
  assert (merge_sort Z.le (ts <$> l) = merge_sort Z.le (ts <$> k)) as ->.
  { apply (StronglySorted_unique Z.le); [apply StronglySorted_merge_sort; apply _..|].
    by rewrite !merge_sort_Permutation, Hp. }
  set (t1 := nth _ _ _). set (t2 := nth _ _ _).
  by rewrite (band_extremes_unique t1 t2 l k _ _ Hp
                (retained_work_spec t1 t2 l) (retained_work_spec t1 t2 k)).
Qed.

Lemma window_ok_perm l k : l ≡ₚ k → window_ok l → window_ok k.
Proof.
  intros Hp [H1 H2]. assert (∀ s, s ∈ k → s ∈ l) by (intros s; by rewrite Hp).
  split; eauto.
Qed.

Lemma calculate_total history target minimum window (network : Difficulty128) :
  0 < target → 0 < minimum → 2 ≤ window → difficulty128_is_zero network = false →
  window_ok (take (Z.to_nat window) history) →
  ∃ d, calculate_next_sidechain_difficulty history target minimum window network = Ok d ∧
       Z.min minimum (arr_Z network) ≤ arr_Z d ≤ arr_Z network.
Proof.
  intros Ht Hm Hw2 Hn Hok.
  pose proof (diff128_range network). pose proof Hn as Hn'.
  rewrite difficulty128_is_zero_Z in Hn'. bool_prop.
  destruct (decide (history = [])) as [->|Hne].
  - unfold calculate_next_sidechain_difficulty.
    destruct (Z.eqb_spec target 0); [lia|]. destruct (Z.eqb_spec minimum 0); [lia|].
    destruct (Z.ltb_spec window 2); [lia|]. rewrite Hn, bool_decide_true by done.
    cbn [orb throw_if mbind res_bind]. rewrite big_endian_to_int_be. fold (arr_Z network).
    destruct (int_to_difficulty128_ok (Z.min minimum (arr_Z network))) as (d & Hd & E); [lia|].
    exists d. rewrite E. split; [done|lia].
  - rewrite calculate_reduces by (done || lia).
    pose proof (clamp_bounds (Z.min minimum (arr_Z network)) (arr_Z network)
      (retarget (take (Z.to_nat window) history) target) ltac:(lia)).
    destruct (int_to_difficulty128_ok (clamp (Z.min minimum (arr_Z network)) (arr_Z network)
      (retarget (take (Z.to_nat window) history) target))) as (d & Hd & E); [lia|].
    exists d. rewrite E. done.
Qed.

(** C30: the retarget never fails on a window whose timestamps span at most
    2^32 - 1 seconds, and its result always lies between the configured minimum
    (capped by the network difficulty) and the network difficulty: the division,
    the clamps and the 128-bit conversion never overflow. *)
Theorem next_difficulty_total_bounded :
  ∀ history target minimum window (network : Difficulty128),
  is_u64 target → is_u64 minimum → is_u64 window →
  target ≠ 0 → minimum ≠ 0 → 2 ≤ window → difficulty128_is_zero network = false →
  window_ok (take (Z.to_nat window) history) →
  ∃ d, calculate_next_sidechain_difficulty history target minimum window network = Ok d ∧
       Z.min minimum (arr_Z network) ≤ arr_Z d ≤ arr_Z network.
Proof.
  unfold is_u64. intros. apply calculate_total; (done || lia).
Qed.

(** The retarget depends only on which shares are in the window, not on
    their order. *)
Theorem next_difficulty_order_independent :
  ∀ h1 h2 target minimum window (network : Difficulty128),
  target ≠ 0 → minimum ≠ 0 → 2 ≤ window → difficulty128_is_zero network = false →
  take (Z.to_nat window) h1 ≡ₚ take (Z.to_nat window) h2 →
  window_ok (take (Z.to_nat window) h1) →
  calculate_next_sidechain_difficulty h1 target minimum window network =
  calculate_next_sidechain_difficulty h2 target minimum window network.
Proof.
  intros h1 h2 target minimum window network Ht Hm Hw Hn Hp Hok.
  destruct (Z.to_nat window) as [|w] eqn:Ew; [lia|].
  destruct (decide (h1 = [])) as [->|H1].
  { rewrite take_nil in Hp. symmetry in Hp. apply Permutation_nil_r in Hp.
    by destruct h2. }
  assert (h2 ≠ []) as H2.
  { intros ->. rewrite take_nil in Hp. apply Permutation_nil_r in Hp. by destruct h1. }
  rewrite !calculate_reduces; rewrite ?Ew; try done; [by rewrite (retarget_perm _ _ _ Hp)|].
  by eapply window_ok_perm.
Qed.

(** ** Steady state *)

(** Newest first, one share every [T] seconds, each adding [D] to the work. *)
Definition steady (t0 T w0 D : Z) (history : list SidechainDifficultySample) : Prop :=
  ∀ i s, history !! i = Some s →
    ts s = t0 - Z.of_nat i * T ∧ sample_Z s = w0 - Z.of_nat i * D.

Section Steady.
Context (t0 T w0 D : Z) (h : list SidechainDifficultySample).
Context (HT : 0 < T) (HD : 0 ≤ D) (Hst : steady t0 T w0 D h).

Lemma steady_sorted : merge_sort Z.le (ts <$> h) = reverse (ts <$> h).
Proof using All.
  apply (StronglySorted_unique Z.le).
  - apply StronglySorted_merge_sort; apply _.
  - clear HD. revert t0 w0 Hst. induction h as [|s l IH]; intros t0' w0' Hs; [constructor|].
    csimpl. rewrite reverse_cons. apply StronglySorted_app_2.
    + intros x y Hx Hy. apply list_elem_of_singleton in Hy as ->.
      apply elem_of_reverse, list_elem_of_fmap in Hx as (a & -> & Ha).
      apply list_elem_of_lookup in Ha as [i Hi].
      destruct (Hs (S i) a Hi) as [Ea _]. destruct (Hs 0%nat s eq_refl) as [Es _]. nia.
    + apply (IH (t0' - T) (w0' - D)). intros i a Ha.
      destruct (Hs (S i) a Ha). split; lia.
    + constructor; [constructor|done].
  - by rewrite merge_sort_Permutation, reverse_Permutation.
Qed.

Lemma steady_cut i :
  (i < length h)%nat → cut_time h i = t0 - (Z.of_nat (length h) - 1 - Z.of_nat i) * T.
Proof using All.
  intros Hi. unfold cut_time. rewrite steady_sorted.
  assert (reverse (ts <$> h) !! i = Some (t0 - (Z.of_nat (length h) - 1 - Z.of_nat i) * T)) as E.
  { rewrite reverse_lookup by (by rewrite length_fmap). rewrite length_fmap, list_lookup_fmap.
    destruct (lookup_lt_is_Some_2 h (length h - S i) ltac:(lia)) as [s Hs]. rewrite Hs. csimpl.
    destruct (Hst _ _ Hs) as [-> _]. f_equal. nia. }
  by apply nth_lookup_Some with (d := 0) in E.
Qed.

Lemma steady_band i j :
  (i ≤ j)%nat → (j < length h)%nat →
  retained_work (t0 - Z.of_nat j * T) (t0 - Z.of_nat i * T) h =
  Some (w0 - Z.of_nat j * D, w0 - Z.of_nat i * D).
Proof using All.
  intros Hij Hj. eapply (band_extremes_unique _ _ h h); [done|apply retained_work_spec|].
  destruct (lookup_lt_is_Some_2 h i ltac:(lia)) as [a Ha]. destruct (lookup_lt_is_Some_2 h j Hj) as [b Hb].
  destruct (Hst _ _ Ha) as [Ea Wa]. destruct (Hst _ _ Hb) as [Eb Wb].
  split; [|split].
  - intros s Hs Hband. apply list_elem_of_lookup in Hs as [k Hk].
    destruct (Hst _ _ Hk) as [Es Ws]. unfold in_band in Hband. rewrite Es in Hband.
    rewrite Ws. nia.
  - exists b. split; [by eapply list_elem_of_lookup_2|]. split; [|done].
    unfold in_band. nia.
  - exists a. split; [by eapply list_elem_of_lookup_2|]. split; [|done].
    unfold in_band. nia.
Qed.

Lemma steady_retarget : (2 ≤ length h)%nat → retarget h T = D.
Proof using All.
  intros Hn. unfold retarget. set (n := length h) in *.
  destruct (cut_of_bounds n) as (? & ? & ?); [lia|].
  assert (2 * cut_of n ≤ n)%nat.
  { unfold cut_of. pose proof (Nat.div_mod_eq (n + 9) 10).
    pose proof (Nat.mod_upper_bound (n + 9) 10). lia. }
  rewrite !steady_cut by lia. fold n.
  replace (Z.of_nat n - 1 - Z.of_nat (cut_of n - 1)) with (Z.of_nat (n - cut_of n)) by lia.
  replace (Z.of_nat n - 1 - Z.of_nat (n - cut_of n)) with (Z.of_nat (cut_of n - 1)) by lia.
  rewrite steady_band by lia.
  set (k := Z.of_nat (n - cut_of n) - Z.of_nat (cut_of n - 1)).
  assert (1 ≤ k) by lia.
  replace (Z.max _ _) with (k * T) by nia.
  replace ((_ - _) * T) with (D * (k * T)) by nia.
  apply Z.div_mul. nia.
Qed.
End Steady.

(** Constant difficulty is a fixed point.  When the shares of the window
    arrive exactly one per target interval and each adds work [D], the next
    difficulty is [D], clamped to the configured minimum and the network
    difficulty. *)
Theorem next_difficulty_steady_state :
  ∀ t0 T w0 D minimum window (network : Difficulty128) history,
  0 < T → 0 ≤ D → minimum ≠ 0 → difficulty128_is_zero network = false →
  (2 ≤ length history)%nat → Z.of_nat (length history) ≤ window →
  steady t0 T w0 D history → window_ok history →
  calculate_next_sidechain_difficulty history T minimum window network =
  int_to_difficulty128 (clamp (Z.min minimum (arr_Z network)) (arr_Z network) D).
Proof.
  intros t0 T w0 D minimum window network h HT HD Hm Hn Hlen Hw Hst Hok.
  assert (take (Z.to_nat window) h = h) as Htake by (apply take_ge; lia).
  rewrite calculate_reduces; rewrite ?Htake; try done; try lia.
  - by rewrite (steady_retarget t0 T w0 D).
  - intros ->. simpl in Hlen. lia.
Qed.
