(* ===== verification/ShareChain.v ===== *)
(** The share chain: [include/zano_p2pool/share_chain.hpp], [src/share_chain.cpp].

    The class is the record [ShareChain]; every [std::map] of it is a [gmap]
    keyed by share id.  Const methods are functions to [res]; mutating methods
    are [exec ShareChain _], so that a throw keeps the mutations made before it.
    This file holds the operations; the invariant and the theorems are in the
    files that follow. *)
From Stdlib Require Import Ascii.
From S2P Require Import Prelude CryptoHash PowTarget Share SidechainParams Difficulty.

(** ** Work *)

Definition share_work (difficulty : Difficulty128) : res ChainWork :=
  _ ← throw_if (difficulty128_is_zero difficulty) InvalidArgument
        "share difficulty must be greater than zero";
  mret (arr_of 32 (replicate 16 Byte.x00 ++ vec_to_list difficulty)).

Definition chain_work_hex (work : ChainWork) : str := bytes_to_hex (vec_to_list work).

(** The carry loop, from the last byte to the first. *)
Fixpoint add_bytes_carry (left right : list byte) : list byte * Z :=
  match left, right with
  | l :: left', r :: right' =>
      let '(result, carry) := add_bytes_carry left' right' in
      let sum := byte_to_Z l + byte_to_Z r + carry in
      (byte_of_Z (Z.land sum 255) :: result, Z.shiftr sum 8)
  | _, _ => ([], 0)
  end.

Definition add_chain_work_checked (left right : ChainWork) : ChainWork * bool :=
  let '(result, carry) := add_bytes_carry (vec_to_list left) (vec_to_list right) in
  (arr_of 32 result, carry =? 0).

(** ** Data *)

Record ShareWorkContext := mkContext {
  ctx_zano_height : Z;
  ctx_mining_header_hash : Hash256;
  ctx_network_difficulty : Difficulty128 }.

Inductive ShareDisposition := Connected | Orphan | Duplicate | Rejected.
#[export] Instance ShareDisposition_eq_dec : EqDecision ShareDisposition.
Proof. solve_decision. Defined.

Inductive ShareRejectReason :=
| NoReject
| UnexpectedShareVersion | ZeroShareDifficulty | ZeroNetworkDifficulty
| ShareDifficultyAboveNetwork | UnexpectedShareDifficulty
| InvalidRootHeight | InvalidNonRootHeight | ParentHeightMismatch
| TimestampTooFarFuture | TimestampBeforeParentTolerance
| ZanoHeightMismatch | MiningHeaderMismatch | NetworkDifficultyMismatch
| PowBackendUnavailable | InvalidPow | CumulativeWorkOverflow.
#[export] Instance ShareRejectReason_eq_dec : EqDecision ShareRejectReason.
Proof. solve_decision. Defined.

Record AddShareResult := mkAdd {
  disposition : ShareDisposition;
  reject_reason : ShareRejectReason;
  result_id : ShareId;
  promoted_orphans : nat;
  best_tip_changed : bool }.

Inductive RevalidateShareStatus :=
| Validated | AlreadyValidated | NotConnected | ParentUnvalidated | RevalRejected.

Record RevalidateShareResult := mkReval {
  reval_status : RevalidateShareStatus;
  reval_reason : ShareRejectReason;
  reval_id : ShareId }.

Record ReplayValidationRecord := mkRecord {
  rec_share_id : ShareId;
  rec_validation : CandidateValidation }.

Record ConnectedShare := mkConnected {
  cs_share : Share;
  cs_id : ShareId;
  cumulative_work : ChainWork;
  pow_validation : option CandidateValidation;
  validated_ancestry : bool }.

Record OrphanShare := mkOrphan {
  os_share : Share;
  os_id : ShareId;
  os_pow_validation : option CandidateValidation;
  os_enforce : bool }.

Record DifficultyPolicy := mkPolicy {
  dp_minimum_share_version : Z;
  dp_maximum_share_version : Z;
  dp_target_share_seconds : Z;
  dp_minimum_share_difficulty : Z;
  dp_difficulty_window_shares : Z }.

Record ShareChain := mkChain {
  connected : gmap ShareId ConnectedShare;
  orphans : gmap ShareId OrphanShare;
  orphans_by_parent : gmap ShareId (list ShareId);
  best_tip_id : option ShareId;
  difficulty_policy : option DifficultyPolicy;
  parameter_id : option Hash256 }.

Definition set_connected (m : gmap ShareId ConnectedShare) (c : ShareChain) : ShareChain :=
  mkChain m (orphans c) (orphans_by_parent c) (best_tip_id c) (difficulty_policy c)
    (parameter_id c).
Definition set_orphans (m : gmap ShareId OrphanShare) (c : ShareChain) : ShareChain :=
  mkChain (connected c) m (orphans_by_parent c) (best_tip_id c) (difficulty_policy c)
    (parameter_id c).
Definition set_by_parent (m : gmap ShareId (list ShareId)) (c : ShareChain) : ShareChain :=
  mkChain (connected c) (orphans c) m (best_tip_id c) (difficulty_policy c) (parameter_id c).
Definition set_best (b : option ShareId) (c : ShareChain) : ShareChain :=
  mkChain (connected c) (orphans c) (orphans_by_parent c) b (difficulty_policy c)
    (parameter_id c).

(** ** Construction and queries *)

Definition empty_chain : ShareChain := mkChain ∅ ∅ ∅ None None None.

Definition new_chain (params : SidechainParameters) : res ShareChain :=
  _ ← serialize_sidechain_parameters params;
  id ← sidechain_id params;
  mret (mkChain ∅ ∅ ∅ None
          (Some (mkPolicy (minimum_share_version params) (maximum_share_version params)
                   (target_share_seconds params) (minimum_share_difficulty params)
                   (difficulty_window_shares params)))
          (Some id)).

Definition matches_sidechain_parameters (c : ShareChain) (params : SidechainParameters)
    : res bool :=
  match parameter_id c with
  | None => Ok false
  | Some pid => id ← sidechain_id params; mret (arr_eqb pid id)
  end.

Definition enforces_sidechain_difficulty (c : ShareChain) : bool :=
  bool_decide (is_Some (difficulty_policy c)).

Definition find (c : ShareChain) (id : ShareId) : option ConnectedShare := connected c !! id.
Definition find_orphan_share (c : ShareChain) (id : ShareId) : option Share :=
  os_share <$> orphans c !! id.
Definition best_tip (c : ShareChain) : option ConnectedShare :=
  id ← best_tip_id c; find c id.
Definition contains (c : ShareChain) (id : ShareId) : bool :=
  bool_decide (is_Some (connected c !! id)).
Definition is_orphan (c : ShareChain) (id : ShareId) : bool :=
  bool_decide (is_Some (orphans c !! id)).
Definition connected_size (c : ShareChain) : nat := size (connected c).
Definition orphan_size (c : ShareChain) : nat := size (orphans c).
Definition connected_share_ids (c : ShareChain) : list ShareId := (map_sorted (connected c)).*1.

(** The parent walk of [is_on_best_chain]; each step goes to a connected
    parent, so [size connected] steps reach the root of an acyclic chain. *)
Fixpoint walk_to (fuel : nat) (c : ShareChain) (id : ShareId) (current : option ConnectedShare)
    : bool :=
  match current with
  | None => false
  | Some cs =>
      if arr_eqb (cs_id cs) id then true
      else if is_zero_share_id (parent_id (cs_share cs)) then false
      else match fuel with
           | O => false
           | S f => walk_to f c id (find c (parent_id (cs_share cs)))
           end
  end.

Definition is_on_best_chain (c : ShareChain) (id : ShareId) : bool :=
  walk_to (size (connected c)) c id (best_tip c).
Definition is_stale (c : ShareChain) (id : ShareId) : bool :=
  contains c id && negb (is_on_best_chain c id).

(** ** Expected difficulty *)

(** The history loop: at most [difficulty_window_shares] samples, newest
    first. *)
Fixpoint collect_history (room : nat) (c : ShareChain) (current : ConnectedShare)
    : res (list SidechainDifficultySample) :=
  match room with
  | O => Ok []
  | S room' =>
      let sample := mkSample (timestamp (cs_share current)) (cumulative_work current) in
      if is_zero_share_id (parent_id (cs_share current)) then Ok [sample]
      else match find c (parent_id (cs_share current)) with
           | None => throw LogicError "connected sidechain share has a missing parent"
           | Some parent =>
               rest ← collect_history room' c parent;
               mret (sample :: rest)
           end
  end.

Definition expected_child_share_difficulty (c : ShareChain) (parent : ShareId)
    (network_difficulty : Difficulty128) : res Difficulty128 :=
  match difficulty_policy c with
  | None => throw LogicError "sidechain difficulty policy is not configured"
  | Some policy =>
      history ←
        (if is_zero_share_id parent then Ok []
         else match find c parent with
              | None => throw InvalidArgument "sidechain difficulty parent is not connected"
              | Some current =>
                  collect_history (Z.to_nat (dp_difficulty_window_shares policy)) c current
              end);
      calculate_next_sidechain_difficulty history (dp_target_share_seconds policy)
        (dp_minimum_share_difficulty policy) (dp_difficulty_window_shares policy)
        network_difficulty
  end.

Definition expected_next_share_difficulty (c : ShareChain) (network_difficulty : Difficulty128)
    : res Difficulty128 :=
  let parent := match best_tip c with Some tip => cs_id tip | None => arr_zero 32 end in
  expected_child_share_difficulty c parent network_difficulty.

(** ** Reject reasons *)

Definition structural_reject_reason (c : ShareChain) (share : Share) : ShareRejectReason :=
  if match difficulty_policy c with
     | Some p => (version share <? dp_minimum_share_version p) ||
                 (dp_maximum_share_version p <? version share)
     | None => false
     end then UnexpectedShareVersion
  else if difficulty128_is_zero (share_difficulty share) then ZeroShareDifficulty
  else if difficulty128_is_zero (network_difficulty share) then ZeroNetworkDifficulty
  else if arr_lt (network_difficulty share) (share_difficulty share)
       then ShareDifficultyAboveNetwork
  else if is_zero_share_id (parent_id share) then
         if negb (share_height share =? 0) then InvalidRootHeight else NoReject
  else if share_height share =? 0 then InvalidNonRootHeight
  else NoReject.

Definition trusted_context_reject_reason (share : Share) (ctx : ShareWorkContext)
    : ShareRejectReason :=
  if negb (zano_height share =? ctx_zano_height ctx) then ZanoHeightMismatch
  else if negb (arr_eqb (mining_header_hash share) (ctx_mining_header_hash ctx))
       then MiningHeaderMismatch
  else if negb (arr_eqb (network_difficulty share) (ctx_network_difficulty ctx))
       then NetworkDifficultyMismatch
  else NoReject.

Definition absolute_timestamp_reject_reason (share : Share) (now : Z) : ShareRejectReason :=
  if (now <? timestamp share) &&
     (kShareMaxFutureSeconds <? wrap64 (timestamp share - now))
  then TimestampTooFarFuture else NoReject.

Definition parent_timestamp_reject_reason (share parent : Share) : ShareRejectReason :=
  if timestamp parent <=? timestamp share then NoReject
  else
    let backstep := wrap64 (timestamp parent - timestamp share) in
    if kShareMaxParentBackstepSeconds <? backstep
    then TimestampBeforeParentTolerance else NoReject.

Definition expected_difficulty_reject_reason (c : ShareChain) (share : Share)
    : res ShareRejectReason :=
  if negb (enforces_sidechain_difficulty c) then Ok NoReject
  else if negb (is_zero_share_id (parent_id share)) && negb (contains c (parent_id share))
  then Ok NoReject
  else
    expected ← expected_child_share_difficulty c (parent_id share) (network_difficulty share);
    mret (if arr_eqb (share_difficulty share) expected then NoReject
          else UnexpectedShareDifficulty).

(** [parent.share.share_height == UINT64_MAX ||
     share.share_height != parent.share.share_height + 1]. *)
Definition height_mismatch (share parent : Share) : bool :=
  (share_height parent =? u64_max) ||
  negb (share_height share =? wrap64 (share_height parent + 1)).

Definition better_tip (candidate current : ConnectedShare) : bool :=
  if negb (arr_eqb (cumulative_work candidate) (cumulative_work current)) then
    arr_lt (cumulative_work current) (cumulative_work candidate)
  else if negb (share_height (cs_share candidate) =? share_height (cs_share current)) then
    share_height (cs_share current) <? share_height (cs_share candidate)
  else arr_lt (cs_id candidate) (cs_id current).

(** ** Connecting a share *)

Local Open Scope pool_scope.

(** The checks of [connect_share] that need the parent. *)
Definition connect_parent_reason (c : ShareChain) (share : Share) : res ShareRejectReason :=
  if is_zero_share_id (parent_id share) then Ok NoReject
  else match connected c !! parent_id share with
       | None => throw LogicError "connect_share called without a connected parent"
       | Some parent =>
           if height_mismatch share (cs_share parent) then Ok ParentHeightMismatch
           else Ok (parent_timestamp_reject_reason share (cs_share parent))
       end.

(** The cumulative work of a share with work [work]; [None] on overflow. *)
Definition connect_work (c : ShareChain) (share : Share) (work : ChainWork) : option ChainWork :=
  if is_zero_share_id (parent_id share) then Some work
  else match connected c !! parent_id share with
       | None => None
       | Some parent =>
           let '(summed, ok) := add_chain_work_checked (cumulative_work parent) work in
           if ok : bool then Some summed else None
       end.

Definition connect_validated (c : ShareChain) (share : Share)
    (pow : option CandidateValidation) (enforce : bool) : bool :=
  enforce &&
  match pow with Some v => meets_share_difficulty v | None => false end &&
  (is_zero_share_id (parent_id share) ||
   match connected c !! parent_id share with
   | Some parent => validated_ancestry parent
   | None => false
   end).

(** The reference argument [best_tip_changed] is threaded as a value. *)
Definition connect_share (share : Share) (id : ShareId) (pow : option CandidateValidation)
    (enforce changed : bool) : exec ShareChain (ShareRejectReason * bool) :=
  cumulative <- exec_const (λ _, share_work (share_difficulty share)) ;;
  parent_reason <- exec_const (λ c, connect_parent_reason c share) ;;
  if negb (bool_decide (parent_reason = NoReject)) then exec_ret (parent_reason, changed)
  else
  difficulty_reason <-
    (if enforce then exec_const (λ c, expected_difficulty_reject_reason c share)
     else exec_ret NoReject) ;;
  if negb (bool_decide (difficulty_reason = NoReject))
  then exec_ret (difficulty_reason, changed)
  else
  c <- exec_get ;;
  match connect_work c share cumulative with
  | None => exec_ret (CumulativeWorkOverflow, changed)
  | Some cumulative =>
      let entry := mkConnected share id cumulative pow
                     (connect_validated c share pow enforce) in
      if contains c id then exec_throw LogicError "duplicate share reached connect_share"
      else
      do exec_modify (λ c, set_connected (<[id := entry]> (connected c)) c) ;;
      c <- exec_get ;;
      match best_tip_id c with
      | None =>
          do exec_modify (set_best (Some id)) ;;
          exec_ret (NoReject, true)
      | Some best =>
          match connected c !! best with
          | None => exec_throw LogicError "best-tip invariant failed"
          | Some current =>
              if better_tip entry current then
                do exec_modify (set_best (Some id)) ;;
                exec_ret (NoReject, true)
              else exec_ret (NoReject, changed)
          end
      end
  end.

(** ** Orphan promotion *)

(** The loop over the children of a newly connected share; [rec] promotes the
    children of a promoted child. *)
Fixpoint promote_loop (rec : ShareId → nat → bool → exec ShareChain (nat * bool))
    (child_ids : list ShareId) (promoted : nat) (changed : bool)
    : exec ShareChain (nat * bool) :=
  match child_ids with
  | [] => exec_ret (promoted, changed)
  | child_id :: rest =>
      c <- exec_get ;;
      match orphans c !! child_id with
      | None => promote_loop rec rest promoted changed
      | Some orphan =>
          reason_changed <- connect_share (os_share orphan) child_id (os_pow_validation orphan)
                              (os_enforce orphan) changed ;;
          do exec_modify (λ c, set_orphans (delete child_id (orphans c)) c) ;;
          if bool_decide (reason_changed.1 = NoReject) then
            promoted_changed <- rec child_id (S promoted) reason_changed.2 ;;
            promote_loop rec rest promoted_changed.1 promoted_changed.2
          else promote_loop rec rest promoted reason_changed.2
      end
  end.

Definition fuel_exhausted : string := "model: fuel exhausted".

(** [fuel] bounds the depth of the recursion; every level erases an orphan
    before it recurses, so [S (size orphans)] is enough
    ([promote_children_total] below shows it). *)
Fixpoint promote_children (fuel : nat) (parent : ShareId) (promoted : nat) (changed : bool)
    : exec ShareChain (nat * bool) :=
  match fuel with
  | O => exec_throw LogicError fuel_exhausted
  | S f =>
      c <- exec_get ;;
      match orphans_by_parent c !! parent with
      | None => exec_ret (promoted, changed)
      | Some child_ids =>
          do exec_modify (λ c, set_by_parent (delete parent (orphans_by_parent c)) c) ;;
          promote_loop (promote_children f) (sort_ids child_ids) promoted changed
      end
  end.

(** ** Admission *)

Definition add_prevalidated_share (share : Share) (pow : option CandidateValidation)
    (enforce : bool) : exec ShareChain AddShareResult :=
  id <- exec_const (λ _, share_id share) ;;
  c <- exec_get ;;
  if contains c id || is_orphan c id
  then exec_ret (mkAdd Duplicate NoReject id 0 false)
  else
  let reason := structural_reject_reason c share in
  if negb (bool_decide (reason = NoReject))
  then exec_ret (mkAdd Rejected reason id 0 false)
  else
  if negb (is_zero_share_id (parent_id share)) && negb (contains c (parent_id share)) then
    do exec_modify (λ c,
         set_orphans (<[id := mkOrphan share id pow enforce]> (orphans c)) c) ;;
    do exec_modify (λ c,
         set_by_parent
           (<[parent_id share :=
                default [] (orphans_by_parent c !! parent_id share) ++ [id]]>
              (orphans_by_parent c)) c) ;;
    exec_ret (mkAdd Orphan NoReject id 0 false)
  else
  let old_best_tip := best_tip_id c in
  reason_changed <- connect_share share id pow enforce false ;;
  if negb (bool_decide (reason_changed.1 = NoReject))
  then exec_ret (mkAdd Rejected reason_changed.1 id 0 reason_changed.2)
  else
  c <- exec_get ;;
  promoted_changed <- promote_children (S (size (orphans c))) id 0 reason_changed.2 ;;
  c <- exec_get ;;
  exec_ret (mkAdd Connected NoReject id promoted_changed.1
              (negb (bool_decide (old_best_tip = best_tip_id c)))).

Definition add_share_unchecked (share : Share) : exec ShareChain AddShareResult :=
  add_prevalidated_share share None false.

Definition rejected (id : ShareId) (reason : ShareRejectReason) : AddShareResult :=
  mkAdd Rejected reason id 0 false.

(** The parent checks shared by [submit_share] and
    [revalidate_connected_share]. *)
Definition linked_parent_reason (share parent : Share) : ShareRejectReason :=
  if height_mismatch share parent then ParentHeightMismatch
  else parent_timestamp_reject_reason share parent.

Section Submit.
Context `{!ProgPow}.

Definition validate_share (share : Share) (ctx : ShareWorkContext) (mode : ProgPowZContextMode)
    : res CandidateValidation :=
  validate_candidate (ctx_zano_height ctx) (ctx_mining_header_hash ctx) (nonce share)
    (difficulty128_to_decimal (share_difficulty share))
    (difficulty128_to_decimal (ctx_network_difficulty ctx)) mode.

Definition pow_rejected (v : CandidateValidation) : bool :=
  negb (meets_share_difficulty v) || bool_decide (classification v = ClassInvalid).

Definition submit_share (share : Share) (ctx : ShareWorkContext) (now : Z)
    (mode : ProgPowZContextMode) : exec ShareChain AddShareResult :=
  id <- exec_const (λ _, share_id share) ;;
  c <- exec_get ;;
  if contains c id || is_orphan c id
  then exec_ret (mkAdd Duplicate NoReject id 0 false)
  else
  let reason := structural_reject_reason c share in
  if negb (bool_decide (reason = NoReject)) then exec_ret (rejected id reason) else
  let reason := trusted_context_reject_reason share ctx in
  if negb (bool_decide (reason = NoReject)) then exec_ret (rejected id reason) else
  let reason := absolute_timestamp_reject_reason share now in
  if negb (bool_decide (reason = NoReject)) then exec_ret (rejected id reason) else
  let reason :=
    if is_zero_share_id (parent_id share) then NoReject
    else match connected c !! parent_id share with
         | None => NoReject
         | Some parent => linked_parent_reason share (cs_share parent)
         end in
  if negb (bool_decide (reason = NoReject)) then exec_ret (rejected id reason) else
  reason <- exec_const (λ c, expected_difficulty_reject_reason c share) ;;
  if negb (bool_decide (reason = NoReject)) then exec_ret (rejected id reason) else
  if negb progpowz_available then exec_ret (rejected id PowBackendUnavailable) else
  validation <- exec_const (λ _, validate_share share ctx mode) ;;
  if pow_rejected validation then exec_ret (rejected id InvalidPow) else
  add_prevalidated_share share (Some validation) (enforces_sidechain_difficulty c).

Definition revalidate_connected_share (id : ShareId) (ctx : ShareWorkContext) (now : Z)
    (mode : ProgPowZContextMode) : exec ShareChain RevalidateShareResult :=
  c <- exec_get ;;
  match connected c !! id with
  | None => exec_ret (mkReval NotConnected NoReject id)
  | Some entry =>
      if validated_ancestry entry then exec_ret (mkReval AlreadyValidated NoReject id) else
      if negb (enforces_sidechain_difficulty c)
      then exec_ret (mkReval RevalRejected UnexpectedShareDifficulty id) else
      let share := cs_share entry in
      let reason := structural_reject_reason c share in
      if negb (bool_decide (reason = NoReject))
      then exec_ret (mkReval RevalRejected reason id) else
      let reason := trusted_context_reject_reason share ctx in
      if negb (bool_decide (reason = NoReject))
      then exec_ret (mkReval RevalRejected reason id) else
      let reason := absolute_timestamp_reject_reason share now in
      if negb (bool_decide (reason = NoReject))
      then exec_ret (mkReval RevalRejected reason id) else
      let verdict : RevalidateShareStatus * ShareRejectReason :=
        if is_zero_share_id (parent_id share) then (Validated, NoReject)
        else match connected c !! parent_id share with
             | None => (RevalRejected, ParentHeightMismatch)
             | Some parent =>
                 if negb (validated_ancestry parent) then (ParentUnvalidated, NoReject)
                 else
                   let reason := linked_parent_reason share (cs_share parent) in
                   if bool_decide (reason = NoReject) then (Validated, NoReject)
                   else (RevalRejected, reason)
             end in
      match verdict with
      | (Validated, _) =>
          reason <- exec_const (λ c, expected_difficulty_reject_reason c share) ;;
          if negb (bool_decide (reason = NoReject))
          then exec_ret (mkReval RevalRejected reason id) else
          if negb progpowz_available
          then exec_ret (mkReval RevalRejected PowBackendUnavailable id) else
          validation <- exec_const (λ _, validate_share share ctx mode) ;;
          if pow_rejected validation
          then exec_ret (mkReval RevalRejected InvalidPow id) else
          do exec_modify (λ c,
               set_connected
                 (<[id := mkConnected share (cs_id entry) (cumulative_work entry)
                            (Some validation) true]> (connected c)) c) ;;
          exec_ret (mkReval Validated NoReject id)
      | (status, reason) => exec_ret (mkReval status reason id)
      end
  end.

End Submit.

(** ** Replay-validation snapshots *)

Definition replay_validation_consistent (v : CandidateValidation) : bool :=
  if negb (meets_share_difficulty v) then false
  else match classification v with
       | ClassShare => negb (meets_network_difficulty v)
       | ClassBlock => meets_network_difficulty v
       | ClassInvalid => false
       end.

Definition replay_validation_equal (l r : CandidateValidation) : bool :=
  arr_eqb (final_hash (pow l)) (final_hash (pow r)) &&
  arr_eqb (mix_hash (pow l)) (mix_hash (pow r)) &&
  Bool.eqb (meets_share_difficulty l) (meets_share_difficulty r) &&
  Bool.eqb (meets_network_difficulty l) (meets_network_difficulty r) &&
  bool_decide (classification l = classification r).

(** [(share_height, ShareId)] order of the snapshot comparators. *)
Definition height_id_lt (h1 : Z) (id1 : ShareId) (h2 : Z) (id2 : ShareId) : bool :=
  if negb (h1 =? h2) then h1 <? h2 else arr_lt id1 id2.

Definition connected_le (a b : ConnectedShare) : Prop :=
  height_id_lt (share_height (cs_share b)) (cs_id b)
               (share_height (cs_share a)) (cs_id a) = false.
#[export] Instance connected_le_dec a b : Decision (connected_le a b).
Proof. unfold connected_le. apply _. Defined.

(** The validation loop of [replay_validation_snapshot], in key order. *)
Fixpoint snapshot_collect (c : ShareChain) (entries : list (ShareId * ConnectedShare))
    : res (list ConnectedShare) :=
  match entries with
  | [] => Ok []
  | (_, entry) :: rest =>
      if negb (validated_ancestry entry) then snapshot_collect c rest
      else
        (_ ← throw_if (negb match pow_validation entry with
                            | Some v => replay_validation_consistent v
                            | None => false
                            end) LogicError
              "validated replay share has inconsistent PoW cache";
        id ← share_id (cs_share entry);
        _ ← throw_if (negb (arr_eqb id (cs_id entry))) LogicError
              "connected replay-validation ShareId invariant failed";
        _ ← throw_if (negb (is_zero_share_id (parent_id (cs_share entry))) &&
                      negb match connected c !! parent_id (cs_share entry) with
                           | Some parent => validated_ancestry parent
                           | None => false
                           end) LogicError
              "validated replay share has unvalidated parent";
        validated ← snapshot_collect c rest;
        mret (entry :: validated))%stdpp
  end.

Definition replay_validation_snapshot (c : ShareChain) : res (list ReplayValidationRecord) :=
  (_ ← throw_if (negb (enforces_sidechain_difficulty c)) LogicError
        "replay-validation snapshot requires configured sidechain policy";
  validated ← snapshot_collect c (map_sorted (connected c));
  mret (omap (λ entry, v ← pow_validation entry; mret (mkRecord (cs_id entry) v))
          (merge_sort connected_le validated)))%stdpp.

(** ** Names *)

Definition share_disposition_name (d : ShareDisposition) : string :=
  match d with
  | Connected => "connected" | Orphan => "orphan"
  | Duplicate => "duplicate" | Rejected => "rejected"
  end.

Definition revalidate_share_status_name (s : RevalidateShareStatus) : string :=
  match s with
  | Validated => "validated" | AlreadyValidated => "already-validated"
  | NotConnected => "not-connected" | ParentUnvalidated => "parent-unvalidated"
  | RevalRejected => "rejected"
  end.

Definition share_reject_reason_name (r : ShareRejectReason) : string :=
  match r with
  | NoReject => "none"
  | UnexpectedShareVersion => "unexpected-share-version"
  | ZeroShareDifficulty => "zero-share-difficulty"
  | ZeroNetworkDifficulty => "zero-network-difficulty"
  | ShareDifficultyAboveNetwork => "share-difficulty-above-network"
  | UnexpectedShareDifficulty => "unexpected-share-difficulty"
  | InvalidRootHeight => "invalid-root-height"
  | InvalidNonRootHeight => "invalid-non-root-height"
  | ParentHeightMismatch => "parent-height-mismatch"
  | TimestampTooFarFuture => "timestamp-too-far-future"
  | TimestampBeforeParentTolerance => "timestamp-before-parent-tolerance"
  | ZanoHeightMismatch => "zano-height-mismatch"
  | MiningHeaderMismatch => "mining-header-mismatch"
  | NetworkDifficultyMismatch => "network-difficulty-mismatch"
  | PowBackendUnavailable => "pow-backend-unavailable"
  | InvalidPow => "invalid-pow"
  | CumulativeWorkOverflow => "cumulative-work-overflow"
  end.

(** ** Restoring a replay-validation snapshot *)

(** First loop: the set of already validated ids. *)
Fixpoint restore_existing (entries : list (ShareId * ConnectedShare)) (acc : gset ShareId)
    : res (gset ShareId) :=
  match entries with
  | [] => Ok acc
  | (id, entry) :: rest =>
      if negb (validated_ancestry entry) then restore_existing rest acc
      else
        (_ ← throw_if (negb match pow_validation entry with
                            | Some v => replay_validation_consistent v
                            | None => false
                            end) LogicError
              "existing validated replay share has inconsistent PoW cache";
        sid ← share_id (cs_share entry);
        _ ← throw_if (negb (arr_eqb sid id)) LogicError
              "existing connected ShareId invariant failed";
        restore_existing rest ({[id]} ∪ acc))%stdpp
  end.

(** Second loop: validated shares have validated parents. *)
Fixpoint restore_parents (c : ShareChain) (entries : list (ShareId * ConnectedShare)) : res () :=
  match entries with
  | [] => Ok ()
  | (_, entry) :: rest =>
      if negb (validated_ancestry entry) || is_zero_share_id (parent_id (cs_share entry))
      then restore_parents c rest
      else
        (_ ← throw_if (negb match connected c !! parent_id (cs_share entry) with
                            | Some parent => validated_ancestry parent
                            | None => false
                            end) LogicError
              "existing validated ancestry has invalid parent state";
        restore_parents c rest)%stdpp
  end.

(** First pass over the records: resolve every id to its connected share. *)
Fixpoint restore_resolve (c : ShareChain) (records : list ReplayValidationRecord)
    (seen : gset ShareId) : res (list (ReplayValidationRecord * ConnectedShare)) :=
  match records with
  | [] => Ok []
  | record :: rest =>
      (_ ← throw_if (is_zero_share_id (rec_share_id record)) RuntimeError
            "replay-validation restore contains zero ShareId";
      _ ← throw_if (bool_decide (rec_share_id record ∈ seen)) RuntimeError
            "replay-validation restore contains duplicate ShareId";
      _ ← throw_if (negb (replay_validation_consistent (rec_validation record))) RuntimeError
            "replay-validation restore contains inconsistent PoW state";
      match connected c !! rec_share_id record with
      | None => throw RuntimeError "replay-validation restore ShareId is not connected"
      | Some entry =>
          sid ← share_id (cs_share entry);
          _ ← throw_if (negb (arr_eqb sid (rec_share_id record))) LogicError
                "replay-validation restore ShareId invariant failed";
          ordered ← restore_resolve c rest ({[rec_share_id record]} ∪ seen);
          mret ((record, entry) :: ordered)
      end)%stdpp
  end.

Definition record_le (a b : ReplayValidationRecord * ConnectedShare) : Prop :=
  height_id_lt (share_height (cs_share b.2)) (rec_share_id b.1)
               (share_height (cs_share a.2)) (rec_share_id a.1) = false.
#[export] Instance record_le_dec a b : Decision (record_le a b).
Proof. unfold record_le. apply _. Defined.

(** The checks of one record against the prospectively validated set. *)
Definition restore_check (c : ShareChain) (validated : gset ShareId)
    (record : ReplayValidationRecord) (entry : ConnectedShare) : res () :=
  (if validated_ancestry entry then
    throw_if (negb match pow_validation entry with
                   | Some v => replay_validation_equal v (rec_validation record)
                   | None => false
                   end) RuntimeError
      "replay-validation restore conflicts with already-validated state"
  else
    let share := cs_share entry in
    let reason := structural_reject_reason c share in
    _ ← throw_if (negb (bool_decide (reason = NoReject))) RuntimeError
          ("replay-validation restore structural rejection: " +:+ share_reject_reason_name reason);
    _ ← (if is_zero_share_id (parent_id share) then Ok ()
         else match connected c !! parent_id share with
              | None => throw RuntimeError "replay-validation restore parent is not connected"
              | Some parent =>
                  _ ← throw_if (negb (bool_decide (parent_id share ∈ validated))) RuntimeError
                        "replay-validation restore parent is not validated";
                  _ ← throw_if (height_mismatch share (cs_share parent)) RuntimeError
                        "replay-validation restore parent height mismatch";
                  let reason := parent_timestamp_reject_reason share (cs_share parent) in
                  throw_if (negb (bool_decide (reason = NoReject))) RuntimeError
                    ("replay-validation restore parent rejection: "
                       +:+ share_reject_reason_name reason)
              end);
    reason ← expected_difficulty_reject_reason c share;
    throw_if (negb (bool_decide (reason = NoReject))) RuntimeError
      ("replay-validation restore difficulty rejection: "
         +:+ share_reject_reason_name reason))%stdpp.

Fixpoint restore_preflight (c : ShareChain) (validated : gset ShareId)
    (ordered : list (ReplayValidationRecord * ConnectedShare)) : res () :=
  match ordered with
  | [] => Ok ()
  | (record, entry) :: rest =>
      (_ ← restore_check c validated record entry;
      restore_preflight c ({[rec_share_id record]} ∪ validated) rest)%stdpp
  end.

(** The application loop. *)
Fixpoint restore_apply (ordered : list (ReplayValidationRecord * ConnectedShare))
    (restored : nat) (m : gmap ShareId ConnectedShare) : nat * gmap ShareId ConnectedShare :=
  match ordered with
  | [] => (restored, m)
  | (record, _) :: rest =>
      match m !! rec_share_id record with
      | None => restore_apply rest restored m
      | Some entry =>
          if validated_ancestry entry then restore_apply rest restored m
          else restore_apply rest (S restored)
                 (<[rec_share_id record :=
                      mkConnected (cs_share entry) (cs_id entry) (cumulative_work entry)
                        (Some (rec_validation record)) true]> m)
      end
  end.

Definition restore_checks (c : ShareChain) (records : list ReplayValidationRecord)
    : res (list (ReplayValidationRecord * ConnectedShare)) :=
  (_ ← throw_if (negb (enforces_sidechain_difficulty c)) LogicError
        "replay-validation restore requires configured sidechain policy";
  validated ← restore_existing (map_sorted (connected c)) ∅;
  _ ← restore_parents c (map_sorted (connected c));
  resolved ← restore_resolve c records ∅;
  let ordered := merge_sort record_le resolved in
  _ ← restore_preflight c validated ordered;
  mret ordered)%stdpp.

Definition restore_replay_validation (records : list ReplayValidationRecord)
    : exec ShareChain nat :=
  if bool_decide (length records = 0%nat) then exec_ret 0%nat
  else
    ordered <- exec_const (λ c, restore_checks c records) ;;
    c <- exec_get ;;
    let '(restored, m) := restore_apply ordered 0 (connected c) in
    do exec_modify (set_connected m) ;;
    exec_ret restored.

(** ** Persistence snapshot and pruning *)

Definition snapshot_le (a b : ShareId * Share) : Prop :=
  height_id_lt (share_height b.2) b.1 (share_height a.2) a.1 = false.
#[export] Instance snapshot_le_dec a b : Decision (snapshot_le a b).
Proof. unfold snapshot_le. apply _. Defined.

Definition persistence_snapshot (c : ShareChain) : list Share :=
  (merge_sort snapshot_le
     ((prod_map id cs_share <$> map_sorted (connected c)) ++
      (prod_map id os_share <$> map_sorted (orphans c)))).*2.

(** The [children] index, built in key order. *)
Definition children_index (m : gmap ShareId ConnectedShare) : gmap ShareId (list ShareId) :=
  fold_left
    (λ children p,
       let parent := parent_id (cs_share p.2) in
       if is_zero_share_id parent then children
       else <[parent := default [] (children !! parent) ++ [p.1]]> children)
    (map_sorted m) ∅.

(** [for (index = 0; index < removed.size(); ++index)] over the growing vector:
    [seen] is the part before [index], [todo] the rest. *)
Fixpoint subtree_loop (fuel : nat) (children : gmap ShareId (list ShareId))
    (seen todo : list ShareId) : option (list ShareId) :=
  match todo with
  | [] => Some seen
  | id :: rest =>
      match fuel with
      | O => None
      | S f => subtree_loop f children (seen ++ [id])
                 (rest ++ default [] (children !! id))
      end
  end.

(** The best-tip recomputation loop, in key order. *)
Fixpoint best_loop (m : gmap ShareId ConnectedShare) (entries : list (ShareId * ConnectedShare))
    (best : option ShareId) : res (option ShareId) :=
  match entries with
  | [] => Ok best
  | (id, entry) :: rest =>
      match best with
      | None => best_loop m rest (Some id)
      | Some b =>
          match m !! b with
          | None => throw LogicError "best-tip recomputation invariant failed"
          | Some current =>
              best_loop m rest (Some (if better_tip entry current then id else b))
          end
      end
  end.

(** Every connected share has one parent, so the loop visits each removed share
    once: [size connected] steps are enough. *)
Definition prune_connected_subtree_ids (root_id : ShareId) : exec ShareChain (list ShareId) :=
  c <- exec_get ;;
  if negb (contains c root_id) then exec_ret []
  else
  match subtree_loop (S (size (connected c))) (children_index (connected c)) [] [root_id] with
  | None => exec_throw LogicError fuel_exhausted
  | Some removed =>
      do exec_modify (λ c,
           set_connected (foldl (λ m id, delete id m) (connected c) removed) c) ;;
      do exec_modify (set_best None) ;;
      c <- exec_get ;;
      best <- exec_const (λ c, best_loop (connected c) (map_sorted (connected c)) None) ;;
      do exec_modify (set_best best) ;;
      exec_ret (sort_ids removed)
  end.

Definition prune_connected_subtree (root_id : ShareId) : exec ShareChain nat :=
  removed <- prune_connected_subtree_ids root_id ;;
  exec_ret (length removed).
