(* ===== verification/ChainWork.v ===== *)
(** Facts about the arithmetic and the orders of the share chain: checked
    256-bit addition, share work, and the best-tip order. *)
From S2P Require Import Prelude CryptoHash PowTarget Share SidechainParams Difficulty ShareChain.

Lemma add_bytes_carry_spec l r :
  length l = length r →
  let '(res, carry) := add_bytes_carry l r in
  length res = length l ∧ 0 ≤ carry ≤ 1 ∧
  be_Z res + carry * pow256 (length l) = be_Z l + be_Z r.
Proof.
  revert r. induction l as [|x l IH]; intros [|y r] Hlen; try done.
  injection Hlen as Hlen. simpl. specialize (IH r Hlen).
  destruct (add_bytes_carry l r) as [res carry]. destruct IH as (Hl & Hc & E).
  simpl length. pose proof (byte_to_Z_range x). pose proof (byte_to_Z_range y).
  set (sum := byte_to_Z x + byte_to_Z y + carry).
  change 255 with (Z.ones 8). rewrite Z.land_ones, Z.shiftr_div_pow2 by lia.
  change (2 ^ 8) with 256.
  assert (0 ≤ sum < 512) by (unfold sum; lia).
  assert (0 ≤ sum / 256 ≤ 1).
  { split; [apply Z.div_pos; lia|]. apply Z.lt_succ_r. apply Z.div_lt_upper_bound; lia. }
  pose proof (Z.div_mod sum 256).
  rewrite !be_Z_cons, byte_to_of_Z, Z.mod_mod, pow256_S, Hl, <-Hlen by lia.
  split; [lia|]. split; [done|]. subst sum. nia.
Qed.

Lemma add_chain_work_Z (l r : ChainWork) :
  (add_chain_work_checked l r).2 = (arr_Z l + arr_Z r <=? u256_max) ∧
  arr_Z (add_chain_work_checked l r).1 = (arr_Z l + arr_Z r) mod (u256_max + 1).
Proof.
  unfold add_chain_work_checked.
  pose proof (add_bytes_carry_spec (vec_to_list l) (vec_to_list r)) as H.
  rewrite !length_vec_to_list in H. specialize (H eq_refl).
  destruct (add_bytes_carry _ _) as [res carry]. destruct H as (Hlen & Hc & E).
  fold (arr_Z l) (arr_Z r) in E. simpl.
  assert (arr_Z (arr_of 32 res) = be_Z res) as ->
    by (unfold arr_Z; by rewrite arr_of_list, take_ge by lia).
  pose proof (be_Z_range res) as Hr. rewrite Hlen in Hr.
  pose proof (arr_Z_range l). pose proof (arr_Z_range r).
  change (pow256 32) with (u256_max + 1) in *. split.
  - destruct (Z.eqb_spec carry 0), (Z.leb_spec (arr_Z l + arr_Z r) u256_max); nia.
  - rewrite <-E, Z.mod_add by done. by rewrite Z.mod_small.
Qed.

(** The carry loop is 256-bit addition with overflow detection: the flag is
    true exactly when the sum fits 256 bits, and the result is the sum modulo
    2^256. *)
Theorem add_chain_work_checked_spec : ∀ l r : ChainWork,
  let '(sum, ok) := add_chain_work_checked l r in
  ok = (arr_Z l + arr_Z r <=? u256_max) ∧
  arr_Z sum = (arr_Z l + arr_Z r) mod (u256_max + 1).
Proof.
  intros l r. pose proof (add_chain_work_Z l r) as H.
  by destruct (add_chain_work_checked l r).
Qed.

Lemma add_chain_work_ok l r sum :
  add_chain_work_checked l r = (sum, true) → arr_Z sum = arr_Z l + arr_Z r.
Proof.
  intros E. pose proof (add_chain_work_Z l r) as H. rewrite E in H. simpl in H.
  destruct H as [Hok ->]. symmetry in Hok. bool_prop.
  apply Z.mod_small. pose proof (arr_Z_range l). pose proof (arr_Z_range r). lia.
Qed.

Lemma share_work_ok d :
  difficulty128_is_zero d = false → ∃ w, share_work d = Ok w ∧ arr_Z w = arr_Z d.
Proof.
  intros Hz. unfold share_work. rewrite Hz. eexists. split; [done|].
  unfold arr_Z. rewrite arr_of_list.
  - rewrite take_ge by (rewrite length_app, length_replicate, length_vec_to_list; lia).
    rewrite be_Z_app, (proj2 (be_Z_zero (replicate 16 Byte.x00))); [lia|].
    by apply Forall_replicate.
  - rewrite length_app, length_replicate, length_vec_to_list. lia.
Qed.

(** ** The best-tip order *)

Definition tip_work (e : ConnectedShare) : Z := arr_Z (cumulative_work e).
Definition tip_height (e : ConnectedShare) : Z := share_height (cs_share e).
Definition tip_key (e : ConnectedShare) : Z := arr_Z (cs_id e).

(** [better_tip] is the lexicographic order on work, height and (reversed)
    id. *)
Lemma better_tip_spec a b :
  better_tip a b = true ↔
  tip_work b < tip_work a ∨
  (tip_work a = tip_work b ∧
   (tip_height b < tip_height a ∨
    (tip_height a = tip_height b ∧ tip_key a < tip_key b))).
Proof.
  unfold better_tip, tip_work, tip_height, tip_key.
  destruct (arr_eqb (cumulative_work a) _) eqn:Ew; bool_prop; simpl.
  - rewrite Ew. destruct (Z.eqb_spec (share_height (cs_share a)) (share_height (cs_share b)));
      simpl; [rewrite arr_lt_Z|]; rewrite Z.ltb_lt; lia.
  - assert (arr_Z (cumulative_work a) ≠ arr_Z (cumulative_work b))
      by (intros E; by apply arr_Z_inj in E).
    rewrite arr_lt_Z, Z.ltb_lt. lia.
Qed.

Lemma better_tip_irrefl a : better_tip a a = false.
Proof. apply not_true_iff_false. rewrite better_tip_spec. lia. Qed.

Lemma better_tip_trans a b c :
  better_tip a b = true → better_tip b c = true → better_tip a c = true.
Proof. rewrite !better_tip_spec. lia. Qed.

Lemma better_tip_total a b :
  cs_id a ≠ cs_id b → better_tip a b = false → better_tip b a = true.
Proof.
  intros Hne H. assert (¬ better_tip a b = true) as Hn by (by rewrite H).
  rewrite better_tip_spec in Hn. apply better_tip_spec.
  assert (tip_key a ≠ tip_key b) by (intros E; by apply arr_Z_inj in E). lia.
Qed.

Lemma better_tip_asymm a b : better_tip a b = true → better_tip b a = false.
Proof.
  intros H. apply not_true_iff_false. intros H'.
  pose proof (better_tip_trans a b a H H') as Haa. by rewrite better_tip_irrefl in Haa.
Qed.

(** [better_tip] looks at the share, the id and the work only. *)
Lemma better_tip_ext a a' b b' :
  cs_share a = cs_share a' → cs_id a = cs_id a' → cumulative_work a = cumulative_work a' →
  cs_share b = cs_share b' → cs_id b = cs_id b' → cumulative_work b = cumulative_work b' →
  better_tip a b = better_tip a' b'.
Proof. unfold better_tip. by intros -> -> -> -> -> ->. Qed.
