(* ===== verification/ChainInv.v ===== *)
(** The invariant of the share chain and what connecting a share does to it.

    [chain_inv] is the invariant between operations.  While orphans are being
    promoted two of its clauses are suspended: the ids in the set [P] are
    orphans already taken off the by-parent index whose parent is connected, and
    [q] is a share that was just connected and whose waiting children are still
    indexed.  [pinv P q] is the invariant with these exemptions. *)
From S2P Require Import Prelude CryptoHash PowTarget Share SidechainParams Difficulty ShareChain.
From S2P Require Import ChainWork.

(** ** The invariant *)

Definition policy_ok (o : option DifficultyPolicy) : Prop :=
  match o with
  | None => True
  | Some p => 0 < dp_target_share_seconds p ∧ 0 < dp_minimum_share_difficulty p ∧
              2 ≤ dp_difficulty_window_shares p
  end.

Definition pow_ok (o : option CandidateValidation) : Prop :=
  match o with None => True | Some v => replay_validation_consistent v = true end.

Definition is_root (s : Share) : bool := is_zero_share_id (parent_id s).

(** Cumulative work, height and timestamp agree with the connected parent. *)
Definition linked (m : gmap ShareId ConnectedShare) (e : ConnectedShare) : Prop :=
  if is_root (cs_share e) then tip_work e = arr_Z (share_difficulty (cs_share e))
  else ∃ parent, m !! parent_id (cs_share e) = Some parent ∧
         height_mismatch (cs_share e) (cs_share parent) = false ∧
         parent_timestamp_reject_reason (cs_share e) (cs_share parent) = NoReject ∧
         tip_work e = tip_work parent + arr_Z (share_difficulty (cs_share e)).

(** The share has the difficulty the retarget of its own ancestors gives. *)
Definition difficulty_ok (c : ShareChain) (s : Share) : Prop :=
  expected_child_share_difficulty c (parent_id s) (network_difficulty s)
  = Ok (share_difficulty s).

(** A validated share carries a PoW verdict, lives on a configured chain, has
    the retarget difficulty and extends a validated parent. *)
Definition validated_link (c : ShareChain) (e : ConnectedShare) : Prop :=
  validated_ancestry e = true →
  is_Some (pow_validation e) ∧ enforces_sidechain_difficulty c = true ∧
  difficulty_ok c (cs_share e) ∧
  (is_root (cs_share e) = true ∨
   ∃ parent, connected c !! parent_id (cs_share e) = Some parent ∧
             validated_ancestry parent = true).

Record entry_ok (c : ShareChain) (id : ShareId) (e : ConnectedShare) : Prop := {
  eo_id : cs_id e = id;
  eo_share_id : share_id (cs_share e) = Ok id;
  eo_wf : share_wf (cs_share e);
  eo_struct : structural_reject_reason c (cs_share e) = NoReject;
  eo_pow : pow_ok (pow_validation e);
  eo_link : linked (connected c) e;
  eo_validated : validated_link c e }.

Record orphan_ok (c : ShareChain) (id : ShareId) (o : OrphanShare) : Prop := {
  oo_id : os_id o = id;
  oo_share_id : share_id (os_share o) = Ok id;
  oo_wf : share_wf (os_share o);
  oo_struct : structural_reject_reason c (os_share o) = NoReject;
  oo_pow : pow_ok (os_pow_validation o);
  oo_enforce : os_enforce o = true → enforces_sidechain_difficulty c = true;
  oo_root : is_root (os_share o) = false;
  oo_connected : connected c !! id = None }.

(** The best tip beats every other connected share. *)
Definition best_ok (m : gmap ShareId ConnectedShare) (best : option ShareId) : Prop :=
  match best with
  | None => m = ∅
  | Some b => ∃ e, m !! b = Some e ∧
      ∀ id e', m !! id = Some e' → id ≠ b → better_tip e e' = true
  end.

Record pinv (P : gset ShareId) (q : option ShareId) (c : ShareChain) : Prop := {
  pi_policy : policy_ok (difficulty_policy c);
  pi_entry : ∀ id e, connected c !! id = Some e → entry_ok c id e;
  pi_best : best_ok (connected c) (best_tip_id c);
  pi_orphan : ∀ id o, orphans c !! id = Some o → orphan_ok c id o;
  pi_waiting : ∀ id o, orphans c !! id = Some o → id ∉ P →
    (connected c !! parent_id (os_share o) = None ∨ q = Some (parent_id (os_share o))) ∧
    ∃ l, orphans_by_parent c !! parent_id (os_share o) = Some l ∧ id ∈ l;
  pi_pending : ∀ id, id ∈ P → ∃ o, orphans c !! id = Some o ∧
    is_Some (connected c !! parent_id (os_share o));
  pi_by_parent : ∀ p l, orphans_by_parent c !! p = Some l → NoDup l ∧
    ∀ id, id ∈ l → id ∉ P ∧ ∃ o, orphans c !! id = Some o ∧ parent_id (os_share o) = p }.

Definition chain_inv (c : ShareChain) : Prop := pinv ∅ None c.

(** Timestamps of every share of the chain fit 32 bits (before the year 2106):
    no retarget window can then be too wide. *)
Definition time_ok (s : Share) : Prop := timestamp s ≤ u32_max.
Definition times_ok (c : ShareChain) : Prop :=
  (∀ id e, connected c !! id = Some e → time_ok (cs_share e)) ∧
  (∀ id o, orphans c !! id = Some o → time_ok (os_share o)).

(** ** Monotonicity *)

Lemma structural_ext c c' s :
  difficulty_policy c = difficulty_policy c' →
  structural_reject_reason c s = structural_reject_reason c' s.
Proof. unfold structural_reject_reason. by intros ->. Qed.

Lemma enforces_ext c c' :
  difficulty_policy c = difficulty_policy c' →
  enforces_sidechain_difficulty c = enforces_sidechain_difficulty c'.
Proof. unfold enforces_sidechain_difficulty. by intros ->. Qed.

Lemma linked_mono m m' e : m ⊆ m' → linked m e → linked m' e.
Proof.
  unfold linked. intros Hm. destruct (is_root _); [done|].
  intros (p & Hp & H). exists p. split; [|done]. by eapply lookup_weaken.
Qed.

(** The history of a share depends on its ancestors only. *)
Lemma collect_history_mono c c' room e l :
  connected c ⊆ connected c' → collect_history room c e = Ok l →
  collect_history room c' e = Ok l.
Proof.
  intros Hm. revert e l. induction room as [|room IH]; intros e l; simpl; [done|].
  destruct (is_zero_share_id _); [done|]. unfold find.
  destruct (connected c !! _) as [p|] eqn:Ep; [|done].
  rewrite (lookup_weaken _ _ _ _ Ep Hm). intros Hl. res_inv.
  match goal with H : collect_history _ c p = Ok ?x |- _ => by rewrite (IH p x H) end.
Qed.

Lemma difficulty_ok_mono c c' s :
  difficulty_policy c = difficulty_policy c' → connected c ⊆ connected c' →
  difficulty_ok c s → difficulty_ok c' s.
Proof.
  unfold difficulty_ok, expected_child_share_difficulty. intros <- Hm Hd.
  destruct (difficulty_policy c) as [p|]; [|done].
  destruct (is_zero_share_id _); [done|]. unfold find in *.
  destruct (connected c !! _) as [e|] eqn:Ep; [|done].
  rewrite (lookup_weaken _ _ _ _ Ep Hm). res_inv.
  match goal with H : collect_history _ c e = Ok ?x |- _ =>
    by rewrite (collect_history_mono c c' _ e x Hm H) end.
Qed.

(** The reject reason the code computes tests [difficulty_ok]. *)
Lemma expected_reason_ok c s :
  enforces_sidechain_difficulty c = true →
  is_root s = true ∨ is_Some (connected c !! parent_id s) →
  expected_difficulty_reject_reason c s = Ok NoReject ↔ difficulty_ok c s.
Proof.
  intros Henf Hpar. unfold expected_difficulty_reject_reason, difficulty_ok. rewrite Henf.
  assert (negb (is_zero_share_id (parent_id s)) && negb (contains c (parent_id s)) = false)
    as ->.
  { unfold contains, is_root in *. destruct Hpar as [->|Hp]; [done|].
    rewrite (bool_decide_true (is_Some _)) by done. apply andb_false_r. }
  simpl. destruct (expected_child_share_difficulty _ _ _) as [d|x]; [|done]. simpl.
  destruct (arr_eqb (share_difficulty s) d) eqn:E; bool_prop.
  - by rewrite E.
  - split; [done|]. intros [= ->]. done.
Qed.

Lemma entry_ok_mono c c' id e :
  difficulty_policy c = difficulty_policy c' → connected c ⊆ connected c' →
  entry_ok c id e → entry_ok c' id e.
Proof.
  intros Hp Hm []. constructor; try done.
  - by rewrite <-(structural_ext c).
  - by eapply linked_mono.
  - intros Hv. destruct (eo_validated0 Hv) as (? & ? & ? & Hl).
    rewrite <-(enforces_ext c) by done. split; [done|]. split; [done|].
    split; [by eapply difficulty_ok_mono|].
    destruct Hl as [?|(p & ? & ?)]; [by left|right]. exists p. split; [|done].
    by eapply lookup_weaken.
Qed.

Lemma orphan_ok_ext c c' id o :
  difficulty_policy c = difficulty_policy c' → connected c' !! id = None →
  orphan_ok c id o → orphan_ok c' id o.
Proof.
  intros Hp Hn []. constructor; try done.
  - by rewrite <-(structural_ext c).
  - by rewrite <-(enforces_ext c).
Qed.

(** ** Expected difficulty never fails on a well-timed chain *)

Lemma structural_network_nonzero c s :
  structural_reject_reason c s = NoReject →
  difficulty128_is_zero (share_difficulty s) = false ∧
  difficulty128_is_zero (network_difficulty s) = false.
Proof.
  unfold structural_reject_reason. intros H.
  repeat (case_match; try discriminate H); done.
Qed.

Lemma linked_parent m e :
  linked m e → is_root (cs_share e) = false →
  ∃ parent, m !! parent_id (cs_share e) = Some parent ∧
    height_mismatch (cs_share e) (cs_share parent) = false ∧
    parent_timestamp_reject_reason (cs_share e) (cs_share parent) = NoReject ∧
    tip_work e = tip_work parent + arr_Z (share_difficulty (cs_share e)).
Proof. unfold linked. intros Hl Hr. by rewrite Hr in Hl. Qed.

Definition all_linked (c : ShareChain) : Prop :=
  ∀ id e, connected c !! id = Some e → linked (connected c) e.

Lemma entries_linked c :
  (∀ id e, connected c !! id = Some e → entry_ok c id e) → all_linked c.
Proof. intros Hent id e He. apply (eo_link _ _ _ (Hent id e He)). Qed.
#[export] Hint Resolve entries_linked : pool.

Lemma collect_history_ok c room id e :
  all_linked c → connected c !! id = Some e →
  ∃ l, collect_history room c e = Ok l ∧
    ∀ s, s ∈ l → ∃ id' e', connected c !! id' = Some e' ∧ ts s = timestamp (cs_share e').
Proof.
  intros Hent. revert id e. induction room as [|room IH]; intros id e He; simpl.
  { exists []. split; [done|]. set_solver. }
  destruct (is_zero_share_id (parent_id (cs_share e))) eqn:Er.
  { eexists. split; [done|]. intros s ->%list_elem_of_singleton. eauto. }
  destruct (linked_parent _ e (Hent id e He) Er) as (p & Hp & _).
  unfold find. rewrite Hp. destruct (IH _ _ Hp) as (l & -> & Hl).
  eexists. split; [done|]. intros s [->|Hs]%elem_of_cons; eauto.
Qed.

Lemma history_window_ok c l :
  times_ok c → (∀ id e, connected c !! id = Some e → entry_ok c id e) →
  (∀ s, s ∈ l → ∃ id e, connected c !! id = Some e ∧ ts s = timestamp (cs_share e)) →
  window_ok l.
Proof.
  intros [Ht _] Hent Hl.
  assert (∀ s, s ∈ l → 0 ≤ ts s ≤ u32_max) as Hb.
  { intros s Hs. destruct (Hl s Hs) as (id & e & He & ->).
    pose proof (Ht id e He). pose proof (wf_timestamp _ (eo_wf _ _ _ (Hent id e He))) as Hu.
    unfold is_u64, time_ok in *. lia. }
  split.
  - intros s Hs. specialize (Hb s Hs). unfold is_u64, u32_max, u64_max in *. lia.
  - intros s t Hs Ht'. pose proof (Hb s Hs). pose proof (Hb t Ht'). lia.
Qed.

Lemma expected_child_total c p parent net :
  difficulty_policy c = Some p → policy_ok (Some p) →
  (∀ id e, connected c !! id = Some e → entry_ok c id e) → times_ok c →
  is_zero_share_id parent = true ∨ is_Some (connected c !! parent) →
  difficulty128_is_zero net = false →
  ∃ d, expected_child_share_difficulty c parent net = Ok d ∧
       Z.min (dp_minimum_share_difficulty p) (arr_Z net) ≤ arr_Z d ≤ arr_Z net.
Proof.
  intros Hp (Ht & Hm & Hw) Hent Htimes Hpar Hnet.
  unfold expected_child_share_difficulty. rewrite Hp.
  assert (∃ l, (if is_zero_share_id parent then Ok []
         else match find c parent with
              | None => throw InvalidArgument "sidechain difficulty parent is not connected"
              | Some current =>
                  collect_history (Z.to_nat (dp_difficulty_window_shares p)) c current
              end) = Ok l ∧ window_ok l) as (l & -> & Hl).
  { destruct (is_zero_share_id parent).
    - exists []. split; [done|]. split; set_solver.
    - destruct Hpar as [|[e He]]; [done|]. unfold find. rewrite He.
      destruct (collect_history_ok c (Z.to_nat (dp_difficulty_window_shares p)) parent e
        (entries_linked c Hent) He) as (l & -> & Hl).
      exists l. split; [done|]. by eapply history_window_ok. }
  simpl. apply calculate_total; try done.
  destruct Hl as [H1 H2]. split; intros; [apply H1|apply H2]; by eapply subseteq_take.
Qed.

Lemma expected_reason_total c s :
  policy_ok (difficulty_policy c) →
  (∀ id e, connected c !! id = Some e → entry_ok c id e) → times_ok c →
  structural_reject_reason c s = NoReject →
  ∃ r, expected_difficulty_reject_reason c s = Ok r.
Proof.
  intros Hpol Hent Ht Hs. unfold expected_difficulty_reject_reason.
  destruct (enforces_sidechain_difficulty c) eqn:He; [simpl|eauto].
  destruct (negb _ && negb _) eqn:Ho; [eauto|].
  unfold enforces_sidechain_difficulty in He. bool_prop. destruct He as [p Hp].
  destruct (expected_child_total c p (parent_id s) (network_difficulty s)) as (d & -> & _);
    try done; [by rewrite <-Hp| |by eapply structural_network_nonzero|simpl; eauto].
  apply andb_false_iff in Ho as [Ho|Ho]; bool_prop; [by left|right].
  unfold contains in Ho. bool_prop. done.
Qed.

(** ** What connecting a share does *)

(** The arguments [connect_share] is called with. *)
Record connectable (c : ShareChain) (share : Share) (id : ShareId)
    (pow : option CandidateValidation) (enforce : bool) : Prop := {
  cn_share_id : share_id share = Ok id;
  cn_wf : share_wf share;
  cn_struct : structural_reject_reason c share = NoReject;
  cn_pow : pow_ok pow;
  cn_enforce : enforce = true → enforces_sidechain_difficulty c = true;
  cn_fresh : connected c !! id = None;
  cn_parent : is_root share = true ∨ is_Some (connected c !! parent_id share) }.

(** The state after a successful connection. *)
Definition connect_state (id : ShareId) (e : ConnectedShare) (b : option ShareId)
    (c : ShareChain) : ShareChain :=
  set_best b (set_connected (<[id := e]> (connected c)) c).

(** Which best tip the new entry leaves. *)
Definition connect_best (id : ShareId) (e : ConnectedShare) (c : ShareChain) : option ShareId :=
  match best_tip_id c with
  | None => Some id
  | Some b => match connected c !! b with
              | Some current => if better_tip e current then Some id else Some b
              | None => Some b
              end
  end.

Record connected_entry (c : ShareChain) (share : Share) (id : ShareId)
    (pow : option CandidateValidation) (enforce : bool) (e : ConnectedShare) : Prop := {
  ce_share : cs_share e = share;
  ce_id : cs_id e = id;
  ce_pow : pow_validation e = pow;
  ce_link : linked (connected c) e;
  ce_validated : validated_ancestry e = connect_validated c share pow enforce;
  ce_difficulty : enforce = true → expected_difficulty_reject_reason c share = Ok NoReject }.

(** The outcomes of [connect_share]: a rejection without change, a connection,
    or, on a chain with timestamps beyond 32 bits only, a throw without
    change. *)
Inductive connect_outcome (c : ShareChain) (share : Share) (id : ShareId)
    (pow : option CandidateValidation) (enforce changed : bool)
    : res (ShareRejectReason * bool) * ShareChain → Prop :=
| co_reject r :
    r ≠ NoReject → connect_outcome c share id pow enforce changed (Ok (r, changed), c)
| co_connect e changed' :
    connected_entry c share id pow enforce e →
    connect_outcome c share id pow enforce changed
      (Ok (NoReject, changed'), connect_state id e (connect_best id e c) c)
| co_throw x :
    ¬ times_ok c → connect_outcome c share id pow enforce changed (Throw x, c).

Lemma connect_parent_reason_ok c share :
  is_root share = true ∨ is_Some (connected c !! parent_id share) →
  ∃ r, connect_parent_reason c share = Ok r ∧
    (r = NoReject → is_root share = false → ∃ parent,
       connected c !! parent_id share = Some parent ∧
       height_mismatch share (cs_share parent) = false ∧
       parent_timestamp_reject_reason share (cs_share parent) = NoReject).
Proof.
  intros Hp. unfold connect_parent_reason, is_root in *.
  destruct (is_zero_share_id (parent_id share)); [by exists NoReject|].
  destruct Hp as [|[parent Hpar]]; [done|]. rewrite Hpar.
  destruct (height_mismatch share (cs_share parent)) eqn:Eh; [by eexists|].
  eexists. split; [done|]. eauto.
Qed.

Lemma connect_work_ok c share w cum :
  connect_work c share w = Some cum →
  if is_root share then arr_Z cum = arr_Z w
  else ∃ parent, connected c !! parent_id share = Some parent ∧
                 arr_Z cum = tip_work parent + arr_Z w.
Proof.
  unfold connect_work, is_root. destruct (is_zero_share_id _); [by intros [= ->]|].
  destruct (connected c !! _) as [parent|]; [|done].
  destruct (add_chain_work_checked _ _) as [sum ok] eqn:E. destruct ok; [|done].
  intros [= <-]. exists parent. split; [done|]. by apply add_chain_work_ok.
Qed.

Lemma connect_share_outcome P c share id pow enforce changed :
  pinv P None c → connectable c share id pow enforce →
  connect_outcome c share id pow enforce changed
    (connect_share share id pow enforce changed c).
Proof.
  intros Hinv [Hsid Hwf Hst Hpow Henf Hfresh Hpar].
  destruct (structural_network_nonzero c share Hst) as [Hsd Hnd].
  destruct (share_work_ok _ Hsd) as (w & Hw & HwZ).
  destruct (connect_parent_reason_ok c share Hpar) as (r & Hr & Hlink).
  unfold connect_share, exec_bind, exec_const, exec_ret, exec_get. rewrite Hw, Hr.
  destruct (decide (r = NoReject)) as [->|Hne];
    [|rewrite bool_decide_false by done; by constructor].
  rewrite bool_decide_true by done. cbn [negb].
  destruct (if enforce then _ else _) as [[dr|x] c1] eqn:Edr.
  2: { destruct enforce; [|done]. injection Edr as Ex <-. constructor. intros Ht.
       destruct (expected_reason_total c share (pi_policy _ _ _ Hinv)
         (pi_entry _ _ _ Hinv) Ht Hst) as [r' Hr']. congruence. }
  assert (c1 = c ∧ (enforce = true → expected_difficulty_reject_reason c share = Ok dr))
    as [-> Hdr] by (destruct enforce; injection Edr as ? <-; split; congruence).
  clear Edr. destruct (decide (dr = NoReject)) as [->|Hne];
    [|rewrite bool_decide_false by done; by constructor].
  rewrite bool_decide_true by done. cbn [negb].
  destruct (connect_work c share w) as [cum|] eqn:Ew; [|by constructor].
  unfold contains. rewrite bool_decide_false by (rewrite Hfresh; apply is_Some_None).
  set (e := mkConnected share id cum pow (connect_validated c share pow enforce)).
  assert (connected_entry c share id pow enforce e) as He.
  { constructor; try done. unfold linked, tip_work. simpl. rewrite <-HwZ.
    apply connect_work_ok in Ew. destruct (is_root share) eqn:Er; [done|].
    destruct Ew as (parent & Hp & E). destruct (Hlink eq_refl eq_refl) as (p' & Hp' & ? & ?).
    rewrite Hp in Hp'. injection Hp' as <-. exists parent. done. }
  pose proof (co_connect c share id pow enforce changed e) as Hco.
  unfold connect_state, connect_best in Hco. unfold exec_modify. cbn [set_connected best_tip_id].
  pose proof (pi_best _ _ _ Hinv) as Hbest. unfold best_ok in Hbest.
  destruct (best_tip_id c) as [b|] eqn:Eb; [|exact (Hco true He)].
  destruct Hbest as (cur & Hcur & _). cbn [connected].
  assert (id ≠ b) by (intros ->; congruence).
  change (connected (set_connected (<[id:=e]> (connected c)) c)) with (<[id:=e]> (connected c)).
  rewrite lookup_insert_ne by done. rewrite Hcur. rewrite Hcur in Hco.
  destruct (better_tip e cur); [exact (Hco true He)|]. specialize (Hco changed He).
  unfold set_best in Hco. cbn in Hco. unfold set_connected. by rewrite Eb.
Qed.

Lemma connect_best_ok c id e :
  best_ok (connected c) (best_tip_id c) → connected c !! id = None →
  (∀ i e', connected c !! i = Some e' → cs_id e' = i) → cs_id e = id →
  best_ok (<[id := e]> (connected c)) (connect_best id e c).
Proof.
  intros Hbest Hfresh Hids Hid. unfold connect_best. unfold best_ok in Hbest.
  destruct (best_tip_id c) as [b|].
  2: { exists e. rewrite Hbest, lookup_insert_eq. split; [done|]. intros i e' Hi Hne.
       by rewrite lookup_insert_ne in Hi. }
  destruct Hbest as (cur & Hcur & Hmax). rewrite Hcur.
  assert (id ≠ b) as Hne by (intros ->; congruence).
  destruct (better_tip e cur) eqn:Eb.
  - exists e. rewrite lookup_insert_eq. split; [done|]. intros i e' Hi Hni.
    rewrite lookup_insert_ne in Hi by done.
    destruct (decide (i = b)) as [->|]; [congruence|].
    eapply better_tip_trans; [done|]. by eapply Hmax.
  - exists cur. rewrite lookup_insert_ne by done. split; [done|]. intros i e' Hi Hni.
    destruct (decide (i = id)) as [->|]; [|rewrite lookup_insert_ne in Hi by done; by eapply Hmax].
    rewrite lookup_insert_eq in Hi. injection Hi as <-.
    apply better_tip_total; [|done]. by rewrite Hid, (Hids b cur Hcur).
Qed.

(** Erase the id from the orphan map, as the promotion loop does after
    connecting; nothing to erase for a share that was not an orphan. *)
Definition settle (id : ShareId) (c : ShareChain) : ShareChain :=
  set_orphans (delete id (orphans c)) c.

Lemma settle_fresh id c : orphans c !! id = None → settle id c = c.
Proof. intros H. unfold settle. rewrite delete_id by done. by destruct c. Qed.

Lemma connect_entry_ok c share id pow enforce e b :
  connectable c share id pow enforce → connected_entry c share id pow enforce e →
  entry_ok (connect_state id e b c) id e.
Proof.
  intros Hcn [Hs Hid Hp Hl Hv Hd]. pose proof Hcn as [Hsid Hwf Hst Hpow Henf Hfresh Hpar].
  assert (connected c ⊆ <[id := e]> (connected c)) as Hsub by (by apply insert_subseteq).
  constructor; rewrite ?Hs, ?Hp; try done.
  - by eapply linked_mono.
  - intros Hval. rewrite Hv in Hval. unfold connect_validated in Hval. bool_prop.
    rewrite Hp, Hs. destruct pow as [v|]; [|done]. split; [done|]. split; [auto|].
    split; [apply (difficulty_ok_mono c); [done|exact Hsub|]; apply expected_reason_ok; auto|].
    destruct (is_root share) eqn:Er; [by left|right]. unfold is_root in Er.
    rewrite Er in *. simpl in *. destruct (connected c !! parent_id share) as [p|] eqn:Ep; [|done].
    exists p. split; [|done]. by eapply lookup_weaken.
Qed.

Lemma connect_pinv P c share id pow enforce e :
  pinv P None c → connectable c share id pow enforce →
  connected_entry c share id pow enforce e →
  id ∈ P ∨ orphans c !! id = None →
  pinv (P ∖ {[id]}) (Some id) (settle id (connect_state id e (connect_best id e c) c)).
Proof.
  intros [Hpol Hent Hbest Horph Hwait Hpend Hbyp] Hcn Hce Hin.
  pose proof (cn_fresh _ _ _ _ _ Hcn) as Hfresh.
  assert (connected c ⊆ <[id := e]> (connected c)) as Hsub by (by apply insert_subseteq).
  constructor; cbn [settle set_orphans connect_state set_best set_connected connected orphans
    orphans_by_parent best_tip_id difficulty_policy]; try done.
  - intros i e' Hi. change (entry_ok (settle id (connect_state id e (connect_best id e c) c)) i e').
    destruct (decide (i = id)) as [->|Hne].
    + rewrite lookup_insert_eq in Hi. injection Hi as <-.
      apply (entry_ok_mono (connect_state id e (connect_best id e c) c));
        [done|reflexivity|by eapply connect_entry_ok].
    + rewrite lookup_insert_ne in Hi by done. apply (entry_ok_mono c); [done|exact Hsub|by apply Hent].
  - apply connect_best_ok; try done.
    + intros i e' Hi. apply (eo_id _ _ _ (Hent i e' Hi)).
    + apply (ce_id _ _ _ _ _ _ Hce).
  - intros i o [Hne Hi]%lookup_delete_Some. apply (orphan_ok_ext c); [done| |by apply Horph].
    cbn. rewrite lookup_insert_ne by done. apply (oo_connected _ _ _ (Horph i o Hi)).
  - intros i o [Hne Hi]%lookup_delete_Some HP.
    destruct (Hwait i o Hi) as [[Hn|?] Hl]; [set_solver| |done]. split; [|done].
    destruct (decide (id = parent_id (os_share o))) as [->|]; [by right|left].
    by rewrite lookup_insert_ne.
  - intros i [Hi Hne]%elem_of_difference. destruct (Hpend i Hi) as (o & Ho & [p Hp]).
    exists o. rewrite lookup_delete_ne by set_solver. split; [done|].
    exists p. by eapply lookup_weaken.
  - intros p l Hl. destruct (Hbyp p l Hl) as [Hnd Hall]. split; [done|]. intros i Hi.
    destruct (Hall i Hi) as [HnP (o & Ho & Hpar)]. split; [set_solver|].
    exists o. rewrite lookup_delete_ne; [done|]. intros ->.
    destruct Hin as [?|?]; [done|congruence].
Qed.
