(* ===== verification/ChainPromote.v ===== *)
(** Orphan promotion and admission preserve the invariant of the share chain;
    the recursion of [promote_children] terminates within its fuel. *)
From S2P Require Import Prelude CryptoHash PowTarget Share SidechainParams Difficulty ShareChain.
From S2P Require Import ChainWork ChainInv.

(** An orphan that will be marked validated when its parent is. *)
Definition earned (o : OrphanShare) : Prop :=
  os_enforce o = true ∧ ∃ v, os_pow_validation o = Some v ∧ meets_share_difficulty v = true.

(** [promotes c c']: [c'] comes from [c] by moving orphans into the chain or
    dropping them. *)
Record promotes (c c' : ShareChain) : Prop := {
  pr_connected : connected c ⊆ connected c';
  pr_policy : difficulty_policy c' = difficulty_policy c;
  pr_parameter : parameter_id c' = parameter_id c;
  pr_orphans : orphans c' ⊆ orphans c;
  pr_new : ∀ id e, connected c' !! id = Some e → connected c !! id = None →
    ∃ o, orphans c !! id = Some o ∧ cs_share e = os_share o ∧
         pow_validation e = os_pow_validation o ∧
         (earned o → (∀ p, connected c' !! parent_id (os_share o) = Some p →
            validated_ancestry p = true) → validated_ancestry e = true) }.

#[export] Instance promotes_preorder : PreOrder promotes.
Proof.
  split.
  - intros c. split; try done. intros id e H1 H2. congruence.
  - intros a b c [A1 A2 A3 A4 A5] [B1 B2 B3 B4 B5]. split; try congruence.
    + by transitivity (connected b).
    + by transitivity (orphans b).
    + intros id e Hc Ha. destruct (connected b !! id) as [e'|] eqn:Hb.
      * pose proof (lookup_weaken _ _ _ _ Hb B1). rewrite Hc in H. injection H as <-.
        destruct (A5 id e Hb Ha) as (o & ? & ? & ? & Hv). exists o. do 3 (split; [done|]).
        intros He Hp. apply Hv; [done|]. intros p Hbp. apply Hp. by eapply lookup_weaken.
      * destruct (B5 id e Hc Hb) as (o & Ho & ?). exists o. split; [|done].
        by eapply lookup_weaken.
Qed.

Lemma promotes_times c c' : promotes c c' → times_ok c → times_ok c'.
Proof.
  intros [H1 _ _ H4 H5] [Tc To]. split.
  - intros id e He. destruct (connected c !! id) as [e'|] eqn:E.
    + pose proof (lookup_weaken _ _ _ _ E H1) as E'. rewrite He in E'. injection E' as <-. eauto.
    + destruct (H5 id e He E) as (o & Ho & -> & _). eauto.
  - intros id o Ho. eapply To. by eapply lookup_weaken.
Qed.

Lemma promotes_size c c' : promotes c c' → (size (orphans c') ≤ size (orphans c))%nat.
Proof. intros H. apply map_subseteq_size, (pr_orphans _ _ H). Qed.

(** ** One child *)

Lemma settle_pinv P c id :
  pinv P None c → id ∈ P → pinv (P ∖ {[id]}) None (settle id c).
Proof.
  intros [Hpol Hent Hbest Horph Hwait Hpend Hbyp] Hin.
  constructor; cbn [settle set_orphans connected orphans orphans_by_parent best_tip_id
    difficulty_policy]; try done.
  - intros i e Hi. apply (entry_ok_mono c); [done|reflexivity|by apply Hent].
  - intros i o [Hne Hi]%lookup_delete_Some. apply (orphan_ok_ext c); [done| |by apply Horph].
    apply (oo_connected _ _ _ (Horph i o Hi)).
  - intros i o [Hne Hi]%lookup_delete_Some HP. apply (Hwait i o Hi). set_solver.
  - intros i [Hi Hne]%elem_of_difference. destruct (Hpend i Hi) as (o & Ho & Hp).
    exists o. by rewrite lookup_delete_ne by set_solver.
  - intros p l Hl. destruct (Hbyp p l Hl) as [Hnd Hall]. split; [done|]. intros i Hi.
    destruct (Hall i Hi) as [HnP (o & Ho & Hpar)]. split; [set_solver|].
    exists o. rewrite lookup_delete_ne; [done|]. intros ->. done.
Qed.

Lemma settle_promotes id c : promotes c (settle id c).
Proof.
  split; cbn; try done; [apply delete_subseteq|]. intros. congruence.
Qed.

Lemma connect_promotes c share id pow enforce e o :
  connectable c share id pow enforce → connected_entry c share id pow enforce e →
  orphans c !! id = Some o → os_share o = share → os_pow_validation o = pow →
  os_enforce o = enforce → promotes c (settle id (connect_state id e (connect_best id e c) c)).
Proof.
  intros Hcn Hce Ho Hs Hp Hf. split; cbn; try done.
  - apply insert_subseteq, (cn_fresh _ _ _ _ _ Hcn).
  - apply delete_subseteq.
  - intros i e' Hi Hn. destruct (decide (i = id)) as [->|].
    + rewrite lookup_insert_eq in Hi. injection Hi as <-. exists o.
      split; [done|]. rewrite Hs.
      split; [apply (ce_share _ _ _ _ _ _ Hce)|]. split; [rewrite Hp; apply (ce_pow _ _ _ _ _ _ Hce)|].
      intros (He & v & Hv & Hm) Hpar. rewrite (ce_validated _ _ _ _ _ _ Hce).
      unfold connect_validated. rewrite <-Hf, He, <-Hp, Hv, Hm. cbn [andb].
      destruct (cn_parent _ _ _ _ _ Hcn) as [Hr|[p Hpc]]; [unfold is_root in Hr; by rewrite Hr|].
      rewrite Hpc. rewrite (Hpar p), orb_true_r; [done|].
      rewrite lookup_insert_ne; [done|]. intros ->. pose proof (cn_fresh _ _ _ _ _ Hcn). congruence.
    + rewrite lookup_insert_ne in Hi by done. congruence.
Qed.

Lemma orphan_connectable P c id o :
  pinv P None c → orphans c !! id = Some o → id ∈ P →
  connectable c (os_share o) id (os_pow_validation o) (os_enforce o).
Proof.
  intros Hinv Ho HP. destruct (pi_orphan _ _ _ Hinv id o Ho).
  destruct (pi_pending _ _ _ Hinv id HP) as (o' & Ho' & Hp).
  rewrite Ho in Ho'. injection Ho' as <-. by constructor; [..|right].
Qed.

(** ** The loop and the recursion *)

Lemma map_size_delete_lt {A} (i : ShareId) (m : gmap ShareId A) x :
  m !! i = Some x → (size (delete i m) < size m)%nat.
Proof.
  intros Hi. rewrite map_size_delete_Some by eauto.
  assert (size m ≠ 0)%nat by (eapply map_size_ne_0_lookup_2; eauto). lia.
Qed.

(** The returned counter counts the shares connected on the way. *)
Definition promote_post (P : gset ShareId) (n : nat) (c : ShareChain)
    (out : res (nat * bool) * ShareChain) : Prop :=
  match out with
  | (Ok (n', _), c') => pinv P None c' ∧ promotes c c' ∧
      (n' + size (connected c) = n + size (connected c'))%nat
  | (Throw _, _) => ¬ times_ok c
  end.

Lemma promote_post_trans P n n' c c' out :
  promotes c c' → (n' + size (connected c) = n + size (connected c'))%nat →
  promote_post P n' c' out → promote_post P n c out.
Proof.
  intros Hp Hn. unfold promote_post. destruct out as [[[r b]|x] c2].
  - intros (? & ? & ?). split; [done|]. split; [by transitivity c'|]. lia.
  - intros Hnt Ht. by eapply Hnt, promotes_times.
Qed.

Lemma promote_loop_post f rec :
  (∀ P c q n ch, pinv P (Some q) c → is_Some (connected c !! q) → (size (orphans c) < f)%nat →
     promote_post P n c (rec q n ch c)) →
  ∀ ids P c n ch,
    pinv (P ∪ list_to_set ids) None c → NoDup ids → (∀ i, i ∈ ids → i ∉ P) →
    (size (orphans c) ≤ f)%nat →
    promote_post P n c (promote_loop rec ids n ch c).
Proof.
  intros Hrec ids. induction ids as [|child ids IH]; intros P c n ch Hinv Hnd Hdisj Hf.
  { simpl. split; [|by split]. simpl in Hinv. by rewrite union_empty_r_L in Hinv. }
  apply NoDup_cons in Hnd as [Hni Hnd].
  assert (child ∈ P ∪ list_to_set (child :: ids)) as HinP by set_solver.
  destruct (pi_pending _ _ _ Hinv child HinP) as (o & Ho & Hpar).
  pose proof (orphan_connectable _ _ _ _ Hinv Ho HinP) as Hcn.
  assert ((P ∪ list_to_set (child :: ids)) ∖ {[child]} = P ∪ list_to_set ids) as HP
    by (specialize (Hdisj child ltac:(left)); set_solver).
  assert (size (delete child (orphans c)) < size (orphans c))%nat as Hsize
    by (by apply (map_size_delete_lt _ _ o)).
  simpl promote_loop. unfold exec_bind at 1, exec_get. rewrite Ho.
  unfold exec_bind at 1. unfold exec_bind at 1.
  destruct (connect_share_outcome _ c (os_share o) child (os_pow_validation o)
    (os_enforce o) ch Hinv Hcn) as [r Hr|e ch' Hce|x Hx]; [| |done].
  - cbn. rewrite bool_decide_false by done.
    apply (promote_post_trans _ _ n _ (settle child c)); [apply settle_promotes|done|].
    apply IH; try done; [|set_solver|cbn; lia].
    rewrite <-HP. by apply settle_pinv.
  - unfold exec_modify. rewrite bool_decide_true by done.
    pose proof (connect_promotes _ _ _ _ _ _ _ Hcn Hce Ho eq_refl eq_refl eq_refl) as Hprom.
    pose proof (connect_pinv _ _ _ _ _ _ _ Hinv Hcn Hce ltac:(by left)) as Hinv'.
    rewrite HP in Hinv'.
    set (c1 := settle child _) in *.
    change (set_orphans (delete child (orphans _)) _) with c1.
    apply (promote_post_trans _ _ (S n) _ c1 _ Hprom).
    { cbn. rewrite map_size_insert_None by apply (cn_fresh _ _ _ _ _ Hcn). lia. }
    unfold exec_bind.
    assert (is_Some (connected c1 !! child)) as Hin by (cbn; rewrite lookup_insert_eq; eauto).
    pose proof (Hrec _ c1 child (S n) ch' Hinv' Hin) as Hpost.
    assert (size (orphans c1) < f)%nat as Hlt by (cbn; lia). specialize (Hpost Hlt).
    cbn [fst snd]. destruct (rec child (S n) ch' c1) as [[[n2 b2]|x] c2]; [|done].
    destruct Hpost as (Hinv2 & Hprom2 & Hn2). cbn [fst snd].
    apply (promote_post_trans _ _ n2 _ c2 _ Hprom2 Hn2). apply IH; try done; [set_solver|].
    apply promotes_size in Hprom2. lia.
Qed.

(** Taking a list of waiting children off the index makes them pending. *)
Lemma take_children_pinv P c q l :
  pinv P (Some q) c → is_Some (connected c !! q) → orphans_by_parent c !! q = Some l →
  pinv (P ∪ list_to_set (sort_ids l)) None
    (set_by_parent (delete q (orphans_by_parent c)) c).
Proof.
  intros [Hpol Hent Hbest Horph Hwait Hpend Hbyp] Hq Hl.
  assert (∀ i, i ∈ P ∪ list_to_set (sort_ids l) ↔ i ∈ P ∨ i ∈ l) as Hmem.
  { intros i. rewrite elem_of_union, elem_of_list_to_set, elem_of_sort_ids. done. }
  constructor; cbn [set_by_parent connected orphans orphans_by_parent best_tip_id
    difficulty_policy]; try done.
  - intros i e Hi. apply (entry_ok_mono c); [done|reflexivity|by apply Hent].
  - intros i o Hi. apply (orphan_ok_ext c); [done| |by apply Horph].
    apply (oo_connected _ _ _ (Horph i o Hi)).
  - intros i o Hi HP. rewrite Hmem in HP.
    destruct (Hwait i o Hi) as [Hc (l' & Hl' & Hin)]; [tauto|].
    assert (parent_id (os_share o) ≠ q) as Hne by (intros E; rewrite E, Hl in Hl'; naive_solver).
    split; [destruct Hc as [?|[= ?]]; [by left|congruence]|].
    exists l'. by rewrite lookup_delete_ne.
  - intros i [Hi|Hi]%Hmem; [by apply Hpend|].
    destruct (Hbyp q l Hl) as [_ Hall]. destruct (Hall i Hi) as [_ (o & Ho & Hp)].
    exists o. by rewrite Hp.
  - intros p l' [Hne Hl']%lookup_delete_Some. destruct (Hbyp p l' Hl') as [Hnd Hall].
    split; [done|]. intros i Hi. destruct (Hall i Hi) as [HnP (o & Ho & Hp)].
    split; [|by exists o]. rewrite Hmem. intros [?|Hin]; [done|].
    destruct (Hbyp q l Hl) as [_ Hall']. destruct (Hall' i Hin) as [_ (o' & Ho' & Hp')].
    congruence.
Qed.

Lemma no_children_pinv P c q :
  pinv P (Some q) c → orphans_by_parent c !! q = None → pinv P None c.
Proof.
  intros [Hpol Hent Hbest Horph Hwait Hpend Hbyp] Hq. constructor; try done.
  intros i o Hi HP. destruct (Hwait i o Hi HP) as [[?|[= ->]] (l & Hl & ?)]; [eauto|congruence].
Qed.

(** [S (size orphans)] levels of recursion are enough: the promotion returns, on
    every chain whose timestamps fit 32 bits, with the invariant restored. *)
Lemma promote_children_post f P c q n ch :
  pinv P (Some q) c → is_Some (connected c !! q) → (size (orphans c) < f)%nat →
  promote_post P n c (promote_children f q n ch c).
Proof.
  revert P c q n ch. induction f as [|f IH]; intros P c q n ch Hinv Hq Hf; [lia|].
  cbn [promote_children]. unfold exec_bind, exec_get, exec_modify, exec_ret.
  destruct (orphans_by_parent c !! q) as [l|] eqn:El.
  2: { split; [by eapply no_children_pinv|by split]. }
  set (c1 := set_by_parent (delete q (orphans_by_parent c)) c).
  assert (promotes c c1) as Hp by (split; try done; intros; cbn in *; congruence).
  apply (promote_post_trans _ _ n _ c1); [done|done|].
  destruct (pi_by_parent _ _ _ Hinv q l El) as [Hnd Hall].
  eapply (promote_loop_post f); [|by apply take_children_pinv| | |cbn; lia].
  - intros. by apply IH.
  - unfold sort_ids. by rewrite merge_sort_Permutation.
  - intros i Hi. apply (Hall i). by apply elem_of_sort_ids.
Qed.

(** ** Admission *)

(** The effect of an accepted orphan. *)
Definition orphan_state (share : Share) (id : ShareId) (pow : option CandidateValidation)
    (enforce : bool) (c : ShareChain) : ShareChain :=
  set_by_parent
    (<[parent_id share := default [] (orphans_by_parent c !! parent_id share) ++ [id]]>
       (orphans_by_parent c))
    (set_orphans (<[id := mkOrphan share id pow enforce]> (orphans c)) c).

Lemma orphan_state_inv c share id pow enforce :
  chain_inv c → orphans c !! id = None → connected c !! id = None →
  connected c !! parent_id share = None →
  orphan_ok c id (mkOrphan share id pow enforce) →
  chain_inv (orphan_state share id pow enforce c).
Proof.
  intros [Hpol Hent Hbest Horph Hwait Hpend Hbyp] Ho Hc Hp Hok.
  constructor; cbn [orphan_state set_by_parent set_orphans connected orphans orphans_by_parent
    best_tip_id difficulty_policy]; try done.
  - intros i e Hi. apply (entry_ok_mono c); [done|reflexivity|by apply Hent].
  - intros i o Hi. apply (orphan_ok_ext c); [done| |].
    + destruct (decide (i = id)) as [->|]; [done|]. rewrite lookup_insert_ne in Hi by done.
      apply (oo_connected _ _ _ (Horph i o Hi)).
    + destruct (decide (i = id)) as [->|].
      * rewrite lookup_insert_eq in Hi. by injection Hi as <-.
      * rewrite lookup_insert_ne in Hi by done. by apply Horph.
  - intros i o Hi _. destruct (decide (i = id)) as [->|].
    { rewrite lookup_insert_eq in Hi. injection Hi as <-. simpl. split; [by left|].
      rewrite lookup_insert_eq. eexists. split; [done|]. apply elem_of_app. right. by left. }
    rewrite lookup_insert_ne in Hi by done.
    destruct (Hwait i o Hi) as [[Hn|?] (l & Hl & Hin)]; [apply not_elem_of_empty| |done]. split; [by left|].
    destruct (decide (parent_id (os_share o) = parent_id share)) as [E|];
      [|rewrite lookup_insert_ne by done; eauto].
    rewrite E, lookup_insert_eq. rewrite E in Hl. rewrite Hl. eexists. split; [done|].
    apply elem_of_app. by left.
  - intros p l Hl. assert (∀ i, i ∈ default [] (orphans_by_parent c !! p) → i ≠ id ∧
      ∃ o, orphans c !! i = Some o ∧ parent_id (os_share o) = p) as Hold.
    { intros i Hi. destruct (orphans_by_parent c !! p) as [l0|] eqn:El; [|by apply elem_of_nil in Hi].
      destruct (Hbyp p l0 El) as [_ Hall]. destruct (Hall i Hi) as [_ (o & Hoi & Hpi)].
      split; [intros ->; congruence|eauto]. }
    destruct (decide (p = parent_id share)) as [->|].
    + rewrite lookup_insert_eq in Hl. injection Hl as <-. split.
      * apply NoDup_app. split; [|split; [|apply NoDup_singleton]].
        -- destruct (orphans_by_parent c !! parent_id share) as [l0|] eqn:El;
             [by apply (Hbyp _ l0 El)|apply NoDup_nil_2].
        -- intros i Hi ->%list_elem_of_singleton. by apply (Hold id Hi).
      * intros i [Hi| ->%list_elem_of_singleton]%elem_of_app; (split; [apply not_elem_of_empty|]).
        -- destruct (Hold i Hi) as (? & o & ? & ?). exists o. by rewrite lookup_insert_ne.
        -- eexists. by rewrite lookup_insert_eq.
    + rewrite lookup_insert_ne in Hl by done. destruct (Hbyp p l Hl) as [Hnd _].
      split; [done|]. intros i Hi. split; [apply not_elem_of_empty|]. rewrite Hl in Hold.
      destruct (Hold i Hi) as (? & o & ? & ?). exists o. by rewrite lookup_insert_ne.
Qed.
