(* ===== verification/ChainAdmit.v ===== *)
(** Admission of a share: every outcome of [add_prevalidated_share] and
    [submit_share], the invariant after each, and what an accepted share has
    proved about itself. *)
From S2P Require Import Prelude CryptoHash PowTarget Share SidechainParams Difficulty ShareChain.
From S2P Require Import ChainWork ChainInv ChainPromote.

Definition fresh_id (c : ShareChain) (id : ShareId) : Prop :=
  connected c !! id = None ∧ orphans c !! id = None.

(** The outcomes of an admission: what is returned and what becomes of the
    chain. *)
Inductive add_outcome (c : ShareChain) (share : Share) (pow : option CandidateValidation)
    (enforce : bool) : res AddShareResult * ShareChain → Prop :=
| ao_noncanonical x :
    share_canonical share = false → add_outcome c share pow enforce (Throw x, c)
| ao_duplicate id :
    share_id share = Ok id → ¬ fresh_id c id →
    add_outcome c share pow enforce (Ok (mkAdd Duplicate NoReject id 0 false), c)
| ao_rejected id r :
    share_id share = Ok id → fresh_id c id → r ≠ NoReject →
    add_outcome c share pow enforce (Ok (rejected id r), c)
| ao_orphan id :
    share_id share = Ok id → fresh_id c id →
    structural_reject_reason c share = NoReject →
    is_root share = false → connected c !! parent_id share = None →
    add_outcome c share pow enforce
      (Ok (mkAdd Orphan NoReject id 0 false), orphan_state share id pow enforce c)
| ao_connected id e n c' :
    fresh_id c id → connectable c share id pow enforce →
    connected_entry c share id pow enforce e → chain_inv c' →
    promotes (connect_state id e (connect_best id e c) c) c' →
    (n + S (size (connected c)) = size (connected c'))%nat →
    add_outcome c share pow enforce
      (Ok (mkAdd Connected NoReject id n
             (negb (bool_decide (best_tip_id c = best_tip_id c')))), c')
| ao_time_overflow x c' :
    ¬ (times_ok c ∧ time_ok share) → add_outcome c share pow enforce (Throw x, c').

Lemma share_id_canonical s :
  if share_canonical s then share_id s = Ok (cn_fast_hash (share_layout s))
  else ∃ x, share_id s = Throw x.
Proof.
  unfold share_id. destruct (share_canonical s) eqn:Ec.
  - assert (serialize_share s = Ok (share_layout s)) as -> by (by apply serialize_share_ok). done.
  - destruct (serialize_share s) as [b|x] eqn:E; [|by exists x].
    apply serialize_share_ok in E as [? _]. congruence.
Qed.

Lemma fresh_id_spec c id : contains c id || is_orphan c id = false ↔ fresh_id c id.
Proof.
  unfold contains, is_orphan, fresh_id. rewrite orb_false_iff, !bool_decide_eq_false.
  by rewrite !eq_None_not_Some.
Qed.

Lemma connect_state_times c id e b :
  times_ok c → time_ok (cs_share e) → times_ok (connect_state id e b c).
Proof.
  intros [Tc To] Te. split; [|done]. intros i e' Hi. cbn in Hi.
  destruct (decide (i = id)) as [->|].
  - rewrite lookup_insert_eq in Hi. by injection Hi as <-.
  - rewrite lookup_insert_ne in Hi by done. eauto.
Qed.

Lemma admit_connect_outcome c share id pow enforce :
  chain_inv c → fresh_id c id → connectable c share id pow enforce →
  add_outcome c share pow enforce
    ((reason_changed <- connect_share share id pow enforce false ;;
      if negb (bool_decide (reason_changed.1 = NoReject))
      then exec_ret (mkAdd Rejected reason_changed.1 id 0 reason_changed.2)
      else
      c1 <- exec_get ;;
      promoted_changed <- promote_children (S (size (orphans c1))) id 0 reason_changed.2 ;;
      c' <- exec_get ;;
      exec_ret (mkAdd Connected NoReject id promoted_changed.1
                  (negb (bool_decide (best_tip_id c = best_tip_id c')))))%pool c).
Proof.
  intros Hinv Hfr Hcn. pose proof Hfr as [Hfc Hfo]. unfold exec_bind at 1.
  destruct (connect_share_outcome _ c share id pow enforce false Hinv Hcn) as [r Hr|e ch' Hce|x Hx].
  - cbn. rewrite bool_decide_false by done. constructor; try done. apply Hcn.
  - rewrite bool_decide_true by done. cbn [negb fst snd].
    unfold exec_bind, exec_get.
    set (c1 := connect_state id e (connect_best id e c) c).
    assert (pinv ∅ (Some id) c1) as Hp.
    { pose proof (connect_pinv _ _ _ _ _ _ _ Hinv Hcn Hce ltac:(by right)) as Hp.
      rewrite settle_fresh in Hp by done.
      by replace (∅ ∖ {[id]} : gset ShareId) with (∅ : gset ShareId) in Hp by set_solver. }
    assert (is_Some (connected c1 !! id)) as Hin by (cbn; rewrite lookup_insert_eq; eauto).
    pose proof (promote_children_post (S (size (orphans c1))) ∅ c1 id 0 ch' Hp Hin ltac:(lia))
      as Hpost.
    destruct (promote_children _ _ _ _ _) as [[[n b]|x] c2].
    + destruct Hpost as (Hinv2 & Hprom & Hn). unfold exec_ret. cbn [fst snd].
      eapply ao_connected; try done. cbn in Hn. rewrite map_size_insert_None in Hn by done. lia.
    + apply ao_time_overflow. intros [Ht Hts]. apply Hpost, connect_state_times; [done|].
      by rewrite (ce_share _ _ _ _ _ _ Hce).
  - apply ao_time_overflow. tauto.
Qed.

Lemma add_prevalidated_outcome c share pow enforce :
  chain_inv c → share_wf share → pow_ok pow →
  (enforce = true → enforces_sidechain_difficulty c = true) →
  add_outcome c share pow enforce (add_prevalidated_share share pow enforce c).
Proof.
  intros Hinv Hwf Hpow Henf. unfold add_prevalidated_share, exec_bind at 1, exec_const.
  pose proof (share_id_canonical share) as Hid. destruct (share_canonical share) eqn:Ec.
  2: { destruct Hid as [x ->]. by apply ao_noncanonical. }
  rewrite Hid. set (id := cn_fast_hash (share_layout share)) in *.
  unfold exec_bind at 1, exec_get at 1.
  destruct (contains c id || is_orphan c id) eqn:Ed.
  { apply ao_duplicate; [done|]. rewrite <-fresh_id_spec, Ed. done. }
  apply fresh_id_spec in Ed. pose proof Ed as [Hfc Hfo].
  destruct (decide (structural_reject_reason c share = NoReject)) as [Hs|Hs].
  2: { rewrite bool_decide_false by done. by apply ao_rejected. }
  rewrite bool_decide_true by done. cbn [negb].
  destruct (negb _ && negb _) eqn:Eo.
  { bool_prop. unfold contains in *. bool_prop.
    apply ao_orphan; try done. by apply eq_None_not_Some. }
  apply admit_connect_outcome; [done..|]. constructor; try done.
  apply andb_false_iff in Eo as [Eo|Eo]; bool_prop; [by left|right].
  unfold contains in Eo. by bool_prop.
Qed.

Lemma add_outcome_inv c share pow enforce r c' :
  chain_inv c → share_wf share → pow_ok pow →
  (enforce = true → enforces_sidechain_difficulty c = true) →
  add_outcome c share pow enforce (Ok r, c') → chain_inv c'.
Proof.
  intros Hinv Hwf Hpow Henf Hout. inversion Hout; subst; try done.
  match goal with H : fresh_id _ _ |- _ => destruct H end.
  by apply orphan_state_inv.
Qed.

(** ** Submission *)

Section Submit.
Context `{!ProgPow}.

(** What a share that passed [submit_share]'s checks has shown: it is mined on
    the trusted Zano work, is not from the future, has the difficulty the chain
    expects, and its ProgPoWZ hash meets that difficulty. *)
Record proven (share : Share) (ctx : ShareWorkContext) (now : Z) (mode : ProgPowZContextMode)
    (v : CandidateValidation) : Prop := {
  pv_height : zano_height share = ctx_zano_height ctx;
  pv_header : mining_header_hash share = ctx_mining_header_hash ctx;
  pv_network : network_difficulty share = ctx_network_difficulty ctx;
  pv_time : timestamp share ≤ now + kShareMaxFutureSeconds;
  pv_hash : progpowz_hash (zano_height share) (mining_header_hash share) (nonce share) mode
            = Ok (pow v);
  pv_work : arr_Z (final_hash (pow v)) * arr_Z (share_difficulty share) ≤ u256_max;
  pv_block : classification v = ClassBlock ↔
             arr_Z (final_hash (pow v)) * arr_Z (network_difficulty share) ≤ u256_max;
  pv_consistent : replay_validation_consistent v = true }.

Lemma trusted_context_ok share ctx :
  trusted_context_reject_reason share ctx = NoReject →
  zano_height share = ctx_zano_height ctx ∧
  mining_header_hash share = ctx_mining_header_hash ctx ∧
  network_difficulty share = ctx_network_difficulty ctx.
Proof.
  unfold trusted_context_reject_reason. intros Hr.
  repeat (case_match; try discriminate Hr). by bool_prop.
Qed.

Lemma absolute_timestamp_ok share now :
  is_u64 now → is_u64 (timestamp share) →
  absolute_timestamp_reject_reason share now = NoReject →
  timestamp share ≤ now + kShareMaxFutureSeconds.
Proof.
  unfold absolute_timestamp_reject_reason, is_u64, kShareMaxFutureSeconds. intros Hn Ht Hr.
  destruct (Z.ltb_spec now (timestamp share)); [|lia]. simpl in Hr.
  rewrite wrap64_id in Hr by (unfold is_u64; lia).
  destruct (Z.ltb_spec 60 (timestamp share - now)); [done|lia].
Qed.

Lemma validated_proven c share ctx now mode v :
  is_u64 now → share_wf share → structural_reject_reason c share = NoReject →
  trusted_context_reject_reason share ctx = NoReject →
  absolute_timestamp_reject_reason share now = NoReject →
  validate_share share ctx mode = Ok v → pow_rejected v = false →
  proven share ctx now mode v.
Proof.
  intros Hnow Hwf Hs Hctx Hts Hv Hr.
  apply trusted_context_ok in Hctx as (Eh & Em & En).
  destruct (structural_network_nonzero c share Hs) as [Hsd Hnd].
  apply parse_difficulty_decimal in Hsd, Hnd.
  unfold validate_share in Hv. rewrite <-Eh, <-Em, <-En in Hv.
  unfold validate_candidate in Hv. res_inv.
  rewrite (hash_meets_difficulty_parsed _ _ _ Hsd) in *.
  rewrite (hash_meets_difficulty_parsed _ _ _ Hnd) in *. res_inv.
  unfold pow_rejected in Hr. simpl in Hr. bool_prop.
  constructor; simpl; try done.
  - apply absolute_timestamp_ok; [done|apply Hwf|done].
  - repeat case_bool_decide; naive_solver.
  - unfold replay_validation_consistent. simpl. by repeat case_bool_decide.
Qed.

(** Split on the next reject reason of [Hout]; the rejecting side leaves the
    chain alone. *)
Ltac reject_step Hout Hr :=
  match type of Hout with
  | context [bool_decide (?r = NoReject)] =>
      destruct (decide (r = NoReject)) as [Hr|?];
      [rewrite (bool_decide_true (r = NoReject)) in Hout by done; cbn [negb] in Hout
      |rewrite (bool_decide_false (r = NoReject)) in Hout by done;
       left; subst; simpl; by auto]
  end.

(** A submission either leaves the chain alone or is an admission of a share
    with a proven PoW. *)
Lemma submit_outcome c share ctx now mode out :
  chain_inv c → share_wf share → is_u64 now → submit_share share ctx now mode c = out →
  (out.2 = c ∧ match out.1 with
               | Ok r => disposition r = Duplicate ∨ disposition r = Rejected
               | Throw _ => True
               end) ∨
  ∃ v, proven share ctx now mode v ∧
       expected_difficulty_reject_reason c share = Ok NoReject ∧
       add_outcome c share (Some v) (enforces_sidechain_difficulty c) out.
Proof.
  intros Hinv Hwf Hnow Hout. unfold submit_share, exec_bind, exec_const, exec_get in Hout.
  destruct (share_id share) as [id|x]; [|left; by subst].
  destruct (contains c id || is_orphan c id); [left; subst; simpl; by auto|].
  reject_step Hout Hs. reject_step Hout Hc. reject_step Hout Ht. reject_step Hout Hlp.
  destruct (expected_difficulty_reject_reason c share) as [r|x] eqn:Er; [|left; by subst].
  reject_step Hout Hx. subst r.
  cbn [negb] in Hout. destruct progpowz_available; [|left; subst; simpl; by auto].
  cbn [negb] in Hout.
  destruct (validate_share share ctx mode) as [v|x] eqn:Ev; [|left; by subst].
  destruct (pow_rejected v) eqn:Hr; [left; subst; simpl; by auto|]. right. exists v.
  pose proof (validated_proven _ _ _ _ _ _ Hnow Hwf Hs Hc Ht Ev Hr) as Hp.
  split; [done|]. split; [done|]. subst out.
  apply add_prevalidated_outcome; try done. apply Hp.
Qed.

End Submit.
