(* ===== verification/ChainReplay.v ===== *)
(** Revalidation of connected shares, and the snapshot of validation state and
    its restoration after a restart. *)
From S2P Require Import Prelude CryptoHash PowTarget Share SidechainParams Difficulty ShareChain.
From S2P Require Import ChainWork ChainInv ChainPromote ChainAdmit.

(** ** Marking shares as validated *)

(** [marked e e']: the entry is the same but for the validation verdict, which
    only goes from unvalidated to validated. *)
Definition marked (e e' : ConnectedShare) : Prop :=
  e' = e ∨
  (validated_ancestry e = false ∧
   ∃ v, replay_validation_consistent v = true ∧
        e' = mkConnected (cs_share e) (cs_id e) (cumulative_work e) (Some v) true).

#[export] Instance marked_preorder : PreOrder marked.
Proof.
  split; [by left|]. intros a b c [->|(Ha & v & Hv & ->)] [->|(Hb & w & Hw & ->)]; try done;
    [by left|right|right]; eauto.
Qed.

(** The chain after marking: same keys, marked entries, nothing else changed. *)
Definition marks (c c' : ShareChain) : Prop :=
  (∀ id, option_Forall2 marked (connected c !! id) (connected c' !! id)) ∧
  c' = set_connected (connected c') c.

#[export] Instance marks_preorder : PreOrder marks.
Proof.
  split.
  - intros c. split; [intros id; reflexivity|by destruct c].
  - intros a b c [H1 E1] [H2 E2]. split.
    + intros id. by transitivity (connected b !! id).
    + rewrite E2, E1. done.
Qed.

Lemma marks_lookup c c' id e' :
  marks c c' → connected c' !! id = Some e' →
  ∃ e, connected c !! id = Some e ∧ marked e e'.
Proof. intros [H _] He. specialize (H id). rewrite He in H. inversion H; eauto. Qed.

Lemma marks_lookup_l c c' id e :
  marks c c' → connected c !! id = Some e →
  ∃ e', connected c' !! id = Some e' ∧ marked e e'.
Proof. intros [H _] He. specialize (H id). rewrite He in H. inversion H; eauto. Qed.

Lemma marks_none c c' id : marks c c' → connected c !! id = None → connected c' !! id = None.
Proof. intros [H _] He. specialize (H id). rewrite He in H. by inversion H. Qed.

Lemma marked_same e e' :
  marked e e' → cs_share e' = cs_share e ∧ cs_id e' = cs_id e ∧
    cumulative_work e' = cumulative_work e ∧
    (validated_ancestry e = true → validated_ancestry e' = true).
Proof. intros [->|(? & v & ? & ->)]; done. Qed.

Lemma marks_fields c c' :
  marks c c' → difficulty_policy c' = difficulty_policy c ∧ orphans c' = orphans c ∧
    orphans_by_parent c' = orphans_by_parent c ∧ best_tip_id c' = best_tip_id c ∧
    parameter_id c' = parameter_id c.
Proof. intros [_ ->]. done. Qed.

Lemma marks_linked c c' e e' :
  marks c c' → marked e e' → linked (connected c) e → linked (connected c') e'.
Proof.
  intros Hm He. destruct (marked_same _ _ He) as (Es & _ & Ew & _).
  unfold linked, tip_work. rewrite Es, Ew. destruct (is_root _); [done|].
  intros (p & Hp & Hh & Ht & Hw). destruct (marks_lookup_l _ _ _ _ Hm Hp) as (p' & Hp' & Hpm).
  destruct (marked_same _ _ Hpm) as (Eps & _ & Epw & _).
  exists p'. rewrite Eps, Epw. done.
Qed.

Lemma marks_history c c' room e e' :
  marks c c' → marked e e' → collect_history room c' e' = collect_history room c e.
Proof.
  intros Hm. revert e e'. induction room as [|room IH]; intros e e' He; [done|].
  destruct (marked_same _ _ He) as (Es & _ & Ew & _). simpl. rewrite Es, Ew.
  destruct (is_zero_share_id _); [done|]. unfold find.
  pose proof (proj1 Hm (parent_id (cs_share e))) as Hf.
  destruct Hf as [p p' Hp|]; [|done]. by rewrite (IH p p' Hp).
Qed.

Lemma marks_difficulty c c' s : marks c c' → difficulty_ok c' s ↔ difficulty_ok c s.
Proof.
  intros Hm. unfold difficulty_ok, expected_child_share_difficulty.
  destruct (marks_fields _ _ Hm) as (-> & _). destruct (difficulty_policy c); [|done].
  destruct (is_zero_share_id _); [done|]. unfold find.
  pose proof (proj1 Hm (parent_id s)) as Hf.
  destruct Hf as [p p' Hp|]; [|done]. by rewrite (marks_history c c' _ p p' Hm Hp).
Qed.

Lemma marks_best c c' :
  marks c c' → best_ok (connected c) (best_tip_id c) → best_ok (connected c') (best_tip_id c').
Proof.
  intros Hm. destruct (marks_fields _ _ Hm) as (_ & _ & _ & -> & _).
  unfold best_ok. destruct (best_tip_id c) as [b|].
  - intros (e & He & Hmax). destruct (marks_lookup_l _ _ _ _ Hm He) as (e' & He' & Hme).
    exists e'. split; [done|]. intros i x' Hx Hne.
    destruct (marks_lookup _ _ _ _ Hm Hx) as (x & Hxc & Hmx).
    destruct (marked_same _ _ Hme) as (? & ? & ? & _), (marked_same _ _ Hmx) as (? & ? & ? & _).
    rewrite (better_tip_ext e' e x' x) by done. by eapply Hmax.
  - intros E. apply map_empty. intros i. apply (marks_none c); [done|]. by rewrite E.
Qed.

(** Marking keeps the invariant when the newly marked shares are roots or
    children of marked or already validated shares. *)
Lemma marks_inv c c' :
  chain_inv c → marks c c' →
  (∀ id e, connected c' !! id = Some e → validated_link c' e) →
  chain_inv c'.
Proof.
  intros [Hpol Hent Hbest Horph Hwait Hpend Hbyp] Hm Hval.
  destruct (marks_fields _ _ Hm) as (Ep & Eo & Eb & _ & _).
  constructor; rewrite ?Ep, ?Eo, ?Eb; try done.
  - intros i e' Hi. destruct (marks_lookup _ _ _ _ Hm Hi) as (e & He & Hme).
    destruct (marked_same _ _ Hme) as (Es & Ei & _ & _).
    pose proof (Hent i e He) as [H1 H2 H3 H4 H5 H6 H7].
    constructor; rewrite ?Es, ?Ei; try done.
    + by rewrite (structural_ext c' c).
    + by destruct Hme as [->|(? & v & ? & ->)].
    + by eapply marks_linked.
    + by eapply Hval.
  - by eapply marks_best.
  - intros i o Hi. apply (orphan_ok_ext c); [done| |by apply Horph].
    eapply marks_none; [done|]. apply (oo_connected _ _ _ (Horph i o Hi)).
  - intros i o Hi HP. destruct (Hwait i o Hi HP) as [[Hn|?] ?]; [|done].
    split; [left; by eapply marks_none|done].
Qed.

(** The entry of [id] marked with the verdict [v]. *)
Definition mark (id : ShareId) (e : ConnectedShare) (v : CandidateValidation) (c : ShareChain)
    : ShareChain :=
  set_connected
    (<[id := mkConnected (cs_share e) (cs_id e) (cumulative_work e) (Some v) true]>
       (connected c)) c.

Lemma mark_marks c id e v :
  connected c !! id = Some e → validated_ancestry e = false →
  replay_validation_consistent v = true → marks c (mark id e v c).
Proof.
  intros He Hv Hc. split; [|done]. intros i. cbn. destruct (decide (i = id)) as [->|].
  - rewrite lookup_insert_eq, He. constructor. right. eauto.
  - rewrite lookup_insert_ne by done. reflexivity.
Qed.

(** A share may be marked: the chain is configured, the share has the retarget
    difficulty, and it is a root or its parent is validated. *)
Definition markable (c : ShareChain) (e : ConnectedShare) : Prop :=
  enforces_sidechain_difficulty c = true ∧ difficulty_ok c (cs_share e) ∧
  (is_root (cs_share e) = true ∨
   ∃ parent, connected c !! parent_id (cs_share e) = Some parent ∧
             validated_ancestry parent = true).

Lemma mark_inv c id e v :
  chain_inv c → connected c !! id = Some e → validated_ancestry e = false →
  replay_validation_consistent v = true → markable c e → chain_inv (mark id e v c).
Proof.
  intros Hinv He Hv Hc (Henf & Hd & Hpar). pose proof (mark_marks c id e v He Hv Hc) as Hm.
  apply (marks_inv c); [done|done|].
  assert (∀ p parent, connected c !! p = Some parent → validated_ancestry parent = true →
    ∃ parent', connected (mark id e v c) !! p = Some parent' ∧
      validated_ancestry parent' = true) as Hkeep.
  { intros p parent Hp Hpv. destruct (marks_lookup_l _ _ _ _ Hm Hp) as (p' & ? & Hpm).
    exists p'. split; [done|]. by apply (marked_same _ _ Hpm). }
  intros i e' Hi Hv'. cbn in Hi. destruct (decide (i = id)) as [->|].
  - rewrite lookup_insert_eq in Hi. injection Hi as <-. cbn [cs_share pow_validation].
    split; [done|]. split; [done|]. split; [by apply (marks_difficulty _ _ _ Hm)|].
    destruct Hpar as [?|(p & ? & ?)]; [by left|right]. eauto.
  - rewrite lookup_insert_ne in Hi by done.
    destruct (eo_validated _ _ _ (pi_entry _ _ _ Hinv i e' Hi) Hv') as (? & ? & ? & Hl).
    split; [done|]. split; [done|]. split; [by apply (marks_difficulty _ _ _ Hm)|].
    destruct Hl as [?|(p & ? & ?)]; [by left|right]. eauto.
Qed.

(** ** Revalidation *)

Section Revalidate.
Context `{!ProgPow}.

(** Split on the next reject reason of [Hout]; the rejecting side is closed by
    [tac]. *)
Ltac reval_step Hout Hr tac :=
  match type of Hout with
  | context [bool_decide (?r = NoReject)] =>
      destruct (decide (r = NoReject)) as [Hr|?];
      [rewrite (bool_decide_true (r = NoReject)) in Hout by done; cbn [negb] in Hout
      |rewrite (bool_decide_false (r = NoReject)) in Hout by done; tac]
  end.

(** The parent test of a revalidation. *)
Definition reval_verdict (c : ShareChain) (share : Share)
    : RevalidateShareStatus * ShareRejectReason :=
  if is_zero_share_id (parent_id share) then (Validated, NoReject)
  else match connected c !! parent_id share with
       | None => (RevalRejected, ParentHeightMismatch)
       | Some parent =>
           if negb (validated_ancestry parent) then (ParentUnvalidated, NoReject)
           else
             let reason := linked_parent_reason share (cs_share parent) in
             if bool_decide (reason = NoReject) then (Validated, NoReject)
             else (RevalRejected, reason)
       end.

Lemma reval_verdict_ok c e :
  enforces_sidechain_difficulty c = true →
  (reval_verdict c (cs_share e)).1 = Validated →
  expected_difficulty_reject_reason c (cs_share e) = Ok NoReject → markable c e.
Proof.
  intros Henf Hv Hr.
  assert (is_root (cs_share e) = true ∨
    ∃ parent, connected c !! parent_id (cs_share e) = Some parent ∧
              validated_ancestry parent = true) as Hpar.
  { unfold reval_verdict, is_root in *. destruct (is_zero_share_id _); [by left|right].
    destruct (connected c !! _) as [p|]; [|done].
    destruct (validated_ancestry p) eqn:Ep; [|done]. eauto. }
  split; [done|]. split; [|done]. apply expected_reason_ok; [done| |done].
  destruct Hpar as [?|(p & -> & _)]; eauto.
Qed.

(** A revalidation either changes nothing, and then does not report
    [Validated], or marks the share with a proven verdict. *)
Lemma revalidate_outcome c id ctx now mode out :
  chain_inv c → is_u64 now → revalidate_connected_share id ctx now mode c = out →
  (out.2 = c ∧ match out.1 with Ok r => reval_status r ≠ Validated | Throw _ => True end) ∨
  ∃ e v, connected c !! id = Some e ∧ validated_ancestry e = false ∧ markable c e ∧
    proven (cs_share e) ctx now mode v ∧
    expected_difficulty_reject_reason c (cs_share e) = Ok NoReject ∧
    out = (Ok (mkReval Validated NoReject id), mark id e v c).
Proof.
  intros Hinv Hnow Hout.
  unfold revalidate_connected_share, exec_bind, exec_const, exec_get, exec_modify, exec_ret
    in Hout.
  destruct (connected c !! id) as [e|] eqn:He; [|left; by subst].
  destruct (validated_ancestry e) eqn:Ev; [left; by subst|].
  destruct (enforces_sidechain_difficulty c) eqn:Henf; [cbn [negb] in Hout|left; by subst].
  fold (reval_verdict c (cs_share e)) in Hout.
  reval_step Hout Hs ltac:(left; by subst). reval_step Hout Hc ltac:(left; by subst).
  reval_step Hout Ht ltac:(left; by subst).
  pose proof (reval_verdict_ok c e Henf) as Hmk.
  destruct (reval_verdict c (cs_share e)) as [st rr].
  destruct st; try (left; subst; by split). specialize (Hmk eq_refl).
  destruct (expected_difficulty_reject_reason c (cs_share e)) as [r|x] eqn:Er;
    [|left; by subst].
  reval_step Hout Hx ltac:(left; by subst). subst r.
  destruct progpowz_available; [cbn [negb] in Hout|left; by subst].
  destruct (validate_share (cs_share e) ctx mode) as [v|x] eqn:Eval; [|left; by subst].
  destruct (pow_rejected v) eqn:Hr; [left; by subst|]. right. exists e, v.
  split; [done|]. split; [done|]. split; [by apply Hmk|].
  split; [|done].
  eapply validated_proven; try done. apply (pi_entry _ _ _ Hinv id e He).
Qed.

Lemma revalidate_inv c id ctx now mode r c' :
  chain_inv c → is_u64 now → revalidate_connected_share id ctx now mode c = (r, c') →
  chain_inv c' ∧ marks c c'.
Proof.
  intros Hinv Hnow Hout.
  destruct (revalidate_outcome _ _ _ _ _ _ Hinv Hnow Hout) as
    [[Ec _]|(e & v & He & Hv & Hmk & Hp & _ & E)].
  - simpl in Ec. by subst c'.
  - injection E as -> ->. pose proof (pv_consistent _ _ _ _ _ Hp).
    split; [by apply mark_inv|by apply mark_marks].
Qed.

End Revalidate.

(** ** The (height, id) order *)

Definition height_id_le (h1 : Z) (id1 : ShareId) (h2 : Z) (id2 : ShareId) : Prop :=
  h1 < h2 ∨ (h1 = h2 ∧ arr_Z id1 ≤ arr_Z id2).

Lemma height_id_lt_spec h1 id1 h2 id2 :
  height_id_lt h2 id2 h1 id1 = false ↔ height_id_le h1 id1 h2 id2.
Proof.
  unfold height_id_lt, height_id_le. rewrite arr_lt_Z.
  destruct (Z.eqb_spec h2 h1); simpl; [rewrite Z.ltb_ge|rewrite Z.ltb_ge]; lia.
Qed.

#[export] Instance connected_le_total : Total connected_le.
Proof. intros a b. unfold connected_le. rewrite !height_id_lt_spec. unfold height_id_le. lia. Qed.
#[export] Instance connected_le_trans : Transitive connected_le.
Proof. intros a b c. unfold connected_le. rewrite !height_id_lt_spec. unfold height_id_le. lia. Qed.
#[export] Instance record_le_total : Total record_le.
Proof. intros a b. unfold record_le. rewrite !height_id_lt_spec. unfold height_id_le. lia. Qed.
#[export] Instance record_le_trans : Transitive record_le.
Proof. intros a b c. unfold record_le. rewrite !height_id_lt_spec. unfold height_id_le. lia. Qed.
#[export] Instance snapshot_le_total : Total snapshot_le.
Proof. intros a b. unfold snapshot_le. rewrite !height_id_lt_spec. unfold height_id_le. lia. Qed.
#[export] Instance snapshot_le_trans : Transitive snapshot_le.
Proof. intros a b c. unfold snapshot_le. rewrite !height_id_lt_spec. unfold height_id_le. lia. Qed.

(** In a sorted list, an element below [x] comes before it. *)
Lemma sorted_before {A} (R : A → A → Prop) (pre post : list A) x y :
  StronglySorted R (pre ++ x :: post) → y ∈ pre ++ x :: post → y ≠ x → ¬ R x y → y ∈ pre.
Proof.
  intros Hs Hy Hne HR. apply elem_of_app in Hy as [?|[->|Hy]%elem_of_cons]; [done|done|].
  exfalso. apply HR. clear HR Hne.
  induction pre as [|z pre IH]; simpl in Hs; inversion Hs as [|? ? Hs' Hall]; subst; [|by apply IH].
  rewrite Forall_forall in Hall. by apply Hall.
Qed.

Lemma linked_height m e parent :
  (∀ p, m !! parent_id (cs_share e) = Some p → share_wf (cs_share p)) →
  linked m e → is_root (cs_share e) = false → m !! parent_id (cs_share e) = Some parent →
  tip_height e = tip_height parent + 1.
Proof.
  intros Hwf Hl Hr Hp. destruct (linked_parent _ _ Hl Hr) as (p & Hp' & Hh & _).
  rewrite Hp in Hp'. injection Hp' as <-. pose proof (wf_height _ (Hwf _ Hp)) as Hu.
  unfold height_mismatch, is_u64, tip_height in *. bool_prop.
  rewrite wrap64_id in * by (unfold is_u64; lia). lia.
Qed.

(** A connected non-root share is one above its connected parent. *)
Lemma parent_height c id e :
  chain_inv c → connected c !! id = Some e → is_root (cs_share e) = false →
  ∃ parent, connected c !! parent_id (cs_share e) = Some parent ∧
    tip_height e = tip_height parent + 1.
Proof.
  intros Hinv He Hr. pose proof (pi_entry _ _ _ Hinv) as Hent.
  pose proof (eo_link _ _ _ (Hent id e He)) as Hl.
  destruct (linked_parent _ _ Hl Hr) as (p & Hp & _). exists p. split; [done|].
  eapply linked_height; try done. intros q Hq. apply (Hent _ _ Hq).
Qed.

(** ** The snapshot *)

Definition validated_entry (c : ShareChain) (id : ShareId) (e : ConnectedShare) : Prop :=
  connected c !! id = Some e ∧ validated_ancestry e = true.

Lemma validated_facts c id e :
  chain_inv c → validated_entry c id e →
  ∃ v, pow_validation e = Some v ∧ replay_validation_consistent v = true ∧
    share_id (cs_share e) = Ok id ∧ cs_id e = id ∧ difficulty_ok c (cs_share e) ∧
    (is_root (cs_share e) = true ∨
     ∃ parent, validated_entry c (parent_id (cs_share e)) parent).
Proof.
  intros Hinv [He Hv]. pose proof (pi_entry _ _ _ Hinv id e He) as [H1 H2 H3 H4 H5 H6 H7].
  destruct (H7 Hv) as ([v Hpv] & _ & Hd & Hp). rewrite Hpv in H5. exists v.
  unfold validated_entry. naive_solver.
Qed.

Lemma snapshot_collect_ok c entries :
  chain_inv c → (∀ id e, (id, e) ∈ entries → connected c !! id = Some e) →
  snapshot_collect c entries = Ok (filter (λ e, validated_ancestry e = true) entries.*2).
Proof.
  intros Hinv. induction entries as [|[id e] entries IH]; intros Hall; [done|]. simpl.
  specialize (IH ltac:(intros; apply Hall; by right)).
  pose proof (Hall id e ltac:(left)) as He. rewrite filter_cons.
  destruct (validated_ancestry e) eqn:Hv; [|by rewrite decide_False by done].
  rewrite decide_True by done. simpl.
  destruct (validated_facts c id e Hinv (conj He Hv)) as (v & -> & -> & -> & -> & _ & Hp).
  simpl. rewrite arr_eqb_refl. simpl. unfold is_root in Hp.
  destruct (is_zero_share_id _) eqn:Hz.
  - simpl. by rewrite IH.
  - destruct Hp as [|(p & -> & ->)]; [done|]. simpl. by rewrite IH.
Qed.

(** The validated entries in snapshot order. *)
Definition snapshot_entries (c : ShareChain) : list ConnectedShare :=
  merge_sort connected_le
    (filter (λ e, validated_ancestry e = true) (map_sorted (connected c)).*2).

Lemma elem_of_snapshot_entries c e :
  chain_inv c → e ∈ snapshot_entries c ↔ validated_entry c (cs_id e) e.
Proof.
  intros Hinv. unfold snapshot_entries, validated_entry.
  rewrite merge_sort_Permutation, list_elem_of_filter, list_elem_of_fmap. split.
  - intros (Hv & [id e'] & -> & Hin). apply elem_of_map_sorted in Hin. simpl.
    by rewrite (eo_id _ _ _ (pi_entry _ _ _ Hinv _ _ Hin)).
  - intros [He Hv]. split; [done|]. exists (cs_id e, e). split; [done|].
    by apply elem_of_map_sorted.
Qed.

Lemma snapshot_entries_nodup c : chain_inv c → NoDup (cs_id <$> snapshot_entries c).
Proof.
  intros Hinv. unfold snapshot_entries. rewrite merge_sort_Permutation.
  assert (cs_id <$> (map_sorted (connected c)).*2 = (map_sorted (connected c)).*1) as E.
  { rewrite <-list_fmap_compose. apply list_fmap_ext. intros i [id e] Hi.
    apply list_elem_of_lookup_2, elem_of_map_sorted in Hi.
    apply (eo_id _ _ _ (pi_entry _ _ _ Hinv _ _ Hi)). }
  pose proof (NoDup_fst_map_sorted (connected c)) as Hnd. rewrite <-E in Hnd.
  eapply sublist_NoDup; [exact Hnd|]. apply fmap_sublist, sublist_filter.
Qed.

Definition entry_record (e : ConnectedShare) : option ReplayValidationRecord :=
  v ← pow_validation e; mret (mkRecord (cs_id e) v).

Lemma snapshot_ok c :
  chain_inv c → enforces_sidechain_difficulty c = true →
  replay_validation_snapshot c = Ok (omap entry_record (snapshot_entries c)).
Proof.
  intros Hinv Henf. unfold replay_validation_snapshot. rewrite Henf. simpl.
  rewrite snapshot_collect_ok; [done|done|]. intros id e. apply elem_of_map_sorted.
Qed.

Lemma entry_record_ids (l : list ConnectedShare) :
  (∀ e, e ∈ l → is_Some (pow_validation e)) →
  rec_share_id <$> omap entry_record l = cs_id <$> l.
Proof.
  induction l as [|e l IH]; intros Hall; [done|]. csimpl.
  destruct (Hall e ltac:(left)) as [v Hv]. unfold entry_record at 1. rewrite Hv. csimpl.
  f_equal. apply IH. intros. apply Hall. by right.
Qed.

Lemma snapshot_validated c e :
  chain_inv c → e ∈ snapshot_entries c → is_Some (pow_validation e).
Proof.
  intros Hinv He%elem_of_snapshot_entries; [|done].
  destruct (validated_facts _ _ _ Hinv He) as (v & -> & _). eauto.
Qed.

Lemma elem_of_snapshot c id v :
  chain_inv c →
  mkRecord id v ∈ omap entry_record (snapshot_entries c) ↔
  ∃ e, validated_entry c id e ∧ pow_validation e = Some v.
Proof.
  intros Hinv. rewrite list_elem_of_omap. split.
  - intros (e & He & Hr). apply elem_of_snapshot_entries in He; [|done].
    unfold entry_record in Hr. destruct (pow_validation e) as [w|] eqn:Ew; [|done].
    injection Hr as <- <-. eauto.
  - intros (e & He & Hv). exists e.
    assert (cs_id e = id) as <-.
    { destruct He as [He _]. apply (eo_id _ _ _ (pi_entry _ _ _ Hinv id e He)). }
    rewrite elem_of_snapshot_entries by done. unfold entry_record. by rewrite Hv.
Qed.

(** ** Restoration: soundness *)

Definition resolved (c : ShareChain) (p : ReplayValidationRecord * ConnectedShare) : Prop :=
  connected c !! rec_share_id p.1 = Some p.2 ∧
  replay_validation_consistent (rec_validation p.1) = true.

Lemma restore_resolve_ok c records seen ordered :
  restore_resolve c records seen = Ok ordered →
  ordered.*1 = records ∧ Forall (resolved c) ordered.
Proof.
  revert seen ordered. induction records as [|r records IH]; intros seen ordered; simpl.
  { intros [= <-]. split; [done|constructor]. }
  intros Hr. res_inv. destruct (connected c !! rec_share_id r) as [e|] eqn:He; [|done].
  res_inv. bool_prop.
  match goal with H : restore_resolve _ _ _ = Ok _ |- _ => apply IH in H as [<- Hall] end.
  split; [done|]. constructor; [|done]. by split.
Qed.

Lemma restore_existing_ok entries acc V :
  restore_existing entries acc = Ok V →
  ∀ id, id ∈ V → id ∈ acc ∨ ∃ e, (id, e) ∈ entries ∧ validated_ancestry e = true.
Proof.
  revert acc. induction entries as [|[i e] entries IH]; intros acc; simpl.
  { intros [= ->]. by left. }
  destruct (validated_ancestry e) eqn:Ev; simpl; intros Hr id Hid.
  - res_inv. match goal with H : restore_existing _ _ = Ok _ |- _ =>
      destruct (IH _ H id Hid) as [[->%elem_of_singleton|?]%elem_of_union|(e' & ? & ?)] end.
    + right. exists e. split; [left|done].
    + by left.
    + right. exists e'. split; [by right|done].
  - destruct (IH _ Hr id Hid) as [?|(e' & ? & ?)]; [by left|].
    right. exists e'. split; [by right|done].
Qed.

(** A record that passed its check marks a markable entry. *)
Lemma restore_check_ok c V record e :
  enforces_sidechain_difficulty c = true →
  restore_check c V record e = Ok () → validated_ancestry e = false →
  difficulty_ok c (cs_share e) ∧
  (is_root (cs_share e) = true ∨ parent_id (cs_share e) ∈ V).
Proof.
  intros Henf Hc Hv. unfold restore_check in Hc. rewrite Hv in Hc. res_inv. bool_prop.
  assert (is_root (cs_share e) = true ∨
    (parent_id (cs_share e) ∈ V ∧ is_Some (connected c !! parent_id (cs_share e)))) as Hp.
  { unfold is_root. destruct (is_zero_share_id _); [by left|right].
    destruct (connected c !! _); res_inv; bool_prop; eauto. }
  split; [|tauto]. apply expected_reason_ok; [done|tauto|congruence].
Qed.

Lemma restore_apply_inv c ordered : ∀ V ci n,
  enforces_sidechain_difficulty c = true → chain_inv ci → marks c ci →
  (∀ id, id ∈ V → ∃ e, validated_entry ci id e) → Forall (resolved c) ordered →
  restore_preflight c V ordered = Ok () →
  let c' := set_connected (restore_apply ordered n (connected ci)).2 ci in
  chain_inv c' ∧ marks c c'.
Proof.
  induction ordered as [|[r e] ordered IH]; intros V ci n Henf Hinv Hm HV Hres Hpre; simpl.
  { by destruct ci. }
  simpl in Hpre. res_inv. apply Forall_cons in Hres as [[He Hcons] Hres]. simpl in *.
  destruct (marks_lookup_l _ _ _ _ Hm He) as (ei & Hei & Hme). rewrite Hei.
  destruct (validated_ancestry ei) eqn:Evi.
  { apply (IH ({[rec_share_id r]} ∪ V)); try done. intros id [->%elem_of_singleton|?]%elem_of_union; [|auto].
    by exists ei. }
  assert (ei = e) as ->.
  { destruct Hme as [->|(_ & v & _ & ->)]; done. }
  match goal with H : restore_check _ _ _ _ = Ok ?u |- _ =>
    destruct u; pose proof (restore_check_ok _ _ _ _ Henf H Evi) as [Hd Hp] end.
  assert (enforces_sidechain_difficulty ci = true) as Henf'
    by (rewrite <-(enforces_ext c); [done|by destruct (marks_fields _ _ Hm)]).
  assert (markable ci e) as Hmk.
  { split; [done|]. split; [by apply (marks_difficulty _ _ _ Hm)|].
    destruct Hp as [?|Hp]; [by left|right; by apply HV]. }
  pose proof (mark_inv _ _ _ _ Hinv Hei Evi Hcons Hmk) as Hinv'.
  pose proof (mark_marks _ _ _ _ Hei Evi Hcons) as Hm'.
  apply (IH ({[rec_share_id r]} ∪ V) (mark (rec_share_id r) e (rec_validation r) ci));
    try done; [by transitivity ci|].
  intros id [->%elem_of_singleton|Hid]%elem_of_union.
  - eexists. unfold validated_entry. cbn. by rewrite lookup_insert_eq.
  - destruct (HV id Hid) as (x & Hx & Hxv).
    destruct (marks_lookup_l _ _ _ _ Hm' Hx) as (x' & ? & Hmx). exists x'.
    split; [done|]. by apply (marked_same _ _ Hmx).
Qed.

(** Whatever the records, a successful restoration only marks shares and keeps
    the invariant; a failed one changes nothing. *)
Lemma restore_sound c records out :
  chain_inv c → restore_replay_validation records c = out →
  match out.1 with
  | Ok _ => chain_inv out.2 ∧ marks c out.2
  | Throw _ => out.2 = c
  end.
Proof.
  intros Hinv <-. unfold restore_replay_validation.
  destruct (bool_decide _); [by split|].
  unfold exec_bind, exec_const, exec_get, exec_modify, exec_ret.
  destruct (restore_checks c records) as [ordered|x] eqn:Ec; [|done].
  unfold restore_checks in Ec. res_inv. bool_prop.
  match goal with H : restore_resolve _ _ _ = Ok _ |- _ =>
    apply restore_resolve_ok in H as [_ Hres] end.
  match goal with H : restore_existing _ _ = Ok ?V |- _ =>
    pose proof (restore_existing_ok _ _ _ H) as HV end.
  match goal with |- context [restore_apply ?o _ _] =>
    pose proof (restore_apply_inv c o _ c 0%nat ltac:(done) Hinv ltac:(done)
      ltac:(intros id Hid; destruct (HV id Hid) as [[]%not_elem_of_empty|(e & He%elem_of_map_sorted & ?)];
            by exists e)
      ltac:(by rewrite merge_sort_Permutation) ltac:(match goal with
        H : restore_preflight _ _ _ = Ok ?u |- _ => destruct u; exact H end)) as Hout;
    destruct (restore_apply o _ _) as [n m] end.
  exact Hout.
Qed.

(** ** Restoration: the snapshot restores *)

Lemma restore_existing_total c entries acc :
  chain_inv c → (∀ id e, (id, e) ∈ entries → connected c !! id = Some e) →
  ∃ V, restore_existing entries acc = Ok V ∧ acc ⊆ V ∧
    ∀ id e, (id, e) ∈ entries → validated_ancestry e = true → id ∈ V.
Proof.
  intros Hinv. revert acc. induction entries as [|[i e] entries IH]; intros acc Hall; simpl.
  { exists acc. split; [done|]. split; [done|]. intros ? ? []%elem_of_nil. }
  pose proof (Hall i e ltac:(left)) as He.
  assert (∀ id e, (id, e) ∈ entries → connected c !! id = Some e) as Hall'
    by (intros; apply Hall; by right).
  destruct (validated_ancestry e) eqn:Ev; simpl.
  - destruct (validated_facts c i e Hinv (conj He Ev)) as (v & -> & -> & -> & _). simpl.
    rewrite arr_eqb_refl. simpl.
    destruct (IH ({[i]} ∪ acc) Hall') as (V & -> & Hacc & HV). exists V.
    split; [done|]. split; [set_solver|].
    intros id e' [[= -> ->]|Hin]%elem_of_cons Hv'; [set_solver|by eapply HV].
  - destruct (IH acc Hall') as (V & -> & Hacc & HV). exists V. split; [done|].
    split; [done|].
    intros id e' [[= -> ->]|Hin]%elem_of_cons Hv'; [congruence|by eapply HV].
Qed.

Lemma restore_parents_total c entries :
  chain_inv c → (∀ id e, (id, e) ∈ entries → connected c !! id = Some e) →
  restore_parents c entries = Ok ().
Proof.
  intros Hinv. induction entries as [|[i e] entries IH]; intros Hall; [done|]. simpl.
  rewrite IH by (intros; apply Hall; by right).
  destruct (validated_ancestry e) eqn:Ev; [simpl|done].
  destruct (is_zero_share_id _) eqn:Ez; [done|].
  pose proof (Hall i e ltac:(left)) as He.
  destruct (validated_facts c i e Hinv (conj He Ev)) as (_ & _ & _ & _ & _ & _ & Hp).
  unfold is_root in Hp. destruct Hp as [|(p & -> & ->)]; [congruence|done].
Qed.

Lemma restore_resolve_total c records seen :
  chain_inv c → NoDup (rec_share_id <$> records) →
  (∀ r, r ∈ records → rec_share_id r ∉ seen ∧ is_zero_share_id (rec_share_id r) = false ∧
     is_Some (connected c !! rec_share_id r) ∧
     replay_validation_consistent (rec_validation r) = true) →
  ∃ ordered, restore_resolve c records seen = Ok ordered.
Proof.
  intros Hinv. revert seen. induction records as [|r records IH]; intros seen Hnd Hall; simpl.
  { eauto. }
  apply NoDup_cons in Hnd as [Hni Hnd].
  destruct (Hall r ltac:(left)) as (Hs & Hz & [e He] & Hc). rewrite Hz, Hc, He.
  rewrite bool_decide_false by done. simpl.
  rewrite (eo_share_id _ _ _ (pi_entry _ _ _ Hinv _ e He)). simpl. rewrite arr_eqb_refl. simpl.
  destruct (IH ({[rec_share_id r]} ∪ seen)) as [ordered ->]; [done| |simpl; eauto].
  intros r' Hr'. destruct (Hall r' ltac:(by right)) as (? & ? & ? & ?). split; [|done].
  apply not_elem_of_union. split; [|done]. intros E%elem_of_singleton. apply Hni.
  rewrite <-E. by apply list_elem_of_fmap_2.
Qed.

Lemma restore_preflight_total c ordered : ∀ V,
  (∀ pre x post, ordered = pre ++ x :: post →
     restore_check c (list_to_set (rec_share_id <$> pre.*1) ∪ V) x.1 x.2 = Ok ()) →
  restore_preflight c V ordered = Ok ().
Proof.
  induction ordered as [|[r e] ordered IH]; intros V Hall; [done|]. simpl.
  pose proof (Hall [] (r, e) ordered eq_refl) as H0. csimpl in H0.
  rewrite union_empty_l_L in H0. rewrite H0. simpl. apply IH. intros pre x post ->.
  specialize (Hall ((r, e) :: pre) x post eq_refl). csimpl in Hall.
  by rewrite union_assoc_L, (union_comm_L _ {[_]}).
Qed.

(** The check of a record for a share that is validated in the marked chain,
    once its parent is in the prospective set. *)
Lemma restore_check_total c0 c V r e0 e :
  chain_inv c0 → chain_inv c → marks c0 c →
  connected c0 !! rec_share_id r = Some e0 → validated_entry c (rec_share_id r) e →
  pow_validation e = Some (rec_validation r) →
  (is_root (cs_share e0) = false → parent_id (cs_share e0) ∈ V) →
  restore_check c0 V r e0 = Ok ().
Proof.
  intros Hinv0 Hinv Hm He0 [He Hv] Hr Hpar. unfold restore_check.
  destruct (marks_lookup _ _ _ _ Hm He) as (e0' & He0' & Hme).
  rewrite He0 in He0'. injection He0' as <-.
  destruct (validated_ancestry e0) eqn:Ev0.
  { destruct Hme as [->|[? _]]; [|congruence]. rewrite Hr. unfold replay_validation_equal.
    by rewrite !arr_eqb_refl, !Bool.eqb_reflx, bool_decide_true. }
  pose proof (pi_entry _ _ _ Hinv0 _ _ He0) as [_ _ _ Hst _ Hl _].
  rewrite Hst. simpl.
  destruct (validated_facts _ _ _ Hinv (conj He Hv)) as (v & _ & _ & _ & _ & Hd & _).
  destruct (marked_same _ _ Hme) as (Es & _). rewrite Es in Hd.
  apply (marks_difficulty _ _ _ Hm) in Hd.
  assert (enforces_sidechain_difficulty c0 = true) as Henf.
  { destruct (eo_validated _ _ _ (pi_entry _ _ _ Hinv _ _ He) Hv) as (_ & Henf & _).
    rewrite <-Henf. apply enforces_ext. symmetry. by destruct (marks_fields _ _ Hm). }
  unfold linked in Hl. destruct (is_root (cs_share e0)) eqn:Er.
  - unfold is_root in Er. rewrite Er. simpl.
    rewrite (proj2 (expected_reason_ok _ _ Henf (or_introl Er)) Hd). done.
  - destruct Hl as (p & Hp & Hh & Ht & _). unfold is_root in Er. rewrite Er, Hp, Hh, Ht.
    rewrite !bool_decide_true by auto. simpl.
    rewrite (proj2 (expected_reason_ok _ _ Henf (or_intror (ex_intro _ p Hp))) Hd). done.
Qed.

(** The entry the application loop leaves for a record. *)
Definition restored_entry (v : CandidateValidation) (e : ConnectedShare) : ConnectedShare :=
  if validated_ancestry e then e
  else mkConnected (cs_share e) (cs_id e) (cumulative_work e) (Some v) true.

Lemma restore_apply_other ordered : ∀ n m id,
  id ∉ rec_share_id <$> ordered.*1 → (restore_apply ordered n m).2 !! id = m !! id.
Proof.
  induction ordered as [|[r e] ordered IH]; intros n m id Hid; [done|]. csimpl in *.
  apply not_elem_of_cons in Hid as [Hne Hid].
  destruct (m !! rec_share_id r) as [x|]; [|by apply IH].
  destruct (validated_ancestry x); rewrite IH by done; [done|]. by rewrite lookup_insert_ne.
Qed.

Lemma restore_apply_hit ordered : ∀ n m r e,
  NoDup (rec_share_id <$> ordered.*1) → (r, e) ∈ ordered →
  (restore_apply ordered n m).2 !! rec_share_id r =
  restored_entry (rec_validation r) <$> m !! rec_share_id r.
Proof.
  induction ordered as [|[r' e'] ordered IH]; intros n m r e Hnd Hin.
  { by apply elem_of_nil in Hin. }
  csimpl in *. apply NoDup_cons in Hnd as [Hni Hnd].
  apply elem_of_cons in Hin as [[= <- <-]|Hin].
  - destruct (m !! rec_share_id r) as [x|] eqn:Ex.
    2: { rewrite restore_apply_other, Ex by done. done. }
    unfold restored_entry. simpl. destruct (validated_ancestry x) eqn:Ev;
      rewrite restore_apply_other by done; simpl; rewrite ?Ev; [done|].
    by rewrite lookup_insert_eq.
  - assert (rec_share_id r' ≠ rec_share_id r) as Hne.
    { intros E. apply Hni. rewrite E. apply (list_elem_of_fmap_2 rec_share_id _ r).
      by apply (list_elem_of_fmap_2 fst _ (r, e)). }
    destruct (m !! rec_share_id r') as [x|]; [|by eapply IH].
    destruct (validated_ancestry x); rewrite (IH _ _ _ _ Hnd Hin); [done|].
    by rewrite lookup_insert_ne.
Qed.

Lemma marked_restored e0 e v :
  marked e0 e → validated_ancestry e = true → pow_validation e = Some v →
  restored_entry v e0 = e.
Proof.
  unfold restored_entry. intros [->|(Hv & w & _ & ->)] Hval Hpow; [by rewrite Hval|].
  rewrite Hv. simpl in Hpow. by injection Hpow as ->.
Qed.

(** Applying the snapshot of [c] to a chain that [c] marks gives [c]. *)
Lemma restore_apply_snapshot c0 c ordered n :
  chain_inv c → marks c0 c →
  ordered.*1 ≡ₚ omap entry_record (snapshot_entries c) →
  set_connected (restore_apply ordered n (connected c0)).2 c0 = c.
Proof.
  intros Hinv Hm Hperm. rewrite (proj2 Hm) at 1. f_equal. apply map_eq. intros id.
  assert (NoDup (rec_share_id <$> ordered.*1)) as Hnd.
  { rewrite Hperm, entry_record_ids; [by apply snapshot_entries_nodup|].
    intros e. by apply snapshot_validated. }
  destruct (decide (id ∈ rec_share_id <$> ordered.*1)) as [Hin|Hni].
  - apply list_elem_of_fmap in Hin as (r & -> & Hr).
    pose proof Hr as Hsnap. rewrite Hperm in Hsnap. destruct r as [id v]. simpl in *.
    apply elem_of_snapshot in Hsnap as (e & [He Hv] & Hpow); [|done].
    apply list_elem_of_fmap in Hr as ([r x] & Er & Hr). simpl in Er. subst r.
    pose proof (restore_apply_hit ordered n (connected c0) _ _ Hnd Hr) as Hhit.
    simpl in Hhit. rewrite Hhit.
    destruct (marks_lookup _ _ _ _ Hm He) as (e0 & -> & Hme). rewrite He. simpl. f_equal.
    by apply marked_restored.
  - rewrite restore_apply_other by done. pose proof (proj1 Hm id) as Hf.
    destruct (connected c !! id) as [e|] eqn:He; [|by inversion Hf].
    destruct (marks_lookup _ _ _ _ Hm He) as (e0 & -> & [->|(_ & v & _ & Ee)]); [done|].
    exfalso. apply Hni. rewrite Hperm. apply (list_elem_of_fmap_2' rec_share_id _ (mkRecord id v));
      [|done]. apply elem_of_snapshot; [done|]. exists e. by subst e.
Qed.

Lemma resolved_sorted_parent c0 c ordered pre x post :
  chain_inv c0 → chain_inv c → marks c0 c → Forall (resolved c0) ordered →
  ordered.*1 ≡ₚ omap entry_record (snapshot_entries c) →
  StronglySorted record_le ordered → ordered = pre ++ x :: post →
  is_root (cs_share x.2) = false → parent_id (cs_share x.2) ∈ rec_share_id <$> pre.*1.
Proof.
  intros Hinv0 Hinv Hm Hres Hperm Hs -> Hroot. destruct x as [[id v] e0]. simpl in *.
  assert ((mkRecord id v, e0) ∈ pre ++ (mkRecord id v, e0) :: post) as Hx
    by (apply elem_of_app; right; left).
  assert (mkRecord id v ∈ omap entry_record (snapshot_entries c)) as Hrec
    by (rewrite <-Hperm; by apply (list_elem_of_fmap_2 fst _ (mkRecord id v, e0))).
  apply elem_of_snapshot in Hrec as (e & Hval & _); [|done].
  rewrite Forall_forall in Hres. destruct (Hres _ Hx) as [He0 _]. simpl in He0.
  destruct (marks_lookup _ _ _ _ Hm (proj1 Hval)) as (e0' & He0' & Hme).
  rewrite He0 in He0'. injection He0' as <-. destruct (marked_same _ _ Hme) as (Es & _).
  destruct (validated_facts _ _ _ Hinv Hval) as (_ & _ & _ & _ & _ & _ & Hpar).
  rewrite Es in Hpar. destruct Hpar as [|(p & Hp)]; [congruence|].
  destruct (validated_facts _ _ _ Hinv Hp) as (w & Hw & _).
  assert (mkRecord (parent_id (cs_share e0)) w ∈ omap entry_record (snapshot_entries c)) as Hrp
    by (apply elem_of_snapshot; eauto).
  rewrite <-Hperm in Hrp. apply list_elem_of_fmap in Hrp as ([rp ep] & Erp & Hin).
  simpl in Erp. subst rp. destruct (Hres _ Hin) as [Hep _]. simpl in Hep.
  destruct (parent_height c0 id e0 Hinv0 He0 Hroot) as (p0 & Hp0 & Hh).
  rewrite Hep in Hp0. injection Hp0 as <-. unfold tip_height in Hh.
  apply (list_elem_of_fmap_2' rec_share_id _ (mkRecord (parent_id (cs_share e0)) w)); [|done].
  apply (list_elem_of_fmap_2' fst _ (mkRecord (parent_id (cs_share e0)) w, ep)); [|done].
  eapply sorted_before; [exact Hs|exact Hin| |].
  - intros [= E1 E2 E3]. subst ep. lia.
  - unfold record_le. rewrite height_id_lt_spec. unfold height_id_le. simpl. lia.
Qed.

Lemma marks_enforces c c' :
  marks c c' → enforces_sidechain_difficulty c' = enforces_sidechain_difficulty c.
Proof. intros Hm. apply enforces_ext. by destruct (marks_fields _ _ Hm). Qed.

Lemma restore_checks_snapshot c0 c recs :
  chain_inv c0 → chain_inv c → marks c0 c → enforces_sidechain_difficulty c = true →
  (∀ id, is_Some (connected c !! id) → is_zero_share_id id = false) →
  recs ≡ₚ omap entry_record (snapshot_entries c) →
  ∃ ordered, restore_checks c0 recs = Ok ordered ∧
    ordered.*1 ≡ₚ omap entry_record (snapshot_entries c).
Proof.
  intros Hinv0 Hinv Hm Henf Hnz Hsnap. unfold restore_checks.
  rewrite <-(marks_enforces c0 c Hm), Henf. simpl.
  assert (∀ id e, (id, e) ∈ map_sorted (connected c0) → connected c0 !! id = Some e) as Hall
    by (intros id e; apply elem_of_map_sorted).
  destruct (restore_existing_total c0 _ ∅ Hinv0 Hall) as (V & -> & _ & _).
  rewrite (restore_parents_total c0 _ Hinv0 Hall). simpl.
  assert (∀ r, r ∈ recs → ∃ e, validated_entry c (rec_share_id r) e ∧
    pow_validation e = Some (rec_validation r)) as Hrecs
    by (intros [id v]; rewrite Hsnap; by apply elem_of_snapshot).
  destruct (restore_resolve_total c0 recs ∅) as [l Hl]; [done| | |].
  { rewrite Hsnap, entry_record_ids; [by apply snapshot_entries_nodup|].
    intros e. by apply snapshot_validated. }
  { intros r Hr. destruct (Hrecs r Hr) as (e & Hval & Hpow).
    destruct (validated_facts _ _ _ Hinv Hval) as (v & Hv & Hc & _).
    rewrite Hpow in Hv. injection Hv as <-. destruct Hval as [He _].
    split; [apply not_elem_of_empty|]. split; [apply Hnz; eauto|]. split; [|done].
    destruct (marks_lookup _ _ _ _ Hm He) as (e0 & -> & _). eauto. }
  rewrite Hl. simpl. apply restore_resolve_ok in Hl as [Hfst Hres].
  set (ordered := merge_sort record_le l). exists ordered.
  assert (ordered ≡ₚ l) as Hp by apply merge_sort_Permutation.
  assert (ordered.*1 ≡ₚ recs) as Hperm by (by rewrite Hp, Hfst).
  rewrite <-Hp in Hres. assert (ordered.*1 ≡ₚ omap entry_record (snapshot_entries c)) as Hperm'
    by (by rewrite Hperm).
  rewrite (restore_preflight_total c0 ordered V); [done|]. intros pre x post Hsplit.
  assert (x ∈ ordered) as Hx by (rewrite Hsplit; apply elem_of_app; right; left).
  pose proof Hres as Hres'. rewrite Forall_forall in Hres'. destruct (Hres' x Hx) as [He0 _].
  destruct (Hrecs x.1) as (e & Hval & Hpow);
    [rewrite <-Hperm; by apply (list_elem_of_fmap_2 fst)|].
  eapply restore_check_total; try done. intros Hroot. apply elem_of_union. left.
  apply elem_of_list_to_set.
  apply (resolved_sorted_parent c0 c ordered pre x post); try done.
  apply StronglySorted_merge_sort; apply _.
Qed.

Lemma restore_snapshot c0 c recs :
  chain_inv c0 → chain_inv c → marks c0 c → enforces_sidechain_difficulty c = true →
  (∀ id, is_Some (connected c !! id) → is_zero_share_id id = false) →
  recs ≡ₚ omap entry_record (snapshot_entries c) →
  ∃ n, restore_replay_validation recs c0 = (Ok n, c).
Proof.
  intros Hinv0 Hinv Hm Henf Hnz Hsnap. unfold restore_replay_validation.
  case_bool_decide as Hlen.
  { exists 0%nat. unfold exec_ret. f_equal.
    rewrite <-(restore_apply_snapshot c0 c [] 0 Hinv Hm); [by destruct c0|].
    rewrite <-Hsnap. by rewrite (nil_length_inv _ Hlen). }
  destruct (restore_checks_snapshot c0 c recs Hinv0 Hinv Hm Henf Hnz Hsnap) as (ordered & Hc & Hperm).
  unfold exec_bind, exec_const, exec_get, exec_modify, exec_ret. rewrite Hc.
  pose proof (restore_apply_snapshot c0 c ordered 0 Hinv Hm Hperm) as E.
  destruct (restore_apply ordered 0 (connected c0)) as [n m]. exists n. by rewrite <-E.
Qed.

(** In the snapshot a share comes after its parent. *)
Lemma snapshot_parent_first c pre r post e :
  chain_inv c → omap entry_record (snapshot_entries c) = pre ++ r :: post →
  connected c !! rec_share_id r = Some e → is_root (cs_share e) = false →
  parent_id (cs_share e) ∈ rec_share_id <$> pre.
Proof.
  intros Hinv Hsplit He Hroot.
  assert (rec_share_id <$> omap entry_record (snapshot_entries c) = cs_id <$> snapshot_entries c)
    as Hids by (apply entry_record_ids; intros x; by apply snapshot_validated).
  rewrite Hsplit, fmap_app in Hids. csimpl in Hids. symmetry in Hids.
  apply fmap_app_inv in Hids as (epre & erest & Epre & Erest & Hsn).
  symmetry in Erest. apply fmap_cons_inv in Erest as (x & epost & Ex & Epost & ->).
  assert (x ∈ snapshot_entries c) as Hx by (rewrite Hsn; apply elem_of_app; right; left).
  pose proof Hx as Hval. apply elem_of_snapshot_entries in Hval; [|done].
  assert (x = e) as -> by (destruct Hval; congruence).
  destruct (validated_facts _ _ _ Hinv Hval) as (_ & _ & _ & _ & _ & _ & Hpar).
  destruct Hpar as [|(p & Hp)]; [congruence|].
  destruct (validated_facts _ _ _ Hinv Hp) as (_ & _ & _ & _ & Hpid & _).
  assert (p ∈ snapshot_entries c) as Hpin
    by (apply elem_of_snapshot_entries; [done|by rewrite Hpid]).
  destruct (parent_height c _ e Hinv He Hroot) as (p0 & Hp0 & Hh).
  assert (p0 = p) as -> by (destruct Hp; congruence). unfold tip_height in Hh.
  rewrite Epre, <-Hpid. apply list_elem_of_fmap_2.
  rewrite Hsn in Hpin. eapply sorted_before; [|exact Hpin| |].
  - rewrite <-Hsn. apply StronglySorted_merge_sort; apply _.
  - intros ->. lia.
  - unfold connected_le. rewrite height_id_lt_spec. unfold height_id_le. lia.
Qed.
