(* ===== verification/ChainPrune.v ===== *)
(** Pruning: [prune_connected_subtree_ids] removes exactly the descendants of a
    share, terminates, and recomputes the best tip. *)
From S2P Require Import Prelude CryptoHash PowTarget Share SidechainParams Difficulty ShareChain.
From S2P Require Import ChainWork ChainInv ChainPromote ChainAdmit ChainReplay.

(** ** Children and descendants *)

Definition child (m : gmap ShareId ConnectedShare) (p i : ShareId) : Prop :=
  ∃ e, m !! i = Some e ∧ is_root (cs_share e) = false ∧ parent_id (cs_share e) = p.

(** [i] is [root] or a descendant of it. *)
Definition descendant (m : gmap ShareId ConnectedShare) (root i : ShareId) : Prop :=
  rtc (child m) root i.

Definition index_step (children : gmap ShareId (list ShareId)) (p : ShareId * ConnectedShare)
    : gmap ShareId (list ShareId) :=
  let parent := parent_id (cs_share p.2) in
  if is_zero_share_id parent then children
  else <[parent := default [] (children !! parent) ++ [p.1]]> children.

Definition kids (children : gmap ShareId (list ShareId)) (p : ShareId) : list ShareId :=
  default [] (children !! p).

Lemma kids_step children x p :
  kids (index_step children x) p =
  kids children p ++
    (if is_root (cs_share x.2) then []
     else if decide (parent_id (cs_share x.2) = p) then [x.1] else []).
Proof.
  unfold kids, index_step, is_root. destruct (is_zero_share_id _); [by rewrite app_nil_r|].
  destruct (decide _) as [->|]; [by rewrite lookup_insert_eq|].
  by rewrite lookup_insert_ne, app_nil_r.
Qed.

Lemma kids_fold l children p :
  kids (fold_left index_step l children) p =
  kids children p ++
    (filter (λ x, is_root (cs_share x.2) = false ∧ parent_id (cs_share x.2) = p) l).*1.
Proof.
  revert children. induction l as [|x l IH]; intros children; [by rewrite app_nil_r|].
  simpl fold_left. rewrite IH, kids_step, <-app_assoc. f_equal. rewrite filter_cons.
  destruct (is_root (cs_share x.2)); [by rewrite decide_False by naive_solver|].
  destruct (decide (parent_id (cs_share x.2) = p)).
  - by rewrite decide_True by done.
  - by rewrite decide_False by naive_solver.
Qed.

Lemma kids_index m p :
  kids (children_index m) p =
  (filter (λ x, is_root (cs_share x.2) = false ∧ parent_id (cs_share x.2) = p)
     (map_sorted m)).*1.
Proof. unfold children_index. by rewrite (kids_fold (map_sorted m) ∅ p). Qed.

Lemma elem_of_kids m p i : i ∈ kids (children_index m) p ↔ child m p i.
Proof.
  rewrite kids_index, list_elem_of_fmap. unfold child. split.
  - intros ([j e] & -> & [[? ?] Hin]%list_elem_of_filter). apply elem_of_map_sorted in Hin. eauto.
  - intros (e & He & ? & ?). exists (i, e). split; [done|]. apply list_elem_of_filter.
    split; [done|]. by apply elem_of_map_sorted.
Qed.

Lemma kids_nodup m p : NoDup (kids (children_index m) p).
Proof.
  rewrite kids_index. eapply sublist_NoDup; [apply (NoDup_fst_map_sorted m)|].
  apply fmap_sublist, sublist_filter.
Qed.

(** ** The traversal *)

(** What holds of the growing vector between iterations. *)
Record walk (m : gmap ShareId ConnectedShare) (root : ShareId) (r0 : ConnectedShare)
    (seen todo : list ShareId) : Prop := {
  wk_nodup : NoDup (seen ++ todo);
  wk_in : ∀ i, i ∈ seen ++ todo → ∃ e, m !! i = Some e ∧
    (i = root ∨ (tip_height r0 < tip_height e ∧ ∃ p, p ∈ seen ∧ child m p i));
  wk_reach : ∀ i, i ∈ seen ++ todo → descendant m root i;
  wk_closed : ∀ p i, p ∈ seen → child m p i → i ∈ seen ++ todo;
  wk_root : root ∈ seen ++ todo }.

Lemma child_height c p i :
  chain_inv c → child (connected c) p i → ∃ e parent,
    connected c !! i = Some e ∧ connected c !! p = Some parent ∧
    tip_height e = tip_height parent + 1.
Proof.
  intros Hinv (e & He & Hr & <-).
  destruct (parent_height c i e Hinv He Hr) as (parent & Hp & Hh). eauto.
Qed.

Lemma child_unique m p q i : child m p i → child m q i → p = q.
Proof. intros (e & He & _ & <-) (e' & He' & _ & <-). congruence. Qed.

Lemma walk_step c root r0 seen id todo :
  chain_inv c → connected c !! root = Some r0 →
  walk (connected c) root r0 seen (id :: todo) →
  walk (connected c) root r0 (seen ++ [id])
    (todo ++ kids (children_index (connected c)) id).
Proof.
  intros Hinv Hr0 [Hnd Hin Hreach Hclosed Hroot].
  assert ((seen ++ [id]) ++ todo ++ kids (children_index (connected c)) id =
          (seen ++ id :: todo) ++ kids (children_index (connected c)) id) as E
    by (by rewrite <-!app_assoc).
  assert (id ∈ seen ++ id :: todo) as Hid by (apply elem_of_app; right; left).
  destruct (Hin id Hid) as (eid & Heid & Hhid).
  assert (tip_height r0 ≤ tip_height eid) as Hge.
  { destruct Hhid as [->|[? _]]; [|lia]. rewrite Hr0 in Heid. injection Heid as ->. lia. }
  assert (∀ i, child (connected c) id i → ∃ e, connected c !! i = Some e ∧
            tip_height r0 < tip_height e) as Hkid.
  { intros i Hc. destruct (child_height c id i Hinv Hc) as (e & p & He & Hp & Hh).
    exists e. split; [done|]. rewrite Heid in Hp. injection Hp as <-. lia. }
  assert (id ∉ seen) as Hns.
  { apply NoDup_app in Hnd as (_ & Hd & _). intros Hs. apply (Hd id Hs). left. }
  constructor; rewrite ?E.
  - apply NoDup_app. split; [done|]. split; [|apply kids_nodup].
    intros i Hi Hk. apply elem_of_kids in Hk. destruct (Hkid i Hk) as (e & He & Hlt).
    destruct (Hin i Hi) as (e' & He' & [->|(_ & p & Hp & Hcp)]).
    + rewrite Hr0 in He. injection He as ->. lia.
    + by rewrite (child_unique _ _ _ _ Hcp Hk) in Hp.
  - intros i [Hi|Hk%elem_of_kids]%elem_of_app.
    + destruct (Hin i Hi) as (e & He & [?|(? & p & ? & ?)]); exists e; (split; [done|]); [by left|].
      right. split; [done|]. exists p. split; [|done]. apply elem_of_app. by left.
    + destruct (Hkid i Hk) as (e & He & Hlt). exists e. split; [done|]. right. split; [done|].
      exists id. split; [|done]. apply elem_of_app. right. by left.
  - intros i [Hi|Hk%elem_of_kids]%elem_of_app; [by apply Hreach|].
    eapply rtc_r; [by apply Hreach|done].
  - intros p i [Hp|Hp%list_elem_of_singleton]%elem_of_app Hc; apply elem_of_app.
    + left. by eapply Hclosed.
    + right. subst p. by apply elem_of_kids.
  - apply elem_of_app. by left.
Qed.

Lemma subtree_loop_ok c root r0 fuel : ∀ seen todo,
  chain_inv c → connected c !! root = Some r0 → walk (connected c) root r0 seen todo →
  (size (connected c) < fuel + length seen)%nat →
  ∃ removed, subtree_loop fuel (children_index (connected c)) seen todo = Some removed ∧
    walk (connected c) root r0 removed [].
Proof.
  induction fuel as [|fuel IH]; intros seen todo Hinv Hr0 Hw Hf; destruct todo as [|id todo];
    [by exists seen| |by exists seen|].
  - exfalso. pose proof (wk_nodup _ _ _ _ _ Hw) as Hnd.
    assert (length (seen ++ id :: todo) ≤ size (connected c))%nat as Hle.
    { rewrite <-size_dom, <-(size_list_to_set (C := gset ShareId) (seen ++ id :: todo)) by done.
      apply subseteq_size. intros i Hi. apply elem_of_list_to_set in Hi.
      destruct (wk_in _ _ _ _ _ Hw i Hi) as (e & He & _). by eapply elem_of_dom_2. }
    rewrite length_app in Hle. lia.
  - simpl. apply IH; [done..|by apply walk_step|]. rewrite length_app. simpl. lia.
Qed.

Lemma walk_start m root r0 : m !! root = Some r0 → walk m root r0 [] [root].
Proof.
  intros Hr. constructor; simpl.
  - apply NoDup_singleton.
  - intros i ->%list_elem_of_singleton. eauto.
  - intros i ->%list_elem_of_singleton. apply rtc_refl.
  - intros p i []%elem_of_nil.
  - by left.
Qed.

Lemma walk_done m root r0 removed i :
  walk m root r0 removed [] → i ∈ removed ↔ descendant m root i.
Proof.
  intros [_ _ Hreach Hclosed Hroot]. rewrite app_nil_r in *. split; [apply Hreach|].
  revert i. apply rtc_ind_r; [done|]. intros x y _ Hxy Hx. by eapply Hclosed.
Qed.

(** ** Best-tip recomputation *)

(** [e] at [b] beats every entry of [l] other than itself. *)
Definition best_of (b : ShareId) (e : ConnectedShare) (l : list (ShareId * ConnectedShare)) : Prop :=
  ∀ i x, (i, x) ∈ l → i ≠ b → better_tip e x = true.

Lemma best_of_step (m : gmap ShareId ConnectedShare) b e i x seen :
  (∀ j y, m !! j = Some y → cs_id y = j) → (∀ j y, (j, y) ∈ seen → m !! j = Some y) →
  m !! b = Some e → m !! i = Some x → (b, e) ∈ seen → best_of b e seen →
  if better_tip x e then best_of i x (seen ++ [(i, x)]) else best_of b e (seen ++ [(i, x)]).
Proof.
  intros Hids Hm Hb Hi Hin Hbest. destruct (better_tip x e) eqn:Hbt.
  - intros j y [Hj|[= -> ->]%list_elem_of_singleton]%elem_of_app Hne; [|done].
    destruct (decide (j = b)) as [->|].
    + pose proof (Hm _ _ Hj) as Hy. rewrite Hb in Hy. by injection Hy as <-.
    + eapply better_tip_trans; [exact Hbt|by eapply Hbest].
  - intros j y [Hj|[= -> ->]%list_elem_of_singleton]%elem_of_app Hne; [by eapply Hbest|].
    apply better_tip_total; [|done]. by rewrite (Hids _ _ Hi), (Hids _ _ Hb).
Qed.

Lemma best_loop_ok m l : ∀ seen b e,
  (∀ i x, m !! i = Some x → cs_id x = i) → (∀ i x, (i, x) ∈ seen ++ l → m !! i = Some x) →
  m !! b = Some e → (b, e) ∈ seen → best_of b e seen →
  ∃ b' e', best_loop m l (Some b) = Ok (Some b') ∧ m !! b' = Some e' ∧
    best_of b' e' (seen ++ l).
Proof.
  induction l as [|[i x] l IH]; intros seen b e Hids Hl Hb Hin Hseen.
  { exists b, e. by rewrite app_nil_r. }
  assert ((seen ++ [(i, x)]) ++ l = seen ++ (i, x) :: l) as E by (by rewrite <-app_assoc).
  simpl. rewrite Hb. rewrite <-E in *.
  assert ((i, x) ∈ seen ++ [(i, x)]) as Hix by (apply elem_of_app; right; left).
  pose proof (Hl i x ltac:(apply elem_of_app; by left)) as Hx.
  pose proof (best_of_step m b e i x seen Hids
    ltac:(intros; apply Hl; rewrite !elem_of_app; auto) Hb Hx Hin Hseen) as Hstep.
  destruct (better_tip x e); eapply IH; try done. apply elem_of_app. by left.
Qed.

Lemma best_recompute (m : gmap ShareId ConnectedShare) :
  (∀ i x, m !! i = Some x → cs_id x = i) →
  ∃ best, best_loop m (map_sorted m) None = Ok best ∧ best_ok m best.
Proof.
  intros Hids. pose proof (elem_of_map_sorted m) as Hel.
  destruct (map_sorted m) as [|[i x] l] eqn:El.
  { exists None. split; [done|]. apply map_empty. intros i. apply eq_None_not_Some.
    intros [x Hx]. apply Hel in Hx. by apply elem_of_nil in Hx. }
  assert (m !! i = Some x) as Hx by (apply Hel; left).
  destruct (best_loop_ok m l [(i, x)] i x Hids) as (b & e & Hr & Hb & Hbest);
    [intros ? ?; apply Hel|done|left| |].
  { intros j y [= -> ->]%list_elem_of_singleton. done. }
  exists (Some b). split; [exact Hr|]. exists e. split; [done|].
  intros j y Hj. apply Hbest, Hel, Hj.
Qed.

(** ** The pruned chain *)

Lemma foldl_delete_lookup {A} (removed : list ShareId) (m : gmap ShareId A) i :
  foldl (λ m id, delete id m) m removed !! i = if decide (i ∈ removed) then None else m !! i.
Proof.
  revert m. induction removed as [|r removed IH]; intros m; [done|]. simpl. rewrite IH.
  destruct (decide (i ∈ removed)), (decide (i ∈ r :: removed)) as [Hin|Hin]; try set_solver.
  - apply elem_of_cons in Hin as [->|]; [|done]. by rewrite lookup_delete_eq.
  - rewrite lookup_delete_ne; [done|]. set_solver.
Qed.

(** The difficulty of a share whose ancestors stay is unchanged. *)
Lemma difficulty_ok_restrict c c' s :
  difficulty_policy c' = difficulty_policy c → connected c' ⊆ connected c → all_linked c' →
  is_root s = true ∨ is_Some (connected c' !! parent_id s) →
  difficulty_ok c s → difficulty_ok c' s.
Proof.
  unfold difficulty_ok, expected_child_share_difficulty, is_root. intros -> Hm Hl Hp Hd.
  destruct (difficulty_policy c) as [p|]; [|done].
  destruct (is_zero_share_id _); [done|]. unfold find in *.
  destruct Hp as [|[e He]]; [done|]. rewrite He.
  rewrite (lookup_weaken _ _ _ _ He Hm) in Hd.
  destruct (collect_history_ok c' (Z.to_nat (dp_difficulty_window_shares p)) _ e Hl He)
    as (l & Hh & _).
  rewrite (collect_history_mono c' c _ e l Hm Hh) in Hd. by rewrite Hh.
Qed.

(** [kept c c' removed]: [c'] is [c] without [removed] and with a recomputed
    best tip. *)
Record kept (c c' : ShareChain) (removed : list ShareId) : Prop := {
  kp_connected : ∀ i, connected c' !! i = if decide (i ∈ removed) then None else connected c !! i;
  kp_best : best_ok (connected c') (best_tip_id c');
  kp_rest : c' = set_best (best_tip_id c') (set_connected (connected c') c) }.

Lemma kept_inv c c' root r0 removed :
  chain_inv c → walk (connected c) root r0 removed [] → kept c c' removed → chain_inv c'.
Proof.
  intros [Hpol Hent Hbest Horph Hwait Hpend Hbyp] Hw [Hcon Hb Hrest].
  assert (difficulty_policy c' = difficulty_policy c ∧ orphans c' = orphans c ∧
          orphans_by_parent c' = orphans_by_parent c) as (Ep & Eo & Eb) by (by rewrite Hrest).
  assert (connected c' ⊆ connected c) as Hsub.
  { apply map_subseteq_spec. intros i e. rewrite Hcon. by destruct (decide _). }
  assert (∀ i e parent, connected c' !! i = Some e → is_root (cs_share e) = false →
    connected c !! parent_id (cs_share e) = Some parent →
    connected c' !! parent_id (cs_share e) = Some parent) as Hpar.
  { intros i e parent Hi Hr Hp. rewrite Hcon in Hi |- *.
    destruct (decide (i ∈ removed)) as [|Hni]; [done|]. rewrite decide_False; [done|].
    intros Hin. apply Hni. pose proof (wk_closed _ _ _ _ _ Hw (parent_id (cs_share e)) i Hin) as Hc.
    rewrite app_nil_r in Hc. apply Hc. by exists e. }
  assert (all_linked c') as Hlinked.
  { intros i e Hi. pose proof (lookup_weaken _ _ _ _ Hi Hsub) as Hi'.
    pose proof (eo_link _ _ _ (Hent i e Hi')) as Hl. unfold linked in *.
    destruct (is_root (cs_share e)) eqn:Hr; [done|]. destruct Hl as (p & Hp & Hl).
    exists p. split; [by eapply Hpar|done]. }
  constructor; rewrite ?Ep, ?Eo, ?Eb; try done.
  - intros i e Hi. pose proof (Hent i e (lookup_weaken _ _ _ _ Hi Hsub)) as [].
    constructor; try done; [by rewrite (structural_ext c' c)|by eapply Hlinked|].
    intros Hv. destruct (eo_validated Hv) as (? & ? & Hd & Hl).
    assert (is_root (cs_share e) = true ∨ ∃ parent,
      connected c' !! parent_id (cs_share e) = Some parent ∧
      validated_ancestry parent = true) as Hl'.
    { destruct (is_root (cs_share e)) eqn:Hr; [by left|right].
      destruct Hl as [|(p & Hp & ?)]; [done|]. exists p. split; [by eapply Hpar|done]. }
    rewrite (enforces_ext c' c) by done. split; [done|]. split; [done|]. split; [|done].
    apply (difficulty_ok_restrict c); try done. destruct Hl' as [?|(p & -> & _)]; eauto.
  - intros i o Hi. apply (orphan_ok_ext c); [done| |by apply Horph].
    rewrite Hcon, (oo_connected _ _ _ (Horph i o Hi)). by destruct (decide _).
  - intros i o Hi HP. destruct (Hwait i o Hi HP) as [[Hn|?] ?]; [|done].
    split; [left|done]. rewrite Hcon, Hn. by destruct (decide _).
Qed.

(** Every outcome of the pruning operation. *)
Lemma prune_outcome c root :
  chain_inv c →
  (connected c !! root = None ∧ prune_connected_subtree_ids root c = (Ok [], c)) ∨
  ∃ r0 removed c', connected c !! root = Some r0 ∧ walk (connected c) root r0 removed [] ∧
    kept c c' removed ∧ prune_connected_subtree_ids root c = (Ok (sort_ids removed), c').
Proof.
  intros Hinv. unfold prune_connected_subtree_ids, exec_bind, exec_get, contains.
  destruct (connected c !! root) as [r0|] eqn:Hr0.
  2: { left. rewrite bool_decide_false by apply is_Some_None. done. }
  right. rewrite bool_decide_true by done. cbn [negb].
  destruct (subtree_loop_ok c root r0 (S (size (connected c))) [] [root] Hinv Hr0
    (walk_start _ _ _ Hr0) ltac:(lia)) as (removed & -> & Hw).
  unfold exec_modify, exec_const, exec_ret. cbn [set_best set_connected connected best_tip_id].
  set (m := foldl (λ m id, delete id m) (connected c) removed).
  assert (∀ i, m !! i = if decide (i ∈ removed) then None else connected c !! i) as Hm
    by apply foldl_delete_lookup.
  destruct (best_recompute m) as (best & -> & Hbest).
  { intros i x Hx. rewrite Hm in Hx. destruct (decide _); [done|].
    apply (eo_id _ _ _ (pi_entry _ _ _ Hinv i x Hx)). }
  exists r0, removed. eexists. split; [done|]. split; [done|]. split; [|done]. by constructor.
Qed.

(** Pruning as a function of the map: the descendants are gone, the rest stays. *)
Lemma prune_exact c root :
  chain_inv c →
  ∃ removed c', prune_connected_subtree_ids root c = (Ok removed, c') ∧ NoDup removed ∧
    (∀ i, i ∈ removed ↔ is_Some (connected c !! root) ∧ descendant (connected c) root i) ∧
    (∀ i, connected c' !! i = if decide (i ∈ removed) then None else connected c !! i) ∧
    orphans c' = orphans c ∧ best_ok (connected c') (best_tip_id c') ∧ chain_inv c'.
Proof.
  intros Hinv.
  destruct (prune_outcome c root Hinv) as [[Hn ->]|(r0 & removed & c' & Hr & Hw & Hk & ->)].
  - exists [], c. rewrite Hn. split; [done|]. split; [apply NoDup_nil_2|].
    split; [intros i; split; [by intros ?%elem_of_nil|by intros [[? ?] _]]|].
    split; [intros i; by rewrite decide_False by apply not_elem_of_nil|].
    split; [done|]. split; [apply Hinv|done].
  - exists (sort_ids removed), c'. rewrite Hr. split; [done|].
    pose proof (wk_nodup _ _ _ _ _ Hw) as Hnd. rewrite app_nil_r in Hnd.
    split; [unfold sort_ids; by rewrite merge_sort_Permutation|].
    split; [intros i; rewrite elem_of_sort_ids, (walk_done _ _ _ _ _ Hw); naive_solver|].
    split; [|split; [by rewrite (kp_rest _ _ _ Hk)|split; [apply Hk|by eapply kept_inv]]].
    intros i. rewrite (kp_connected _ _ _ Hk).
    destruct (decide (i ∈ removed)) as [Hi|Hi]; [rewrite decide_True|rewrite decide_False];
      by rewrite ?elem_of_sort_ids.
Qed.

Lemma descendant_mono m m' root i : m ⊆ m' → descendant m root i → descendant m' root i.
Proof.
  intros Hsub. apply rtc_subrel. intros p j (e & He & Hr). exists e. split; [|done].
  by eapply lookup_weaken.
Qed.

(** The descendants that a pruning leaves are those there were. *)
Lemma descendant_pruned m m' (removed : list ShareId) root i :
  (∀ p j, p ∈ removed → child m p j → j ∈ removed) →
  (∀ j, m' !! j = if decide (j ∈ removed) then None else m !! j) →
  descendant m root i → i ∉ removed → descendant m' root i.
Proof.
  intros Hcl Hm'. unfold descendant. revert i. refine (rtc_ind_r _ root _ _); [done|].
  intros p j Hd Hpj IH Hj.
  assert (p ∉ removed) as Hp by (intros Hp; by apply Hj, (Hcl p)).
  eapply rtc_r; [by apply IH|]. destruct Hpj as (e & He & Hr). exists e. split; [|done].
  by rewrite Hm', decide_False.
Qed.

(** [prune_connected_subtree] counts what it removes. *)
Lemma prune_count c root :
  chain_inv c →
  ∃ n c', prune_connected_subtree root c = (Ok n, c') ∧ chain_inv c' ∧ orphans c' = orphans c ∧
    connected c' ⊆ connected c ∧ (size (connected c) = size (connected c') + n)%nat ∧
    (∀ i, is_Some (connected c !! i) →
       (connected c' !! i = None ↔ is_Some (connected c !! root) ∧ descendant (connected c) root i)) ∧
    (∀ r i, descendant (connected c) r i → is_Some (connected c' !! i) →
       descendant (connected c') r i).
Proof.
  intros Hinv.
  destruct (prune_exact c root Hinv) as (removed & c' & Hp & Hnd & Hin & Hm & Ho & _ & Hinv').
  exists (length removed), c'. unfold prune_connected_subtree, exec_bind. rewrite Hp.
  split; [done|]. split; [done|]. split; [done|].
  assert (connected c' ⊆ connected c) as Hsub.
  { apply map_subseteq_spec. intros i e. rewrite Hm. by destruct (decide _). }
  split; [done|]. split.
  - assert (∀ i, i ∈ removed → is_Some (connected c !! i)) as Hdom.
    { intros i [[r0 Hr0] Hd]%Hin. apply rtc_inv_r in Hd as [->|(p & _ & e & He & _)]; eauto. }
    rewrite <-!size_dom. rewrite <-(size_list_to_set (C:=gset ShareId) removed) by done.
    rewrite <-size_union by (apply elem_of_disjoint; intros i [e He]%elem_of_dom Hi%elem_of_list_to_set;
      rewrite Hm, decide_True in He; done).
    f_equal. apply set_eq. intros i. rewrite elem_of_union, elem_of_list_to_set, !elem_of_dom, Hm.
    destruct (decide (i ∈ removed)); naive_solver.
  - split.
    + intros i [e He]. rewrite Hm, <-Hin. destruct (decide (i ∈ removed)); [done|]. rewrite He. done.
    + intros r i Hd [e He]. eapply (descendant_pruned _ _ removed); try done.
      * intros p j [Hr Hdp]%Hin Hc. apply Hin. split; [done|]. by eapply rtc_r.
      * intros Hi. by rewrite Hm, decide_True in He.
Qed.
