(* ===== verification/ChainHistory.v ===== *)
(** Histories of the share chain: the operations as steps, the states they
    reach, and the properties of every reachable chain. *)
From S2P Require Import Prelude CryptoHash PowTarget Share SidechainParams Difficulty ShareChain.
From S2P Require Import ChainWork ChainInv ChainPromote ChainAdmit ChainReplay ChainPrune.

(** ** Ancestry *)

(** [ancestry m id l]: [l] is the path from the share [id] to its root. *)
Inductive ancestry (m : gmap ShareId ConnectedShare) : ShareId → list ConnectedShare → Prop :=
| anc_root id e :
    m !! id = Some e → is_root (cs_share e) = true → ancestry m id [e]
| anc_step id e l :
    m !! id = Some e → is_root (cs_share e) = false →
    ancestry m (parent_id (cs_share e)) l → ancestry m id (e :: l).

Lemma structural_root_height c s :
  structural_reject_reason c s = NoReject → is_root s = true → share_height s = 0.
Proof.
  unfold structural_reject_reason, is_root. intros Hs Hr. rewrite Hr in Hs.
  repeat (case_match; try discriminate Hs); by bool_prop.
Qed.

(** Every connected share has a path to a root; its length is the height and
    its difficulties add up to the cumulative work. *)
Lemma ancestry_total c id e :
  chain_inv c → connected c !! id = Some e →
  ∃ l, ancestry (connected c) id (e :: l) ∧
    tip_height e = Z.of_nat (length l) ∧
    tip_work e = sum_by (λ x, arr_Z (share_difficulty (cs_share x))) (e :: l).
Proof.
  intros Hinv. pose proof (pi_entry _ _ _ Hinv) as Hent.
  remember (Z.to_nat (tip_height e)) as n eqn:Hn. revert id e Hn.
  induction n as [|n IH]; intros id e Hn He; pose proof (Hent id e He) as Hok;
    pose proof (wf_height _ (eo_wf _ _ _ Hok)) as Hh; unfold is_u64 in Hh;
    pose proof (eo_link _ _ _ Hok) as Hl; unfold linked in Hl;
    destruct (is_root (cs_share e)) eqn:Hr; unfold tip_height in *.
  1,3: exists []; split; [by constructor|]; simpl; split; [|lia];
    by apply (structural_root_height c); [apply Hok|].
  - destruct (parent_height c id e Hinv He Hr) as (p & Hp & Hph). unfold tip_height in Hph.
    pose proof (wf_height _ (eo_wf _ _ _ (Hent _ _ Hp))) as Hpu. unfold is_u64 in Hpu. lia.
  - destruct (parent_height c id e Hinv He Hr) as (p & Hp & Hph). unfold tip_height in Hph.
    destruct (IH _ p ltac:(lia) Hp) as (l & Hanc & Hlen & Hw).
    destruct Hl as (p' & Hp' & _ & _ & Hwe). rewrite Hp in Hp'. injection Hp' as <-.
    exists (p :: l). split; [by econstructor|]. simpl length. split; [lia|].
    simpl in *. lia.
Qed.

Lemma ancestry_unique m id l k : ancestry m id l → ancestry m id k → l = k.
Proof.
  intros Hl. revert k. induction Hl as [id e He Hr|id e l He Hr Hl IH]; intros k Hk;
    inversion Hk as [? e' He' Hr'|? e' k' He' Hr' Hk']; subst; try congruence.
  rewrite He in He'. injection He' as <-. f_equal. by apply IH.
Qed.

Lemma ancestry_validated c id l e :
  chain_inv c → ancestry (connected c) id l → connected c !! id = Some e →
  validated_ancestry e = true → Forall (λ x, validated_ancestry x = true) l.
Proof.
  intros Hinv Hl. revert e. induction Hl as [id e' He' Hr|id e' l He' Hr Hl IH]; intros e He Hv;
    rewrite He in He'; injection He' as <-; constructor; try done.
  destruct (validated_facts c id e Hinv (conj He Hv)) as (v & _ & _ & _ & _ & _ & Hp).
  destruct Hp as [|(p & Hp & Hpv)]; [congruence|]. by apply (IH p).
Qed.

(** ** Convergence of the fork choice *)

(** The cumulative work is a function of the shares on the path. *)
Lemma ancestry_shares m1 m2 id l :
  cs_share <$> m1 = cs_share <$> m2 → ancestry m1 id l →
  ∃ k, ancestry m2 id k ∧ cs_share <$> k = cs_share <$> l.
Proof.
  intros E Hl.
  assert (∀ i x, m1 !! i = Some x → ∃ y, m2 !! i = Some y ∧ cs_share y = cs_share x) as Hlook.
  { intros i x Hx. assert ((cs_share <$> m2) !! i = Some (cs_share x)) as H2
      by (by rewrite <-E, lookup_fmap, Hx).
    apply lookup_fmap_Some in H2 as (y & ? & ?). eauto. }
  induction Hl as [id e He Hr|id e l He Hr Hl IH]; destruct (Hlook _ _ He) as (y & Hy & Es).
  - exists [y]. split; [constructor; [done|by rewrite Es]|]. csimpl. by rewrite Es.
  - destruct IH as (k & Hk & Ek). exists (y :: k). csimpl. rewrite Es, Ek. split; [|done].
    constructor; [done|by rewrite Es|by rewrite Es].
Qed.

Lemma work_of_shares c1 c2 id e1 e2 :
  chain_inv c1 → chain_inv c2 →
  cs_share <$> connected c1 = cs_share <$> connected c2 →
  connected c1 !! id = Some e1 → connected c2 !! id = Some e2 →
  cs_share e1 = cs_share e2 ∧ cs_id e1 = cs_id e2 ∧ cumulative_work e1 = cumulative_work e2.
Proof.
  intros H1 H2 E He1 He2.
  destruct (ancestry_total c1 id e1 H1 He1) as (l1 & Ha1 & _ & Hw1).
  destruct (ancestry_total c2 id e2 H2 He2) as (l2 & Ha2 & _ & Hw2).
  destruct (ancestry_shares _ _ _ _ E Ha1) as (k & Hk & Ek).
  rewrite (ancestry_unique _ _ _ _ Hk Ha2) in Ek. csimpl in Ek. injection Ek as Es El.
  split; [done|]. split.
  - by rewrite (eo_id _ _ _ (pi_entry _ _ _ H1 _ _ He1)),
      (eo_id _ _ _ (pi_entry _ _ _ H2 _ _ He2)).
  - apply arr_Z_inj. fold (tip_work e1) (tip_work e2). rewrite Hw1, Hw2. simpl. rewrite Es. f_equal.
    rewrite <-(sum_by_fmap cs_share (λ s, arr_Z (share_difficulty s)) l1),
      <-(sum_by_fmap cs_share (λ s, arr_Z (share_difficulty s)) l2). by rewrite El.
Qed.

Lemma best_tip_same c1 c2 :
  chain_inv c1 → chain_inv c2 →
  cs_share <$> connected c1 = cs_share <$> connected c2 →
  best_tip_id c1 = best_tip_id c2.
Proof.
  intros H1 H2 E. pose proof (pi_best _ _ _ H1) as B1. pose proof (pi_best _ _ _ H2) as B2.
  unfold best_ok in *.
  destruct (best_tip_id c1) as [b1|], (best_tip_id c2) as [b2|]; try done.
  - destruct B1 as (e1 & He1 & M1), B2 as (e2 & He2 & M2). f_equal.
    destruct (decide (b1 = b2)) as [|Hne]; [done|exfalso].
    assert ((cs_share <$> connected c2) !! b1 = Some (cs_share e1)) as X
      by (by rewrite <-E, lookup_fmap, He1).
    apply lookup_fmap_Some in X as (x2 & _ & Hx2).
    assert ((cs_share <$> connected c1) !! b2 = Some (cs_share e2)) as Y
      by (by rewrite E, lookup_fmap, He2).
    apply lookup_fmap_Some in Y as (y1 & _ & Hy1).
    pose proof (M1 b2 y1 Hy1 ltac:(done)) as L1. pose proof (M2 b1 x2 Hx2 ltac:(done)) as L2.
    destruct (work_of_shares c1 c2 b1 e1 x2 H1 H2 E He1 Hx2) as (? & ? & ?).
    destruct (work_of_shares c1 c2 b2 y1 e2 H1 H2 E Hy1 He2) as (? & ? & ?).
    rewrite (better_tip_ext e1 x2 y1 e2) in L1 by done.
    apply better_tip_asymm in L1. congruence.
  - destruct B1 as (e1 & He1 & _). exfalso. rewrite B2, fmap_empty in E.
    apply fmap_empty_inv in E. rewrite E in He1. by rewrite lookup_empty in He1.
  - destruct B2 as (e2 & He2 & _). exfalso. rewrite B1, fmap_empty in E. symmetry in E.
    apply fmap_empty_inv in E. rewrite E in He2. by rewrite lookup_empty in He2.
Qed.

(** ** The best chain *)

(** With [size connected] steps the parent walk reaches the root. *)
Lemma walk_to_ancestry c id fuel b e l :
  (∀ i x, connected c !! i = Some x → cs_id x = i) →
  ancestry (connected c) b (e :: l) → (length l ≤ fuel)%nat →
  walk_to fuel c id (Some e) = true ↔ ∃ x, x ∈ e :: l ∧ cs_id x = id.
Proof.
  intros Hids. revert b e l. induction fuel as [|fuel IH]; intros b e l Hanc Hlen;
    inversion Hanc as [? ? He Hr|? ? ? He Hr Hanc']; subst; simpl; unfold is_root in Hr;
    rewrite Hr; destruct (arr_eqb (cs_id e) id) eqn:Ei; bool_prop;
    try (split; [intros _; exists e; split; [left|done]|done]);
    try (split; [done|intros (x & ->%list_elem_of_singleton & ?); done]).
  - inversion Hanc'; subst; simpl in Hlen; lia.
  - unfold find. inversion Hanc' as [? p Hp|? p l' Hp]; subst; rewrite Hp;
      rewrite (IH _ _ _ Hanc' ltac:(simpl in *; lia)); split;
      intros (x & Hx & Hid); exists x; (split; [|done]); [by right| |by right|];
      apply elem_of_cons in Hx as [->|Hx]; try done.
Qed.

Lemma ancestry_lookup m id l x :
  (∀ i y, m !! i = Some y → cs_id y = i) → ancestry m id l → x ∈ l → m !! cs_id x = Some x.
Proof.
  intros Hids Hl Hx. induction Hl as [id e He Hr|id e l He Hr Hl IH].
  - apply list_elem_of_singleton in Hx as ->. by rewrite (Hids _ _ He).
  - apply elem_of_cons in Hx as [->|Hx]; [by rewrite (Hids _ _ He)|by apply IH].
Qed.

Lemma ancestry_heights c id e l x :
  chain_inv c → ancestry (connected c) id (e :: l) → x ∈ l → tip_height x < tip_height e.
Proof.
  intros Hinv. revert id e. induction l as [|p l IH]; intros id e Hanc Hx.
  { by apply elem_of_nil in Hx. }
  inversion Hanc as [|? ? ? He Hr Hanc']; subst.
  destruct (parent_height c id e Hinv He Hr) as (q & Hq & Hh).
  assert (q = p) as -> by (inversion Hanc'; congruence).
  apply elem_of_cons in Hx as [->|Hx]; [lia|]. pose proof (IH _ _ Hanc' Hx). lia.
Qed.

Lemma ancestry_nodup c id l :
  chain_inv c → ancestry (connected c) id l → NoDup (cs_id <$> l).
Proof.
  intros Hinv Hanc. induction Hanc as [id e He Hr|id e l He Hr Hl IH]; [apply NoDup_singleton|].
  csimpl. constructor; [|done]. intros (x & Hid & Hx)%list_elem_of_fmap.
  pose proof (ancestry_heights c id e l x Hinv ltac:(by econstructor) Hx).
  assert (∀ i y, connected c !! i = Some y → cs_id y = i) as Hids
    by (intros i y Hy; apply (eo_id _ _ _ (pi_entry _ _ _ Hinv i y Hy))).
  pose proof (ancestry_lookup _ _ _ _ Hids Hl Hx) as Hlook. rewrite <-Hid in Hlook.
  rewrite (Hids _ _ He), He in Hlook. injection Hlook as ->. lia.
Qed.

Lemma ancestry_length c id l :
  chain_inv c → ancestry (connected c) id l → (length l ≤ size (connected c))%nat.
Proof.
  intros Hinv Hanc. pose proof (ancestry_nodup c id l Hinv Hanc) as Hnd.
  rewrite <-size_dom, <-(length_fmap cs_id l), <-(size_list_to_set (C := gset ShareId)) by done.
  apply subseteq_size. intros i (x & -> & Hx)%elem_of_list_to_set%list_elem_of_fmap.
  eapply elem_of_dom_2, ancestry_lookup; [|done|done].
  intros j y Hy. apply (eo_id _ _ _ (pi_entry _ _ _ Hinv j y Hy)).
Qed.

(** ** Operations as steps *)

Section History.
Context `{!ProgPow}.

Inductive chain_op :=
| OpAdd (share : Share)
| OpSubmit (share : Share) (ctx : ShareWorkContext) (now : Z) (mode : ProgPowZContextMode)
| OpRevalidate (id : ShareId) (ctx : ShareWorkContext) (now : Z) (mode : ProgPowZContextMode)
| OpRestore (records : list ReplayValidationRecord)
| OpPrune (root_id : ShareId).

(** The state an operation leaves behind, whether it returns or throws. *)
Definition run_op (op : chain_op) (c : ShareChain) : ShareChain :=
  match op with
  | OpAdd share => (add_share_unchecked share c).2
  | OpSubmit share ctx now mode => (submit_share share ctx now mode c).2
  | OpRevalidate id ctx now mode => (revalidate_connected_share id ctx now mode c).2
  | OpRestore records => (restore_replay_validation records c).2
  | OpPrune root_id => (prune_connected_subtree root_id c).2
  end.

(** Arguments in their machine ranges, with share timestamps before the year
    2106. *)
Definition op_wf (op : chain_op) : Prop :=
  match op with
  | OpAdd share => share_wf share ∧ time_ok share
  | OpSubmit share _ now _ => share_wf share ∧ time_ok share ∧ is_u64 now
  | OpRevalidate _ _ now _ => is_u64 now
  | OpRestore _ | OpPrune _ => True
  end.

Inductive reachable : ShareChain → Prop :=
| reach_default : reachable empty_chain
| reach_params p c : params_wf p → new_chain p = Ok c → reachable c
| reach_step c op : reachable c → op_wf op → reachable (run_op op c).

Definition good (c : ShareChain) : Prop := chain_inv c ∧ times_ok c.

Lemma add_outcome_good c share pow enforce r c' :
  good c → share_wf share → time_ok share → pow_ok pow →
  (enforce = true → enforces_sidechain_difficulty c = true) →
  add_outcome c share pow enforce (r, c') → good c'.
Proof.
  intros [Hinv Ht] Hwf Hts Hpow Henf Hout. destruct r as [r|x].
  - split; [by eapply add_outcome_inv|]. inversion Hout; subst; try done.
    + destruct Ht as [Tc To]. split; [done|]. intros i o Hi. cbn in Hi.
      destruct (decide (i = id)) as [->|]; [rewrite lookup_insert_eq in Hi; by injection Hi as <-|].
      rewrite lookup_insert_ne in Hi by done. eauto.
    + eapply promotes_times; [done|]. apply connect_state_times; [done|].
      match goal with H : connected_entry _ _ _ _ _ _ |- _ =>
        by rewrite (ce_share _ _ _ _ _ _ H) end.
  - inversion Hout; subst; [done|tauto].
Qed.

Lemma marks_good c c' : chain_inv c' → marks c c' → times_ok c → good c'.
Proof.
  intros Hinv Hm [Tc To]. split; [done|]. destruct (marks_fields _ _ Hm) as (_ & Eo & _).
  split; [|by rewrite Eo]. intros i e He.
  destruct (marks_lookup _ _ _ _ Hm He) as (e0 & He0 & Hme).
  destruct (marked_same _ _ Hme) as (-> & _). eauto.
Qed.

Lemma prune_good c root : good c → good (prune_connected_subtree root c).2.
Proof.
  intros [Hinv [Tc To]]. unfold prune_connected_subtree, exec_bind, exec_ret.
  destruct (prune_outcome c root Hinv) as [[_ ->]|(r0 & removed & c' & _ & Hw & Hk & ->)];
    [by split|]. simpl. split; [by eapply kept_inv|]. destruct Hk as [Hcon _ Hrest].
  split; [|rewrite Hrest; done]. intros i e He. rewrite Hcon in He.
  destruct (decide _); [done|eauto].
Qed.

Lemma run_op_good c op : good c → op_wf op → good (run_op op c).
Proof.
  intros Hg Hop. pose proof Hg as [Hinv Ht]. destruct op; simpl in *.
  - destruct Hop as [Hwf Hts].
    pose proof (add_prevalidated_outcome c share None false Hinv Hwf I ltac:(done)) as Ho.
    unfold add_share_unchecked. destruct (add_prevalidated_share _ _ _ _) as [r c'].
    eapply (add_outcome_good c share None false); try done; exact I.
  - destruct Hop as (Hwf & Hts & Hnow).
    destruct (submit_outcome c share ctx now mode _ Hinv Hwf Hnow eq_refl)
      as [[-> _]|(v & Hv & _ & Ho)]; [done|].
    destruct (submit_share _ _ _ _ _) as [r c']. eapply add_outcome_good; try done.
    apply (pv_consistent _ _ _ _ _ Hv).
  - destruct (revalidate_connected_share _ _ _ _ _) as [r c'] eqn:E.
    destruct (revalidate_inv _ _ _ _ _ _ _ Hinv Hop E). by eapply marks_good.
  - pose proof (restore_sound c records _ Hinv eq_refl) as Hr.
    destruct (restore_replay_validation records c) as [[n|x] c']; simpl in *; [|by subst].
    destruct Hr. by eapply marks_good.
  - by apply prune_good.
Qed.

Lemma empty_state_good policy pid :
  policy_ok policy → good (mkChain ∅ ∅ ∅ None policy pid).
Proof.
  intros Hp. split; [constructor|split]; cbn [connected orphans orphans_by_parent best_tip_id
    difficulty_policy]; try done; try (intros i x Hx; by rewrite lookup_empty in Hx).
Qed.

Lemma new_chain_good p c : params_wf p → new_chain p = Ok c → good c.
Proof.
  intros Hwf Hn. unfold new_chain in Hn. res_inv.
  match goal with H : serialize_sidechain_parameters p = Ok _ |- _ =>
    apply serialize_params_ok in H as [Hv _] end.
  apply empty_state_good. simpl.
  destruct Hv as [_ _ _ Ht Hm Hw _ _ _ _]. destruct Hwf. unfold is_u64 in *. lia.
Qed.

Lemma reachable_good c : reachable c → good c.
Proof.
  induction 1 as [|p c Hwf Hn|c op Hr IH Hop].
  - by apply empty_state_good.
  - by eapply new_chain_good.
  - by apply run_op_good.
Qed.

End History.

(** Membership in the path of the best tip, as the walk decides it. *)
Lemma best_chain_walk c id tip l :
  chain_inv c → best_tip c = Some tip → ancestry (connected c) (cs_id tip) l →
  walk_to (size (connected c)) c id (Some tip) = true ↔ id ∈ cs_id <$> l.
Proof.
  intros Hinv Htip Hanc.
  assert (∀ i x, connected c !! i = Some x → cs_id x = i) as Hids
    by (intros i x Hx; apply (eo_id _ _ _ (pi_entry _ _ _ Hinv i x Hx))).
  assert (connected c !! cs_id tip = Some tip) as Ht.
  { unfold best_tip, find in Htip. destruct (best_tip_id c) as [b|]; [|done].
    simpl in Htip. by rewrite (Hids b tip Htip). }
  pose proof (ancestry_length c _ _ Hinv Hanc) as Hlen.
  assert (∃ l', l = tip :: l') as [l' ->].
  { inversion Hanc; subst; eexists; f_equal; congruence. }
  rewrite (walk_to_ancestry c id _ (cs_id tip) tip l' Hids Hanc) by (simpl in Hlen; lia).
  rewrite list_elem_of_fmap. naive_solver.
Qed.
