(* ===== verification/Demo.v ===== *)
(** A concrete pool to instantiate the theorems on: a ProgPoWZ back end whose
    hash is a fixed small number, the canonical testnet parameters, and three
    shares in a row. *)
From S2P Require Import Prelude CryptoHash PowTarget Share SidechainParams Difficulty ShareChain.
From S2P Require Import ChainWork ChainInv ChainPromote ChainAdmit ChainReplay ChainPrune.
From S2P Require Import ChainHistory.

(** Every hash is 1: it meets every difficulty. *)
Definition demo_pow : ProgPow := {|
  have_progpowz := true;
  progpow_hash_light _ _ _ _ := mkPow (fill_be 32 1) (fill_be 32 2);
  progpow_context_full _ := Some (λ _ _ _, mkPow (fill_be 32 1) (fill_be 32 2)) |}.

Definition demo_params : SidechainParameters := default_sidechain_parameters.

Definition ok_or {A} (d : A) (r : res A) : A := match r with Ok a => a | Throw _ => d end.

Definition demo_chain : ShareChain := ok_or empty_chain (new_chain demo_params).

Definition demo_payout : PayoutPublicKeys := mkPayout (fill_be 32 11) (fill_be 32 12).
Definition demo_miner : MinerId := Eval vm_compute in miner_id_from_payout demo_payout.

Definition demo_ctx : ShareWorkContext :=
  mkContext 3000000 (fill_be 32 77) (fill_be 16 5000000000).

Definition demo_share (parent : ShareId) (height ts nonce : Z) : Share :=
  mkShare 2 parent height ts 3000000 (fill_be 32 77) nonce (fill_be 16 100000000)
    (fill_be 16 5000000000) demo_miner (Some demo_payout).

Definition demo_root : Share := Eval vm_compute in demo_share (arr_zero 32) 0 1700000000 1.
Definition demo_root_id : ShareId := Eval vm_compute in ok_or (arr_zero 32) (share_id demo_root).
Definition demo_child : Share := Eval vm_compute in demo_share demo_root_id 1 1700000010 2.
Definition demo_child_id : ShareId := Eval vm_compute in ok_or (arr_zero 32) (share_id demo_child).
Definition demo_tip : Share := Eval vm_compute in demo_share demo_child_id 2 1700000020 3.
Definition demo_tip_id : ShareId := Eval vm_compute in ok_or (arr_zero 32) (share_id demo_tip).

Definition demo_now : Z := 1700000030.
Definition demo_submit (s : Share) : chain_op := OpSubmit s demo_ctx demo_now Light.

(** The ids, each hashed once. *)
Lemma demo_root_sid : share_id demo_root = Ok demo_root_id.
Proof. vm_compute. reflexivity. Qed.
Lemma demo_child_sid : share_id demo_child = Ok demo_child_id.
Proof. vm_compute. reflexivity. Qed.
Lemma demo_tip_sid : share_id demo_tip = Ok demo_tip_id.
Proof. vm_compute. reflexivity. Qed.

(** The root alone; the root with the tip waiting for the child; all three. *)
Definition demo_c1 : ShareChain := @run_op demo_pow (demo_submit demo_root) demo_chain.
Definition demo_c2 : ShareChain := @run_op demo_pow (demo_submit demo_tip) demo_c1.
Definition demo_c3 : ShareChain := @run_op demo_pow (demo_submit demo_child) demo_c2.

(** ** The hypotheses of the theorems on this pool *)

Lemma fst_eq {A B} (m : A * B) a : m.1 = a → m = (a, m.2).
Proof. intros <-. by destruct m. Qed.

Lemma demo_params_wf : params_wf demo_params.
Proof. by split. Qed.

Lemma demo_share_wf parent h ts n :
  is_u64 h → is_u64 ts → is_u64 n → share_wf (demo_share parent h ts n).
Proof. by split. Qed.

Lemma demo_root_wf : share_wf demo_root ∧ time_ok demo_root.
Proof. split; [by apply (demo_share_wf (arr_zero 32) 0 1700000000 1)|done]. Qed.
Lemma demo_child_wf : share_wf demo_child ∧ time_ok demo_child.
Proof. split; [by apply (demo_share_wf demo_root_id 1 1700000010 2)|done]. Qed.
Lemma demo_tip_wf : share_wf demo_tip ∧ time_ok demo_tip.
Proof. split; [by apply (demo_share_wf demo_child_id 2 1700000020 3)|done]. Qed.

Lemma demo_now_u64 : is_u64 demo_now.
Proof. done. Qed.

Lemma demo_chain_new : new_chain demo_params = Ok demo_chain.
Proof.
  unfold demo_chain. assert (is_ok (new_chain demo_params) = true) as Hok by (by vm_compute).
  by destruct (new_chain demo_params).
Qed.

Lemma demo_chain_reachable : @reachable demo_pow demo_chain.
Proof. eapply reach_params; [apply demo_params_wf|apply demo_chain_new]. Qed.

Lemma demo_step s c :
  share_wf s ∧ time_ok s → @reachable demo_pow c →
  @reachable demo_pow (@run_op demo_pow (demo_submit s) c).
Proof. intros [Hw Ht] Hc. apply reach_step; [done|]. split; [done|]. by split. Qed.

Lemma demo_c1_reachable : @reachable demo_pow demo_c1.
Proof. apply demo_step; [apply demo_root_wf|apply demo_chain_reachable]. Qed.
Lemma demo_c2_reachable : @reachable demo_pow demo_c2.
Proof. apply demo_step; [apply demo_tip_wf|apply demo_c1_reachable]. Qed.
Lemma demo_c3_reachable : @reachable demo_pow demo_c3.
Proof. apply demo_step; [apply demo_child_wf|apply demo_c2_reachable]. Qed.

(** Evaluate a demo state without hashing again. *)
Ltac demo_ids := rewrite ?demo_root_sid, ?demo_child_sid, ?demo_tip_sid.
Ltac demo_unfold :=
  unfold demo_c3, demo_c2, demo_c1, demo_submit, run_op, submit_share, add_share_unchecked,
    add_prevalidated_share; demo_ids.

(** The same shares in order; read back from disk unvalidated; and revalidated
    one after the other. *)
Definition demo_d3 : ShareChain :=
  @run_op demo_pow (demo_submit demo_tip)
    (@run_op demo_pow (demo_submit demo_child) demo_c1).

Definition demo_u3 : ShareChain :=
  @run_op demo_pow (OpAdd demo_tip)
    (@run_op demo_pow (OpAdd demo_child) (@run_op demo_pow (OpAdd demo_root) demo_chain)).

Definition demo_reval (id : ShareId) : chain_op := OpRevalidate id demo_ctx demo_now Light.
Definition demo_v1 : ShareChain := @run_op demo_pow (demo_reval demo_root_id) demo_u3.
Definition demo_v3 : ShareChain :=
  @run_op demo_pow (demo_reval demo_tip_id) (@run_op demo_pow (demo_reval demo_child_id) demo_v1).

Lemma demo_d3_reachable : @reachable demo_pow demo_d3.
Proof.
  apply demo_step; [apply demo_tip_wf|]. apply demo_step; [apply demo_child_wf|].
  apply demo_c1_reachable.
Qed.

Lemma demo_u3_reachable : @reachable demo_pow demo_u3.
Proof.
  repeat (apply reach_step); [apply demo_chain_reachable|apply demo_root_wf|
    apply demo_child_wf|apply demo_tip_wf].
Qed.

Lemma demo_reval_step id c :
  @reachable demo_pow c →
  @reachable demo_pow (@run_op demo_pow (demo_reval id) c) ∧
  marks c (@run_op demo_pow (demo_reval id) c).
Proof.
  intros Hc. split; [by apply reach_step|].
  destruct (@revalidate_connected_share demo_pow id demo_ctx demo_now Light c) as [r c'] eqn:E.
  destruct (@revalidate_inv demo_pow c id demo_ctx demo_now Light r c') as [_ Hm].
  - by apply reachable_good in Hc as [? _].
  - done.
  - done.
  - change (run_op (demo_reval id) c)
      with (@revalidate_connected_share demo_pow id demo_ctx demo_now Light c).2. by rewrite E.
Qed.

Lemma demo_v3_ok : @reachable demo_pow demo_v3 ∧ marks demo_u3 demo_v3.
Proof.
  destruct (demo_reval_step demo_root_id _ demo_u3_reachable) as [R1 M1].
  destruct (demo_reval_step demo_child_id _ R1) as [R2 M2].
  destruct (demo_reval_step demo_tip_id _ R2) as [R3 M3].
  split; [done|]. etransitivity; [exact M1|]. by etransitivity; [exact M2|].
Qed.

Definition demo_tip_entry : ConnectedShare :=
  Eval vm_compute in
    default (mkConnected demo_tip demo_tip_id (arr_zero 32) None false)
      (connected demo_c3 !! demo_tip_id).

Lemma demo_c3_tip : connected demo_c3 !! demo_tip_id = Some demo_tip_entry.
Proof. demo_unfold. vm_compute. reflexivity. Qed.

Definition demo_connected (promoted : nat) (id : ShareId) : res AddShareResult :=
  Ok (mkAdd Connected NoReject id promoted true).

(** Submitting the missing child connects it and promotes the waiting tip. *)
Lemma demo_submit_child :
  (@submit_share demo_pow demo_child demo_ctx demo_now Light demo_c2).1
  = demo_connected 1 demo_child_id.
Proof. demo_unfold. vm_compute. reflexivity. Qed.

Lemma demo_add_child :
  (add_prevalidated_share demo_child None false demo_c1).1 = demo_connected 0 demo_child_id.
Proof. demo_unfold. vm_compute. reflexivity. Qed.

Lemma demo_reval_root :
  (@revalidate_connected_share demo_pow demo_root_id demo_ctx demo_now Light demo_u3).1
  = Ok (mkReval Validated NoReject demo_root_id).
Proof. unfold demo_u3. demo_unfold. vm_compute. reflexivity. Qed.

(** A share whose height is past ProgPoWZ's block range makes the hash throw. *)
Definition demo_high : Share :=
  mkShare 2 (arr_zero 32) 0 1700000000 3000000000 (fill_be 32 77) 1 (fill_be 16 100000000)
    (fill_be 16 5000000000) demo_miner (Some demo_payout).
Definition demo_high_ctx : ShareWorkContext :=
  mkContext 3000000000 (fill_be 32 77) (fill_be 16 5000000000).
Definition demo_high_error : exn :=
  Exn OutOfRange "height exceeds the block-number range supported by ProgPoWZ".

Lemma demo_submit_high :
  (@submit_share demo_pow demo_high demo_high_ctx demo_now Light demo_c1).1
  = Throw demo_high_error.
Proof. vm_compute. reflexivity. Qed.

(** A record for the tip without records for its ancestors. *)
Definition demo_bad_records : list ReplayValidationRecord :=
  [mkRecord demo_tip_id
     (mkValidation (mkPow (arr_zero 32) (arr_zero 32)) true false ClassShare)].

Lemma demo_v3_enforces : enforces_sidechain_difficulty demo_v3 = true.
Proof.
  unfold demo_v3, demo_v1, demo_u3, demo_reval. demo_unfold. vm_compute. reflexivity.
Qed.

Lemma demo_snapshot_ok :
  replay_validation_snapshot demo_v3 = Ok (omap entry_record (snapshot_entries demo_v3)).
Proof.
  apply snapshot_ok; [|apply demo_v3_enforces].
  apply (@reachable_good demo_pow), demo_v3_ok.
Qed.

Lemma demo_ids_nonzero id : is_Some (connected demo_v3 !! id) → is_zero_share_id id = false.
Proof.
  assert (map_Forall (λ id _, is_zero_share_id id = false) (connected demo_v3)) as Hall.
  { apply (bool_decide_unpack _). unfold demo_v3, demo_v1, demo_u3, demo_reval. demo_unfold.
    vm_compute. exact I. }
  intros [e He]. exact (Hall id e He).
Qed.

Lemma demo_same_shares : cs_share <$> connected demo_c3 = cs_share <$> connected demo_d3.
Proof. apply (bool_decide_unpack _). unfold demo_d3. demo_unfold. vm_compute. exact I. Qed.

Lemma demo_c3_best : best_tip demo_c3 = Some demo_tip_entry.
Proof. demo_unfold. vm_compute. reflexivity. Qed.

Lemma demo_c3_enforces : enforces_sidechain_difficulty demo_c3 = true.
Proof. demo_unfold. vm_compute. reflexivity. Qed.

Lemma demo_tip_path :
  ∃ l, ancestry (connected demo_c3) (cs_id demo_tip_entry) (demo_tip_entry :: l).
Proof.
  destruct (ancestry_total demo_c3 demo_tip_id demo_tip_entry
    (proj1 (@reachable_good demo_pow _ demo_c3_reachable)) demo_c3_tip) as (l & Hl & _).
  by exists l.
Qed.
