(* ===== verification/ChainSpec.v ===== *)
(** The theorems about the share chain, with concrete instances of their
    hypotheses. *)
From S2P Require Import Prelude CryptoHash PowTarget Share SidechainParams Difficulty ShareChain.
From S2P Require Import ChainWork ChainInv ChainPromote ChainAdmit ChainReplay ChainPrune.
From S2P Require Import ChainHistory Demo.

Section Spec.
Context `{!ProgPow}.

(** C1: the invariant of the share chain holds in every state that a history of
    operations reaches, the states left behind by exceptions included.  The
    invariant: every connected share is stored under its own hash, is
    structurally valid, links to a connected parent with height, timestamp and
    cumulative work that fit; a validated share has a consistent PoW verdict,
    the retarget difficulty and a validated parent; the best tip beats every
    other connected share; no orphan waits for a connected parent, and the
    by-parent index lists exactly the waiting orphans. *)
Theorem reachable_chain_inv : ∀ c, reachable c → chain_inv c.
Proof. intros c Hc. by apply reachable_good. Qed.

(** Cumulative work is accumulated work.  In every reachable chain each
    connected share has a unique path of parents to a root share; its height is
    the number of ancestors, its cumulative work the sum of the difficulties on
    the path, and when it is marked validated so is the whole path. *)
Theorem cumulative_work_is_path_work : ∀ c id e,
  reachable c → connected c !! id = Some e →
  ∃ ancestors, ancestry (connected c) id (e :: ancestors) ∧
    (∀ l, ancestry (connected c) id l → l = e :: ancestors) ∧
    share_height (cs_share e) = Z.of_nat (length ancestors) ∧
    arr_Z (cumulative_work e) =
      sum_by (λ x, arr_Z (share_difficulty (cs_share x))) (e :: ancestors) ∧
    (validated_ancestry e = true →
     Forall (λ x, validated_ancestry x = true) (e :: ancestors)).
Proof.
  intros c id e Hc He. apply reachable_good in Hc as [Hinv _].
  destruct (ancestry_total c id e Hinv He) as (l & Hl & Hh & Hw).
  exists l. split; [done|]. split; [intros k Hk; by eapply ancestry_unique|].
  split; [done|]. split; [done|]. by eapply ancestry_validated.
Qed.

(** C4: the fork choice converges.  Two chains that hold the same connected
    shares agree on the best tip, whatever the order in which the shares
    arrived, were orphaned, revalidated, restored or pruned; and that tip has
    the most cumulative work. *)
Theorem best_tip_convergence : ∀ c1 c2,
  reachable c1 → reachable c2 →
  cs_share <$> connected c1 = cs_share <$> connected c2 →
  best_tip_id c1 = best_tip_id c2 ∧
  ∀ tip, best_tip c1 = Some tip → ∀ id e, connected c1 !! id = Some e →
    arr_Z (cumulative_work e) ≤ arr_Z (cumulative_work tip).
Proof.
  intros c1 c2 H1 H2 E. apply reachable_good in H1 as [H1 _], H2 as [H2 _].
  split; [by apply best_tip_same|]. unfold best_tip, find. intros tip Htip id e He.
  pose proof (pi_best _ _ _ H1) as Hb. unfold best_ok in Hb.
  destruct (best_tip_id c1) as [b|]; [|done]. simpl in Htip.
  destruct Hb as (t & Ht & Hmax). rewrite Htip in Ht. injection Ht as ->.
  destruct (decide (id = b)) as [->|Hne]; [by rewrite He in Htip; injection Htip as ->|].
  pose proof (Hmax id e He Hne) as Hbt. apply better_tip_spec in Hbt.
  unfold tip_work in Hbt. lia.
Qed.


(** Admission of a prevalidated share is total.  On a chain with timestamps
    before 2106 a canonical share is always answered, the promotion of its
    orphaned descendants included; a share without canonical encoding throws
    and leaves the chain as it was. *)
Theorem add_share_total : ∀ c share pow enforce,
  reachable c → share_wf share → time_ok share → pow_ok pow →
  (enforce = true → enforces_sidechain_difficulty c = true) →
  match add_prevalidated_share share pow enforce c with
  | (Ok r, c') => share_canonical share = true ∧ chain_inv c' ∧
                  (disposition r = Connected → contains c' (result_id r) = true) ∧
                  (disposition r = Orphan → is_orphan c' (result_id r) = true)
  | (Throw _, c') => share_canonical share = false ∧ c' = c
  end.
Proof.
  intros c share pow enforce Hc Hwf Ht Hpow Henf. apply reachable_good in Hc as [Hinv Htimes].
  pose proof (add_prevalidated_outcome c share pow enforce Hinv Hwf Hpow Henf) as Ho.
  destruct (add_prevalidated_share share pow enforce c) as [[r|x] c'].
  2: { inversion Ho; subst; [done|tauto]. }
  assert (share_canonical share = true) as Hcan.
  { pose proof (share_id_canonical share) as Hid. destruct (share_canonical share); [done|].
    destruct Hid as [x Hx]. inversion Ho; subst; try congruence.
    match goal with H : connectable _ _ _ _ _ |- _ => pose proof (cn_share_id _ _ _ _ _ H) end.
    congruence. }
  split; [done|]. split; [by eapply add_outcome_inv|].
  unfold contains, is_orphan. inversion Ho; subst; split; try done; intros _;
    apply bool_decide_eq_true; cbn.
  - by rewrite lookup_insert_eq.
  - match goal with H : promotes _ _ |- _ => pose proof (pr_connected _ _ H) as Hsub end.
    eexists. eapply lookup_weaken; [|exact Hsub]. cbn. by rewrite lookup_insert_eq.
Qed.

(** An exception out of [submit_share] (an unencodable share, a ProgPoWZ
    failure) leaves the chain untouched. *)
Theorem submit_share_throw_atomic : ∀ c share ctx now mode x c',
  reachable c → share_wf share → time_ok share → is_u64 now →
  submit_share share ctx now mode c = (Throw x, c') → c' = c.
Proof.
  intros c share ctx now mode x c' Hc Hwf Ht Hnow Hout.
  apply reachable_good in Hc as [Hinv Htimes].
  destruct (submit_outcome _ _ _ _ _ _ Hinv Hwf Hnow Hout)
    as [[Ec _]|(v & _ & _ & Ho)]; [done|].
  inversion Ho; subst; [done|tauto].
Qed.

(** Revalidation never changes what the chain contains.  The result differs
    from the chain before in validation verdicts at most, and these only go
    from unvalidated to validated; [Validated] is reported exactly when the
    share was marked, which takes a proven PoW and a validated parent. *)
Theorem revalidate_share_sound : ∀ c id ctx now mode r c',
  reachable c → is_u64 now →
  revalidate_connected_share id ctx now mode c = (Ok r, c') →
  marks c c' ∧ chain_inv c' ∧
  match reval_status r with
  | Validated => ∃ e v, connected c !! id = Some e ∧ validated_ancestry e = false ∧
      proven (cs_share e) ctx now mode v ∧ markable c e ∧ c' = mark id e v c
  | _ => c' = c
  end.
Proof.
  intros c id ctx now mode r c' Hc Hnow Hout. apply reachable_good in Hc as [Hinv _].
  destruct (revalidate_inv _ _ _ _ _ _ _ Hinv Hnow Hout) as [Hinv' Hm].
  split; [done|]. split; [done|].
  destruct (revalidate_outcome _ _ _ _ _ _ Hinv Hnow Hout)
    as [[Ec Hs]|(e & v & He & Hv & Hmk & Hp & _ & E)].
  - simpl in *. subst c'. by destruct (reval_status r).
  - injection E as -> ->. simpl. exists e, v. done.
Qed.

(** The replay-validation snapshot is complete and parent-first.  It never
    throws on a configured chain; it lists exactly the validated shares with
    their verdicts, each once, and every share after its parent. *)
Theorem replay_snapshot_complete : ∀ c,
  reachable c → enforces_sidechain_difficulty c = true →
  ∃ records, replay_validation_snapshot c = Ok records ∧
    NoDup (rec_share_id <$> records) ∧
    (∀ id v, mkRecord id v ∈ records ↔
       ∃ e, connected c !! id = Some e ∧ validated_ancestry e = true ∧
            pow_validation e = Some v) ∧
    (∀ pre r post e, records = pre ++ r :: post →
       connected c !! rec_share_id r = Some e → is_root (cs_share e) = false →
       parent_id (cs_share e) ∈ rec_share_id <$> pre).
Proof.
  intros c Hc Henf. apply reachable_good in Hc as [Hinv _].
  exists (omap entry_record (snapshot_entries c)). split; [by apply snapshot_ok|].
  split.
  { rewrite entry_record_ids; [by apply snapshot_entries_nodup|].
    intros e. by apply snapshot_validated. }
  split; [intros id v; rewrite elem_of_snapshot by done; unfold validated_entry; naive_solver|].
  intros pre r post e Hsplit He Hr. by eapply snapshot_parent_first.
Qed.

(** Restoring a snapshot is all or nothing.  Whatever the records say, a
    restoration that throws changes nothing, and one that returns keeps the
    invariant and only turns unvalidated shares into validated ones. *)
Theorem restore_atomic : ∀ c records,
  reachable c →
  match restore_replay_validation records c with
  | (Ok _, c') => chain_inv c' ∧ marks c c'
  | (Throw _, c') => c' = c
  end.
Proof.
  intros c records Hc. apply reachable_good in Hc as [Hinv _].
  pose proof (restore_sound c records _ Hinv eq_refl) as Hr.
  by destruct (restore_replay_validation records c) as [[n|x] c'].
Qed.

(** A snapshot survives a restart.  Let [c0] be a chain with the same shares
    as [c], of which [c] has marked some as validated.  Restoring the snapshot
    taken from [c] into [c0], its records in any order, succeeds and gives
    exactly [c]. *)
Theorem restore_snapshot_roundtrip : ∀ c0 c records recs,
  reachable c0 → reachable c → marks c0 c →
  (∀ id, is_Some (connected c !! id) → is_zero_share_id id = false) →
  replay_validation_snapshot c = Ok records → recs ≡ₚ records →
  ∃ restored, restore_replay_validation recs c0 = (Ok restored, c).
Proof.
  intros c0 c records recs H0 Hc Hm Hnz Hs Hperm.
  apply reachable_good in H0 as [H0 _], Hc as [Hinv _].
  assert (enforces_sidechain_difficulty c = true) as Henf.
  { unfold replay_validation_snapshot in Hs. res_inv. by bool_prop. }
  rewrite snapshot_ok in Hs by done. injection Hs as <-. by apply restore_snapshot.
Qed.

(** Pruning removes exactly the subtree.  It always returns the sorted list
    of the share and all its descendants (nothing for an unknown share), these
    are gone from the chain, every other share keeps its entry, the orphans are
    untouched and the best tip is again the best of what is left. *)
Theorem prune_removes_subtree : ∀ c root,
  reachable c →
  ∃ removed c', prune_connected_subtree_ids root c = (Ok removed, c') ∧
    NoDup removed ∧
    (∀ i, i ∈ removed ↔ is_Some (connected c !! root) ∧ descendant (connected c) root i) ∧
    (∀ i, connected c' !! i = if decide (i ∈ removed) then None else connected c !! i) ∧
    orphans c' = orphans c ∧ best_ok (connected c') (best_tip_id c') ∧ chain_inv c'.
Proof.
  intros c root Hc. apply reachable_good in Hc as [Hinv _]. by apply prune_exact.
Qed.

(** [is_on_best_chain] decides membership in the path from the best tip to
    its root, and [is_stale] is membership in the chain off that path; the walk
    ends within as many steps as there are connected shares. *)
Theorem is_on_best_chain_spec : ∀ c id tip l,
  reachable c → best_tip c = Some tip → ancestry (connected c) (cs_id tip) l →
  (is_on_best_chain c id = true ↔ id ∈ cs_id <$> l) ∧
  (is_stale c id = true ↔ is_Some (connected c !! id) ∧ id ∉ cs_id <$> l).
Proof.
  intros c id tip l Hc Htip Hanc. apply reachable_good in Hc as [Hinv _].
  assert (is_on_best_chain c id = true ↔ id ∈ cs_id <$> l) as Hon.
  { unfold is_on_best_chain. rewrite Htip. by apply best_chain_walk. }
  split; [done|]. unfold is_stale, contains.
  rewrite andb_true_iff, bool_decide_eq_true, negb_true_iff, <-not_true_iff_false, Hon. done.
Qed.

End Spec.

(** ** Instances on a concrete pool *)

Lemma reachable_chain_inv_witness : chain_inv demo_c3.
Proof. exact (@reachable_chain_inv demo_pow demo_c3 demo_c3_reachable). Defined.

Lemma cumulative_work_witness :
  ∃ ancestors, ancestry (connected demo_c3) demo_tip_id (demo_tip_entry :: ancestors) ∧
    length ancestors = 2%nat.
Proof.
  destruct (@cumulative_work_is_path_work demo_pow demo_c3 demo_tip_id demo_tip_entry
    demo_c3_reachable demo_c3_tip) as (l & Hl & _ & Hh & _).
  exists l. split; [exact Hl|]. simpl in Hh. lia.
Defined.

Lemma best_tip_convergence_witness : best_tip_id demo_c3 = best_tip_id demo_d3.
Proof.
  exact (proj1 (@best_tip_convergence demo_pow demo_c3 demo_d3 demo_c3_reachable
    demo_d3_reachable demo_same_shares)).
Defined.


Lemma add_share_total_witness :
  chain_inv (add_prevalidated_share demo_child None false demo_c1).2.
Proof.
  pose proof (@add_share_total demo_pow demo_c1 demo_child None false demo_c1_reachable
    (proj1 demo_child_wf) (proj2 demo_child_wf) I ltac:(discriminate)) as H.
  rewrite (fst_eq _ _ demo_add_child) in H. apply H.
Defined.

Lemma submit_share_throw_witness :
  (@submit_share demo_pow demo_high demo_high_ctx demo_now Light demo_c1).2 = demo_c1.
Proof.
  refine (@submit_share_throw_atomic demo_pow demo_c1 demo_high demo_high_ctx demo_now Light
    demo_high_error _ demo_c1_reachable _ _ demo_now_u64 (fst_eq _ _ demo_submit_high)).
  - by split.
  - vm_compute. discriminate.
Defined.

Lemma revalidate_share_witness :
  marks demo_u3
    (@revalidate_connected_share demo_pow demo_root_id demo_ctx demo_now Light demo_u3).2.
Proof.
  exact (proj1 (@revalidate_share_sound demo_pow demo_u3 demo_root_id demo_ctx demo_now Light
    _ _ demo_u3_reachable demo_now_u64 (fst_eq _ _ demo_reval_root))).
Defined.

Lemma replay_snapshot_witness :
  ∃ records, replay_validation_snapshot demo_c3 = Ok records ∧ NoDup (rec_share_id <$> records).
Proof.
  destruct (@replay_snapshot_complete demo_pow demo_c3 demo_c3_reachable demo_c3_enforces)
    as (records & Hr & Hnd & _).
  exists records. split; [exact Hr|exact Hnd].
Defined.

Lemma restore_atomic_witness :
  match restore_replay_validation demo_bad_records demo_u3 with
  | (Ok _, c') => chain_inv c' ∧ marks demo_u3 c'
  | (Throw _, c') => c' = demo_u3
  end.
Proof. exact (@restore_atomic demo_pow demo_u3 demo_bad_records demo_u3_reachable). Defined.

Lemma restore_roundtrip_witness :
  ∃ restored,
    restore_replay_validation (reverse (omap entry_record (snapshot_entries demo_v3))) demo_u3
    = (Ok restored, demo_v3).
Proof.
  exact (@restore_snapshot_roundtrip demo_pow demo_u3 demo_v3 _ _ demo_u3_reachable
    (proj1 demo_v3_ok) (proj2 demo_v3_ok) demo_ids_nonzero demo_snapshot_ok
    (reverse_Permutation _)).
Defined.

Lemma prune_witness :
  ∃ removed c', prune_connected_subtree_ids demo_child_id demo_c3 = (Ok removed, c') ∧ chain_inv c'.
Proof.
  destruct (@prune_removes_subtree demo_pow demo_c3 demo_child_id demo_c3_reachable)
    as (removed & c' & E & _ & _ & _ & _ & _ & Hinv).
  exists removed, c'. split; [exact E|exact Hinv].
Defined.

Lemma is_on_best_chain_witness : is_on_best_chain demo_c3 (cs_id demo_tip_entry) = true.
Proof.
  destruct demo_tip_path as [l Hl].
  destruct (@is_on_best_chain_spec demo_pow demo_c3 (cs_id demo_tip_entry) demo_tip_entry
    (demo_tip_entry :: l) demo_c3_reachable demo_c3_best Hl) as [[_ Hon] _].
  apply Hon. left.
Defined.
