(* ===== verification/Pplns.v ===== *)
(** The PPLNS window and the division of a reward:
    [include/zano_p2pool/pplns.hpp], [src/pplns.cpp].

    [cpp_int] is [Z]; the [std::map<MinerId, CreditedWork>] accumulators are
    [gmap]s, iterated in key order. *)
From S2P Require Import Prelude CryptoHash PowTarget Share SidechainParams Difficulty ShareChain.
From S2P Require Import ChainWork ChainInv ChainPromote ChainAdmit ChainReplay ChainPrune.
From S2P Require Import ChainHistory.

(** ** Data *)

Record PplnsMinerWork := mkMinerWork {
  pm_miner_id : MinerId;
  pm_work : ChainWork;
  pm_payout : option PayoutPublicKeys }.

Record PplnsWindow := mkWindow {
  requested_work : ChainWork;
  covered_work : ChainWork;
  included_shares : nat;
  complete : bool;
  miners : list PplnsMinerWork }.

Record PplnsPayout := mkPplnsPayout {
  pp_miner_id : MinerId;
  pp_work : ChainWork;
  pp_amount : Z;
  pp_payout : option PayoutPublicKeys }.

Definition empty_window : PplnsWindow := mkWindow (arr_zero 32) (arr_zero 32) 0 false [].

Definition work_to_int (work : ChainWork) : Z :=
  fold_left (λ value b, Z.lor (Z.shiftl value 8) (byte_to_Z b)) (vec_to_list work) 0.

Definition int_to_work (value : Z) : res ChainWork :=
  _ ← throw_if (value <? 0) InvalidArgument "PPLNS work cannot be negative";
  _ ← throw_if (negb (Nat.iter 32 (λ v, Z.shiftr v 8) value =? 0)) OverflowError
        "PPLNS work exceeds 256 bits";
  mret (fill_be 32 value).

Record CreditedWork := mkCredit { cw_work : Z; cw_payout : option PayoutPublicKeys }.
#[export] Instance CreditedWork_eq_dec : EqDecision CreditedWork.
Proof. solve_decision. Defined.

(** [credited[miner]], which default-constructs a missing row. *)
Definition credit_of (m : gmap MinerId CreditedWork) (miner : MinerId) : CreditedWork :=
  default (mkCredit 0 None) (m !! miner).

Definition require_validated_payout_ancestry (c : ShareChain) (e : ConnectedShare) : res () :=
  throw_if (enforces_sidechain_difficulty c && negb (validated_ancestry e)) LogicError
    "PPLNS encountered connected share without validated ancestry".

Definition merge_payout_identity (credited : CreditedWork) (share : Share) : res CreditedWork :=
  match payout share with
  | None => Ok credited
  | Some p =>
      _ ← throw_if (negb (version share =? kShareVersion2) ||
                    negb (arr_eqb (miner_id share) (miner_id_from_payout p))) LogicError
            "PPLNS encountered invalid v2 payout binding";
      _ ← throw_if (match cw_payout credited with
                    | Some q => negb (bool_decide (q = p))
                    | None => false
                    end) LogicError
            "PPLNS MinerId has conflicting payout identities";
      mret (mkCredit (cw_work credited) (Some p))
  end.

(** ** The window *)

(** The body of the traversal up to [++included_shares]. *)
Definition credit_share (c : ShareChain) (current : ConnectedShare) (remaining : Z)
    (credited : gmap MinerId CreditedWork) : res (Z * gmap MinerId CreditedWork) :=
  _ ← require_validated_payout_ancestry c current;
  w ← share_work (share_difficulty (cs_share current));
  let current_work := work_to_int w in
  _ ← throw_if (current_work =? 0) LogicError "connected share has zero work";
  let included := Z.min current_work remaining in
  let miner := miner_id (cs_share current) in
  let row := credit_of credited miner in
  row ← merge_payout_identity (mkCredit (cw_work row + included) (cw_payout row))
          (cs_share current);
  mret (remaining - included, <[miner := row]> credited).

(** The traversal; [fuel] bounds the steps, and [size connected] steps always
    reach the root ([pplns_loop_ok] below). *)
Fixpoint pplns_loop (fuel : nat) (c : ShareChain) (current : ConnectedShare) (remaining : Z)
    (included_shares : nat) (credited : gmap MinerId CreditedWork)
    : res (Z * nat * gmap MinerId CreditedWork) :=
  match fuel with
  | O => throw LogicError fuel_exhausted
  | S f =>
      if remaining =? 0 then Ok (remaining, included_shares, credited) else
      st ← credit_share c current remaining credited;
      let '(remaining, credited) := st in
      if (remaining =? 0) || is_zero_share_id (parent_id (cs_share current))
      then mret (remaining, S included_shares, credited)
      else match find c (parent_id (cs_share current)) with
           | None => throw LogicError
                       "best-chain PPLNS traversal encountered a missing parent"
           | Some parent => pplns_loop f c parent remaining (S included_shares) credited
           end
  end.

(** The rows of the result, in miner order, rows without work left out. *)
Fixpoint window_rows (credited : list (MinerId * CreditedWork)) : res (list PplnsMinerWork) :=
  match credited with
  | [] => Ok []
  | (miner, row) :: rest =>
      if cw_work row =? 0 then window_rows rest
      else
        w ← int_to_work (cw_work row);
        rows ← window_rows rest;
        mret (mkMinerWork miner w (cw_payout row) :: rows)
  end.

Definition find_parent (c : ShareChain) (parent : ShareId) : res (option ConnectedShare) :=
  if is_zero_share_id parent then Ok None
  else match find c parent with
       | None => throw InvalidArgument "PPLNS parent is not connected"
       | Some e => Ok (Some e)
       end.

Definition build_pplns_window_at_parent (c : ShareChain) (parent : ShareId)
    (requested_work : ChainWork) : res PplnsWindow :=
  let requested := work_to_int requested_work in
  _ ← throw_if (requested =? 0) InvalidArgument "PPLNS requested work must be nonzero";
  current ← find_parent c parent;
  st ← match current with
       | None => Ok (requested, 0%nat, ∅)
       | Some e => pplns_loop (S (size (connected c))) c e requested 0 ∅
       end;
  let '(remaining, included, credited) := st in
  covered ← int_to_work (requested - remaining);
  rows ← window_rows (map_sorted credited);
  mret (mkWindow requested_work covered included (remaining =? 0) rows).

(** The summation loop of the sidechain window. *)
Fixpoint recent_loop (room : nat) (c : ShareChain) (current : ConnectedShare) (recent : Z)
    : res Z :=
  match room with
  | O => Ok recent
  | S room' =>
      _ ← require_validated_payout_ancestry c current;
      w ← share_work (share_difficulty (cs_share current));
      let current_work := work_to_int w in
      _ ← throw_if (current_work =? 0) LogicError "connected share has zero work";
      let recent := recent + current_work in
      if is_zero_share_id (parent_id (cs_share current)) then mret recent
      else match find c (parent_id (cs_share current)) with
           | None => throw LogicError
                       "best-chain PPLNS traversal encountered a missing parent"
           | Some parent => recent_loop room' c parent recent
           end
  end.

Definition build_sidechain_pplns_window_at_parent (c : ShareChain) (parent : ShareId)
    (params : SidechainParameters) (network_difficulty : Difficulty128) : res PplnsWindow :=
  _ ← throw_if ((pplns_window_shares params =? 0) ||
                (kCanonicalPplnsWindowShares <? pplns_window_shares params)) InvalidArgument
        "sidechain PPLNS share window must be between 1 and 31";
  _ ← throw_if (pplns_max_network_difficulty_multiplier params =? 0) InvalidArgument
        "sidechain PPLNS network-difficulty multiplier must be nonzero";
  _ ← throw_if (difficulty128_is_zero network_difficulty) InvalidArgument
        "sidechain PPLNS network difficulty must be nonzero";
  current ← find_parent c parent;
  match current with
  | None => mret empty_window
  | Some e =>
      recent_work ← recent_loop (Z.to_nat (pplns_window_shares params)) c e 0;
      network_work ← share_work network_difficulty;
      let work_cap := work_to_int network_work * pplns_max_network_difficulty_multiplier params in
      let requested := Z.min recent_work work_cap in
      _ ← throw_if (requested <=? 0) LogicError "sidechain PPLNS policy produced zero work";
      w ← int_to_work requested;
      result ← build_pplns_window_at_parent c parent w;
      _ ← throw_if (negb (complete result) ||
                    (pplns_window_shares params <? Z.of_nat (included_shares result))) LogicError
            "sidechain PPLNS policy bound was violated";
      mret result
  end.

Definition tip_id (c : ShareChain) : ShareId :=
  match best_tip c with Some tip => cs_id tip | None => arr_zero 32 end.

Definition build_pplns_window (c : ShareChain) (requested_work : ChainWork) : res PplnsWindow :=
  build_pplns_window_at_parent c (tip_id c) requested_work.

Definition build_sidechain_pplns_window (c : ShareChain) (params : SidechainParameters)
    (network_difficulty : Difficulty128) : res PplnsWindow :=
  build_sidechain_pplns_window_at_parent c (tip_id c) params network_difficulty.

(** ** Dividing the reward *)

Fixpoint aggregate_rows (rows : list PplnsMinerWork) (credited : gmap MinerId CreditedWork)
    : res (gmap MinerId CreditedWork) :=
  match rows with
  | [] => Ok credited
  | row :: rest =>
      let work := work_to_int (pm_work row) in
      if work =? 0 then aggregate_rows rest credited else
      let aggregate := credit_of credited (pm_miner_id row) in
      new_payout ←
        match pm_payout row with
        | None => Ok (cw_payout aggregate)
        | Some p =>
            _ ← throw_if (negb (arr_eqb (pm_miner_id row) (miner_id_from_payout p))) LogicError
                  "PPLNS row has invalid payout binding";
            _ ← throw_if (match cw_payout aggregate with
                          | Some q => negb (bool_decide (q = p))
                          | None => false
                          end) LogicError "PPLNS payout rows conflict for one MinerId";
            mret (Some p)
        end;
      aggregate_rows rest
        (<[pm_miner_id row := mkCredit (cw_work aggregate + work) new_payout]> credited)
  end.

Record FractionalRow := mkFractional {
  fr_miner_id : MinerId;
  fr_remainder : Z;
  fr_index : nat }.

(** The comparator of [std::sort]: larger remainder first, then smaller id. *)
Definition fractional_lt (l r : FractionalRow) : bool :=
  if negb (fr_remainder l =? fr_remainder r) then fr_remainder r <? fr_remainder l
  else arr_lt (fr_miner_id l) (fr_miner_id r).
Definition fractional_le (l r : FractionalRow) : Prop := fractional_lt r l = false.
#[export] Instance fractional_le_dec l r : Decision (fractional_le l r).
Proof. unfold fractional_le. apply _. Defined.

(** The floor allocation, in miner order.  [quotient.convert_to<uint64_t>] keeps
    the low 64 bits; the quotient never exceeds the reward. *)
Fixpoint allocate_floor (rows : list (MinerId * CreditedWork)) (total_work reward : Z)
    (allocated : Z) (index : nat) : res (list PplnsPayout * list FractionalRow * Z) :=
  match rows with
  | [] => Ok ([], [], allocated)
  | (miner, row) :: rest =>
      let numerator := reward * cw_work row in
      let amount := wrap64 (numerator / total_work) in
      _ ← throw_if (wrap64 (reward - allocated) <? amount) OverflowError
            "PPLNS reward allocation overflow";
      w ← int_to_work (cw_work row);
      st ← allocate_floor rest total_work reward (wrap64 (allocated + amount)) (S index);
      let '(payouts, fractional, allocated) := st in
      mret (mkPplnsPayout miner w amount (cw_payout row) :: payouts,
            mkFractional miner (numerator mod total_work) index :: fractional, allocated)
  end.

Definition bump (p : PplnsPayout) : PplnsPayout :=
  mkPplnsPayout (pp_miner_id p) (pp_work p) (wrap64 (pp_amount p + 1)) (pp_payout p).

Definition allocate_pplns_reward (window : PplnsWindow) (reward_atomic : Z)
    : res (list PplnsPayout) :=
  credited ← aggregate_rows (miners window) ∅;
  if bool_decide (credited = ∅) then mret [] else
  let rows := map_sorted credited in
  let total_work := sum_by (λ r, cw_work r.2) rows in
  _ ← throw_if (total_work =? 0) LogicError "PPLNS payout has no credited work";
  st ← allocate_floor rows total_work reward_atomic 0 0;
  let '(payouts, fractional, allocated) := st in
  let leftover := wrap64 (reward_atomic - allocated) in
  _ ← throw_if (Z.of_nat (length fractional) <? leftover) LogicError
        "PPLNS largest-remainder invariant exceeded miner count";
  let sorted := merge_sort fractional_le fractional in
  mret (foldl (λ ps f, alter bump (fr_index f) ps) payouts (take (Z.to_nat leftover) sorted)).
