(* ===== verification/PplnsReward.v ===== *)
(** Correctness of the reward division: it never fails on consistent rows, pays
    out exactly the reward, and follows the largest-remainder rule. *)
From S2P Require Import Prelude CryptoHash PowTarget Share SidechainParams Difficulty ShareChain.
From S2P Require Import ChainWork Pplns.

Lemma work_to_int_Z w : work_to_int w = arr_Z w.
Proof. unfold work_to_int. by rewrite shift_or_be by lia. Qed.

Lemma work256_range (w : ChainWork) : 0 ≤ arr_Z w ≤ u256_max.
Proof. pose proof (arr_Z_range w) as H. change (pow256 32) with (u256_max + 1) in H. lia. Qed.

Lemma int_to_work_ok z :
  0 ≤ z ≤ u256_max → int_to_work z = Ok (fill_be 32 z) ∧ arr_Z (fill_be 32 z) = z.
Proof.
  intros Hz. split.
  - unfold int_to_work. rewrite (proj2 (Z.ltb_ge z 0)) by lia. cbn [throw_if mbind res_bind].
    rewrite (proj2 (Z.eqb_eq _ 0)); [done|]. apply shiftr8_iter_zero; [lia|].
    change (pow256 32) with (u256_max + 1). lia.
  - rewrite arr_Z_fill_be. apply Z.mod_small. change (pow256 32) with (u256_max + 1). lia.
Qed.

(** ** Aggregating rows *)

Definition row_work (r : PplnsMinerWork) : Z := arr_Z (pm_work r).

(** The work of one miner over all its rows. *)
Definition miner_total (rows : list PplnsMinerWork) (k : MinerId) : Z :=
  sum_by row_work (filter (λ r, pm_miner_id r = k) rows).

Record rows_ok (rows : list PplnsMinerWork) : Prop := {
  ro_bound : ∀ r p, r ∈ rows → pm_payout r = Some p → pm_miner_id r = miner_id_from_payout p;
  ro_agree : ∀ r1 r2 p q, r1 ∈ rows → r2 ∈ rows → pm_miner_id r1 = pm_miner_id r2 →
    pm_payout r1 = Some p → pm_payout r2 = Some q → p = q;
  ro_fits : sum_by row_work rows ≤ u256_max }.

Lemma miner_total_cons r rows k :
  miner_total (r :: rows) k =
  (if decide (pm_miner_id r = k) then row_work r else 0) + miner_total rows k.
Proof. unfold miner_total. rewrite filter_cons. by destruct (decide _). Qed.

Lemma miner_total_nonneg rows k : 0 ≤ miner_total rows k.
Proof. apply sum_by_nonneg. intros r _. apply (work256_range (pm_work r)). Qed.

(** What the accumulator holds while the rows [seen] have been added. *)
Record credited_ok (all : list PplnsMinerWork) (work : MinerId → Z)
    (m : gmap MinerId CreditedWork) : Prop := {
  co_work : ∀ k, cw_work (credit_of m k) = work k;
  co_pos : ∀ k row, m !! k = Some row → 0 < cw_work row;
  co_payout : ∀ k row p, m !! k = Some row → cw_payout row = Some p →
    ∃ r, r ∈ all ∧ pm_miner_id r = k ∧ pm_payout r = Some p }.

(** The payout a row leaves in its miner's accumulator. *)
Definition row_payout (r : PplnsMinerWork) (old : option PayoutPublicKeys)
    : res (option PayoutPublicKeys) :=
  match pm_payout r with
  | None => Ok old
  | Some p =>
      _ ← throw_if (negb (arr_eqb (pm_miner_id r) (miner_id_from_payout p))) LogicError
            "PPLNS row has invalid payout binding";
      _ ← throw_if (match old with
                    | Some q => negb (bool_decide (q = p))
                    | None => false
                    end) LogicError "PPLNS payout rows conflict for one MinerId";
      mret (Some p)
  end.

Lemma row_payout_ok all r old :
  rows_ok all → r ∈ all →
  (∀ p, old = Some p → ∃ r', r' ∈ all ∧ pm_miner_id r' = pm_miner_id r ∧ pm_payout r' = Some p) →
  ∃ np, row_payout r old = Ok np ∧
    ∀ p, np = Some p → ∃ r', r' ∈ all ∧ pm_miner_id r' = pm_miner_id r ∧ pm_payout r' = Some p.
Proof.
  intros Hok Hr Hold. unfold row_payout. destruct (pm_payout r) as [p|] eqn:Ep; [|by exists old].
  rewrite (proj2 (arr_eqb_true _ _) (ro_bound _ Hok r p Hr Ep)). simpl.
  exists (Some p). split; [|intros q [= <-]; by exists r].
  destruct old as [q|]; [|done]. destruct (Hold q eq_refl) as (r' & Hr' & Hid & Hq).
  rewrite (ro_agree _ Hok r' r q p Hr' Hr Hid Hq Ep). by rewrite bool_decide_true.
Qed.

Lemma credited_insert all work m r np :
  credited_ok all work m → 0 < row_work r →
  (∀ p, np = Some p → ∃ r', r' ∈ all ∧ pm_miner_id r' = pm_miner_id r ∧ pm_payout r' = Some p) →
  credited_ok all (λ k, work k + (if decide (pm_miner_id r = k) then row_work r else 0))
    (<[pm_miner_id r := mkCredit (cw_work (credit_of m (pm_miner_id r)) + row_work r) np]> m).
Proof.
  intros [H1 H2 H3] Hpos Hnp. split.
  - intros k. unfold credit_of at 1. destruct (decide (pm_miner_id r = k)) as [<-|].
    + rewrite lookup_insert_eq. simpl. by rewrite H1.
    + rewrite lookup_insert_ne by done. fold (credit_of m k). rewrite H1. lia.
  - intros k row Hrow. destruct (decide (pm_miner_id r = k)) as [<-|].
    + rewrite lookup_insert_eq in Hrow. injection Hrow as <-. simpl.
      unfold credit_of. destruct (m !! pm_miner_id r) as [row|] eqn:Em; simpl; [|lia].
      pose proof (H2 _ _ Em). lia.
    + rewrite lookup_insert_ne in Hrow by done. eauto.
  - intros k row p Hrow Hp. destruct (decide (pm_miner_id r = k)) as [<-|].
    + rewrite lookup_insert_eq in Hrow. injection Hrow as <-. by apply Hnp.
    + rewrite lookup_insert_ne in Hrow by done. eauto.
Qed.

Lemma credited_ext all work work' m :
  (∀ k, work k = work' k) → credited_ok all work m → credited_ok all work' m.
Proof. intros E [H1 H2 H3]. split; try done. intros k. by rewrite H1. Qed.

Lemma aggregate_rows_ok all rows : ∀ work m,
  rows_ok all → (∀ r, r ∈ rows → r ∈ all) → credited_ok all work m →
  ∃ m', aggregate_rows rows m = Ok m' ∧
    credited_ok all (λ k, work k + miner_total rows k) m'.
Proof.
  induction rows as [|r rows IH]; intros work m Hok Hsub Hm.
  { exists m. split; [done|]. eapply credited_ext; [|done]. intros k.
    unfold miner_total. simpl. lia. }
  assert (∀ r, r ∈ rows → r ∈ all) as Hsub' by (intros; apply Hsub; by right).
  simpl. rewrite work_to_int_Z. fold (row_work r).
  pose proof (work256_range (pm_work r)) as Hrange. fold (row_work r) in Hrange.
  destruct (Z.eqb_spec (row_work r) 0) as [E0|E0].
  { destruct (IH work m Hok Hsub' Hm) as (m' & -> & Hm'). exists m'. split; [done|].
    eapply credited_ext; [|done]. intros k. simpl. rewrite miner_total_cons, E0.
    destruct (decide _); lia. }
  fold (row_payout r (cw_payout (credit_of m (pm_miner_id r)))).
  destruct (row_payout_ok all r (cw_payout (credit_of m (pm_miner_id r))) Hok
    (Hsub r ltac:(left))) as (np & -> & Hnp).
  { intros p Hp. unfold credit_of in Hp. destruct (m !! pm_miner_id r) as [row|] eqn:Em; [|done].
    by eapply (co_payout _ _ _ Hm). }
  cbn [mbind res_bind].
  assert (0 < row_work r) as Hpos by lia.
  destruct (IH _ _ Hok Hsub' (credited_insert _ _ _ _ np Hm Hpos Hnp)) as (m' & -> & Hm').
  exists m'. split; [done|]. eapply credited_ext; [|done]. intros k. simpl.
  rewrite miner_total_cons. lia.
Qed.

(** ** The floor allocation *)

Section Floor.
Context (total reward : Z) (Htotal : 0 < total) (Hreward : is_u64 reward).

Definition share_floor (w : Z) : Z := reward * w / total.
Definition share_rem (w : Z) : Z := (reward * w) mod total.

Definition floor_payout (r : MinerId * CreditedWork) : PplnsPayout :=
  mkPplnsPayout r.1 (fill_be 32 (cw_work r.2)) (share_floor (cw_work r.2)) (cw_payout r.2).

Definition floor_rows (index : nat) (rows : list (MinerId * CreditedWork)) : list FractionalRow :=
  imap (λ i r, mkFractional r.1 (share_rem (cw_work r.2)) (index + i)) rows.

Definition floor_sum (rows : list (MinerId * CreditedWork)) : Z :=
  sum_by (λ r, share_floor (cw_work r.2)) rows.

Lemma share_floor_nonneg w : 0 ≤ w → 0 ≤ share_floor w.
Proof using All.
  intros Hw. unfold share_floor. apply Z.div_pos; [|done]. unfold is_u64 in Hreward. nia.
Qed.

Lemma floor_sum_nonneg rows :
  (∀ r, r ∈ rows → 0 ≤ cw_work r.2) → 0 ≤ floor_sum rows.
Proof using All.
  intros Hw. apply sum_by_nonneg. intros r Hr. apply share_floor_nonneg. by apply Hw.
Qed.

Lemma floor_rows_cons index r rows :
  floor_rows index (r :: rows) =
  mkFractional r.1 (share_rem (cw_work r.2)) index :: floor_rows (S index) rows.
Proof using Type.
  unfold floor_rows. simpl. rewrite Nat.add_0_r. f_equal. apply imap_ext. intros i x Hx.
  simpl. f_equal. lia.
Qed.

Lemma allocate_floor_ok rows : ∀ allocated index,
  (∀ r, r ∈ rows → 0 ≤ cw_work r.2 ≤ u256_max) →
  0 ≤ allocated → allocated + floor_sum rows ≤ reward →
  allocate_floor rows total reward allocated index =
  Ok (floor_payout <$> rows, floor_rows index rows, allocated + floor_sum rows).
Proof using All.
  unfold is_u64 in Hreward. pose proof share_floor_nonneg as Hfloor.
  induction rows as [|[k row] rows IH]; intros allocated index Hw Ha Hsum.
  { simpl. unfold floor_sum. simpl. by rewrite Z.add_0_r. }
  pose proof (Hw (k, row) ltac:(left)) as Hrow. simpl in Hrow.
  assert (∀ r, r ∈ rows → 0 ≤ cw_work r.2 ≤ u256_max) as Hw' by (intros; apply Hw; by right).
  assert (0 ≤ floor_sum rows) by (apply floor_sum_nonneg; intros r Hr; by apply Hw').
  unfold floor_sum in *. simpl in Hsum |- *. fold (share_floor (cw_work row)).
  pose proof (Hfloor (cw_work row) ltac:(lia)).
  rewrite (wrap64_id (share_floor _)) by (unfold is_u64; lia).
  rewrite (wrap64_id (reward - allocated)) by (unfold is_u64; lia).
  rewrite (proj2 (Z.ltb_ge (reward - allocated) _)) by lia. simpl.
  destruct (int_to_work_ok (cw_work row) Hrow) as [-> _]. simpl.
  rewrite (wrap64_id (allocated + _)) by (unfold is_u64; lia).
  rewrite IH by (done || lia). simpl. rewrite floor_rows_cons. csimpl.
  by rewrite Z.add_assoc.
Qed.

(** The floors miss the reward by the sum of the remainders over the total,
    which is less than the number of rows. *)
Lemma floor_leftover rows :
  sum_by (λ r, cw_work r.2) rows = total → rows ≠ [] →
  0 ≤ reward - floor_sum rows < Z.of_nat (length rows).
Proof using All.
  intros Hsum Hne.
  assert (reward * sum_by (λ r, cw_work r.2) rows =
    total * floor_sum rows + sum_by (λ r, share_rem (cw_work r.2)) rows) as E.
  { clear Hsum Hne. induction rows as [|r rows IH]; unfold floor_sum in *; simpl; [lia|].
    rewrite !Z.mul_add_distr_l, IH.
    pose proof (Z.div_mod (reward * cw_work r.2) total ltac:(lia)).
    unfold share_floor, share_rem. lia. }
  assert (0 ≤ sum_by (λ r, share_rem (cw_work r.2)) rows < total * Z.of_nat (length rows)) as Hr.
  { clear Hsum E. destruct rows as [|r rows]; [done|]. clear Hne.
    revert r. induction rows as [|r' rows IH]; intros r; simpl in *.
    - pose proof (Z.mod_pos_bound (reward * cw_work r.2) total Htotal). unfold share_rem. lia.
    - specialize (IH r'). simpl in IH.
      pose proof (Z.mod_pos_bound (reward * cw_work r.2) total Htotal). unfold share_rem in *. nia. }
  rewrite Hsum in E. nia.
Qed.

End Floor.

(** ** Handing out the leftover *)

Lemma bump_all_lookup (l : list nat) (ps : list PplnsPayout) i :
  NoDup l →
  foldl (λ ps j, alter bump j ps) ps l !! i =
  (if decide (i ∈ l) then bump else id) <$> ps !! i.
Proof.
  revert ps. induction l as [|j l IH]; intros ps Hnd; simpl; [by rewrite option_fmap_id|].
  apply NoDup_cons in Hnd as [Hni Hnd]. rewrite IH by done.
  destruct (decide (i = j)) as [->|Hne].
  - rewrite list_lookup_alter_eq. rewrite (decide_False (P := j ∈ l)) by done.
    rewrite decide_True by left. by rewrite option_fmap_id.
  - rewrite list_lookup_alter_ne by done.
    destruct (decide (i ∈ l)), (decide (i ∈ j :: l)) as [Hin|Hin]; try done.
    + exfalso. apply Hin. by right.
    + by apply elem_of_cons in Hin as [?|?].
Qed.

Lemma bump_all_length (l : list nat) (ps : list PplnsPayout) :
  length (foldl (λ ps j, alter bump j ps) ps l) = length ps.
Proof.
  revert ps. induction l as [|j l IH]; intros ps; simpl; [done|]. by rewrite IH, length_alter.
Qed.

Lemma sum_alter_bump (ps : list PplnsPayout) j p :
  ps !! j = Some p → wrap64 (pp_amount p + 1) = pp_amount p + 1 →
  sum_by pp_amount (alter bump j ps) = sum_by pp_amount ps + 1.
Proof.
  revert j. induction ps as [|q ps IH]; intros [|j] Hj Hw; simplify_eq/=; [lia|].
  change (alter bump (S j) (q :: ps)) with (q :: alter bump j ps). simpl. rewrite (IH j); [lia|done|done].
Qed.

Lemma bump_all_sum (l : list nat) (ps : list PplnsPayout) :
  NoDup l → (∀ j, j ∈ l → ∃ p, ps !! j = Some p ∧ wrap64 (pp_amount p + 1) = pp_amount p + 1) →
  sum_by pp_amount (foldl (λ ps j, alter bump j ps) ps l) =
  sum_by pp_amount ps + Z.of_nat (length l).
Proof.
  revert ps. induction l as [|j l IH]; intros ps Hnd Hall; simpl; [lia|].
  apply NoDup_cons in Hnd as [Hni Hnd].
  destruct (Hall j ltac:(left)) as (p & Hp & Hw). rewrite IH; [|done|].
  - rewrite (sum_alter_bump ps j p) by done. lia.
  - intros i Hi. destruct (Hall i ltac:(by right)) as (q & Hq & Hwq). exists q.
    rewrite list_lookup_alter_ne; [done|]. intros ->. done.
Qed.

(** ** Sums over maps *)

Definition map_sum {A} (f : A → Z) (m : gmap MinerId A) : Z :=
  sum_by (λ p, f p.2) (map_to_list m).

Lemma map_sum_insert_None {A} (f : A → Z) m k v :
  m !! k = None → map_sum f (<[k := v]> m) = f v + map_sum f m.
Proof. intros Hk. unfold map_sum. by rewrite map_to_list_insert. Qed.

Lemma map_sum_insert {A} (f : A → Z) m k v :
  map_sum f (<[k := v]> m) = map_sum f m - (from_option f 0 (m !! k)) + f v.
Proof.
  destruct (m !! k) as [o|] eqn:Ek; simpl.
  - rewrite <-(insert_delete_id m k o Ek) at 2. rewrite <-insert_delete_eq.
    rewrite !map_sum_insert_None by apply lookup_delete_eq. lia.
  - rewrite map_sum_insert_None by done. lia.
Qed.

Lemma map_sum_sorted {A} (f : A → Z) m : sum_by (λ p, f p.2) (map_sorted m) = map_sum f m.
Proof. unfold map_sum. by rewrite map_sorted_perm. Qed.

Lemma aggregate_rows_sum rows : ∀ m m',
  aggregate_rows rows m = Ok m' → map_sum cw_work m' = map_sum cw_work m + sum_by row_work rows.
Proof.
  induction rows as [|r rows IH]; intros m m' Hm; simpl in Hm; [injection Hm as <-; simpl; lia|].
  rewrite work_to_int_Z in Hm. fold (row_work r) in Hm. simpl.
  destruct (Z.eqb_spec (row_work r) 0) as [->|]; [by apply IH|].
  fold (row_payout r (cw_payout (credit_of m (pm_miner_id r)))) in Hm.
  destruct (row_payout r _) as [np|]; [|done]. simpl in Hm. rewrite (IH _ _ Hm), map_sum_insert.
  unfold credit_of. simpl. destruct (m !! pm_miner_id r); simpl; lia.
Qed.

(** ** The division *)

#[export] Instance fractional_le_total : Total fractional_le.
Proof.
  intros a b. unfold fractional_le, fractional_lt. rewrite !arr_lt_Z.
  destruct (Z.eqb_spec (fr_remainder a) (fr_remainder b)),
    (Z.eqb_spec (fr_remainder b) (fr_remainder a)); simpl; rewrite !Z.ltb_ge; lia.
Qed.
Lemma fractional_le_spec a b :
  fractional_le a b ↔ fr_remainder b < fr_remainder a ∨
    (fr_remainder a = fr_remainder b ∧ arr_Z (fr_miner_id a) ≤ arr_Z (fr_miner_id b)).
Proof.
  unfold fractional_le, fractional_lt. rewrite arr_lt_Z.
  destruct (Z.eqb_spec (fr_remainder b) (fr_remainder a)); simpl; rewrite Z.ltb_ge; lia.
Qed.
#[export] Instance fractional_le_trans : Transitive fractional_le.
Proof. intros a b c. rewrite !fractional_le_spec. lia. Qed.

(** The rows that get one unit more: the first [n] in remainder order. *)
Definition winners (fractional : list FractionalRow) (n : nat) : list nat :=
  fr_index <$> take n (merge_sort fractional_le fractional).

Lemma foldl_winners fractional n (ps : list PplnsPayout) :
  foldl (λ ps f, alter bump (fr_index f) ps) ps (take n (merge_sort fractional_le fractional)) =
  foldl (λ ps j, alter bump j ps) ps (winners fractional n).
Proof.
  unfold winners. generalize (take n (merge_sort fractional_le fractional)) as l. intros l.
  revert ps. induction l as [|f l IH]; intros ps; [done|]. csimpl. apply IH.
Qed.

Section Winners.
Context (total reward : Z) (rows : list (MinerId * CreditedWork)).

Abbreviation frac := (floor_rows total reward 0 rows).

Lemma floor_rows_lookup i f :
  frac !! i = Some f → ∃ r, rows !! i = Some r ∧
    f = mkFractional r.1 (share_rem total reward (cw_work r.2)) i.
Proof using Type.
  unfold floor_rows. rewrite list_lookup_imap. intros Hf.
  destruct (rows !! i) as [r|]; [|done]. injection Hf as <-. eauto.
Qed.

Lemma floor_rows_index f i : f ∈ frac → fr_index f = i → frac !! i = Some f.
Proof using Type.
  intros [j Hj]%list_elem_of_lookup <-.
  destruct (floor_rows_lookup j f Hj) as (r & _ & ->). exact Hj.
Qed.

Lemma length_floor_rows : length frac = length rows.
Proof using Type. apply length_imap. Qed.

Lemma floor_rows_nodup : NoDup (fr_index <$> frac).
Proof using Type.
  assert (fr_index <$> frac = seq 0 (length rows)) as ->; [|apply NoDup_seq].
  apply list_eq. intros i. rewrite list_lookup_fmap. destruct (frac !! i) as [f|] eqn:Ef.
  - destruct (floor_rows_lookup i f Ef) as (r & Hr & ->). simpl. symmetry.
    apply lookup_seq. split; [done|]. by eapply lookup_lt_Some.
  - simpl. symmetry. apply lookup_ge_None. rewrite length_seq, <-length_floor_rows.
    by apply lookup_ge_None.
Qed.

Lemma winners_nodup n : NoDup (winners frac n).
Proof using Type.
  unfold winners. eapply sublist_NoDup; [|apply fmap_sublist, sublist_take].
  rewrite (merge_sort_Permutation fractional_le frac). apply floor_rows_nodup.
Qed.

Lemma winners_lt n j : j ∈ winners frac n → (j < length rows)%nat.
Proof using Type.
  unfold winners. intros (f & -> & Hf)%list_elem_of_fmap.
  assert (f ∈ frac) as Hin.
  { rewrite <-(merge_sort_Permutation fractional_le frac). by eapply subseteq_take. }
  pose proof (floor_rows_index f _ Hin eq_refl) as Hl. apply lookup_lt_Some in Hl.
  by rewrite length_floor_rows in Hl.
Qed.

Lemma length_winners n : (n ≤ length rows)%nat → length (winners frac n) = n.
Proof using Type.
  intros Hn. unfold winners. rewrite length_fmap, length_take.
  rewrite (merge_sort_Permutation fractional_le frac), length_floor_rows. lia.
Qed.

(** A winner's remainder is at least a loser's. *)
Lemma winners_remainder n i j r s :
  i ∈ winners frac n → j ∉ winners frac n → rows !! i = Some r → rows !! j = Some s →
  share_rem total reward (cw_work s.2) ≤ share_rem total reward (cw_work r.2).
Proof using Type.
  intros Hi Hj Hr Hs.
  set (fj := mkFractional s.1 (share_rem total reward (cw_work s.2)) j).
  assert (fj ∈ frac) as Hfj.
  { apply (list_elem_of_lookup_2 _ j). unfold floor_rows. by rewrite list_lookup_imap, Hs. }
  set (sorted := merge_sort fractional_le frac).
  assert (fj ∈ sorted) as Hfj' by (unfold sorted; by rewrite merge_sort_Permutation).
  apply list_elem_of_fmap in Hi as (fi & -> & Hfi).
  assert (fi ∈ frac) as Hin.
  { rewrite <-(merge_sort_Permutation fractional_le frac). by eapply subseteq_take. }
  pose proof (floor_rows_index fi _ Hin eq_refl) as Hl.
  destruct (floor_rows_lookup _ _ Hl) as (r' & Hr' & Ei). rewrite Hr in Hr'. injection Hr' as <-.
  assert (fj ∈ drop n sorted) as Hd.
  { rewrite <-(take_drop n sorted) in Hfj'. apply elem_of_app in Hfj' as [Ht|]; [|done].
    exfalso. apply Hj. apply (list_elem_of_fmap_2 fr_index _ _ Ht). }
  assert (StronglySorted fractional_le sorted) as Hss
    by (apply StronglySorted_merge_sort; apply _).
  rewrite <-(take_drop n sorted) in Hss.
  assert (fractional_le fi fj) as Hle by (eapply StronglySorted_app_1_elem_of; eauto).
  rewrite fractional_le_spec in Hle. rewrite Ei in Hle. simpl in Hle. lia.
Qed.

End Winners.

(** What one payout is, given the division [total], [reward] and whether its
    miner got one of the leftover units. *)
Definition paid (total reward : Z) (r : MinerId * CreditedWork) (extra : bool) : PplnsPayout :=
  mkPplnsPayout r.1 (fill_be 32 (cw_work r.2))
    (share_floor total reward (cw_work r.2) + (if extra then 1 else 0)) (cw_payout r.2).

Lemma winners_leftover fractional z i :
  i ∈ winners fractional (Z.to_nat z) → 1 ≤ z.
Proof.
  intros Hin. destruct (decide (1 ≤ z)) as [|Hn]; [done|exfalso]. unfold winners in Hin.
  replace (Z.to_nat z) with 0%nat in Hin by lia. by apply elem_of_nil in Hin.
Qed.

(** A row can take one more unit without wrapping when something is left over. *)
Lemma winner_room total reward rows r :
  0 < total → is_u64 reward → (∀ y, y ∈ rows → 0 ≤ cw_work y.2) → r ∈ rows →
  1 ≤ reward - floor_sum total reward rows →
  wrap64 (share_floor total reward (cw_work r.2) + 1) = share_floor total reward (cw_work r.2) + 1.
Proof.
  intros Htot Hr Hpos Hin Hleft. apply wrap64_id.
  pose proof (share_floor_nonneg total reward Htot Hr) as Hfl.
  pose proof (sum_by_elem_le (λ y, share_floor total reward (cw_work y.2)) rows r Hin
    ltac:(intros y Hy; by apply Hfl, Hpos)) as Hsum.
  pose proof (Hfl _ (Hpos r Hin)). unfold is_u64, floor_sum in *. simpl in *. lia.
Qed.

(** The computation on an aggregated map: every row is paid its floor or one
    more, and the sum is the reward. *)
Lemma allocate_credited m reward :
  let rows := map_sorted m in
  let total := map_sum cw_work m in
  is_u64 reward → m ≠ ∅ → (∀ k row, m !! k = Some row → 0 < cw_work row) → total ≤ u256_max →
  let leftover := reward - floor_sum total reward rows in
  let win := winners (floor_rows total reward 0 rows) (Z.to_nat leftover) in
  let payouts := foldl (λ ps j, alter bump j ps) (floor_payout total reward <$> rows) win in
  0 < total ∧
  allocate_floor rows total reward 0 0 =
    Ok (floor_payout total reward <$> rows, floor_rows total reward 0 rows,
        floor_sum total reward rows) ∧
  0 ≤ leftover < Z.of_nat (length rows) ∧
  sum_by pp_amount payouts = reward ∧
  ∀ i, payouts !! i =
    (λ r, paid total reward r (bool_decide (i ∈ win))) <$> rows !! i.
Proof.
  intros rows total Hr Hne Hpos Hfits leftover win payouts.
  assert (∀ r, r ∈ rows → 0 < cw_work r.2) as Hw.
  { intros [k row] Hin. apply elem_of_map_sorted in Hin. by eapply Hpos. }
  assert (rows ≠ []) as Hrne.
  { intros E. apply Hne. apply map_empty. intros k. apply eq_None_not_Some. intros [row Hrow].
    apply elem_of_map_sorted in Hrow. fold rows in Hrow. rewrite E in Hrow.
    by apply elem_of_nil in Hrow. }
  assert (sum_by (λ r, cw_work r.2) rows = total) as Hsum by apply map_sum_sorted.
  assert (∀ r, r ∈ rows → 0 ≤ cw_work r.2 ≤ total) as Hle.
  { intros r Hin. pose proof (Hw r Hin). rewrite <-Hsum.
    pose proof (sum_by_elem_le (λ r, cw_work r.2) rows r Hin
      ltac:(intros y Hy; pose proof (Hw y Hy); lia)). simpl in *. lia. }
  assert (0 < total) as Htot.
  { destruct rows as [|r rows']; [done|]. pose proof (Hw r ltac:(left)).
    pose proof (Hle r ltac:(left)). lia. }
  pose proof (floor_leftover total reward Htot Hr rows Hsum Hrne) as Hleft.
  fold leftover in Hleft.
  assert (∀ i r, rows !! i = Some r → i ∈ win →
    wrap64 (share_floor total reward (cw_work r.2) + 1) =
      share_floor total reward (cw_work r.2) + 1) as Hwrap.
  { intros i r Hi Hin. eapply (winner_room total reward rows); try done.
    - intros y Hy. by apply Hle.
    - by eapply list_elem_of_lookup_2.
    - by eapply winners_leftover. }
  split; [done|]. split.
  { rewrite (allocate_floor_ok total reward Htot Hr rows 0 0); [by rewrite Z.add_0_l| |lia|lia].
    intros r Hin. specialize (Hle r Hin). lia. }
  split; [done|].
  assert (NoDup win) as Hnd by apply winners_nodup.
  split.
  - unfold payouts. rewrite bump_all_sum; [|done|].
    + unfold win. rewrite length_winners by lia. rewrite sum_by_fmap.
      change (sum_by _ rows) with (floor_sum total reward rows). lia.
    + intros j Hj. pose proof (winners_lt _ _ _ _ _ Hj) as Hlt.
      destruct (lookup_lt_is_Some_2 rows j Hlt) as [r Hrj].
      exists (floor_payout total reward r). rewrite list_lookup_fmap, Hrj. split; [done|].
      by apply (Hwrap j).
  - intros i. unfold payouts. rewrite bump_all_lookup by done. rewrite list_lookup_fmap.
    destruct (rows !! i) as [r|] eqn:Hi; [|done]. simpl. f_equal. unfold paid.
    destruct (decide (i ∈ win)) as [Hin|Hin].
    + rewrite bool_decide_true by done. unfold bump, floor_payout. simpl.
      by rewrite (Hwrap i r Hi Hin).
    + rewrite bool_decide_false by done. unfold floor_payout. simpl. by rewrite Z.add_0_r.
Qed.

(** ** Assembling *)

Lemma aggregate_window window :
  rows_ok (miners window) → 0 < sum_by row_work (miners window) →
  ∃ m, aggregate_rows (miners window) ∅ = Ok m ∧
    credited_ok (miners window) (miner_total (miners window)) m ∧
    map_sum cw_work m = sum_by row_work (miners window) ∧ m ≠ ∅.
Proof.
  intros Hok Hpos.
  destruct (aggregate_rows_ok (miners window) (miners window) (λ _, 0) ∅ Hok) as (m & Hm & Hc);
    [done| |].
  { split; try (intros k row; by rewrite lookup_empty).
    intros k. unfold credit_of. by rewrite lookup_empty. }
  exists m. split; [done|]. split; [by eapply credited_ext; [|done]|].
  pose proof (aggregate_rows_sum _ _ _ Hm) as Hs. unfold map_sum at 2 in Hs.
  rewrite map_to_list_empty in Hs. simpl in Hs. split; [lia|]. intros ->.
  unfold map_sum in Hs. rewrite map_to_list_empty in Hs. simpl in Hs. lia.
Qed.

Lemma allocate_assembles window m reward :
  let rows := map_sorted m in
  let total := sum_by row_work (miners window) in
  let leftover := reward - floor_sum total reward rows in
  aggregate_rows (miners window) ∅ = Ok m → map_sum cw_work m = total → m ≠ ∅ →
  (∀ k row, m !! k = Some row → 0 < cw_work row) → is_u64 reward → 0 < total →
  allocate_floor rows total reward 0 0 =
    Ok (floor_payout total reward <$> rows, floor_rows total reward 0 rows,
        floor_sum total reward rows) →
  0 ≤ leftover < Z.of_nat (length rows) →
  allocate_pplns_reward window reward =
    Ok (foldl (λ ps j, alter bump j ps) (floor_payout total reward <$> rows)
          (winners (floor_rows total reward 0 rows) (Z.to_nat leftover))).
Proof.
  intros rows total leftover Hagg Hsum Hne Hpos Hr Htot Hfloor Hleft.
  assert (0 ≤ floor_sum total reward rows) as Hfs.
  { apply floor_sum_nonneg; [done..|]. intros [k row] Hin%elem_of_map_sorted.
    by apply Z.lt_le_incl, (Hpos k). }
  unfold allocate_pplns_reward. rewrite Hagg. simpl. rewrite bool_decide_false by done.
  rewrite map_sum_sorted, Hsum. rewrite (proj2 (Z.eqb_neq total 0)) by lia. simpl.
  fold rows. rewrite Hfloor. simpl.
  rewrite (wrap64_id (reward - _)) by (unfold is_u64 in *; lia). fold leftover.
  rewrite length_floor_rows. rewrite (proj2 (Z.ltb_ge _ leftover)) by lia. simpl.
  by rewrite foldl_winners.
Qed.

Lemma payouts_ids total reward rows (extra : nat → bool) payouts :
  (∀ i, payouts !! i = (λ r, paid total reward r (extra i)) <$> rows !! i) →
  pp_miner_id <$> payouts = rows.*1.
Proof.
  intros Hlook. apply list_eq. intros i. rewrite !list_lookup_fmap, Hlook.
  by destruct (rows !! i).
Qed.

Lemma sorted_keys {A} (m : gmap MinerId A) : StronglySorted arr_le (map_sorted m).*1.
Proof.
  pose proof (map_sorted_sorted m) as Hs. induction Hs as [|x l Hs IH Hall]; csimpl; constructor.
  - done.
  - rewrite Forall_fmap. eapply Forall_impl; [exact Hall|]. done.
Qed.

Lemma credited_work all m i r :
  credited_ok all (miner_total all) m → map_sorted m !! i = Some r →
  cw_work r.2 = miner_total all r.1.
Proof.
  intros Hm Hi. destruct r as [k row]. apply list_elem_of_lookup_2, elem_of_map_sorted in Hi.
  pose proof (co_work _ _ _ Hm k) as Hk. unfold credit_of in Hk. by rewrite Hi in Hk.
Qed.

Lemma credited_keys all m k :
  credited_ok all (miner_total all) m →
  0 < miner_total all k ↔ k ∈ (map_sorted m).*1.
Proof.
  intros Hm. pose proof (co_work _ _ _ Hm k) as Hk. unfold credit_of in Hk.
  rewrite <-Hk, list_elem_of_fmap. destruct (m !! k) as [row|] eqn:Ek; simpl.
  - split; [intros _|intros _; by apply (co_pos _ _ _ Hm k)].
    exists (k, row). split; [done|]. by apply elem_of_map_sorted.
  - split; [lia|]. intros ([k' row] & -> & Hin%elem_of_map_sorted). simpl in Ek. congruence.
Qed.

Lemma credited_bounds m r :
  map_sum cw_work m ≤ u256_max → (∀ k row, m !! k = Some row → 0 < cw_work row) →
  r ∈ map_sorted m → 0 ≤ cw_work r.2 ≤ u256_max.
Proof.
  intros Hfits Hpos Hr. rewrite <-map_sum_sorted in Hfits.
  assert (∀ y, y ∈ map_sorted m → 0 ≤ cw_work y.2) as Hall.
  { intros [k row] Hin%elem_of_map_sorted. by apply Z.lt_le_incl, (Hpos k). }
  pose proof (sum_by_elem_le (λ y, cw_work y.2) _ r Hr Hall). simpl in *.
  specialize (Hall r Hr). lia.
Qed.

(** The part of the division that its clients rely on. *)
Lemma allocate_paid window reward :
  is_u64 reward → rows_ok (miners window) → 0 < sum_by row_work (miners window) →
  ∃ payouts, allocate_pplns_reward window reward = Ok payouts ∧
    sum_by pp_amount payouts = reward ∧ NoDup (pp_miner_id <$> payouts) ∧
    ∀ k, k ∈ pp_miner_id <$> payouts → 0 < miner_total (miners window) k.
Proof.
  intros Hr Hok Hpos.
  destruct (aggregate_window window Hok Hpos) as (m & Hagg & Hm & Hsum & Hne).
  assert (map_sum cw_work m ≤ u256_max) as Hfits by (rewrite Hsum; apply Hok).
  pose proof (allocate_credited m reward Hr Hne (co_pos _ _ _ Hm) Hfits) as Hal.
  rewrite Hsum in Hal. destruct Hal as (Htot & Hfloor & Hleft & Hpaid & Hlook).
  eexists. split; [apply (allocate_assembles window m); try done; apply Hm|].
  split; [done|]. rewrite (payouts_ids _ _ _ _ _ Hlook).
  split; [apply NoDup_fst_map_sorted|]. intros k. by apply (credited_keys (miners window)).
Qed.

(** C21: a reward is divided exactly.  For rows whose payout keys are consistent,
    [allocate_pplns_reward] succeeds; the payouts are in increasing miner order,
    one for each miner with work; their amounts add up to the reward; each miner
    gets the floor of its proportional part or one unit more, and the units left
    over go to the largest remainders. *)
Theorem allocate_reward_exact : ∀ window reward,
  is_u64 reward → rows_ok (miners window) → 0 < sum_by row_work (miners window) →
  let total := sum_by row_work (miners window) in
  let work p := miner_total (miners window) (pp_miner_id p) in
  ∃ payouts, allocate_pplns_reward window reward = Ok payouts ∧
    sum_by pp_amount payouts = reward ∧
    NoDup (pp_miner_id <$> payouts) ∧ StronglySorted arr_le (pp_miner_id <$> payouts) ∧
    (∀ k, 0 < miner_total (miners window) k ↔ k ∈ pp_miner_id <$> payouts) ∧
    (∀ p, p ∈ payouts → arr_Z (pp_work p) = work p ∧
       (pp_amount p = reward * work p / total ∨ pp_amount p = reward * work p / total + 1)) ∧
    (∀ p q, p ∈ payouts → q ∈ payouts →
       pp_amount p = reward * work p / total + 1 → pp_amount q = reward * work q / total →
       (reward * work q) mod total ≤ (reward * work p) mod total).
Proof.
  intros window reward Hr Hok Hpos total work.
  destruct (aggregate_window window Hok Hpos) as (m & Hagg & Hm & Hsum & Hne).
  assert (map_sum cw_work m ≤ u256_max) as Hfits by (rewrite Hsum; apply Hok).
  pose proof (allocate_credited m reward Hr Hne (co_pos _ _ _ Hm) Hfits) as Hal.
  rewrite Hsum in Hal. fold total in Hal. destruct Hal as (Htot & Hfloor & Hleft & Hpaid & Hlook).
  set (rows := map_sorted m) in *. set (leftover := reward - floor_sum total reward rows) in *.
  set (win := winners (floor_rows total reward 0 rows) (Z.to_nat leftover)) in *.
  set (payouts := foldl _ _ win) in *. exists payouts.
  pose proof (payouts_ids total reward rows (λ i, bool_decide (i ∈ win)) payouts Hlook) as Hids.
  assert (∀ i p, payouts !! i = Some p → ∃ r, rows !! i = Some r ∧ cw_work r.2 = work p ∧
    p = paid total reward r (bool_decide (i ∈ win))) as Hp.
  { intros i p Hi. rewrite Hlook in Hi. destruct (rows !! i) as [r|] eqn:Er; [|done].
    injection Hi as <-. exists r. split; [done|]. split; [|done].
    by apply (credited_work (miners window) m i). }
  split; [apply (allocate_assembles window m); try done; apply Hm|]. split; [done|].
  rewrite Hids. split; [apply NoDup_fst_map_sorted|]. split; [apply sorted_keys|].
  split; [intros k; by apply (credited_keys (miners window))|]. split.
  - intros p [i Hi]%list_elem_of_lookup. destruct (Hp i p Hi) as (r & Hri & Hw & ->). simpl.
    rewrite <-Hw. split.
    + apply int_to_work_ok. apply (credited_bounds m r Hfits (co_pos _ _ _ Hm)).
      by eapply list_elem_of_lookup_2.
    + unfold share_floor. destruct (bool_decide _); [by right|left; lia].
  - intros p q [i Hi]%list_elem_of_lookup [j Hj]%list_elem_of_lookup Ep Eq.
    destruct (Hp i p Hi) as (r & Hri & Hw & Epr), (Hp j q Hj) as (s & Hsj & Hws & Eqs).
    rewrite <-Hw in Ep |- *. rewrite <-Hws in Eq |- *. subst p q. simpl in Ep, Eq.
    unfold share_floor in Ep, Eq. destruct (bool_decide (i ∈ win)) eqn:Ei; [|lia].
    destruct (bool_decide (j ∈ win)) eqn:Ej; [lia|]. bool_prop.
    by eapply (winners_remainder total reward rows (Z.to_nat leftover) i j r s).
Qed.
