(* ===== verification/PplnsWindows.v ===== *)
(** Correctness of the PPLNS windows: what the traversal credits, to whom, and
    the bounds of the sidechain window. *)
From S2P Require Import Prelude CryptoHash PowTarget Share SidechainParams Difficulty ShareChain.
From S2P Require Import ChainWork ChainInv ChainPromote ChainAdmit ChainReplay ChainPrune.
From S2P Require Import ChainHistory Demo Pplns PplnsReward.

(** ** Reference definition *)

Definition difficulty_of (e : ConnectedShare) : Z := arr_Z (share_difficulty (cs_share e)).
Definition path_work (l : list ConnectedShare) : Z := sum_by difficulty_of l.

(** The credits along a path, newest first: each share is credited its work
    until [remaining] is used up, the last one only what is missing. *)
Fixpoint credits (remaining : Z) (path : list ConnectedShare) : list (ConnectedShare * Z) :=
  match path with
  | [] => []
  | e :: l =>
      if remaining =? 0 then []
      else
        let included := Z.min (difficulty_of e) remaining in
        (e, included) :: credits (remaining - included) l
  end.

(** What a miner is credited. *)
Definition miner_credit (l : list (ConnectedShare * Z)) (k : MinerId) : Z :=
  sum_by snd (filter (λ p, miner_id (cs_share p.1) = k) l).

Definition path_pos (l : list ConnectedShare) : Prop := ∀ e, e ∈ l → 0 < difficulty_of e.

Lemma path_pos_cons e l : path_pos (e :: l) → 0 < difficulty_of e ∧ path_pos l.
Proof. intros H. split; [apply H; left|intros x Hx; apply H; by right]. Qed.

Lemma path_work_nonneg l : path_pos l → 0 ≤ path_work l.
Proof. intros H. apply sum_by_nonneg. intros e He. specialize (H e He). lia. Qed.

Lemma credits_sum l : ∀ rem,
  0 ≤ rem → path_pos l → sum_by snd (credits rem l) = Z.min rem (path_work l).
Proof.
  induction l as [|e l IH]; intros rem Hr Hp; simpl; [unfold path_work; simpl; lia|].
  destruct (path_pos_cons _ _ Hp) as [He Hl]. pose proof (path_work_nonneg l Hl).
  change (path_work (e :: l)) with (difficulty_of e + path_work l).
  destruct (Z.eqb_spec rem 0); simpl; [lia|]. rewrite IH by (done || lia). lia.
Qed.

Lemma credits_nonneg rem l k : 0 ≤ rem → path_pos l → 0 ≤ miner_credit (credits rem l) k.
Proof.
  intros Hr Hp. apply sum_by_nonneg. intros [e z] [_ Hin]%list_elem_of_filter. simpl.
  revert rem Hr Hin. induction l as [|x l IH]; intros rem Hr Hin; simpl in Hin;
    [by apply elem_of_nil in Hin|].
  destruct (path_pos_cons _ _ Hp) as [Hx Hl].
  destruct (Z.eqb_spec rem 0); [by apply elem_of_nil in Hin|].
  apply elem_of_cons in Hin as [[= -> ->]|Hin]; [lia|].
  apply (IH Hl) in Hin; [done|lia].
Qed.

Lemma credits_nil rem l : rem = 0 → credits rem l = [].
Proof. intros ->. by destruct l. Qed.

Lemma credits_length l : ∀ rem n,
  path_pos l → rem ≤ path_work (take n l) → 0 ≤ rem → (length (credits rem l) ≤ n)%nat.
Proof.
  induction l as [|e l IH]; intros rem n Hp Hrem H0; simpl; [lia|].
  destruct (path_pos_cons _ _ Hp) as [He Hl].
  destruct (Z.eqb_spec rem 0); simpl; [lia|].
  destruct n as [|n]; [unfold path_work in Hrem; simpl in Hrem; lia|].
  change (path_work (take (S n) (e :: l))) with (difficulty_of e + path_work (take n l)) in Hrem.
  assert (path_pos (take n l)) as Htk by (intros x Hx; apply Hl; by eapply subseteq_take).
  pose proof (path_work_nonneg _ Htk).
  apply le_n_S, IH; [done|lia|lia].
Qed.

Lemma path_work_take n l : path_pos l → path_work (take n l) ≤ path_work l.
Proof.
  intros Hp. rewrite <-(take_drop n l) at 2. unfold path_work. rewrite sum_by_app.
  pose proof (sum_by_nonneg difficulty_of (drop n l)) as Hd.
  enough (0 ≤ sum_by difficulty_of (drop n l)) by lia. apply Hd.
  intros x Hx. specialize (Hp x). apply Z.lt_le_incl, Hp. by eapply subseteq_drop.
Qed.

(** ** One share *)

(** The keys behind a miner id are unique among the connected shares: the hash
    that derives miner ids has no collision there. *)
Definition payout_consistent (c : ShareChain) : Prop :=
  ∀ i j e f p q, connected c !! i = Some e → connected c !! j = Some f →
    miner_id (cs_share e) = miner_id (cs_share f) →
    payout (cs_share e) = Some p → payout (cs_share f) = Some q → p = q.

(** Every payout in the accumulator comes from a connected share of its miner. *)
Definition credit_payouts (c : ShareChain) (m : gmap MinerId CreditedWork) : Prop :=
  ∀ k row p, m !! k = Some row → cw_payout row = Some p →
    ∃ i e, connected c !! i = Some e ∧ miner_id (cs_share e) = k ∧ payout (cs_share e) = Some p.

Lemma entry_binding c id e p :
  chain_inv c → connected c !! id = Some e → payout (cs_share e) = Some p →
  version (cs_share e) = 2 ∧ miner_id (cs_share e) = miner_id_from_payout p.
Proof.
  intros Hinv He Hp. pose proof (eo_share_id _ _ _ (pi_entry _ _ _ Hinv id e He)) as Hid.
  pose proof (share_id_canonical (cs_share e)) as Hc.
  destruct (share_canonical (cs_share e)) eqn:Ec; [|destruct Hc; congruence].
  unfold share_canonical in Ec. rewrite Hp in Ec. by bool_prop.
Qed.

Lemma entry_work c id e :
  chain_inv c → connected c !! id = Some e →
  ∃ w, share_work (share_difficulty (cs_share e)) = Ok w ∧ work_to_int w = difficulty_of e ∧
       0 < difficulty_of e.
Proof.
  intros Hinv He.
  destruct (structural_network_nonzero c (cs_share e)) as [Hz _];
    [apply (pi_entry _ _ _ Hinv id e He)|].
  destruct (share_work_ok _ Hz) as (w & Hw & E). exists w. rewrite work_to_int_Z.
  split; [done|]. split; [done|]. unfold difficulty_of.
  rewrite difficulty128_is_zero_Z in Hz. bool_prop.
  pose proof (arr_Z_range (share_difficulty (cs_share e))). lia.
Qed.

Lemma merge_payout_ok c m id e work :
  chain_inv c → payout_consistent c → credit_payouts c m → connected c !! id = Some e →
  let old := credit_of m (miner_id (cs_share e)) in
  ∃ row, merge_payout_identity (mkCredit work (cw_payout old)) (cs_share e) = Ok row ∧
    cw_work row = work ∧ credit_payouts c (<[miner_id (cs_share e) := row]> m).
Proof.
  intros Hinv Hcons Hm He old. unfold merge_payout_identity.
  assert (∀ p, cw_payout old = Some p → ∃ i f, connected c !! i = Some f ∧
    miner_id (cs_share f) = miner_id (cs_share e) ∧ payout (cs_share f) = Some p) as Hold.
  { intros p Hp. unfold old, credit_of in Hp. destruct (m !! _) as [row|] eqn:Em; [|done].
    by eapply Hm. }
  assert (∀ row, (∀ p, cw_payout row = Some p → ∃ i f, connected c !! i = Some f ∧
    miner_id (cs_share f) = miner_id (cs_share e) ∧ payout (cs_share f) = Some p) →
    credit_payouts c (<[miner_id (cs_share e) := row]> m)) as Hins.
  { intros row Hrow k row' p Hk Hp. destruct (decide (k = miner_id (cs_share e))) as [->|].
    - rewrite lookup_insert_eq in Hk. injection Hk as <-. by apply Hrow.
    - rewrite lookup_insert_ne in Hk by done. by eapply Hm. }
  destruct (payout (cs_share e)) as [p|] eqn:Ep.
  2: { eexists. split; [done|]. split; [done|]. by apply Hins. }
  destruct (entry_binding c id e p Hinv He Ep) as [Hv Hid].
  change kShareVersion2 with 2. rewrite Hv, Hid, arr_eqb_refl. simpl.
  exists (mkCredit work (Some p)). split.
  - destruct (cw_payout old) as [q|] eqn:Eq; [|done].
    destruct (Hold q eq_refl) as (i & f & Hf & Hmf & Hq).
    rewrite (Hcons i id f e q p Hf He Hmf Hq Ep). by rewrite bool_decide_true.
  - split; [done|]. rewrite <-Hid. apply Hins. intros p' [= <-]. by exists id, e.
Qed.

(** ** The traversal *)

Definition payable (c : ShareChain) (e : ConnectedShare) : Prop :=
  enforces_sidechain_difficulty c = true → validated_ancestry e = true.

Lemma credit_share_ok c id e rem m :
  chain_inv c → payout_consistent c → credit_payouts c m → connected c !! id = Some e →
  payable c e →
  let included := Z.min (difficulty_of e) rem in
  ∃ m', credit_share c e rem m = Ok (rem - included, m') ∧ credit_payouts c m' ∧
    (∀ k, cw_work (credit_of m' k) =
       cw_work (credit_of m k) + (if decide (miner_id (cs_share e) = k) then included else 0)) ∧
    map_sum cw_work m' = map_sum cw_work m + included.
Proof.
  intros Hinv Hcons Hm He Hpay included. unfold credit_share, require_validated_payout_ancestry.
  assert (enforces_sidechain_difficulty c && negb (validated_ancestry e) = false) as ->.
  { destruct (enforces_sidechain_difficulty c) eqn:E; [|done]. by rewrite Hpay. }
  destruct (entry_work c id e Hinv He) as (w & -> & Hw & Hpos). simpl. rewrite Hw.
  rewrite (proj2 (Z.eqb_neq (difficulty_of e) 0)) by lia. simpl. fold included.
  set (old := credit_of m (miner_id (cs_share e))).
  destruct (merge_payout_ok c m id e (cw_work old + included) Hinv Hcons Hm He)
    as (row & Hmp & Hwork & Hpays). fold old in Hmp. rewrite Hmp. simpl.
  eexists. split; [done|]. split; [done|]. split.
  - intros k. unfold credit_of at 1. destruct (decide (miner_id (cs_share e) = k)) as [<-|].
    + by rewrite lookup_insert_eq.
    + rewrite lookup_insert_ne by done. fold (credit_of m k). lia.
  - rewrite map_sum_insert, Hwork. unfold old, credit_of. destruct (m !! _); simpl; lia.
Qed.

Lemma miner_credit_cons e z l k :
  miner_credit ((e, z) :: l) k =
  (if decide (miner_id (cs_share e) = k) then z else 0) + miner_credit l k.
Proof. unfold miner_credit. rewrite filter_cons. simpl. by destruct (decide _). Qed.

Lemma path_facts c id l :
  chain_inv c → ancestry (connected c) id l → path_pos l.
Proof.
  intros Hinv Hl e He. destruct (entry_work c (cs_id e) e Hinv) as (_ & _ & _ & H); [|done].
  eapply ancestry_lookup; [|exact Hl|done].
  intros i x Hx. apply (eo_id _ _ _ (pi_entry _ _ _ Hinv i x Hx)).
Qed.

(** The traversal credits what the reference definition says, in at most as
    many steps as the path is long. *)
Lemma pplns_loop_ok c fuel : ∀ id e l rem n m,
  chain_inv c → payout_consistent c → credit_payouts c m →
  ancestry (connected c) id (e :: l) → Forall (payable c) (e :: l) →
  (length l < fuel)%nat → 0 < rem →
  ∃ m', pplns_loop fuel c e rem n m =
    Ok (rem - Z.min rem (path_work (e :: l)), (n + length (credits rem (e :: l)))%nat, m') ∧
    credit_payouts c m' ∧
    (∀ k, cw_work (credit_of m' k) =
       cw_work (credit_of m k) + miner_credit (credits rem (e :: l)) k) ∧
    map_sum cw_work m' = map_sum cw_work m + Z.min rem (path_work (e :: l)).
Proof.
  induction fuel as [|fuel IH]; intros id e l rem n m Hinv Hcons Hm Hanc Hpay Hf Hrem; [lia|].
  apply Forall_cons in Hpay as [He Hpay].
  pose proof (path_facts c id _ Hinv Hanc) as Hpos. destruct (path_pos_cons _ _ Hpos) as [Hde Hpl].
  assert (connected c !! id = Some e) as Hlook by (by inversion Hanc).
  destruct (credit_share_ok c id e rem m Hinv Hcons Hm Hlook He) as (m1 & Hc & Hm1 & Hk & Hs).
  set (included := Z.min (difficulty_of e) rem) in *.
  pose proof (path_work_nonneg l Hpl) as Hl0.
  change (path_work (e :: l)) with (difficulty_of e + path_work l).
  cbn [pplns_loop credits]. rewrite (proj2 (Z.eqb_neq rem 0)) by lia. fold included.
  rewrite Hc. cbn [mbind res_bind].
  destruct (Z.eqb_spec (rem - included) 0) as [E0|E0].
  { exists m1. rewrite credits_nil by lia. simpl. split; [unfold mret, res_ret; do 3 f_equal; simpl; lia|].
    split; [done|]. split; [|lia]. intros k. rewrite Hk, miner_credit_cons.
    unfold miner_credit. simpl. lia. }
  simpl. inversion Hanc as [? ? He' Hr|? ? ? He' Hr Hanc']; subst.
  { unfold is_root in Hr. rewrite Hr. exists m1. simpl. unfold path_work in *. simpl in *.
    split; [unfold mret, res_ret; do 3 f_equal; simpl; lia|].
    split; [done|]. split; [|lia]. intros k. rewrite Hk, miner_credit_cons.
    unfold miner_credit. simpl. lia. }
  unfold is_root in Hr. rewrite Hr. destruct l as [|e2 l2]; [inversion Hanc'|].
  assert (find c (parent_id (cs_share e)) = Some e2) as -> by (by inversion Hanc').
  destruct (IH _ e2 l2 (rem - included) (S n) m1 Hinv Hcons Hm1 Hanc' Hpay)
    as (m2 & -> & Hm2 & Hk2 & Hs2); [simpl in Hf; lia|lia|].
  exists m2. split; [do 3 f_equal; simpl; lia|]. split; [done|]. split; [|lia].
  intros k. rewrite Hk2, Hk, miner_credit_cons. lia.
Qed.

(** ** The rows *)

Lemma window_rows_ok l :
  (∀ k row, (k, row) ∈ l → 0 ≤ cw_work row ≤ u256_max) →
  window_rows l = Ok ((λ r, mkMinerWork r.1 (fill_be 32 (cw_work r.2)) (cw_payout r.2)) <$>
                        filter (λ r, cw_work r.2 ≠ 0) l).
Proof.
  induction l as [|[k row] l IH]; intros Hall; [done|]. simpl.
  rewrite IH by (intros; eapply Hall; by right). rewrite filter_cons. simpl.
  destruct (Z.eqb_spec (cw_work row) 0); [by rewrite decide_False by naive_solver|].
  rewrite decide_True by done. destruct (int_to_work_ok (cw_work row)) as [-> _]; [|done].
  apply (Hall k). left.
Qed.

(** What the rows of a window over a map of credits are. *)
Definition rows_of (m : gmap MinerId CreditedWork) : list PplnsMinerWork :=
  (λ r, mkMinerWork r.1 (fill_be 32 (cw_work r.2)) (cw_payout r.2)) <$>
    filter (λ r, cw_work r.2 ≠ 0) (map_sorted m).

Lemma elem_of_rows m r :
  r ∈ rows_of m → ∃ row, m !! pm_miner_id r = Some row ∧ pm_payout r = cw_payout row ∧
    pm_work r = fill_be 32 (cw_work row).
Proof.
  intros ([k row] & -> & [_ Hin]%list_elem_of_filter)%list_elem_of_fmap.
  apply elem_of_map_sorted in Hin. by exists row.
Qed.

Lemma rows_of_sum (m : gmap MinerId CreditedWork) (P : MinerId → Prop) `{!∀ k, Decision (P k)} :
  (∀ k row, m !! k = Some row → 0 ≤ cw_work row ≤ u256_max) →
  sum_by row_work (filter (λ r, P (pm_miner_id r)) (rows_of m)) =
  sum_by (λ p, cw_work p.2) (filter (λ p, P p.1) (map_sorted m)).
Proof.
  intros Hall. unfold rows_of.
  assert (∀ p, p ∈ map_sorted m → 0 ≤ cw_work p.2 ≤ u256_max) as Hb.
  { intros [k row] Hin%elem_of_map_sorted. by apply (Hall k). }
  induction (map_sorted m) as [|[k row] l IH]; [done|].
  assert (∀ p, p ∈ l → 0 ≤ cw_work p.2 ≤ u256_max) as Hb' by (intros; apply Hb; by right).
  specialize (IH Hb'). pose proof (Hb (k, row) ltac:(left)) as Hrow. simpl in Hrow.
  destruct (int_to_work_ok _ Hrow) as [_ E].
  rewrite (filter_cons _ (k, row) l). simpl.
  destruct (decide (cw_work row ≠ 0)) as [Hne|Heq]; csimpl; rewrite !filter_cons; simpl;
    destruct (decide (P k)); simpl; rewrite ?IH; try done.
  - unfold row_work at 1. simpl. by rewrite E.
  - apply dec_stable in Heq. lia.
Qed.

(** ** The windows *)

(** What a window over a path promises. *)
Record window_spec (requested : Z) (path : list ConnectedShare) (w : PplnsWindow) : Prop := {
  ws_covered : arr_Z (covered_work w) = Z.min requested (path_work path);
  ws_complete : complete w = bool_decide (requested ≤ path_work path);
  ws_included : included_shares w = length (credits requested path);
  ws_sum : sum_by row_work (miners w) = arr_Z (covered_work w);
  ws_miner : ∀ k, miner_total (miners w) k = miner_credit (credits requested path) k;
  ws_rows : rows_ok (miners w) }.

Lemma path_payable c id e l :
  chain_inv c → ancestry (connected c) id (e :: l) → payable c e → Forall (payable c) (e :: l).
Proof.
  intros Hinv Hanc Hpay. apply Forall_forall. intros x Hx Henf.
  assert (connected c !! id = Some e) as He by (by inversion Hanc).
  pose proof (ancestry_validated c id _ e Hinv Hanc He (Hpay Henf)) as Hall.
  rewrite Forall_forall in Hall. by apply Hall.
Qed.

Lemma rows_of_total m k :
  (∀ k row, m !! k = Some row → 0 ≤ cw_work row ≤ u256_max) →
  miner_total (rows_of m) k = cw_work (credit_of m k).
Proof.
  intros Hall. unfold miner_total.
  etransitivity; [exact (rows_of_sum m (λ k', k' = k) Hall)|].
  rewrite (map_sorted_perm m). unfold credit_of. destruct (m !! k) as [row|] eqn:Ek; simpl.
  - rewrite <-(insert_delete_id m k row Ek), map_to_list_insert by apply lookup_delete_eq.
    rewrite filter_cons, decide_True by done. simpl.
    rewrite filter_none; [simpl; lia|]. intros [k' row'] Hin E. simpl in E. subst k'.
    apply elem_of_map_to_list in Hin. by rewrite lookup_delete_eq in Hin.
  - rewrite filter_none; [done|]. intros [k' row'] Hin E. simpl in E. subst k'.
    apply elem_of_map_to_list in Hin. congruence.
Qed.

(** The rows a map of credits gives, when it holds the credits of a path. *)
Lemma credits_rows c m requested path :
  chain_inv c → credit_payouts c m → path_pos path → 0 ≤ requested ≤ u256_max →
  (∀ k, cw_work (credit_of m k) = miner_credit (credits requested path) k) →
  map_sum cw_work m = Z.min requested (path_work path) →
  (∀ k row, m !! k = Some row → 0 ≤ cw_work row ≤ u256_max) ∧
  sum_by row_work (rows_of m) = Z.min requested (path_work path) ∧ rows_ok (rows_of m).
Proof.
  intros Hinv Hpm Hpos Hreq Hk Hs.
  assert (∀ k row, m !! k = Some row → 0 ≤ cw_work row) as Hnn.
  { intros k row Hrow. pose proof (Hk k) as E. unfold credit_of in E. rewrite Hrow in E.
    simpl in E. rewrite E. apply credits_nonneg; [lia|done]. }
  assert (∀ k row, m !! k = Some row → 0 ≤ cw_work row ≤ u256_max) as Hrows.
  { intros k row Hrow. split; [by apply (Hnn k)|]. rewrite <-map_sum_sorted in Hs.
    pose proof (sum_by_elem_le (λ p, cw_work p.2) (map_sorted m) (k, row)) as Hle. simpl in Hle.
    enough (cw_work row ≤ Z.min requested (path_work path)) by lia. rewrite <-Hs. apply Hle.
    - by apply elem_of_map_sorted.
    - intros [k' row'] Hin%elem_of_map_sorted. by apply (Hnn k'). }
  assert (sum_by row_work (rows_of m) = Z.min requested (path_work path)) as Hsum.
  { rewrite <-Hs, <-map_sum_sorted. pose proof (rows_of_sum m (λ _, True) Hrows) as E.
    rewrite !filter_all in E by done. exact E. }
  split; [done|]. split; [done|]. split; [| |rewrite Hsum; lia].
  - intros r p (row & Hrow & Hp & _)%elem_of_rows Hpr. rewrite Hpr in Hp. symmetry in Hp.
    destruct (Hpm _ _ _ Hrow Hp) as (i & f & Hf & <- & Hpf). by eapply (entry_binding c).
  - intros r1 r2 p q (row1 & Hr1 & Hp1 & _)%elem_of_rows (row2 & Hr2 & Hp2 & _)%elem_of_rows
      E E1 E2. congruence.
Qed.

Lemma credit_payouts_empty c : credit_payouts c ∅.
Proof. intros k row p Hk. by rewrite lookup_empty in Hk. Qed.

Lemma build_window_ok c parent e l requested :
  chain_inv c → payout_consistent c → is_zero_share_id parent = false →
  ancestry (connected c) parent (e :: l) → payable c e → arr_Z requested ≠ 0 →
  ∃ w, build_pplns_window_at_parent c parent requested = Ok w ∧
    window_spec (arr_Z requested) (e :: l) w.
Proof.
  intros Hinv Hcons Hz Hanc Hpay Hreq. pose proof (work256_range requested) as Hrr.
  unfold build_pplns_window_at_parent, find_parent, find. rewrite work_to_int_Z, Hz.
  rewrite (proj2 (Z.eqb_neq (arr_Z requested) 0)) by done. cbn [throw_if mbind res_bind].
  assert (connected c !! parent = Some e) as -> by (by inversion Hanc). cbn [mbind res_bind].
  pose proof (path_payable c parent e l Hinv Hanc Hpay) as Hpays.
  pose proof (path_facts c parent _ Hinv Hanc) as Hpos.
  pose proof (ancestry_length c parent _ Hinv Hanc) as Hlen. simpl in Hlen.
  destruct (pplns_loop_ok c (S (size (connected c))) parent e l (arr_Z requested) 0 ∅
    Hinv Hcons (credit_payouts_empty c) Hanc Hpays ltac:(lia) ltac:(lia))
    as (m & -> & Hpm & Hk & Hs).
  cbn [mbind res_bind]. unfold map_sum at 2 in Hs. rewrite map_to_list_empty in Hs.
  change (sum_by _ []) with 0 in Hs. rewrite Z.add_0_l in Hs.
  pose proof (path_work_nonneg _ Hpos) as Hpw. set (path := e :: l) in *.
  assert (∀ k, cw_work (credit_of m k) = miner_credit (credits (arr_Z requested) path) k) as Hk'
    by (intros k; rewrite Hk; unfold credit_of; by rewrite lookup_empty).
  destruct (credits_rows c m (arr_Z requested) path Hinv Hpm Hpos Hrr Hk' Hs)
    as (Hrows & Hsum & Hok).
  destruct (int_to_work_ok (arr_Z requested - (arr_Z requested -
    Z.min (arr_Z requested) (path_work path)))) as [-> Hcov]; [lia|]. cbn [mbind res_bind].
  rewrite window_rows_ok by (intros k row Hin%elem_of_map_sorted; by apply (Hrows k)).
  fold (rows_of m). eexists. split; [done|].
  constructor; cbn [covered_work complete included_shares miners]; try done.
  - rewrite Hcov. lia.
  - apply eq_true_iff_eq. rewrite Z.eqb_eq, bool_decide_eq_true. lia.
  - rewrite Hcov, Hsum. lia.
  - intros k. by rewrite rows_of_total, Hk' by done.
Qed.

(** ** The sidechain window *)

Lemma recent_loop_ok c room : ∀ id e l acc,
  chain_inv c → ancestry (connected c) id (e :: l) → Forall (payable c) (e :: l) →
  recent_loop room c e acc = Ok (acc + path_work (take room (e :: l))).
Proof.
  induction room as [|room IH]; intros id e l acc Hinv Hanc Hpay.
  { simpl. unfold path_work. simpl. by rewrite Z.add_0_r. }
  apply Forall_cons in Hpay as [He Hpay].
  assert (connected c !! id = Some e) as Hlook by (by inversion Hanc).
  destruct (entry_work c id e Hinv Hlook) as (w & Hw & Hwi & Hpos).
  cbn [recent_loop take]. unfold require_validated_payout_ancestry.
  assert (enforces_sidechain_difficulty c && negb (validated_ancestry e) = false) as ->.
  { destruct (enforces_sidechain_difficulty c) eqn:E; [|done]. by rewrite He. }
  rewrite Hw. simpl. rewrite Hwi, (proj2 (Z.eqb_neq (difficulty_of e) 0)) by lia. simpl.
  inversion Hanc as [? ? He' Hr|? ? ? He' Hr Hanc']; subst; unfold is_root in Hr; rewrite Hr.
  { rewrite take_nil. unfold path_work, mret, res_ret. simpl. f_equal. lia. }
  destruct l as [|e2 l2]; [inversion Hanc'|].
  assert (find c (parent_id (cs_share e)) = Some e2) as -> by (by inversion Hanc').
  rewrite (IH _ e2 l2) by done. f_equal.
  change (path_work (e :: take room (e2 :: l2)))
    with (difficulty_of e + path_work (take room (e2 :: l2))). lia.
Qed.

(** The work the sidechain window asks for. *)
Definition sidechain_request (params : SidechainParameters) (network : Difficulty128)
    (path : list ConnectedShare) : Z :=
  Z.min (path_work (take (Z.to_nat (pplns_window_shares params)) path))
    (arr_Z network * pplns_max_network_difficulty_multiplier params).

Lemma difficulty_of_range e : 0 ≤ difficulty_of e ≤ u128_max.
Proof. apply diff128_range. Qed.

Lemma path_work_bound l : path_work l ≤ u128_max * Z.of_nat (length l).
Proof.
  unfold path_work. induction l as [|e l IH]; simpl sum_by; simpl length; [lia|].
  pose proof (difficulty_of_range e). lia.
Qed.

Lemma sidechain_request_bounds params network e l :
  path_pos (e :: l) → 0 < pplns_window_shares params ≤ 31 →
  0 < pplns_max_network_difficulty_multiplier params → 0 < arr_Z network →
  0 < sidechain_request params network (e :: l) ≤ u256_max.
Proof.
  intros Hpos Hwin Hmul Hn0. destruct (path_pos_cons _ _ Hpos) as [Hde Hpl].
  unfold sidechain_request. set (n := Z.to_nat (pplns_window_shares params)).
  destruct n as [|n'] eqn:En; [lia|].
  assert (0 ≤ path_work (take n' l)) as Htake.
  { apply path_work_nonneg. intros x Hx. apply Hpl. by eapply subseteq_take. }
  pose proof (path_work_bound (take (S n') (e :: l))) as Hb. rewrite length_take in Hb.
  change (path_work (take (S n') (e :: l))) with (difficulty_of e + path_work (take n' l)) in *.
  split; [apply Z.min_glb_lt; nia|].
  etransitivity; [apply Z.le_min_l|]. etransitivity; [exact Hb|].
  transitivity (u128_max * 31); [|done]. apply Z.mul_le_mono_nonneg_l; [done|lia].
Qed.

Definition bound_check (params : SidechainParameters) (w : PplnsWindow) : res PplnsWindow :=
  _ ← throw_if (negb (complete w) ||
                (pplns_window_shares params <? Z.of_nat (included_shares w))) LogicError
        "sidechain PPLNS policy bound was violated";
  mret w.

Lemma sidechain_reduces c parent e params network nw requested w :
  connected c !! parent = Some e → is_zero_share_id parent = false →
  0 < pplns_window_shares params ≤ kCanonicalPplnsWindowShares →
  0 < pplns_max_network_difficulty_multiplier params → difficulty128_is_zero network = false →
  (∃ recent, recent_loop (Z.to_nat (pplns_window_shares params)) c e 0 = Ok recent ∧
    requested = Z.min recent (arr_Z network * pplns_max_network_difficulty_multiplier params)) →
  share_work network = Ok nw → arr_Z nw = arr_Z network →
  0 < requested → int_to_work requested = Ok w →
  build_sidechain_pplns_window_at_parent c parent params network =
  (build_pplns_window_at_parent c parent w ≫= bound_check params).
Proof.
  intros He Hz Hwin Hmul Hnet (recent & Hr & Hreq) Hnw Hnwz Hpos Hi.
  unfold build_sidechain_pplns_window_at_parent, find_parent, find.
  rewrite (proj2 (Z.eqb_neq (pplns_window_shares params) 0)),
    (proj2 (Z.ltb_ge kCanonicalPplnsWindowShares _)),
    (proj2 (Z.eqb_neq (pplns_max_network_difficulty_multiplier params) 0)) by lia.
  rewrite Hz, Hnet, He. cbn [throw_if mbind res_bind orb]. rewrite Hr. cbn [mbind res_bind].
  rewrite Hnw. cbn [mbind res_bind]. rewrite work_to_int_Z, Hnwz, <-Hreq.
  rewrite (proj2 (Z.leb_gt requested 0)) by lia. cbn [throw_if mbind res_bind]. by rewrite Hi.
Qed.

Lemma sidechain_window_ok c parent e l params network :
  chain_inv c → payout_consistent c → is_zero_share_id parent = false →
  ancestry (connected c) parent (e :: l) → payable c e →
  0 < pplns_window_shares params ≤ kCanonicalPplnsWindowShares →
  0 < pplns_max_network_difficulty_multiplier params → difficulty128_is_zero network = false →
  ∃ w, build_sidechain_pplns_window_at_parent c parent params network = Ok w ∧
    0 < sidechain_request params network (e :: l) ∧
    window_spec (sidechain_request params network (e :: l)) (e :: l) w ∧ complete w = true ∧
    Z.of_nat (included_shares w) ≤ pplns_window_shares params.
Proof.
  intros Hinv Hcons Hz Hanc Hpay Hwin Hmul Hnet.
  pose proof (path_facts c parent _ Hinv Hanc) as Hpos.
  pose proof (path_payable c parent e l Hinv Hanc Hpay) as Hpays.
  destruct (share_work_ok _ Hnet) as (nw & Hnw & Hnwz).
  assert (0 < arr_Z network) as Hn0.
  { rewrite difficulty128_is_zero_Z in Hnet. bool_prop. pose proof (arr_Z_range network). lia. }
  pose proof (sidechain_request_bounds params network e l Hpos Hwin Hmul Hn0) as Hreq.
  pose proof (recent_loop_ok c (Z.to_nat (pplns_window_shares params)) parent e l 0
    Hinv Hanc Hpays) as Hrec. rewrite Z.add_0_l in Hrec.
  assert (sidechain_request params network (e :: l) ≤
    path_work (take (Z.to_nat (pplns_window_shares params)) (e :: l))) as Hrt by apply Z.le_min_l.
  destruct (int_to_work_ok (sidechain_request params network (e :: l))) as [Hi Hv]; [lia|].
  rewrite (sidechain_reduces c parent e params network nw _ _ ltac:(by inversion Hanc) Hz Hwin
    Hmul Hnet (ex_intro _ _ (conj Hrec eq_refl)) Hnw Hnwz (proj1 Hreq) Hi).
  destruct (build_window_ok c parent e l
    (fill_be 32 (sidechain_request params network (e :: l))) Hinv Hcons Hz Hanc Hpay)
    as (w & Hw & Hspec); [rewrite Hv; lia|]. rewrite Hv in Hspec.
  assert (complete w = true) as Hcomp.
  { rewrite (ws_complete _ _ _ Hspec). apply bool_decide_eq_true.
    pose proof (path_work_take (Z.to_nat (pplns_window_shares params)) _ Hpos). lia. }
  assert (Z.of_nat (included_shares w) ≤ pplns_window_shares params) as Hinc.
  { rewrite (ws_included _ _ _ Hspec).
    pose proof (credits_length (e :: l) _ _ Hpos Hrt ltac:(lia)). lia. }
  exists w. split; [|split; [apply Hreq|done]]. rewrite Hw. cbn [mbind res_bind].
  unfold bound_check. rewrite Hcomp, (proj2 (Z.ltb_ge _ _)) by lia. done.
Qed.

Lemma miner_credit_elem l k :
  0 < miner_credit l k → k ∈ (λ p, miner_id (cs_share p.1)) <$> l.
Proof.
  unfold miner_credit. intros Hpos.
  destruct (filter (λ p, miner_id (cs_share p.1) = k) l) as [|[e z] f] eqn:Ef; [simpl in Hpos; lia|].
  assert ((e, z) ∈ filter (λ p, miner_id (cs_share p.1) = k) l) as Hin by (rewrite Ef; left).
  apply list_elem_of_filter in Hin as [Hk Hin]. simpl in Hk. rewrite <-Hk.
  by apply (list_elem_of_fmap_2 (λ p, miner_id (cs_share p.1)) _ (e, z)).
Qed.

Lemma NoDup_length_le (l k : list MinerId) : NoDup l → l ⊆ k → (length l ≤ length k)%nat.
Proof. intros Hnd Hsub. by apply submseteq_length, NoDup_submseteq. Qed.

(** ** Properties *)

(** C22: a PPLNS window credits exactly the requested work.  From a connected
    share of a reachable chain (validated, when the chain enforces the consensus
    difficulty) the window is always built; it covers the smaller of the
    requested work and the work of the whole path, it is complete exactly when
    the path has enough, each miner's row is the sum of what its shares are
    credited newest first, and the rows add up to the covered work. *)
Theorem pplns_window_exact : ∀ `{!ProgPow} c parent e requested,
  reachable c → payout_consistent c → connected c !! parent = Some e →
  is_zero_share_id parent = false → payable c e → arr_Z requested ≠ 0 →
  ∃ path w, ancestry (connected c) parent (e :: path) ∧
    build_pplns_window_at_parent c parent requested = Ok w ∧
    window_spec (arr_Z requested) (e :: path) w.
Proof.
  intros ? c parent e requested Hc Hcons He Hz Hpay Hreq.
  apply reachable_good in Hc as [Hinv _].
  destruct (ancestry_total c parent e Hinv He) as (l & Hanc & _).
  destruct (build_window_ok c parent e l requested Hinv Hcons Hz Hanc Hpay Hreq) as (w & Hw & Hs).
  exists l, w. done.
Qed.

(** The sidechain payout is always computable and bounded.  From every
    validated share of a reachable chain and every legal parameter set, the
    sidechain window is built without error, is complete and spans at most
    [pplns_window_shares] shares, hence pays at most that many miners; and
    dividing any reward over it succeeds and pays out the reward to the last
    atomic unit. *)
Theorem sidechain_payout_exact : ∀ `{!ProgPow} c parent e params network reward,
  reachable c → payout_consistent c → connected c !! parent = Some e →
  is_zero_share_id parent = false → payable c e →
  0 < pplns_window_shares params ≤ kCanonicalPplnsWindowShares →
  0 < pplns_max_network_difficulty_multiplier params → difficulty128_is_zero network = false →
  is_u64 reward →
  ∃ w payouts, build_sidechain_pplns_window_at_parent c parent params network = Ok w ∧
    complete w = true ∧ Z.of_nat (included_shares w) ≤ pplns_window_shares params ∧
    allocate_pplns_reward w reward = Ok payouts ∧ sum_by pp_amount payouts = reward ∧
    Z.of_nat (length payouts) ≤ pplns_window_shares params.
Proof.
  intros ? c parent e params network reward Hc Hcons He Hz Hpay Hwin Hmul Hnet Hr.
  apply reachable_good in Hc as [Hinv _].
  destruct (ancestry_total c parent e Hinv He) as (l & Hanc & _).
  destruct (sidechain_window_ok c parent e l params network Hinv Hcons Hz Hanc Hpay Hwin Hmul Hnet)
    as (w & Hw & Hpos & Hs & Hcomp & Hinc).
  assert (0 < sum_by row_work (miners w)) as Htot.
  { rewrite (ws_sum _ _ _ Hs), (ws_covered _ _ _ Hs).
    pose proof (ws_complete _ _ _ Hs) as Hb. rewrite Hcomp in Hb. symmetry in Hb. bool_prop. lia. }
  destruct (allocate_paid w reward Hr (ws_rows _ _ _ Hs) Htot) as (payouts & Ha & Hsum & Hnd & Hids).
  exists w, payouts. split; [done|]. split; [done|]. split; [done|]. split; [done|].
  split; [done|]. etransitivity; [|exact Hinc]. apply Nat2Z.inj_le.
  rewrite (ws_included _ _ _ Hs), <-(length_fmap pp_miner_id payouts),
    <-(length_fmap (λ p, miner_id (cs_share p.1)) (credits _ _)).
  apply NoDup_length_le; [done|]. intros k Hk%Hids. rewrite (ws_miner _ _ _ Hs) in Hk.
  by apply miner_credit_elem.
Qed.

Lemma demo_payout_consistent : payout_consistent demo_c3.
Proof.
  assert (map_Forall (λ _ e, payout (cs_share e) = Some demo_payout) (connected demo_c3)) as Hall.
  { apply (bool_decide_unpack _). demo_unfold. vm_compute. exact I. }
  intros i j e f p q He Hf _ Hp Hq. assert (payout (cs_share e) = Some demo_payout) as E1 by exact (Hall i e He).
  assert (payout (cs_share f) = Some demo_payout) as E2 by exact (Hall j f Hf).
  rewrite E1 in Hp. rewrite E2 in Hq. injection Hp as <-. by injection Hq as <-.
Qed.

Lemma demo_tip_payable : payable demo_c3 demo_tip_entry.
Proof. intros _. vm_compute. reflexivity. Qed.

Lemma pplns_window_witness :
  ∃ w, build_pplns_window_at_parent demo_c3 demo_tip_id (fill_be 32 250000000) = Ok w ∧
       arr_Z (covered_work w) ≤ 250000000.
Proof.
  destruct (@pplns_window_exact demo_pow demo_c3 demo_tip_id demo_tip_entry
    (fill_be 32 250000000) demo_c3_reachable demo_payout_consistent demo_c3_tip)
    as (path & w & _ & Hw & Hs).
  - vm_compute. reflexivity.
  - exact demo_tip_payable.
  - vm_compute. discriminate.
  - exists w. split; [exact Hw|]. rewrite (ws_covered _ _ _ Hs).
    etransitivity; [apply Z.le_min_l|]. vm_compute. discriminate.
Defined.

Lemma sidechain_payout_witness :
  ∃ w payouts, build_sidechain_pplns_window_at_parent demo_c3 demo_tip_id demo_params
    (fill_be 16 5000000000) = Ok w ∧
    allocate_pplns_reward w 1000000000000 = Ok payouts ∧
    sum_by pp_amount payouts = 1000000000000.
Proof.
  destruct (@sidechain_payout_exact demo_pow demo_c3 demo_tip_id demo_tip_entry demo_params
    (fill_be 16 5000000000) 1000000000000 demo_c3_reachable demo_payout_consistent demo_c3_tip)
    as (w & payouts & Hw & _ & _ & Ha & Hs & _).
  - vm_compute. reflexivity.
  - exact demo_tip_payable.
  - vm_compute. split; [reflexivity|discriminate].
  - vm_compute. reflexivity.
  - vm_compute. reflexivity.
  - unfold is_u64, u64_max. lia.
  - exists w, payouts. split; [exact Hw|]. split; [exact Ha|exact Hs].
Defined.

Definition demo_window : PplnsWindow :=
  mkWindow (fill_be 32 10) (fill_be 32 10) 3 true
    [mkMinerWork (fill_be 32 1) (fill_be 32 3) None;
     mkMinerWork (fill_be 32 2) (fill_be 32 3) None;
     mkMinerWork (fill_be 32 3) (fill_be 32 4) None].

Lemma allocate_reward_witness :
  ∃ payouts, allocate_pplns_reward demo_window 100 = Ok payouts ∧ sum_by pp_amount payouts = 100.
Proof.
  destruct (allocate_reward_exact demo_window 100) as (payouts & Ha & Hs & _).
  - unfold is_u64, u64_max. lia.
  - split.
    + intros r p Hr Hp. unfold demo_window in Hr. cbn [miners] in Hr.
      repeat (apply elem_of_cons in Hr as [->|Hr]; [discriminate Hp|]). by apply elem_of_nil in Hr.
    + intros r1 r2 p q Hr _ _ Hp _. unfold demo_window in Hr. cbn [miners] in Hr.
      repeat (apply elem_of_cons in Hr as [->|Hr]; [discriminate Hp|]). by apply elem_of_nil in Hr.
    + vm_compute. discriminate.
  - vm_compute. reflexivity.
  - exists payouts. split; [exact Ha|exact Hs].
Defined.
