(* ===== verification/PplnsCoinbase.v ===== *)
(** The coinbase payout plan: [include/zano_p2pool/pplns_coinbase.hpp],
    [src/pplns_coinbase.cpp]. *)
From S2P Require Import Prelude CryptoHash PowTarget Share SidechainParams Difficulty ShareChain.
From S2P Require Import ChainWork ChainInv ChainPromote ChainAdmit ChainReplay ChainPrune.
From S2P Require Import ChainHistory Demo Pplns PplnsReward PplnsWindows.

(** ** Model *)

Definition kZanoHf6MaxCoinbaseOutputs : nat := 32.

Inductive PplnsCoinbasePlanStatus :=
| Ready | EmptyWindow | IncompleteWindow | MissingPayoutIdentity
| TooManyRecipients | ZeroPayout | RewardSumMismatch.
#[export] Instance PplnsCoinbasePlanStatus_eq_dec : EqDecision PplnsCoinbasePlanStatus.
Proof. solve_decision. Defined.

Record PplnsCoinbaseDestination := mkDest {
  dest_miner_id : MinerId;
  dest_payout : PayoutPublicKeys;
  dest_amount : Z }.

Record PplnsCoinbasePlan := mkPlan {
  plan_status : PplnsCoinbasePlanStatus;
  plan_reward : Z;
  destinations : list PplnsCoinbaseDestination }.

(** [None] is [return false]. *)
Definition calculate_basis_point_share (amount basis_points : Z) : option Z :=
  if kOperatorFeeBasisPointDenominator <=? basis_points then None else
  let whole := amount / kOperatorFeeBasisPointDenominator in
  let remainder := amount mod kOperatorFeeBasisPointDenominator in
  if negb (basis_points =? 0) && (u64_max / basis_points <? whole) then None else
  let whole_fee := wrap64 (whole * basis_points) in
  let remainder_fee :=
    wrap64 (remainder * basis_points) / kOperatorFeeBasisPointDenominator in
  if wrap64 (u64_max - whole_fee) <? remainder_fee then None
  else Some (wrap64 (whole_fee + remainder_fee)).

(** The loop over the payouts: the failure status, or the total and the
    destinations. *)
Fixpoint collect_destinations (payouts : list PplnsPayout) (total : Z)
    : PplnsCoinbasePlanStatus + (Z * list PplnsCoinbaseDestination) :=
  match payouts with
  | [] => inr (total, [])
  | p :: rest =>
      match pp_payout p with
      | None => inl MissingPayoutIdentity
      | Some keys =>
          if negb (arr_eqb (pp_miner_id p) (miner_id_from_payout keys))
          then inl MissingPayoutIdentity
          else if pp_amount p =? 0 then inl ZeroPayout
          else if wrap64 (u64_max - total) <? pp_amount p then inl RewardSumMismatch
          else match collect_destinations rest (wrap64 (total + pp_amount p)) with
               | inl status => inl status
               | inr (total, dests) =>
                   inr (total, mkDest (pp_miner_id p) keys (pp_amount p) :: dests)
               end
      end
  end.

(** [find_if] for the operator's keys, and the update through the iterator. *)
Fixpoint merge_operator (dests : list PplnsCoinbaseDestination) (keys : PayoutPublicKeys)
    (fee : Z) : option (PplnsCoinbasePlanStatus + list PplnsCoinbaseDestination) :=
  match dests with
  | [] => None
  | d :: rest =>
      if bool_decide (dest_payout d = keys) then
        if wrap64 (u64_max - dest_amount d) <? fee then Some (inl RewardSumMismatch)
        else Some (inr (mkDest (dest_miner_id d) keys (wrap64 (dest_amount d + fee)) :: rest))
      else match merge_operator rest keys fee with
           | None => None
           | Some (inl status) => Some (inl status)
           | Some (inr rest') => Some (inr (d :: rest'))
           end
  end.

Definition add_operator (dests : list PplnsCoinbaseDestination) (keys : PayoutPublicKeys)
    (fee : Z) : PplnsCoinbasePlanStatus + list PplnsCoinbaseDestination :=
  if fee =? 0 then inr dests
  else match merge_operator dests keys fee with
       | Some r => r
       | None =>
           if (kZanoHf6MaxCoinbaseOutputs <=? length dests)%nat then inl TooManyRecipients
           else inr (dests ++ [mkDest (miner_id_from_payout keys) keys fee])
       end.

Definition failed (status : PplnsCoinbasePlanStatus) (reward : Z) : PplnsCoinbasePlan :=
  mkPlan status reward [].

(** From the payouts on. *)
Definition plan_payouts (payouts : list PplnsPayout) (reward_atomic operator_fee : Z)
    (params : SidechainParameters) : PplnsCoinbasePlan :=
  if bool_decide (payouts = []) then failed EmptyWindow reward_atomic else
  if (kZanoHf6MaxCoinbaseOutputs - 1 <? length payouts)%nat ||
     (pplns_window_shares params <? Z.of_nat (length payouts))
  then failed TooManyRecipients reward_atomic else
  match collect_destinations payouts 0 with
  | inl status => failed status reward_atomic
  | inr (total, dests) =>
      if negb (total =? wrap64 (reward_atomic - operator_fee))
      then failed RewardSumMismatch reward_atomic
      else match add_operator dests (operator_fee_payout params) operator_fee with
           | inl status => failed status reward_atomic
           | inr dests =>
               if wrap64 (u64_max - total) <? operator_fee
               then failed RewardSumMismatch reward_atomic
               else if negb (wrap64 (total + operator_fee) =? reward_atomic)
               then failed RewardSumMismatch reward_atomic
               else mkPlan Ready reward_atomic dests
           end
  end.

#[export] Instance PplnsPayout_eq_dec : EqDecision PplnsPayout.
Proof. solve_decision. Defined.

Definition make_pplns_coinbase_plan (window : PplnsWindow) (reward_atomic : Z)
    (params : SidechainParameters) : res PplnsCoinbasePlan :=
  _ ← serialize_sidechain_parameters params;
  if bool_decide (length (miners window) = 0%nat) then mret (failed EmptyWindow reward_atomic)
  else if negb (complete window) then mret (failed IncompleteWindow reward_atomic)
  else match calculate_basis_point_share reward_atomic (operator_fee_basis_points params) with
       | None => mret (failed ZeroPayout reward_atomic)
       | Some operator_fee =>
           if reward_atomic <=? operator_fee then mret (failed ZeroPayout reward_atomic)
           else
             payouts ← allocate_pplns_reward window (wrap64 (reward_atomic - operator_fee));
             mret (plan_payouts payouts reward_atomic operator_fee params)
       end.

Definition pplns_coinbase_plan_status_name (s : PplnsCoinbasePlanStatus) : string :=
  match s with
  | Ready => "ready" | EmptyWindow => "empty-window"
  | IncompleteWindow => "incomplete-window"
  | MissingPayoutIdentity => "missing-payout-identity"
  | TooManyRecipients => "too-many-recipients"
  | ZeroPayout => "zero-payout" | RewardSumMismatch => "reward-sum-mismatch"
  end.

(** ** Lemmas *)

Lemma basis_point_share_ok amount bp :
  is_u64 amount → 0 ≤ bp < kOperatorFeeBasisPointDenominator →
  calculate_basis_point_share amount bp = Some (amount * bp / 10000).
Proof.
  unfold is_u64, calculate_basis_point_share. change kOperatorFeeBasisPointDenominator with 10000.
  intros Ha Hb. rewrite (proj2 (Z.leb_gt 10000 bp)) by lia.
  pose proof (Z.div_mod amount 10000 ltac:(lia)) as Hdm.
  pose proof (Z.mod_pos_bound amount 10000 ltac:(lia)) as Hm.
  set (w := amount / 10000) in *. set (r := amount mod 10000) in *.
  assert (0 ≤ w) by (apply Z.div_pos; lia).
  assert (amount * bp / 10000 = w * bp + r * bp / 10000) as ->.
  { rewrite Hdm at 1. replace ((10000 * w + r) * bp) with (r * bp + (w * bp) * 10000) by lia.
    rewrite Z.div_add by lia. lia. }
  assert (0 ≤ r * bp / 10000 ≤ r) as Hrf.
  { split; [apply Z.div_pos; nia|]. apply Z.div_le_upper_bound; nia. }
  assert (0 ≤ w * bp ∧ w * bp + r ≤ u64_max) as [Hw0 Hw1] by nia.
  assert (negb (bp =? 0) && (u64_max / bp <? w) = false) as ->.
  { destruct (Z.eqb_spec bp 0) as [->|]; [done|]. simpl. apply Z.ltb_ge.
    apply Z.div_le_lower_bound; lia. }
  rewrite (wrap64_id (w * bp)) by (unfold is_u64; lia).
  rewrite (wrap64_id (r * bp)) by (unfold is_u64, u64_max; nia).
  rewrite (wrap64_id (u64_max - _)) by (unfold is_u64; lia).
  rewrite (proj2 (Z.ltb_ge _ _)) by lia.
  by rewrite wrap64_id by (unfold is_u64; lia).
Qed.

(** What a list of destinations from payouts is. *)
Definition dests_of (payouts : list PplnsPayout) (dests : list PplnsCoinbaseDestination) : Prop :=
  Forall2 (λ p d, pp_payout p = Some (dest_payout d) ∧ pp_miner_id p = dest_miner_id d ∧
    dest_miner_id d = miner_id_from_payout (dest_payout d) ∧ pp_amount p = dest_amount d ∧
    dest_amount d ≠ 0) payouts dests.

Lemma collect_destinations_inv payouts : ∀ total total' dests,
  (∀ p, p ∈ payouts → 0 ≤ pp_amount p) → is_u64 total →
  collect_destinations payouts total = inr (total', dests) →
  dests_of payouts dests ∧ total' = total + sum_by dest_amount dests ∧ is_u64 total'.
Proof.
  induction payouts as [|p payouts IH]; intros total total' dests Hp Ht Hc; simpl in Hc.
  { injection Hc as <- <-. split; [constructor|]. simpl. split; [lia|done]. }
  destruct (pp_payout p) as [keys|] eqn:Ek; [|done].
  destruct (arr_eqb _ _) eqn:Eid; [simpl in Hc; bool_prop|done].
  destruct (Z.eqb_spec (pp_amount p) 0); [done|].
  pose proof (Hp p ltac:(left)) as H0. unfold is_u64 in Ht.
  rewrite (wrap64_id (u64_max - total)) in Hc by (unfold is_u64; lia).
  destruct (Z.ltb_spec (u64_max - total) (pp_amount p)); [done|].
  rewrite wrap64_id in Hc by (unfold is_u64; lia).
  destruct (collect_destinations payouts _) as [|[t ds]] eqn:Er; [done|]. injection Hc as <- <-.
  destruct (IH (total + pp_amount p) t ds) as (Hd & Hs & Hu); [| |done|];
    [intros; apply Hp; by right|unfold is_u64; lia|].
  split; [constructor; [|done]; simpl; done|]. simpl. split; [lia|done].
Qed.

Lemma merge_operator_inv dests keys fee dests' :
  0 ≤ fee ≤ u64_max → (∀ d, d ∈ dests → is_u64 (dest_amount d)) →
  merge_operator dests keys fee = Some (inr dests') →
  sum_by dest_amount dests' = sum_by dest_amount dests + fee ∧
  dest_payout <$> dests' = dest_payout <$> dests ∧
  dest_miner_id <$> dests' = dest_miner_id <$> dests ∧
  Forall2 (λ d d', dest_amount d ≤ dest_amount d') dests dests' ∧
  ∃ d', d' ∈ dests' ∧ dest_payout d' = keys ∧ fee ≤ dest_amount d'.
Proof.
  intros Hf. revert dests'. induction dests as [|d dests IH]; intros dests' Hu Hm; [done|].
  simpl in Hm. pose proof (Hu d ltac:(left)) as Hd. unfold is_u64 in Hd.
  destruct (bool_decide _) eqn:Ek; bool_prop.
  - rewrite (wrap64_id (u64_max - _)) in Hm by (unfold is_u64; lia).
    destruct (Z.ltb_spec (u64_max - dest_amount d) fee); [done|]. injection Hm as <-.
    rewrite wrap64_id by (unfold is_u64; lia). csimpl. split; [lia|]. rewrite <-Ek.
    split; [done|]. split; [done|]. split.
    + constructor; [simpl; lia|]. apply Forall_Forall2_diag, Forall_forall. intros x _. reflexivity.
    + eexists. split; [left|]. simpl. split; [done|lia].
  - destruct (merge_operator dests keys fee) as [[|ds]|] eqn:Er; try done. injection Hm as <-.
    destruct (IH ds) as (Hs & Hp & Hi & H2 & d' & Hin & Hk & Hge);
      [intros; apply Hu; by right|done|]. csimpl. rewrite Hp, Hi.
    split; [lia|]. split; [done|]. split; [done|].
    split; [constructor; [lia|done]|]. exists d'. split; [by right|done].
Qed.

Definition amounts_u64 (ps : list PplnsPayout) : Prop := ∀ p, p ∈ ps → is_u64 (pp_amount p).

Lemma allocate_floor_amounts rows : ∀ total reward allocated index ps fr a,
  allocate_floor rows total reward allocated index = Ok (ps, fr, a) → amounts_u64 ps.
Proof.
  induction rows as [|[k row] rows IH]; intros total reward allocated index ps fr a Ha; simpl in Ha.
  { injection Ha as <- <- <-. intros p []%elem_of_nil. }
  res_inv. match goal with H : allocate_floor rows _ _ _ _ = Ok ?x |- _ => destruct x as [[ps' fr'] a'];
    specialize (IH _ _ _ _ _ _ _ H) end.
  res_inv. intros p [->|Hp]%elem_of_cons; [apply wrap64_range|by apply IH].
Qed.

Lemma bump_amounts (l : list FractionalRow) : ∀ ps,
  amounts_u64 ps → amounts_u64 (foldl (λ ps f, alter bump (fr_index f) ps) ps l).
Proof.
  induction l as [|f l IH]; intros ps Hps; [done|]. simpl. apply IH.
  intros p Hp. apply list_elem_of_lookup in Hp as [i Hi].
  destruct (decide (i = fr_index f)) as [->|Hne].
  - rewrite list_lookup_alter_eq in Hi. destruct (ps !! fr_index f); [|done].
    injection Hi as <-. apply wrap64_range.
  - rewrite list_lookup_alter_ne in Hi by done. apply Hps. by eapply list_elem_of_lookup_2.
Qed.

Lemma allocate_amounts window reward ps :
  allocate_pplns_reward window reward = Ok ps → amounts_u64 ps.
Proof.
  unfold allocate_pplns_reward. intros Ha. res_inv.
  destruct (bool_decide _); [res_inv; intros p []%elem_of_nil|]. res_inv.
  match goal with H : allocate_floor _ _ _ _ _ = Ok ?x |- _ => destruct x as [[ps' fr'] a'];
    apply allocate_floor_amounts in H end.
  res_inv. by apply bump_amounts.
Qed.

(** ** What a ready plan promises *)

Record plan_ok (params : SidechainParameters) (reward : Z)
    (dests : list PplnsCoinbaseDestination) : Prop := {
  po_sum : sum_by dest_amount dests = reward;
  po_outputs : (length dests ≤ kZanoHf6MaxCoinbaseOutputs)%nat;
  po_positive : ∀ d, d ∈ dests → 0 < dest_amount d;
  po_binding : ∀ d, d ∈ dests → dest_miner_id d = miner_id_from_payout (dest_payout d);
  po_fee : let fee := reward * operator_fee_basis_points params / 10000 in
    fee = 0 ∨ ∃ d, d ∈ dests ∧ dest_payout d = operator_fee_payout params ∧ fee ≤ dest_amount d }.

(** What a plan gives to a set of keys, and what the division of a reward does. *)
Definition planned_for (keys : PayoutPublicKeys) (dests : list PplnsCoinbaseDestination) : Z :=
  sum_by (λ d, if bool_decide (dest_payout d = keys) then dest_amount d else 0) dests.
Definition allotted (keys : PayoutPublicKeys) (payouts : list PplnsPayout) : Z :=
  sum_by (λ p, if bool_decide (pp_payout p = Some keys) then pp_amount p else 0) payouts.

(** The operator's part of a reward. *)
Definition operator_part (params : SidechainParameters) (reward : Z) : Z :=
  reward * operator_fee_basis_points params / 10000.

(** A payout that can be paid: to keys its miner is named after, and more than nothing. *)
Definition payable (p : PplnsPayout) : Prop :=
  ∃ keys, pp_payout p = Some keys ∧ pp_miner_id p = miner_id_from_payout keys ∧ 0 < pp_amount p.

(** [payouts] divide what the operator leaves of the reward, and all of it can be paid. *)
Record divides (params : SidechainParameters) (window : PplnsWindow) (reward : Z)
    (payouts : list PplnsPayout) : Prop := {
  dv_miners : miners window ≠ [];
  dv_complete : complete window = true;
  dv_fee : operator_part params reward < reward;
  dv_allocated : allocate_pplns_reward window (reward - operator_part params reward) = Ok payouts;
  dv_nonempty : payouts ≠ [];
  dv_outputs : (length payouts ≤ kZanoHf6MaxCoinbaseOutputs - 1)%nat;
  dv_window : Z.of_nat (length payouts) ≤ pplns_window_shares params;
  dv_payable : Forall payable payouts;
  dv_sum : sum_by pp_amount payouts = reward - operator_part params reward }.

(** Every recipient gets its part of the division, and the operator its fee besides. *)
Definition pays_division (params : SidechainParameters) (reward : Z) (payouts : list PplnsPayout)
    (dests : list PplnsCoinbaseDestination) : Prop :=
  ∀ keys, planned_for keys dests = allotted keys payouts +
    if bool_decide (keys = operator_fee_payout params) then operator_part params reward else 0.

Lemma dests_of_planned payouts dests keys :
  dests_of payouts dests → planned_for keys dests = allotted keys payouts.
Proof.
  unfold planned_for, allotted. induction 1 as [|p d ps ds (Hk & _ & _ & Ha & _) _ IH]; [done|].
  cbn [sum_by]. rewrite IH, Hk, Ha. f_equal. apply (f_equal (λ b : bool, if b then _ else _)).
  apply bool_decide_ext. split; [by intros ->|by intros [= ->]].
Qed.

Lemma merge_operator_planned dests keys fee k : ∀ dests',
  0 ≤ fee → (∀ d, d ∈ dests → is_u64 (dest_amount d)) → merge_operator dests keys fee = Some (inr dests') →
  planned_for k dests' = planned_for k dests + if bool_decide (k = keys) then fee else 0.
Proof.
  unfold planned_for. induction dests as [|d dests IH]; intros dests' Hf Hu Hm; [done|]. simpl in Hm.
  pose proof (Hu d ltac:(left)) as Hd. unfold is_u64 in Hd.
  destruct (bool_decide (dest_payout d = keys)) eqn:Ek; bool_prop.
  - rewrite (wrap64_id (u64_max - _)) in Hm by (unfold is_u64; lia).
    destruct (Z.ltb_spec (u64_max - dest_amount d) fee); [done|]. injection Hm as <-.
    rewrite wrap64_id by (unfold is_u64; lia). cbn [sum_by dest_payout dest_amount]. rewrite Ek.
    repeat case_bool_decide; first [congruence | lia].
  - destruct (merge_operator dests keys fee) as [[|ds]|] eqn:Er; try done. injection Hm as <-.
    cbn [sum_by]. rewrite (IH ds) by (try done; intros; apply Hu; by right). lia.
Qed.

Lemma add_operator_planned dests keys fee dests' k :
  0 ≤ fee → (∀ d, d ∈ dests → is_u64 (dest_amount d)) → add_operator dests keys fee = inr dests' →
  planned_for k dests' = planned_for k dests + if bool_decide (k = keys) then fee else 0.
Proof.
  intros Hf Hu. unfold add_operator. destruct (Z.eqb_spec fee 0) as [->|]; [intros [= <-]; case_bool_decide; lia|].
  destruct (merge_operator dests keys fee) as [r|] eqn:Em; [intros ->; by eapply merge_operator_planned|].
  destruct (_ <=? _)%nat; [done|]. intros [= <-]. unfold planned_for. rewrite sum_by_app. cbn.
  repeat case_bool_decide; first [congruence | lia].
Qed.

(** Payouts that can be paid become destinations, as long as they fit. *)
Lemma collect_destinations_complete payouts : ∀ total,
  0 ≤ total → Forall payable payouts → total + sum_by pp_amount payouts ≤ u64_max →
  ∃ dests, collect_destinations payouts total = inr (total + sum_by pp_amount payouts, dests).
Proof.
  induction payouts as [|p payouts IH]; intros total Ht Hp Hs; cbn [sum_by] in *.
  { exists []. cbn. by rewrite Z.add_0_r. }
  apply Forall_cons in Hp as [(keys & Hk & Hid & Hpos) Hp].
  assert (0 ≤ sum_by pp_amount payouts).
  { apply sum_by_nonneg. intros x Hx. rewrite Forall_forall in Hp. destruct (Hp x Hx) as (_ & _ & _ & ?). lia. }
  cbn [collect_destinations]. rewrite Hk, Hid, arr_eqb_refl. cbn [negb].
  rewrite (proj2 (Z.eqb_neq _ 0)) by lia. rewrite (wrap64_id (u64_max - total)) by (unfold is_u64; lia).
  rewrite (proj2 (Z.ltb_ge _ _)) by lia. rewrite wrap64_id by (unfold is_u64; lia).
  destruct (IH (total + pp_amount p)) as [ds ->]; [lia|done|lia|]. eexists. do 2 f_equal. lia.
Qed.

Lemma merge_operator_complete dests keys fee :
  0 ≤ fee → (∀ d, d ∈ dests → 0 ≤ dest_amount d ∧ dest_amount d + fee ≤ u64_max) →
  ∀ status, merge_operator dests keys fee ≠ Some (inl status).
Proof.
  intros Hf. induction dests as [|d dests IH]; intros Hd status; [done|]. cbn [merge_operator].
  destruct (Hd d ltac:(left)). case_bool_decide.
  - rewrite (wrap64_id (u64_max - _)) by (unfold is_u64; lia). by rewrite (proj2 (Z.ltb_ge _ _)) by lia.
  - pose proof (IH ltac:(intros; apply Hd; by right)) as IH'.
    destruct (merge_operator dests keys fee) as [[st|]|]; try done.
Qed.

Lemma add_operator_complete dests keys fee :
  0 ≤ fee → (length dests < kZanoHf6MaxCoinbaseOutputs)%nat →
  (∀ d, d ∈ dests → 0 ≤ dest_amount d ∧ dest_amount d + fee ≤ u64_max) →
  ∃ dests', add_operator dests keys fee = inr dests'.
Proof.
  intros Hf Hl Hd. unfold add_operator. destruct (_ =? 0); [eauto|].
  pose proof (merge_operator_complete dests keys fee Hf Hd) as Hm.
  destruct (merge_operator dests keys fee) as [[st|ds]|]; [by specialize (Hm st)|eauto|].
  rewrite (proj2 (Nat.leb_gt _ _)) by done. eauto.
Qed.

Lemma dests_of_facts payouts dests :
  amounts_u64 payouts → dests_of payouts dests →
  ∀ d, d ∈ dests → is_u64 (dest_amount d) ∧ 0 < dest_amount d ∧
    dest_miner_id d = miner_id_from_payout (dest_payout d).
Proof.
  intros Hu H2 d [i Hi]%list_elem_of_lookup.
  destruct (Forall2_lookup_r _ _ _ _ _ H2 Hi) as (p & Hp & _ & _ & Hb & Ha & Hn).
  pose proof (Hu p ltac:(by eapply list_elem_of_lookup_2)) as Hr. rewrite Ha in Hr.
  split; [done|]. split; [unfold is_u64 in Hr; lia|done].
Qed.

Lemma add_operator_ok dests keys fee dests' :
  0 ≤ fee ≤ u64_max → (length dests ≤ 31)%nat →
  (∀ d, d ∈ dests → is_u64 (dest_amount d) ∧ 0 < dest_amount d ∧
    dest_miner_id d = miner_id_from_payout (dest_payout d)) →
  add_operator dests keys fee = inr dests' →
  sum_by dest_amount dests' = sum_by dest_amount dests + fee ∧
  (length dests' ≤ kZanoHf6MaxCoinbaseOutputs)%nat ∧
  (∀ d, d ∈ dests' → 0 < dest_amount d ∧ dest_miner_id d = miner_id_from_payout (dest_payout d)) ∧
  (fee = 0 ∨ ∃ d, d ∈ dests' ∧ dest_payout d = keys ∧ fee ≤ dest_amount d).
Proof.
  intros Hf Hlen Hd Ha. unfold add_operator, kZanoHf6MaxCoinbaseOutputs in *.
  destruct (Z.eqb_spec fee 0) as [->|Hne].
  { injection Ha as <-. split; [lia|]. split; [lia|]. split; [|by left].
    intros d Hin. by destruct (Hd d Hin) as (_ & ? & ?). }
  destruct (merge_operator dests keys fee) as [r|] eqn:Em.
  - subst r. destruct (merge_operator_inv _ _ _ _ Hf (λ d Hin, proj1 (Hd d Hin)) Em)
      as (Hs & Hp & Hi & H2 & Hop).
    assert (length dests' = length dests) as Hl by (by apply Forall2_length in H2).
    split; [done|]. split; [lia|]. split; [|by right].
    intros d [i Hin]%list_elem_of_lookup.
    destruct (Forall2_lookup_r _ _ _ _ _ H2 Hin) as (d0 & Hd0 & Hle).
    destruct (Hd d0 ltac:(by eapply list_elem_of_lookup_2)) as (_ & Hpos & Hb).
    assert (dest_payout <$> dests' !! i = dest_payout <$> dests !! i) as Ep
      by (by rewrite <-!list_lookup_fmap, Hp).
    assert (dest_miner_id <$> dests' !! i = dest_miner_id <$> dests !! i) as Ei
      by (by rewrite <-!list_lookup_fmap, Hi).
    rewrite Hin, Hd0 in Ep, Ei. injection Ep as ->. injection Ei as ->. split; [lia|done].
  - destruct (Nat.leb_spec 32 (length dests)); [done|]. injection Ha as <-.
    rewrite sum_by_app, length_app. simpl. split; [lia|]. split; [lia|]. split.
    + intros d [Hin| ->%list_elem_of_singleton]%elem_of_app; [by destruct (Hd d Hin) as (_ & ? & ?)|].
      simpl. split; [lia|done].
    + right. eexists. split; [apply elem_of_app; right; left|]. simpl. split; [done|lia].
Qed.

Lemma add_operator_status dests keys fee : add_operator dests keys fee ≠ inl Ready.
Proof.
  unfold add_operator. destruct (fee =? 0); [done|].
  destruct (merge_operator dests keys fee) as [r|] eqn:Em; [|by destruct (_ <=? _)%nat].
  intros ->. revert Em. induction dests as [|d dests IH]; simpl; [done|].
  destruct (bool_decide _); [by destruct (_ <? _)|].
  destruct (merge_operator dests keys fee) as [[|]|]; done.
Qed.

Lemma collect_destinations_status payouts z : collect_destinations payouts z ≠ inl Ready.
Proof.
  revert z. induction payouts as [|p ps IH]; intros z; simpl; [done|].
  destruct (pp_payout p); [|done]. destruct (negb _); [done|].
  destruct (_ =? _); [done|]. destruct (_ <? _); [done|].
  pose proof (IH (wrap64 (z + pp_amount p))).
  destruct (collect_destinations ps _) as [st|[]]; [|done]. intros [= ->]. done.
Qed.

Lemma plan_payouts_ok payouts reward fee params :
  is_u64 reward → 0 ≤ fee < reward → fee = reward * operator_fee_basis_points params / 10000 →
  amounts_u64 payouts →
  let plan := plan_payouts payouts reward fee params in
  plan_reward plan = reward ∧
  if bool_decide (plan_status plan = Ready) then plan_ok params reward (destinations plan)
  else destinations plan = [].
Proof.
  intros Hr Hf Hfee Hu. unfold plan_payouts, is_u64 in *.
  assert (∀ st, st ≠ Ready → plan_reward (failed st reward) = reward ∧
    if bool_decide (plan_status (failed st reward) = Ready)
    then plan_ok params reward (destinations (failed st reward))
    else destinations (failed st reward) = []) as Hfail.
  { intros st Hst. rewrite bool_decide_false by done. done. }
  destruct (bool_decide (payouts = [])); [by apply Hfail|].
  destruct (_ || _) eqn:Eb; [by apply Hfail|]. apply orb_false_iff in Eb as [Eb _].
  apply Nat.ltb_ge in Eb.
  destruct (collect_destinations payouts 0) as [st|[total dests]] eqn:Ec.
  { apply Hfail. intros ->. by apply collect_destinations_status in Ec. }
  destruct (collect_destinations_inv payouts 0 total dests (λ p Hp, proj1 (Hu p Hp)) ltac:(done) Ec)
    as (Hd & Ht & Htu).
  rewrite (wrap64_id (reward - fee)) by (unfold is_u64; lia).
  destruct (Z.eqb_spec total (reward - fee)) as [Etot|]; [cbn [negb]|by apply Hfail].
  destruct (add_operator dests (operator_fee_payout params) fee) as [st|dests'] eqn:Ea.
  { apply Hfail. intros ->. by apply add_operator_status in Ea. }
  destruct (_ <? fee); [by apply Hfail|].
  destruct (negb _); [by apply Hfail|]. split; [done|]. rewrite bool_decide_true by done.
  cbn [destinations]. assert (length dests = length payouts) as Hl by (by apply Forall2_length in Hd).
  destruct (add_operator_ok dests (operator_fee_payout params) fee dests' ltac:(lia)
    ltac:(unfold kZanoHf6MaxCoinbaseOutputs in Eb; lia)
    (dests_of_facts _ _ Hu Hd) Ea) as (Hs & Hlen & Hall & Hop).
  split; try done.
  - rewrite Hs. lia.
  - intros d Hin. by apply Hall.
  - intros d Hin. by apply Hall.
  - cbn zeta. by rewrite <-Hfee.
Qed.

(** ** Properties *)

Lemma make_plan_ok : ∀ window reward params plan,
  params_wf params → is_u64 reward →
  make_pplns_coinbase_plan window reward params = Ok plan →
  plan_reward plan = reward ∧
  if bool_decide (plan_status plan = Ready) then plan_ok params reward (destinations plan)
  else destinations plan = [].
Proof.
  intros window reward params plan Hwf Hr Hp. unfold make_pplns_coinbase_plan in Hp. res_inv.
  match goal with H : serialize_sidechain_parameters params = Ok _ |- _ =>
    apply serialize_params_ok in H as [Hv _] end.
  pose proof (pwf_fee _ Hwf) as Hbp. destruct Hv as [_ _ _ _ _ _ _ _ Hfee _].
  rewrite basis_point_share_ok in Hp by (try done; unfold is_u64 in Hbp;
    change kOperatorFeeBasisPointDenominator with 10000; lia).
  destruct (bool_decide (length _ = _)); [res_inv; by split|].
  destruct (negb _); [res_inv; by split|].
  destruct (Z.leb_spec reward (reward * operator_fee_basis_points params / 10000));
    [res_inv; by split|]. res_inv.
  match goal with H : allocate_pplns_reward _ _ = Ok _ |- _ => apply allocate_amounts in H end.
  apply plan_payouts_ok; try done. split; [|done].
  apply Z.div_pos; unfold is_u64 in *; nia.
Qed.


Definition demo_paid_window : PplnsWindow :=
  mkWindow (fill_be 32 10) (fill_be 32 10) 1 true
    [mkMinerWork demo_miner (fill_be 32 10) (Some demo_payout)].

Lemma demo_plan_ok : is_ok (make_pplns_coinbase_plan demo_paid_window 1000000 demo_params) = true.
Proof. vm_compute. reflexivity. Qed.

