(* ===== verification/P2pProtocol.v ===== *)
(** The peer-to-peer envelope and the handshake:
    [include/zano_p2pool/p2p_protocol.hpp], [src/p2p_protocol.cpp]. *)
From S2P Require Import Prelude CryptoHash PowTarget Share SidechainParams.

(** ** Fixed-offset fields *)

Definition append_u16_be (out : list byte) (value : Z) : list byte := out ++ be_bytes 2 value.
Definition append_u32_be (out : list byte) (value : Z) : list byte := out ++ be_bytes 4 value.

(** The reader shared by [read_u16_be], [read_u32_be] and [read_u64_be]: shift and
    or, most significant byte first, at width [n]. *)
Definition read_be (n : nat) (what : string) (bytes : list byte) (offset : nat) : res Z :=
  _ ← throw_if (length bytes <? offset + n)%nat RuntimeError what;
  mret (be_Z (take n (drop offset bytes))).
Definition read_u16_be := read_be 2 "truncated P2P uint16".
Definition read_u32_be := read_be 4 "truncated P2P uint32".
Definition read_p2p_u64_be := read_be 8 "truncated P2P uint64".

(** [std::copy_n(bytes.begin() + offset, n, out.begin())]. *)
Definition copy_n (n : nat) (bs : list byte) (offset : nat) : bytes n :=
  arr_of n (drop offset bs).

(** ** Data *)

Definition kP2pMagic : list byte := [Byte.x5a; Byte.x50; Byte.x32; Byte.x50].
Definition kP2pProtocolVersion : Z := 2.
Definition kP2pEnvelopeHeaderSize : nat := 12.
Definition kP2pMaxPayloadSize : Z := 65536.
Definition kP2pHandshakePayloadSize : nat := 115.

(** Enumerations on a byte, with the values outside the enumerators. *)
Inductive P2pMessageType :=
| Handshake | ShareAnnounce | ShareRequest | ShareResponse | TipAnnounce
| MiningContextAnnounce | MiningWorkRequest | MiningWorkResponse
| UnknownMessage (value : Z).
#[export] Instance P2pMessageType_eq_dec : EqDecision P2pMessageType.
Proof. solve_decision. Defined.

Definition message_type_value (t : P2pMessageType) : Z :=
  match t with
  | Handshake => 1 | ShareAnnounce => 2 | ShareRequest => 3 | ShareResponse => 4
  | TipAnnounce => 5 | MiningContextAnnounce => 6 | MiningWorkRequest => 7
  | MiningWorkResponse => 8 | UnknownMessage v => v
  end.
Definition message_type_of (v : Z) : P2pMessageType :=
  if v =? 1 then Handshake else if v =? 2 then ShareAnnounce
  else if v =? 3 then ShareRequest else if v =? 4 then ShareResponse
  else if v =? 5 then TipAnnounce else if v =? 6 then MiningContextAnnounce
  else if v =? 7 then MiningWorkRequest else if v =? 8 then MiningWorkResponse
  else UnknownMessage v.

Inductive P2pNetwork := P2pTestnet | P2pMainnet | P2pUnknownNetwork (value : Z).
#[export] Instance P2pNetwork_eq_dec : EqDecision P2pNetwork.
Proof. solve_decision. Defined.

Definition p2p_network_value (n : P2pNetwork) : Z :=
  match n with P2pTestnet => 1 | P2pMainnet => 2 | P2pUnknownNetwork v => v end.
Definition p2p_network_of (v : Z) : P2pNetwork :=
  if v =? 1 then P2pTestnet else if v =? 2 then P2pMainnet else P2pUnknownNetwork v.

Abbreviation NodeId := Hash256.

Definition kP2pCapabilityShareGossip : Z := 1.
Definition kP2pCapabilityShareSync : Z := 2.
Definition kP2pCapabilityMiningContext : Z := 4.
Definition kP2pCapabilityWorkRetrieval : Z := 8.
Definition kP2pCapabilitiesV1 : Z :=
  Z.lor (Z.lor kP2pCapabilityShareGossip kP2pCapabilityShareSync) kP2pCapabilityMiningContext.

Record P2pEnvelope := mkEnvelope {
  env_version : Z;
  env_type : P2pMessageType;
  env_flags : Z;
  env_payload : list byte }.

Record P2pHandshake := mkHandshake {
  hs_network : P2pNetwork;
  hs_node_id : NodeId;
  hs_capabilities : Z;
  hs_listen_port : Z;
  hs_best_share_id : ShareId;
  hs_best_share_height : Z;
  hs_sidechain_id : SidechainId }.

Inductive P2pHandshakeStatus := Accept | WrongNetwork | WrongSidechain | SelfConnection.

(** ** Operations *)

Definition is_supported_network (value : Z) : bool := (value =? 1) || (value =? 2).

Definition p2p_message_type_supported (value : Z) : bool :=
  (value =? 1) || (value =? 2) || (value =? 3) || (value =? 4) ||
  (value =? 5) || (value =? 6) || (value =? 7) || (value =? 8).

Definition is_zero_node_id (node_id : NodeId) : bool := all_zero (vec_to_list node_id).

Definition require_valid_handshake (h : P2pHandshake) : res () :=
  _ ← throw_if (negb (is_supported_network (p2p_network_value (hs_network h)))) RuntimeError
        "unsupported P2P network";
  _ ← throw_if (is_zero_node_id (hs_node_id h)) RuntimeError "P2P node id must be non-zero";
  throw_if (is_zero_share_id (hs_best_share_id h) && negb (hs_best_share_height h =? 0))
    RuntimeError "zero best-share id requires zero best-share height".

Definition canonical_p2p_sidechain_id (n : P2pNetwork) : res SidechainId :=
  match n with
  | P2pTestnet => p ← canonical_sidechain_parameters Testnet; sidechain_id p
  | P2pMainnet => p ← canonical_sidechain_parameters Mainnet; sidechain_id p
  | P2pUnknownNetwork _ => throw InvalidArgument "unsupported P2P network"
  end.

Definition resolved_p2p_sidechain_id (h : P2pHandshake) : res SidechainId :=
  if negb (is_zero_sidechain_id (hs_sidechain_id h)) then Ok (hs_sidechain_id h)
  else canonical_p2p_sidechain_id (hs_network h).

Definition serialize_p2p_envelope (e : P2pEnvelope) : res (list byte) :=
  _ ← throw_if (negb (env_version e =? kP2pProtocolVersion)) RuntimeError
        "unsupported P2P protocol version";
  _ ← throw_if (negb (p2p_message_type_supported (message_type_value (env_type e)))) RuntimeError
        "unsupported P2P message type";
  _ ← throw_if (negb (env_flags e =? 0)) RuntimeError "unsupported P2P envelope flags";
  _ ← throw_if (kP2pMaxPayloadSize <? Z.of_nat (length (env_payload e))) RuntimeError
        "P2P payload exceeds maximum size";
  let out := kP2pMagic ++ [byte_of_Z (env_version e)] ++
             [byte_of_Z (message_type_value (env_type e))] in
  let out := append_u16_be out (env_flags e) in
  let out := append_u32_be out (Z.of_nat (length (env_payload e))) in
  mret (out ++ env_payload e).

Definition deserialize_p2p_envelope (bytes : list byte) : res P2pEnvelope :=
  _ ← throw_if (length bytes <? kP2pEnvelopeHeaderSize)%nat RuntimeError
        "truncated P2P envelope header";
  _ ← throw_if (negb (bool_decide (take 4 bytes = kP2pMagic))) RuntimeError
        "invalid P2P envelope magic";
  let version := byte_to_Z (bytes !!! 4%nat) in
  _ ← throw_if (negb (version =? kP2pProtocolVersion)) RuntimeError
        "unsupported P2P protocol version";
  let type_value := byte_to_Z (bytes !!! 5%nat) in
  _ ← throw_if (negb (p2p_message_type_supported type_value)) RuntimeError
        "unsupported P2P message type";
  flags ← read_u16_be bytes 6;
  _ ← throw_if (negb (flags =? 0)) RuntimeError "unsupported P2P envelope flags";
  payload_size ← read_u32_be bytes 8;
  _ ← throw_if (kP2pMaxPayloadSize <? payload_size) RuntimeError
        "P2P payload exceeds maximum size";
  let expected_size := Z.of_nat kP2pEnvelopeHeaderSize + payload_size in
  _ ← throw_if (negb (Z.of_nat (length bytes) =? expected_size)) RuntimeError
        (if Z.of_nat (length bytes) <? expected_size
         then "truncated P2P envelope payload" else "trailing bytes after P2P envelope");
  mret (mkEnvelope version (message_type_of type_value) flags
          (drop kP2pEnvelopeHeaderSize bytes)).

Definition serialize_p2p_handshake_payload (h : P2pHandshake) : res (list byte) :=
  _ ← require_valid_handshake h;
  effective_sidechain_id ← resolved_p2p_sidechain_id h;
  let out := [byte_of_Z (p2p_network_value (hs_network h))] in
  let out := append_array out effective_sidechain_id in
  let out := append_array out (hs_node_id h) in
  let out := append_u64_be out (hs_capabilities h) in
  let out := append_u16_be out (hs_listen_port h) in
  let out := append_array out (hs_best_share_id h) in
  let out := append_u64_be out (hs_best_share_height h) in
  _ ← throw_if (negb (length out =? kP2pHandshakePayloadSize)%nat) RuntimeError
        "internal P2P handshake size mismatch";
  mret out.

Definition deserialize_p2p_handshake_payload (bytes : list byte) : res P2pHandshake :=
  _ ← throw_if (negb (length bytes =? kP2pHandshakePayloadSize)%nat) RuntimeError
        "invalid P2P handshake payload size";
  let network_value := byte_to_Z (bytes !!! 0%nat) in
  _ ← throw_if (negb (is_supported_network network_value)) RuntimeError
        "unsupported P2P network";
  let sid := copy_n 32 bytes 1 in
  _ ← throw_if (is_zero_sidechain_id sid) RuntimeError "P2P sidechain id must be non-zero";
  let node := copy_n 32 bytes 33 in
  capabilities ← read_p2p_u64_be bytes 65;
  listen_port ← read_u16_be bytes 73;
  let best := copy_n 32 bytes 75 in
  best_height ← read_p2p_u64_be bytes 107;
  let h := mkHandshake (p2p_network_of network_value) node capabilities listen_port best
             best_height sid in
  _ ← require_valid_handshake h;
  mret h.

Definition make_p2p_handshake_envelope (h : P2pHandshake) : res P2pEnvelope :=
  payload ← serialize_p2p_handshake_payload h;
  mret (mkEnvelope kP2pProtocolVersion Handshake 0 payload).

Definition parse_p2p_handshake_envelope (e : P2pEnvelope) : res P2pHandshake :=
  _ ← throw_if (negb (env_version e =? kP2pProtocolVersion)) RuntimeError
        "unsupported P2P protocol version";
  _ ← throw_if (negb (bool_decide (env_type e = Handshake))) RuntimeError
        "P2P envelope is not a handshake";
  _ ← throw_if (negb (env_flags e =? 0)) RuntimeError "unsupported P2P envelope flags";
  deserialize_p2p_handshake_payload (env_payload e).

Definition validate_p2p_handshake (peer : P2pHandshake) (expected_network : P2pNetwork)
    (expected_sidechain_id : SidechainId) (local_node_id : NodeId) : P2pHandshakeStatus :=
  if negb (bool_decide (hs_network peer = expected_network)) then WrongNetwork
  else if negb (arr_eqb (hs_sidechain_id peer) expected_sidechain_id) then WrongSidechain
  else if arr_eqb (hs_node_id peer) local_node_id then SelfConnection
  else Accept.

(** ** Lemmas on fixed-offset fields *)

Lemma drop_join {A} (off n off' : nat) (l : list A) :
  off' = (off + n)%nat → take n (drop off l) ++ drop off' l = drop off l.
Proof. intros ->. rewrite <-drop_drop. apply take_drop. Qed.

Lemma copy_n_list n l off :
  (off + n ≤ length l)%nat → vec_to_list (copy_n n l off) = take n (drop off l).
Proof. intros H. unfold copy_n. apply arr_of_list. rewrite length_drop. lia. Qed.

Lemma copy_n_at n (v : bytes n) pre post off :
  length pre = off → copy_n n (pre ++ vec_to_list v ++ post) off = v.
Proof. intros <-. unfold copy_n. rewrite drop_app_length. apply arr_of_app. Qed.

Lemma read_be_ok n what l off :
  (off + n ≤ length l)%nat → read_be n what l off = Ok (be_Z (take n (drop off l))).
Proof. intros H. unfold read_be. by rewrite (proj2 (Nat.ltb_ge _ _)) by lia. Qed.

Lemma read_be_range n what l off z :
  read_be n what l off = Ok z → 0 ≤ z < pow256 n ∧ be_bytes n z = take n (drop off l) ∧
    (off + n ≤ length l)%nat.
Proof.
  unfold read_be. destruct (Nat.ltb_spec (length l) (off + n)) as [|Hlen]; [done|].
  intros [= <-]. pose proof (be_Z_range (take n (drop off l))) as Hr.
  assert (length (take n (drop off l)) = n) as Hl by (rewrite length_take, length_drop; lia).
  rewrite Hl in Hr. split; [done|]. split; [|done]. rewrite <-Hl at 1. apply be_bytes_be_Z.
Qed.

Lemma read_be_at n what z pre post off :
  length pre = off → 0 ≤ z < pow256 n →
  read_be n what (pre ++ be_bytes n z ++ post) off = Ok z.
Proof.
  intros <- Hz. rewrite read_be_ok by (rewrite !length_app, length_be_bytes; lia).
  rewrite drop_app_length, take_app_length' by (by rewrite length_be_bytes).
  by rewrite be_Z_be_bytes, Z.mod_small.
Qed.

Lemma byte_at (l pre post : list byte) b i :
  l = pre ++ b :: post → length pre = i → l !!! i = b.
Proof. intros -> <-. by rewrite list_lookup_total_middle. Qed.

Lemma byte_take (l : list byte) i :
  (i < length l)%nat → take 1 (drop i l) = [l !!! i].
Proof. intros H. rewrite drop_lookup_total by done. done. Qed.

Lemma supported_types v :
  p2p_message_type_supported v = true ↔ 1 ≤ v ≤ 8.
Proof. unfold p2p_message_type_supported. rewrite !orb_true_iff, !Z.eqb_eq. lia. Qed.

Lemma message_type_roundtrip v : message_type_value (message_type_of v) = v.
Proof.
  unfold message_type_of. repeat (case_match; bool_prop; [by subst|]). done.
Qed.

Lemma p2p_network_roundtrip v : p2p_network_value (p2p_network_of v) = v.
Proof. unfold p2p_network_of. repeat (case_match; bool_prop; [by subst|]). done. Qed.

Lemma supported_networks v : is_supported_network v = true ↔ v = 1 ∨ v = 2.
Proof. unfold is_supported_network. by rewrite orb_true_iff, !Z.eqb_eq. Qed.

(** ** Envelope *)

(** Members in range, and the enumeration value as its enumerator. *)
Definition envelope_wf (e : P2pEnvelope) : Prop :=
  is_u8 (env_version e) ∧ is_u16 (env_flags e) ∧
  env_type e = message_type_of (message_type_value (env_type e)).

Definition envelope_layout (e : P2pEnvelope) : list byte :=
  kP2pMagic ++ [byte_of_Z (env_version e)] ++ [byte_of_Z (message_type_value (env_type e))] ++
  be_bytes 2 (env_flags e) ++ be_bytes 4 (Z.of_nat (length (env_payload e))) ++ env_payload e.

Definition envelope_valid (e : P2pEnvelope) : Prop :=
  env_version e = kP2pProtocolVersion ∧ 1 ≤ message_type_value (env_type e) ≤ 8 ∧
  env_flags e = 0 ∧ Z.of_nat (length (env_payload e)) ≤ kP2pMaxPayloadSize.

Lemma serialize_envelope_ok e b :
  serialize_p2p_envelope e = Ok b ↔ envelope_valid e ∧ b = envelope_layout e.
Proof.
  unfold serialize_p2p_envelope, envelope_valid, envelope_layout, append_u16_be, append_u32_be.
  rewrite <-!app_assoc. split.
  - intros Hs. res_inv. bool_prop. rewrite <-supported_types. done.
  - intros [(Hv & Ht & Hf & Hp) ->]. apply supported_types in Ht. rewrite Ht, Hv, Hf.
    by rewrite (proj2 (Z.ltb_ge _ _)) by done.
Qed.

Lemma deserialize_envelope_layout e :
  envelope_wf e → envelope_valid e → deserialize_p2p_envelope (envelope_layout e) = Ok e.
Proof.
  destruct e as [ver ty fl pl]. intros (Hv8 & Hf16 & Hty) (Hv & Ht & Hf & Hp).
  cbn [env_version env_type env_flags env_payload] in *. subst ver fl.
  set (l := envelope_layout _).
  assert (l = kP2pMagic ++ byte_of_Z 2 :: byte_of_Z (message_type_value ty) ::
    be_bytes 2 0 ++ be_bytes 4 (Z.of_nat (length pl)) ++ pl) as El by done.
  assert (length l = 12 + length pl)%nat as Hlen
    by (unfold l, envelope_layout; rewrite !length_app, !length_be_bytes; simpl; lia).
  clearbody l. unfold deserialize_p2p_envelope, kP2pEnvelopeHeaderSize.
  rewrite (proj2 (Nat.ltb_ge _ _)) by lia. cbn [throw_if mbind res_bind].
  replace (take 4 l) with kP2pMagic by (by rewrite El).
  rewrite bool_decide_true by done. cbn [negb throw_if mbind res_bind].
  replace (byte_to_Z (l !!! 4%nat)) with 2 by (by rewrite El). cbn [throw_if mbind res_bind].
  assert (byte_to_Z (l !!! 5%nat) = message_type_value ty) as ->.
  { rewrite El. change (byte_to_Z (byte_of_Z (message_type_value ty)) = message_type_value ty).
    rewrite byte_to_of_Z, Z.mod_small by lia. done. }
  rewrite (proj2 (supported_types _) Ht). cbn [negb Z.eqb throw_if mbind res_bind].
  unfold read_u16_be, read_u32_be.
  assert (read_be 2 "truncated P2P uint16" l 6 = Ok 0) as ->.
  { rewrite El. change (kP2pMagic ++ byte_of_Z 2 :: byte_of_Z (message_type_value ty) ::
      be_bytes 2 0 ++ be_bytes 4 (Z.of_nat (length pl)) ++ pl) with
      ((kP2pMagic ++ [byte_of_Z 2; byte_of_Z (message_type_value ty)]) ++ be_bytes 2 0 ++
       be_bytes 4 (Z.of_nat (length pl)) ++ pl). by apply read_be_at. }
  cbn [negb Z.eqb throw_if mbind res_bind].
  assert (read_be 4 "truncated P2P uint32" l 8 = Ok (Z.of_nat (length pl))) as ->.
  { rewrite El. change (kP2pMagic ++ byte_of_Z 2 :: byte_of_Z (message_type_value ty) ::
      be_bytes 2 0 ++ be_bytes 4 (Z.of_nat (length pl)) ++ pl) with
      ((kP2pMagic ++ [byte_of_Z 2; byte_of_Z (message_type_value ty)] ++ be_bytes 2 0) ++
       be_bytes 4 (Z.of_nat (length pl)) ++ pl).
    apply read_be_at; [done|]. unfold kP2pMaxPayloadSize in Hp. split; [lia|].
    apply Z.le_lt_trans with 65536; [lia|done]. }
  cbn [mbind res_bind]. rewrite (proj2 (Z.ltb_ge kP2pMaxPayloadSize (Z.of_nat (length pl)))) by done. cbn [throw_if mbind res_bind].
  rewrite Hlen, (proj2 (Z.eqb_eq _ _)) by lia. cbn [negb throw_if mbind res_bind].
  rewrite <-Hty. unfold mret, res_ret. do 2 f_equal.
  rewrite El. done.
Qed.

Lemma deserialize_envelope_inv b e :
  deserialize_p2p_envelope b = Ok e → envelope_wf e ∧ envelope_valid e ∧ b = envelope_layout e.
Proof.
  unfold deserialize_p2p_envelope, kP2pEnvelopeHeaderSize. intros Hd. res_inv. bool_prop.
  match goal with H : (_ <? _)%nat = false |- _ => apply Nat.ltb_ge in H as Hlen end.
  match goal with H : p2p_message_type_supported _ = true |- _ =>
    apply supported_types in H as Hty end.
  match goal with H : read_u16_be _ _ = Ok ?f |- _ =>
    apply read_be_range in H as (_ & Hfl & _) end.
  match goal with H : read_u32_be _ _ = Ok ?p |- _ =>
    apply read_be_range in H as (Hpr & Hpl & _) end.
  unfold envelope_wf, envelope_valid, envelope_layout.
  cbn [env_version env_type env_flags env_payload]. rewrite !message_type_roundtrip.
  pose proof (byte_to_Z_range (b !!! 4%nat)).
  split; [split; [unfold is_u8, u8_max; lia|split; [unfold is_u16; lia|done]]|].
  assert (Z.of_nat (length (drop 12 b)) = x5) as Epl by (rewrite length_drop; lia).
  split; [lia|]. rewrite Epl, !byte_of_to_Z, Hfl, Hpl.
  match goal with H : take 4 b = kP2pMagic |- _ => rewrite <-H end.
  rewrite <-(byte_take b 4), <-(byte_take b 5) by lia.
  change (take 4 b) with (take 4 (drop 0 b)).
  rewrite (drop_join 8 4 12 b eq_refl), (drop_join 6 2 8 b eq_refl), (drop_join 5 1 6 b eq_refl), (drop_join 4 1 5 b eq_refl),
    (drop_join 0 4 4 b eq_refl). done.
Qed.

(** The envelope codec is a bijection between valid envelopes and the byte
    strings it accepts: whatever decodes is the unique encoding of what it
    decodes to, and every envelope that encodes decodes back. *)
Theorem envelope_codec : ∀ e b,
  envelope_wf e →
  serialize_p2p_envelope e = Ok b ↔ deserialize_p2p_envelope b = Ok e.
Proof.
  intros e b Hwf. rewrite serialize_envelope_ok. split.
  - intros [Hv ->]. by apply deserialize_envelope_layout.
  - intros (_ & Hv & Hb)%deserialize_envelope_inv. done.
Qed.

Definition demo_envelope : P2pEnvelope :=
  mkEnvelope 2 ShareRequest 0 [Byte.x01; Byte.x02; Byte.x03].

Lemma envelope_codec_witness :
  serialize_p2p_envelope demo_envelope = Ok (envelope_layout demo_envelope) ↔
  deserialize_p2p_envelope (envelope_layout demo_envelope) = Ok demo_envelope.
Proof.
  apply (envelope_codec demo_envelope (envelope_layout demo_envelope)).
  unfold envelope_wf, is_u8, is_u16, u8_max. simpl. split; [lia|]. split; [lia|reflexivity].
Defined.

(** ** Handshake *)

Definition handshake_wf (h : P2pHandshake) : Prop :=
  hs_network h = p2p_network_of (p2p_network_value (hs_network h)) ∧
  is_u64 (hs_capabilities h) ∧ is_u16 (hs_listen_port h) ∧ is_u64 (hs_best_share_height h).

Definition handshake_layout (h : P2pHandshake) : list byte :=
  [byte_of_Z (p2p_network_value (hs_network h))] ++ vec_to_list (hs_sidechain_id h) ++
  vec_to_list (hs_node_id h) ++ be_bytes 8 (hs_capabilities h) ++
  be_bytes 2 (hs_listen_port h) ++ vec_to_list (hs_best_share_id h) ++
  be_bytes 8 (hs_best_share_height h).

Lemma length_handshake_layout h : length (handshake_layout h) = kP2pHandshakePayloadSize.
Proof.
  unfold handshake_layout.
  by rewrite !length_app, !length_be_bytes, !length_vec_to_list.
Qed.

Definition handshake_valid (h : P2pHandshake) : Prop :=
  require_valid_handshake h = Ok () ∧ is_zero_sidechain_id (hs_sidechain_id h) = false.

Lemma serialize_handshake_ok h b :
  is_zero_sidechain_id (hs_sidechain_id h) = false →
  serialize_p2p_handshake_payload h = Ok b ↔
  require_valid_handshake h = Ok () ∧ b = handshake_layout h.
Proof.
  intros Hz. pose proof (length_handshake_layout h) as Hlen.
  unfold serialize_p2p_handshake_payload, resolved_p2p_sidechain_id, append_u16_be,
    append_u64_be, append_array, handshake_layout in *.
  rewrite Hz. cbn [negb].
  destruct (require_valid_handshake h) as [[]|x]; cbn [mbind res_bind]; [|naive_solver].
  rewrite <-!app_assoc, Hlen, Nat.eqb_refl. cbn [negb throw_if mbind res_bind].
  split; [by intros [= <-]|by intros [_ ->]].
Qed.

Lemma deserialize_handshake_layout h :
  handshake_wf h → handshake_valid h →
  deserialize_p2p_handshake_payload (handshake_layout h) = Ok h.
Proof.
  intros (Hn & Hc & Hp & Hh) [Hreq Hz]. pose proof (length_handshake_layout h) as Hlen.
  assert (is_supported_network (p2p_network_value (hs_network h)) = true) as Hsup.
  { unfold require_valid_handshake in Hreq. res_inv. by bool_prop. }
  set (l := handshake_layout h).
  assert (byte_to_Z (l !!! 0%nat) = p2p_network_value (hs_network h)) as E0.
  { change (l !!! 0%nat) with (byte_of_Z (p2p_network_value (hs_network h))).
    rewrite byte_to_of_Z. apply supported_networks in Hsup as [-> | ->]; done. }
  set (nb := [byte_of_Z (p2p_network_value (hs_network h))]) in *.
  set (sid := vec_to_list (hs_sidechain_id h)). set (nid := vec_to_list (hs_node_id h)).
  set (cap := be_bytes 8 (hs_capabilities h)). set (port := be_bytes 2 (hs_listen_port h)).
  set (best := vec_to_list (hs_best_share_id h)).
  set (hgt := be_bytes 8 (hs_best_share_height h)).
  assert (l = nb ++ sid ++ nid ++ cap ++ port ++ best ++ hgt) as El by done.
  assert (length sid = 32 ∧ length nid = 32 ∧ length best = 32 ∧ length cap = 8 ∧
    length port = 2)%nat as (Ls & Ln & Lb & Lc & Lp)
    by (unfold sid, nid, best, cap, port; by rewrite !length_vec_to_list, !length_be_bytes).
  assert (copy_n 32 l 1 = hs_sidechain_id h) as E1 by (rewrite El; by apply copy_n_at).
  assert (copy_n 32 l 33 = hs_node_id h) as E2.
  { replace l with ((nb ++ sid) ++ nid ++ cap ++ port ++ best ++ hgt) by (by rewrite El, <-!app_assoc).
    apply copy_n_at. rewrite length_app, Ls. done. }
  assert (read_p2p_u64_be l 65 = Ok (hs_capabilities h)) as E3.
  { replace l with ((nb ++ sid ++ nid) ++ cap ++ port ++ best ++ hgt) by (by rewrite El, <-!app_assoc).
    apply read_be_at; [rewrite !length_app, Ls, Ln; done|].
    unfold is_u64 in Hc. change (pow256 8) with (u64_max + 1). lia. }
  assert (read_u16_be l 73 = Ok (hs_listen_port h)) as E4.
  { replace l with ((nb ++ sid ++ nid ++ cap) ++ port ++ best ++ hgt) by (by rewrite El, <-!app_assoc).
    apply read_be_at; [rewrite !length_app, Ls, Ln, Lc; done|].
    unfold is_u16 in Hp. change (pow256 2) with 65536. lia. }
  assert (copy_n 32 l 75 = hs_best_share_id h) as E5.
  { replace l with ((nb ++ sid ++ nid ++ cap ++ port) ++ best ++ hgt) by (by rewrite El, <-!app_assoc).
    apply copy_n_at. rewrite !length_app, Ls, Ln, Lc, Lp. done. }
  assert (read_p2p_u64_be l 107 = Ok (hs_best_share_height h)) as E6.
  { replace l with ((nb ++ sid ++ nid ++ cap ++ port ++ best) ++ hgt ++ [])
      by (by rewrite El, <-!app_assoc, app_nil_r).
    apply read_be_at; [rewrite !length_app, Ls, Ln, Lc, Lp, Lb; done|].
    unfold is_u64 in Hh. change (pow256 8) with (u64_max + 1). lia. }
  unfold deserialize_p2p_handshake_payload. fold l in Hlen. rewrite Hlen, Nat.eqb_refl.
  cbn [negb throw_if mbind res_bind]. rewrite E0, Hsup, E1, Hz, E2, E5.
  cbn [negb throw_if mbind res_bind]. rewrite E3. cbn [mbind res_bind]. rewrite E4.
  cbn [mbind res_bind]. rewrite E6. cbn [mbind res_bind]. rewrite <-Hn.
  replace (mkHandshake _ _ _ _ _ _ _) with h by (by destruct h). by rewrite Hreq.
Qed.

Lemma deserialize_handshake_inv b h :
  deserialize_p2p_handshake_payload b = Ok h →
  handshake_wf h ∧ handshake_valid h ∧ b = handshake_layout h.
Proof.
  unfold deserialize_p2p_handshake_payload. intros Hd. res_inv. bool_prop.
  match goal with H : (_ =? _)%nat = true |- _ => apply Nat.eqb_eq in H as Hlen end.
  unfold kP2pHandshakePayloadSize in Hlen.
  match goal with H : read_p2p_u64_be b 65 = Ok _ |- _ =>
    apply read_be_range in H as (Hcr & Hcap & _) end.
  match goal with H : read_u16_be b 73 = Ok _ |- _ =>
    apply read_be_range in H as (Hpr & Hport & _) end.
  match goal with H : read_p2p_u64_be b 107 = Ok _ |- _ =>
    apply read_be_range in H as (Hhr & Hhgt & _) end.
  change (pow256 8) with (u64_max + 1) in *. change (pow256 2) with 65536 in *.
  unfold handshake_wf, handshake_valid, handshake_layout.
  cbn [hs_network hs_node_id hs_capabilities hs_listen_port hs_best_share_id
       hs_best_share_height hs_sidechain_id]. rewrite !p2p_network_roundtrip.
  split; [split; [done|unfold is_u64, is_u16; lia]|]. split.
  { split; [|done]. match goal with H : require_valid_handshake _ = Ok ?u |- _ =>
      by destruct u end. }
  rewrite byte_of_to_Z, Hcap, Hport, Hhgt, !copy_n_list by lia.
  rewrite <-(byte_take b 0) by lia.
  rewrite <-(app_nil_r (take 8 (drop 107 b))), <-(drop_ge b 115) by lia.
  rewrite (drop_join 107 8 115 b eq_refl), (drop_join 75 32 107 b eq_refl), (drop_join 73 2 75 b eq_refl),
    (drop_join 65 8 73 b eq_refl), (drop_join 33 32 65 b eq_refl), (drop_join 1 32 33 b eq_refl), (drop_join 0 1 1 b eq_refl).
  done.
Qed.

(** The handshake codec is a bijection between valid handshakes that name
    their sidechain and the 115-byte payloads it accepts. *)
Theorem handshake_codec : ∀ h b,
  handshake_wf h → is_zero_sidechain_id (hs_sidechain_id h) = false →
  serialize_p2p_handshake_payload h = Ok b ↔ deserialize_p2p_handshake_payload b = Ok h.
Proof.
  intros h b Hwf Hz. rewrite serialize_handshake_ok by done. split.
  - intros [Hr ->]. by apply deserialize_handshake_layout.
  - intros (_ & [Hr _] & ->)%deserialize_handshake_inv. done.
Qed.

Definition demo_handshake : P2pHandshake :=
  mkHandshake P2pTestnet (fill_be 32 9) kP2pCapabilitiesV1 37889 (fill_be 32 5) 12 (fill_be 32 7).

Lemma handshake_codec_witness :
  serialize_p2p_handshake_payload demo_handshake = Ok (handshake_layout demo_handshake) ↔
  deserialize_p2p_handshake_payload (handshake_layout demo_handshake) = Ok demo_handshake.
Proof.
  apply (handshake_codec demo_handshake (handshake_layout demo_handshake)).
  - unfold handshake_wf, is_u64, is_u16, u64_max. simpl.
    split; [reflexivity|]. split; [|lia]. vm_compute. split; discriminate.
  - vm_compute. reflexivity.
Defined.
