(* ===== verification/P2pShare.v ===== *)
(** Shares from peers: the registry of trusted work and the receiver in front of
    the share chain, [include/zano_p2pool/p2p_share.hpp] and [src/p2p_share.cpp]. *)
From S2P Require Import Prelude CryptoHash PowTarget Share SidechainParams Difficulty ShareChain.
From S2P Require Import ChainWork ChainInv ChainPromote ChainAdmit ChainReplay ChainPrune.
From S2P Require Import ChainHistory P2pProtocol.
Local Open Scope pool_scope.

(** ** Share announcements *)

Definition make_p2p_share_announce_envelope (share : Share) : res P2pEnvelope :=
  (payload ← serialize_share share;
  mret (mkEnvelope kP2pProtocolVersion ShareAnnounce 0 payload))%stdpp.

(** The checks every typed envelope parser starts with. *)
Definition require_envelope_type (e : P2pEnvelope) (expected : P2pMessageType) (message : string)
    : res () :=
  (_ ← throw_if (negb (env_version e =? kP2pProtocolVersion)) RuntimeError
        "unsupported P2P protocol version";
  _ ← throw_if (negb (bool_decide (env_type e = expected))) RuntimeError message;
  throw_if (negb (env_flags e =? 0)) RuntimeError "unsupported P2P envelope flags")%stdpp.

Definition is_share_size (n : nat) : bool :=
  (n =? kShareV1SerializedSize)%nat || (n =? kShareV2SerializedSize)%nat.

Definition parse_p2p_share_announce_envelope (e : P2pEnvelope) : res Share :=
  (_ ← require_envelope_type e ShareAnnounce "P2P envelope is not a share announcement";
  _ ← throw_if (negb (is_share_size (length (env_payload e)))) RuntimeError
        "invalid P2P share announcement payload size";
  deserialize_share (env_payload e))%stdpp.

(** ** The registry of trusted work *)

Abbreviation WorkKey := (Z * Hash256 * ShareId)%type.

Record WorkEntry := mkWorkEntry {
  we_context : ShareWorkContext;
  we_zano_parent_hash : option Hash256 }.

Abbreviation P2pTrustedWorkRegistry := (gmap WorkKey WorkEntry).

(** [std::tuple]'s lexicographic order, which the map is sorted by. *)
Definition work_key_lt (a b : WorkKey) : bool :=
  let '(ha, ma, pa) := a in
  let '(hb, mb, pb) := b in
  if ha <? hb then true else if hb <? ha then false
  else if arr_lt ma mb then true else if arr_lt mb ma then false
  else arr_lt pa pb.
Definition work_entry_le (a b : WorkKey * WorkEntry) : Prop := work_key_lt b.1 a.1 = false.
#[export] Instance work_entry_le_dec a b : Decision (work_entry_le a b).
Proof. unfold work_entry_le. apply _. Defined.

Definition work_sorted (m : P2pTrustedWorkRegistry) : list (WorkKey * WorkEntry) :=
  merge_sort work_entry_le (map_to_list m).

Definition context_key (ctx : ShareWorkContext) (parent : ShareId) : WorkKey :=
  (ctx_zano_height ctx, ctx_mining_header_hash ctx, parent).

Definition zero_network_error : string :=
  "trusted P2P work context has zero network difficulty".

(** [remember(context, parent_id)]. *)
Definition remember (ctx : ShareWorkContext) (parent : ShareId)
    : exec P2pTrustedWorkRegistry () :=
  do exec_const (λ _, throw_if (difficulty128_is_zero (ctx_network_difficulty ctx)) RuntimeError
                        zero_network_error) ;;
  contexts <- exec_get ;;
  match contexts !! context_key ctx parent with
  | Some entry =>
      exec_const (λ _, throw_if (negb (arr_eqb (ctx_network_difficulty (we_context entry))
                                          (ctx_network_difficulty ctx)))
                         RuntimeError "conflicting trusted P2P work context")
  | None => exec_modify (insert (context_key ctx parent) (mkWorkEntry ctx None))
  end.

(** [remember(context)]: bound to the zero parent. *)
Definition remember_root (ctx : ShareWorkContext) : exec P2pTrustedWorkRegistry () :=
  remember ctx (arr_zero 32).

(** [remember(context, parent_id, zano_parent_hash)]. *)
Definition remember_canonical (ctx : ShareWorkContext) (parent : ShareId) (zano_parent : Hash256)
    : exec P2pTrustedWorkRegistry () :=
  do exec_const (λ _, throw_if (difficulty128_is_zero (ctx_network_difficulty ctx)) RuntimeError
                        zero_network_error) ;;
  contexts <- exec_get ;;
  match contexts !! context_key ctx parent with
  | Some entry =>
      do exec_const (λ _, throw_if (negb (arr_eqb (ctx_network_difficulty (we_context entry))
                                             (ctx_network_difficulty ctx)))
                            RuntimeError "conflicting trusted P2P work context") ;;
      do exec_const (λ _,
           throw_if (match we_zano_parent_hash entry with
                     | Some h => negb (arr_eqb h zano_parent)
                     | None => false
                     end) RuntimeError "conflicting trusted P2P Zano parent provenance") ;;
      exec_modify (insert (context_key ctx parent)
                     (mkWorkEntry (we_context entry) (Some zano_parent)))
  | None => exec_modify (insert (context_key ctx parent) (mkWorkEntry ctx (Some zano_parent)))
  end.

Definition find_work (m : P2pTrustedWorkRegistry) (zano_height : Z) (header : Hash256)
    (parent : ShareId) : option ShareWorkContext :=
  we_context <$> m !! (zano_height, header, parent).

Definition find_root_work (m : P2pTrustedWorkRegistry) (zano_height : Z) (header : Hash256)
    : option ShareWorkContext :=
  find_work m zano_height header (arr_zero 32).

(** The erasing traversal the three revocations share. *)
Definition erase_where (p : WorkKey → WorkEntry → bool) (m : P2pTrustedWorkRegistry)
    : nat * P2pTrustedWorkRegistry :=
  fold_left (λ acc kv, if p kv.1 kv.2 then (S acc.1, delete kv.1 acc.2) else acc)
    (work_sorted m) (0%nat, m).

Definition erase_zano_height (h : Z) : P2pTrustedWorkRegistry → nat * P2pTrustedWorkRegistry :=
  erase_where (λ k _, k.1.1 =? h).
Definition erase_zano_heights_above (maximum : Z)
    : P2pTrustedWorkRegistry → nat * P2pTrustedWorkRegistry :=
  erase_where (λ k _, negb (k.1.1 <=? maximum)).
Definition erase_zano_parent_mismatch (h : Z) (canonical : Hash256)
    : P2pTrustedWorkRegistry → nat * P2pTrustedWorkRegistry :=
  erase_where (λ k e, negb (negb (k.1.1 =? h) ||
    match we_zano_parent_hash e with Some zp => arr_eqb zp canonical | None => true end)).

Definition push_height (heights : list Z) (kv : WorkKey * WorkEntry) : list Z :=
  match we_zano_parent_hash kv.2 with
  | None => heights
  | Some _ =>
      match last heights with
      | Some b => if b =? kv.1.1.1 then heights else heights ++ [kv.1.1.1]
      | None => [kv.1.1.1]
      end
  end.
Definition provenance_zano_heights (m : P2pTrustedWorkRegistry) : list Z :=
  fold_left push_height (work_sorted m) [].

Definition find_zano_parent_hash (m : P2pTrustedWorkRegistry) (zano_height : Z) (header : Hash256)
    (parent : ShareId) : option Hash256 :=
  entry ← m !! (zano_height, header, parent); we_zano_parent_hash entry.

(** ** The receiver *)

Inductive P2pShareReceiveStatus :=
| RecvConnected | RecvOrphan | RecvDuplicate | RecvRejected | UnknownWorkContext
| CapabilityMissing.
#[export] Instance P2pShareReceiveStatus_eq_dec : EqDecision P2pShareReceiveStatus.
Proof. solve_decision. Defined.

Record P2pShareReceiveResult := mkReceive {
  recv_status : P2pShareReceiveStatus;
  recv_chain_result : AddShareResult;
  recv_missing_parent_id : option ShareId }.

(** [AddShareResult] as default-initialised, with the id set. *)
Definition unadded (id : ShareId) : AddShareResult := mkAdd Rejected NoReject id 0 false.
Definition duplicate (id : ShareId) : AddShareResult := mkAdd Duplicate NoReject id 0 false.

Definition status_of (d : ShareDisposition) : P2pShareReceiveStatus :=
  match d with
  | Connected => RecvConnected
  | Orphan => RecvOrphan
  | Duplicate => RecvDuplicate
  | Rejected => RecvRejected
  end.

Definition lacks_capability (peer : P2pHandshake) (required : Z) : bool :=
  (required =? 0) || negb (Z.land (hs_capabilities peer) required =? required).

Section Receiver.
Context `{!ProgPow}.

Definition receive_share (trusted_work : P2pTrustedWorkRegistry) (peer : P2pHandshake)
    (share : Share) (required_capability now : Z) (mode : ProgPowZContextMode)
    : exec ShareChain P2pShareReceiveResult :=
  id <- exec_const (λ _, share_id share) ;;
  if lacks_capability peer required_capability
  then exec_ret (mkReceive CapabilityMissing (unadded id) None)
  else
  chain <- exec_get ;;
  match find chain id with
  | Some connected =>
      if enforces_sidechain_difficulty chain && negb (validated_ancestry connected)
      then exec_ret (mkReceive UnknownWorkContext (unadded id) None)
      else exec_ret (mkReceive RecvDuplicate (duplicate id) None)
  | None =>
      if is_orphan chain id then exec_ret (mkReceive RecvDuplicate (duplicate id) None)
      else
      match find_work trusted_work (zano_height share) (mining_header_hash share)
              (parent_id share) with
      | None => exec_ret (mkReceive UnknownWorkContext (unadded id) None)
      | Some trusted =>
          result <- submit_share share trusted now mode ;;
          exec_ret (mkReceive (status_of (disposition result)) result
            (match disposition result with Orphan => Some (parent_id share) | _ => None end))
      end
  end.

Definition receive (trusted_work : P2pTrustedWorkRegistry) (peer : P2pHandshake)
    (envelope : P2pEnvelope) (now : Z) (mode : ProgPowZContextMode)
    : exec ShareChain P2pShareReceiveResult :=
  share <- exec_const (λ _, parse_p2p_share_announce_envelope envelope) ;;
  receive_share trusted_work peer share kP2pCapabilityShareGossip now mode.

End Receiver.

Definition p2p_share_receive_status_name (s : P2pShareReceiveStatus) : string :=
  match s with
  | RecvConnected => "connected"
  | RecvOrphan => "orphan"
  | RecvDuplicate => "duplicate"
  | RecvRejected => "rejected"
  | UnknownWorkContext => "unknown-work-context"
  | CapabilityMissing => "capability-missing"
  end.

(** ** Revocation *)

Definition erase_step (p : WorkKey → WorkEntry → bool) (acc : nat * P2pTrustedWorkRegistry)
    (kv : WorkKey * WorkEntry) : nat * P2pTrustedWorkRegistry :=
  if p kv.1 kv.2 then (S acc.1, delete kv.1 acc.2) else acc.

Lemma erase_fold p l : ∀ n m,
  NoDup l.*1 → (∀ k e, (k, e) ∈ l → m !! k = Some e) →
  let out := fold_left (erase_step p) l (n, m) in
  (out.1 + size out.2 = n + size m)%nat ∧
  ∀ k e, out.2 !! k = Some e ↔ m !! k = Some e ∧ ((k, e) ∈ l → p k e = false).
Proof.
  induction l as [|[k e] l IH]; intros n m Hnd Hin.
  { split; [done|]. intros k e. split; [|tauto]. intros ?. split; [done|]. by intros ?%elem_of_nil. }
  rewrite fmap_cons in Hnd. apply NoDup_cons in Hnd as [Hni Hnd]. cbn [fold_left].
  pose proof (Hin k e ltac:(left)) as Hke.
  assert (∀ k' e', (k', e') ∈ l → k' ≠ k) as Hne
    by (intros k' e' Hk' ->; apply Hni, list_elem_of_fmap; by exists (k, e')).
  change (erase_step p (n, m) (k, e)) with (if p k e then (S n, delete k m) else (n, m)).
  destruct (p k e) eqn:Ep.
  - destruct (IH (S n) (delete k m) Hnd) as [Hs Hl].
    { intros k' e' Hk'. rewrite lookup_delete_ne; [apply Hin; by right|].
      intros <-. by eapply Hne. }
    split.
    + rewrite Hs, map_size_delete_Some by eauto.
      assert (size m ≠ 0)%nat by (eapply map_size_ne_0_lookup_2; eauto). lia.
    + intros k' e'. rewrite Hl, lookup_delete_Some, elem_of_cons. split.
      * intros [[Hk He] Hp]. split; [done|]. intros [[= -> ->]|?]; [done|auto].
      * intros [He Hp]. split; [|auto]. split; [|done]. intros <-.
        rewrite Hke in He. injection He as <-. rewrite Hp in Ep by (by left). done.
  - destruct (IH n m Hnd ltac:(intros; apply Hin; by right)) as [Hs Hl]. split; [done|].
    intros k' e'. rewrite Hl, elem_of_cons. split; intros [He Hp]; (split; [done|]); [|auto].
    intros [[= -> ->]|?]; auto.
Qed.

Lemma work_sorted_facts m :
  NoDup (work_sorted m).*1 ∧ ∀ k e, (k, e) ∈ work_sorted m ↔ m !! k = Some e.
Proof.
  unfold work_sorted. split.
  - rewrite merge_sort_Permutation. apply NoDup_fst_map_to_list.
  - intros k e. rewrite merge_sort_Permutation. apply elem_of_map_to_list.
Qed.

Lemma erase_where_ok p m :
  ((erase_where p m).1 + size (erase_where p m).2 = size m)%nat ∧
  ∀ k e, (erase_where p m).2 !! k = Some e ↔ m !! k = Some e ∧ p k e = false.
Proof.
  destruct (work_sorted_facts m) as [Hnd Hel].
  destruct (erase_fold p (work_sorted m) 0 m Hnd ltac:(intros; by apply Hel)) as [Hs Hl].
  split; [exact Hs|]. intros k e.
  change (erase_where p m) with (fold_left (erase_step p) (work_sorted m) (0%nat, m)).
  rewrite Hl, Hel. tauto.
Qed.

(** ** Remembering *)

(** Every entry sits under its own key and has work to it. *)
Definition registry_ok (m : P2pTrustedWorkRegistry) : Prop :=
  ∀ h header parent e, m !! (h, header, parent) = Some e →
    ctx_zano_height (we_context e) = h ∧ ctx_mining_header_hash (we_context e) = header ∧
    difficulty128_is_zero (ctx_network_difficulty (we_context e)) = false.

(** [extends m m' k]: the registry after remembering under [k]. *)
Record extends (m m' : P2pTrustedWorkRegistry) (k : WorkKey) (ctx : ShareWorkContext) : Prop := {
  ex_here : ∃ e, m' !! k = Some e ∧
    ctx_network_difficulty (we_context e) = ctx_network_difficulty ctx;
  ex_other : ∀ k', k' ≠ k → m' !! k' = m !! k';
  ex_kept : ∀ e, m !! k = Some e → ∃ e', m' !! k = Some e' ∧ we_context e' = we_context e ∧
    (∀ zp, we_zano_parent_hash e = Some zp → we_zano_parent_hash e' = Some zp);
  ex_ok : registry_ok m → registry_ok m' }.

(** The outcomes of remembering: an extension, or a throw that changes nothing. *)
Definition remember_post (m : P2pTrustedWorkRegistry) (ctx : ShareWorkContext) (parent : ShareId)
    (zano_parent : option Hash256) (out : res () * P2pTrustedWorkRegistry) : Prop :=
  match out with
  | (Ok _, m') => extends m m' (context_key ctx parent) ctx ∧
      (∀ zp, zano_parent = Some zp → ∃ e, m' !! context_key ctx parent = Some e ∧
         we_zano_parent_hash e = Some zp)
  | (Throw _, m') => m' = m ∧
      (difficulty128_is_zero (ctx_network_difficulty ctx) = true ∨
       ∃ e, m !! context_key ctx parent = Some e ∧
         (ctx_network_difficulty (we_context e) ≠ ctx_network_difficulty ctx ∨
          ∃ zp zp', zano_parent = Some zp ∧ we_zano_parent_hash e = Some zp' ∧ zp' ≠ zp))
  end.

Lemma registry_ok_insert m ctx parent e :
  difficulty128_is_zero (ctx_network_difficulty ctx) = false →
  ctx_zano_height (we_context e) = ctx_zano_height ctx →
  ctx_mining_header_hash (we_context e) = ctx_mining_header_hash ctx →
  ctx_network_difficulty (we_context e) = ctx_network_difficulty ctx →
  registry_ok m → registry_ok (<[context_key ctx parent := e]> m).
Proof.
  intros Hz Eh Em En Hok h header p e'. unfold context_key.
  destruct (decide ((ctx_zano_height ctx, ctx_mining_header_hash ctx, parent) = (h, header, p)))
    as [[= <- <- <-]|Hne].
  - rewrite lookup_insert_eq. intros [= <-]. by rewrite En.
  - rewrite lookup_insert_ne by done. apply Hok.
Qed.

Lemma extends_insert m ctx parent e :
  difficulty128_is_zero (ctx_network_difficulty ctx) = false →
  ctx_zano_height (we_context e) = ctx_zano_height ctx →
  ctx_mining_header_hash (we_context e) = ctx_mining_header_hash ctx →
  ctx_network_difficulty (we_context e) = ctx_network_difficulty ctx →
  (∀ old, m !! context_key ctx parent = Some old → we_context e = we_context old ∧
     ∀ zp, we_zano_parent_hash old = Some zp → we_zano_parent_hash e = Some zp) →
  extends m (<[context_key ctx parent := e]> m) (context_key ctx parent) ctx.
Proof.
  intros Hz Eh Em En Hold. split.
  - exists e. by rewrite lookup_insert_eq.
  - intros k' Hne. by rewrite lookup_insert_ne.
  - intros old Ho. exists e. rewrite lookup_insert_eq. split; [done|by apply Hold].
  - by apply registry_ok_insert.
Qed.

Lemma registry_ok_context m ctx parent e :
  registry_ok m → m !! context_key ctx parent = Some e →
  ctx_zano_height (we_context e) = ctx_zano_height ctx ∧
  ctx_mining_header_hash (we_context e) = ctx_mining_header_hash ctx.
Proof. intros Hok He. by destruct (Hok _ _ _ _ He) as (? & ? & _). Qed.

Lemma remember_outcome m ctx parent :
  registry_ok m → remember_post m ctx parent None (remember ctx parent m).
Proof.
  intros Hok. unfold remember, exec_bind, exec_const, exec_get, exec_modify.
  destruct (difficulty128_is_zero (ctx_network_difficulty ctx)) eqn:Hz; cbn [throw_if].
  { split; [done|by left]. }
  destruct (m !! context_key ctx parent) as [e|] eqn:He.
  - destruct (arr_eqb _ _) eqn:En; cbn [throw_if negb]; bool_prop.
    + split; [|done]. split; [by exists e|done|by eauto|done].
    + split; [done|]. right. exists e. split; [done|by left].
  - split; [|done]. apply extends_insert; try done. intros old Ho. congruence.
Qed.

Lemma remember_canonical_outcome m ctx parent zp :
  registry_ok m → remember_post m ctx parent (Some zp) (remember_canonical ctx parent zp m).
Proof.
  intros Hok. unfold remember_canonical, exec_bind, exec_const, exec_get, exec_modify.
  destruct (difficulty128_is_zero (ctx_network_difficulty ctx)) eqn:Hz; cbn [throw_if].
  { split; [done|by left]. }
  destruct (m !! context_key ctx parent) as [e|] eqn:He.
  - destruct (registry_ok_context _ _ _ _ Hok He) as [Eh Em].
    destruct (arr_eqb _ _) eqn:En; cbn [throw_if negb]; bool_prop.
    2: { split; [done|]. right. exists e. split; [done|by left]. }
    assert (∀ b, b = match we_zano_parent_hash e with Some h => negb (arr_eqb h zp)
      | None => false end → b = false → ∀ h, we_zano_parent_hash e = Some h → h = zp) as Hb
      by (intros b -> Hf h Hh; rewrite Hh in Hf; by bool_prop).
    destruct (match we_zano_parent_hash e with Some h => _ | None => _ end) eqn:Ep; cbn [throw_if].
    + split; [done|]. right. exists e. split; [done|]. right.
      destruct (we_zano_parent_hash e) as [h|]; [|done]. exists zp, h. by bool_prop.
    + specialize (Hb _ eq_refl eq_refl). split.
      * apply extends_insert; try done. intros old Ho. rewrite He in Ho. injection Ho as <-.
        split; [done|]. intros h Hh. simpl. by rewrite (Hb h Hh).
      * intros ? [= <-]. eexists. by rewrite lookup_insert_eq.
  - split.
    + apply extends_insert; try done. intros old Ho. congruence.
    + intros ? [= <-]. eexists. by rewrite lookup_insert_eq.
Qed.

(** ** Provenance heights *)

#[export] Instance work_entry_le_total : Total work_entry_le.
Proof.
  intros [[[ha ma] pa] ea] [[[hb mb] pb] eb]. unfold work_entry_le, work_key_lt. simpl.
  rewrite !arr_lt_Z.
  destruct (Z.ltb_spec ha hb), (Z.ltb_spec hb ha), (Z.ltb_spec (arr_Z ma) (arr_Z mb)),
    (Z.ltb_spec (arr_Z mb) (arr_Z ma)); try lia; auto; rewrite !Z.ltb_ge; lia.
Qed.
#[export] Instance work_entry_le_trans : Transitive work_entry_le.
Proof.
  intros [[[ha ma] pa] ea] [[[hb mb] pb] eb] [[[hc mc] pc] ec].
  unfold work_entry_le, work_key_lt. simpl. rewrite !arr_lt_Z.
  repeat match goal with
  | |- context [Z.ltb ?a ?b] => destruct (Z.ltb_spec a b)
  end; intros; try done; lia.
Qed.

Lemma work_entry_le_height a b : work_entry_le a b → a.1.1.1 ≤ b.1.1.1.
Proof.
  destruct a as [[[ha ma] pa] ea], b as [[[hb mb] pb] eb].
  unfold work_entry_le, work_key_lt. simpl.
  destruct (Z.ltb_spec hb ha); [done|lia].
Qed.

Lemma sorted_last_max (l : list Z) b x :
  StronglySorted Z.lt l → last l = Some b → x ∈ l → x ≤ b.
Proof.
  intros Hs (l' & ->)%last_Some [Hx| ->%list_elem_of_singleton]%elem_of_app; [|lia].
  apply StronglySorted_app in Hs as (H & _). specialize (H x b Hx ltac:(left)). lia.
Qed.

Lemma push_heights l :
  StronglySorted work_entry_le l →
  let hs := fold_left push_height l [] in
  StronglySorted Z.lt hs ∧
  ∀ h, h ∈ hs ↔ ∃ k e, (k, e) ∈ l ∧ k.1.1 = h ∧ is_Some (we_zano_parent_hash e).
Proof.
  induction l as [|[k e] l IH] using rev_ind; intros Hs.
  { split; [constructor|]. intros h. split; [by intros ?%elem_of_nil|].
    by intros (? & ? & ?%elem_of_nil & _). }
  apply StronglySorted_app in Hs as (Hle & Hs & _). destruct (IH Hs) as [Hss Hel]. clear IH.
  rewrite fold_left_app. cbn [fold_left]. set (hs := fold_left push_height l []) in *.
  assert (∀ h, h ∈ hs → h ≤ k.1.1) as Hmax.
  { intros h (k' & e' & Hin & <- & _)%Hel.
    apply (work_entry_le_height (k', e') (k, e)), Hle; [done|left]. }
  assert (∀ h, (∃ k' e', (k', e') ∈ l ++ [(k, e)] ∧ k'.1.1 = h ∧ is_Some (we_zano_parent_hash e')) ↔
    h ∈ hs ∨ (h = k.1.1 ∧ is_Some (we_zano_parent_hash e))) as Hsnoc.
  { intros h. rewrite Hel. split.
    - intros (k' & e' & [Hin|[= -> ->]%list_elem_of_singleton]%elem_of_app & <- & Hp); eauto 10.
    - intros [(k' & e' & Hin & Hh)|[-> Hp]]; [exists k', e'|exists k, e];
        rewrite elem_of_app, list_elem_of_singleton; auto. }
  unfold push_height. cbn [fst snd]. destruct (we_zano_parent_hash e) as [zp|] eqn:Ezp.
  2: { split; [done|]. intros h. rewrite Hsnoc. split; [auto|]. intros [?|[_ [? ?]]]; done. }
  destruct (last hs) as [b|] eqn:Eb.
  - destruct (Z.eqb_spec b k.1.1) as [->|Hne].
    + split; [done|]. intros h. rewrite Hsnoc. split; [auto|]. intros [?|[-> _]]; [done|].
      apply last_Some in Eb as [l' ->]. apply elem_of_app. right. left.
    + split.
      * apply StronglySorted_app_2; [|done|repeat constructor].
        intros x y Hx ->%list_elem_of_singleton. pose proof (sorted_last_max _ _ _ Hss Eb Hx).
        assert (b ∈ hs) as Hb by (apply last_Some in Eb as [l' ->]; apply elem_of_app; right; left).
        specialize (Hmax b Hb). lia.
      * intros h. rewrite Hsnoc, elem_of_app, list_elem_of_singleton. naive_solver.
  - apply last_None in Eb. rewrite Eb in *. split; [repeat constructor|].
    intros h. rewrite Hsnoc, list_elem_of_singleton. split; [naive_solver|].
    intros [?%elem_of_nil|[? _]]; done.
Qed.

Lemma provenance_heights_ok m :
  StronglySorted Z.lt (provenance_zano_heights m) ∧
  ∀ h, h ∈ provenance_zano_heights m ↔
    ∃ header parent, is_Some (find_zano_parent_hash m h header parent).
Proof.
  destruct (work_sorted_facts m) as [_ Hel].
  destruct (push_heights (work_sorted m) (StronglySorted_merge_sort _ _)) as [Hs Hh].
  split; [exact Hs|]. intros h. unfold provenance_zano_heights. rewrite Hh. unfold find_zano_parent_hash.
  split.
  - intros ([[h' header] parent] & e & Hin%Hel & <- & Hp). exists header, parent.
    simpl. by rewrite Hin.
  - intros (header & parent & [zp Hzp]). apply bind_Some in Hzp as (e & He & Hp).
    exists (h, header, parent), e. rewrite Hel. eauto.
Qed.

(** ** What the receiver lets in *)

Section ReceiverSpec.
Context `{!ProgPow}.

(** The clock reads a time before 2106, with room for the tolerance. *)
Definition clock_ok (now : Z) : Prop := 0 ≤ now ≤ u32_max - kShareMaxFutureSeconds.

Lemma clock_u64 now : clock_ok now → is_u64 now.
Proof.
  unfold clock_ok, is_u64, u32_max, u64_max, kShareMaxFutureSeconds. lia.
Qed.

(** A share that the receiver hands to the chain: from a peer with the
    capability, on work the registry trusts for its own parent, with a proven
    PoW and the expected difficulty. *)
Record authorised (tw : P2pTrustedWorkRegistry) (peer : P2pHandshake) (share : Share)
    (required now : Z) (mode : ProgPowZContextMode) (c : ShareChain) (ctx : ShareWorkContext)
    (v : CandidateValidation) : Prop := {
  au_capability : lacks_capability peer required = false;
  au_trusted : find_work tw (zano_height share) (mining_header_hash share) (parent_id share)
               = Some ctx;
  au_proven : proven share ctx now mode v;
  au_difficulty : expected_difficulty_reject_reason c share = Ok NoReject }.

(** A reception leaves the chain alone or is an admission of an authorised
    share. *)
Lemma receive_outcome tw peer share required now mode c r c' :
  good c → share_wf share → clock_ok now →
  receive_share tw peer share required now mode c = (r, c') →
  (c' = c ∧ match r with
            | Ok res => recv_status res ≠ RecvConnected ∧ recv_status res ≠ RecvOrphan
            | Throw _ => True
            end) ∨
  ∃ ctx v a, authorised tw peer share required now mode c ctx v ∧
    add_outcome c share (Some v) (enforces_sidechain_difficulty c) (Ok a, c') ∧
    r = Ok (mkReceive (status_of (disposition a)) a
              (match disposition a with Orphan => Some (parent_id share) | _ => None end)).
Proof.
  intros [Hinv Ht] Hwf Hnow Hr. pose proof (clock_u64 _ Hnow) as Hu.
  unfold receive_share, exec_bind, exec_const, exec_get, exec_ret in Hr.
  destruct (share_id share) as [id|x] eqn:Hid; [|left; by injection Hr as <- <-].
  destruct (lacks_capability peer required) eqn:Hcap; [left; by injection Hr as <- <-|].
  destruct (find c id) as [e|].
  { left. destruct (_ && _); by injection Hr as <- <-. }
  destruct (is_orphan c id); [left; by injection Hr as <- <-|].
  destruct (find_work _ _ _ _) as [ctx|] eqn:Hw; [|left; by injection Hr as <- <-].
  destruct (submit_share share ctx now mode c) as [[a|x] c1] eqn:Es.
  - injection Hr as <- <-.
    destruct (submit_outcome _ _ _ _ _ _ Hinv Hwf Hu Es) as [[Ec Hd]|(v & Hv & Hdiff & Ho)].
    + simpl in *. left. destruct Hd as [-> | ->]; done.
    + right. exists ctx, v, a. done.
  - injection Hr as <- <-. left. split; [|done].
    destruct (submit_outcome _ _ _ _ _ _ Hinv Hwf Hu Es) as [[Ec _]|(v & Hv & _ & Ho)]; [done|].
    inversion Ho as [| | | | |? ? Hn]; subst; [done|]. exfalso. apply Hn. split; [done|].
    unfold time_ok. pose proof (pv_time _ _ _ _ _ Hv). unfold clock_ok in Hnow. lia.
Qed.

(** ** A chain fed by the network only *)

(** Every connected share is validated and every orphan will be. *)
Record vetted (c : ShareChain) : Prop := {
  ve_good : good c;
  ve_enforces : enforces_sidechain_difficulty c = true;
  ve_connected : ∀ id e, connected c !! id = Some e → validated_ancestry e = true;
  ve_orphans : ∀ id o, orphans c !! id = Some o → earned o }.

Lemma promotes_validated c c' :
  chain_inv c' → promotes c c' →
  (∀ id e, connected c !! id = Some e → validated_ancestry e = true) →
  (∀ id o, orphans c !! id = Some o → earned o ∧ is_root (os_share o) = false) →
  ∀ id e, connected c' !! id = Some e → validated_ancestry e = true.
Proof.
  intros Hinv Hp Hc Ho id e. remember (Z.to_nat (tip_height e)) as n eqn:En.
  revert id e En. induction n as [n IH] using lt_wf_ind. intros id e -> He.
  destruct (connected c !! id) as [e0|] eqn:Hold.
  { pose proof (lookup_weaken _ _ _ _ Hold (pr_connected _ _ Hp)) as Hk.
    rewrite He in Hk. injection Hk as <-. eauto. }
  destruct (pr_new _ _ Hp id e He Hold) as (o & Hoo & Es & _ & Hval).
  destruct (Ho id o Hoo) as [Hearn Hroot]. apply Hval; [done|]. intros p Hpp.
  rewrite <-Es in Hroot. destruct (parent_height c' id e Hinv He Hroot) as (q & Hq & Hh).
  rewrite Es, Hpp in Hq. injection Hq as <-.
  apply (IH (Z.to_nat (tip_height p))) with (parent_id (os_share o)); try done.
  pose proof (wf_height _ (eo_wf _ _ _ (pi_entry _ _ _ Hinv _ _ Hpp))).
  unfold is_u64, tip_height in *. lia.
Qed.

Lemma vetted_connect c share id v e :
  vetted c → replay_validation_consistent v = true →
  connectable c share id (Some v) true → connected_entry c share id (Some v) true e →
  validated_ancestry e = true.
Proof.
  intros Hv Hc Hcn Hce. rewrite (ce_validated _ _ _ _ _ _ Hce). unfold connect_validated.
  assert (meets_share_difficulty v = true) as ->.
  { unfold replay_validation_consistent in Hc. by destruct (meets_share_difficulty v). }
  cbn [andb]. destruct (cn_parent _ _ _ _ _ Hcn) as [Hr|[p Hp]].
  - unfold is_root in Hr. by rewrite Hr.
  - rewrite Hp, (ve_connected _ Hv _ _ Hp). apply orb_true_r.
Qed.

(** Admitting a share with a proven PoW keeps the chain vetted. *)
Lemma vetted_admit c share ctx now mode v a c' :
  vetted c → share_wf share → clock_ok now → proven share ctx now mode v →
  add_outcome c share (Some v) (enforces_sidechain_difficulty c) (Ok a, c') → vetted c'.
Proof.
  intros Hv Hwf Hnow Hp Ho. rewrite (ve_enforces _ Hv) in Ho.
  assert (good c') as Hg.
  { eapply (add_outcome_good c share (Some v) true); [apply Hv|done| |apply Hp| |exact Ho].
    - unfold time_ok. pose proof (pv_time _ _ _ _ _ Hp). unfold clock_ok in Hnow. lia.
    - intros _. apply Hv. }
  inversion Ho as [|? Hid Hdup|? ? Hid Hfr Hr|? Hid Hfr Hs Hroot Hpn
    |? e n ? Hfr Hcn Hce Hinv' Hprom Hn|]; subst; try done.
  - split; [done|apply Hv|apply Hv|]. intros i o Hi. cbn in Hi.
    destruct (decide (i = id)) as [->|]; [|rewrite lookup_insert_ne in Hi by done; by eapply Hv].
    rewrite lookup_insert_eq in Hi. injection Hi as <-. split; [done|]. exists v. split; [done|].
    pose proof (pv_consistent _ _ _ _ _ Hp) as Hc. unfold replay_validation_consistent in Hc.
    by destruct (meets_share_difficulty v).
  - split; [done| | |].
    + unfold enforces_sidechain_difficulty. rewrite (pr_policy _ _ Hprom). apply (ve_enforces _ Hv).
    + eapply promotes_validated; [apply Hg|exact Hprom| |].
      * intros i e' Hi. cbn in Hi. destruct (decide (i = id)) as [->|].
        -- rewrite lookup_insert_eq in Hi. injection Hi as <-.
           eapply vetted_connect; [done|apply Hp|done|done].
        -- rewrite lookup_insert_ne in Hi by done. by eapply Hv.
      * intros i o Hi. split; [by eapply Hv|]. apply (oo_root c i).
        apply (pi_orphan _ _ _ (proj1 (ve_good _ Hv))). exact Hi.
    + intros i o Hi. eapply (ve_orphans _ Hv i). eapply lookup_weaken; [exact Hi|].
      apply (pr_orphans _ _ Hprom).
Qed.

Lemma vetted_receive tw peer share required now mode c :
  vetted c → share_wf share → clock_ok now →
  vetted (receive_share tw peer share required now mode c).2.
Proof.
  intros Hv Hwf Hnow.
  destruct (receive_share tw peer share required now mode c) as [r c'] eqn:Hr.
  destruct (receive_outcome _ _ _ _ _ _ _ _ _ (ve_good _ Hv) Hwf Hnow Hr)
    as [[-> _]|(ctx & v & a & Hau & Ho & _)]; [done|].
  eapply vetted_admit; [done|done|done|apply Hau|exact Ho].
Qed.

(** ** The node as a state machine *)

(** Everything that changes the registry or the chain while shares arrive:
    local trust decisions, revocations after a change of the Zano chain, and
    whatever peers send. *)
Inductive net_event :=
| EvRemember (ctx : ShareWorkContext) (parent : ShareId)
| EvRememberCanonical (ctx : ShareWorkContext) (parent : ShareId) (zano_parent : Hash256)
| EvEraseHeight (h : Z)
| EvEraseAbove (maximum : Z)
| EvEraseMismatch (h : Z) (canonical : Hash256)
| EvAnnounce (peer : P2pHandshake) (envelope : P2pEnvelope) (now : Z) (mode : ProgPowZContextMode)
| EvShare (peer : P2pHandshake) (share : Share) (required now : Z) (mode : ProgPowZContextMode).

Record Node := mkNode { nd_trusted_work : P2pTrustedWorkRegistry; nd_chain : ShareChain }.

Definition net_run (ev : net_event) (n : Node) : Node :=
  let '(mkNode tw c) := n in
  match ev with
  | EvRemember ctx parent => mkNode (remember ctx parent tw).2 c
  | EvRememberCanonical ctx parent zp => mkNode (remember_canonical ctx parent zp tw).2 c
  | EvEraseHeight h => mkNode (erase_zano_height h tw).2 c
  | EvEraseAbove h => mkNode (erase_zano_heights_above h tw).2 c
  | EvEraseMismatch h zp => mkNode (erase_zano_parent_mismatch h zp tw).2 c
  | EvAnnounce peer envelope now mode => mkNode tw (receive tw peer envelope now mode c).2
  | EvShare peer share required now mode =>
      mkNode tw (receive_share tw peer share required now mode c).2
  end.

Definition net_event_wf (ev : net_event) : Prop :=
  match ev with
  | EvAnnounce _ _ now _ => clock_ok now
  | EvShare _ share _ now _ => share_wf share ∧ clock_ok now
  | _ => True
  end.

Inductive net_reachable : Node → Prop :=
| net_start params c : params_wf params → new_chain params = Ok c → net_reachable (mkNode ∅ c)
| net_step n ev : net_reachable n → net_event_wf ev → net_reachable (net_run ev n).

Definition node_ok (n : Node) : Prop := registry_ok (nd_trusted_work n) ∧ vetted (nd_chain n).

Lemma registry_ok_erase p m : registry_ok m → registry_ok (erase_where p m).2.
Proof.
  intros Hok h header parent e [He _]%(proj2 (erase_where_ok p m)). by eapply Hok.
Qed.

Lemma registry_ok_remember m ctx parent zp out :
  registry_ok m → remember_post m ctx parent zp out → registry_ok out.2.
Proof. intros Hok. destruct out as [[u|x] m']; [intros [He _]; by apply He|by intros [-> _]]. Qed.

Lemma announce_wf e share : parse_p2p_share_announce_envelope e = Ok share → share_wf share.
Proof.
  unfold parse_p2p_share_announce_envelope. intros Hp.
  apply res_bind_ok in Hp as (_ & _ & Hp). apply res_bind_ok in Hp as (_ & _ & Hp).
  by eapply deserialize_share_inv.
Qed.

Lemma net_run_ok n ev : node_ok n → net_event_wf ev → node_ok (net_run ev n).
Proof.
  destruct n as [tw c]. intros [Hreg Hv] Hev. unfold node_ok in *. simpl in *.
  destruct ev; cbn [net_run nd_trusted_work nd_chain] in *.
  - split; [|done]. eapply registry_ok_remember; [done|by apply remember_outcome].
  - split; [|done]. eapply registry_ok_remember; [done|by apply remember_canonical_outcome].
  - split; [by apply registry_ok_erase|done].
  - split; [by apply registry_ok_erase|done].
  - split; [by apply registry_ok_erase|done].
  - split; [done|]. unfold receive, exec_bind, exec_const.
    destruct (parse_p2p_share_announce_envelope envelope) as [share|x] eqn:Es; [|done].
    apply vetted_receive; [done|by eapply announce_wf|done].
  - split; [done|]. apply vetted_receive; [done|apply Hev|apply Hev].
Qed.

Lemma new_chain_vetted params c : params_wf params → new_chain params = Ok c → vetted c.
Proof.
  intros Hwf Hc. pose proof (new_chain_good _ _ Hwf Hc). unfold new_chain in Hc. res_inv.
  split; [done|done| |]; intros id y Hy; cbn in Hy; by rewrite lookup_empty in Hy.
Qed.

Lemma net_reachable_ok n : net_reachable n → node_ok n.
Proof.
  induction 1 as [params c Hwf Hc|n ev _ IH Hev]; [|by apply net_run_ok].
  split; [intros h header parent e He; cbn in He; by rewrite lookup_empty in He|].
  by eapply new_chain_vetted.
Qed.

End ReceiverSpec.
