(* ===== verification/P2pSync.v ===== *)
(** Synchronisation by id: tip hints, share requests and responses,
    [src/p2p_tip.cpp] and [src/p2p_sync.cpp] with their headers. *)
From S2P Require Import Prelude CryptoHash PowTarget Share SidechainParams Difficulty ShareChain.
From S2P Require Import ChainWork ChainInv ChainPromote ChainAdmit ChainReplay ChainPrune.
From S2P Require Import ChainHistory P2pProtocol P2pShare.
Local Open Scope pool_scope.

(** ** Tip hints *)

Definition kP2pTipHintPayloadSize : nat := 40.

Record P2pTipHint := mkTipHint { th_share_id : ShareId; th_share_height : Z }.

Definition read_tip_u64_be := read_be 8 "truncated P2P tip height".

Definition require_valid_tip_hint (hint : P2pTipHint) : res () :=
  throw_if (is_zero_share_id (th_share_id hint) && negb (th_share_height hint =? 0)) RuntimeError
    "zero P2P tip id requires zero share height".

Definition p2p_tip_hint_from_chain (c : ShareChain) : P2pTipHint :=
  match best_tip c with
  | None => mkTipHint (arr_zero 32) 0
  | Some tip => mkTipHint (cs_id tip) (share_height (cs_share tip))
  end.

Definition p2p_tip_hint_from_handshake (h : P2pHandshake) : res P2pTipHint :=
  (let hint := mkTipHint (hs_best_share_id h) (hs_best_share_height h) in
  _ ← require_valid_tip_hint hint;
  mret hint)%stdpp.

Definition make_p2p_tip_announce_envelope (hint : P2pTipHint) : res P2pEnvelope :=
  (_ ← require_valid_tip_hint hint;
  mret (mkEnvelope kP2pProtocolVersion TipAnnounce 0
          (append_u64_be (vec_to_list (th_share_id hint)) (th_share_height hint))))%stdpp.

Definition make_p2p_chain_tip_envelope (c : ShareChain) : res P2pEnvelope :=
  make_p2p_tip_announce_envelope (p2p_tip_hint_from_chain c).

Definition parse_p2p_tip_announce_envelope (e : P2pEnvelope) : res P2pTipHint :=
  (_ ← require_envelope_type e TipAnnounce "P2P envelope is not a tip announcement";
  _ ← throw_if (negb (length (env_payload e) =? kP2pTipHintPayloadSize)%nat) RuntimeError
        "invalid P2P tip announcement payload size";
  height ← read_tip_u64_be (env_payload e) 32;
  let hint := mkTipHint (copy_n 32 (env_payload e) 0) height in
  _ ← require_valid_tip_hint hint;
  mret hint)%stdpp.

Inductive P2pTipSyncStatus :=
| NoRemoteTip | KnownConnectedTip | RequestAdvertisedTip | RequestMissingParent
| HeightMismatch | TipCapabilityMissing.
#[export] Instance P2pTipSyncStatus_eq_dec : EqDecision P2pTipSyncStatus.
Proof. solve_decision. Defined.

Record P2pTipSyncDecision := mkTipDecision {
  td_status : P2pTipSyncStatus;
  td_requested_id : option ShareId }.

Definition plan_p2p_tip_sync (peer : P2pHandshake) (hint : P2pTipHint) (c : ShareChain)
    : P2pTipSyncDecision :=
  if Z.land (hs_capabilities peer) kP2pCapabilityShareSync =? 0
  then mkTipDecision TipCapabilityMissing None
  else if is_zero_share_id (th_share_id hint) then
    if negb (th_share_height hint =? 0) then mkTipDecision HeightMismatch None
    else mkTipDecision NoRemoteTip None
  else
  match find c (th_share_id hint) with
  | Some connected =>
      if negb (share_height (cs_share connected) =? th_share_height hint)
      then mkTipDecision HeightMismatch None
      else mkTipDecision KnownConnectedTip None
  | None =>
      match find_orphan_share c (th_share_id hint) with
      | Some orphan =>
          if negb (share_height orphan =? th_share_height hint) ||
             is_zero_share_id (parent_id orphan)
          then mkTipDecision HeightMismatch None
          else mkTipDecision RequestMissingParent (Some (parent_id orphan))
      | None => mkTipDecision RequestAdvertisedTip (Some (th_share_id hint))
      end
  end.

Definition p2p_tip_sync_status_name (s : P2pTipSyncStatus) : string :=
  match s with
  | NoRemoteTip => "no-remote-tip"
  | KnownConnectedTip => "known-connected-tip"
  | RequestAdvertisedTip => "request-advertised-tip"
  | RequestMissingParent => "request-missing-parent"
  | HeightMismatch => "height-mismatch"
  | TipCapabilityMissing => "capability-missing"
  end.

(** ** Requests and responses *)

Definition kP2pShareRequestPayloadSize : nat := 32.
Definition kP2pShareResponseHeaderSize : nat := 33.

Inductive P2pShareResponseCode := Found | NotFound.
Definition response_code_value (code : P2pShareResponseCode) : Z :=
  match code with Found => 1 | NotFound => 2 end.

Record P2pShareResponse := mkShareResponse {
  sr_code : P2pShareResponseCode;
  sr_requested_id : ShareId;
  sr_share : option Share }.

Definition make_p2p_share_request_envelope (requested_id : ShareId) : res P2pEnvelope :=
  (_ ← throw_if (is_zero_share_id requested_id) RuntimeError "cannot request zero P2P share id";
  mret (mkEnvelope kP2pProtocolVersion ShareRequest 0 (vec_to_list requested_id)))%stdpp.

Definition parse_p2p_share_request_envelope (e : P2pEnvelope) : res ShareId :=
  (_ ← require_envelope_type e ShareRequest "P2P envelope is not a share request";
  _ ← throw_if (negb (length (env_payload e) =? kP2pShareRequestPayloadSize)%nat) RuntimeError
        "invalid P2P share request payload size";
  let requested_id := copy_n 32 (env_payload e) 0 in
  _ ← throw_if (is_zero_share_id requested_id) RuntimeError "cannot request zero P2P share id";
  mret requested_id)%stdpp.

Definition make_p2p_share_response_envelope (requested_id : ShareId) (share : option Share)
    : res P2pEnvelope :=
  (_ ← throw_if (is_zero_share_id requested_id) RuntimeError
        "cannot respond for zero P2P share id";
  match share with
  | None =>
      mret (mkEnvelope kP2pProtocolVersion ShareResponse 0
              ([byte_of_Z (response_code_value NotFound)] ++ vec_to_list requested_id))
  | Some share =>
      id ← share_id share;
      _ ← throw_if (negb (arr_eqb id requested_id)) RuntimeError
            "P2P share response does not match requested id";
      serialized ← serialize_share share;
      mret (mkEnvelope kP2pProtocolVersion ShareResponse 0
              ([byte_of_Z (response_code_value Found)] ++ vec_to_list requested_id ++ serialized))
  end)%stdpp.

Definition parse_p2p_share_response_envelope (e : P2pEnvelope) : res P2pShareResponse :=
  (_ ← require_envelope_type e ShareResponse "P2P envelope is not a share response";
  let payload := env_payload e in
  _ ← throw_if (length payload <? kP2pShareResponseHeaderSize)%nat RuntimeError
        "truncated P2P share response payload";
  let code := byte_to_Z (payload !!! 0%nat) in
  let requested_id := copy_n 32 payload 1 in
  _ ← throw_if (is_zero_share_id requested_id) RuntimeError
        "P2P share response has zero requested id";
  if code =? response_code_value NotFound then
    _ ← throw_if (negb (length payload =? kP2pShareResponseHeaderSize)%nat) RuntimeError
          "invalid not-found P2P share response size";
    mret (mkShareResponse NotFound requested_id None)
  else
    _ ← throw_if (negb (code =? response_code_value Found)) RuntimeError
          "unsupported P2P share response status";
    _ ← throw_if (negb (is_share_size (length payload - kP2pShareResponseHeaderSize)))
          RuntimeError "invalid found P2P share response size";
    share ← deserialize_share (drop kP2pShareResponseHeaderSize payload);
    id ← share_id share;
    _ ← throw_if (negb (arr_eqb id requested_id)) RuntimeError "P2P share response id mismatch";
    mret (mkShareResponse Found requested_id (Some share)))%stdpp.

Definition answer_p2p_share_request (peer : P2pHandshake) (request : P2pEnvelope)
    (c : ShareChain) : res P2pEnvelope :=
  (_ ← throw_if (Z.land (hs_capabilities peer) kP2pCapabilityShareSync =? 0) RuntimeError
        "P2P peer lacks share-sync capability";
  requested_id ← parse_p2p_share_request_envelope request;
  make_p2p_share_response_envelope requested_id (cs_share <$> find c requested_id))%stdpp.

Inductive P2pShareSyncReceiveStatus := ShareProcessed | SyncNotFound | SyncCapabilityMissing.

Record P2pShareSyncReceiveResult := mkSyncResult {
  sy_status : P2pShareSyncReceiveStatus;
  sy_requested_id : ShareId;
  sy_share_result : option P2pShareReceiveResult }.

Definition receive_p2p_share_response `{!ProgPow} (trusted_work : P2pTrustedWorkRegistry)
    (peer : P2pHandshake) (response_envelope : P2pEnvelope) (now : Z)
    (mode : ProgPowZContextMode) : exec ShareChain P2pShareSyncReceiveResult :=
  response <- exec_const (λ _, parse_p2p_share_response_envelope response_envelope) ;;
  if Z.land (hs_capabilities peer) kP2pCapabilityShareSync =? 0
  then exec_ret (mkSyncResult SyncCapabilityMissing (sr_requested_id response) None)
  else
  match sr_share response with
  | None => exec_ret (mkSyncResult SyncNotFound (sr_requested_id response) None)
  | Some share =>
      result <- receive_share trusted_work peer share kP2pCapabilityShareSync now mode ;;
      exec_ret (mkSyncResult ShareProcessed (sr_requested_id response) (Some result))
  end.

Definition p2p_share_sync_receive_status_name (s : P2pShareSyncReceiveStatus) : string :=
  match s with
  | ShareProcessed => "share-processed"
  | SyncNotFound => "not-found"
  | SyncCapabilityMissing => "capability-missing"
  end.

(** ** Round trips *)

Lemma require_type_ok t payload message :
  require_envelope_type (mkEnvelope kP2pProtocolVersion t 0 payload) t message = Ok ().
Proof. unfold require_envelope_type. simpl. by rewrite bool_decide_true. Qed.

Lemma copy_n_whole n (v : bytes n) : copy_n n (vec_to_list v) 0 = v.
Proof. unfold copy_n. rewrite drop_0. apply arr_of_to_list. Qed.

Lemma make_tip_ok hint e :
  make_p2p_tip_announce_envelope hint = Ok e ↔
  (is_zero_share_id (th_share_id hint) = true → th_share_height hint = 0) ∧
  e = mkEnvelope kP2pProtocolVersion TipAnnounce 0
        (vec_to_list (th_share_id hint) ++ be_bytes 8 (th_share_height hint)).
Proof.
  unfold make_p2p_tip_announce_envelope, require_valid_tip_hint, append_u64_be.
  destruct (is_zero_share_id (th_share_id hint)); simpl.
  - destruct (Z.eqb_spec (th_share_height hint) 0) as [E|E]; simpl.
    + split; [intros [= <-]|intros [_ ->]]; done.
    + split; [done|]. intros [Hz _]. by specialize (Hz eq_refl).
  - split; [intros [= <-]|intros [_ ->]]; done.
Qed.

Lemma parse_make_tip hint e :
  is_u64 (th_share_height hint) → make_p2p_tip_announce_envelope hint = Ok e →
  parse_p2p_tip_announce_envelope e = Ok hint.
Proof.
  intros Hu [Hz ->]%make_tip_ok. destruct hint as [id h]. simpl in *.
  unfold parse_p2p_tip_announce_envelope. rewrite require_type_ok. cbn [mbind res_bind env_payload].
  rewrite length_app, length_vec_to_list, length_be_bytes. cbn [Nat.eqb negb throw_if mbind res_bind].
  rewrite <-(app_nil_r (be_bytes 8 h)). unfold read_tip_u64_be.
  rewrite read_be_at; [|by rewrite length_vec_to_list|].
  2: { unfold is_u64, u64_max in Hu. change (pow256 8) with 18446744073709551616. lia. }
  cbn [mbind res_bind]. unfold copy_n. rewrite drop_0, arr_of_app.
  unfold require_valid_tip_hint. simpl. destruct (is_zero_share_id id); [|done].
  rewrite Hz by done. done.
Qed.

Lemma parse_request_ok id e :
  make_p2p_share_request_envelope id = Ok e →
  is_zero_share_id id = false ∧ parse_p2p_share_request_envelope e = Ok id.
Proof.
  unfold make_p2p_share_request_envelope. destruct (is_zero_share_id id) eqn:Hz; [done|].
  intros [= <-]. split; [done|]. unfold parse_p2p_share_request_envelope.
  rewrite require_type_ok. cbn [mbind res_bind env_payload].
  rewrite length_vec_to_list, copy_n_whole, Hz. done.
Qed.

Lemma layout_share_size s : is_share_size (length (share_layout s)) = true.
Proof.
  unfold is_share_size. rewrite length_share_layout. unfold share_size.
  destruct (payout s); by rewrite Nat.eqb_refl.
Qed.

(** What a response carries. *)
Definition response_of (id : ShareId) (share : option Share) : P2pShareResponse :=
  mkShareResponse (match share with Some _ => Found | None => NotFound end) id share.

Lemma parse_make_response id share e :
  (∀ s, share = Some s → share_wf s) →
  make_p2p_share_response_envelope id share = Ok e →
  parse_p2p_share_response_envelope e = Ok (response_of id share).
Proof.
  intros Hwf. unfold make_p2p_share_response_envelope.
  destruct (is_zero_share_id id) eqn:Hz; [done|]. cbn [throw_if mbind res_bind].
  destruct share as [s|].
  - specialize (Hwf s eq_refl). intros He.
    apply res_bind_ok in He as (id' & Hid & He). apply res_bind_ok in He as (_ & Heq%throw_if_ok & He).
    bool_prop. subst id'.
    apply res_bind_ok in He as (l & [Hc ->]%serialize_share_ok & He). injection He as <-.
    unfold parse_p2p_share_response_envelope. rewrite require_type_ok.
    cbn [mbind res_bind]. cbv zeta. cbn [env_payload].
    set (pl := byte_of_Z 1 :: vec_to_list id ++ share_layout s).
    assert (length pl = 33 + length (share_layout s))%nat as Hlen
      by (unfold pl; cbn [length]; rewrite length_app, length_vec_to_list; lia).
    rewrite Hlen.
    rewrite (proj2 (Nat.ltb_ge (33 + length (share_layout s)) kP2pShareResponseHeaderSize))
      by (unfold kP2pShareResponseHeaderSize; lia).
    cbn [throw_if mbind res_bind].
    assert (copy_n 32 pl 1 = id) as -> by (by apply (copy_n_at 32 id [byte_of_Z 1])).
    assert (drop kP2pShareResponseHeaderSize pl = share_layout s) as Hd.
    { unfold pl. rewrite app_comm_cons. apply drop_app_length'.
      cbn [length]. by rewrite length_vec_to_list. }
    rewrite Hz, Hd. replace (33 + length (share_layout s) - kP2pShareResponseHeaderSize)%nat
      with (length (share_layout s)) by (unfold kP2pShareResponseHeaderSize; lia).
    rewrite layout_share_size. change (byte_to_Z (pl !!! 0%nat)) with 1.
    cbn [response_code_value Z.eqb Pos.eqb negb throw_if mbind res_bind].
    rewrite (deserialize_share_layout s) by done. cbn [mbind res_bind].
    rewrite Hid. cbn [mbind res_bind]. by rewrite arr_eqb_refl.
  - intros [= <-]. unfold parse_p2p_share_response_envelope. rewrite require_type_ok.
    cbn [mbind res_bind]. cbv zeta. cbn [env_payload].
    cbn [length]. rewrite length_vec_to_list.
    rewrite (proj2 (Nat.ltb_ge 33 kP2pShareResponseHeaderSize)) by done.
    cbn [throw_if mbind res_bind].
    assert (copy_n 32 (byte_of_Z 2 :: vec_to_list id) 1 = id) as ->
      by (rewrite <-(app_nil_r (vec_to_list id)); by apply (copy_n_at 32 id [byte_of_Z 2])).
    by rewrite Hz.
Qed.

(** ** Answers *)

(** On a chain with the invariant every request of a capable peer is answered,
    with the share exactly when it is connected. *)
Lemma answer_ok c peer id request :
  chain_inv c → Z.land (hs_capabilities peer) kP2pCapabilityShareSync ≠ 0 →
  make_p2p_share_request_envelope id = Ok request →
  ∃ response, answer_p2p_share_request peer request c = Ok response ∧
    parse_p2p_share_response_envelope response = Ok (response_of id (cs_share <$> connected c !! id)).
Proof.
  intros Hinv Hcap Hreq. apply parse_request_ok in Hreq as [Hz Hreq].
  unfold answer_p2p_share_request. apply Z.eqb_neq in Hcap. rewrite Hcap, Hreq.
  cbn [throw_if mbind res_bind]. unfold find.
  assert (∃ e, make_p2p_share_response_envelope id (cs_share <$> connected c !! id) = Ok e) as [e He].
  { unfold make_p2p_share_response_envelope. rewrite Hz. cbn [throw_if mbind res_bind].
    destruct (connected c !! id) as [x|] eqn:Hx; [|eauto]. cbn [fmap option_fmap option_map].
    pose proof (eo_share_id _ _ _ (pi_entry _ _ _ Hinv id x Hx)) as Hid. rewrite Hid.
    cbn [mbind res_bind]. rewrite arr_eqb_refl. cbn [negb throw_if mbind res_bind].
    pose proof (share_id_canonical (cs_share x)) as Hc. rewrite Hid in Hc.
    destruct (share_canonical (cs_share x)) eqn:Ec; [|by destruct Hc].
    assert (serialize_share (cs_share x) = Ok (share_layout (cs_share x))) as ->
      by (by apply serialize_share_ok). eauto. }
  exists e. split; [done|]. apply parse_make_response; [|done].
  intros s Hs. destruct (connected c !! id) as [x|] eqn:Hx; [|done]. injection Hs as <-.
  apply (pi_entry _ _ _ Hinv id x Hx).
Qed.

(** What is requested after a hint is missing here: never zero, never a
    connected share, and either the advertised tip or the parent an orphan
    waits for. *)
Lemma plan_requests c peer hint id :
  chain_inv c → td_requested_id (plan_p2p_tip_sync peer hint c) = Some id →
  is_zero_share_id id = false ∧ connected c !! id = None ∧
  (id = th_share_id hint ∧ orphans c !! id = None ∨
   ∃ o, orphans c !! th_share_id hint = Some o ∧ parent_id (os_share o) = id).
Proof.
  intros Hinv. unfold plan_p2p_tip_sync, find, find_orphan_share.
  destruct (_ =? 0); [done|]. destruct (is_zero_share_id (th_share_id hint)) eqn:Hz;
    [by destruct (negb _)|].
  destruct (connected c !! th_share_id hint) as [e|] eqn:Hc; [by destruct (negb _)|].
  destruct (orphans c !! th_share_id hint) as [o|] eqn:Ho; cbn [fmap option_fmap option_map].
  - destruct (_ || _) eqn:Hb; [done|]. bool_prop. intros [= <-]. split; [done|].
    destruct (pi_waiting _ _ _ Hinv _ o Ho (not_elem_of_empty _)) as [[Hn|?] _]; [|done].
    split; [done|]. right. eauto.
  - intros [= <-]. auto.
Qed.

Section Sync.
Context `{!ProgPow}.

(** Receiving the answer to a request is receiving the share itself. *)
Lemma receive_answer tw peer id share response now mode c :
  parse_p2p_share_response_envelope response = Ok (response_of id (Some share)) →
  Z.land (hs_capabilities peer) kP2pCapabilityShareSync ≠ 0 →
  receive_p2p_share_response tw peer response now mode c =
  match receive_share tw peer share kP2pCapabilityShareSync now mode c with
  | (Ok r, c') => (Ok (mkSyncResult ShareProcessed id (Some r)), c')
  | (Throw e, c') => (Throw e, c')
  end.
Proof.
  intros Hp Hcap. unfold receive_p2p_share_response, exec_bind, exec_const, exec_ret.
  rewrite Hp. cbn [sr_requested_id sr_share response_of]. by rewrite (proj2 (Z.eqb_neq _ _) Hcap).
Qed.

End Sync.
