(* ===== verification/P2pSpec.v ===== *)
(** What the network can and cannot do to the share chain: the theorems about
    the trusted-work registry, the share receiver and synchronisation by id. *)
From S2P Require Import Prelude CryptoHash PowTarget Share SidechainParams Difficulty ShareChain.
From S2P Require Import ChainWork ChainInv ChainPromote ChainAdmit ChainReplay ChainPrune.
From S2P Require Import ChainHistory Demo P2pProtocol P2pShare P2pSync.
Local Open Scope pool_scope.

Section Network.
Context `{!ProgPow}.

(** C9: what a peer can put into the chain.  A received share is connected or
    kept as an orphan only when the peer negotiated the capability, the registry
    trusts the share's Zano height and mining header for the share's own parent,
    and the share has the PoW and the difficulty that [submit_share] asks for.
    Whatever else is received, exceptions included, leaves the chain as it was. *)
Theorem receive_share_sound : ∀ tw peer share required now mode c r c',
  reachable c → share_wf share → clock_ok now →
  receive_share tw peer share required now mode c = (r, c') →
  match r with
  | Ok res =>
      match recv_status res with
      | RecvConnected => ∃ ctx v e, authorised tw peer share required now mode c ctx v ∧
          connected c' !! result_id (recv_chain_result res) = Some e ∧ cs_share e = share ∧
          pow_validation e = Some v ∧ connected c ⊆ connected c'
      | RecvOrphan => ∃ ctx v, authorised tw peer share required now mode c ctx v ∧
          is_orphan c' (result_id (recv_chain_result res)) = true ∧ connected c' = connected c ∧
          recv_missing_parent_id res = Some (parent_id share) ∧
          connected c !! parent_id share = None
      | _ => c' = c
      end
  | Throw _ => c' = c
  end.
Proof.
  intros tw peer share required now mode c r c' Hc Hwf Hnow Hr. apply reachable_good in Hc.
  destruct (receive_outcome _ _ _ _ _ _ _ _ _ Hc Hwf Hnow Hr)
    as [[-> Hs]|(ctx & v & a & Hau & Ho & ->)].
  { destruct r as [res|]; [|done]. by destruct (recv_status res), Hs. }
  cbn [recv_status recv_chain_result recv_missing_parent_id].
  inversion Ho as [|? Hid Hdup|? ? Hid Hfr Hrej|? Hid Hfr Hs Hroot Hp
    |? e n ? Hfr Hcn Hce Hinv' Hprom Hn|]; subst; simpl; try done.
  - exists ctx, v. split; [done|]. split; [|done]. apply bool_decide_eq_true. cbn.
    by rewrite lookup_insert_eq.
  - exists ctx, v, e. split; [done|]. pose proof (pr_connected _ _ Hprom) as Hsub. cbn in Hsub.
    split; [eapply lookup_weaken; [|exact Hsub]; by rewrite lookup_insert_eq|].
    split; [apply Hce|]. split; [apply Hce|].
    etransitivity; [by apply insert_subseteq, Hcn|exact Hsub].
Qed.

(** A node fed by the network holds validated shares only.  In every state
    reached from a fresh node by any sequence of trust decisions, revocations,
    announcements and share responses, of honest or malicious peers, the chain
    keeps its invariant, every connected share carries a PoW verdict that meets
    its difficulty and is marked validated together with all its ancestors, and
    every registry entry sits under the height and header it vouches for. *)
Theorem network_node_invariant : ∀ n,
  net_reachable n →
  registry_ok (nd_trusted_work n) ∧ chain_inv (nd_chain n) ∧
  ∀ id e, connected (nd_chain n) !! id = Some e →
    validated_ancestry e = true ∧
    ∃ v, pow_validation e = Some v ∧ meets_share_difficulty v = true.
Proof.
  intros n [Hreg Hv]%net_reachable_ok. pose proof (proj1 (ve_good _ Hv)) as Hinv.
  split; [done|]. split; [done|]. intros id e He. pose proof (ve_connected _ Hv id e He) as Hval.
  split; [done|]. destruct (validated_facts _ id e Hinv (conj He Hval)) as (v & Hpv & Hc & _).
  exists v. split; [done|]. unfold replay_validation_consistent in Hc.
  by destruct (meets_share_difficulty v).
Qed.

End Network.

(** Trust is never rebound.  Remembering work either adds or confirms the
    entry of its own key, keeping every other entry and everything already known
    of this one, or throws, because the difficulty is zero or contradicts what
    is known of the key, and leaves the registry as it was. *)
Theorem registry_never_rebinds : ∀ m ctx parent zano_parent,
  registry_ok m →
  remember_post m ctx parent None (remember ctx parent m) ∧
  remember_post m ctx parent (Some zano_parent) (remember_canonical ctx parent zano_parent m).
Proof.
  intros m ctx parent zp Hok.
  split; [by apply remember_outcome|by apply remember_canonical_outcome].
Qed.

(** Revocation is exact.  Each of the three erasures returns the number of
    entries it removed and removes exactly those of its height, above its
    height, or of its height with a Zano parent other than the canonical one;
    and [provenance_zano_heights] lists, ascending and once each, the heights
    that still have an entry with a known Zano parent. *)
Theorem registry_revocation_exact : ∀ m h canonical,
  let kept (out : nat * P2pTrustedWorkRegistry) (keep : WorkKey → WorkEntry → Prop) :=
    (out.1 + size out.2 = size m)%nat ∧
    ∀ k e, out.2 !! k = Some e ↔ m !! k = Some e ∧ keep k e in
  kept (erase_zano_height h m) (λ k _, k.1.1 ≠ h) ∧
  kept (erase_zano_heights_above h m) (λ k _, k.1.1 ≤ h) ∧
  kept (erase_zano_parent_mismatch h canonical m)
    (λ k e, k.1.1 = h → ∀ zp, we_zano_parent_hash e = Some zp → zp = canonical) ∧
  StronglySorted Z.lt (provenance_zano_heights m) ∧
  (∀ z, z ∈ provenance_zano_heights m ↔
     ∃ header parent, is_Some (find_zano_parent_hash m z header parent)).
Proof.
  intros m h canonical kept.
  assert (∀ p (keep : WorkKey → WorkEntry → Prop), (∀ k e, p k e = false ↔ keep k e) →
    kept (erase_where p m) keep) as Hk.
  { intros p keep Hpk. destruct (erase_where_ok p m) as [Hs Hl]. split; [done|].
    intros k e. by rewrite Hl, Hpk. }
  split; [apply Hk; intros k e; apply Z.eqb_neq|].
  split; [apply Hk; intros k e; rewrite negb_false_iff; apply Z.leb_le|].
  split; [|apply provenance_heights_ok]. apply Hk. intros k e.
  rewrite negb_false_iff, orb_true_iff, negb_true_iff, Z.eqb_neq.
  destruct (we_zano_parent_hash e) as [zp|]; [rewrite arr_eqb_true|].
  - split; [intros [?| ->]; [done|by intros _ ? [= <-]]|]. intros Hz.
    destruct (Z.eq_dec k.1.1 h) as [E|]; [right; by apply Hz|by left].
  - split; [done|by right].
Qed.

Section Synchronisation.
Context `{!ProgPow}.

(** Synchronisation by id delivers.  Whatever the tip hint of a peer, the id
    it makes us ask for can be requested, is not connected here, and is either
    the advertised tip or the missing parent of the advertised orphan.  A node
    with a reachable chain answers the request with the share exactly when the
    share is connected there, and receiving that answer does what receiving the
    share itself does. *)
Theorem sync_by_id_delivers : ∀ c remote peer hint id tw now mode,
  reachable c → reachable remote → Z.land (hs_capabilities peer) kP2pCapabilityShareSync ≠ 0 →
  td_requested_id (plan_p2p_tip_sync peer hint c) = Some id →
  connected c !! id = None ∧
  (id = th_share_id hint ∨
   ∃ o, orphans c !! th_share_id hint = Some o ∧ parent_id (os_share o) = id) ∧
  ∃ request response,
    make_p2p_share_request_envelope id = Ok request ∧
    answer_p2p_share_request peer request remote = Ok response ∧
    match connected remote !! id with
    | Some e =>
        receive_p2p_share_response tw peer response now mode c =
        match receive_share tw peer (cs_share e) kP2pCapabilityShareSync now mode c with
        | (Ok r, c') => (Ok (mkSyncResult ShareProcessed id (Some r)), c')
        | (Throw x, c') => (Throw x, c')
        end
    | None =>
        receive_p2p_share_response tw peer response now mode c =
        (Ok (mkSyncResult SyncNotFound id None), c)
    end.
Proof.
  intros c remote peer hint id tw now mode Hc Hr Hcap Hplan.
  apply reachable_good in Hc as [Hc _], Hr as [Hr _].
  destruct (plan_requests c peer hint id Hc Hplan) as (Hz & Hn & Hwhich).
  split; [done|]. split; [destruct Hwhich as [[? _]|?]; auto|].
  assert (make_p2p_share_request_envelope id =
    Ok (mkEnvelope kP2pProtocolVersion ShareRequest 0 (vec_to_list id))) as Hreq
    by (unfold make_p2p_share_request_envelope; by rewrite Hz).
  destruct (answer_ok remote peer id _ Hr Hcap Hreq) as (response & Ha & Hp).
  exists (mkEnvelope kP2pProtocolVersion ShareRequest 0 (vec_to_list id)), response.
  split; [done|]. split; [done|].
  destruct (connected remote !! id) as [e|].
  - by apply receive_answer.
  - unfold receive_p2p_share_response, exec_bind, exec_const, exec_ret. rewrite Hp.
    cbn [sr_requested_id sr_share response_of fmap option_fmap option_map].
    by rewrite (proj2 (Z.eqb_neq _ _) Hcap).
Qed.

End Synchronisation.

(** ** Instances on the concrete pool *)

Definition demo_peer : P2pHandshake :=
  mkHandshake P2pTestnet (fill_be 32 21) 7 0 demo_tip_id 2 (fill_be 32 7).

(** The three shares' work, trusted for their own parents. *)
Definition demo_trust (parent : ShareId) : net_event :=
  EvRememberCanonical demo_ctx parent (fill_be 32 88).
Definition demo_node : Node :=
  @net_run demo_pow (demo_trust demo_child_id) (@net_run demo_pow (demo_trust demo_root_id)
    (@net_run demo_pow (demo_trust (arr_zero 32)) (mkNode ∅ demo_chain))).
Definition demo_tw : P2pTrustedWorkRegistry := nd_trusted_work demo_node.

Lemma demo_clock : clock_ok demo_now.
Proof. unfold clock_ok, demo_now, u32_max, kShareMaxFutureSeconds. lia. Qed.

Lemma demo_peer_sync : Z.land (hs_capabilities demo_peer) kP2pCapabilityShareSync ≠ 0.
Proof. done. Qed.

Lemma demo_node_reachable : @net_reachable demo_pow demo_node.
Proof.
  do 3 (apply net_step; [|exact I]). apply net_start with demo_params;
    [apply demo_params_wf|apply demo_chain_new].
Qed.

Lemma demo_tw_ok : registry_ok demo_tw.
Proof. exact (proj1 (@net_reachable_ok demo_pow demo_node demo_node_reachable)). Qed.

(** The missing child arrives from the peer: it connects, and the tip with it. *)
Definition demo_received : res P2pShareReceiveResult :=
  Ok (mkReceive RecvConnected (mkAdd Connected NoReject demo_child_id 1 true) None).

Lemma demo_receive_child :
  (@receive_share demo_pow demo_tw demo_peer demo_child kP2pCapabilityShareSync demo_now Light
     demo_c2).1 = demo_received.
Proof.
  unfold receive_share, demo_tw, demo_node. demo_unfold. vm_compute. reflexivity.
Qed.

Lemma receive_share_sound_witness :
  ∃ ctx v, @authorised demo_pow demo_tw demo_peer demo_child kP2pCapabilityShareSync demo_now
    Light demo_c2 ctx v.
Proof.
  destruct (@receive_share_sound demo_pow demo_tw demo_peer demo_child kP2pCapabilityShareSync
    demo_now Light demo_c2 _ _ demo_c2_reachable (proj1 demo_child_wf) demo_clock
    (fst_eq _ _ demo_receive_child)) as (ctx & v & e & Hau & _).
  exists ctx, v. exact Hau.
Defined.

(** The whole history over the network: root, then tip, then child. *)
Definition demo_gossip (s : Share) : net_event :=
  EvShare demo_peer s kP2pCapabilityShareSync demo_now Light.
Definition demo_synced : Node :=
  @net_run demo_pow (demo_gossip demo_child) (@net_run demo_pow (demo_gossip demo_tip)
    (@net_run demo_pow (demo_gossip demo_root) demo_node)).

Lemma demo_synced_reachable : @net_reachable demo_pow demo_synced.
Proof.
  assert (∀ s n, share_wf s → @net_reachable demo_pow n →
    @net_reachable demo_pow (@net_run demo_pow (demo_gossip s) n)) as Hstep
    by (intros s n Hs Hn; apply net_step; [done|]; split; [done|apply demo_clock]).
  apply Hstep; [apply demo_child_wf|]. apply Hstep; [apply demo_tip_wf|].
  apply Hstep; [apply demo_root_wf|]. apply demo_node_reachable.
Qed.

Lemma demo_synced_tip : connected (nd_chain demo_synced) !! demo_tip_id = Some demo_tip_entry.
Proof.
  unfold demo_synced, demo_node, demo_gossip, net_run, receive_share. demo_unfold.
  vm_compute. reflexivity.
Qed.

Lemma network_node_invariant_witness : validated_ancestry demo_tip_entry = true.
Proof.
  exact (proj1 (proj2 (proj2 (@network_node_invariant demo_pow demo_synced demo_synced_reachable))
    demo_tip_id demo_tip_entry demo_synced_tip)).
Defined.

Lemma registry_never_rebinds_witness :
  remember_post demo_tw demo_high_ctx (arr_zero 32) (Some (fill_be 32 5))
    (remember_canonical demo_high_ctx (arr_zero 32) (fill_be 32 5) demo_tw).
Proof.
  exact (proj2 (registry_never_rebinds demo_tw demo_high_ctx (arr_zero 32) (fill_be 32 5)
    demo_tw_ok)).
Defined.

(** A node with the root only hears of the tip from a node with all three. *)
Definition demo_hint : P2pTipHint := mkTipHint demo_tip_id 2.

Lemma demo_plan :
  td_requested_id (plan_p2p_tip_sync demo_peer demo_hint demo_c1) = Some demo_tip_id.
Proof. demo_unfold. vm_compute. reflexivity. Qed.

Lemma sync_by_id_witness : connected demo_c1 !! demo_tip_id = None.
Proof.
  exact (proj1 (@sync_by_id_delivers demo_pow demo_c1 demo_c3 demo_peer demo_hint demo_tip_id
    demo_tw demo_now Light demo_c1_reachable demo_c3_reachable demo_peer_sync demo_plan)).
Defined.
