(* ===== verification/ShareStore.v ===== *)
(** The append-only share store: [include/zano_p2pool/share_store.hpp].

    The file is its contents, [None] when it does not exist.  Opening, writing,
    flushing and renaming succeed here; what an interrupted write leaves behind
    is a file with a torn tail, which the theorems below cover. *)
From S2P Require Import Prelude CryptoHash PowTarget Share SidechainParams Difficulty ShareChain.
From S2P Require Import ChainWork ChainInv ChainPromote ChainAdmit ChainReplay ChainPrune.
From S2P Require Import ChainHistory Demo.
Local Open Scope pool_scope.

Definition kShareStoreMagic : list byte :=
  [Byte.x5a; Byte.x50; Byte.x32; Byte.x53; Byte.x54; Byte.x4f; Byte.x52; Byte.x31].
Definition kShareStoreHeaderSize : nat := 40.

Record ShareStoreLoadResult := mkLoad {
  records_loaded : nat;
  connected_shares : nat;
  orphan_shares : nat;
  truncated_tail_repaired : bool;
  load_best_tip_id : option ShareId }.

Abbreviation File := (option (list byte)).

Definition new_share_store (path_empty : bool) (expected : SidechainId) : res SidechainId :=
  (_ ← throw_if path_empty InvalidArgument "share store path must not be empty";
  _ ← throw_if (is_zero_sidechain_id expected) InvalidArgument
        "share store sidechain id must be nonzero";
  mret expected)%stdpp.

Definition valid_length (n : nat) : bool :=
  (n =? kShareV1SerializedSize)%nat || (n =? kShareV2SerializedSize)%nat.

Section Store.
Context (expected_sidechain_id : SidechainId).

Definition header_bytes : list byte := kShareStoreMagic ++ vec_to_list expected_sidechain_id.

Definition verify_header (contents : list byte) : res () :=
  (_ ← throw_if ((length contents <? 8)%nat || negb (bool_decide (take 8 contents = kShareStoreMagic)))
        RuntimeError "invalid share store magic/version";
  _ ← throw_if (length (drop 8 contents) <? 32)%nat RuntimeError
        "share store sidechain id is truncated";
  throw_if (negb (bool_decide (take 32 (drop 8 contents) = vec_to_list expected_sidechain_id)))
    RuntimeError "share store belongs to a different sidechain")%stdpp.

Definition check_existing (contents : list byte) (what : string) : res () :=
  (_ ← throw_if (length contents <? kShareStoreHeaderSize)%nat RuntimeError what;
  verify_header contents)%stdpp.

Definition ensure_header : exec File () :=
  file <- exec_get ;;
  match file with
  | Some contents =>
      exec_const (λ _, check_existing contents "existing share store header is truncated")
  | None => exec_modify (λ _, Some header_bytes)
  end.

(** The bytes of one record: length, payload, id. *)
Definition record_bytes (share : Share) : res (list byte) :=
  (payload ← serialize_share share;
  _ ← throw_if (negb (valid_length (length payload))) LogicError
        "unexpected serialized share size";
  id ← share_id share;
  mret (be_bytes 4 (Z.of_nat (length payload)) ++ payload ++ vec_to_list id))%stdpp.

Definition append (share : Share) : exec File () :=
  record <- exec_const (λ _, record_bytes share) ;;
  do ensure_header ;;
  exec_modify (fmap (λ contents, contents ++ record)).

(** The records of a rewrite, refusing repeated ids. *)
Fixpoint rewrite_records (shares : list Share) (seen : gset ShareId) : res (list byte) :=
  match shares with
  | [] => Ok []
  | share :: rest =>
      (payload ← serialize_share share;
      _ ← throw_if (negb (valid_length (length payload))) LogicError
            "unexpected serialized share size";
      id ← share_id share;
      _ ← throw_if (bool_decide (id ∈ seen)) InvalidArgument
            "share store rewrite contains duplicate record";
      out ← rewrite_records rest ({[id]} ∪ seen);
      mret (be_bytes 4 (Z.of_nat (length payload)) ++ payload ++ vec_to_list id ++ out))%stdpp
  end.

(** Written to a temporary file that replaces the store by rename: on a throw
    the store is as before. *)
Definition rewrite (shares : list Share) : exec File () :=
  file <- exec_get ;;
  do match file with
     | Some contents =>
         exec_const (λ _, check_existing contents "existing share store header is truncated")
     | None => exec_ret ()
     end ;;
  records <- exec_const (λ _, rewrite_records shares ∅) ;;
  exec_modify (λ _, Some (header_bytes ++ records)).

(** ** Reading *)

(** One record at the read position: end of file, a short record, an invalid
    one, or a share with its id and the rest of the file. *)
Inductive record_read :=
| RecordEnd
| RecordShort
| RecordBad (e : exn)
| RecordGood (share : Share) (id : ShareId) (size : nat) (rest : list byte).

Definition read_record (rest : list byte) : record_read :=
  if (length rest =? 0)%nat then RecordEnd
  else if (length rest <? 4)%nat then RecordShort
  else
    let len := Z.to_nat (be_Z (take 4 rest)) in
    if negb (valid_length len)
    then RecordBad (Exn RuntimeError "share store record has invalid length")
    else
      let rest := drop 4 rest in
      if (length rest <? len)%nat then RecordShort
      else
        let payload := take len rest in
        let rest := drop len rest in
        if (length rest <? 32)%nat then RecordShort
        else
          let stored_id := arr_of 32 rest in
          match (share ← deserialize_share payload; id ← share_id share; mret (share, id))%stdpp
          with
          | Throw e => RecordBad e
          | Ok (share, id) =>
              if negb (arr_eqb id stored_id)
              then RecordBad (Exn RuntimeError "share store record hash mismatch")
              else RecordGood share stored_id (4 + len + 32) (drop 32 rest)
          end.

(** The reading loop of [erase_records]; a record is at least 36 bytes long, so
    [fuel] the file's length is enough. *)
Fixpoint erase_loop (fuel : nat) (rest : list byte) (erase_ids seen : gset ShareId)
    : res (nat * list Share) :=
  match fuel with
  | O => throw LogicError fuel_exhausted
  | S f =>
      match read_record rest with
      | RecordEnd => Ok (0%nat, [])
      | RecordShort => throw RuntimeError "share store final record is truncated"
      | RecordBad e => Throw e
      | RecordGood share id _ rest =>
          (_ ← throw_if (bool_decide (id ∈ seen)) RuntimeError
                "share store contains duplicate record";
          r ← erase_loop f rest erase_ids ({[id]} ∪ seen);
          mret (if bool_decide (id ∈ erase_ids) then (S r.1, r.2) else (r.1, share :: r.2)))%stdpp
      end
  end.

Definition erase_records (ids : list ShareId) : exec File nat :=
  if bool_decide (length ids = 0%nat) then exec_ret 0%nat else
  file <- exec_get ;;
  match file with
  | None => exec_ret 0%nat
  | Some contents =>
      do exec_const (λ _, check_existing contents "share store header is truncated") ;;
      r <- exec_const (λ _, erase_loop (S (length contents)) (drop kShareStoreHeaderSize contents)
                              (list_to_set ids) ∅) ;;
      if (r.1 =? 0)%nat then exec_ret 0%nat
      else do rewrite r.2 ;; exec_ret r.1
  end.

(** The replay loop: the number of records loaded, and the offset to truncate
    the file to when its last record is short. *)
Fixpoint load_loop (fuel : nat) (rest : list byte) (offset loaded : nat)
    : exec ShareChain (nat * option nat) :=
  match fuel with
  | O => exec_throw LogicError fuel_exhausted
  | S f =>
      match read_record rest with
      | RecordEnd => exec_ret (loaded, None)
      | RecordShort => exec_ret (loaded, Some offset)
      | RecordBad e => λ c, (Throw e, c)
      | RecordGood share _ size rest =>
          added <- add_share_unchecked share ;;
          match disposition added with
          | Duplicate => exec_throw RuntimeError "share store contains duplicate record"
          | Rejected =>
              exec_throw RuntimeError
                ("share store replay rejected share: "
                   +:+ share_reject_reason_name (reject_reason added))
          | Connected | Orphan => load_loop f rest (offset + size) (S loaded)
          end
      end
  end.

Definition load_result (c : ShareChain) (loaded : nat) (repaired : bool) : ShareStoreLoadResult :=
  mkLoad loaded (connected_size c) (orphan_size c) repaired (cs_id <$> best_tip c).

Definition empty_load : ShareStoreLoadResult := mkLoad 0 0 0 false None.

(** [load_into] mutates the chain and, when it repairs a torn tail, the file. *)
Definition load_into (repair_truncated_tail : bool) : exec (File * ShareChain) ShareStoreLoadResult :=
  λ st, let '(file, c) := st in
  match file with
  | None => (Ok empty_load, st)
  | Some contents =>
      match check_existing contents "share store header is truncated" with
      | Throw e => (Throw e, st)
      | Ok _ =>
          match load_loop (S (length contents)) (drop kShareStoreHeaderSize contents)
                  kShareStoreHeaderSize 0 c with
          | (Throw e, c') => (Throw e, (file, c'))
          | (Ok (loaded, None), c') => (Ok (load_result c' loaded false), (file, c'))
          | (Ok (loaded, Some offset), c') =>
              if repair_truncated_tail
              then (Ok (load_result c' loaded true), (Some (take offset contents), c'))
              else (throw RuntimeError "share store final record is truncated", (file, c'))
          end
      end
  end.

(** ** Records *)

(** Shares the store can hold: members in range and a canonical encoding. *)
Definition storable (s : Share) : Prop := share_wf s ∧ share_canonical s = true.

Definition store_id (s : Share) : ShareId := cn_fast_hash (share_layout s).

Definition record_of (s : Share) : list byte :=
  be_bytes 4 (Z.of_nat (length (share_layout s))) ++ share_layout s ++ vec_to_list (store_id s).

Lemma share_layout_length s :
  length (share_layout s) = kShareV1SerializedSize ∨
  length (share_layout s) = kShareV2SerializedSize.
Proof using Type.
  rewrite length_share_layout. unfold share_size. destruct (payout s); auto.
Qed.

Lemma valid_layout_length s : valid_length (length (share_layout s)) = true.
Proof using Type.
  unfold valid_length. destruct (share_layout_length s) as [-> | ->]; by rewrite Nat.eqb_refl.
Qed.

Lemma storable_id s : share_canonical s = true → share_id s = Ok (store_id s).
Proof using Type. intros Hc. pose proof (share_id_canonical s) as H. by rewrite Hc in H. Qed.

Lemma storable_serialize s : share_canonical s = true → serialize_share s = Ok (share_layout s).
Proof using Type. intros Hc. by apply serialize_share_ok. Qed.

Lemma record_bytes_ok s r :
  record_bytes s = Ok r ↔ share_canonical s = true ∧ r = record_of s.
Proof using Type.
  unfold record_bytes. split.
  - intros Hr. res_inv. match goal with H : serialize_share s = Ok _ |- _ =>
      apply serialize_share_ok in H as [Hc ->] end.
    match goal with H : share_id s = Ok _ |- _ => rewrite storable_id in H by done; injection H as <- end.
    done.
  - intros [Hc ->]. rewrite storable_serialize, storable_id by done. cbn [mbind res_bind].
    by rewrite valid_layout_length.
Qed.

Lemma record_length s : length (record_of s) = (4 + length (share_layout s) + 32)%nat.
Proof using Type.
  unfold record_of. rewrite !length_app, length_be_bytes, length_vec_to_list. lia.
Qed.

Lemma record_prefix_length s rest :
  Z.to_nat (be_Z (take 4 (record_of s ++ rest))) = length (share_layout s).
Proof using Type.
  unfold record_of. rewrite <-!app_assoc, take_app_length' by (by rewrite length_be_bytes).
  rewrite be_Z_be_bytes, Z.mod_small; [lia|]. split; [lia|].
  apply Z.le_lt_trans with 229; [|done].
  destruct (share_layout_length s) as [-> | ->]; done.
Qed.

Lemma read_record_good s rest :
  storable s →
  read_record (record_of s ++ rest) =
  RecordGood s (store_id s) (length (record_of s)) rest.
Proof using Type.
  intros [Hwf Hc]. unfold read_record.
  rewrite length_app, record_length.
  rewrite (proj2 (Nat.eqb_neq _ 0)), (proj2 (Nat.ltb_ge _ 4)) by lia.
  rewrite record_prefix_length, valid_layout_length. cbn [negb].
  assert (drop 4 (record_of s ++ rest) = share_layout s ++ vec_to_list (store_id s) ++ rest) as ->.
  { unfold record_of. rewrite <-!app_assoc. apply drop_app_length'. by rewrite length_be_bytes. }
  rewrite (proj2 (Nat.ltb_ge _ _)) by (rewrite length_app; lia).
  rewrite take_app_length, drop_app_length.
  rewrite (proj2 (Nat.ltb_ge _ 32)) by (rewrite length_app, length_vec_to_list; lia).
  rewrite (deserialize_share_layout s) by done. cbn [mbind res_bind].
  rewrite storable_id by done. cbn [mbind res_bind mret res_ret].
  rewrite arr_of_app, arr_eqb_refl. cbn [negb]. rewrite drop_app_length' by (by rewrite length_vec_to_list). done.
Qed.

(** A torn record, any proper nonempty prefix, reads as short. *)
Lemma read_record_torn s k :
  (0 < k < length (record_of s))%nat → read_record (take k (record_of s)) = RecordShort.
Proof using Type.
  intros Hk. pose proof (record_length s) as Hlen. unfold read_record.
  assert (length (take k (record_of s)) = k) as Hl by (rewrite length_take; lia).
  rewrite Hl, (proj2 (Nat.eqb_neq k 0)) by lia.
  destruct (Nat.ltb_spec k 4); [done|].
  rewrite take_take, (Nat.min_l 4 k) by lia.
  pose proof (record_prefix_length s []) as Hp. rewrite app_nil_r in Hp.
  rewrite Hp, valid_layout_length. cbn [negb].
  rewrite length_drop, Hl. destruct (Nat.ltb_spec (k - 4) (length (share_layout s))); [done|].
  rewrite !length_drop, Hl. rewrite (proj2 (Nat.ltb_lt _ 32)) by lia. done.
Qed.

(** ** What a file represents *)

Definition contents_of (ss : list Share) : list byte := header_bytes ++ concat (record_of <$> ss).

(** The abstract store: the list of its shares, oldest first. *)
Definition represents (f : File) (ss : list Share) : Prop :=
  Forall storable ss ∧
  match f with Some contents => contents = contents_of ss | None => ss = [] end.

Lemma length_header : length header_bytes = kShareStoreHeaderSize.
Proof using Type. unfold header_bytes. by rewrite length_app, length_vec_to_list. Qed.

Lemma check_header rest what : check_existing (header_bytes ++ rest) what = Ok ().
Proof using Type.
  unfold check_existing, verify_header.
  rewrite length_app, length_header. rewrite (proj2 (Nat.ltb_ge _ kShareStoreHeaderSize)) by lia. cbn [throw_if mbind res_bind].
  rewrite (proj2 (Nat.ltb_ge _ 8)) by (unfold kShareStoreHeaderSize; lia).
  unfold header_bytes. rewrite <-app_assoc. rewrite (take_app_length' kShareStoreMagic) by done.
  rewrite (bool_decide_true (kShareStoreMagic = kShareStoreMagic)) by done. cbn [orb negb throw_if mbind res_bind].
  rewrite (drop_app_length' kShareStoreMagic) by done.
  rewrite (proj2 (Nat.ltb_ge _ 32)) by (rewrite length_app, length_vec_to_list; lia).
  rewrite take_app_length' by (by rewrite length_vec_to_list).
  by rewrite bool_decide_true.
Qed.

Lemma drop_header ss : drop kShareStoreHeaderSize (contents_of ss) = concat (record_of <$> ss).
Proof using Type. unfold contents_of. apply drop_app_length'. by rewrite length_header. Qed.

(** ** Loading *)

(** The reference: add the shares one after the other, stopping at the first
    that is neither connected nor orphaned. *)
Fixpoint replay (ss : list Share) (loaded : nat) : exec ShareChain nat :=
  match ss with
  | [] => exec_ret loaded
  | share :: rest =>
      added <- add_share_unchecked share ;;
      match disposition added with
      | Duplicate => exec_throw RuntimeError "share store contains duplicate record"
      | Rejected =>
          exec_throw RuntimeError
            ("share store replay rejected share: "
               +:+ share_reject_reason_name (reject_reason added))
      | Connected | Orphan => replay rest (S loaded)
      end
  end.

(** What is left after the records: nothing, or a torn record. *)
Definition tail_verdict (tail : list byte) (offset : nat) : option nat :=
  if bool_decide (tail = []) then None else Some offset.

Lemma load_loop_replay ss tail : ∀ fuel offset loaded c,
  Forall storable ss → (tail = [] ∨ read_record tail = RecordShort) →
  (length ss < fuel)%nat →
  load_loop fuel (concat (record_of <$> ss) ++ tail) offset loaded c =
  match replay ss loaded c with
  | (Ok n, c') => (Ok (n, tail_verdict tail (offset + length (concat (record_of <$> ss)))), c')
  | (Throw e, c') => (Throw e, c')
  end.
Proof using Type.
  induction ss as [|s ss IH]; intros fuel offset loaded c Hs Ht Hf; destruct fuel as [|fuel];
    [simpl in Hf; lia| |simpl in Hf; lia|]; cbn [load_loop].
  - simpl. rewrite Nat.add_0_r. unfold tail_verdict. destruct Ht as [->|Ht]; [done|].
    rewrite Ht, bool_decide_false; [done|]. intros ->. done.
  - apply Forall_cons in Hs as [Hs1 Hs].
    change (concat (record_of <$> s :: ss)) with (record_of s ++ concat (record_of <$> ss)).
    rewrite <-app_assoc, read_record_good by done. cbn [replay].
    unfold exec_bind. destruct (add_share_unchecked s c) as [[r|e] c1]; [|done].
    assert (load_loop fuel (concat (record_of <$> ss) ++ tail) (offset + length (record_of s))
      (S loaded) c1 = match replay ss (S loaded) c1 with
      | (Ok n, c') => (Ok (n, tail_verdict tail (offset +
          length (record_of s ++ concat (record_of <$> ss)))), c')
      | (Throw e, c') => (Throw e, c')
      end) as IH'
      by (rewrite length_app, Nat.add_assoc; apply IH; [exact Hs|exact Ht|simpl in Hf; lia]).
    destruct (disposition r); [exact IH'|exact IH'|reflexivity|reflexivity].
Qed.

Lemma records_fuel ss : (length ss ≤ length (concat (record_of <$> ss)))%nat.
Proof using Type.
  induction ss as [|s ss IH]; [done|].
  change (concat (record_of <$> s :: ss)) with (record_of s ++ concat (record_of <$> ss)).
  rewrite length_app, record_length. cbn [length]. lia.
Qed.

(** Loading a file that represents [ss], possibly followed by a torn record. *)
Lemma load_into_replay ss tail c repair :
  Forall storable ss → (tail = [] ∨ read_record tail = RecordShort) →
  load_into repair (Some (contents_of ss ++ tail), c) =
  match replay ss 0 c with
  | (Throw e, c') => (Throw e, (Some (contents_of ss ++ tail), c'))
  | (Ok n, c') =>
      if bool_decide (tail = []) then
        (Ok (load_result c' n false), (Some (contents_of ss ++ tail), c'))
      else if repair then (Ok (load_result c' n true), (Some (contents_of ss), c'))
      else (throw RuntimeError "share store final record is truncated",
            (Some (contents_of ss ++ tail), c'))
  end.
Proof using Type.
  intros Hs Ht. unfold load_into, contents_of. rewrite <-app_assoc, check_header.
  rewrite drop_app_length' by (by rewrite length_header).
  rewrite load_loop_replay; [|done|done|].
  2: { rewrite !length_app. pose proof (records_fuel ss). lia. }
  destruct (replay ss 0 c) as [[n|e] c']; [|done]. unfold tail_verdict.
  destruct (bool_decide (tail = [])); [done|]. destruct repair; [|done].
  rewrite <-length_header, <-length_app, app_assoc, take_app_length. done.
Qed.

(** ** Writing *)

Lemma contents_snoc ss s : contents_of (ss ++ [s]) = contents_of ss ++ record_of s.
Proof using Type.
  unfold contents_of. rewrite fmap_app, concat_app. simpl. by rewrite app_nil_r, app_assoc.
Qed.

Lemma ensure_header_ok f ss :
  represents f ss → ensure_header f = (Ok (), Some (contents_of ss)).
Proof using Type.
  intros [_ Hf]. unfold ensure_header, exec_bind, exec_get, exec_const, exec_modify.
  destruct f as [contents|]; subst.
  - unfold contents_of. by rewrite check_header.
  - unfold contents_of. simpl. by rewrite app_nil_r.
Qed.

Lemma append_ok f ss s :
  represents f ss → share_wf s →
  if share_canonical s
  then append s f = (Ok (), Some (contents_of (ss ++ [s]))) ∧
       represents (Some (contents_of (ss ++ [s]))) (ss ++ [s])
  else ∃ e, append s f = (Throw e, f).
Proof using Type.
  intros Hf Hwf. unfold append, exec_bind, exec_const. destruct (share_canonical s) eqn:Hc.
  - rewrite (proj2 (record_bytes_ok s _) (conj Hc eq_refl)), (ensure_header_ok f ss Hf).
    unfold exec_modify. simpl. rewrite contents_snoc. split; [done|]. split; [|by rewrite contents_snoc].
    destruct Hf as [Hs _]. apply Forall_app. split; [done|]. constructor; [by split|constructor].
  - destruct (record_bytes s) as [r|e] eqn:Er; [|eauto].
    apply record_bytes_ok in Er as [? _]. congruence.
Qed.

Lemma rewrite_records_ok ss : ∀ seen,
  Forall storable ss → NoDup (store_id <$> ss) → (∀ s, s ∈ ss → store_id s ∉ seen) →
  rewrite_records ss seen = Ok (concat (record_of <$> ss)).
Proof using Type.
  induction ss as [|s ss IH]; intros seen Hs Hnd Hseen; [done|].
  apply Forall_cons in Hs as [[Hwf Hc] Hs]. rewrite fmap_cons in Hnd.
  apply NoDup_cons in Hnd as [Hni Hnd].
  change (concat (record_of <$> s :: ss)) with (record_of s ++ concat (record_of <$> ss)).
  cbn [rewrite_records].
  rewrite storable_serialize by done. cbn [mbind res_bind].
  rewrite valid_layout_length. cbn [negb throw_if mbind res_bind].
  rewrite storable_id by done. cbn [mbind res_bind].
  rewrite (bool_decide_false (store_id s ∈ seen)) by (apply Hseen; left). cbn [throw_if mbind res_bind].
  rewrite IH; [|done|done|].
  - cbn [mbind res_bind]. unfold record_of at 2. by rewrite <-!app_assoc.
  - intros s' Hs'. apply not_elem_of_union. split; [|apply Hseen; by right].
    intros E%elem_of_singleton. apply Hni. rewrite <-E. by apply list_elem_of_fmap_2.
Qed.

Lemma rewrite_ok f ss ss' :
  represents f ss → Forall storable ss' → NoDup (store_id <$> ss') →
  rewrite ss' f = (Ok (), Some (contents_of ss')).
Proof using Type.
  intros [_ Hf] Hs Hnd.
  assert (rewrite_records ss' ∅ = Ok (concat (record_of <$> ss'))) as Hr
    by (apply rewrite_records_ok; [done|done|intros; apply not_elem_of_empty]).
  unfold rewrite, exec_bind, exec_get, exec_const, exec_modify.
  destruct f as [contents|]; subst; [unfold contents_of at 1; rewrite check_header|unfold exec_ret];
    by rewrite Hr.
Qed.

Lemma erase_loop_ok ids ss : ∀ fuel seen,
  Forall storable ss → NoDup (store_id <$> ss) → (∀ s, s ∈ ss → store_id s ∉ seen) →
  (length ss < fuel)%nat →
  erase_loop fuel (concat (record_of <$> ss)) ids seen =
  Ok (length (filter (λ s, store_id s ∈ ids) ss), filter (λ s, store_id s ∉ ids) ss).
Proof using Type.
  induction ss as [|s ss IH]; intros fuel seen Hs Hnd Hseen Hf; destruct fuel as [|fuel];
    [simpl in Hf; lia| |simpl in Hf; lia|]; cbn [erase_loop]; [done|].
  apply Forall_cons in Hs as [Hs1 Hs]. rewrite fmap_cons in Hnd.
  apply NoDup_cons in Hnd as [Hni Hnd].
  change (concat (record_of <$> s :: ss)) with (record_of s ++ concat (record_of <$> ss)).
  rewrite read_record_good by done. simpl in Hf.
  rewrite (bool_decide_false (store_id s ∈ seen)) by (apply Hseen; left). cbn [throw_if mbind res_bind].
  rewrite IH; [|done|done| |lia].
  - cbn [mbind res_bind]. rewrite !filter_cons. destruct (decide (store_id s ∈ ids)) as [Hin|Hin].
    + rewrite bool_decide_true by done. rewrite decide_False by (intros Hn; by apply Hn). done.
    + rewrite bool_decide_false by done. rewrite decide_True by done. done.
  - intros s' Hs'. apply not_elem_of_union. split; [|apply Hseen; by right].
    intros E%elem_of_singleton. apply Hni. rewrite <-E. by apply list_elem_of_fmap_2.
Qed.

Lemma erase_ok f ss ids :
  represents f ss → NoDup (store_id <$> ss) →
  let kept := filter (λ s, store_id s ∉ (list_to_set ids : gset ShareId)) ss in
  ∃ f', erase_records ids f =
      (Ok (length (filter (λ s, store_id s ∈ (list_to_set ids : gset ShareId)) ss)), f') ∧
    represents f' kept.
Proof using Type.
  intros Hf Hnd kept. pose proof Hf as [Hs Hc]. unfold erase_records.
  assert (∀ (P : Share → Prop) `{!∀ s, Decision (P s)}, Forall storable (filter P ss)) as Hfs.
  { intros P HP. apply Forall_forall. intros x [_ Hx]%list_elem_of_filter.
    rewrite Forall_forall in Hs. by apply Hs. }
  case_bool_decide as Hids.
  { apply nil_length_inv in Hids as ->. exists f.
    rewrite (filter_none _ ss) by (intros x _; apply not_elem_of_empty).
    split; [done|]. unfold kept. rewrite filter_all; [done|]. intros x _. apply not_elem_of_empty. }
  unfold exec_bind, exec_get, exec_const. destruct f as [contents|]; subst.
  2: { exists None. split; [done|]. unfold kept. split; [constructor|done]. }
  unfold contents_of at 1. rewrite check_header, drop_header.
  rewrite (erase_loop_ok (list_to_set ids) ss); [|done|done|intros; apply not_elem_of_empty|].
  2: { unfold contents_of. rewrite length_app. pose proof (records_fuel ss). lia. }
  cbn [fst snd].
  destruct (Nat.eqb_spec (length (filter (λ s, store_id s ∈ (list_to_set ids : gset ShareId)) ss)) 0)
    as [E0|E0].
  - exists (Some (contents_of ss)). rewrite E0. split; [done|]. unfold kept.
    rewrite filter_all; [done|]. intros x Hx Hin.
    apply nil_length_inv in E0. by apply (filter_nil_not_elem_of _ _ x E0 Hin).
  - fold kept. rewrite (rewrite_ok _ ss kept); [|done|apply Hfs; apply _|].
    + eexists. split; [done|]. split; [apply Hfs; apply _|done].
    + eapply sublist_NoDup; [exact Hnd|]. apply fmap_sublist, sublist_filter.
Qed.

End Store.
