(* ===== verification/StoreSpec.v ===== *)
(** The store refines a list of shares, survives torn appends, and brings back
    the chain it was written from. *)
From S2P Require Import Prelude CryptoHash PowTarget Share SidechainParams Difficulty ShareChain.
From S2P Require Import ChainWork ChainInv ChainPromote ChainAdmit ChainReplay ChainPrune.
From S2P Require Import ChainHistory Demo ShareStore.

(** ** Admission that succeeds *)

(** Connecting an unvalidated share whose link to its parent holds and whose
    work fits. *)
Lemma connect_share_accepts P c share id cum w changed :
  pinv P None c → connectable c share id None false →
  connect_parent_reason c share = Ok NoReject → share_work (share_difficulty share) = Ok w →
  connect_work c share w = Some cum →
  let e := mkConnected share id cum None false in
  ∃ changed', connect_share share id None false changed c =
    (Ok (NoReject, changed'), connect_state id e (connect_best id e c) c).
Proof.
  intros Hinv Hcn Hr Hw Hcum e.
  unfold connect_share, exec_bind, exec_const, exec_ret, exec_get. rewrite Hw, Hr.
  rewrite bool_decide_true by done. cbn [negb]. rewrite Hcum.
  unfold contains. rewrite bool_decide_false by (rewrite (cn_fresh _ _ _ _ _ Hcn); apply is_Some_None).
  change (connect_validated c share None false) with false. fold e.
  pose proof (pi_best _ _ _ Hinv) as Hbest. unfold best_ok in Hbest.
  unfold exec_modify, connect_state, connect_best. cbn [set_connected best_tip_id].
  destruct (best_tip_id c) as [b|] eqn:Eb; [|eauto].
  destruct Hbest as (cur & Hcur & _).
  assert (id ≠ b) by (intros ->; pose proof (cn_fresh _ _ _ _ _ Hcn); congruence).
  change (connected (set_connected (<[id:=e]> (connected c)) c)) with (<[id:=e]> (connected c)).
  rewrite lookup_insert_ne by done. rewrite Hcur.
  destruct (better_tip e cur); [eauto|]. exists changed. unfold set_best, set_connected. cbn.
  by rewrite Eb.
Qed.

(** No orphan waits for [id]: promotion does nothing but drop an empty index
    entry. *)
Lemma promote_nothing f c id n ch :
  (∀ l, orphans_by_parent c !! id = Some l → l = []) →
  ∃ c', promote_children (S f) id n ch c = (Ok (n, ch), c') ∧
    connected c' = connected c ∧ orphans c' = orphans c ∧
    difficulty_policy c' = difficulty_policy c ∧ parameter_id c' = parameter_id c.
Proof.
  intros Hl. cbn [promote_children]. unfold exec_bind, exec_get, exec_modify, exec_ret.
  destruct (orphans_by_parent c !! id) as [l|]; [|by exists c].
  rewrite (Hl l eq_refl). simpl. eexists. split; [done|]. done.
Qed.

(** ** Replaying a snapshot *)

(** [mirrors c d seen]: [d] holds exactly the shares [seen] of [c], connected ones
    connected with the same work, orphans orphaned. *)
Record mirrors (c d : ShareChain) (seen : list ShareId) : Prop := {
  mi_inv : chain_inv d;
  mi_policy : difficulty_policy d = difficulty_policy c;
  mi_connected : ∀ id e, connected d !! id = Some e ↔
    id ∈ seen ∧ ∃ e0, connected c !! id = Some e0 ∧
      e = mkConnected (cs_share e0) (cs_id e0) (cumulative_work e0) None false;
  mi_orphans : ∀ id o, orphans d !! id = Some o ↔
    id ∈ seen ∧ ∃ o0, orphans c !! id = Some o0 ∧
      o = mkOrphan (os_share o0) (os_id o0) None false }.

Lemma mirrors_fresh c d seen id : mirrors c d seen → id ∉ seen → fresh_id d id.
Proof.
  intros Hm Hni. split; apply eq_None_not_Some; intros [x Hx].
  - by apply (mi_connected _ _ _ Hm) in Hx as [? _].
  - by apply (mi_orphans _ _ _ Hm) in Hx as [? _].
Qed.

Lemma mirrors_no_waiting c d seen id e0 l :
  chain_inv c → mirrors c d seen → connected c !! id = Some e0 →
  orphans_by_parent d !! id = Some l → l = [].
Proof.
  intros Hinv Hm He0 Hl. destruct l as [|i l]; [done|exfalso].
  destruct (pi_by_parent _ _ _ (mi_inv _ _ _ Hm) _ _ Hl) as [_ Hall].
  destruct (Hall i ltac:(left)) as [_ (o & Ho & Hp)].
  apply (mi_orphans _ _ _ Hm) in Ho as (_ & o0 & Ho0 & ->). simpl in Hp.
  destruct (pi_waiting _ _ _ Hinv i o0 Ho0 (not_elem_of_empty i)) as [[Hn|?] _]; [|done].
  congruence.
Qed.

Lemma mirrors_connectable c d seen id e0 :
  chain_inv c → mirrors c d seen → connected c !! id = Some e0 → id ∉ seen →
  (is_root (cs_share e0) = false → parent_id (cs_share e0) ∈ seen) →
  connectable d (cs_share e0) id None false ∧
  connect_parent_reason d (cs_share e0) = Ok NoReject ∧
  ∃ w, share_work (share_difficulty (cs_share e0)) = Ok w ∧
    connect_work d (cs_share e0) w = Some (cumulative_work e0).
Proof.
  intros Hinv Hm He0 Hni Hpar. pose proof (pi_entry _ _ _ Hinv id e0 He0) as [H1 H2 H3 H4 H5 H6 H7].
  destruct (structural_network_nonzero _ _ H4) as [Hz _].
  destruct (share_work_ok _ Hz) as (w & Hw & Hwz).
  destruct (mirrors_fresh _ _ _ _ Hm Hni) as [Hfc _].
  unfold linked in H6. unfold connect_parent_reason, connect_work. fold (is_root (cs_share e0)).
  destruct (is_root (cs_share e0)) eqn:Er.
  - split; [constructor; try done; [by rewrite (structural_ext d c) by apply Hm|by left]|].
    split; [done|]. exists w. split; [done|]. f_equal. apply arr_Z_inj. rewrite Hwz.
    symmetry. exact H6.
  - destruct H6 as (p & Hp & Hh & Ht & Hwork).
    assert (connected d !! parent_id (cs_share e0) =
      Some (mkConnected (cs_share p) (cs_id p) (cumulative_work p) None false)) as Hpd
      by (apply (mi_connected _ _ _ Hm); eauto).
    split; [constructor; try done;
      [by rewrite (structural_ext d c) by apply Hm|right; rewrite Hpd; eauto]|].
    rewrite Hpd. cbn [cs_share cumulative_work]. rewrite Hh, Ht. split; [done|].
    exists w. split; [done|]. destruct (add_chain_work_checked (cumulative_work p) w) as [sum ok] eqn:Ea.
    pose proof (add_chain_work_Z (cumulative_work p) w) as [Hok Hsum]. rewrite Ea in Hok, Hsum.
    simpl in Hok, Hsum. unfold tip_work in Hwork. rewrite Hwz, <-Hwork in Hok, Hsum.
    pose proof (arr_Z_range (cumulative_work e0)) as Hr. change (pow256 32) with (u256_max + 1) in Hr.
    rewrite (proj2 (Z.leb_le _ _)) in Hok by lia. rewrite Z.mod_small in Hsum by lia.
    subst ok. f_equal. by apply arr_Z_inj.
Qed.

(** The state after connecting a mirrored share mirrors one share more. *)
Lemma mirrors_connected c d d' seen id e0 :
  chain_inv c → mirrors c d seen → connected c !! id = Some e0 → id ∉ seen → chain_inv d' →
  difficulty_policy d' = difficulty_policy d →
  connected d' = <[id := mkConnected (cs_share e0) id (cumulative_work e0) None false]> (connected d) →
  orphans d' = orphans d → mirrors c d' (id :: seen).
Proof.
  intros Hinv Hm He0 Hni Hinv' Hpol Hcon Horph.
  pose proof (eo_id _ _ _ (pi_entry _ _ _ Hinv id e0 He0)) as Eid. split.
  - done.
  - by rewrite Hpol, (mi_policy _ _ _ Hm).
  - intros i e. rewrite Hcon, elem_of_cons. destruct (decide (i = id)) as [->|Hne].
    + rewrite lookup_insert_eq. split; [intros [= <-]; split; [by left|]|].
      * exists e0. split; [done|]. by rewrite Eid.
      * intros [_ (e1 & He1 & ->)]. rewrite He0 in He1. injection He1 as <-. by rewrite Eid.
    + rewrite lookup_insert_ne by done. rewrite (mi_connected _ _ _ Hm i e). naive_solver.
  - intros i o. rewrite Horph, elem_of_cons, (mi_orphans _ _ _ Hm i o). split; [naive_solver|].
    intros [[->|?] (o0 & Ho0 & ->)]; [|naive_solver]. exfalso.
    pose proof (oo_connected _ _ _ (pi_orphan _ _ _ Hinv id o0 Ho0)). congruence.
Qed.

Lemma replay_connected c d seen id e0 :
  chain_inv c → times_ok c → mirrors c d seen → times_ok d → connected c !! id = Some e0 →
  id ∉ seen → (is_root (cs_share e0) = false → parent_id (cs_share e0) ∈ seen) →
  ∃ r d', add_share_unchecked (cs_share e0) d = (Ok r, d') ∧ disposition r = Connected ∧
    mirrors c d' (id :: seen) ∧ times_ok d'.
Proof.
  intros Hinv [Htc _] Hm Htd He0 Hni Hpar. pose proof (pi_entry _ _ _ Hinv id e0 He0) as Hok.
  destruct (mirrors_connectable c d seen id e0 Hinv Hm He0 Hni Hpar) as (Hcn & Hr & w & Hw & Hcw).
  destruct (mirrors_fresh _ _ _ _ Hm Hni) as [Hfc Hfo].
  pose proof (add_prevalidated_outcome d (cs_share e0) None false (mi_inv _ _ _ Hm)
    (eo_wf _ _ _ Hok) I ltac:(done)) as Hout.
  destruct (connect_share_accepts ∅ d (cs_share e0) id (cumulative_work e0) w false
    (mi_inv _ _ _ Hm) Hcn Hr Hw Hcw) as (ch & Hcs).
  set (e := mkConnected (cs_share e0) id (cumulative_work e0) None false) in *.
  set (d1 := connect_state id e (connect_best id e d) d) in *.
  destruct (promote_nothing (size (orphans d1)) d1 id 0 ch) as (d2 & Hpr & Ec & Eo & Ep & _).
  { intros l Hl. exact (mirrors_no_waiting c d seen id e0 l Hinv Hm He0 Hl). }
  assert (∃ b, add_share_unchecked (cs_share e0) d = (Ok (mkAdd Connected NoReject id 0 b), d2))
    as (b & Hadd).
  { unfold add_share_unchecked, add_prevalidated_share, exec_bind, exec_const, exec_get.
    rewrite (eo_share_id _ _ _ Hok), (proj2 (fresh_id_spec d id) (conj Hfc Hfo)).
    rewrite (cn_struct _ _ _ _ _ Hcn), bool_decide_true by done. cbn [negb].
    assert (negb (is_zero_share_id (parent_id (cs_share e0))) &&
      negb (contains d (parent_id (cs_share e0))) = false) as ->.
    { unfold contains. destruct (cn_parent _ _ _ _ _ Hcn) as [Hroot|Hp].
      - unfold is_root in Hroot. by rewrite Hroot.
      - rewrite (bool_decide_true (is_Some _)) by done. apply andb_false_r. }
    rewrite Hcs. rewrite bool_decide_true by done. cbn [negb fst snd]. rewrite Hpr. eauto. }
  fold (add_share_unchecked (cs_share e0)) in Hout. rewrite Hadd in Hout.
  assert (chain_inv d2) as Hinv2.
  { eapply (add_outcome_inv d (cs_share e0) None false); [apply Hm|apply Hok|done|done|exact Hout]. }
  eexists _, d2. split; [exact Hadd|]. split; [done|]. split.
  - by apply (mirrors_connected c d d2 seen id e0).
  - split; [rewrite Ec|rewrite Eo; apply Htd]. intros i x Hx.
    change (connected d1) with (<[id:=e]> (connected d)) in Hx.
    destruct (decide (i = id)) as [->|].
    + rewrite lookup_insert_eq in Hx. injection Hx as <-. exact (Htc id e0 He0).
    + rewrite lookup_insert_ne in Hx by done. exact (proj1 Htd i x Hx).
Qed.

Lemma replay_orphan c d seen id o0 :
  chain_inv c → times_ok c → mirrors c d seen → times_ok d → orphans c !! id = Some o0 → id ∉ seen →
  ∃ r d', add_share_unchecked (os_share o0) d = (Ok r, d') ∧ disposition r = Orphan ∧
    mirrors c d' (id :: seen) ∧ times_ok d'.
Proof.
  intros Hinv [_ Hto] Hm Htd Ho0 Hni. pose proof (pi_orphan _ _ _ Hinv id o0 Ho0) as Hok.
  destruct (mirrors_fresh _ _ _ _ Hm Hni) as [Hfc Hfo].
  destruct (pi_waiting _ _ _ Hinv id o0 Ho0 (not_elem_of_empty id)) as [[Hn|?] _]; [|done].
  assert (connected d !! parent_id (os_share o0) = None) as Hpd.
  { apply eq_None_not_Some. intros [x Hx].
    apply (mi_connected _ _ _ Hm) in Hx as (_ & e & He & _). congruence. }
  assert (orphan_ok d id (mkOrphan (os_share o0) id None false)) as Hok'.
  { destruct Hok. constructor; try done. by rewrite (structural_ext d c) by apply Hm. }
  set (d' := orphan_state (os_share o0) id None false d).
  assert (add_share_unchecked (os_share o0) d = (Ok (mkAdd Orphan NoReject id 0 false), d')) as Hadd.
  { unfold add_share_unchecked, add_prevalidated_share, exec_bind, exec_const, exec_get.
    rewrite (oo_share_id _ _ _ Hok), (proj2 (fresh_id_spec d id) (conj Hfc Hfo)).
    rewrite (structural_ext d c) by apply Hm. rewrite (oo_struct _ _ _ Hok).
    rewrite bool_decide_true by done. cbn [negb].
    pose proof (oo_root _ _ _ Hok) as Hroot. unfold is_root in Hroot. unfold contains.
    rewrite Hroot, Hpd, bool_decide_false by apply is_Some_None. done. }
  eexists _, d'. split; [exact Hadd|]. split; [done|]. split.
  - split; [by apply orphan_state_inv; try done; apply Hm|apply Hm| |].
    + intros i e. change (connected d') with (connected d). rewrite elem_of_cons, (mi_connected _ _ _ Hm i e).
      split; [naive_solver|]. intros [[->|?] (e1 & He1 & ->)]; [|naive_solver]. exfalso.
      pose proof (oo_connected _ _ _ Hok). congruence.
    + intros i o. change (orphans d') with (<[id := mkOrphan (os_share o0) id None false]> (orphans d)).
      rewrite elem_of_cons. destruct (decide (i = id)) as [->|Hne].
      * rewrite lookup_insert_eq. pose proof (oo_id _ _ _ Hok) as Eid. split.
        -- intros [= <-]. split; [by left|]. exists o0. by rewrite Eid.
        -- intros [_ (o1 & Ho1 & ->)]. rewrite Ho0 in Ho1. injection Ho1 as <-. by rewrite Eid.
      * rewrite lookup_insert_ne by done. rewrite (mi_orphans _ _ _ Hm i o). naive_solver.
  - split; [apply Htd|]. intros i o Hi.
    change (orphans d') with (<[id := mkOrphan (os_share o0) id None false]> (orphans d)) in Hi.
    destruct (decide (i = id)) as [->|].
    + rewrite lookup_insert_eq in Hi. injection Hi as <-. exact (Hto id o0 Ho0).
    + rewrite lookup_insert_ne in Hi by done. exact (proj2 Htd i o Hi).
Qed.

(** ** The whole snapshot *)

(** A list of the chain's shares, parents of connected shares first. *)
Definition replayable (c : ShareChain) (seen : list ShareId) (l : list (ShareId * Share)) : Prop :=
  ∀ pre id s post, l = pre ++ (id, s) :: post →
    id ∉ seen ∧ id ∉ pre.*1 ∧
    ((∃ e, connected c !! id = Some e ∧ cs_share e = s ∧
       (is_root s = false → parent_id s ∈ seen ∨ parent_id s ∈ pre.*1)) ∨
     (∃ o, orphans c !! id = Some o ∧ os_share o = s)).

Lemma replayable_cons c seen id s l :
  replayable c seen ((id, s) :: l) → replayable c (id :: seen) l.
Proof.
  intros Hr pre i t post ->. destruct (Hr ((id, s) :: pre) i t post eq_refl) as (H1 & H2 & H3).
  csimpl in *. apply not_elem_of_cons in H2 as [H2 H2']. split; [by apply not_elem_of_cons|].
  split; [done|]. destruct H3 as [(e & He & Hs & Hp)|?]; [left|by right].
  exists e. split; [done|]. split; [done|]. intros Hroot. rewrite elem_of_cons.
  destruct (Hp Hroot) as [?|[?|?]%elem_of_cons]; auto.
Qed.

Lemma replay_mirrors c l : ∀ d seen n,
  chain_inv c → times_ok c → mirrors c d seen → times_ok d → replayable c seen l →
  ∃ d', replay l.*2 n d = (Ok (n + length l)%nat, d') ∧ mirrors c d' (reverse l.*1 ++ seen) ∧
    times_ok d'.
Proof.
  induction l as [|[id s] l IH]; intros d seen n Hinv Ht Hm Htd Hr.
  { exists d. simpl. rewrite Nat.add_0_r. done. }
  assert (∃ r d1, add_share_unchecked s d = (Ok r, d1) ∧
    (disposition r = Connected ∨ disposition r = Orphan) ∧ mirrors c d1 (id :: seen) ∧ times_ok d1)
    as (r & d1 & Hadd & Hdisp & Hm1 & Ht1).
  { destruct (Hr [] id s l eq_refl) as (Hni & _ & [(e & He & <- & Hp)|(o & Ho & <-)]).
    - destruct (replay_connected c d seen id e Hinv Ht Hm Htd He Hni) as (r & d1 & ? & ? & ? & ?);
        [|by exists r, d1; auto].
      intros Hroot. destruct (Hp Hroot) as [?|[]%elem_of_nil]; done.
    - destruct (replay_orphan c d seen id o Hinv Ht Hm Htd Ho Hni) as (r & d1 & ? & ? & ? & ?).
      exists r, d1. auto. }
  destruct (IH d1 (id :: seen) (S n) Hinv Ht Hm1 Ht1 (replayable_cons _ _ _ _ _ Hr))
    as (d2 & Hrep & Hm2 & Ht2).
  exists d2. split; [|split; [|done]].
  - rewrite fmap_cons. cbn [snd replay]. unfold exec_bind. rewrite Hadd.
    replace (n + length ((id, s) :: l))%nat with (S n + length l)%nat by (simpl; lia).
    destruct Hdisp as [-> | ->]; exact Hrep.
  - rewrite fmap_cons, reverse_cons, <-app_assoc. exact Hm2.
Qed.

(** The shares of a snapshot with their ids, in the order they are written. *)
Definition snapshot_rows (c : ShareChain) : list (ShareId * Share) :=
  merge_sort snapshot_le
    ((prod_map id cs_share <$> map_sorted (connected c)) ++
     (prod_map id os_share <$> map_sorted (orphans c))).

Lemma elem_of_snapshot_rows c i s :
  (i, s) ∈ snapshot_rows c ↔
  (∃ e, connected c !! i = Some e ∧ cs_share e = s) ∨
  (∃ o, orphans c !! i = Some o ∧ os_share o = s).
Proof.
  unfold snapshot_rows. rewrite merge_sort_Permutation, elem_of_app, !list_elem_of_fmap. split.
  - intros [([j x] & [= -> ->] & Hx)|([j x] & [= -> ->] & Hx)];
      apply elem_of_map_sorted in Hx; eauto.
  - intros [(x & Hx & <-)|(x & Hx & <-)]; [left|right]; exists (i, x);
      by rewrite elem_of_map_sorted.
Qed.

Lemma snapshot_rows_nodup c : chain_inv c → NoDup (snapshot_rows c).*1.
Proof.
  intros Hinv. unfold snapshot_rows. rewrite merge_sort_Permutation, fmap_app, <-!list_fmap_compose.
  apply NoDup_app. split; [apply (NoDup_fst_map_sorted (connected c))|].
  split; [|apply (NoDup_fst_map_sorted (orphans c))].
  intros i ([j e] & -> & He)%list_elem_of_fmap ([k o] & Ek & Ho)%list_elem_of_fmap.
  simpl in Ek. subst k. apply elem_of_map_sorted in He, Ho.
  pose proof (oo_connected _ _ _ (pi_orphan _ _ _ Hinv j o Ho)). congruence.
Qed.

Lemma snapshot_rows_id c i s :
  chain_inv c → (i, s) ∈ snapshot_rows c → share_wf s ∧ share_id s = Ok i.
Proof.
  intros Hinv [(e & He & <-)|(o & Ho & <-)]%elem_of_snapshot_rows.
  - pose proof (pi_entry _ _ _ Hinv i e He) as Hok. split; apply Hok.
  - pose proof (pi_orphan _ _ _ Hinv i o Ho) as Hok. split; apply Hok.
Qed.

Lemma share_id_storable s i : share_wf s → share_id s = Ok i → storable s ∧ store_id s = i.
Proof.
  intros Hwf Hid. pose proof (share_id_canonical s) as Hc. rewrite Hid in Hc.
  unfold storable, store_id. destruct (share_canonical s); [|by destruct Hc].
  injection Hc as <-. done.
Qed.

Lemma snapshot_rows_replayable c : chain_inv c → replayable c [] (snapshot_rows c).
Proof.
  intros Hinv pre i s post E. split; [apply not_elem_of_nil|].
  pose proof (snapshot_rows_nodup c Hinv) as Hnd. rewrite E, fmap_app, fmap_cons in Hnd.
  split; [intros Hi; apply NoDup_app in Hnd as (_ & Hd & _); apply (Hd i Hi); left|].
  assert ((i, s) ∈ snapshot_rows c) as Hin by (rewrite E; apply elem_of_app; right; left).
  apply elem_of_snapshot_rows in Hin as [(e & He & <-)|Ho]; [left|by right].
  exists e. split; [done|]. split; [done|]. intros Hr. right.
  destruct (parent_height c i e Hinv He Hr) as (p & Hp & Hh).
  apply list_elem_of_fmap. exists (parent_id (cs_share e), cs_share p). split; [done|].
  assert (StronglySorted snapshot_le (snapshot_rows c)) as Hs by apply (StronglySorted_merge_sort _).
  eapply (sorted_before snapshot_le pre post (i, cs_share e)).
  - by rewrite <-E.
  - rewrite <-E. apply elem_of_snapshot_rows. left. eauto.
  - intros [= _ Ep]. unfold tip_height in Hh. rewrite Ep in Hh. lia.
  - unfold snapshot_le. rewrite height_id_lt_spec. unfold height_id_le, tip_height in *. simpl. lia.
Qed.

Lemma snapshot_store_ids c : chain_inv c → store_id <$> persistence_snapshot c = (snapshot_rows c).*1.
Proof.
  intros Hinv. change (persistence_snapshot c) with (snapshot_rows c).*2.
  rewrite <-list_fmap_compose. apply list_fmap_ext. intros k [i s] Hk.
  apply list_elem_of_lookup_2, (snapshot_rows_id c i s Hinv) in Hk as [Hwf Hid].
  by apply share_id_storable.
Qed.

Lemma snapshot_storable c : chain_inv c → Forall storable (persistence_snapshot c).
Proof.
  intros Hinv. apply Forall_forall. intros s ([i s'] & -> & Hin)%list_elem_of_fmap.
  apply (snapshot_rows_id c i s' Hinv) in Hin as [Hwf Hid]. by eapply share_id_storable.
Qed.

Lemma length_snapshot c :
  length (snapshot_rows c) = (size (connected c) + size (orphans c))%nat.
Proof.
  unfold snapshot_rows.
  by rewrite merge_sort_Permutation, length_app, !length_fmap, !length_map_sorted.
Qed.

Lemma mirrors_empty c d :
  good d → connected d = ∅ → orphans d = ∅ → difficulty_policy d = difficulty_policy c →
  mirrors c d [].
Proof.
  intros [Hinv _] Hc Ho Hp. split; [done|done| |]; intros i x; rewrite ?Hc, ?Ho, lookup_empty;
    (split; [done|intros [[]%elem_of_nil _]]).
Qed.

(** A mirror of every share has the same shares and the same work. *)
Lemma mirrors_all c d seen :
  chain_inv c → mirrors c d seen → (∀ i, i ∈ (snapshot_rows c).*1 → i ∈ seen) →
  (λ e, (cs_share e, cumulative_work e)) <$> connected d =
    (λ e, (cs_share e, cumulative_work e)) <$> connected c ∧
  os_share <$> orphans d = os_share <$> orphans c.
Proof.
  intros Hinv Hm Hall.
  assert (∀ i s, (i, s) ∈ snapshot_rows c → i ∈ seen) as Hseen
    by (intros i s Hi; apply Hall, list_elem_of_fmap; by exists (i, s)).
  split; apply map_eq; intros i; rewrite !lookup_fmap.
  - destruct (connected c !! i) as [e|] eqn:He.
    + rewrite (proj2 (mi_connected _ _ _ Hm i
        (mkConnected (cs_share e) (cs_id e) (cumulative_work e) None false))); [done|].
      split; [|eauto]. apply (Hseen i (cs_share e)), elem_of_snapshot_rows. eauto.
    + destruct (connected d !! i) as [e|] eqn:Hd; [|done].
      apply (mi_connected _ _ _ Hm) in Hd as (_ & e0 & ? & _). congruence.
  - destruct (orphans c !! i) as [o|] eqn:Ho.
    + rewrite (proj2 (mi_orphans _ _ _ Hm i (mkOrphan (os_share o) (os_id o) None false))); [done|].
      split; [|eauto]. apply (Hseen i (os_share o)), elem_of_snapshot_rows. eauto.
    + destruct (orphans d !! i) as [o|] eqn:Hd; [|done].
      apply (mi_orphans _ _ _ Hm) in Hd as (_ & o0 & ? & _). congruence.
Qed.

(** Replaying the snapshot of [c] on an empty chain with the same rules. *)
Lemma replay_snapshot c d :
  good c → good d → connected d = ∅ → orphans d = ∅ →
  difficulty_policy d = difficulty_policy c →
  ∃ d', replay (persistence_snapshot c) 0 d =
      (Ok (size (connected c) + size (orphans c))%nat, d') ∧ chain_inv d' ∧
    (λ e, (cs_share e, cumulative_work e)) <$> connected d' =
      (λ e, (cs_share e, cumulative_work e)) <$> connected c ∧
    os_share <$> orphans d' = os_share <$> orphans c.
Proof.
  intros [Hinv Ht] Hd Hc Ho Hp.
  destruct (replay_mirrors c (snapshot_rows c) d [] 0 Hinv Ht (mirrors_empty c d Hd Hc Ho Hp)
    (proj2 Hd) (snapshot_rows_replayable c Hinv)) as (d' & Hr & Hm & _).
  exists d'. rewrite length_snapshot in Hr. split; [exact Hr|].
  split; [apply Hm|]. apply (mirrors_all c d' _ Hinv Hm). intros i Hi.
  rewrite app_nil_r. by apply elem_of_reverse.
Qed.

(** ** The store's contract *)

(** The store refines a list of shares.  On a file that represents the list
    [ss]: appending a share with a canonical encoding adds it at the end, and
    any other share throws with the file as it was; rewriting replaces the list;
    erasing returns how many shares had one of the ids and keeps the others in
    order. *)
Theorem store_refines_list : ∀ sid f ss s new ids,
  represents sid f ss → NoDup (store_id <$> ss) →
  share_wf s → Forall storable new → NoDup (store_id <$> new) →
  (if share_canonical s
   then (append sid s f).1 = Ok () ∧ represents sid (append sid s f).2 (ss ++ [s])
   else ∃ e, append sid s f = (Throw e, f)) ∧
  ((rewrite sid new f).1 = Ok () ∧ represents sid (rewrite sid new f).2 new) ∧
  ((erase_records sid ids f).1 =
     Ok (length (filter (λ s, store_id s ∈ (list_to_set ids : gset ShareId)) ss)) ∧
   represents sid (erase_records sid ids f).2
     (filter (λ s, store_id s ∉ (list_to_set ids : gset ShareId)) ss)).
Proof.
  intros sid f ss s new ids Hf Hnd Hwf Hnew Hnd'. split; [|split].
  - pose proof (append_ok sid f ss s Hf Hwf) as Ha. destruct (share_canonical s); [|done].
    by destruct Ha as [-> ?].
  - by rewrite (rewrite_ok sid f ss new Hf Hnew Hnd').
  - by destruct (erase_ok sid f ss ids Hf Hnd) as (f' & -> & ?).
Qed.

(** C29: a torn append is harmless.  When a crash leaves only the first [k] bytes
    of the record appended last, loading with repair replays exactly the shares
    that were complete, reports a repair when there was something to repair, and
    truncates the file to these shares; without repair it refuses the file and
    leaves it alone. *)
Theorem torn_append_recovers : ∀ sid ss s k c n c',
  Forall storable ss → storable s → (k < length (record_of s))%nat →
  replay ss 0 c = (Ok n, c') →
  load_into sid true (Some (contents_of sid ss ++ take k (record_of s)), c) =
    (Ok (load_result c' n (negb (k =? 0)%nat)), (Some (contents_of sid ss), c')) ∧
  load_into sid false (Some (contents_of sid ss ++ take k (record_of s)), c) =
    if (k =? 0)%nat then (Ok (load_result c' n false), (Some (contents_of sid ss), c'))
    else (throw RuntimeError "share store final record is truncated",
          (Some (contents_of sid ss ++ take k (record_of s)), c')).
Proof.
  intros sid ss s k c n c' Hss Hs Hk Hr.
  assert (take k (record_of s) = [] ∨ read_record (take k (record_of s)) = RecordShort) as Ht.
  { destruct k; [by left|right]. apply read_record_torn. lia. }
  rewrite !load_into_replay, Hr by done. destruct (Nat.eqb_spec k 0) as [->|Hne].
  - rewrite take_0, app_nil_r. done.
  - rewrite bool_decide_false; [done|]. intros E%(f_equal length).
    rewrite length_take, length_nil in E. lia.
Qed.

(** C13: a restart brings the share chain back.  Writing the persistence snapshot
    of a chain to the store and loading it into a new chain with the same rules
    loads every connected share and every orphan, none refused; the new chain
    has the same connected shares with the same cumulative work, the same
    orphans and the same best tip. *)
Theorem restart_recovers_chain : ∀ (pow : ProgPow) sid params f ss c d,
  reachable c → params_wf params → new_chain params = Ok d →
  difficulty_policy d = difficulty_policy c → represents sid f ss →
  ∃ f' d', rewrite sid (persistence_snapshot c) f = (Ok (), f') ∧
    load_into sid true (f', d) =
      (Ok (mkLoad (size (connected c) + size (orphans c)) (size (connected c))
             (size (orphans c)) false (best_tip_id c)), (f', d')) ∧
    (λ e, (cs_share e, cumulative_work e)) <$> connected d' =
      (λ e, (cs_share e, cumulative_work e)) <$> connected c ∧
    os_share <$> orphans d' = os_share <$> orphans c ∧
    best_tip_id d' = best_tip_id c.
Proof.
  intros pow sid params f ss c d Hc Hwf Hd Hpol Hf. apply reachable_good in Hc as [Hinv Ht].
  pose proof (new_chain_good _ _ Hwf Hd) as Hgd.
  assert (connected d = ∅ ∧ orphans d = ∅) as [Ec Eo] by (unfold new_chain in Hd; by res_inv).
  destruct (replay_snapshot c d (conj Hinv Ht) Hgd Ec Eo Hpol) as (d' & Hr & Hinv' & Hcon & Horph).
  pose proof (snapshot_storable c Hinv) as Hst.
  exists (Some (contents_of sid (persistence_snapshot c))), d'.
  split; [apply (rewrite_ok sid f ss); [done|done|]|].
  { rewrite snapshot_store_ids by done. by apply snapshot_rows_nodup. }
  assert (best_tip_id d' = best_tip_id c) as Hbest.
  { apply best_tip_same; [done|done|]. apply (f_equal (fmap (M:=gmap ShareId) fst)) in Hcon.
    by rewrite <-!map_fmap_compose in Hcon. }
  split; [|done].
  pose proof (load_into_replay sid _ [] d true Hst (or_introl eq_refl)) as Hl.
  rewrite app_nil_r, Hr, bool_decide_true in Hl by done. rewrite Hl. do 2 f_equal.
  unfold load_result, connected_size, orphan_size. f_equal.
  - apply (f_equal size) in Hcon. by rewrite !map_size_fmap in Hcon.
  - apply (f_equal size) in Horph. by rewrite !map_size_fmap in Horph.
  - rewrite <-Hbest. unfold best_tip, find. pose proof (pi_best _ _ _ Hinv') as Hb.
    unfold best_ok in Hb. destruct (best_tip_id d') as [b|]; [|done].
    destruct Hb as (e & He & _). simpl. rewrite He. simpl. f_equal.
    apply (eo_id _ _ _ (pi_entry _ _ _ Hinv' b e He)).
Qed.

(** ** Instances on the concrete pool *)

Lemma demo_root_storable : storable demo_root ∧ store_id demo_root = demo_root_id.
Proof. apply share_id_storable; [apply demo_root_wf|apply demo_root_sid]. Qed.
Lemma demo_child_storable : storable demo_child ∧ store_id demo_child = demo_child_id.
Proof. apply share_id_storable; [apply demo_child_wf|apply demo_child_sid]. Qed.

Definition demo_sid : SidechainId := fill_be 32 5.

Lemma demo_file_represents :
  represents demo_sid (Some (contents_of demo_sid [demo_root])) [demo_root].
Proof. split; [constructor; [apply demo_root_storable|constructor]|done]. Qed.

Lemma demo_root_replay : (replay [demo_root] 0 demo_chain).1 = Ok 1%nat.
Proof.
  unfold replay, add_share_unchecked, add_prevalidated_share. demo_ids. vm_compute. reflexivity.
Qed.

Lemma demo_c2_policy : difficulty_policy demo_chain = difficulty_policy demo_c2.
Proof. demo_unfold. vm_compute. reflexivity. Qed.

Lemma store_refines_list_witness :
  represents demo_sid
    (append demo_sid demo_child (Some (contents_of demo_sid [demo_root]))).2
    [demo_root; demo_child].
Proof.
  destruct (store_refines_list demo_sid (Some (contents_of demo_sid [demo_root])) [demo_root]
    demo_child [demo_root] [demo_root_id] demo_file_represents (NoDup_singleton _)
    (proj1 demo_child_wf) (proj1 demo_file_represents) (NoDup_singleton _)) as [Ha _].
  rewrite (proj2 (proj1 demo_child_storable)) in Ha. apply Ha.
Defined.

Lemma torn_append_witness :
  (load_into demo_sid true
     (Some (contents_of demo_sid [demo_root] ++ take 100 (record_of demo_child)), demo_chain)).2.1
  = Some (contents_of demo_sid [demo_root]).
Proof.
  destruct (torn_append_recovers demo_sid [demo_root] demo_child 100 demo_chain 1
    (replay [demo_root] 0 demo_chain).2) as [H _].
  - apply demo_file_represents.
  - apply demo_child_storable.
  - rewrite record_length, length_share_layout. unfold share_size. simpl. unfold kShareV2SerializedSize. lia.
  - apply fst_eq, demo_root_replay.
  - rewrite H. reflexivity.
Defined.

Lemma restart_recovers_witness :
  ∃ f' d', rewrite demo_sid (persistence_snapshot demo_c2) None = (Ok (), f') ∧
    (load_into demo_sid true (f', demo_chain)).2 = (f', d') ∧
    best_tip_id d' = best_tip_id demo_c2.
Proof.
  destruct (restart_recovers_chain demo_pow demo_sid demo_params None [] demo_c2 demo_chain
    demo_c2_reachable demo_params_wf demo_chain_new demo_c2_policy
    (conj (Forall_nil_2 _) eq_refl)) as (f' & d' & Hw & Hl & _ & _ & Hb).
  exists f', d'. split; [exact Hw|]. split; [rewrite Hl; reflexivity|exact Hb].
Defined.
