(* ===== verification/ReplayStore.v ===== *)
(** The durable cache of validation verdicts:
    [include/zano_p2pool/replay_validation_store.hpp],
    [src/replay_validation_store.cpp].  As in [ShareStore] the file is its
    contents and the operating system's calls succeed; the temporary file is
    renamed over the old one, so a throw leaves the old contents. *)
From S2P Require Import Prelude CryptoHash PowTarget Share SidechainParams Difficulty ShareChain.
From S2P Require Import ChainWork ChainInv ChainPromote ChainAdmit ChainReplay ChainPrune.
From S2P Require Import ChainHistory Demo P2pProtocol ShareStore.
Local Open Scope pool_scope.

Record ReplayValidationCheckpoint := mkCheckpoint { cp_zano_height : Z; cp_block_hash : Hash256 }.

Record ReplayValidationSnapshot := mkSnapshot {
  sn_checkpoint : ReplayValidationCheckpoint;
  sn_records : list ReplayValidationRecord }.

Definition kMagic : list byte :=
  [Byte.x5a; Byte.x50; Byte.x32; Byte.x56; Byte.x41; Byte.x4c; Byte.x30; Byte.x31].
Definition kPrefixSize : nat := 8 + 32 + 8 + 32 + 8.
Definition kRecordSize : nat := 32 + 32 + 32 + 3.
Definition kDigestSize : nat := 32.
Definition kMaxRecords : Z := 1000000.

(** [read_u64_be] and [read_array] advance the offset they are given. *)
Definition rv_read_u64_be (bytes : list byte) (offset : nat) : res (Z * nat) :=
  (value ← read_be 8 "truncated replay-validation u64" bytes offset;
  mret (value, offset + 8)%nat)%stdpp.
Definition rv_read_array (n : nat) (bs : list byte) (offset : nat) (context : string)
    : res (bytes n * nat) :=
  (_ ← throw_if (length bs <? offset + n)%nat RuntimeError
        ("truncated replay-validation " +:+ context);
  mret (copy_n n bs offset, offset + n)%nat)%stdpp.

Definition validate_record (record : ReplayValidationRecord) : res () :=
  (_ ← throw_if (is_zero_share_id (rec_share_id record)) RuntimeError
        "replay-validation record has zero ShareId";
  let v := rec_validation record in
  _ ← throw_if (negb (meets_share_difficulty v)) RuntimeError
        "replay-validation record does not meet share difficulty";
  match classification v with
  | ClassShare =>
      throw_if (meets_network_difficulty v) RuntimeError
        "share-class replay-validation record unexpectedly meets network difficulty"
  | ClassBlock =>
      throw_if (negb (meets_network_difficulty v)) RuntimeError
        "block-class replay-validation record does not meet network difficulty"
  | ClassInvalid => throw RuntimeError "invalid candidate cannot be persisted as validated"
  end)%stdpp.

Definition classification_byte (c : CandidateClassification) : res Z :=
  match c with
  | ClassShare => Ok 1
  | ClassBlock => Ok 2
  | ClassInvalid => throw RuntimeError "invalid replay-validation classification"
  end.

Definition classification_from_byte (value : Z) : res CandidateClassification :=
  if value =? 1 then Ok ClassShare
  else if value =? 2 then Ok ClassBlock
  else throw RuntimeError "invalid replay-validation classification byte".

Definition bool_from_byte (value : Z) (context : string) : res bool :=
  (_ ← throw_if (1 <? value) RuntimeError ("invalid replay-validation boolean: " +:+ context);
  mret (negb (value =? 0)))%stdpp.

Definition share_id_le (a b : ReplayValidationRecord) : Prop :=
  arr_le (rec_share_id a) (rec_share_id b).
#[export] Instance share_id_le_dec a b : Decision (share_id_le a b).
Proof. unfold share_id_le. apply _. Defined.

(** The loop over the sorted records: [previous] is [records[i - 1]]. *)
Fixpoint validate_records (previous : option ShareId) (records : list ReplayValidationRecord)
    : res () :=
  match records with
  | [] => Ok ()
  | record :: rest =>
      (_ ← validate_record record;
      _ ← throw_if (match previous with
                    | Some id => arr_eqb id (rec_share_id record)
                    | None => false
                    end) RuntimeError "replay-validation snapshot contains duplicate ShareId";
      validate_records (Some (rec_share_id record)) rest)%stdpp
  end.

Definition bool_byte (b : bool) : byte := byte_of_Z (if b then 1 else 0).

Definition append_record (out : list byte) (record : ReplayValidationRecord) : res (list byte) :=
  (let v := rec_validation record in
  let out := append_array out (rec_share_id record) in
  let out := append_array out (final_hash (pow v)) in
  let out := append_array out (mix_hash (pow v)) in
  let out := out ++ [bool_byte (meets_share_difficulty v)] in
  let out := out ++ [bool_byte (meets_network_difficulty v)] in
  class ← classification_byte (classification v);
  mret (out ++ [byte_of_Z class]))%stdpp.

Fixpoint append_records (out : list byte) (records : list ReplayValidationRecord)
    : res (list byte) :=
  match records with
  | [] => Ok out
  | record :: rest => (out ← append_record out record; append_records out rest)%stdpp
  end.

(** [(SIZE_MAX - kPrefixSize - kDigestSize) / kRecordSize]. *)
Definition max_record_count : Z :=
  (u64_max - Z.of_nat kPrefixSize - Z.of_nat kDigestSize) / Z.of_nat kRecordSize.

Definition serialize_snapshot (sid : SidechainId) (snapshot : ReplayValidationSnapshot)
    : res (list byte) :=
  (_ ← throw_if (arr_eqb (cp_block_hash (sn_checkpoint snapshot)) (arr_zero 32)) RuntimeError
        "replay-validation checkpoint hash must be nonzero";
  _ ← throw_if (kMaxRecords <? Z.of_nat (length (sn_records snapshot))) RuntimeError
        "replay-validation record count exceeds limit";
  let records := merge_sort share_id_le (sn_records snapshot) in
  _ ← validate_records None records;
  _ ← throw_if (max_record_count <? Z.of_nat (length records)) RuntimeError
        "replay-validation snapshot size overflow";
  let out := append_array kMagic sid in
  let out := append_u64_be out (cp_zano_height (sn_checkpoint snapshot)) in
  let out := append_array out (cp_block_hash (sn_checkpoint snapshot)) in
  let out := append_u64_be out (Z.of_nat (length records)) in
  out ← append_records out records;
  mret (append_array out (cn_fast_hash out)))%stdpp.

(** One record of the parsing loop. *)
Definition parse_record (bytes : list byte) (digest_offset offset : nat)
    : res (ReplayValidationRecord * nat) :=
  ('(id, offset) ← rv_read_array 32 bytes offset "ShareId";
  '(final, offset) ← rv_read_array 32 bytes offset "PoW final hash";
  '(mix, offset) ← rv_read_array 32 bytes offset "PoW mix hash";
  _ ← throw_if (digest_offset <? offset + 3)%nat RuntimeError
        "truncated replay-validation record flags";
  meets_share ← bool_from_byte (byte_to_Z (bytes !!! offset)) "meets-share-difficulty";
  meets_network ← bool_from_byte (byte_to_Z (bytes !!! (offset + 1)%nat))
                    "meets-network-difficulty";
  class ← classification_from_byte (byte_to_Z (bytes !!! (offset + 2)%nat));
  let record := mkRecord id (mkValidation (mkPow final mix) meets_share meets_network class) in
  _ ← validate_record record;
  mret (record, offset + 3)%nat)%stdpp.

Fixpoint parse_records (count : nat) (bytes : list byte) (digest_offset offset : nat)
    (previous : option ShareId) : res (list ReplayValidationRecord * nat) :=
  match count with
  | O => Ok ([], offset)
  | S count =>
      ('(record, offset) ← parse_record bytes digest_offset offset;
      _ ← throw_if (match previous with
                    | Some id => negb (arr_lt id (rec_share_id record))
                    | None => false
                    end) RuntimeError "replay-validation records are not strictly ordered";
      '(rest, offset) ← parse_records count bytes digest_offset offset
                          (Some (rec_share_id record));
      mret (record :: rest, offset))%stdpp
  end.

Definition parse_snapshot (expected : SidechainId) (bytes : list byte)
    : res ReplayValidationSnapshot :=
  (_ ← throw_if (length bytes <? kPrefixSize + kDigestSize)%nat RuntimeError
        "replay-validation store is truncated";
  let digest_offset := (length bytes - kDigestSize)%nat in
  let actual_digest := cn_fast_hash (take digest_offset bytes) in
  '(stored_digest, _) ← rv_read_array 32 bytes digest_offset "digest";
  _ ← throw_if (negb (arr_eqb actual_digest stored_digest)) RuntimeError
        "replay-validation store digest mismatch";
  '(magic, offset) ← rv_read_array 8 bytes 0 "magic";
  _ ← throw_if (negb (bool_decide (vec_to_list magic = kMagic))) RuntimeError
        "invalid replay-validation store magic";
  '(sid, offset) ← rv_read_array 32 bytes offset "sidechain id";
  _ ← throw_if (negb (arr_eqb sid expected)) RuntimeError
        "replay-validation sidechain id mismatch";
  '(height, offset) ← rv_read_u64_be bytes offset;
  '(hash, offset) ← rv_read_array 32 bytes offset "checkpoint hash";
  _ ← throw_if (arr_eqb hash (arr_zero 32)) RuntimeError
        "replay-validation checkpoint hash is zero";
  '(record_count, offset) ← rv_read_u64_be bytes offset;
  _ ← throw_if ((kMaxRecords <? record_count) || (u64_max <? record_count)) RuntimeError
        "replay-validation record count exceeds limit";
  _ ← throw_if (max_record_count <? record_count) RuntimeError
        "replay-validation record size overflow";
  _ ← throw_if (negb (Z.of_nat (length bytes) =?
          Z.of_nat kPrefixSize + record_count * Z.of_nat kRecordSize + Z.of_nat kDigestSize))
        RuntimeError "replay-validation store size mismatch";
  '(records, offset) ← parse_records (Z.to_nat record_count) bytes digest_offset offset None;
  _ ← throw_if (negb (offset =? digest_offset)%nat) RuntimeError
        "replay-validation parser did not consume the complete record region";
  mret (mkSnapshot (mkCheckpoint height hash) records))%stdpp.

Definition new_replay_validation_store (path_empty : bool) (expected : SidechainId)
    : res SidechainId :=
  (_ ← throw_if path_empty InvalidArgument "replay-validation store path must not be empty";
  _ ← throw_if (arr_eqb expected (arr_zero 32)) InvalidArgument
        "replay-validation sidechain id must be nonzero";
  mret expected)%stdpp.

Definition save (sid : SidechainId) (snapshot : ReplayValidationSnapshot) : exec File () :=
  bytes <- exec_const (λ _, serialize_snapshot sid snapshot) ;;
  exec_modify (λ _, Some bytes).

Definition load (sid : SidechainId) (file : File) : res (option ReplayValidationSnapshot) :=
  match file with
  | None => Ok None
  | Some bytes => (snapshot ← parse_snapshot sid bytes; mret (Some snapshot))%stdpp
  end.

(** ** The layout of a snapshot *)

Definition class_Z (c : CandidateClassification) : Z :=
  match c with ClassShare => 1 | ClassBlock => 2 | ClassInvalid => 0 end.

Definition record_layout (r : ReplayValidationRecord) : list byte :=
  vec_to_list (rec_share_id r) ++ vec_to_list (final_hash (pow (rec_validation r))) ++
  vec_to_list (mix_hash (pow (rec_validation r))) ++
  [bool_byte (meets_share_difficulty (rec_validation r));
   bool_byte (meets_network_difficulty (rec_validation r));
   byte_of_Z (class_Z (classification (rec_validation r)))].

Definition record_valid (r : ReplayValidationRecord) : Prop := validate_record r = Ok ().

Lemma record_valid_spec r :
  record_valid r ↔
  is_zero_share_id (rec_share_id r) = false ∧
  replay_validation_consistent (rec_validation r) = true.
Proof.
  destruct r as [id [p ms mn cl]]. unfold record_valid, validate_record, replay_validation_consistent.
  simpl. destruct (is_zero_share_id id), ms, mn, cl; simpl; split; try done; intros [? ?]; done.
Qed.

Lemma length_record_layout r : length (record_layout r) = kRecordSize.
Proof. unfold record_layout. by rewrite !length_app, !length_vec_to_list. Qed.

Lemma append_record_ok out r : record_valid r → append_record out r = Ok (out ++ record_layout r).
Proof.
  intros [_ Hc]%record_valid_spec. unfold append_record, append_array, record_layout.
  destruct r as [id [p ms mn cl]]. unfold replay_validation_consistent in Hc. simpl in *.
  destruct ms, mn, cl; try discriminate Hc; cbn [classification_byte class_Z mbind res_bind mret res_ret];
    by rewrite <-!app_assoc.
Qed.

Lemma append_records_ok l : ∀ out, Forall record_valid l →
  append_records out l = Ok (out ++ concat (record_layout <$> l)).
Proof.
  induction l as [|r l IH]; intros out Hl; [simpl; by rewrite app_nil_r|].
  apply Forall_cons in Hl as [Hr Hl]. cbn [append_records].
  rewrite append_record_ok by done. cbn [mbind res_bind]. rewrite IH by done.
  rewrite fmap_cons. cbn [concat]. by rewrite app_assoc.
Qed.

(** Ids strictly ascending, above [previous]. *)
Fixpoint ascending (previous : option ShareId) (l : list ReplayValidationRecord) : Prop :=
  match l with
  | [] => True
  | r :: l => (∀ id, previous = Some id → arr_Z id < arr_Z (rec_share_id r)) ∧
              ascending (Some (rec_share_id r)) l
  end.

#[export] Instance share_id_le_total : Total share_id_le.
Proof. intros a b. apply arr_le_total. Qed.
#[export] Instance share_id_le_trans : Transitive share_id_le.
Proof. intros a b c. apply arr_le_trans. Qed.

Lemma validate_sorted l : ∀ previous,
  StronglySorted share_id_le l →
  (∀ id r, previous = Some id → r ∈ l → arr_le id (rec_share_id r)) →
  validate_records previous l = Ok () ↔ Forall record_valid l ∧ ascending previous l.
Proof.
  induction l as [|r l IH]; intros previous Hs Hp; [split; done|].
  apply StronglySorted_inv in Hs as [Hs Hr]. rewrite Forall_forall in Hr.
  cbn [validate_records ascending]. rewrite Forall_cons.
  specialize (IH (Some (rec_share_id r)) Hs ltac:(intros id r' [= <-]; apply Hr)).
  rewrite res_bind_ok. setoid_rewrite res_bind_ok. unfold record_valid.
  assert (match previous with Some id => arr_eqb id (rec_share_id r) | None => false end = false ↔
    (∀ id, previous = Some id → arr_Z id < arr_Z (rec_share_id r))) as Hd.
  { destruct previous as [id|]; [|by split]. rewrite arr_eqb_false.
    pose proof (Hp id r eq_refl ltac:(left)) as Hle. apply arr_le_Z in Hle. split.
    - intros Hne i [= <-]. destruct (Z.eq_dec (arr_Z id) (arr_Z (rec_share_id r))) as [E|]; [|lia].
      by apply arr_Z_inj in E.
    - intros H ->. specialize (H _ eq_refl). lia. }
  setoid_rewrite throw_if_ok. split.
  - intros ([] & Hv & [] & Hf & Hrest). apply IH in Hrest as [? ?]. pose proof (proj1 Hd Hf). done.
  - intros [[Hv Hl] [Hf Ha]]. exists (). split; [done|]. exists (). split; [exact (proj2 Hd Hf)|].
    by apply IH.
Qed.

(** The length of an ascending list of ids is bounded only by the count field;
    what may be stored: *)
Record snapshot_valid (s : ReplayValidationSnapshot) : Prop := {
  so_height : is_u64 (cp_zano_height (sn_checkpoint s));
  so_hash : cp_block_hash (sn_checkpoint s) ≠ arr_zero 32;
  so_count : Z.of_nat (length (sn_records s)) ≤ kMaxRecords;
  so_valid : Forall record_valid (sn_records s);
  so_ascending : ascending None (sn_records s) }.

Definition prefix_layout (sid : SidechainId) (s : ReplayValidationSnapshot) : list byte :=
  kMagic ++ vec_to_list sid ++ be_bytes 8 (cp_zano_height (sn_checkpoint s)) ++
  vec_to_list (cp_block_hash (sn_checkpoint s)) ++ be_bytes 8 (Z.of_nat (length (sn_records s))).

Definition body_layout (sid : SidechainId) (s : ReplayValidationSnapshot) : list byte :=
  prefix_layout sid s ++ concat (record_layout <$> sn_records s).

Definition file_of (sid : SidechainId) (s : ReplayValidationSnapshot) : list byte :=
  body_layout sid s ++ vec_to_list (cn_fast_hash (body_layout sid s)).

Definition sorted_snapshot (s : ReplayValidationSnapshot) : ReplayValidationSnapshot :=
  mkSnapshot (sn_checkpoint s) (merge_sort share_id_le (sn_records s)).

Lemma max_record_count_ok n : n ≤ kMaxRecords → (max_record_count <? n) = false.
Proof.
  intros Hn. apply Z.ltb_ge. unfold kMaxRecords in Hn. apply Z.le_trans with 1000000; [done|].
  vm_compute. discriminate.
Qed.

Lemma serialize_snapshot_ok sid s b :
  is_u64 (cp_zano_height (sn_checkpoint s)) →
  serialize_snapshot sid s = Ok b ↔
  snapshot_valid (sorted_snapshot s) ∧ b = file_of sid (sorted_snapshot s).
Proof.
  intros Hh. unfold serialize_snapshot, file_of, body_layout, prefix_layout, append_array,
    append_u64_be, sorted_snapshot.
  cbn [sn_checkpoint sn_records].
  assert (length (merge_sort share_id_le (sn_records s)) = length (sn_records s)) as Hlen
    by (by rewrite merge_sort_Permutation).
  pose proof (validate_sorted (merge_sort share_id_le (sn_records s)) None
    (StronglySorted_merge_sort _ _) ltac:(done)) as Hvs.
  set (l := merge_sort share_id_le (sn_records s)) in *. rewrite Hlen. split.
  - intros Hb. apply res_bind_ok in Hb as (_ & Hhash%throw_if_ok & Hb).
    apply res_bind_ok in Hb as (_ & Hcount%throw_if_ok & Hb).
    apply res_bind_ok in Hb as ([] & Hval & Hb). apply Hvs in Hval as [Hv Ha].
    apply res_bind_ok in Hb as (_ & _ & Hb). bool_prop.
    rewrite append_records_ok in Hb by done. cbn [mbind res_bind] in Hb. injection Hb as <-.
    split; [|by rewrite <-!app_assoc]. split; cbn [sn_checkpoint sn_records]; try done. by rewrite Hlen.
  - intros [[_ Hhash Hcount Hv Ha] ->]. cbn [sn_checkpoint sn_records] in *.
    rewrite (proj2 (arr_eqb_false _ _) Hhash). cbn [throw_if mbind res_bind].
    rewrite Hlen in Hcount. rewrite (proj2 (Z.ltb_ge _ _) Hcount). cbn [throw_if mbind res_bind].
    rewrite (proj2 Hvs (conj Hv Ha)). cbn [mbind res_bind].
    rewrite max_record_count_ok by done. cbn [throw_if mbind res_bind].
    rewrite append_records_ok by done. cbn [mbind res_bind]. by rewrite <-!app_assoc.
Qed.

(** ** Parsing *)

Lemma rv_read_array_at n what (v : bytes n) pre post off :
  length pre = off →
  rv_read_array n (pre ++ vec_to_list v ++ post) off what = Ok (v, off + n)%nat.
Proof.
  intros Hp. unfold rv_read_array.
  rewrite (proj2 (Nat.ltb_ge _ _)) by (rewrite !length_app, length_vec_to_list; lia).
  cbn [throw_if mbind res_bind]. by rewrite copy_n_at.
Qed.

Lemma rv_read_array_inv n what l off v off' :
  rv_read_array n l off what = Ok (v, off') →
  off' = (off + n)%nat ∧ (off' ≤ length l)%nat ∧ drop off l = vec_to_list v ++ drop off' l.
Proof.
  unfold rv_read_array. intros H. apply res_bind_ok in H as (_ & Hl%throw_if_ok & H).
  apply Nat.ltb_ge in Hl. injection H as <- <-. split; [done|]. split; [done|].
  rewrite copy_n_list by done. by rewrite (drop_join off n).
Qed.

Lemma rv_read_u64_at z pre post off :
  length pre = off → is_u64 z →
  rv_read_u64_be (pre ++ be_bytes 8 z ++ post) off = Ok (z, off + 8)%nat.
Proof.
  intros Hp Hz. unfold rv_read_u64_be. rewrite read_be_at; [done|done|].
  unfold is_u64, u64_max in Hz. change (pow256 8) with 18446744073709551616. lia.
Qed.

Lemma rv_read_u64_inv l off z off' :
  rv_read_u64_be l off = Ok (z, off') →
  off' = (off + 8)%nat ∧ (off' ≤ length l)%nat ∧ is_u64 z ∧ drop off l = be_bytes 8 z ++ drop off' l.
Proof.
  unfold rv_read_u64_be. intros H. apply res_bind_ok in H as (v & Hv & H). injection H as <- <-.
  apply read_be_range in Hv as (Hr & Hb & Hl). split; [done|]. split; [done|].
  split; [change (pow256 8) with 18446744073709551616 in Hr; unfold is_u64, u64_max; lia|].
  rewrite Hb. by rewrite (drop_join off 8).
Qed.

Lemma bool_from_byte_of b what : bool_from_byte (byte_to_Z (bool_byte b)) what = Ok b.
Proof. by destruct b. Qed.

Lemma bool_from_byte_inv x what b : bool_from_byte (byte_to_Z x) what = Ok b → x = bool_byte b.
Proof.
  unfold bool_from_byte. intros H. apply res_bind_ok in H as (_ & Hl%throw_if_ok & H).
  bool_prop. injection H as <-. pose proof (byte_to_Z_range x). apply byte_to_Z_inj.
  destruct (Z.eqb_spec (byte_to_Z x) 0) as [E|E]; [by rewrite E|].
  replace (byte_to_Z x) with 1 by lia. done.
Qed.

Lemma classification_inv x c :
  classification_from_byte (byte_to_Z x) = Ok c → x = byte_of_Z (class_Z c).
Proof.
  unfold classification_from_byte. intros H. rewrite <-(byte_of_to_Z x). f_equal.
  destruct (Z.eqb_spec (byte_to_Z x) 1) as [E|]; [injection H as <-; done|].
  destruct (Z.eqb_spec (byte_to_Z x) 2) as [E|]; [injection H as <-; done|done].
Qed.

Lemma lookup_at3 (l pre post : list byte) a b c off :
  l = pre ++ a :: b :: c :: post → length pre = off →
  l !!! off = a ∧ l !!! (off + 1)%nat = b ∧ l !!! (off + 2)%nat = c.
Proof.
  intros -> <-. split; [by rewrite list_lookup_total_middle|].
  assert (pre ++ a :: b :: c :: post = (pre ++ [a]) ++ b :: c :: post) as E1
    by (by rewrite <-app_assoc).
  assert (pre ++ a :: b :: c :: post = (pre ++ [a; b]) ++ c :: post) as E2
    by (by rewrite <-app_assoc).
  split; [rewrite E1|rewrite E2]; rewrite list_lookup_total_middle; try done;
    rewrite length_app; simpl; lia.
Qed.

Lemma parse_record_at r pre post dof off :
  length pre = off → (off + kRecordSize ≤ dof)%nat → record_valid r →
  parse_record (pre ++ record_layout r ++ post) dof off = Ok (r, off + kRecordSize)%nat.
Proof.
  intros Hp Hdof Hv. destruct r as [id [[fh mh] ms mn cl]]. pose proof Hv as Hv'.
  apply record_valid_spec in Hv as [_ Hc]. unfold replay_validation_consistent in Hc. simpl in Hc.
  unfold record_layout. cbn [rec_share_id rec_validation pow final_hash mix_hash
    meets_share_difficulty meets_network_difficulty classification].
  rewrite <-!app_assoc. unfold parse_record.
  rewrite rv_read_array_at by done. cbn [mbind res_bind].
  rewrite (app_assoc pre). rewrite rv_read_array_at by (rewrite length_app, length_vec_to_list; lia).
  cbn [mbind res_bind]. rewrite (app_assoc (pre ++ _)).
  rewrite rv_read_array_at by (rewrite !length_app, !length_vec_to_list; lia).
  cbn [mbind res_bind]. rewrite (app_assoc ((pre ++ _) ++ _)).
  rewrite (proj2 (Nat.ltb_ge dof _)) by (unfold kRecordSize in Hdof; lia).
  cbn [throw_if mbind res_bind].
  destruct (lookup_at3 (((pre ++ vec_to_list id) ++ vec_to_list fh) ++ vec_to_list mh ++
      [bool_byte ms; bool_byte mn; byte_of_Z (class_Z cl)] ++ post)
    (((pre ++ vec_to_list id) ++ vec_to_list fh) ++ vec_to_list mh) post
    (bool_byte ms) (bool_byte mn) (byte_of_Z (class_Z cl)) (off + 32 + 32 + 32)%nat)
    as (E1 & E2 & E3); [by rewrite <-!app_assoc|rewrite !length_app, !length_vec_to_list; lia|].
  rewrite app_assoc in E1, E2, E3. rewrite E1, E2, E3.
  rewrite !bool_from_byte_of. cbn [mbind res_bind].
  assert (classification_from_byte (byte_to_Z (byte_of_Z (class_Z cl))) = Ok cl) as ->
    by (destruct cl, ms, mn; done).
  cbn [mbind res_bind]. rewrite Hv'. cbn [mbind res_bind]. unfold kRecordSize.
  do 2 f_equal. lia.
Qed.

Lemma parse_record_inv l dof off r off' :
  parse_record l dof off = Ok (r, off') → (dof ≤ length l)%nat →
  record_valid r ∧ off' = (off + kRecordSize)%nat ∧ (off' ≤ length l)%nat ∧
  drop off l = record_layout r ++ drop off' l.
Proof.
  intros H Hdl. unfold parse_record in H.
  apply res_bind_ok in H as ([id o1] & (-> & _ & E1)%rv_read_array_inv & H).
  apply res_bind_ok in H as ([fh o2] & (-> & _ & E2)%rv_read_array_inv & H).
  apply res_bind_ok in H as ([mh o3] & (-> & _ & E3)%rv_read_array_inv & H).
  apply res_bind_ok in H as (_ & Hd%throw_if_ok & H). apply Nat.ltb_ge in Hd.
  apply res_bind_ok in H as (ms & Hms%bool_from_byte_inv & H).
  apply res_bind_ok in H as (mn & Hmn%bool_from_byte_inv & H).
  apply res_bind_ok in H as (cl & Hcl%classification_inv & H).
  apply res_bind_ok in H as ([] & Hv & H). injection H as <- <-.
  split; [exact Hv|]. split; [unfold kRecordSize; lia|]. split; [lia|].
  unfold record_layout. cbn [rec_share_id rec_validation pow final_hash mix_hash
    meets_share_difficulty meets_network_difficulty classification].
  rewrite E1, E2, E3, <-!app_assoc. do 3 f_equal.
  rewrite (drop_lookup_total (off + 32 + 32 + 32)), Hms by lia.
  rewrite (drop_lookup_total (S _)), (drop_lookup_total (S (S _))) by lia.
  replace (S (off + 32 + 32 + 32)) with (off + 32 + 32 + 32 + 1)%nat by lia.
  replace (S (off + 32 + 32 + 32 + 1)) with (off + 32 + 32 + 32 + 2)%nat by lia.
  rewrite Hmn, Hcl. simpl. do 4 f_equal. lia.
Qed.

Lemma parse_records_at l : ∀ previous pre post dof off,
  length pre = off → (off + kRecordSize * length l ≤ dof)%nat →
  Forall record_valid l → ascending previous l →
  parse_records (length l) (pre ++ concat (record_layout <$> l) ++ post) dof off previous
  = Ok (l, off + kRecordSize * length l)%nat.
Proof.
  induction l as [|r l IH]; intros previous pre post dof off Hp Hd Hv Ha.
  { cbn [length parse_records]. do 2 f_equal. unfold kRecordSize. lia. }
  apply Forall_cons in Hv as [Hr Hv]. destruct Ha as [Hprev Ha]. cbn [length] in Hd.
  rewrite fmap_cons. cbn [length parse_records concat]. rewrite <-app_assoc.
  rewrite (parse_record_at r pre) by (done || lia). cbn [mbind res_bind].
  assert (match previous with Some id => negb (arr_lt id (rec_share_id r)) | None => false end
    = false) as ->.
  { destruct previous as [id|]; [|done]. rewrite arr_lt_Z.
    rewrite (proj2 (Z.ltb_lt _ _)); [done|]. by apply Hprev. }
  cbn [throw_if mbind res_bind]. rewrite (app_assoc pre).
  rewrite IH; [|rewrite length_app, length_record_layout; lia|lia|done|done].
  cbn [mbind res_bind]. do 2 f_equal. lia.
Qed.

Lemma parse_records_inv n : ∀ l dof off previous rs off',
  parse_records n l dof off previous = Ok (rs, off') → (dof ≤ length l)%nat →
  length rs = n ∧ Forall record_valid rs ∧ ascending previous rs ∧
  off' = (off + kRecordSize * n)%nat ∧ drop off l = concat (record_layout <$> rs) ++ drop off' l.
Proof.
  induction n as [|n IH]; intros l dof off previous rs off' H Hd; cbn [parse_records] in H.
  { injection H as <- <-. split; [done|]. split; [constructor|]. split; [done|].
    split; [unfold kRecordSize; lia|done]. }
  apply res_bind_ok in H as ([r o1] & Hr & H). apply parse_record_inv in Hr as (Hv & -> & _ & E); [|done].
  apply res_bind_ok in H as (_ & Hp%throw_if_ok & H).
  apply res_bind_ok in H as ([rest o2] & Hrest & H). injection H as <- <-.
  destruct (IH _ _ _ _ _ _ Hrest Hd) as (Hl & Hvs & Ha & -> & E').
  split; [simpl; by rewrite Hl|]. split; [by constructor|]. split; [|split; [lia|]].
  - split; [|done]. intros id ->. apply negb_false_iff in Hp. rewrite arr_lt_Z in Hp. by apply Z.ltb_lt.
  - rewrite E, E', fmap_cons. cbn [concat]. by rewrite <-app_assoc.
Qed.

(** ** The file format is exactly the canonical encoding *)

Lemma length_concat_records l :
  length (concat (record_layout <$> l)) = (kRecordSize * length l)%nat.
Proof.
  induction l as [|r l IH]; [done|]. rewrite fmap_cons. cbn [concat length].
  rewrite length_app, length_record_layout, IH. lia.
Qed.

Lemma length_prefix_layout sid s : length (prefix_layout sid s) = kPrefixSize.
Proof. unfold prefix_layout. by rewrite !length_app, !length_vec_to_list, !length_be_bytes. Qed.

Lemma length_body_layout sid s :
  length (body_layout sid s) = (kPrefixSize + kRecordSize * length (sn_records s))%nat.
Proof. unfold body_layout. by rewrite length_app, length_prefix_layout, length_concat_records. Qed.

Lemma parse_file_of sid s : snapshot_valid s → parse_snapshot sid (file_of sid s) = Ok s.
Proof.
  destruct s as [[h bh] rs]. intros [Hh Hbh Hc Hv Ha].
  cbn [sn_checkpoint sn_records cp_zano_height cp_block_hash] in *.
  set (s := mkSnapshot (mkCheckpoint h bh) rs).
  assert (length (file_of sid s) = length (body_layout sid s) + kDigestSize)%nat as Hlen
    by (unfold file_of; by rewrite length_app, length_vec_to_list).
  assert (length (file_of sid s) - kDigestSize = length (body_layout sid s))%nat as Hdig by lia.
  assert (is_u64 (Z.of_nat (length rs))) as Hcu
    by (unfold is_u64, u64_max; unfold kMaxRecords in Hc; lia).
  unfold parse_snapshot. rewrite (proj2 (Nat.ltb_ge _ _)) by (rewrite Hlen, length_body_layout; lia).
  cbn [throw_if mbind res_bind]. cbv zeta. rewrite Hdig.
  assert (take (length (body_layout sid s)) (file_of sid s) = body_layout sid s) as ->
    by (unfold file_of; by rewrite take_app_length).
  assert (rv_read_array 32 (file_of sid s) (length (body_layout sid s)) "digest" =
    Ok (cn_fast_hash (body_layout sid s), length (body_layout sid s) + 32)%nat) as ->.
  { unfold file_of. rewrite <-(app_nil_r (vec_to_list (cn_fast_hash _))).
    by rewrite rv_read_array_at. }
  cbn [mbind res_bind]. rewrite (proj2 (arr_eqb_true _ _) eq_refl). cbn [negb throw_if mbind res_bind].
  set (post := concat (record_layout <$> rs) ++ vec_to_list (cn_fast_hash (body_layout sid s))).
  assert (file_of sid s = kMagic ++ vec_to_list sid ++ be_bytes 8 h ++ vec_to_list bh ++
    be_bytes 8 (Z.of_nat (length rs)) ++ post) as E.
  { unfold file_of, post. generalize (cn_fast_hash (body_layout sid s)). intros d.
    unfold body_layout, prefix_layout. cbn [sn_checkpoint sn_records cp_zano_height cp_block_hash s].
    by rewrite <-!app_assoc. }
  assert (Z.of_nat (length (file_of sid s)) = Z.of_nat kPrefixSize +
    Z.of_nat (length rs) * Z.of_nat kRecordSize + Z.of_nat kDigestSize) as Hz.
  { rewrite Hlen, length_body_layout. cbn [sn_records s]. lia. }
  rewrite Hz, E.
  assert (kMagic = vec_to_list (Vector.of_list kMagic)) as Em by done.
  assert (∀ rest, rv_read_array 8 (kMagic ++ rest) 0 "magic" =
    Ok ((Vector.of_list kMagic : bytes 8), 8%nat)) as ->.
  { intros rest. exact (rv_read_array_at 8 "magic" (Vector.of_list kMagic : bytes 8) [] rest 0 eq_refl). }
  cbn [mbind res_bind]. rewrite bool_decide_eq_true_2 by done. cbn [negb throw_if mbind res_bind].
  rewrite rv_read_array_at by done. cbn [mbind res_bind].
  rewrite (proj2 (arr_eqb_true _ _) eq_refl). cbn [negb throw_if mbind res_bind].
  rewrite (app_assoc kMagic), rv_read_u64_at by (done || (by rewrite length_app, length_vec_to_list)).
  cbn [mbind res_bind]. rewrite (app_assoc (kMagic ++ _)), rv_read_array_at
    by (by rewrite !length_app, length_vec_to_list, length_be_bytes).
  cbn [mbind res_bind]. rewrite (proj2 (arr_eqb_false _ _) Hbh). cbn [throw_if mbind res_bind].
  rewrite (app_assoc ((kMagic ++ _) ++ _)), rv_read_u64_at
    by (done || (by rewrite !length_app, !length_vec_to_list, length_be_bytes)).
  cbn [mbind res_bind].
  rewrite (proj2 (Z.ltb_ge kMaxRecords _)), (proj2 (Z.ltb_ge u64_max _)) by (done || apply Hcu).
  cbn [orb throw_if mbind res_bind]. rewrite max_record_count_ok by done.
  cbn [throw_if mbind res_bind]. rewrite Z.eqb_refl. cbn [negb throw_if mbind res_bind].
  rewrite Nat2Z.id, (app_assoc (((kMagic ++ _) ++ _) ++ _)). unfold post.
  rewrite parse_records_at; [|by rewrite !length_app, !length_vec_to_list, !length_be_bytes| |done|done].
  2:{ rewrite length_body_layout. cbn [sn_records s]. unfold kPrefixSize. lia. }
  cbn [mbind res_bind]. rewrite length_body_layout. cbn [sn_records s].
  change (kPrefixSize) with (8 + 32 + 8 + 32 + 8)%nat. rewrite Nat.eqb_refl. done.
Qed.

Lemma parse_snapshot_inv sid b s :
  parse_snapshot sid b = Ok s → snapshot_valid s ∧ b = file_of sid s.
Proof.
  unfold parse_snapshot. intros Hb.
  apply res_bind_ok in Hb as (_ & Hlen%throw_if_ok & Hb). apply Nat.ltb_ge in Hlen. cbv zeta in Hb.
  set (dof := (length b - kDigestSize)%nat) in *.
  apply res_bind_ok in Hb as ([dg o] & (-> & _ & Ed)%rv_read_array_inv & Hb).
  apply res_bind_ok in Hb as (_ & Hdg%throw_if_ok & Hb). bool_prop.
  apply res_bind_ok in Hb as ([mg o] & (-> & _ & E1)%rv_read_array_inv & Hb).
  apply res_bind_ok in Hb as (_ & Hmg%throw_if_ok & Hb). apply negb_false_iff, bool_decide_eq_true in Hmg.
  apply res_bind_ok in Hb as ([sid' o] & (-> & _ & E2)%rv_read_array_inv & Hb).
  apply res_bind_ok in Hb as (_ & Hsid%throw_if_ok & Hb). bool_prop. subst sid'.
  apply res_bind_ok in Hb as ([h o] & (-> & _ & Hh & E3)%rv_read_u64_inv & Hb).
  apply res_bind_ok in Hb as ([bh o] & (-> & _ & E4)%rv_read_array_inv & Hb).
  apply res_bind_ok in Hb as (_ & Hbh%throw_if_ok & Hb). bool_prop.
  apply res_bind_ok in Hb as ([n o] & (-> & _ & Hn & E5)%rv_read_u64_inv & Hb).
  apply res_bind_ok in Hb as (_ & Hmax%throw_if_ok & Hb). bool_prop.
  apply res_bind_ok in Hb as (_ & _ & Hb).
  apply res_bind_ok in Hb as (_ & Hsz%throw_if_ok & Hb). bool_prop.
  apply res_bind_ok in Hb as ([rs o] & Hrs & Hb).
  apply parse_records_inv in Hrs as (Hc & Hv & Ha & -> & E6); [|lia].
  apply res_bind_ok in Hb as (_ & Hend%throw_if_ok & Hb). apply negb_false_iff, Nat.eqb_eq in Hend.
  injection Hb as <-. set (s := mkSnapshot _ _).
  assert (Z.of_nat (length rs) = n) as Hcz by (rewrite Hc; unfold is_u64 in Hn; lia).
  assert (snapshot_valid s) as Hok by (split; cbn [s sn_checkpoint sn_records]; try done; lia).
  split; [done|]. rewrite drop_0 in E1.
  assert (drop (dof + 32) b = []) as Enil by (apply drop_ge; unfold kDigestSize in *; lia).
  rewrite Enil, app_nil_r in Ed.
  assert (b = body_layout sid s ++ drop dof b) as Eb.
  { unfold body_layout, prefix_layout. cbn [s sn_checkpoint sn_records cp_zano_height cp_block_hash].
    rewrite Hcz, <-!app_assoc, <-Hend, <-E6, <-E5, <-E4, <-E3, <-E2, <-Hmg. exact E1. }
  rewrite Eb at 1. unfold file_of. rewrite Ed. f_equal. f_equal. f_equal.
  rewrite <-Hdg. f_equal. rewrite Eb.
  rewrite take_app_le by (apply (f_equal length) in Eb; rewrite length_app, length_drop in Eb; lia).
  rewrite take_ge; [done|]. apply (f_equal length) in Eb. rewrite length_app, length_drop in Eb. lia.
Qed.

(** ** The store's contract *)

Lemma sorted_ascending l : ∀ previous,
  StronglySorted share_id_le l → NoDup (rec_share_id <$> l) →
  (∀ id r, previous = Some id → r ∈ l → arr_Z id < arr_Z (rec_share_id r)) →
  ascending previous l.
Proof.
  induction l as [|r l IH]; intros previous Hs Hnd Hp; [done|].
  apply StronglySorted_inv in Hs as [Hs Hr]. rewrite Forall_forall in Hr.
  rewrite fmap_cons in Hnd. apply NoDup_cons in Hnd as [Hni Hnd].
  split; [intros id Hid; apply (Hp id r Hid); left|]. apply IH; [done|done|].
  intros id t [= <-] Ht. pose proof (Hr t Ht) as Hle. apply arr_le_Z in Hle.
  destruct (Z.eq_dec (arr_Z (rec_share_id r)) (arr_Z (rec_share_id t))) as [E%arr_Z_inj|]; [|lia].
  destruct Hni. rewrite E. by apply list_elem_of_fmap_2.
Qed.

Lemma ascending_sorted l : ∀ previous, ascending previous l →
  StronglySorted share_id_le l ∧
  (∀ id r, previous = Some id → r ∈ l → arr_Z id < arr_Z (rec_share_id r)).
Proof.
  induction l as [|r l IH]; intros previous Ha;
    [split; [constructor|by intros id r _ ?%elem_of_nil]|].
  destruct Ha as [Hp Ha]. destruct (IH _ Ha) as [Hs Hlt]. split.
  - constructor; [done|]. apply Forall_forall. intros t Ht. apply arr_le_Z.
    specialize (Hlt _ t eq_refl Ht). lia.
  - intros id t Hid [->|Ht]%elem_of_cons; [by apply Hp|]. specialize (Hp id Hid).
    specialize (Hlt _ t eq_refl Ht). lia.
Qed.

Lemma ascending_inj l : ∀ previous x y, ascending previous l →
  x ∈ l → y ∈ l → rec_share_id x = rec_share_id y → x = y.
Proof.
  induction l as [|r l IH]; intros previous x y Ha Hx Hy E; [by apply elem_of_nil in Hx|].
  destruct Ha as [_ Ha].
  destruct (ascending_sorted _ _ Ha) as [_ Hlt].
  apply elem_of_cons in Hx as [->|Hx], Hy as [->|Hy]; [done| | |by eapply IH].
  - specialize (Hlt _ y eq_refl Hy). rewrite E in Hlt. lia.
  - specialize (Hlt _ x eq_refl Hx). rewrite E in Hlt. lia.
Qed.

Lemma ascending_nodup l : ∀ previous, ascending previous l → NoDup (rec_share_id <$> l).
Proof.
  induction l as [|r l IH]; intros previous Ha; [constructor|]. destruct Ha as [_ Ha].
  rewrite fmap_cons. constructor; [|by eapply IH]. intros (t & E & Ht)%list_elem_of_fmap.
  destruct (ascending_sorted _ _ Ha) as [_ Hlt]. specialize (Hlt _ t eq_refl Ht).
  rewrite E in Hlt. lia.
Qed.

Lemma merge_sort_ascending l : ascending None l → merge_sort share_id_le l = l.
Proof.
  intros Ha. apply (StronglySorted_unique_strong share_id_le).
  - intros x y Hx Hy H1 H2. rewrite merge_sort_Permutation in Hx.
    apply (ascending_inj l None x y Ha Hx Hy). apply arr_le_Z in H1, H2. apply arr_Z_inj. lia.
  - apply (StronglySorted_merge_sort _).
  - by apply (ascending_sorted l None).
  - apply merge_sort_Permutation.
Qed.

Lemma sorted_snapshot_valid s : snapshot_valid s → sorted_snapshot s = s.
Proof.
  intros [_ _ _ _ Ha]. unfold sorted_snapshot. rewrite merge_sort_ascending by done. by destruct s.
Qed.

Lemma save_cases sid s f :
  is_u64 (cp_zano_height (sn_checkpoint s)) →
  (snapshot_valid (sorted_snapshot s) ∧
   save sid s f = (Ok (), Some (file_of sid (sorted_snapshot s)))) ∨
  (¬ snapshot_valid (sorted_snapshot s) ∧ ∃ x, save sid s f = (Throw x, f)).
Proof.
  intros Hh. unfold save, exec_bind, exec_const, exec_modify.
  destruct (serialize_snapshot sid s) as [b|x] eqn:E.
  - apply serialize_snapshot_ok in E as [? ->]; [|done]. by left.
  - right. split; [|by exists x]. intros Hok.
    pose proof (proj2 (serialize_snapshot_ok sid s _ Hh) (conj Hok eq_refl)). congruence.
Qed.

(** The records of a chain can always be saved. *)
Lemma chain_snapshot_valid c records h hash :
  chain_inv c → (∀ id, is_Some (connected c !! id) → is_zero_share_id id = false) →
  records ≡ₚ omap entry_record (snapshot_entries c) → is_u64 h → hash ≠ arr_zero 32 →
  Z.of_nat (length records) ≤ kMaxRecords →
  snapshot_valid (sorted_snapshot (mkSnapshot (mkCheckpoint h hash) records)).
Proof.
  intros Hinv Hnz Hrec Hh Hbh Hlen. split; cbn [sorted_snapshot sn_checkpoint sn_records].
  - done.
  - done.
  - by rewrite merge_sort_Permutation.
  - apply Forall_forall. intros [id v]. rewrite merge_sort_Permutation, Hrec.
    intros (e & Hv & Hp)%elem_of_snapshot; [|done]. apply record_valid_spec.
    destruct (validated_facts _ _ _ Hinv Hv) as (v' & Hv' & Hc & _).
    rewrite Hp in Hv'. injection Hv' as <-. split; [|done]. apply Hnz. exists e. apply Hv.
  - apply sorted_ascending; [apply (StronglySorted_merge_sort _)| |done].
    rewrite merge_sort_Permutation, Hrec, entry_record_ids; [by apply snapshot_entries_nodup|].
    intros e. by apply snapshot_validated.
Qed.

(** The verdict cache round trip.  Saving either writes a file that loads
    back as the same checkpoint and the same records in the order of their ids,
    or throws, when the checkpoint hash is zero, a record is inconsistent or an
    id occurs twice, and leaves the old file in place; and a file that loads is,
    byte for byte, the one that saving the loaded snapshot writes. *)
Theorem replay_store_roundtrip : ∀ sid s f,
  is_u64 (cp_zano_height (sn_checkpoint s)) →
  match save sid s f with
  | (Ok _, f') =>
      load sid f' = Ok (Some (sorted_snapshot s)) ∧
      sn_records (sorted_snapshot s) ≡ₚ sn_records s ∧
      cp_block_hash (sn_checkpoint s) ≠ arr_zero 32 ∧
      Forall record_valid (sn_records s) ∧ NoDup (rec_share_id <$> sn_records s)
  | (Throw _, f') => f' = f
  end ∧
  ∀ b, load sid (Some b) = Ok (Some s) → save sid s f = (Ok (), Some b).
Proof.
  intros sid s f Hh. split.
  - assert (sn_records (sorted_snapshot s) ≡ₚ sn_records s) as Hperm by apply merge_sort_Permutation.
    destruct (save_cases sid s f Hh) as [[Hok ->]|[_ [x ->]]]; [|done]. simpl.
    rewrite parse_file_of by done. destruct Hok as [_ Hbh _ Hv Ha]. split; [done|].
    split; [done|]. split; [done|]. rewrite <-Hperm. split; [done|]. by eapply ascending_nodup.
  - intros b Hb. simpl in Hb. apply res_bind_ok in Hb as (s' & Hp & [= ->]).
    apply parse_snapshot_inv in Hp as [Hok ->].
    destruct (save_cases sid s f Hh) as [[_ ->]|[Hno _]]; rewrite sorted_snapshot_valid in * by done;
      done.
Qed.

Section Restart.
Context `{!ProgPow}.

(** Validation survives a restart.  Let [c0] be the chain read back from the
    share store, [c] the chain before the restart, whose validated shares were
    saved with a checkpoint.  Saving succeeds, loading gives the checkpoint back,
    and restoring the loaded records turns [c0] into exactly [c]. *)
Theorem validation_cache_restart : ∀ c0 c sid checkpoint records f,
  reachable c0 → reachable c → marks c0 c →
  (∀ id, is_Some (connected c !! id) → is_zero_share_id id = false) →
  replay_validation_snapshot c = Ok records → Z.of_nat (length records) ≤ kMaxRecords →
  is_u64 (cp_zano_height checkpoint) → cp_block_hash checkpoint ≠ arr_zero 32 →
  ∃ f' loaded restored,
    save sid (mkSnapshot checkpoint records) f = (Ok (), f') ∧
    load sid f' = Ok (Some loaded) ∧ sn_checkpoint loaded = checkpoint ∧
    restore_replay_validation (sn_records loaded) c0 = (Ok restored, c).
Proof.
  intros c0 c sid [h bh] records f H0 Hc Hm Hnz Hs Hlen Hh Hbh.
  apply reachable_good in H0 as [H0 _], Hc as [Hinv _].
  assert (enforces_sidechain_difficulty c = true) as Henf.
  { unfold replay_validation_snapshot in Hs. res_inv. by bool_prop. }
  rewrite ChainReplay.snapshot_ok in Hs by done. injection Hs as <-.
  pose proof (chain_snapshot_valid c _ h bh Hinv Hnz (reflexivity _) Hh Hbh Hlen) as Hok.
  set (s := mkSnapshot _ _) in *.
  destruct (save_cases sid s f Hh) as [[_ Hsave]|[? _]]; [|done].
  destruct (restore_snapshot c0 c (sn_records (sorted_snapshot s)) H0 Hinv Hm Henf Hnz
    (merge_sort_Permutation _ _)) as [n Hn].
  eexists _, (sorted_snapshot s), n. split; [exact Hsave|]. simpl. by rewrite parse_file_of.
Qed.

End Restart.

(** ** Instances on the concrete pool *)

Definition demo_checkpoint : ReplayValidationCheckpoint := mkCheckpoint 3000001 (fill_be 32 99).

Lemma demo_checkpoint_ok :
  is_u64 (cp_zano_height demo_checkpoint) ∧ cp_block_hash demo_checkpoint ≠ arr_zero 32.
Proof. split; [done|]. apply arr_eqb_false. by vm_compute. Qed.

Definition demo_cache : ReplayValidationSnapshot := mkSnapshot demo_checkpoint demo_bad_records.

Lemma replay_store_roundtrip_witness :
  match save (fill_be 32 7) demo_cache None with
  | (Ok _, f') => load (fill_be 32 7) f' = Ok (Some (sorted_snapshot demo_cache)) ∧
      sn_records (sorted_snapshot demo_cache) ≡ₚ sn_records demo_cache ∧
      cp_block_hash (sn_checkpoint demo_cache) ≠ arr_zero 32 ∧
      Forall record_valid (sn_records demo_cache) ∧
      NoDup (rec_share_id <$> sn_records demo_cache)
  | (Throw _, f') => f' = None
  end.
Proof.
  exact (proj1 (replay_store_roundtrip (fill_be 32 7) demo_cache None (proj1 demo_checkpoint_ok))).
Defined.

Lemma demo_snapshot_length :
  Z.of_nat (length (omap entry_record (snapshot_entries demo_v3))) ≤ kMaxRecords.
Proof.
  apply Z.leb_le. unfold demo_v3, demo_v1, demo_u3, demo_reval. demo_unfold. vm_compute. reflexivity.
Qed.

Lemma validation_cache_restart_witness :
  ∃ f' loaded restored,
    save (fill_be 32 7) (mkSnapshot demo_checkpoint
      (omap entry_record (snapshot_entries demo_v3))) None = (Ok (), f') ∧
    load (fill_be 32 7) f' = Ok (Some loaded) ∧ sn_checkpoint loaded = demo_checkpoint ∧
    restore_replay_validation (sn_records loaded) demo_u3 = (Ok restored, demo_v3).
Proof.
  exact (@validation_cache_restart demo_pow demo_u3 demo_v3 (fill_be 32 7) demo_checkpoint _ None
    demo_u3_reachable (proj1 demo_v3_ok) (proj2 demo_v3_ok) demo_ids_nonzero demo_snapshot_ok
    demo_snapshot_length (proj1 demo_checkpoint_ok) (proj2 demo_checkpoint_ok)).
Defined.
