(* ===== verification/MiningHeader.v ===== *)
(** Zano block blobs and the mining header they commit to:
    [include/zano_p2pool/mining_header.hpp], [src/mining_header.cpp]. *)
From S2P Require Import Prelude CryptoHash.
Local Open Scope pool_scope.

(** ** The cursor *)

Record Cursor := mkCursor { cur_data : list byte; cur_pos : nat }.

(** [to_string(tag)] at the end of a message. *)
Definition with_tag (message : string) (value : Z) : string :=
  message +:+ String.string_of_list_ascii (dec_str value).

Definition position : exec Cursor nat := λ c, (Ok (cur_pos c), c).

Definition require (count : Z) : exec Cursor () :=
  exec_const (λ c, throw_if ((length (cur_data c) <? cur_pos c)%nat ||
      (Z.of_nat (length (cur_data c) - cur_pos c) <? count)) RuntimeError
    "truncated Zano serialization").

Definition read_u8 : exec Cursor Z :=
  do require 1 ;;
  λ c, (Ok (byte_to_Z (cur_data c !!! cur_pos c)), mkCursor (cur_data c) (S (cur_pos c))).

Fixpoint read_varint_loop (iterations : nat) (value shift : Z) : exec Cursor Z :=
  match iterations with
  | O => exec_throw RuntimeError "varint is too long"
  | S iterations =>
      byte <- read_u8 ;;
      if (shift =? 63) && negb (Z.land byte 126 =? 0)
      then exec_throw RuntimeError "varint overflows uint64"
      else
      let value := Z.lor value (wrap64 (Z.shiftl (Z.land byte 127) shift)) in
      if Z.land byte 128 =? 0 then exec_ret value
      else read_varint_loop iterations value (shift + 7)
  end.
Definition read_varint : exec Cursor Z := read_varint_loop 10 0 0.

Definition skip (count : Z) : exec Cursor () :=
  do require count ;;
  exec_modify (λ c, mkCursor (cur_data c) (cur_pos c + Z.to_nat count)).

Definition skip_blob : exec Cursor () :=
  size <- read_varint ;;
  if u64_max <? size
  then exec_throw RuntimeError "serialized blob length does not fit size_t"
  else skip size.

(** ** The coinbase transaction *)

Definition skip_current_coinbase_extra (tag : Z) : exec Cursor () :=
  if (tag =? 11) || (tag =? 19) || (tag =? 21) then skip_blob
  else if (tag =? 14) || (tag =? 15) || (tag =? 16) || (tag =? 78) then
    do read_varint ;; exec_ret ()
  else if tag =? 18 then
    do read_varint ;; do skip 32 ;; do read_varint ;; exec_ret ()
  else if tag =? 22 then skip 32
  else exec_throw RuntimeError (with_tag "unsupported current coinbase extra tag: " tag).

Definition skip_current_coinbase_output (tag : Z) : exec Cursor () :=
  if negb (tag =? 63)
  then exec_throw RuntimeError (with_tag "unsupported current coinbase output tag: " tag)
  else
  version <- read_u8 ;;
  if negb (version =? 0) then exec_throw RuntimeError "unsupported tx_out_zarcanum version"
  else
  do skip (32 * 4) ;;
  do skip (8 + 8) ;;
  skip 1.

(** ** Varints *)

Fixpoint encoded_varint_size_loop (fuel : nat) (value : Z) (size : nat) : nat :=
  match fuel with
  | O => size
  | S fuel =>
      if 128 <=? value then encoded_varint_size_loop fuel (Z.shiftr value 7) (S size) else size
  end.
(** A 64-bit value loses seven bits per round: ten rounds are enough. *)
Definition encoded_varint_size (value : Z) : nat := encoded_varint_size_loop 10 value 1.

Fixpoint append_varint_loop (fuel : nat) (out : list byte) (value : Z) : list byte :=
  match fuel with
  | O => out
  | S fuel =>
      let byte := Z.land value 127 in
      let value := Z.shiftr value 7 in
      if value =? 0 then out ++ [byte_of_Z byte]
      else append_varint_loop fuel (out ++ [byte_of_Z (Z.lor byte 128)]) value
  end.
Definition append_varint (out : list byte) (value : Z) : list byte :=
  append_varint_loop 10 out value.

Definition hash_pair (left right : Hash256) : Hash256 :=
  cn_fast_hash (vec_to_list left ++ vec_to_list right).

(** ** The block header *)

Record ParsedBlockHeader := mkBlockHeader {
  bh_serialized_size : nat;
  bh_serialized : list byte }.

(** The minor version, the timestamp and the flags, after [prev_id]. *)
Definition block_header_fields : exec Cursor () :=
  do read_u8 ;;
  do skip 8 ;;
  do skip 32 ;;
  do read_varint ;;
  do read_varint ;;
  do read_u8 ;;
  exec_ret ().

(** [for (i = 1; i < 9; ++i) serialized[i] = 0]. *)
Definition zero_nonce (serialized : list byte) : list byte :=
  fold_left (λ l i, <[i := Byte.x00]> l) (seq 1 8) serialized.

Definition parse_pow_block_header (block_blob : list byte) : res ParsedBlockHeader :=
  (serialized_size ← ((do block_header_fields ;; position)%pool (mkCursor block_blob 0)).1;
  let serialized := take serialized_size block_blob in
  _ ← throw_if (length serialized <? 9)%nat RuntimeError
        "serialized block header is unexpectedly short";
  mret (mkBlockHeader serialized_size (zero_nonce serialized)))%stdpp.

(** ** The miner transaction's prefix *)

Record ParsedMinerTxPrefix := mkMinerTxPrefix {
  mp_version : Z;
  mp_hardfork_id : Z;
  mp_vin_count : Z;
  mp_extra_count : Z;
  mp_vout_count : Z;
  mp_serialized_size : nat;
  mp_serialized : list byte;
  mp_hash : Hash256 }.

(** [for (i = 0; i < n; ++i) body]. *)
Fixpoint repeat_exec {S} (n : nat) (body : exec S ()) : exec S () :=
  match n with
  | O => exec_ret ()
  | S n => do body ;; repeat_exec n body
  end.

Definition read_miner_input : exec Cursor () :=
  tag <- read_u8 ;;
  if negb (tag =? 0)
  then exec_throw RuntimeError (with_tag "unsupported current miner input tag: " tag)
  else do read_varint ;; exec_ret ().

Definition miner_tx_prefix_fields : exec Cursor (Z * Z * Z * Z * Z) :=
  version <- read_varint ;;
  if negb (version =? 4)
  then exec_throw RuntimeError
         (with_tag "unsupported current miner transaction version: " version)
  else
  vin_count <- read_varint ;;
  do repeat_exec (Z.to_nat vin_count) read_miner_input ;;
  extra_count <- read_varint ;;
  do repeat_exec (Z.to_nat extra_count) (tag <- read_u8 ;; skip_current_coinbase_extra tag) ;;
  vout_count <- read_varint ;;
  do repeat_exec (Z.to_nat vout_count) (tag <- read_u8 ;; skip_current_coinbase_output tag) ;;
  hardfork_id <- read_u8 ;;
  exec_ret (version, hardfork_id, vin_count, extra_count, vout_count).

Definition parse_hf6_miner_tx_prefix (miner_tx_blob : list byte) : res ParsedMinerTxPrefix :=
  ('(version, hardfork_id, vin_count, extra_count, vout_count, serialized_size) ←
     ((fields <- miner_tx_prefix_fields ;; size <- position ;; exec_ret (fields, size))%pool
       (mkCursor miner_tx_blob 0)).1;
  let serialized := take serialized_size miner_tx_blob in
  mret (mkMinerTxPrefix version hardfork_id vin_count extra_count vout_count serialized_size
          serialized (cn_fast_hash serialized)))%stdpp.

(** ** The transaction hashes at the end *)

Record ParsedTxHashTrailer := mkTrailer {
  tt_serialized_offset : nat;
  tt_serialized_size : nat;
  tt_hashes : list Hash256 }.

Definition read_count : exec Cursor Z :=
  start <- position ;;
  count <- read_varint ;;
  finish <- position ;;
  if negb (finish - start =? encoded_varint_size count)%nat
  then exec_throw RuntimeError "non-canonical HF6 suffix count"
  else exec_ret count.

Definition skip_keys (maximum : Z) : exec Cursor Z :=
  count <- read_count ;;
  if maximum <? count then exec_throw RuntimeError "HF6 proof vector exceeds bound"
  else do skip (wrap64 (count * 32)) ;; exec_ret count.

(** [for (capacity = 1; capacity < outputs; capacity *= 2) ++rounds]; the counts
    are at most 32, so six doublings are enough. *)
Fixpoint proof_rounds_loop (fuel : nat) (capacity outputs rounds : Z) : Z :=
  match fuel with
  | O => rounds
  | S fuel =>
      if capacity <? outputs then proof_rounds_loop fuel (capacity * 2) outputs (rounds + 1)
      else rounds
  end.
Definition proof_rounds (outputs : Z) : Z := proof_rounds_loop 6 1 outputs 6.

Definition shape_error : string := "unexpected current HF6 coinbase proof shape".

(** [a || b || ...] evaluates the next read only when the one before passed. *)
Definition proof_shape : exec Cursor () :=
  c0 <- read_count ;;
  if negb (c0 =? 0) then exec_throw RuntimeError shape_error else
  c1 <- read_count ;;
  if negb (c1 =? 0) then exec_throw RuntimeError shape_error else
  c2 <- read_count ;;
  if negb (c2 =? 2) then exec_throw RuntimeError shape_error else
  tag <- read_u8 ;;
  if negb (tag =? 47) then exec_throw RuntimeError shape_error else exec_ret ().

Definition proof_fields : exec Cursor () :=
  do proof_shape ;;
  left <- skip_keys 11 ;;
  right <- skip_keys 11 ;;
  do skip (6 * 32) ;;
  outputs <- skip_keys 32 ;;
  y0s <- skip_keys 32 ;;
  y1s <- skip_keys 32 ;;
  do skip 32 ;;
  let rounds := proof_rounds outputs in
  if (outputs <? 2) || negb (y0s =? outputs) || negb (y1s =? outputs) ||
     negb (left =? rounds) || negb (right =? rounds)
  then exec_throw RuntimeError "inconsistent current HF6 range-proof counts"
  else
  tag <- read_u8 ;;
  if negb (tag =? 48) then exec_throw RuntimeError "missing current HF6 balance proof"
  else skip 96.

Fixpoint read_hashes (n : nat) : exec Cursor (list Hash256) :=
  match n with
  | O => exec_ret []
  | S n =>
      hash <- (λ c, (Ok (arr_of 32 (drop (cur_pos c) (cur_data c))), c)) ;;
      do skip 32 ;;
      rest <- read_hashes n ;;
      exec_ret (hash :: rest)
  end.

Definition trailer_fields : exec Cursor (nat * list Hash256) :=
  do proof_fields ;;
  serialized_offset <- position ;;
  count <- read_count ;;
  remaining <- (λ c, (Ok (Z.of_nat (length (cur_data c) - cur_pos c)), c)) ;;
  if negb (remaining mod 32 =? 0) || negb (count =? remaining / 32)
  then exec_throw RuntimeError "invalid current HF6 transaction-hash trailer length"
  else
  hashes <- read_hashes (Z.to_nat count) ;;
  exec_ret (serialized_offset, hashes).

Definition parse_hf6_tx_hash_trailer (block_blob : list byte) (miner_suffix_offset : nat)
    : res ParsedTxHashTrailer :=
  (_ ← throw_if (length block_blob <=? miner_suffix_offset)%nat RuntimeError
        "miner suffix offset is outside block blob";
  '(offset, hashes) ← ((do skip (Z.of_nat miner_suffix_offset) ;; trailer_fields)%pool
                         (mkCursor block_blob 0)).1;
  mret (mkTrailer offset (length block_blob - offset) hashes))%stdpp.

(** ** The transaction tree *)

(** [cnt |= cnt >> shift] for the shifts 1, 2, 4, ..., 32. *)
Definition smear (cnt : Z) : Z :=
  fold_left (λ cnt shift, Z.lor cnt (Z.shiftr cnt shift)) [1; 2; 4; 8; 16; 32] cnt.
Definition tree_width (count : Z) : Z :=
  let cnt := smear (count - 1) in
  Z.land cnt (not64 (Z.shiftr cnt 1)).

(** [for (; dest < cnt; source += 2, ++dest)], [n] rounds. *)
Fixpoint fold_leaves (n : nat) (hashes : list Hash256) (source dest : nat)
    (intermediate : list Hash256) : list Hash256 :=
  match n with
  | O => intermediate
  | S n =>
      fold_leaves n hashes (source + 2) (S dest)
        (<[dest := hash_pair (hashes !!! source) (hashes !!! S source)]> intermediate)
  end.

(** [for (i = 0, j = 0; j < cnt; i += 2, ++j)], [n] rounds, in place. *)
Fixpoint fold_level (n i j : nat) (intermediate : list Hash256) : list Hash256 :=
  match n with
  | O => intermediate
  | S n =>
      fold_level n (i + 2) (S j)
        (<[j := hash_pair (intermediate !!! i) (intermediate !!! S i)]> intermediate)
  end.

(** [while (cnt > 2)]: [cnt] halves, so 64 rounds are enough. *)
Fixpoint fold_tree (fuel : nat) (cnt : Z) (intermediate : list Hash256) : list Hash256 :=
  match fuel with
  | O => intermediate
  | S fuel =>
      if 2 <? cnt then
        let cnt := Z.shiftr cnt 1 in
        fold_tree fuel cnt (fold_level (Z.to_nat cnt) 0 0 intermediate)
      else intermediate
  end.

Definition transaction_tree_hash (miner_tx_hash : Hash256) (regular_tx_hashes : list Hash256)
    : Hash256 :=
  let hashes := miner_tx_hash :: regular_tx_hashes in
  let count := Z.of_nat (length hashes) in
  if count =? 1 then hashes !!! 0%nat
  else if count =? 2 then hash_pair (hashes !!! 0%nat) (hashes !!! 1%nat)
  else
  let cnt := tree_width count in
  let intermediate := replicate (Z.to_nat cnt) (arr_zero 32) in
  let direct := Z.to_nat (2 * cnt - count) in
  let intermediate := take direct hashes ++ drop direct intermediate in
  let intermediate := fold_leaves (Z.to_nat cnt - direct) hashes direct direct intermediate in
  let intermediate := fold_tree 64 cnt intermediate in
  hash_pair (intermediate !!! 0%nat) (intermediate !!! 1%nat).

(** ** The mining header *)

Definition make_hashing_blob (zero_nonce_block_header : list byte) (tx_tree_root : Hash256)
    (total_transaction_count : Z) : res (list byte) :=
  (_ ← throw_if ((total_transaction_count =? 0) || (u64_max <? total_transaction_count))
        RuntimeError "invalid total transaction count";
  mret (append_varint (zero_nonce_block_header ++ vec_to_list tx_tree_root)
          total_transaction_count))%stdpp.

Record MiningHeaderWork := mkWork {
  mw_block_header : ParsedBlockHeader;
  mw_miner_tx_prefix : ParsedMinerTxPrefix;
  mw_tx_hashes : ParsedTxHashTrailer;
  mw_tx_tree_root : Hash256;
  mw_hashing_blob : list byte;
  mw_header_hash : Hash256 }.

Definition derive_mining_header_work (block_blob : list byte) : res MiningHeaderWork :=
  (block_header ← parse_pow_block_header block_blob;
  let miner_and_tail := drop (bh_serialized_size block_header) block_blob in
  miner_tx_prefix ← parse_hf6_miner_tx_prefix miner_and_tail;
  let miner_suffix_offset :=
    (bh_serialized_size block_header + mp_serialized_size miner_tx_prefix)%nat in
  tx_hashes ← parse_hf6_tx_hash_trailer block_blob miner_suffix_offset;
  let tx_tree_root :=
    transaction_tree_hash (mp_hash miner_tx_prefix) (tt_hashes tx_hashes) in
  hashing_blob ← make_hashing_blob (bh_serialized block_header) tx_tree_root
                   (Z.of_nat (length (tt_hashes tx_hashes) + 1));
  mret (mkWork block_header miner_tx_prefix tx_hashes tx_tree_root hashing_blob
          (cn_fast_hash hashing_blob)))%stdpp.

Definition make_single_tx_hashing_blob (zero_nonce_block_header : list byte)
    (miner_tx_hash : Hash256) : res (list byte) :=
  make_hashing_blob zero_nonce_block_header miner_tx_hash 1.

(** ** The width of the tree

    The bit trick finds the largest power of two below [count]. *)

(** The bits of [x] above [k] are clear and the [m] bits up to [k] are set. *)
Definition top_set (k m x : Z) : Prop :=
  (∀ i, k < i → Z.testbit x i = false) ∧
  (∀ i, 0 ≤ i → k - m < i ≤ k → Z.testbit x i = true).

Lemma top_set_step k m x : 0 ≤ m → top_set k m x → top_set k (2 * m) (Z.lor x (Z.shiftr x m)).
Proof.
  intros Hm [Hhi Hlo]. split; intros i.
  - intros Hi. rewrite Z.lor_spec, Hhi by lia.
    destruct (Z.neg_nonneg_cases i) as [?|?]; [by rewrite Z.testbit_neg_r|].
    rewrite Z.shiftr_spec by lia. apply Hhi. lia.
  - intros Hi Hr. rewrite Z.lor_spec, Z.shiftr_spec by lia.
    destruct (Z_lt_le_dec (k - m) i); [by rewrite Hlo by lia|].
    rewrite (Hlo (i + m)) by lia. apply orb_true_r.
Qed.

Lemma smear_ones n : 0 < n ≤ u64_max → smear n = Z.ones (Z.log2 n + 1).
Proof.
  intros Hn. pose proof (Z.log2_nonneg n) as Hk.
  assert (Z.log2 n ≤ 63) as Hk63.
  { apply Z.lt_succ_r. apply (Z.log2_lt_pow2 n 64); unfold u64_max in Hn; lia. }
  assert (top_set (Z.log2 n) 1 n) as H1.
  { split; intros i; [intros; by apply Z.bits_above_log2; lia|].
    intros ? ?. replace i with (Z.log2 n) by lia. apply Z.bit_log2. lia. }
  assert (top_set (Z.log2 n) 64 (smear n)) as [Hhi Hlo].
  { unfold smear. cbn [fold_left].
    refine (top_set_step _ 32 _ ltac:(lia) _). refine (top_set_step _ 16 _ ltac:(lia) _).
    refine (top_set_step _ 8 _ ltac:(lia) _). refine (top_set_step _ 4 _ ltac:(lia) _).
    refine (top_set_step _ 2 _ ltac:(lia) _). exact (top_set_step _ 1 _ ltac:(lia) H1). }
  apply Z.bits_inj'. intros i Hi. destruct (Z_lt_le_dec (Z.log2 n) i).
  - rewrite Hhi, Z.ones_spec_high by lia. done.
  - rewrite Hlo, Z.ones_spec_low by lia. done.
Qed.

Lemma tree_width_spec count :
  1 < count ≤ u64_max → tree_width count = 2 ^ Z.log2 (count - 1).
Proof.
  intros Hc. unfold tree_width. rewrite smear_ones by lia. cbv zeta.
  set (k := Z.log2 (count - 1)). pose proof (Z.log2_nonneg (count - 1)) as Hk. fold k in Hk.
  assert (k ≤ 63).
  { apply Z.lt_succ_r. apply (Z.log2_lt_pow2 (count - 1) 64); unfold u64_max in Hc; lia. }
  apply Z.bits_inj'. intros i Hi. unfold not64. change u64_max with (Z.ones 64).
  rewrite Z.pow2_bits_eqb, !Z.land_spec, Z.lnot_spec, Z.shiftr_spec by lia.
  destruct (Z.eqb_spec k i) as [<-|Hne].
  - rewrite (Z.ones_spec_low (k + 1) k), (Z.ones_spec_high (k + 1)), (Z.ones_spec_low 64) by lia.
    done.
  - destruct (Z_lt_le_dec k i); [by rewrite (Z.ones_spec_high (k + 1) i) by lia|].
    rewrite (Z.ones_spec_low (k + 1) (i + 1)) by lia. apply andb_false_r.
Qed.

(** ** The tree as a recursive definition *)

Fixpoint pairs (l : list Hash256) : list Hash256 :=
  match l with
  | a :: b :: l => hash_pair a b :: pairs l
  | _ => []
  end.

(** The root over [2 ^ k] leaves. *)
Fixpoint merkle (k : nat) (l : list Hash256) : Hash256 :=
  match k with
  | O => l !!! 0%nat
  | S k => hash_pair (merkle k (take (2 ^ k) l)) (merkle k (drop (2 ^ k) l))
  end.

(** The largest power of two below the number of hashes is the width; the hashes
    that do not fit are paired, at the end. *)
Definition tree_leaves (hashes : list Hash256) : list Hash256 :=
  let direct := (2 * 2 ^ Nat.log2 (length hashes - 1) - length hashes)%nat in
  take direct hashes ++ pairs (drop direct hashes).
Definition tree_root (hashes : list Hash256) : Hash256 :=
  match hashes with
  | [hash] => hash
  | _ => merkle (Nat.log2 (length hashes - 1)) (tree_leaves hashes)
  end.

Lemma length_pairs n : ∀ l, length l = (2 * n)%nat → length (pairs l) = n.
Proof.
  induction n as [|n IH]; intros [|a [|b l]] Hl; simpl in *; try lia. rewrite IH by lia. done.
Qed.

Lemma pairs_take n : ∀ l, pairs (take (2 * n) l) = take n (pairs l).
Proof.
  induction n as [|n IH]; intros l; [done|].
  replace (2 * S n)%nat with (S (S (2 * n))) by lia.
  destruct l as [|a [|b l]]; [done|done|]. cbn [take pairs]. by rewrite IH.
Qed.

Lemma pairs_drop n : ∀ l, pairs (drop (2 * n) l) = drop n (pairs l).
Proof.
  induction n as [|n IH]; intros l; [done|].
  replace (2 * S n)%nat with (S (S (2 * n))) by lia.
  destruct l as [|a [|b l]]; [done|done|]. cbn [drop pairs]. by rewrite IH.
Qed.

Lemma merkle_pairs k : ∀ l, length l = (2 ^ S k)%nat → merkle (S k) l = merkle k (pairs l).
Proof.
  induction k as [|k IH]; intros l Hl.
  - destruct l as [|a [|b [|c l]]]; simpl in Hl; try lia. done.
  - cbn [merkle]. rewrite <-pairs_take, <-pairs_drop.
    change (2 * 2 ^ k)%nat with (2 ^ S k)%nat.
    rewrite <-!IH; [done|rewrite length_drop|rewrite length_take]; simpl in *; lia.
Qed.

Lemma fold_level_spec n : ∀ j l, (2 * (j + n) ≤ length l)%nat →
  fold_level n (2 * j) j l =
  take j l ++ pairs (take (2 * n) (drop (2 * j) l)) ++ drop (j + n) l.
Proof.
  induction n as [|n IH]; intros j l Hl.
  { simpl. rewrite Nat.add_0_r. by rewrite take_drop. }
  cbn [fold_level]. replace (2 * j + 2)%nat with (2 * S j)%nat by lia.
  rewrite IH by (rewrite length_insert; lia).
  rewrite (drop_insert_lt _ (2 * S j)) by lia.
  rewrite (drop_insert_lt _ (S j + n)) by lia.
  rewrite (take_S_r _ j (hash_pair (l !!! (2 * j)%nat) (l !!! S (2 * j))))
    by (apply list_lookup_insert_eq; lia).
  rewrite (take_insert_ge l j j) by lia.
  rewrite <-app_assoc. f_equal.
  assert (∃ a b, drop (2 * j) l = a :: b :: drop (2 * S j) l ∧ l !!! (2 * j)%nat = a ∧
    l !!! S (2 * j) = b) as (a & b & Hd & -> & ->).
  { destruct (lookup_lt_is_Some_2 l (2 * j)) as [a Ha]; [lia|].
    destruct (lookup_lt_is_Some_2 l (S (2 * j))) as [b Hb]; [lia|].
    exists a, b. rewrite (drop_S l a _ Ha), (drop_S l b _ Hb).
    replace (2 * S j)%nat with (S (S (2 * j))) by lia.
    split; [done|]. by rewrite !list_lookup_total_alt, Ha, Hb. }
  rewrite Hd. replace (2 * S n)%nat with (S (S (2 * n))) by lia. cbn [take pairs app].
  do 2 f_equal. f_equal. lia.
Qed.

Lemma fold_leaves_spec n hashes : ∀ source dest l,
  (source + 2 * n ≤ length hashes)%nat → (dest + n ≤ length l)%nat →
  fold_leaves n hashes source dest l =
  take dest l ++ pairs (take (2 * n) (drop source hashes)) ++ drop (dest + n) l.
Proof.
  induction n as [|n IH]; intros source dest l Hs Hd.
  { simpl. rewrite Nat.add_0_r. by rewrite take_drop. }
  cbn [fold_leaves]. rewrite IH by (rewrite ?length_insert; lia).
  rewrite (drop_insert_lt _ (S dest + n)) by lia.
  rewrite (take_S_r _ dest (hash_pair (hashes !!! source) (hashes !!! S source)))
    by (apply list_lookup_insert_eq; lia).
  rewrite (take_insert_ge l dest dest) by lia. rewrite <-app_assoc. f_equal.
  destruct (lookup_lt_is_Some_2 hashes source) as [a Ha]; [lia|].
  destruct (lookup_lt_is_Some_2 hashes (S source)) as [b Hb]; [lia|].
  rewrite (drop_S hashes a _ Ha), (drop_S hashes b _ Hb).
  rewrite !list_lookup_total_alt, Ha, Hb. replace (source + 2)%nat with (S (S source)) by lia.
  replace (2 * S n)%nat with (S (S (2 * n))) by lia. cbn [take pairs app default].
  do 2 f_equal. f_equal. lia.
Qed.

Lemma fold_tree_spec k : ∀ fuel l,
  (k ≤ fuel)%nat → (2 ^ S k ≤ length l)%nat →
  let out := fold_tree fuel (2 ^ Z.of_nat (S k)) l in
  hash_pair (out !!! 0%nat) (out !!! 1%nat) = merkle (S k) (take (2 ^ S k) l).
Proof.
  induction k as [|k IH]; intros fuel l Hf Hl; cbv zeta.
  - destruct l as [|a [|b l]]; simpl in Hl; try lia.
    destruct fuel; done.
  - destruct fuel as [|fuel]; [lia|]. cbn [fold_tree].
    assert (2 ^ Z.of_nat (S (S k)) = 2 * 2 ^ Z.of_nat (S k)) as E
      by (rewrite (Nat2Z.inj_succ (S k)), Z.pow_succ_r by lia; done).
    assert (2 ≤ 2 ^ Z.of_nat (S k)) as H2.
    { rewrite Nat2Z.inj_succ, Z.pow_succ_r by lia. pose proof (Z.pow_pos_nonneg 2 (Z.of_nat k)). lia. }
    rewrite (proj2 (Z.ltb_lt _ _)) by lia. cbv zeta.
    assert (Z.shiftr (2 ^ Z.of_nat (S (S k))) 1 = 2 ^ Z.of_nat (S k)) as ->.
    { rewrite Z.shiftr_div_pow2, E, Z.mul_comm by lia. apply Z.div_mul. lia. }
    assert (Z.to_nat (2 ^ Z.of_nat (S k)) = 2 ^ S k)%nat as ->
      by (rewrite <-(Nat2Z.id (2 ^ S k)), Nat2Z.inj_pow; done).
    assert (2 ^ S (S k) = 2 * 2 ^ S k)%nat as E' by done. rewrite E' in *.
    pose proof (fold_level_spec (2 ^ S k) 0 l Hl) as Hfl.
    change (2 * 0)%nat with 0%nat in Hfl. rewrite drop_0 in Hfl.
    change (take 0 l ++ ?x) with x in Hfl. rewrite Hfl. clear Hfl.
    assert (length (pairs (take (2 * 2 ^ S k) l)) = 2 ^ S k)%nat as Hp
      by (apply length_pairs; rewrite length_take; lia).
    rewrite IH by (rewrite ?length_app, ?Hp; lia).
    rewrite take_app_length' by done.
    rewrite <-merkle_pairs by (rewrite length_take, E'; lia). done.
Qed.

(** The in-place folding computes the recursive tree. *)
Lemma transaction_tree_hash_root h hs :
  Z.of_nat (S (length hs)) ≤ u64_max →
  transaction_tree_hash h hs = tree_root (h :: hs).
Proof.
  intros Hlen. unfold transaction_tree_hash, tree_root. cbv zeta.
  destruct hs as [|h1 [|h2 hs]]; [done|done|].
  remember (h :: h1 :: h2 :: hs) as l eqn:El.
  assert (3 ≤ length l)%nat as Hl by (subst l; simpl; lia).
  assert (Z.of_nat (length l) ≤ u64_max) as Hmax by (by subst l).
  clear El Hlen. rewrite !(proj2 (Z.eqb_neq _ _)) by lia.
  set (k := Nat.log2 (length l - 1)).
  assert (Z.log2 (Z.of_nat (length l) - 1) = Z.of_nat k) as Hlog.
  { rewrite <-(Nat2Z.inj_sub _ 1) by lia. pose proof (Nat.log2_spec (length l - 1) ltac:(lia)) as [A B].
    apply Z.log2_unique; [lia|]. fold k in A, B. rewrite <-(Nat2Z.inj_succ k).
    change 2 with (Z.of_nat 2). rewrite <-!Nat2Z.inj_pow. lia. }
  pose proof (Nat.log2_spec (length l - 1) ltac:(lia)) as [HA HB]. fold k in HA, HB.
  rewrite tree_width_spec, Hlog by lia.
  assert (Z.to_nat (2 ^ Z.of_nat k) = 2 ^ k)%nat as ->
    by (rewrite <-(Nat2Z.id (2 ^ k)), Nat2Z.inj_pow; done).
  assert (Z.to_nat (2 * 2 ^ Z.of_nat k - Z.of_nat (length l)) = 2 * 2 ^ k - length l)%nat as ->.
  { change 2 with (Z.of_nat 2) at 1 2. rewrite <-Nat2Z.inj_pow. lia. }
  set (direct := (2 * 2 ^ k - length l)%nat).
  assert (2 ^ S k = 2 * 2 ^ k)%nat as Epow by done.
  assert (k ≠ 0)%nat as Hk0.
  { intros E. rewrite E in HB. simpl in HB. lia. }
  rewrite fold_leaves_spec.
  2: lia.
  2: { rewrite length_app, length_take, length_drop, length_replicate. lia. }
  rewrite (take_app_length' (take direct l)) by (rewrite length_take; lia).
  rewrite (drop_ge (_ ++ _)) by
    (rewrite length_app, length_take, length_drop, length_replicate; lia).
  rewrite app_nil_r, (take_ge (drop direct l)) by (rewrite length_drop; lia).
  destruct k as [|k'] eqn:Ek; [done|].
  assert (length (take direct l ++ pairs (drop direct l)) = 2 ^ S k')%nat as Hlv.
  { rewrite length_app, length_take, (length_pairs (2 ^ S k' - direct)); [lia|].
    rewrite length_drop. lia. }
  rewrite fold_tree_spec; [|enough (S k' ≤ 64)%nat by lia|lia].
  - unfold tree_leaves. fold k. rewrite Ek. fold direct.
    rewrite take_ge by lia. by destruct l as [|? [|? ?]].
  - assert (Z.of_nat (S k') < 64) as ?; [|lia]. rewrite <-Hlog.
    apply Z.log2_lt_pow2; unfold u64_max in Hmax; lia.
Qed.

(** ** Varints round trip *)

Lemma byte_bits (b : byte) :
  Z.land (byte_to_Z b) 127 = byte_to_Z b mod 128 ∧
  (Z.land (byte_to_Z b) 128 =? 0) = (byte_to_Z b <? 128).
Proof. by destruct b. Qed.

Lemma lor_shifted a b s :
  0 ≤ s → 0 ≤ a < 2 ^ s → 0 ≤ b → Z.lor a (Z.shiftl b s) = a + b * 2 ^ s.
Proof.
  intros Hs Ha Hb. rewrite <-Z.shiftl_mul_pow2 by done.
  assert (Z.land a (Z.shiftl b s) = 0) as H0.
  { apply Z.bits_inj'. intros i Hi. rewrite Z.land_spec, Z.bits_0. destruct (Z_lt_le_dec i s).
    - by rewrite Z.shiftl_spec_low, andb_false_r.
    - by rewrite <-(Z.mod_small a (2 ^ s)), Z.mod_pow2_bits_high by lia. }
  by rewrite Z.add_nocarry_lxor, Z.lxor_lor.
Qed.

Lemma cursor_at (pre post : list byte) b :
  read_u8 (mkCursor (pre ++ b :: post) (length pre)) =
  (Ok (byte_to_Z b), mkCursor (pre ++ b :: post) (S (length pre))).
Proof.
  unfold read_u8, require, exec_bind, exec_const. cbn [cur_data cur_pos].
  rewrite (proj2 (Nat.ltb_ge _ _)), (proj2 (Z.ltb_ge _ _)) by (rewrite length_app; simpl; lia).
  cbn [orb throw_if]. by rewrite list_lookup_total_middle.
Qed.

Lemma append_varint_acc f : ∀ out v, append_varint_loop f out v = out ++ append_varint_loop f [] v.
Proof.
  induction f as [|f IH]; intros out v; cbn [append_varint_loop]; [by rewrite app_nil_r|].
  cbv zeta. destruct (_ =? 0); [done|]. rewrite IH, (IH ([] ++ _)). by rewrite <-app_assoc.
Qed.

Lemma read_varint_loop_at f : ∀ v acc s pre post,
  0 ≤ v < 128 ^ Z.of_nat f → s = 7 * (10 - Z.of_nat f) → (0 < f ≤ 10)%nat → 0 ≤ acc < 2 ^ s →
  v * 2 ^ s ≤ u64_max →
  let enc := append_varint_loop f [] v in
  read_varint_loop f acc s (mkCursor (pre ++ enc ++ post) (length pre)) =
  (Ok (acc + v * 2 ^ s), mkCursor (pre ++ enc ++ post) (length pre + length enc)).
Proof.
  induction f as [|f IH]; intros v acc s pre post Hv Hs Hf Hacc Hmax; [lia|].
  cbn [append_varint_loop read_varint_loop]. cbv zeta.
  rewrite Nat2Z.inj_succ, Z.pow_succ_r in Hv by lia.
  assert (Z.land v 127 = v mod 128) as Hlow by (exact (Z.land_ones v 7 ltac:(lia))).
  assert (Z.shiftr v 7 = v / 128) as Hhigh by (by rewrite Z.shiftr_div_pow2).
  rewrite Hlow, Hhigh. pose proof (Z.mod_pos_bound v 128 ltac:(lia)) as Hm.
  pose proof (Z.div_mod v 128 ltac:(lia)) as Hdm. pose proof (Z.pow_pos_nonneg 2 s) as Hp.
  assert (0 ≤ v / 128) by (apply Z.div_pos; lia).
  assert (∀ x, 0 ≤ x < 256 → (s = 63 → Z.land x 126 = 0) → x mod 128 = v mod 128 →
    (s =? 63) && negb (Z.land x 126 =? 0) = false) as Hov.
  { intros x Hx H63 _. destruct (Z.eqb_spec s 63); [|done]. rewrite H63 by done. done. }
  assert (Z.lor acc (wrap64 (Z.shiftl (v mod 128) s)) = acc + v mod 128 * 2 ^ s) as Hacc'.
  { unfold wrap64. rewrite Z.mod_small.
    - apply lor_shifted; lia.
    - rewrite Z.shiftl_mul_pow2 by lia. unfold u64_max in Hmax. nia. }
  unfold exec_bind at 1. destruct (Z.eqb_spec (v / 128) 0) as [Hz|Hz].
  - assert (v mod 128 = v) as Ev by (apply Z.mod_small; lia). cbn [app].
    rewrite cursor_at, byte_to_of_Z, (Z.mod_small _ 256) by lia.
    rewrite Hov; [|lia| |by rewrite Z.mod_mod by lia].
    2: { intros ->. change (2 ^ 63) with 9223372036854775808 in Hmax. unfold u64_max in Hmax.
         assert (v = 0 ∨ v = 1) as [-> | ->] by lia; done. }
    destruct (byte_bits (byte_of_Z (v mod 128))) as [Hb1 Hb2].
    rewrite byte_to_of_Z, (Z.mod_small _ 256) in Hb1, Hb2 by lia.
    rewrite Hb1, Z.mod_mod, Hacc' by lia. rewrite Hb2, (proj2 (Z.ltb_lt _ _)) by lia.
    rewrite Ev. cbn [length]. rewrite Nat.add_1_r. done.
  - assert (s ≤ 56) as Hs56.
    { destruct (Z_le_gt_dec s 56); [done|]. assert (s = 63) as -> by lia.
      change (2 ^ 63) with 9223372036854775808 in Hmax. unfold u64_max in Hmax. lia. }
    rewrite append_varint_acc. cbn [app].
    assert (Z.lor (v mod 128) 128 = v mod 128 + 128) as Hor
      by (exact (lor_shifted (v mod 128) 1 7 ltac:(lia) ltac:(lia) ltac:(lia))).
    rewrite Hor, cursor_at, byte_to_of_Z, (Z.mod_small _ 256) by lia.
    assert ((v mod 128 + 128) mod 128 = v mod 128) as Em
      by (rewrite <-(Z.mul_1_l 128) at 2; rewrite Z.mod_add, Z.mod_mod by lia; done).
    rewrite Hov; [|lia|lia|done].
    destruct (byte_bits (byte_of_Z (v mod 128 + 128))) as [Hb1 Hb2].
    rewrite byte_to_of_Z, (Z.mod_small _ 256) in Hb1, Hb2 by lia.
    rewrite Hb1, Em, Hacc', Hb2, (proj2 (Z.ltb_ge _ _)) by lia.
    assert (2 ^ (s + 7) = 2 ^ s * 128) as E7 by (by rewrite Z.pow_add_r by lia).
    specialize (IH (v / 128) (acc + v mod 128 * 2 ^ s) (s + 7)
      (pre ++ [byte_of_Z (v mod 128 + 128)]) post).
    cbv zeta in IH. rewrite length_app, <-app_assoc in IH. cbn [length app] in IH.
    rewrite Nat.add_1_r in IH. cbn [length]. 
    assert (f ≠ 0)%nat by (intros ->; simpl in Hv; lia).
    rewrite IH; [|nia|lia|lia|nia|rewrite E7; nia].
    f_equal; [f_equal; rewrite E7; nia|]. f_equal. lia.
Qed.

(** The encoding of a value, and reading it back. *)
Definition varint_bytes (v : Z) : list byte := append_varint [] v.

Lemma append_varint_bytes out v : append_varint out v = out ++ varint_bytes v.
Proof. apply append_varint_acc. Qed.

Lemma read_varint_at v pre post :
  is_u64 v →
  read_varint (mkCursor (pre ++ varint_bytes v ++ post) (length pre)) =
  (Ok v, mkCursor (pre ++ varint_bytes v ++ post) (length pre + length (varint_bytes v))).
Proof.
  intros Hv. unfold read_varint, varint_bytes, append_varint.
  pose proof (read_varint_loop_at 10 v 0 0 pre post) as Hr. cbv zeta in Hr.
  rewrite Hr; [|change (128 ^ Z.of_nat 10) with 1180591620717411303424; unfold is_u64, u64_max in Hv; lia
    |done|lia|lia|unfold is_u64 in Hv; lia].
  f_equal. f_equal. lia.
Qed.

Lemma append_varint_nonempty f v :
  (f ≠ 0)%nat → (1 ≤ length (append_varint_loop f [] v))%nat.
Proof.
  destruct f as [|f]; [done|]. intros _. cbn [append_varint_loop]. cbv zeta.
  destruct (_ =? 0); [done|]. rewrite append_varint_acc, length_app. simpl. lia.
Qed.

Lemma varint_size_loop f : ∀ v n, 0 ≤ v < 128 ^ Z.of_nat f → (f ≠ 0)%nat →
  encoded_varint_size_loop f v n = (n + (length (append_varint_loop f [] v) - 1))%nat.
Proof.
  induction f as [|f IH]; intros v n Hv Hf; [done|].
  cbn [encoded_varint_size_loop append_varint_loop]. cbv zeta.
  rewrite Nat2Z.inj_succ, Z.pow_succ_r in Hv by lia.
  rewrite Z.shiftr_div_pow2 by lia. change (2 ^ 7) with 128.
  pose proof (Z.div_mod v 128 ltac:(lia)). pose proof (Z.mod_pos_bound v 128 ltac:(lia)).
  destruct (Z.leb_spec 128 v) as [Hle|Hlt], (Z.eqb_spec (v / 128) 0) as [E|E]; try nia.
  - rewrite append_varint_acc, length_app. cbn [length app].
    assert (f ≠ 0)%nat by (intros ->; simpl in Hv; nia).
    rewrite IH by nia.
    pose proof (append_varint_nonempty f (v / 128) ltac:(done)). lia.
  - simpl. lia.
Qed.

Lemma length_varint_bytes v : is_u64 v → length (varint_bytes v) = encoded_varint_size v.
Proof.
  intros Hv. unfold encoded_varint_size, varint_bytes, append_varint.
  rewrite varint_size_loop; [|change (128 ^ Z.of_nat 10) with 1180591620717411303424;
    unfold is_u64, u64_max in Hv; lia|done].
  pose proof (append_varint_nonempty 10 v ltac:(done)). lia.
Qed.

Lemma varint_bytes_inj v w : is_u64 v → is_u64 w → varint_bytes v = varint_bytes w → v = w.
Proof.
  intros Hv Hw E. pose proof (read_varint_at v [] [] Hv) as R1.
  pose proof (read_varint_at w [] [] Hw) as R2. rewrite <-E, R1 in R2. by injection R2.
Qed.

(** ** Reading is local

    What a reader returns is decided by the bytes it moves over. *)
Class Local {A} (m : exec Cursor A) : Prop := local : ∀ d p a d1 p1,
  m (mkCursor d p) = (Ok a, mkCursor d1 p1) → (p ≤ length d)%nat →
  d1 = d ∧ (p ≤ p1 ≤ length d)%nat ∧
  ∀ d', (p1 ≤ length d')%nat → (∀ i, (p ≤ i < p1)%nat → d' !! i = d !! i) →
    m (mkCursor d' p) = (Ok a, mkCursor d' p1).

#[export] Instance local_ret {A} (a : A) : Local (exec_ret a).
Proof. intros d p b d1 p1 [= <- <- <-] Hp. split; [done|]. split; [lia|]. done. Qed.

#[export] Instance local_throw {A} k what : Local (@exec_throw Cursor A k what).
Proof. by intros d p b d1 p1 [=]. Qed.

#[export] Instance local_bind {A B} (m : exec Cursor A) (f : A → exec Cursor B) :
  Local m → (∀ a, Local (f a)) → Local (exec_bind m f).
Proof.
  intros Hm Hf d p b d2 p2 Hb Hp. unfold exec_bind in *.
  destruct (m (mkCursor d p)) as [[a|x] [d1 p1]] eqn:E; [|done].
  destruct (Hm _ _ _ _ _ E Hp) as (-> & Hp1 & Hag).
  destruct (Hf a _ _ _ _ _ Hb ltac:(lia)) as (-> & Hp2 & Hag2).
  split; [done|]. split; [lia|]. intros d' Hd' Hi.
  rewrite Hag by (lia || (intros; apply Hi; lia)). apply Hag2; [lia|]. intros. apply Hi. lia.
Qed.

#[export] Instance local_if {A} (b : bool) (m1 m2 : exec Cursor A) :
  Local m1 → Local m2 → Local (if b then m1 else m2).
Proof. by destruct b. Qed.

Lemma require_ok n c c' u :
  require n c = (Ok u, c') ↔
  c' = c ∧ (cur_pos c ≤ length (cur_data c))%nat ∧
  n ≤ Z.of_nat (length (cur_data c) - cur_pos c).
Proof.
  unfold require, exec_const. destruct u. split.
  - intros [= Ht <-]. apply throw_if_ok in Ht. apply orb_false_iff in Ht as [H1 H2].
    apply Nat.ltb_ge in H1. bool_prop. done.
  - intros (-> & H1 & H2). rewrite (proj2 (Nat.ltb_ge _ _)), (proj2 (Z.ltb_ge _ _)) by done. done.
Qed.

#[export] Instance local_read_u8 : Local read_u8.
Proof.
  intros d p a d1 p1 H Hp. unfold read_u8 in *. apply exec_bind_ok in H as (u & c & H & E).
  apply require_ok in H as (-> & _ & Hn). cbn [cur_data cur_pos] in *. injection E as <- <- <-.
  split; [done|]. split; [lia|]. intros d' Hd' Hi. apply exec_bind_ok.
  exists u, (mkCursor d' p). split; [apply require_ok; cbn [cur_data cur_pos]; split; [done|lia]|].
  cbn [cur_data cur_pos]. by rewrite !list_lookup_total_alt, Hi by lia.
Qed.

#[export] Instance local_skip n : Local (skip n).
Proof.
  intros d p a d1 p1 H Hp. unfold skip in *. apply exec_bind_ok in H as (u & c & H & E).
  apply require_ok in H as (-> & _ & Hn). cbn [cur_data cur_pos] in *.
  unfold exec_modify in *. cbn [cur_data cur_pos] in *. injection E as <- <- <-.
  split; [done|]. split; [lia|]. intros d' Hd' Hi. apply exec_bind_ok.
  exists u, (mkCursor d' p). split; [apply require_ok; cbn [cur_data cur_pos]; split; [done|lia]|done].
Qed.

#[export] Instance local_varint_loop f v s : Local (read_varint_loop f v s).
Proof. revert v s. induction f as [|f IH]; intros v s; cbn [read_varint_loop]; apply _. Qed.
#[export] Instance local_varint : Local read_varint := local_varint_loop 10 0 0.

(** The fields after the nonce. *)
Definition header_tail : exec Cursor () :=
  do skip 32 ;; do read_varint ;; do read_varint ;; do read_u8 ;; exec_ret ().
#[export] Instance local_header_tail : Local header_tail.
Proof. unfold header_tail. apply _. Qed.

Lemma block_header_fields_tail d n :
  (block_header_fields (mkCursor d 0)) = (Ok (), mkCursor d n) →
  (9 ≤ length d)%nat ∧ header_tail (mkCursor d 9) = (Ok (), mkCursor d n).
Proof.
  unfold block_header_fields. intros H.
  apply exec_bind_ok in H as (x & [d1 p1] & H & H').
  pose proof (local_read_u8 _ _ _ _ _ H ltac:(lia)) as (-> & _ & _).
  unfold read_u8 in H. apply exec_bind_ok in H as (u & c & Hr & E). apply require_ok in Hr as (-> & _ & Hn).
  injection E as <- <-. cbn [cur_data cur_pos] in *.
  apply exec_bind_ok in H' as (u' & [d2 p2] & H & H'). unfold skip in H.
  apply exec_bind_ok in H as (u'' & c & Hr & E). apply require_ok in Hr as (-> & _ & Hn').
  cbn [cur_data cur_pos] in *. injection E as <- <- <-. split; [lia|exact H'].
Qed.

Lemma zero_nonce_lookup l i : (9 ≤ i)%nat → zero_nonce l !! i = l !! i.
Proof.
  intros Hi. unfold zero_nonce. cbn [seq fold_left].
  by rewrite !list_lookup_insert_ne by lia.
Qed.

Lemma length_zero_nonce l : length (zero_nonce l) = length l.
Proof. unfold zero_nonce. cbn [seq fold_left]. by rewrite !length_insert. Qed.

Lemma parse_header_ok b h :
  parse_pow_block_header b = Ok h →
  let n := bh_serialized_size h in
  (9 ≤ n ≤ length b)%nat ∧ bh_serialized h = zero_nonce (take n b) ∧
  length (bh_serialized h) = n ∧ header_tail (mkCursor b 9) = (Ok (), mkCursor b n).
Proof.
  unfold parse_pow_block_header. intros H. apply res_bind_ok in H as (n & Hn & H).
  apply res_bind_ok in H as (_ & Hl%throw_if_ok & H). injection H as <-. cbv zeta.
  cbn [bh_serialized_size bh_serialized].
  unfold exec_bind in Hn. destruct (block_header_fields (mkCursor b 0)) as [[[]|x] [d p]] eqn:E;
    [|done]. injection Hn as ->. cbn [cur_pos].
  assert (Local block_header_fields) as HL by (unfold block_header_fields; apply _).
  destruct (HL _ _ _ _ _ E ltac:(lia)) as (-> & Hr & _).
  apply block_header_fields_tail in E as [H9 Ht].
  destruct (local_header_tail _ _ _ _ _ Ht ltac:(lia)) as (_ & Hr' & _).
  rewrite length_zero_nonce, length_take. split; [lia|]. split; [done|]. split; [lia|done].
Qed.

(** A serialised header is not a proper prefix of another one. *)
Lemma header_prefix_free b1 b2 h1 h2 t1 t2 :
  parse_pow_block_header b1 = Ok h1 → parse_pow_block_header b2 = Ok h2 →
  bh_serialized h1 ++ t1 = bh_serialized h2 ++ t2 →
  bh_serialized h1 = bh_serialized h2 ∧ t1 = t2.
Proof.
  intros H1 H2 E.
  assert (∀ b h t, parse_pow_block_header b = Ok h →
    header_tail (mkCursor (bh_serialized h ++ t) 9) =
    (Ok (), mkCursor (bh_serialized h ++ t) (bh_serialized_size h))) as Hrun.
  { intros b h t Hb. destruct (parse_header_ok _ _ Hb) as (Hn & Hs & Hl & Ht).
    destruct (local_header_tail _ _ _ _ _ Ht ltac:(lia)) as (_ & _ & Hag).
    apply Hag; [rewrite length_app, Hl; lia|]. intros i Hi.
    rewrite lookup_app_l by (rewrite Hl; lia). rewrite Hs, zero_nonce_lookup by lia.
    by rewrite lookup_take_lt by lia. }
  pose proof (Hrun _ _ t1 H1) as R1. pose proof (Hrun _ _ t2 H2) as R2.
  rewrite <-E, R1 in R2. injection R2 as Hsz.
  destruct (parse_header_ok _ _ H1) as (_ & _ & L1 & _).
  destruct (parse_header_ok _ _ H2) as (_ & _ & L2 & _).
  apply app_inj_1 in E; [done|]. congruence.
Qed.

(** ** What the header hash commits to *)

(** No two of these messages collide under Keccak. *)
Definition collision_free (ms : list (list byte)) : Prop :=
  ∀ x y, x ∈ ms → y ∈ ms → cn_fast_hash x = cn_fast_hash y → x = y.

Definition pair_message (a b : Hash256) : list byte := vec_to_list a ++ vec_to_list b.
Fixpoint pairs_messages (l : list Hash256) : list (list byte) :=
  match l with
  | a :: b :: l => pair_message a b :: pairs_messages l
  | _ => []
  end.
Fixpoint merkle_messages (k : nat) (l : list Hash256) : list (list byte) :=
  match k with
  | O => []
  | S k =>
      pair_message (merkle k (take (2 ^ k) l)) (merkle k (drop (2 ^ k) l)) ::
      merkle_messages k (take (2 ^ k) l) ++ merkle_messages k (drop (2 ^ k) l)
  end.

(** The messages hashed to compute the root over [hashes]. *)
Definition tree_messages (hashes : list Hash256) : list (list byte) :=
  let k := Nat.log2 (length hashes - 1) in
  pairs_messages (drop (2 * 2 ^ k - length hashes) hashes) ++
  merkle_messages k (tree_leaves hashes).

(** The messages hashed to derive the mining header of a block blob. *)
Definition work_messages (w : MiningHeaderWork) : list (list byte) :=
  mw_hashing_blob w :: mp_serialized (mw_miner_tx_prefix w) ::
  tree_messages (mp_hash (mw_miner_tx_prefix w) :: tt_hashes (mw_tx_hashes w)).

Lemma collision_free_incl ms ms' : ms ⊆ ms' → collision_free ms' → collision_free ms.
Proof. intros Hs Hc x y Hx Hy. apply Hc; by apply Hs. Qed.

Lemma hash_pair_binds ms a b c d :
  collision_free ms → pair_message a b ∈ ms → pair_message c d ∈ ms →
  hash_pair a b = hash_pair c d → a = c ∧ b = d.
Proof.
  intros Hc H1 H2 E. specialize (Hc _ _ H1 H2 E). unfold pair_message in Hc.
  apply app_inj_1 in Hc as [E1 E2]; [|by rewrite !length_vec_to_list].
  by apply vec_to_list_inj2 in E1, E2.
Qed.

Lemma pairs_bind ms n : ∀ l1 l2,
  length l1 = (2 * n)%nat → length l2 = (2 * n)%nat → collision_free ms →
  pairs_messages l1 ⊆ ms → pairs_messages l2 ⊆ ms → pairs l1 = pairs l2 → l1 = l2.
Proof.
  induction n as [|n IH]; intros l1 l2 H1 H2 Hc M1 M2 E.
  { apply nil_length_inv in H1, H2. by subst. }
  destruct l1 as [|a [|b l1]], l2 as [|c [|d l2]]; simpl in H1, H2; try lia.
  cbn [pairs pairs_messages] in *. injection E as E1 E2.
  destruct (hash_pair_binds ms a b c d Hc) as [-> ->]; [apply M1; left|apply M2; left|done|].
  rewrite (IH l1 l2); try done; try lia; intros x Hx; [apply M1|apply M2]; by right.
Qed.

Lemma merkle_binds ms k : ∀ l1 l2,
  length l1 = (2 ^ k)%nat → length l2 = (2 ^ k)%nat → collision_free ms →
  merkle_messages k l1 ⊆ ms → merkle_messages k l2 ⊆ ms → merkle k l1 = merkle k l2 → l1 = l2.
Proof.
  induction k as [|k IH]; intros l1 l2 H1 H2 Hc M1 M2 E.
  { destruct l1 as [|a [|]], l2 as [|b [|]]; simpl in H1, H2; try lia.
    change (a = b) in E. by subst. }
  cbn [merkle merkle_messages] in *. simpl in H1, H2.
  destruct (hash_pair_binds ms _ _ _ _ Hc ltac:(apply M1; left) ltac:(apply M2; left) E) as [E1 E2].
  rewrite <-(take_drop (2 ^ k) l1), <-(take_drop (2 ^ k) l2).
  f_equal; apply IH; try done; rewrite ?length_take, ?length_drop; try lia;
    intros x Hx;
    first [apply M1; rewrite elem_of_cons, elem_of_app; by auto
          |apply M2; rewrite elem_of_cons, elem_of_app; by auto].
Qed.

Lemma length_tree_leaves l :
  (2 ≤ length l)%nat → length (tree_leaves l) = (2 ^ Nat.log2 (length l - 1))%nat.
Proof.
  intros Hl. pose proof (Nat.log2_spec (length l - 1) ltac:(lia)) as [HA HB].
  unfold tree_leaves. set (k := Nat.log2 (length l - 1)) in *.
  assert (2 ^ S k = 2 * 2 ^ k)%nat as Epow by done.
  set (direct := (2 * 2 ^ k - length l)%nat).
  rewrite length_app, length_take, (length_pairs (2 ^ k - direct)); [lia|].
  rewrite length_drop. lia.
Qed.

Lemma tree_root_binds ms l1 l2 :
  length l1 = length l2 → collision_free ms → tree_messages l1 ⊆ ms → tree_messages l2 ⊆ ms →
  tree_root l1 = tree_root l2 → l1 = l2.
Proof.
  intros Hl Hc M1 M2 E.
  destruct (decide (length l1 < 2)%nat) as [Hs|Hs].
  { destruct l1 as [|a [|b l1]], l2 as [|c [|d l2]]; simpl in *; try lia; [done|by subst]. }
  assert (∀ l, (2 ≤ length l)%nat →
    tree_root l = merkle (Nat.log2 (length l - 1)) (tree_leaves l)) as Hroot
    by (intros [|a [|b l]] ?; simpl in *; [lia|lia|done]).
  rewrite !Hroot in E by lia. unfold tree_messages in M1, M2. rewrite <-Hl in *.
  pose proof (length_tree_leaves l1 ltac:(lia)) as L1.
  pose proof (length_tree_leaves l2 ltac:(lia)) as L2. rewrite <-Hl in L2.
  pose proof (Nat.log2_spec (length l1 - 1) ltac:(lia)) as [HA HB].
  apply (merkle_binds ms) in E; try done;
    [|intros x Hx; apply M1; apply elem_of_app; auto|intros x Hx; apply M2; apply elem_of_app; auto].
  unfold tree_leaves in E. rewrite <-Hl in E.
  set (k := Nat.log2 (length l1 - 1)) in *. set (direct := (2 * 2 ^ k - length l1)%nat) in *.
  assert (2 ^ S k = 2 * 2 ^ k)%nat as Epow by done.
  apply app_inj_1 in E as [E1 E2]; [|rewrite !length_take; lia].
  apply (pairs_bind ms (2 ^ k - direct)) in E2; try done.
  - rewrite <-(take_drop direct l1), <-(take_drop direct l2). by f_equal.
  - rewrite length_drop. lia.
  - rewrite length_drop. lia.
  - intros x Hx. apply M1, elem_of_app. by left.
  - intros x Hx. apply M2, elem_of_app. by left.
Qed.

Lemma derive_work_ok b w :
  derive_mining_header_work b = Ok w →
  let hashes := mp_hash (mw_miner_tx_prefix w) :: tt_hashes (mw_tx_hashes w) in
  parse_pow_block_header b = Ok (mw_block_header w) ∧
  mp_hash (mw_miner_tx_prefix w) = cn_fast_hash (mp_serialized (mw_miner_tx_prefix w)) ∧
  is_u64 (Z.of_nat (length hashes)) ∧
  mw_tx_tree_root w = tree_root hashes ∧
  mw_hashing_blob w = bh_serialized (mw_block_header w) ++ vec_to_list (mw_tx_tree_root w) ++
                      varint_bytes (Z.of_nat (length hashes)) ∧
  mw_header_hash w = cn_fast_hash (mw_hashing_blob w).
Proof.
  unfold derive_mining_header_work. intros H. apply res_bind_ok in H as (h & Hh & H).
  apply res_bind_ok in H as (m & Hm & H). apply res_bind_ok in H as (t & Ht & H).
  apply res_bind_ok in H as (blob & Hb & H). injection H as <-. cbv zeta.
  cbn [mw_miner_tx_prefix mw_tx_hashes mw_block_header mw_tx_tree_root mw_hashing_blob mw_header_hash].
  unfold make_hashing_blob in Hb. apply res_bind_ok in Hb as (_ & Hc%throw_if_ok & Hb).
  bool_prop. injection Hb as <-. rewrite Nat.add_1_r in *.
  split; [done|]. split.
  { unfold parse_hf6_miner_tx_prefix in Hm. apply res_bind_ok in Hm as ([[[[[? ?] ?] ?] ?] ?] & _ & Hm).
    by injection Hm as <-. }
  assert (Z.of_nat (S (length (tt_hashes t))) ≤ u64_max) as Hmax by lia.
  split; [unfold is_u64; simpl length; lia|].
  split; [by apply transaction_tree_hash_root|].
  split; [|done]. rewrite append_varint_bytes. by rewrite <-app_assoc.
Qed.

(** C28: the mining header commits to the block template.  If two block blobs have
    the same mining header hash, and no two of the messages hashed to derive the
    two headers collide, the blobs have the same block header up to the nonce,
    the same coinbase prefix and the same transactions in the same order. *)
Theorem mining_header_commits : ∀ b1 b2 w1 w2,
  derive_mining_header_work b1 = Ok w1 → derive_mining_header_work b2 = Ok w2 →
  collision_free (work_messages w1 ++ work_messages w2) →
  mw_header_hash w1 = mw_header_hash w2 →
  bh_serialized (mw_block_header w1) = bh_serialized (mw_block_header w2) ∧
  mp_serialized (mw_miner_tx_prefix w1) = mp_serialized (mw_miner_tx_prefix w2) ∧
  tt_hashes (mw_tx_hashes w1) = tt_hashes (mw_tx_hashes w2).
Proof.
  intros b1 b2 w1 w2 H1 H2 Hc E.
  destruct (derive_work_ok _ _ H1) as (P1 & M1 & U1 & R1 & B1 & K1).
  destruct (derive_work_ok _ _ H2) as (P2 & M2 & U2 & R2 & B2 & K2).
  rewrite K1, K2 in E. apply Hc in E;
    [|apply elem_of_app; left; left|apply elem_of_app; right; left].
  rewrite B1, B2 in E. destruct (header_prefix_free _ _ _ _ _ _ P1 P2 E) as [Eh E'].
  split; [done|]. apply app_inj_1 in E' as [Er Ev]; [|by rewrite !length_vec_to_list].
  apply vec_to_list_inj2 in Er. apply varint_bytes_inj, Nat2Z.inj in Ev; [|done|done].
  rewrite R1, R2 in Er. apply (tree_root_binds (work_messages w1 ++ work_messages w2)) in Er;
    [|done|done|intros x Hx; apply elem_of_app; left; by do 2 right
     |intros x Hx; apply elem_of_app; right; by do 2 right].
  injection Er as Em Et. split; [|done]. rewrite M1, M2 in Em.
  apply Hc in Em; [done|apply elem_of_app; left; right; left|apply elem_of_app; right; right; left].
Qed.

(** The transaction tree.  The in-place folding with the bit trick for the
    width computes the recursive CryptoNote tree: the largest power of two below
    the number of hashes is the number of leaves, the hashes that do not fit are
    paired at the end, and the leaves are hashed pairwise to the root. *)
Theorem tree_hash_is_recursive_tree : ∀ miner_tx_hash hashes,
  Z.of_nat (S (length hashes)) ≤ u64_max →
  transaction_tree_hash miner_tx_hash hashes = tree_root (miner_tx_hash :: hashes) ∧
  ((2 ≤ S (length hashes))%nat →
   tree_width (Z.of_nat (S (length hashes))) =
     Z.of_nat (length (tree_leaves (miner_tx_hash :: hashes)))).
Proof.
  intros h hs Hl. split; [by apply transaction_tree_hash_root|]. intros H2.
  rewrite length_tree_leaves by (simpl; lia). rewrite tree_width_spec by lia.
  cbn [length]. rewrite Nat2Z.inj_pow. f_equal.
  rewrite <-(Nat2Z.inj_sub _ 1) by lia.
  pose proof (Nat.log2_spec (S (length hs) - 1) ltac:(lia)) as [A B].
  apply Z.log2_unique; [lia|]. rewrite <-(Nat2Z.inj_succ (Nat.log2 _)).
  change 2 with (Z.of_nat 2). rewrite <-!Nat2Z.inj_pow. lia.
Qed.

(** ** A concrete block template *)

Definition demo_key : list byte := replicate 32 Byte.x07.
Definition demo_keys (n : nat) : list byte := byte_of_Z (Z.of_nat n) :: concat (replicate n demo_key).

Definition demo_block (nonce : byte) : list byte :=
  [Byte.x03; nonce] ++ replicate 7 Byte.x00 ++ vec_to_list (fill_be 32 77) ++
  [Byte.x00] ++ varint_bytes 1700000000 ++ [Byte.x00] ++
  [Byte.x04; Byte.x01; Byte.x00] ++ varint_bytes 3000000 ++ [Byte.x00; Byte.x00; Byte.x06] ++
  [Byte.x00; Byte.x00; Byte.x02; Byte.x2f] ++ demo_keys 7 ++ demo_keys 7 ++
  concat (replicate 6 demo_key) ++ demo_keys 2 ++ demo_keys 2 ++ demo_keys 2 ++ demo_key ++
  [Byte.x30] ++ concat (replicate 3 demo_key) ++ [Byte.x00].

Definition demo_work : MiningHeaderWork :=
  Eval vm_compute in
    match derive_mining_header_work (demo_block Byte.x00) with
    | Ok w => w
    | Throw _ => mkWork (mkBlockHeader 0 []) (mkMinerTxPrefix 0 0 0 0 0 0 [] (arr_zero 32))
                   (mkTrailer 0 0 []) (arr_zero 32) [] (arr_zero 32)
    end.

Lemma demo_work_ok : derive_mining_header_work (demo_block Byte.x00) = Ok demo_work.
Proof. vm_compute. reflexivity. Qed.
Lemma demo_work_nonce : derive_mining_header_work (demo_block Byte.x01) = Ok demo_work.
Proof. vm_compute. reflexivity. Qed.

Lemma demo_work_messages : work_messages demo_work =
  [mw_hashing_blob demo_work; mp_serialized (mw_miner_tx_prefix demo_work)].
Proof. vm_compute. reflexivity. Qed.

(** Two messages with different hashes. *)
Lemma collision_free_pair x y :
  cn_fast_hash x ≠ cn_fast_hash y → collision_free ([x; y] ++ [x; y]).
Proof. intros Hne a b Ha Hb E. set_unfold. naive_solver congruence. Qed.

Lemma demo_work_collision_free : collision_free (work_messages demo_work ++ work_messages demo_work).
Proof.
  destruct (derive_work_ok _ _ demo_work_ok) as (_ & Hm & _ & _ & _ & Hh).
  rewrite demo_work_messages. apply collision_free_pair. rewrite <-Hh, <-Hm.
  apply arr_eqb_false. vm_compute. reflexivity.
Qed.

(** Changing the nonce does not change the header that is mined on. *)
Lemma mining_header_commits_witness :
  demo_block Byte.x00 ≠ demo_block Byte.x01 ∧
  bh_serialized (mw_block_header demo_work) = bh_serialized (mw_block_header demo_work).
Proof.
  split; [discriminate|].
  exact (proj1 (mining_header_commits _ _ _ _ demo_work_ok demo_work_nonce
    demo_work_collision_free eq_refl)).
Defined.

Lemma tree_hash_witness :
  transaction_tree_hash (fill_be 32 1) [fill_be 32 2; fill_be 32 3; fill_be 32 4; fill_be 32 5] =
  tree_root [fill_be 32 1; fill_be 32 2; fill_be 32 3; fill_be 32 4; fill_be 32 5].
Proof.
  exact (proj1 (tree_hash_is_recursive_tree (fill_be 32 1)
    [fill_be 32 2; fill_be 32 3; fill_be 32 4; fill_be 32 5] ltac:(unfold u64_max; simpl; lia))).
Defined.
