(* ===== verification/BlockTemplate.v ===== *)
(** The block template of the Zano daemon:
    [include/zano_p2pool/block_template.hpp], [src/block_template.cpp].  The JSON
    library is a parameter: [JsonC] gives json-c's tokener and its printer. *)
From S2P Require Import Prelude.

Abbreviation text := (list Ascii.ascii).

(** What [json_object] values the code distinguishes.  A JSON [null] is the null
    pointer; an object is the list of its members, keys being distinct. *)
Inductive json :=
| JNull
| JBoolean (b : bool)
| JInt (z : Z)
| JDouble
| JString (s : text)
| JArray (l : list json)
| JObject (members : list (string * json)).

(** The outcome of [json_tokener_parse_ex]: the error code is success or not,
    its description, and the root, [JNull] standing for the null pointer. *)
Record json_parsed := mkParsed { jp_success : bool; jp_error_desc : string; jp_root : json }.

Class JsonC := {
  json_tokener_parse : text → json_parsed;
  json_to_string_plain : json → text }.

(** [json_object_object_get_ex]. *)
Fixpoint json_member (name : string) (members : list (string * json)) : option json :=
  match members with
  | [] => None
  | (key, value) :: rest => if String.eqb key name then Some value else json_member name rest
  end.
Definition json_get (object : json) (name : string) : option json :=
  match object with JObject members => json_member name members | _ => None end.

(** [std::string s = const char*]: up to the first NUL. *)
Fixpoint c_str (s : text) : text :=
  match s with
  | [] => []
  | c :: s => if char_Z c =? 0 then [] else c :: c_str s
  end.

Definition json_is_null (v : json) : bool := match v with JNull => true | _ => false end.

(** [json_object_get_uint64] of a [json_type_int]: negative numbers give 0. *)
Definition json_uint64 (z : Z) : Z := Z.max 0 (Z.min z u64_max).

Definition is_space (c : Ascii.ascii) : bool :=
  let z := char_Z c in (z =? 32) || ((9 <=? z) && (z <=? 13)).
Definition is_digit (c : Ascii.ascii) : bool := (48 <=? char_Z c) && (char_Z c <=? 57).

Fixpoint skip_space (s : text) : text :=
  match s with c :: r => if is_space c then skip_space r else s | [] => [] end.
Fixpoint digits_value (s : text) (acc : Z) : Z :=
  match s with c :: r => if is_digit c then digits_value r (acc * 10 + (char_Z c - 48)) else acc
             | [] => acc end.

(** [std::stoull]: leading blanks, a sign, then at least one digit; the rest is
    ignored, and a minus sign negates modulo 2^64. *)
Definition stoull (s : text) : res Z :=
  let s := skip_space s in
  let '(negative, s) :=
    match s with
    | c :: r => if char_Z c =? 45 then (true, r) else if char_Z c =? 43 then (false, r)
                else (false, s)
    | [] => (false, [])
    end in
  match s with
  | c :: _ =>
      if is_digit c then
        let value := digits_value s 0 in
        if u64_max <? value then throw OutOfRange "stoull"
        else Ok (if negative then wrap64 (- value) else value)
      else throw InvalidArgument "stoull"
  | [] => throw InvalidArgument "stoull"
  end.

(** ** The fields *)

Definition required_field (object : json) (name : string) : res json :=
  match json_get object name with
  | Some value =>
      if json_is_null value then throw RuntimeError ("missing JSON field: " +:+ name) else Ok value
  | None => throw RuntimeError ("missing JSON field: " +:+ name)
  end.

Definition required_string (object : json) (name : string) : res text :=
  (value ← required_field object name;
  match value with
  | JString s => Ok (c_str s)
  | _ => throw RuntimeError ("JSON field is not a string: " +:+ name)
  end)%stdpp.

Definition optional_object_json `{!JsonC} (object : json) (name : string) : res text :=
  match json_get object name with
  | None | Some JNull => Ok []
  | Some (JObject members) => Ok (c_str (json_to_string_plain (JObject members)))
  | Some _ => throw RuntimeError ("JSON field is not an object: " +:+ name)
  end.

Definition required_integer_string (object : json) (name : string) : res text :=
  (value ← required_field object name;
  match value with
  | JString s => Ok (c_str s)
  | JInt z => Ok (dec_str (json_uint64 z))
  | _ => throw RuntimeError ("JSON field is not an integer/string: " +:+ name)
  end)%stdpp.

Definition required_u64 (object : json) (name : string) : res Z :=
  (value ← required_field object name;
  match value with
  | JInt z => Ok (json_uint64 z)
  | JString s =>
      match stoull (c_str s) with
      | Ok v => Ok v
      | Throw _ => throw RuntimeError ("invalid uint64 JSON field: " +:+ name)
      end
  | _ => throw RuntimeError ("JSON field is not uint64: " +:+ name)
  end)%stdpp.

Record BlockTemplate := mkTemplate {
  bt_block_reward : Z;
  bt_block_reward_without_fee : Z;
  bt_blocktemplate_blob : text;
  bt_difficulty : text;
  bt_height : Z;
  bt_miner_tx_tgc_json : text;
  bt_prev_hash : text;
  bt_seed : text;
  bt_status : text;
  bt_txs_fee : Z }.

Definition blob_bytes (t : BlockTemplate) : nat := Nat.div (length (bt_blocktemplate_blob t)) 2.

Definition parse_block_template_json `{!JsonC} (json_text : text) : res BlockTemplate :=
  (let parsed := json_tokener_parse json_text in
  let root := jp_root parsed in
  _ ← throw_if (negb (jp_success parsed) || json_is_null root) RuntimeError
        ("invalid block template JSON: " +:+ jp_error_desc parsed);
  _ ← throw_if (match root with JObject _ => false | _ => true end) RuntimeError
        "block template result is not a JSON object";
  block_reward ← required_u64 root "block_reward";
  block_reward_without_fee ← required_u64 root "block_reward_without_fee";
  blocktemplate_blob ← required_string root "blocktemplate_blob";
  difficulty ← required_integer_string root "difficulty";
  height ← required_u64 root "height";
  miner_tx_tgc_json ← optional_object_json root "miner_tx_tgc";
  prev_hash ← required_string root "prev_hash";
  seed ← required_string root "seed";
  status ← required_string root "status";
  txs_fee ← required_u64 root "txs_fee";
  _ ← throw_if (negb (bool_decide (status = String.list_ascii_of_string "OK"))) RuntimeError
        ("getblocktemplate returned non-OK status: " +:+ String.string_of_list_ascii status);
  _ ← throw_if (bool_decide (blocktemplate_blob = []) ||
        negb (Nat.even (length blocktemplate_blob))) RuntimeError
        "invalid blocktemplate_blob hex length";
  _ ← throw_if (negb (length prev_hash =? 64)%nat) RuntimeError "invalid prev_hash length";
  _ ← throw_if (negb (length seed =? 64)%nat) RuntimeError "invalid ProgPoWZ seed length";
  mret (mkTemplate block_reward block_reward_without_fee blocktemplate_blob difficulty height
          miner_tx_tgc_json prev_hash seed status txs_fee))%stdpp.

(** ** What a parsed template satisfies *)

Lemma digits_value_mono s : ∀ acc, 0 ≤ acc → acc ≤ digits_value s acc.
Proof.
  induction s as [|c s IH]; intros acc Ha; cbn [digits_value]; [lia|].
  unfold is_digit. destruct (Z.leb_spec 48 (char_Z c)); [|simpl; lia].
  destruct (Z.leb_spec (char_Z c) 57); simpl; [|lia].
  etransitivity; [|apply IH]; lia.
Qed.

Lemma stoull_u64 s v : stoull s = Ok v → is_u64 v.
Proof.
  unfold stoull. intros H.
  destruct (match skip_space s with c :: r => _ | [] => _ end) as [neg t].
  destruct t as [|c t]; [done|]. destruct (is_digit c); [|done].
  pose proof (digits_value_mono (c :: t) 0 ltac:(lia)) as Hm. cbv zeta in H.
  revert Hm H. generalize (digits_value (c :: t) 0). intros x Hm H.
  destruct (Z.ltb_spec u64_max x); [done|].
  injection H as <-. unfold is_u64. destruct neg; [|lia].
  unfold wrap64, u64_max. pose proof (Z.mod_pos_bound (- x) 18446744073709551616 ltac:(lia)). lia.
Qed.

Lemma required_u64_range o name v : required_u64 o name = Ok v → is_u64 v.
Proof.
  unfold required_u64. intros H. apply res_bind_ok in H as (j & _ & H).
  destruct j; try done.
  - injection H as <-. unfold is_u64, json_uint64, u64_max. lia.
  - destruct (stoull (c_str s)) eqn:E; [|done]. injection H as <-. by eapply stoull_u64.
Qed.

(** The machine-width and length facts that the users of a template rely on. *)
Record template_ok (t : BlockTemplate) : Prop := {
  tk_reward : is_u64 (bt_block_reward t);
  tk_base : is_u64 (bt_block_reward_without_fee t);
  tk_height : is_u64 (bt_height t);
  tk_fee : is_u64 (bt_txs_fee t);
  tk_blob : length (bt_blocktemplate_blob t) = (2 * blob_bytes t)%nat ∧ blob_bytes t ≠ 0%nat;
  tk_prev : length (bt_prev_hash t) = 64%nat;
  tk_seed : length (bt_seed t) = 64%nat;
  tk_status : bt_status t = String.list_ascii_of_string "OK" }.

Lemma parse_block_template_ok `{!JsonC} s t :
  parse_block_template_json s = Ok t → template_ok t.
Proof.
  unfold parse_block_template_json. cbv zeta. intros Hp.
  repeat (apply res_bind_ok in Hp as (? & ? & Hp)). injection Hp as <-.
  repeat match goal with
  | E : throw_if _ _ _ = Ok _ |- _ => apply throw_if_ok in E
  | E : required_u64 _ _ = Ok _ |- _ => apply required_u64_range in E
  end.
  bool_prop. repeat match goal with E : negb _ = false |- _ => apply negb_false_iff in E end.
  repeat match goal with E : (_ =? _)%nat = true |- _ => apply Nat.eqb_eq in E end.
  assert (∀ n, Nat.even n = true → n = 2 * Nat.div n 2)%nat as Hhalf.
  { intros n [m ->]%Nat.even_spec. rewrite (Nat.mul_comm 2 m), Nat.div_mul by lia. lia. }
  match goal with E : Nat.even (length ?b) = true, Hb : ?b ≠ [] |- _ =>
    pose proof (Hhalf _ E) as He; assert (length b ≠ 0%nat) by (by intros ?%nil_length_inv) end.
  split; cbn [bt_block_reward bt_block_reward_without_fee bt_height bt_txs_fee bt_prev_hash bt_seed
    bt_status]; try done.
  unfold blob_bytes. cbn [bt_blocktemplate_blob]. split; [done|lia].
Qed.
