(* ===== verification/MiningContext.v ===== *)
(** Mining contexts proposed by peers:
    [include/zano_p2pool/p2p_mining_context.hpp], [src/p2p_mining_context.cpp]. *)
From S2P Require Import Prelude CryptoHash PowTarget Share SidechainParams P2pProtocol P2pShare.
From S2P Require Import MiningHeader BlockTemplate.

Definition kP2pMiningContextVersion1 : Z := 1.
Definition kP2pMiningContextFixedPayloadSize : nat := 121.

Record P2pMiningAnchor := mkAnchor {
  an_zano_height : Z;
  an_prev_hash : Hash256;
  an_network_difficulty : Difficulty128;
  an_seed : Hash256;
  an_block_reward_without_fee : Z }.

Record P2pMiningContextProposal := mkProposal {
  pp_version : Z;
  pp_zano_height : Z;
  pp_prev_hash : Hash256;
  pp_network_difficulty : Difficulty128;
  pp_seed : Hash256;
  pp_block_reward_without_fee : Z;
  pp_block_reward : Z;
  pp_txs_fee : Z;
  pp_block_template_blob : list byte;
  pp_miner_tx_tgc_json : text }.

Inductive P2pMiningContextCheckStatus :=
| AnchoredUnverifiedMinerTx | ContextCapabilityMissing | AnchorMismatch.
#[export] Instance P2pMiningContextCheckStatus_eq_dec : EqDecision P2pMiningContextCheckStatus.
Proof. solve_decision. Defined.

Record P2pMiningContextCheckResult := mkCheck {
  ck_status : P2pMiningContextCheckStatus;
  ck_proposal_id : Hash256;
  ck_mining_header_hash : Hash256;
  ck_regular_transaction_count : Z }.

(** [std::string] and [std::vector<std::uint8_t>] hold the same bytes. *)
Definition text_bytes (s : text) : list byte := Ascii.byte_of_ascii <$> s.
Definition bytes_text (l : list byte) : text := Ascii.ascii_of_byte <$> l.

Definition mc_read_u32_be := read_be 4 "truncated P2P mining-context uint32".
Definition mc_read_u64_be := read_be 8 "truncated P2P mining-context uint64".

Fixpoint mc_read_varint_loop (iterations : nat) (bytes : list byte) (start offset : nat)
    (value shift : Z) : res (Z * nat) :=
  match iterations with
  | O => throw RuntimeError "Zano varint too long in mining context"
  | S iterations =>
      (_ ← throw_if (length bytes <=? offset)%nat RuntimeError
            "truncated Zano varint in mining context";
      let byte := byte_to_Z (bytes !!! offset) in
      let offset := S offset in
      _ ← throw_if ((shift =? 63) && negb (Z.land byte 126 =? 0)) RuntimeError
            "Zano varint overflows uint64 in mining context";
      let value := Z.lor value (wrap64 (Z.shiftl (Z.land byte 127) shift)) in
      if Z.land byte 128 =? 0 then
        _ ← throw_if (negb (offset - start =? encoded_varint_size value)%nat) RuntimeError
              "non-canonical Zano varint in mining context";
        mret (value, offset)
      else mc_read_varint_loop iterations bytes start offset value (shift + 7))%stdpp
  end.
Definition mc_read_varint (bytes : list byte) (offset : nat) : res (Z * nat) :=
  mc_read_varint_loop 10 bytes offset offset 0 0.

Definition hash_from_hex32 (hex : text) (field_name : string) : res Hash256 :=
  (bytes ← hex_to_bytes hex;
  _ ← throw_if (negb (length bytes =? 32)%nat) RuntimeError
        ("invalid 32-byte hex field: " +:+ field_name);
  mret (arr_of 32 bytes))%stdpp.

Definition is_xdigit (c : Ascii.ascii) : bool :=
  let z := char_Z c in
  is_digit c || ((97 <=? z) && (z <=? 102)) || ((65 <=? z) && (z <=? 70)).

Section Json.
Context `{!JsonC}.

Definition require_valid_tgc_json (json_text : text) : res () :=
  (_ ← throw_if (bool_decide (json_text = [])) RuntimeError
        "P2P mining context has empty miner_tx_tgc";
  let parsed := json_tokener_parse json_text in
  _ ← throw_if (negb (jp_success parsed) ||
        match jp_root parsed with JObject _ => false | _ => true end) RuntimeError
        "invalid P2P miner_tx_tgc JSON object";
  match json_get (jp_root parsed) "tx_key" with
  | Some (JString s) =>
      let key := c_str s in
      throw_if (bool_decide (key = []) || negb (Nat.even (length key)) ||
                negb (forallb is_xdigit key)) RuntimeError
        "P2P miner_tx_tgc tx_key is not non-empty hex"
  | _ => throw RuntimeError "P2P miner_tx_tgc has no string tx_key"
  end)%stdpp.

(** [kP2pMaxPayloadSize - kP2pMiningContextFixedPayloadSize]. *)
Definition max_variable_size : Z := kP2pMaxPayloadSize - Z.of_nat kP2pMiningContextFixedPayloadSize.

Definition require_proposal_serializable (p : P2pMiningContextProposal) : res () :=
  (_ ← throw_if (negb (pp_version p =? kP2pMiningContextVersion1)) RuntimeError
        "unsupported P2P mining-context version";
  _ ← throw_if (difficulty128_is_zero (pp_network_difficulty p)) RuntimeError
        "P2P mining context has zero network difficulty";
  _ ← throw_if (bool_decide (pp_block_template_blob p = [])) RuntimeError
        "P2P mining context has empty block template";
  _ ← require_valid_tgc_json (pp_miner_tx_tgc_json p);
  let blob_size := Z.of_nat (length (pp_block_template_blob p)) in
  let tgc_size := Z.of_nat (length (pp_miner_tx_tgc_json p)) in
  _ ← throw_if (max_variable_size <? blob_size) RuntimeError
        "P2P mining-context block blob is too large";
  _ ← throw_if (max_variable_size - blob_size <? tgc_size) RuntimeError
        "P2P mining-context payload exceeds maximum size";
  throw_if ((u32_max <? blob_size) || (u32_max <? tgc_size)) RuntimeError
    "P2P mining-context component exceeds uint32")%stdpp.

Definition anchor_matches (p : P2pMiningContextProposal) (anchor : P2pMiningAnchor) : bool :=
  (pp_zano_height p =? an_zano_height anchor) &&
  arr_eqb (pp_prev_hash p) (an_prev_hash anchor) &&
  arr_eqb (pp_network_difficulty p) (an_network_difficulty anchor) &&
  arr_eqb (pp_seed p) (an_seed anchor) &&
  (pp_block_reward_without_fee p =? an_block_reward_without_fee anchor).

Definition require_current_hf6_structural_bindings (p : P2pMiningContextProposal)
    (work : MiningHeaderWork) : res () :=
  (let blob := pp_block_template_blob p in
  _ ← throw_if (length blob <? 42)%nat RuntimeError "P2P mining-context block blob is too short";
  _ ← throw_if (negb (all_zero (take 8 (drop 1 blob)))) RuntimeError
        "P2P mining-context template nonce is not zero";
  _ ← throw_if (negb (arr_eqb (copy_n 32 blob 9) (pp_prev_hash p))) RuntimeError
        "P2P mining-context block previous hash does not match metadata";
  '(_, header_pos) ← mc_read_varint blob 41;
  '(_, header_pos) ← mc_read_varint blob header_pos;
  _ ← throw_if (length blob <=? header_pos)%nat RuntimeError
        "truncated P2P mining-context block flags";
  let flags := byte_to_Z (blob !!! header_pos) in
  let header_pos := S header_pos in
  _ ← throw_if (negb (flags =? 0)) RuntimeError
        "P2P mining context is not a PoW block template";
  _ ← throw_if (negb (header_pos =? bh_serialized_size (mw_block_header work))%nat) RuntimeError
        "P2P mining-context header boundary mismatch";
  _ ← throw_if (negb (mp_version (mw_miner_tx_prefix work) =? 4) ||
        negb (mp_hardfork_id (mw_miner_tx_prefix work) =? 6)) RuntimeError
        "unsupported P2P mining-context miner transaction";
  '(tx_version, tx_pos) ← mc_read_varint blob (bh_serialized_size (mw_block_header work));
  '(vin_count, tx_pos) ← mc_read_varint blob tx_pos;
  _ ← throw_if (negb (tx_version =? 4) || negb (vin_count =? 1) || (length blob <=? tx_pos)%nat)
        RuntimeError "invalid current P2P mining-context coinbase inputs";
  let input_tag := byte_to_Z (blob !!! tx_pos) in
  let tx_pos := S tx_pos in
  _ ← throw_if (negb (input_tag =? 0)) RuntimeError
        "P2P mining-context coinbase is not txin_gen";
  '(miner_height, _) ← mc_read_varint blob tx_pos;
  throw_if (negb (miner_height =? pp_zano_height p)) RuntimeError
    "P2P mining-context coinbase height mismatch")%stdpp.

Definition p2p_mining_anchor_from_template (t : BlockTemplate) : res P2pMiningAnchor :=
  (prev_hash ← hash_from_hex32 (bt_prev_hash t) "prev_hash";
  network_difficulty ← difficulty128_from_decimal (bt_difficulty t);
  seed ← hash_from_hex32 (bt_seed t) "seed";
  mret (mkAnchor (bt_height t) prev_hash network_difficulty seed
          (bt_block_reward_without_fee t)))%stdpp.

Definition p2p_mining_context_proposal_from_template (t : BlockTemplate)
    : res P2pMiningContextProposal :=
  (prev_hash ← hash_from_hex32 (bt_prev_hash t) "prev_hash";
  network_difficulty ← difficulty128_from_decimal (bt_difficulty t);
  seed ← hash_from_hex32 (bt_seed t) "seed";
  block_template_blob ← hex_to_bytes (bt_blocktemplate_blob t);
  let proposal :=
    mkProposal kP2pMiningContextVersion1 (bt_height t) prev_hash network_difficulty seed
      (bt_block_reward_without_fee t) (bt_block_reward t) (bt_txs_fee t) block_template_blob
      (bt_miner_tx_tgc_json t) in
  _ ← require_proposal_serializable proposal;
  mret proposal)%stdpp.

Definition serialize_p2p_mining_context_payload (p : P2pMiningContextProposal)
    : res (list byte) :=
  (_ ← require_proposal_serializable p;
  let out := [byte_of_Z (pp_version p)] in
  let out := append_u64_be out (pp_zano_height p) in
  let out := append_array out (pp_prev_hash p) in
  let out := append_array out (pp_network_difficulty p) in
  let out := append_array out (pp_seed p) in
  let out := append_u64_be out (pp_block_reward_without_fee p) in
  let out := append_u64_be out (pp_block_reward p) in
  let out := append_u64_be out (pp_txs_fee p) in
  let out := append_u32_be out (Z.of_nat (length (pp_block_template_blob p))) in
  let out := append_u32_be out (Z.of_nat (length (pp_miner_tx_tgc_json p))) in
  let out := out ++ pp_block_template_blob p in
  let out := out ++ text_bytes (pp_miner_tx_tgc_json p) in
  _ ← throw_if (kP2pMaxPayloadSize <? Z.of_nat (length out)) RuntimeError
        "internal P2P mining-context size mismatch";
  mret out)%stdpp.

Definition deserialize_p2p_mining_context_payload (payload : list byte)
    : res P2pMiningContextProposal :=
  (_ ← throw_if ((length payload <? kP2pMiningContextFixedPayloadSize)%nat ||
        (kP2pMaxPayloadSize <? Z.of_nat (length payload))) RuntimeError
        "invalid P2P mining-context payload size";
  let version := byte_to_Z (payload !!! 0%nat) in
  let offset := 1%nat in
  _ ← throw_if (negb (version =? kP2pMiningContextVersion1)) RuntimeError
        "unsupported P2P mining-context version";
  zano_height ← mc_read_u64_be payload offset;
  let offset := (offset + 8)%nat in
  let prev_hash := copy_n 32 payload offset in
  let offset := (offset + 32)%nat in
  let network_difficulty := copy_n 16 payload offset in
  let offset := (offset + 16)%nat in
  let seed := copy_n 32 payload offset in
  let offset := (offset + 32)%nat in
  block_reward_without_fee ← mc_read_u64_be payload offset;
  let offset := (offset + 8)%nat in
  block_reward ← mc_read_u64_be payload offset;
  let offset := (offset + 8)%nat in
  txs_fee ← mc_read_u64_be payload offset;
  let offset := (offset + 8)%nat in
  block_blob_size ← mc_read_u32_be payload offset;
  let offset := (offset + 4)%nat in
  tgc_size ← mc_read_u32_be payload offset;
  let offset := (offset + 4)%nat in
  _ ← throw_if (negb (block_blob_size + tgc_size =? Z.of_nat (length payload - offset)))
        RuntimeError "P2P mining-context component lengths mismatch";
  let block_template_blob := take (Z.to_nat block_blob_size) (drop offset payload) in
  let offset := (offset + Z.to_nat block_blob_size)%nat in
  let miner_tx_tgc_json := bytes_text (take (Z.to_nat tgc_size) (drop offset payload)) in
  let proposal :=
    mkProposal version zano_height prev_hash network_difficulty seed block_reward_without_fee
      block_reward txs_fee block_template_blob miner_tx_tgc_json in
  _ ← require_proposal_serializable proposal;
  mret proposal)%stdpp.

Definition make_p2p_mining_context_envelope (p : P2pMiningContextProposal) : res P2pEnvelope :=
  (payload ← serialize_p2p_mining_context_payload p;
  mret (mkEnvelope kP2pProtocolVersion MiningContextAnnounce 0 payload))%stdpp.

Definition parse_p2p_mining_context_envelope (e : P2pEnvelope) : res P2pMiningContextProposal :=
  (_ ← require_envelope_type e MiningContextAnnounce
        "P2P envelope is not a mining-context announcement";
  deserialize_p2p_mining_context_payload (env_payload e))%stdpp.

Definition p2p_mining_context_id (p : P2pMiningContextProposal) : res Hash256 :=
  (payload ← serialize_p2p_mining_context_payload p;
  mret (cn_fast_hash payload))%stdpp.

Definition validate_p2p_mining_context_structure (p : P2pMiningContextProposal) : res Hash256 :=
  (work ← derive_mining_header_work (pp_block_template_blob p);
  _ ← require_current_hf6_structural_bindings p work;
  _ ← require_valid_tgc_json (pp_miner_tx_tgc_json p);
  mret (mw_header_hash work))%stdpp.

Definition inspect_p2p_mining_context (peer : P2pHandshake) (envelope : P2pEnvelope)
    (local_anchor : P2pMiningAnchor) : res P2pMiningContextCheckResult :=
  (if Z.land (hs_capabilities peer) kP2pCapabilityMiningContext =? 0
  then mret (mkCheck ContextCapabilityMissing (arr_zero 32) (arr_zero 32) 0)
  else
  proposal ← parse_p2p_mining_context_envelope envelope;
  proposal_id ← p2p_mining_context_id proposal;
  if negb (anchor_matches proposal local_anchor)
  then mret (mkCheck AnchorMismatch proposal_id (arr_zero 32) 0)
  else
  work ← derive_mining_header_work (pp_block_template_blob proposal);
  _ ← require_current_hf6_structural_bindings proposal work;
  _ ← require_valid_tgc_json (pp_miner_tx_tgc_json proposal);
  mret (mkCheck AnchoredUnverifiedMinerTx proposal_id (mw_header_hash work)
          (Z.of_nat (length (tt_hashes (mw_tx_hashes work))))))%stdpp.

End Json.

Definition p2p_mining_context_check_status_name (s : P2pMiningContextCheckStatus) : string :=
  match s with
  | AnchoredUnverifiedMinerTx => "anchored-unverified-miner-tx"
  | ContextCapabilityMissing => "capability-missing"
  | AnchorMismatch => "anchor-mismatch"
  end.

(** ** The payload codec *)

Lemma bytes_text_bytes s : bytes_text (text_bytes s) = s.
Proof.
  unfold bytes_text, text_bytes. rewrite <-list_fmap_compose.
  induction s as [|c s IH]; [done|]. rewrite fmap_cons, IH. f_equal.
  apply Ascii.ascii_of_byte_of_ascii.
Qed.
Lemma text_bytes_text l : text_bytes (bytes_text l) = l.
Proof.
  unfold bytes_text, text_bytes. rewrite <-list_fmap_compose.
  induction l as [|c l IH]; [done|]. rewrite fmap_cons, IH. f_equal.
  apply Ascii.byte_of_ascii_of_byte.
Qed.
Lemma length_text_bytes s : length (text_bytes s) = length s.
Proof. apply length_fmap. Qed.

Record proposal_wf (p : P2pMiningContextProposal) : Prop := {
  pw_height : is_u64 (pp_zano_height p);
  pw_base : is_u64 (pp_block_reward_without_fee p);
  pw_reward : is_u64 (pp_block_reward p);
  pw_fee : is_u64 (pp_txs_fee p) }.

Definition context_layout (p : P2pMiningContextProposal) : list byte :=
  [byte_of_Z (pp_version p)] ++ be_bytes 8 (pp_zano_height p) ++
  vec_to_list (pp_prev_hash p) ++ vec_to_list (pp_network_difficulty p) ++
  vec_to_list (pp_seed p) ++ be_bytes 8 (pp_block_reward_without_fee p) ++
  be_bytes 8 (pp_block_reward p) ++ be_bytes 8 (pp_txs_fee p) ++
  be_bytes 4 (Z.of_nat (length (pp_block_template_blob p))) ++
  be_bytes 4 (Z.of_nat (length (pp_miner_tx_tgc_json p))) ++
  pp_block_template_blob p ++ text_bytes (pp_miner_tx_tgc_json p).

Lemma length_context_layout p :
  length (context_layout p) =
  (121 + length (pp_block_template_blob p) + length (pp_miner_tx_tgc_json p))%nat.
Proof.
  unfold context_layout. rewrite !length_app, !length_vec_to_list, !length_be_bytes,
    length_text_bytes. simpl. lia.
Qed.

Section Codec.
Context `{!JsonC}.

Definition proposal_valid (p : P2pMiningContextProposal) : Prop :=
  require_proposal_serializable p = Ok ().

Lemma proposal_valid_spec p :
  proposal_valid p ↔
  pp_version p = 1 ∧ difficulty128_is_zero (pp_network_difficulty p) = false ∧
  pp_block_template_blob p ≠ [] ∧ require_valid_tgc_json (pp_miner_tx_tgc_json p) = Ok () ∧
  Z.of_nat (length (context_layout p)) ≤ kP2pMaxPayloadSize.
Proof.
  unfold proposal_valid, require_proposal_serializable. cbv zeta.
  rewrite length_context_layout. unfold max_variable_size, kP2pMaxPayloadSize,
    kP2pMiningContextFixedPayloadSize, kP2pMiningContextVersion1. split.
  - intros Hv. apply res_bind_ok in Hv as (_ & E1%throw_if_ok & Hv).
    apply res_bind_ok in Hv as (_ & E2%throw_if_ok & Hv).
    apply res_bind_ok in Hv as (_ & E3%throw_if_ok & Hv).
    apply res_bind_ok in Hv as ([] & E4 & Hv).
    apply res_bind_ok in Hv as (_ & E5%throw_if_ok & Hv).
    apply res_bind_ok in Hv as (_ & E6%throw_if_ok & _). bool_prop.
    do 4 (split; [done|]). lia.
  - intros (-> & -> & Hb & Ht & Hl). cbn [negb throw_if mbind res_bind Z.eqb Pos.eqb].
    rewrite bool_decide_eq_false_2 by done. cbn [throw_if mbind res_bind]. rewrite Ht.
    cbn [mbind res_bind]. rewrite !(proj2 (Z.ltb_ge _ _)) by (unfold u32_max; lia). done.
Qed.

Lemma serialize_context_ok p b :
  serialize_p2p_mining_context_payload p = Ok b ↔ proposal_valid p ∧ b = context_layout p.
Proof.
  unfold serialize_p2p_mining_context_payload, append_u64_be, append_u32_be, append_array. cbv zeta.
  rewrite <-!app_assoc. fold (context_layout p). split.
  - intros Hs. apply res_bind_ok in Hs as ([] & Hv & Hs).
    apply res_bind_ok in Hs as (_ & _ & Hs). by injection Hs as <-.
  - intros [Hv ->]. pose proof Hv as (_ & _ & _ & _ & Hl)%proposal_valid_spec.
    rewrite Hv. cbn [mbind res_bind]. by rewrite (proj2 (Z.ltb_ge _ _)).
Qed.

Lemma deserialize_context_layout p :
  proposal_wf p → proposal_valid p →
  deserialize_p2p_mining_context_payload (context_layout p) = Ok p.
Proof.
  intros [Hh Hb Hr Hf] Hv. pose proof Hv as (Ever & _ & _ & _ & Hl)%proposal_valid_spec.
  unfold deserialize_p2p_mining_context_payload.
  rewrite (proj2 (Nat.ltb_ge _ _)), (proj2 (Z.ltb_ge _ _))
    by (done || (rewrite length_context_layout; unfold kP2pMiningContextFixedPayloadSize; lia)).
  cbn [orb throw_if mbind res_bind]. cbv zeta. rewrite length_context_layout.
  pose proof (length_context_layout p) as HL.
  assert (∀ n z, is_u64 z → n = 8%nat → 0 ≤ z < pow256 n) as H8
    by (intros n z Hz ->; change (pow256 8) with (u64_max + 1); unfold is_u64 in Hz; lia).
  assert (∀ n, Z.of_nat n ≤ kP2pMaxPayloadSize → 0 ≤ Z.of_nat n < pow256 4) as H4
    by (intros n Hn; change (pow256 4) with 4294967296; unfold kP2pMaxPayloadSize in Hn; lia).
  rewrite HL in Hl. unfold context_layout. change (byte_to_Z (([byte_of_Z (pp_version p)] ++ ?x) !!! 0%nat))
    with (byte_to_Z (byte_of_Z (pp_version p))).
  rewrite Ever. change (byte_to_Z (byte_of_Z 1)) with 1.
  cbn [Z.eqb Pos.eqb kP2pMiningContextVersion1 negb throw_if mbind res_bind].
  set (s1 := [byte_of_Z 1]).
  unfold mc_read_u64_be, mc_read_u32_be.
  rewrite (read_be_at 8 _ _ _ _ (1)%nat) by (done || by apply H8). cbn [mbind res_bind].
  rewrite (app_assoc s1). set (s2 := s1 ++ _). rewrite (copy_n_at 32) by (unfold s2; by rewrite length_app, length_be_bytes).
  rewrite (app_assoc s2).
  rewrite (copy_n_at 16) by (unfold s2; by rewrite !length_app, length_be_bytes, length_vec_to_list).
  rewrite (app_assoc (s2 ++ _)).
  rewrite (copy_n_at 32) by (unfold s2; by rewrite !length_app, length_be_bytes, !length_vec_to_list).
  rewrite (app_assoc ((s2 ++ _) ++ _)).
  set (q := ((s2 ++ _) ++ _) ++ _).
  assert (length q = 89%nat) as Hq
    by (unfold q, s2; by rewrite !length_app, length_be_bytes, !length_vec_to_list).
  rewrite (read_be_at 8 _ _ _ _ (1 + 8 + 32 + 16 + 32)%nat) by (done || by apply H8). cbn [mbind res_bind].
  rewrite (app_assoc q).
  rewrite (read_be_at 8 _ _ _ _ (1 + 8 + 32 + 16 + 32 + 8)%nat) by ((by rewrite length_app, Hq, length_be_bytes) || by apply H8).
  cbn [mbind res_bind]. rewrite (app_assoc (q ++ _)).
  rewrite (read_be_at 8 _ _ _ _ (1 + 8 + 32 + 16 + 32 + 8 + 8)%nat) by ((by rewrite !length_app, Hq, !length_be_bytes) || by apply H8).
  cbn [mbind res_bind]. rewrite (app_assoc ((q ++ _) ++ _)).
  rewrite (read_be_at 4 _ _ _ _ (1 + 8 + 32 + 16 + 32 + 8 + 8 + 8)%nat) by ((by rewrite !length_app, Hq, !length_be_bytes) || (apply H4; lia)).
  cbn [mbind res_bind]. rewrite (app_assoc (((q ++ _) ++ _) ++ _)).
  rewrite (read_be_at 4 _ _ _ _ (1 + 8 + 32 + 16 + 32 + 8 + 8 + 8 + 4)%nat) by ((by rewrite !length_app, Hq, !length_be_bytes) || (apply H4; lia)).
  cbn [mbind res_bind]. rewrite (app_assoc ((((q ++ _) ++ _) ++ _) ++ _)).
  set (r := ((((q ++ _) ++ _) ++ _) ++ _) ++ _).
  assert (length r = 121%nat) as Hrl
    by (unfold r; by rewrite !length_app, Hq, !length_be_bytes).
  rewrite (proj2 (Z.eqb_eq _ _)) by lia. cbn [negb throw_if mbind res_bind].
  rewrite !Nat2Z.id. rewrite (drop_app_length' r) by (by rewrite Hrl).
  rewrite take_app_length, (app_assoc r), drop_app_length' by (rewrite length_app, Hrl; lia).
  rewrite take_ge by (by rewrite length_text_bytes). rewrite bytes_text_bytes.
  destruct p as [ver h ph nd sd bb br tf blob tgc]. cbn in Ever. subst ver.
  cbn [pp_version pp_zano_height pp_prev_hash pp_network_difficulty pp_seed
    pp_block_reward_without_fee pp_block_reward pp_txs_fee pp_block_template_blob
    pp_miner_tx_tgc_json] in *. rewrite Hv. done.
Qed.

Lemma deserialize_context_inv b p :
  deserialize_p2p_mining_context_payload b = Ok p →
  proposal_wf p ∧ proposal_valid p ∧ b = context_layout p.
Proof.
  unfold deserialize_p2p_mining_context_payload. intros Hd.
  apply res_bind_ok in Hd as (_ & Hl%throw_if_ok & Hd). cbv zeta in Hd.
  apply orb_false_iff in Hl as [Hl _]. apply Nat.ltb_ge in Hl.
  unfold kP2pMiningContextFixedPayloadSize in Hl.
  apply res_bind_ok in Hd as (_ & _ & Hd).
  apply res_bind_ok in Hd as (h & (R1 & E1 & _)%read_be_range & Hd).
  apply res_bind_ok in Hd as (bb & (R2 & E2 & _)%read_be_range & Hd).
  apply res_bind_ok in Hd as (br & (R3 & E3 & _)%read_be_range & Hd).
  apply res_bind_ok in Hd as (tf & (R4 & E4 & _)%read_be_range & Hd).
  apply res_bind_ok in Hd as (n1 & (R5 & E5 & _)%read_be_range & Hd).
  apply res_bind_ok in Hd as (n2 & (R6 & E6 & _)%read_be_range & Hd).
  apply res_bind_ok in Hd as (_ & Hn%throw_if_ok & Hd). bool_prop.
  apply res_bind_ok in Hd as ([] & Hv & Hd).
  assert (∀ x y : P2pMiningContextProposal, Ok x = Ok y → x = y) as Ok_inj by congruence.
  apply Ok_inj in Hd. subst p.
  change (1 + 8 + 32 + 16 + 32 + 8 + 8 + 8 + 4 + 4)%nat with 121%nat in *.
  change (1 + 8 + 32 + 16 + 32 + 8 + 8 + 8 + 4)%nat with 117%nat in *.
  change (1 + 8 + 32 + 16 + 32 + 8 + 8 + 8)%nat with 113%nat in *.
  change (1 + 8 + 32 + 16 + 32 + 8 + 8)%nat with 105%nat in *.
  change (1 + 8 + 32 + 16 + 32 + 8)%nat with 97%nat in *.
  change (1 + 8 + 32 + 16 + 32)%nat with 89%nat in *.
  change (1 + 8 + 32 + 16)%nat with 57%nat in *.
  change (1 + 8 + 32)%nat with 41%nat in *.
  change (1 + 8)%nat with 9%nat in *.
  change (pow256 8) with (u64_max + 1) in *.
  split; [split; cbn [pp_zano_height pp_block_reward_without_fee pp_block_reward pp_txs_fee];
    unfold is_u64; lia|]. split; [done|].
  cbv beta iota delta [context_layout pp_version pp_zano_height pp_prev_hash pp_network_difficulty pp_seed
    pp_block_reward_without_fee pp_block_reward pp_txs_fee pp_block_template_blob
    pp_miner_tx_tgc_json].
  unfold bytes_text at 1. rewrite length_fmap, text_bytes_text.
  rewrite !length_take, !length_drop.
  replace (Z.of_nat (Z.to_nat n1 `min` (length b - 121))) with n1 by lia.
  replace (Z.of_nat (Z.to_nat n2 `min` (length b - (121 + Z.to_nat n1)))) with n2 by lia.
  rewrite byte_of_to_Z, E1, E2, E3, E4, E5, E6, !copy_n_list by lia.
  rewrite (take_ge (drop (121 + Z.to_nat n1) b)) by (rewrite length_drop; lia).
  rewrite <-(byte_take b 0) by lia.
  rewrite (drop_join 121 (Z.to_nat n1) _ b eq_refl), (drop_join 117 4 121 b eq_refl),
    (drop_join 113 4 117 b eq_refl), (drop_join 105 8 113 b eq_refl), (drop_join 97 8 105 b eq_refl),
    (drop_join 89 8 97 b eq_refl), (drop_join 57 32 89 b eq_refl), (drop_join 41 16 57 b eq_refl),
    (drop_join 9 32 41 b eq_refl), (drop_join 1 8 9 b eq_refl), (drop_join 0 1 1 b eq_refl).
  done.
Qed.

End Codec.

(** ** Canonical varints *)

(** Little-endian base 128, continuation bits on all bytes but the last. *)
Fixpoint vdigits (l : list byte) : Z :=
  match l with [] => 0 | b :: l => byte_to_Z b mod 128 + 128 * vdigits l end.
Fixpoint vshape (l : list byte) : Prop :=
  match l with
  | [] => False
  | [b] => byte_to_Z b < 128
  | b :: l => 128 ≤ byte_to_Z b ∧ vshape l
  end.

Lemma vdigits_nonneg l : 0 ≤ vdigits l.
Proof.
  induction l as [|b l IH]; cbn [vdigits]; [lia|].
  pose proof (Z.mod_pos_bound (byte_to_Z b) 128 ltac:(lia)). lia.
Qed.

Lemma vdigits_encode l : ∀ f,
  vshape l → length (append_varint_loop f [] (vdigits l)) = length l → (length l ≤ f)%nat →
  append_varint_loop f [] (vdigits l) = l.
Proof.
  induction l as [|b l IH]; intros f Hs Hlen Hf; [done|].
  destruct f as [|f]; [simpl in Hf; lia|]. cbn [append_varint_loop vdigits] in *. cbv zeta in *.
  pose proof (byte_to_Z_range b) as Hb. pose proof (Z.mod_pos_bound (byte_to_Z b) 128 ltac:(lia)) as Hm.
  set (u := byte_to_Z b mod 128 + 128 * vdigits l) in *.
  assert (Z.land u 127 = byte_to_Z b mod 128) as Hlow.
  { change 127 with (Z.ones 7). rewrite Z.land_ones by lia. change (2 ^ 7) with 128. unfold u.
    rewrite (Z.mul_comm 128), Z.mod_add, Z.mod_mod by lia. done. }
  assert (Z.shiftr u 7 = vdigits l) as Hhigh.
  { rewrite Z.shiftr_div_pow2 by lia. change (2 ^ 7) with 128. unfold u.
    rewrite (Z.mul_comm 128), Z.div_add, Z.div_small by lia. lia. }
  rewrite Hlow, Hhigh in *. destruct l as [|c l].
  - cbn [vdigits Z.eqb vshape] in *. rewrite Z.mod_small by lia. by rewrite byte_of_to_Z.
  - destruct Hs as [Hhi Hs]. destruct (vdigits (c :: l) =? 0) eqn:Ez; [simpl in Hlen; lia|].
    rewrite append_varint_acc in *. rewrite length_app in Hlen. cbn [length app] in Hlen.
    rewrite IH; [|done|cbn [length]; lia|cbn [length] in *; lia]. cbn [app]. f_equal.
    assert (Z.lor (byte_to_Z b mod 128) 128 = byte_to_Z b mod 128 + 128) as ->
      by (exact (lor_shifted (byte_to_Z b mod 128) 1 7 ltac:(lia) ltac:(lia) ltac:(lia))).
    assert (byte_to_Z b mod 128 + 128 = byte_to_Z b) as ->; [|apply byte_of_to_Z].
    assert (byte_to_Z b / 128 = 1) as Hq
      by (symmetry; apply Z.div_unique with (byte_to_Z b - 128); lia).
    rewrite (Z.mod_eq (byte_to_Z b) 128), Hq by lia. lia.
Qed.

Lemma mc_varint_loop_inv f : ∀ b start off acc s v off',
  mc_read_varint_loop f b start off acc s = Ok (v, off') →
  s = 7 * (10 - Z.of_nat f) → (f ≤ 10)%nat → 0 ≤ acc < 2 ^ s →
  ∃ l, off' = (off + length l)%nat ∧ drop off b = l ++ drop off' b ∧ vshape l ∧
    (length l ≤ f)%nat ∧ v = acc + vdigits l * 2 ^ s ∧ 0 ≤ v ≤ u64_max ∧
    (off' - start)%nat = encoded_varint_size v.
Proof.
  induction f as [|f IH]; intros b start off acc s v off' Hr Hs Hf Hacc; [done|].
  cbn [mc_read_varint_loop] in Hr. apply res_bind_ok in Hr as (_ & Hlen%throw_if_ok & Hr).
  apply Nat.leb_gt in Hlen. cbv zeta in Hr.
  apply res_bind_ok in Hr as (_ & Hov%throw_if_ok & Hr).
  set (x := b !!! off) in *. destruct (byte_bits x) as [Hb1 Hb2]. rewrite Hb1, Hb2 in Hr.
  pose proof (byte_to_Z_range x) as Hx. pose proof (Z.mod_pos_bound (byte_to_Z x) 128 ltac:(lia)) as Hm.
  assert (0 < 2 ^ s) as Hp by (apply Z.pow_pos_nonneg; lia).
  assert (byte_to_Z x mod 128 * 2 ^ s + 2 ^ s ≤ 18446744073709551616) as Hfit.
  { destruct (Z.eq_dec s 63) as [->|Hne].
    - rewrite Z.eqb_refl in Hov. cbn [andb] in Hov. bool_prop.
      assert (byte_to_Z x mod 128 ≤ 1) as ?; [|change (2 ^ 63) with 9223372036854775808; lia].
      clear - Hov. by destruct x; try (vm_compute in Hov; discriminate Hov); vm_compute.
    - assert (2 ^ s ≤ 2 ^ 56) as H56 by (apply Z.pow_le_mono_r; lia).
      change (2 ^ 56) with 72057594037927936 in H56. nia. }
  assert (Z.lor acc (wrap64 (Z.shiftl (byte_to_Z x mod 128) s)) = acc + byte_to_Z x mod 128 * 2 ^ s)
    as Hval.
  { unfold wrap64. rewrite Z.mod_small; [apply lor_shifted; lia|].
    rewrite Z.shiftl_mul_pow2 by lia. nia. }
  rewrite Hval in Hr. destruct (Z.ltb_spec (byte_to_Z x) 128) as [Hlt|Hge].
  - apply res_bind_ok in Hr as (_ & Hc%throw_if_ok & Hr). injection Hr as <- <-.
    apply negb_false_iff, Nat.eqb_eq in Hc. exists [x]. cbn [length vshape vdigits].
    split; [lia|]. split; [by rewrite (drop_lookup_total off) by lia|]. split; [done|].
    split; [lia|]. unfold u64_max. split; [lia|]. split; [lia|done].
  - apply IH in Hr as (l & -> & Hd & Hsh & Hll & -> & Hr & Hc); [|lia|lia|].
    2: { rewrite Z.pow_add_r by lia. change (2 ^ 7) with 128. nia. }
    exists (x :: l). cbn [length vdigits]. split; [lia|].
    split; [rewrite (drop_lookup_total off) by lia; fold x; rewrite Hd; cbn [app]; do 3 f_equal; lia|].
    split; [by destruct l|]. split; [lia|].
    rewrite Z.pow_add_r in * by lia. change (2 ^ 7) with 128 in *. split; [lia|]. split; [lia|].
    rewrite <-Hc. lia.
Qed.

(** A varint that is accepted is the canonical encoding of its value. *)
Lemma mc_read_varint_inv b off v off' :
  mc_read_varint b off = Ok (v, off') →
  is_u64 v ∧ drop off b = varint_bytes v ++ drop off' b.
Proof.
  unfold mc_read_varint. intros H.
  apply mc_varint_loop_inv in H as (l & Hoff & Hd & Hs & Hl & Hv & Hr & Hc); [|lia|lia|lia].
  rewrite Z.mul_1_r, Z.add_0_l in Hv. subst v.
  split; [done|]. rewrite Hd. f_equal. symmetry. unfold varint_bytes, append_varint.
  apply vdigits_encode; [done| |done].
  change (append_varint_loop 10 [] (vdigits l)) with (varint_bytes (vdigits l)).
  rewrite length_varint_bytes, <-Hc by done. lia.
Qed.

(** ** What a successful inspection means *)

(** The proposal's template continues the anchored Zano block: its nonce is zero,
    it names the anchored previous block, and its coinbase is a version-4 HF6
    transaction that generates exactly the anchored height. *)
Record bound_to (p : P2pMiningContextProposal) (w : MiningHeaderWork) : Prop := {
  bd_nonce : take 8 (drop 1 (pp_block_template_blob p)) = replicate 8 Byte.x00;
  bd_prev : copy_n 32 (pp_block_template_blob p) 9 = pp_prev_hash p;
  bd_flags : pp_block_template_blob p !! (bh_serialized_size (mw_block_header w) - 1)%nat
             = Some Byte.x00;
  bd_hardfork : mp_version (mw_miner_tx_prefix w) = 4 ∧ mp_hardfork_id (mw_miner_tx_prefix w) = 6;
  bd_coinbase : ∃ rest, drop (bh_serialized_size (mw_block_header w)) (pp_block_template_blob p) =
    varint_bytes 4 ++ varint_bytes 1 ++ [Byte.x00] ++ varint_bytes (pp_zano_height p) ++ rest }.

Lemma all_zero_replicate l : all_zero l = true → l = replicate (length l) Byte.x00.
Proof.
  intros Hz. rewrite all_zero_be in Hz. bool_prop. rewrite be_Z_zero in Hz.
  induction Hz as [|x l -> _ IH]; [done|]. simpl. by rewrite <-IH.
Qed.

Lemma structural_bindings_ok p w :
  require_current_hf6_structural_bindings p w = Ok () → bound_to p w.
Proof.
  unfold require_current_hf6_structural_bindings. cbv zeta. set (blob := pp_block_template_blob p).
  intros H. apply res_bind_ok in H as (_ & Hlen%throw_if_ok & H). apply Nat.ltb_ge in Hlen.
  apply res_bind_ok in H as (_ & Hnonce%throw_if_ok & H). apply negb_false_iff in Hnonce.
  apply res_bind_ok in H as (_ & Hprev%throw_if_ok & H). bool_prop.
  apply res_bind_ok in H as ([v1 p1] & _ & H). apply res_bind_ok in H as ([v2 p2] & _ & H).
  apply res_bind_ok in H as (_ & Hfl%throw_if_ok & H). apply Nat.leb_gt in Hfl.
  apply res_bind_ok in H as (_ & Hz%throw_if_ok & H). bool_prop.
  apply res_bind_ok in H as (_ & Hpos%throw_if_ok & H). apply negb_false_iff, Nat.eqb_eq in Hpos.
  apply res_bind_ok in H as (_ & Hver%throw_if_ok & H). bool_prop.
  apply res_bind_ok in H as ([tv p3] & [_ E3]%mc_read_varint_inv & H).
  apply res_bind_ok in H as ([vc p4] & [_ E4]%mc_read_varint_inv & H).
  apply res_bind_ok in H as (_ & Hin%throw_if_ok & H). bool_prop. subst tv vc.
  match goal with E : (_ <=? p4)%nat = false |- _ => apply Nat.leb_gt in E as Hp4 end.
  apply res_bind_ok in H as (_ & Htag%throw_if_ok & H). bool_prop.
  apply res_bind_ok in H as ([mh p5] & [_ E5]%mc_read_varint_inv & H).
  apply throw_if_ok in H. bool_prop. subst mh. split; fold blob.
  - rewrite (all_zero_replicate _ Hnonce), length_take, length_drop. f_equal. lia.
  - done.
  - rewrite <-Hpos. cbn [Nat.sub]. rewrite Nat.sub_0_r.
    destruct (lookup_lt_is_Some_2 blob p2 Hfl) as [x Hx]. rewrite Hx. f_equal.
    apply byte_to_Z_inj. by rewrite list_lookup_total_alt, Hx in Hz.
  - done.
  - exists (drop p5 blob). rewrite E3, E4. do 2 f_equal.
    rewrite (drop_lookup_total p4) by done. cbn [app]. f_equal; [|exact E5].
    apply byte_to_Z_inj. exact Htag.
Qed.

Section Inspection.
Context `{!JsonC}.

(** The mining-context payload codec is a bijection between the valid
    proposals and the payloads it accepts, and the id of a proposal is the
    Keccak hash of its payload. *)
Theorem mining_context_codec : ∀ p b,
  proposal_wf p →
  (serialize_p2p_mining_context_payload p = Ok b ↔
   deserialize_p2p_mining_context_payload b = Ok p) ∧
  (serialize_p2p_mining_context_payload p = Ok b → p2p_mining_context_id p = Ok (cn_fast_hash b)).
Proof.
  intros p b Hwf. rewrite serialize_context_ok. split; [split|].
  - intros [Hv ->]. by apply deserialize_context_layout.
  - intros (_ & Hv & ->)%deserialize_context_inv. done.
  - intros Hs. apply serialize_context_ok in Hs. unfold p2p_mining_context_id. by rewrite Hs.
Qed.

Lemma inspect_anchored peer envelope anchor r :
  inspect_p2p_mining_context peer envelope anchor = Ok r →
  ck_status r = AnchoredUnverifiedMinerTx →
  Z.land (hs_capabilities peer) kP2pCapabilityMiningContext ≠ 0 ∧
  ∃ p w, parse_p2p_mining_context_envelope envelope = Ok p ∧
    p2p_mining_context_id p = Ok (ck_proposal_id r) ∧
    ck_proposal_id r = cn_fast_hash (env_payload envelope) ∧
    anchor = mkAnchor (pp_zano_height p) (pp_prev_hash p) (pp_network_difficulty p)
               (pp_seed p) (pp_block_reward_without_fee p) ∧
    derive_mining_header_work (pp_block_template_blob p) = Ok w ∧
    ck_mining_header_hash r = mw_header_hash w ∧ bound_to p w.
Proof.
  unfold inspect_p2p_mining_context. intros Hr Hst.
  destruct (Z.eqb_spec (Z.land (hs_capabilities peer) kP2pCapabilityMiningContext) 0) as [E|E].
  { by injection Hr as <-. }
  split; [done|].
  apply res_bind_ok in Hr as (p & Hp & Hr). apply res_bind_ok in Hr as (id & Hid & Hr).
  destruct (anchor_matches p anchor) eqn:Ha; cbn [negb] in Hr; [|by injection Hr as <-].
  apply res_bind_ok in Hr as (w & Hw & Hr). apply res_bind_ok in Hr as ([] & Hs & Hr).
  apply res_bind_ok in Hr as (_ & _ & Hr). injection Hr as <-.
  cbn [ck_status ck_proposal_id ck_mining_header_hash]. exists p, w.
  split; [done|]. split; [done|].
  pose proof Hp as Hpar. unfold parse_p2p_mining_context_envelope in Hpar.
  apply res_bind_ok in Hpar as (_ & _ & Hpar).
  apply deserialize_context_inv in Hpar as (Hwf & Hv & Hb).
  split.
  { unfold p2p_mining_context_id in Hid. apply res_bind_ok in Hid as (b & Hser & Hid).
    apply serialize_context_ok in Hser as [_ ->]. rewrite Hb. by injection Hid as <-. }
  unfold anchor_matches in Ha. bool_prop. split; [destruct anchor; simpl in *; congruence|].
  split; [done|]. split; [done|]. by apply structural_bindings_ok.
Qed.

(** What an anchored context is.  [inspect_p2p_mining_context] reports
    [AnchoredUnverifiedMinerTx] only for a peer with the capability whose
    proposal agrees with the local anchor in height, previous block, difficulty,
    seed and base reward, and whose template really extends that block at that
    height; the header hash it reports is derived from the template, and the id
    is the hash of the payload received.  A peer without the capability cannot
    make it parse anything. *)
Theorem inspect_context_sound : ∀ peer envelope anchor r,
  inspect_p2p_mining_context peer envelope anchor = Ok r →
  match ck_status r with
  | AnchoredUnverifiedMinerTx =>
      Z.land (hs_capabilities peer) kP2pCapabilityMiningContext ≠ 0 ∧
      ∃ p w, parse_p2p_mining_context_envelope envelope = Ok p ∧
        ck_proposal_id r = cn_fast_hash (env_payload envelope) ∧
        anchor = mkAnchor (pp_zano_height p) (pp_prev_hash p) (pp_network_difficulty p)
                   (pp_seed p) (pp_block_reward_without_fee p) ∧
        derive_mining_header_work (pp_block_template_blob p) = Ok w ∧
        ck_mining_header_hash r = mw_header_hash w ∧ bound_to p w
  | AnchorMismatch => ∃ p, parse_p2p_mining_context_envelope envelope = Ok p ∧
        anchor_matches p anchor = false
  | ContextCapabilityMissing => Z.land (hs_capabilities peer) kP2pCapabilityMiningContext = 0
  end.
Proof.
  intros peer envelope anchor r Hr. destruct (ck_status r) eqn:Hst.
  - destruct (inspect_anchored _ _ _ _ Hr Hst) as (Hcap & p & w & Hp & _ & Hrest).
    split; [done|]. by exists p, w.
  - revert Hr Hst. unfold inspect_p2p_mining_context.
    destruct (Z.eqb_spec (Z.land (hs_capabilities peer) kP2pCapabilityMiningContext) 0); [done|].
    intros Hr Hst. apply res_bind_ok in Hr as (p & _ & Hr). apply res_bind_ok in Hr as (id & _ & Hr).
    destruct (negb _); [by injection Hr as <-|]. res_inv. done.
  - revert Hr Hst. unfold inspect_p2p_mining_context.
    destruct (Z.eqb_spec (Z.land (hs_capabilities peer) kP2pCapabilityMiningContext) 0).
    { intros [= <-]. done. }
    intros Hr Hst. apply res_bind_ok in Hr as (p & Hp & Hr). apply res_bind_ok in Hr as (id & _ & Hr).
    exists p. split; [done|]. destruct (anchor_matches p anchor); [|done]. cbn [negb] in Hr. res_inv. done.
Qed.

End Inspection.

(** ** A concrete proposal *)

(** A tokener that reads every text as an object with a two-digit key. *)
Definition demo_json : JsonC := {|
  json_tokener_parse _ :=
    mkParsed true "success" (JObject [("tx_key", JString (String.list_ascii_of_string "ab"))]);
  json_to_string_plain _ := String.list_ascii_of_string "{}" |}.

Definition demo_proposal : P2pMiningContextProposal :=
  mkProposal 1 3000000 (fill_be 32 77) (fill_be 16 5000000000) (fill_be 32 3) 1000000000000
    1000000500000 500000 (demo_block Byte.x00) (String.list_ascii_of_string "{}").
Definition demo_anchor : P2pMiningAnchor :=
  mkAnchor 3000000 (fill_be 32 77) (fill_be 16 5000000000) (fill_be 32 3) 1000000000000.
Definition demo_context_envelope : P2pEnvelope :=
  mkEnvelope kP2pProtocolVersion MiningContextAnnounce 0 (context_layout demo_proposal).
Definition demo_context_peer : P2pHandshake :=
  mkHandshake P2pTestnet (fill_be 32 21) 15 0 (arr_zero 32) 0 (fill_be 32 7).

Lemma demo_proposal_wf : proposal_wf demo_proposal.
Proof. by split. Qed.

Lemma demo_proposal_valid : @proposal_valid demo_json demo_proposal.
Proof. vm_compute. reflexivity. Qed.

Lemma demo_proposal_parses :
  @parse_p2p_mining_context_envelope demo_json demo_context_envelope = Ok demo_proposal.
Proof.
  unfold parse_p2p_mining_context_envelope, demo_context_envelope.
  cbn [require_envelope_type env_payload].
  exact (@deserialize_context_layout demo_json demo_proposal demo_proposal_wf demo_proposal_valid).
Qed.

Lemma mining_context_codec_witness :
  @deserialize_p2p_mining_context_payload demo_json (context_layout demo_proposal)
  = Ok demo_proposal.
Proof.
  apply (proj1 (@mining_context_codec demo_json demo_proposal (context_layout demo_proposal)
    demo_proposal_wf)).
  apply serialize_context_ok. split; [exact demo_proposal_valid|reflexivity].
Defined.

Definition demo_check : P2pMiningContextCheckResult :=
  mkCheck AnchoredUnverifiedMinerTx (cn_fast_hash (context_layout demo_proposal))
    (mw_header_hash demo_work) 0.

Lemma demo_inspect :
  @inspect_p2p_mining_context demo_json demo_context_peer demo_context_envelope demo_anchor
  = Ok demo_check.
Proof.
  unfold inspect_p2p_mining_context. rewrite demo_proposal_parses.
  assert (@p2p_mining_context_id demo_json demo_proposal =
    Ok (cn_fast_hash (context_layout demo_proposal))) as Hid.
  { unfold p2p_mining_context_id.
    by rewrite (proj2 (@serialize_context_ok demo_json demo_proposal _)
      (conj demo_proposal_valid eq_refl)). }
  assert (pp_block_template_blob demo_proposal = demo_block Byte.x00) as Hblob by done.
  cbn [mbind res_bind]. rewrite Hid, Hblob, demo_work_ok.
  assert (require_current_hf6_structural_bindings demo_proposal demo_work = Ok ()) as Hb
    by (vm_compute; reflexivity).
  cbn [mbind res_bind]. rewrite Hb. reflexivity.
Qed.

Lemma inspect_context_witness : ∃ p w,
  @parse_p2p_mining_context_envelope demo_json demo_context_envelope = Ok p ∧ bound_to p w.
Proof.
  destruct (@inspect_context_sound demo_json demo_context_peer demo_context_envelope demo_anchor
    demo_check demo_inspect) as (_ & p & w & Hp & _ & _ & _ & _ & Hb).
  exists p, w. split; [exact Hp|exact Hb].
Defined.
