(* ===== verification/WorkArchive.v ===== *)
(** The archive of mining work: [include/zano_p2pool/mining_work_archive.hpp],
    [src/mining_work_archive.cpp].  The directory is a map from file names to
    the contents of regular files.  System calls succeed and no other process
    writes the directory; [put] publishes a record by linking a complete
    temporary file, so a record is there as a whole or not at all. *)
From S2P Require Import Prelude CryptoHash P2pProtocol Share BlockTemplate MiningHeader MiningContext.
Local Open Scope pool_scope.

Abbreviation Directory := (gmap text (list byte)).

Definition archive_magic : list byte :=
  [Byte.x5a; Byte.x50; Byte.x32; Byte.x57; Byte.x4f; Byte.x52; Byte.x4b; Byte.x31].
Definition archive_header_size : nat := 8 + 32 + 4.
Definition archive_digest_size : nat := 32.

Definition check_payload_size (size : nat) : res () :=
  throw_if ((size <? kP2pMiningContextFixedPayloadSize)%nat ||
            (kP2pMaxPayloadSize <? Z.of_nat size)) RuntimeError
    "invalid mining-work archive payload length".

(** [path::extension] and [path::stem]: the last dot splits the name, unless it
    is the first character. *)
Fixpoint split_last_dot (name : text) : option (text * text) :=
  match name with
  | [] => None
  | c :: rest =>
      match split_last_dot rest with
      | Some (stem, extension) => Some (c :: stem, extension)
      | None => if char_Z c =? 46 then Some ([], c :: rest) else None
      end
  end.
Definition path_stem (name : text) : text :=
  match split_last_dot name with Some (c :: stem, _) => c :: stem | _ => name end.
Definition path_extension (name : text) : text :=
  match split_last_dot name with Some (_ :: _, extension) => extension | _ => [] end.

Definition dot_work : text := String.list_ascii_of_string ".work".
Definition is_temporary (name : text) : bool :=
  bool_decide (take 5 name = String.list_ascii_of_string ".tmp-").

Definition is_lower_hex (c : Ascii.ascii) : bool :=
  is_digit c || ((97 <=? char_Z c) && (char_Z c <=? 102)).

Definition id_from_filename (name : text) : res Hash256 :=
  (let stem := path_stem name in
  _ ← throw_if (negb (length stem =? 64)%nat || negb (forallb is_lower_hex stem)) RuntimeError
        "invalid mining-work archive filename";
  bytes ← hex_to_bytes stem;
  mret (arr_of 32 bytes))%stdpp.

(** [directory_ / (hash_to_hex(id) + ".work")]. *)
Definition record_name (id : Hash256) : text := hash_to_hex id ++ dot_work.

Definition new_mining_work_archive (directory_empty : bool) (sidechain_id : Hash256)
    : res Hash256 :=
  (_ ← throw_if (directory_empty || arr_eqb sidechain_id (arr_zero 32)) InvalidArgument
        "mining-work archive requires directory and sidechain ID";
  mret sidechain_id)%stdpp.

Definition archive_read (sid : Hash256) (dir : Directory) (id : Hash256) : res (list byte) :=
  match dir !! record_name id with
  | None => throw RuntimeError "mining-work archive record is not a regular file"
  | Some bytes =>
      (let size := length bytes in
      _ ← throw_if ((size <? archive_header_size + archive_digest_size)%nat ||
            (Z.of_nat archive_header_size + kP2pMaxPayloadSize + Z.of_nat archive_digest_size
               <? Z.of_nat size)) RuntimeError "invalid mining-work archive record size";
      _ ← throw_if (negb (bool_decide (take 8 bytes = archive_magic)) ||
            negb (bool_decide (take 32 (drop 8 bytes) = vec_to_list sid))) RuntimeError
            "mining-work archive version/sidechain mismatch";
      let len := Z.to_nat (be_Z (take 4 (drop 40 bytes))) in
      _ ← check_payload_size len;
      _ ← throw_if (negb (size =? archive_header_size + len + archive_digest_size)%nat)
            RuntimeError "mining-work archive length mismatch";
      let payload := take len (drop archive_header_size bytes) in
      let checksum := cn_fast_hash (take (archive_header_size + len) bytes) in
      _ ← throw_if (negb (arr_eqb (cn_fast_hash payload) id) ||
            negb (bool_decide (vec_to_list checksum = drop (size - archive_digest_size) bytes)))
            RuntimeError "mining-work archive checksum/ID mismatch";
      mret payload)%stdpp
  end.

(** The record without its digest. *)
Definition record_body (sid : Hash256) (payload : list byte) : list byte :=
  archive_magic ++ vec_to_list sid ++ be_bytes 4 (Z.of_nat (length payload)) ++ payload.
Definition archive_record (sid : Hash256) (payload : list byte) : list byte :=
  append_array (record_body sid payload) (cn_fast_hash (record_body sid payload)).

Definition archive_put (sid : Hash256) (payload : list byte) : exec Directory Hash256 :=
  do exec_const (λ _, check_payload_size (length payload)) ;;
  let id := cn_fast_hash payload in
  dir <- exec_get ;;
  match dir !! record_name id with
  | Some _ =>
      existing <- exec_const (λ dir, archive_read sid dir id) ;;
      if negb (bool_decide (existing = payload))
      then exec_throw RuntimeError "conflicting mining-work archive record"
      else exec_ret id
  | None =>
      do exec_modify (insert (record_name id) (archive_record sid payload)) ;;
      exec_ret id
  end.

(** One directory entry of the scans; [None] for an unpublished temporary. *)
Definition scan_entry (sid : Hash256) (dir : Directory) (name : text) : res (option Hash256) :=
  (if is_temporary name then mret None
  else
  _ ← throw_if (negb (bool_decide (path_extension name = dot_work))) RuntimeError
        "unexpected file in mining-work archive";
  id ← id_from_filename name;
  _ ← archive_read sid dir id;
  mret (Some id))%stdpp.

Fixpoint list_ids_loop (sid : Hash256) (dir : Directory) (max_records : Z) (names : list text)
    (ids : list Hash256) : res (list Hash256) :=
  match names with
  | [] => Ok ids
  | name :: rest =>
      (if is_temporary name then list_ids_loop sid dir max_records rest ids
      else
      _ ← throw_if (negb (bool_decide (path_extension name = dot_work))) RuntimeError
            "unexpected file in mining-work archive";
      _ ← throw_if (max_records <=? Z.of_nat (length ids)) RuntimeError
            "mining-work archive scan limit exceeded";
      id ← id_from_filename name;
      _ ← archive_read sid dir id;
      list_ids_loop sid dir max_records rest (ids ++ [id]))%stdpp
  end.

(** [directory_iterator] visits the names in an unspecified order. *)
Definition directory_names (dir : Directory) : list text := (map_to_list dir).*1.

Definition list_ids (sid : Hash256) (dir : Directory) (max_records : Z) : res (list Hash256) :=
  (ids ← list_ids_loop sid dir max_records (directory_names dir) [];
  mret (sort_ids ids))%stdpp.

Fixpoint verify_loop (sid : Hash256) (dir : Directory) (names : list text) (count : nat)
    : res nat :=
  match names with
  | [] => Ok count
  | name :: rest =>
      (found ← scan_entry sid dir name;
      verify_loop sid dir rest (match found with Some _ => S count | None => count end))%stdpp
  end.
Definition verify_all (sid : Hash256) (dir : Directory) : res nat :=
  verify_loop sid dir (directory_names dir) 0.

(** ** Names *)

Lemma split_dot_work s : split_last_dot (s ++ dot_work) = Some (s, dot_work).
Proof. induction s as [|c s IH]; [done|]. cbn [app split_last_dot]. by rewrite IH. Qed.

Lemma hash_hex_id id : hex_to_bytes (hash_to_hex id) = Ok (vec_to_list id).
Proof. apply hex_to_bytes_to_hex. Qed.

Lemma hex_digit_lower z : 0 ≤ z < 16 → is_lower_hex (hex_digit z) = true.
Proof.
  intros Hz%nibble_elem.
  assert (Forall (λ z, is_lower_hex (hex_digit z) = true) nibbles) as Hall.
  { apply (bool_decide_unpack _). vm_compute. exact I. }
  rewrite Forall_forall in Hall. by apply Hall.
Qed.

Lemma bytes_to_hex_lower l : forallb is_lower_hex (bytes_to_hex l) = true.
Proof.
  induction l as [|b l IH]; [done|]. cbn [bytes_to_hex forallb].
  destruct (nibbles_of_byte b) as (H1 & H2 & _).
  by rewrite !hex_digit_lower, IH.
Qed.

Lemma length_hash_to_hex id : length (hash_to_hex id) = 64%nat.
Proof. unfold hash_to_hex. by rewrite length_bytes_to_hex, length_vec_to_list. Qed.

Lemma record_name_parts id :
  path_stem (record_name id) = hash_to_hex id ∧ path_extension (record_name id) = dot_work ∧
  is_temporary (record_name id) = false ∧ id_from_filename (record_name id) = Ok id.
Proof.
  pose proof (length_hash_to_hex id) as Hl.
  assert (∃ c r, hash_to_hex id = c :: r ∧ is_lower_hex c = true) as (c & r & E & Hc).
  { pose proof (bytes_to_hex_lower (vec_to_list id)) as Hall. fold (hash_to_hex id) in Hall.
    destruct (hash_to_hex id) as [|c r]; [done|]. cbn [forallb] in Hall. bool_prop. eauto. }
  assert (path_stem (record_name id) = hash_to_hex id) as Hstem.
  { unfold path_stem, record_name. by rewrite split_dot_work, E. }
  split; [done|]. split.
  { unfold path_extension, record_name. by rewrite split_dot_work, E. }
  split.
  { unfold is_temporary, record_name. rewrite E. apply bool_decide_eq_false. cbn [app take].
    intros [= -> _]. vm_compute in Hc. discriminate. }
  unfold id_from_filename. rewrite Hstem, Hl. cbv zeta.
  assert (forallb is_lower_hex (hash_to_hex id) = true) as -> by apply bytes_to_hex_lower.
  cbn [Nat.eqb negb orb throw_if mbind res_bind].
  rewrite hash_hex_id. cbn [mbind res_bind]. by rewrite arr_of_to_list.
Qed.

Lemma record_name_inj a b : record_name a = record_name b → a = b.
Proof.
  intros E. destruct (record_name_parts a) as (_ & _ & _ & Ha).
  destruct (record_name_parts b) as (_ & _ & _ & Hb). rewrite E, Hb in Ha. by injection Ha.
Qed.

(** ** Records *)

Lemma length_record_body sid payload :
  length (record_body sid payload) = (44 + length payload)%nat.
Proof. unfold record_body. rewrite !length_app, length_vec_to_list, length_be_bytes. simpl. lia. Qed.

Lemma payload_size_ok n :
  check_payload_size n = Ok () ↔ (121 ≤ n)%nat ∧ Z.of_nat n ≤ kP2pMaxPayloadSize.
Proof.
  unfold check_payload_size, kP2pMiningContextFixedPayloadSize. rewrite throw_if_ok, orb_false_iff.
  rewrite Nat.ltb_ge, Z.ltb_ge. done.
Qed.

(** Reading a file is recognising the record of a payload with that id. *)
Lemma archive_read_ok sid dir id payload :
  archive_read sid dir id = Ok payload ↔
  dir !! record_name id = Some (archive_record sid payload) ∧
  check_payload_size (length payload) = Ok () ∧ cn_fast_hash payload = id.
Proof.
  unfold archive_read, archive_record, append_array. split.
  - intros Hr. destruct (dir !! record_name id) as [b|]; [|done]. cbv zeta in Hr.
    apply res_bind_ok in Hr as (_ & Hsz%throw_if_ok & Hr).
    apply orb_false_iff in Hsz as [Hsz _]. apply Nat.ltb_ge in Hsz.
    apply res_bind_ok in Hr as (_ & Hm%throw_if_ok & Hr). bool_prop.
    apply res_bind_ok in Hr as ([] & Hp & Hr).
    apply res_bind_ok in Hr as (_ & Hl%throw_if_ok & Hr). apply negb_false_iff, Nat.eqb_eq in Hl.
    apply res_bind_ok in Hr as (_ & Hc%throw_if_ok & Hr). bool_prop.
    assert (∀ x y : list byte, Ok x = Ok y → x = y) as Ok_inj by congruence.
    apply Ok_inj in Hr. set (n := Z.to_nat (be_Z (take 4 (drop 40 b)))) in *.
    unfold archive_header_size, archive_digest_size in *.
    assert (length (take 4 (drop 40 b)) = 4%nat) as H4 by (rewrite length_take, length_drop; lia).
    pose proof (be_Z_range (take 4 (drop 40 b))) as Hr4.
    assert (length payload = n) as Hlen.
    { rewrite <-Hr, length_take, length_drop. lia. }
    assert (be_bytes 4 (Z.of_nat (length payload)) = take 4 (drop 40 b)) as Hbe.
    { rewrite Hlen. unfold n. rewrite Z2Nat.id by lia. rewrite <-H4 at 1. apply be_bytes_be_Z. }
    assert (take (44 + n) b = record_body sid payload) as Hbody.
    { unfold record_body. rewrite Hbe, <-Hr.
      match goal with H : take 8 b = archive_magic |- _ => rewrite <-H end.
      match goal with H : take 32 _ = vec_to_list sid |- _ => rewrite <-H end.
      rewrite <-(take_drop 8 (take (44 + n) b)), take_take.
      replace (8 `min` (44 + n))%nat with 8%nat by lia. f_equal.
      rewrite <-(take_drop 32 (drop 8 _)), drop_drop.
      rewrite <-(take_drop 4 (drop (8 + 32) _)), drop_drop.
      rewrite !take_drop_commute, !take_take. repeat f_equal; lia. }
    split; [|split; [by rewrite Hlen|]].
    + f_equal. rewrite <-Hbody. change (44 + n)%nat with (8 + 32 + 4 + n)%nat.
      match goal with H : vec_to_list (cn_fast_hash _) = _ |- _ => rewrite H end.
      replace (length b - 32)%nat with (8 + 32 + 4 + n)%nat by lia.
      symmetry. apply take_drop.
    + by rewrite <-Hr.
  - intros (-> & Hp & Hid). pose proof Hp as [Hlo Hhi]%payload_size_ok. cbv zeta.
    set (body := record_body sid payload).
    pose proof (length_record_body sid payload : length body = _) as Hbl.
    assert (length (body ++ vec_to_list (cn_fast_hash body)) = 76 + length payload)%nat as Hl
      by (rewrite length_app, Hbl, length_vec_to_list; lia).
    rewrite Hl. unfold archive_header_size, archive_digest_size.
    rewrite (proj2 (Nat.ltb_ge _ _)), (proj2 (Z.ltb_ge _ _)) by lia.
    cbn [orb throw_if mbind res_bind].
    assert (∃ t, body ++ vec_to_list (cn_fast_hash body) = archive_magic ++ vec_to_list sid ++
      be_bytes 4 (Z.of_nat (length payload)) ++ payload ++ t ∧
      t = vec_to_list (cn_fast_hash body)) as (t & E & Et).
    { exists (vec_to_list (cn_fast_hash body)). split; [|done]. generalize (cn_fast_hash body).
      intros d. unfold body, record_body. by rewrite <-!app_assoc. }
    assert (take 8 (body ++ vec_to_list (cn_fast_hash body)) = archive_magic) as ->
      by (by rewrite E).
    assert (take 32 (drop 8 (body ++ vec_to_list (cn_fast_hash body))) = vec_to_list sid) as ->.
    { rewrite E, (drop_app_length' archive_magic) by done.
      apply take_app_length'. by rewrite length_vec_to_list. }
    rewrite (bool_decide_eq_true_2 (archive_magic = _)),
      (bool_decide_eq_true_2 (vec_to_list sid = vec_to_list sid)) by done.
    cbn [negb orb throw_if mbind res_bind].
    assert (be_Z (take 4 (drop 40 (body ++ vec_to_list (cn_fast_hash body)))) =
      Z.of_nat (length payload)) as ->.
    { rewrite E, (app_assoc archive_magic), drop_app_length'
        by (by rewrite length_app, length_vec_to_list).
      rewrite take_app_length' by (by rewrite length_be_bytes). rewrite be_Z_be_bytes, Z.mod_small; [done|].
      change (pow256 4) with 4294967296. unfold kP2pMaxPayloadSize in Hhi. lia. }
    rewrite Nat2Z.id, Hp. cbn [mbind res_bind].
    rewrite (proj2 (Nat.eqb_eq _ _)) by lia. cbn [negb throw_if mbind res_bind].
    assert (take (length payload) (drop (8 + 32 + 4) (body ++ vec_to_list (cn_fast_hash body)))
      = payload) as ->.
    { rewrite E, !app_assoc, <-(app_assoc _ payload t), drop_app_length'.
      - by rewrite take_app_length.
      - by rewrite !length_app, length_vec_to_list, length_be_bytes. }
    rewrite (take_app_length' body) by lia. rewrite (drop_app_length' body) by lia.
    rewrite Hid, arr_eqb_refl, bool_decide_eq_true_2 by done. done.
Qed.

(** ** The archive's contract *)

(** Every published file is the record of the payload it is named after. *)
Definition archive_ok (sid : Hash256) (dir : Directory) : Prop :=
  ∀ name b, dir !! name = Some b → is_temporary name = true ∨
    ∃ payload, name = record_name (cn_fast_hash payload) ∧ b = archive_record sid payload ∧
      check_payload_size (length payload) = Ok ().

Lemma archive_put_cases sid payload dir :
  let id := cn_fast_hash payload in
  (∃ e, check_payload_size (length payload) = Throw e ∧
        archive_put sid payload dir = (Throw e, dir)) ∨
  check_payload_size (length payload) = Ok () ∧
  ((dir !! record_name id = None ∧ archive_put sid payload dir =
      (Ok id, <[record_name id := archive_record sid payload]> dir)) ∨
   (archive_read sid dir id = Ok payload ∧ archive_put sid payload dir = (Ok id, dir)) ∨
   (is_Some (dir !! record_name id) ∧ archive_read sid dir id ≠ Ok payload ∧
    ∃ e, archive_put sid payload dir = (Throw e, dir))).
Proof.
  cbv zeta. unfold archive_put, exec_bind, exec_const, exec_get, exec_modify, exec_ret, exec_throw.
  destruct (check_payload_size (length payload)) as [[]|e]; [right; split; [done|]|left; by exists e].
  destruct (dir !! record_name (cn_fast_hash payload)) as [b|] eqn:E; [right|by left].
  destruct (archive_read sid dir (cn_fast_hash payload)) as [p|e] eqn:Er.
  - destruct (decide (p = payload)) as [->|Hne].
    + left. by rewrite bool_decide_eq_true_2.
    + right. rewrite bool_decide_eq_false_2 by done. split; [eauto|]. split; [congruence|].
      cbn [negb]. eauto.
  - right. split; [eauto|]. split; [done|]. eauto.
Qed.

Lemma archive_ok_put sid payload dir :
  archive_ok sid dir → archive_ok sid (archive_put sid payload dir).2.
Proof.
  intros Hok. destruct (archive_put_cases sid payload dir)
    as [(e & _ & ->)|[Hsz [[_ ->]|[[_ ->]|(_ & _ & e & ->)]]]]; try done.
  intros name b. cbn [snd]. destruct (decide (name = record_name (cn_fast_hash payload))) as [->|Hne].
  - rewrite lookup_insert_eq. intros [= <-]. right. eauto.
  - rewrite lookup_insert_ne by done. apply Hok.
Qed.

Definition name_id (name : text) : option Hash256 :=
  if is_temporary name then None
  else match id_from_filename name with Ok id => Some id | Throw _ => None end.

Lemma archive_entry sid dir name b :
  archive_ok sid dir → dir !! name = Some b →
  is_temporary name = true ∨
  ∃ id payload, name = record_name id ∧ archive_read sid dir id = Ok payload.
Proof.
  intros Hok Hb. destruct (Hok name b Hb) as [?|(payload & -> & -> & Hsz)]; [by left|right].
  exists (cn_fast_hash payload), payload. split; [done|]. by apply archive_read_ok.
Qed.

Lemma scan_loops sid dir names : ∀ ids count max,
  (∀ name, name ∈ names → is_temporary name = true ∨
     ∃ id payload, name = record_name id ∧ archive_read sid dir id = Ok payload) →
  Z.of_nat (length ids + length names) ≤ max →
  list_ids_loop sid dir max names ids = Ok (ids ++ omap name_id names) ∧
  verify_loop sid dir names count = Ok (count + length (omap name_id names))%nat.
Proof.
  induction names as [|name names IH]; intros ids count max Hall Hmax.
  { simpl. rewrite app_nil_r. split; [done|]. f_equal. lia. }
  pose proof (Hall name ltac:(left)) as Hn. cbn [length] in Hmax.
  cbn [list_ids_loop verify_loop]. unfold scan_entry.
  assert (omap name_id (name :: names) =
    match name_id name with Some id => id :: omap name_id names | None => omap name_id names end)
    as -> by done.
  destruct Hn as [Ht|(id & payload & -> & Hr)].
  - assert (name_id name = None) as -> by (unfold name_id; by rewrite Ht). rewrite Ht. cbn [mbind res_bind mret res_ret]. apply IH; [|lia]. intros n Hin. apply Hall. by right.
  - destruct (record_name_parts id) as (_ & Hx & Ht & Hi).
    assert (name_id (record_name id) = Some id) as -> by (unfold name_id; by rewrite Ht, Hi).
    rewrite Hx, Ht, Hi, bool_decide_eq_true_2 by done. cbn [negb throw_if mbind res_bind].
    rewrite (proj2 (Z.leb_gt _ _)) by lia. cbn [throw_if mbind res_bind]. rewrite Hr.
    cbn [mbind res_bind mret res_ret].
    destruct (IH (ids ++ [id]) (S count) max) as [-> ->].
    + intros n Hin. apply Hall. by right.
    + rewrite length_app. simpl. lia.
    + rewrite <-app_assoc. split; [done|]. simpl. f_equal. lia.
Qed.

Lemma elem_of_work_ids sid dir id :
  archive_ok sid dir →
  id ∈ omap name_id (directory_names dir) ↔ ∃ payload, archive_read sid dir id = Ok payload.
Proof.
  intros Hok. unfold directory_names. rewrite list_elem_of_omap. split.
  - intros (name & ([n b] & -> & Hin)%list_elem_of_fmap & Hid). cbn [fst] in *.
    apply elem_of_map_to_list in Hin. unfold name_id in Hid.
    destruct (is_temporary n) eqn:Ht; [done|].
    destruct (archive_entry sid dir n b Hok Hin) as [?|(i & p & -> & Hr)]; [congruence|].
    destruct (record_name_parts i) as (_ & _ & _ & Hi). rewrite Hi in Hid. injection Hid as <-. eauto.
  - intros (payload & Hr). apply archive_read_ok in Hr as (Hd & _). exists (record_name id).
    destruct (record_name_parts id) as (_ & _ & Ht & Hi). split.
    + apply list_elem_of_fmap. eexists (_, _). split; [done|]. by apply elem_of_map_to_list.
    + unfold name_id. by rewrite Ht, Hi.
Qed.

Lemma work_ids_nodup sid dir : archive_ok sid dir → NoDup (omap name_id (directory_names dir)).
Proof.
  intros Hok. unfold directory_names.
  assert (∀ n, n ∈ (map_to_list dir).*1 → is_temporary n = true ∨ ∃ id, n = record_name id) as Hall.
  { intros n ([m b] & -> & Hin%elem_of_map_to_list)%list_elem_of_fmap.
    destruct (archive_entry sid dir m b Hok Hin) as [?|(i & p & -> & _)]; eauto. }
  pose proof (NoDup_fst_map_to_list dir) as Hnd. revert Hall Hnd.
  generalize ((map_to_list dir).*1). intros l. induction l as [|n l IH]; intros Hall Hnd; [constructor|].
  apply NoDup_cons in Hnd as [Hni Hnd]. specialize (IH ltac:(intros; apply Hall; by right) Hnd).
  simpl. destruct (name_id n) as [id|] eqn:En; [|done]. constructor; [|done].
  intros (m & Hm & Em)%list_elem_of_omap. apply Hni.
  assert (∀ x i, (is_temporary x = true ∨ ∃ id, x = record_name id) → name_id x = Some i →
    x = record_name i) as Hname.
  { unfold name_id. intros x i [->|[j ->]]; [done|].
    destruct (record_name_parts j) as (_ & _ & -> & ->). by intros [= ->]. }
  rewrite (Hname n id), <-(Hname m id); try done; apply Hall; [by right|by left].
Qed.

(** The archive stores each payload once and for ever.  Putting a payload of
    the allowed size returns its hash; from then on reading that id gives the
    payload, every other record reads as before, and putting it again changes
    nothing.  A throw leaves the directory as it was and means a bad size or a
    file already under that name that is not this payload's record.  Whatever
    is put, a scan succeeds, counts the records, and lists exactly the readable
    ids, in ascending order. *)
Theorem archive_contract : ∀ sid dir payload,
  archive_ok sid dir →
  match archive_put sid payload dir with
  | (Ok id, dir') => id = cn_fast_hash payload ∧
      archive_read sid dir' id = Ok payload ∧
      (∀ other, other ≠ id → archive_read sid dir' other = archive_read sid dir other) ∧
      archive_put sid payload dir' = (Ok id, dir')
  | (Throw _, dir') => dir' = dir ∧
      (is_ok (check_payload_size (length payload)) = false ∨
       ∃ p, p ≠ payload ∧ archive_read sid dir (cn_fast_hash payload) = Ok p)
  end ∧
  ∃ ids, list_ids sid (archive_put sid payload dir).2
           (Z.of_nat (size (archive_put sid payload dir).2)) = Ok ids ∧
    verify_all sid (archive_put sid payload dir).2 = Ok (length ids) ∧
    NoDup ids ∧ StronglySorted arr_le ids ∧
    ∀ id, id ∈ ids ↔ ∃ p, archive_read sid (archive_put sid payload dir).2 id = Ok p.
Proof.
  intros sid dir payload Hok. split.
  - destruct (archive_put_cases sid payload dir)
      as [(e & Hsz & ->)|[Hsz [[Hn ->]|[[Hr ->]|([b Hb] & Hne & e & ->)]]]].
    + split; [done|]. left. by rewrite Hsz.
    + split; [done|]. set (dir' := <[_ := _]> dir).
      assert (archive_read sid dir' (cn_fast_hash payload) = Ok payload) as Hr
        by (apply archive_read_ok; split; [apply lookup_insert_eq|done]).
      split; [done|]. split.
      * intros other Hot. unfold archive_read, dir'. rewrite lookup_insert_ne; [done|].
        intros E%record_name_inj. by symmetry in E.
      * destruct (archive_put_cases sid payload dir')
          as [(e & Hsz' & _)|[_ [[Hn' _]|[[_ ?]|(_ & Hne & _)]]]]; try done; [congruence|].
        unfold dir' in Hn'. by rewrite lookup_insert_eq in Hn'.
    + split; [done|]. split; [done|]. split; [done|].
      destruct (archive_put_cases sid payload dir)
        as [(e & Hsz' & _)|[_ [[Hn' _]|[[_ ?]|(_ & Hne & _)]]]]; try done; [congruence|].
      apply archive_read_ok in Hr as [Hd _]. congruence.
    + split; [done|]. right.
      destruct (archive_entry sid dir _ b Hok Hb) as [Ht|(id & p & E & Hr)].
      * destruct (record_name_parts (cn_fast_hash payload)) as (_ & _ & ? & _). congruence.
      * apply record_name_inj in E. subst id. exists p. split; [congruence|done].
  - pose proof (archive_ok_put sid payload dir Hok) as Hok'.
    set (dir' := (archive_put sid payload dir).2) in *.
    assert (length (directory_names dir') = size dir') as Hlen.
    { unfold directory_names. by rewrite length_fmap, length_map_to_list. }
    destruct (scan_loops sid dir' (directory_names dir') [] 0 (Z.of_nat (size dir'))) as [Hl Hv].
    { intros name ([n b] & -> & Hin%elem_of_map_to_list)%list_elem_of_fmap.
      by apply (archive_entry sid dir' n b). }
    { rewrite Hlen. simpl. lia. }
    exists (sort_ids (omap name_id (directory_names dir'))). unfold list_ids, verify_all.
    rewrite Hl, Hv. cbn [mbind res_bind app]. split; [done|].
    assert (sort_ids (omap name_id (directory_names dir')) ≡ₚ omap name_id (directory_names dir'))
      as Hperm by apply merge_sort_Permutation.
    split; [by rewrite Hperm|]. split; [rewrite Hperm; by eapply work_ids_nodup|].
    split; [apply (StronglySorted_merge_sort _)|]. intros id. rewrite elem_of_sort_ids.
    by apply elem_of_work_ids.
Qed.

(** An empty archive satisfies the hypothesis. *)
Lemma archive_contract_witness :
  ∃ ids, list_ids (fill_be 32 7) (archive_put (fill_be 32 7) (context_layout demo_proposal) ∅).2
    (Z.of_nat (size (archive_put (fill_be 32 7) (context_layout demo_proposal) ∅).2)) = Ok ids.
Proof.
  destruct (proj2 (archive_contract (fill_be 32 7) ∅
    (context_layout demo_proposal)
    ltac:(intros name b Hb; rewrite lookup_empty in Hb; discriminate Hb))) as (ids & Hl & _).
  exists ids. exact Hl.
Defined.
