(* ===== verification/WorkRetrieval.v ===== *)
(** Retrieval of archived mining work from peers, in chunks:
    [include/zano_p2pool/p2p_work_retrieval.hpp], [src/p2p_work_retrieval.cpp].
    The archive directory is part of the state it shares with
    [MiningWorkArchive]. *)
From S2P Require Import Prelude CryptoHash PowTarget Share P2pProtocol BlockTemplate MiningHeader.
From S2P Require Import MiningContext WorkArchive.
Local Open Scope pool_scope.

Abbreviation MiningWorkKey := (Z * Hash256)%type.

Definition kMiningWorkChunkSize : Z := 16 * 1024.
Definition kMiningWorkMaxPending : nat := 16.
Definition kMiningWorkMaxReceived : nat := 8.
Definition kMiningWorkRequestLifetime : Z := 60.

Record MiningWorkRequest := mkWorkRequest { wr_key : MiningWorkKey; wr_offset : Z }.
Record MiningWorkResponse := mkWorkResponse {
  ws_request : MiningWorkRequest;
  ws_total_size : Z;
  ws_chunk : list byte }.

(** [require(ok, message)]. *)
Definition require_that (ok : bool) (message : string) : res () :=
  throw_if (negb ok) RuntimeError message.

Definition check_envelope (e : P2pEnvelope) (type : P2pMessageType) : res () :=
  require_that ((env_version e =? kP2pProtocolVersion) && bool_decide (env_type e = type) &&
    (env_flags e =? 0) && (Z.of_nat (length (env_payload e)) <=? kP2pMaxPayloadSize))
    "invalid work-retrieval envelope".

Definition has_work_retrieval (peer : P2pHandshake) : bool :=
  negb (Z.land (hs_capabilities peer) kP2pCapabilityWorkRetrieval =? 0).
Definition check_peer (peer : P2pHandshake) : res () :=
  require_that (has_work_retrieval peer) "peer lacks work-retrieval capability".

Definition check_request (r : MiningWorkRequest) : res () :=
  require_that (negb (arr_eqb (wr_key r).2 (arr_zero 32)) && (wr_offset r <? kP2pMaxPayloadSize) &&
    (wr_offset r mod kMiningWorkChunkSize =? 0)) "invalid work request key/offset".

Definition decode_request (p : list byte) : res MiningWorkRequest :=
  (let r := mkWorkRequest (be_Z (take 8 p), copy_n 32 p 8) (be_Z (take 4 (drop 40 p))) in
  _ ← check_request r;
  mret r)%stdpp.

Definition check_response (r : MiningWorkResponse) : res () :=
  (_ ← check_request (ws_request r);
  if ws_total_size r =? 0
  then require_that (bool_decide (ws_chunk r = [])) "not-found work response contains data"
  else
  _ ← require_that ((Z.of_nat kP2pMiningContextFixedPayloadSize <=? ws_total_size r) &&
        (ws_total_size r <=? kP2pMaxPayloadSize) && (wr_offset (ws_request r) <? ws_total_size r))
        "invalid work response total";
  require_that (Z.of_nat (length (ws_chunk r)) =?
      Z.min kMiningWorkChunkSize (ws_total_size r - wr_offset (ws_request r)))
    "invalid work response chunk size")%stdpp.

Definition request_payload (r : MiningWorkRequest) : list byte :=
  be_bytes 8 (wr_key r).1 ++ vec_to_list (wr_key r).2 ++ be_bytes 4 (wr_offset r).

(** The message types have the names of the records. *)
Definition make_mining_work_request (r : MiningWorkRequest) : res P2pEnvelope :=
  (_ ← check_request r;
  mret (mkEnvelope kP2pProtocolVersion P2pProtocol.MiningWorkRequest 0 (request_payload r)))%stdpp.

Definition parse_mining_work_request (e : P2pEnvelope) : res MiningWorkRequest :=
  (_ ← check_envelope e P2pProtocol.MiningWorkRequest;
  _ ← require_that (length (env_payload e) =? 44)%nat "invalid work request length";
  decode_request (env_payload e))%stdpp.

Definition make_mining_work_response (r : MiningWorkResponse) : res P2pEnvelope :=
  (_ ← check_response r;
  e ← make_mining_work_request (ws_request r);
  mret (mkEnvelope (env_version e) P2pProtocol.MiningWorkResponse (env_flags e)
          (env_payload e ++ be_bytes 4 (ws_total_size r) ++ ws_chunk r)))%stdpp.

Definition parse_mining_work_response (e : P2pEnvelope) : res MiningWorkResponse :=
  (_ ← check_envelope e P2pProtocol.MiningWorkResponse;
  _ ← require_that ((48 <=? length (env_payload e))%nat &&
        (Z.of_nat (length (env_payload e)) <=? 48 + kMiningWorkChunkSize))
        "invalid work response length";
  request ← decode_request (env_payload e);
  let r := mkWorkResponse request (be_Z (take 4 (drop 44 (env_payload e))))
             (drop 48 (env_payload e)) in
  _ ← check_response r;
  mret r)%stdpp.

(** ** The state *)

Record Pending := mkPending {
  pd_started : Z;
  pd_total : Z;
  pd_finished : bool;
  pd_bytes : list byte }.

Abbreviation PendingKey := (NodeId * MiningWorkKey)%type.

Record P2pWorkRetrieval := mkRetrieval {
  rt_local : gmap MiningWorkKey Hash256;
  rt_local_observations : gmap (Z * Hash256) (gmap Hash256 P2pMiningAnchor);
  rt_pending : gmap PendingKey Pending;
  rt_received : gmap MiningWorkKey (list byte) }.

Definition empty_retrieval : P2pWorkRetrieval := mkRetrieval ∅ ∅ ∅ ∅.
Definition set_pending (m : gmap PendingKey Pending) (st : P2pWorkRetrieval) : P2pWorkRetrieval :=
  mkRetrieval (rt_local st) (rt_local_observations st) m (rt_received st).
Definition set_received (m : gmap MiningWorkKey (list byte)) (st : P2pWorkRetrieval)
    : P2pWorkRetrieval :=
  mkRetrieval (rt_local st) (rt_local_observations st) (rt_pending st) m.

(** [std::pair]'s order, by which the maps are sorted. *)
Definition work_key_le (a b : MiningWorkKey) : Prop :=
  a.1 < b.1 ∨ a.1 = b.1 ∧ arr_le a.2 b.2.
Definition pending_key_le (a b : PendingKey) : Prop :=
  arr_Z a.1 < arr_Z b.1 ∨ a.1 = b.1 ∧ work_key_le a.2 b.2.
#[export] Instance work_key_le_dec a b : Decision (work_key_le a b).
Proof. unfold work_key_le. apply _. Defined.
#[export] Instance pending_key_le_dec a b : Decision (pending_key_le a b).
Proof. unfold pending_key_le. apply _. Defined.

(** [m.begin()]. *)
Definition first_received (m : gmap MiningWorkKey (list byte)) : option MiningWorkKey :=
  head (merge_sort work_key_le (map_to_list m).*1).
Definition pending_sorted (m : gmap PendingKey Pending) : list (PendingKey * Pending) :=
  merge_sort (λ a b, pending_key_le a.1 b.1) (map_to_list m).

(** [map::try_emplace]. *)
Definition try_emplace {K A} `{Countable K} (k : K) (a : A) (m : gmap K A) : gmap K A :=
  match m !! k with Some _ => m | None => <[k := a]> m end.

Definition expired (now : Z) (p : Pending) : bool :=
  (now <? pd_started p) || (kMiningWorkRequestLifetime <=? now - pd_started p).
Definition expire (now : Z) (st : P2pWorkRetrieval) : P2pWorkRetrieval :=
  set_pending (filter (λ kv, expired now kv.2 = false) (rt_pending st)) st.

Section Retrieval.
Context `{!JsonC}.

Definition checked_key (p : P2pMiningContextProposal) : res MiningWorkKey :=
  (work ← derive_mining_header_work (pp_block_template_blob p);
  mret (pp_zano_height p, mw_header_hash work))%stdpp.

Definition checked_local_anchor (p : P2pMiningContextProposal) : res P2pMiningAnchor :=
  (_ ← validate_p2p_mining_context_structure p;
  mret (mkAnchor (pp_zano_height p) (pp_prev_hash p) (pp_network_difficulty p) (pp_seed p)
          (pp_block_reward_without_fee p)))%stdpp.

Definition emplace_local (key : MiningWorkKey) (id : Hash256) (anchor : P2pMiningAnchor)
    (st : P2pWorkRetrieval) : P2pWorkRetrieval :=
  let at_parent := (an_zano_height anchor, an_prev_hash anchor) in
  mkRetrieval (try_emplace key id (rt_local st))
    (<[at_parent := try_emplace id anchor
         (default ∅ (rt_local_observations st !! at_parent))]> (rt_local_observations st))
    (rt_pending st) (rt_received st).

Fixpoint index_archive (sid : Hash256) (dir : Directory) (names : list text)
    (st : P2pWorkRetrieval) : res P2pWorkRetrieval :=
  match names with
  | [] => Ok st
  | name :: rest =>
      (if negb (bool_decide (path_extension name = dot_work))
      then index_archive sid dir rest st
      else
      bytes ← hex_to_bytes (path_stem name);
      let id := arr_of 32 bytes in
      payload ← archive_read sid dir id;
      proposal ← deserialize_p2p_mining_context_payload payload;
      key ← checked_key proposal;
      anchor ← checked_local_anchor proposal;
      index_archive sid dir rest (emplace_local key id anchor st))%stdpp
  end.

Definition new_work_retrieval (sid : Hash256) (dir : Directory) : res P2pWorkRetrieval :=
  (_ ← verify_all sid dir;
  index_archive sid dir (directory_names dir) empty_retrieval)%stdpp.

Definition remember_local (p : P2pMiningContextProposal) : exec P2pWorkRetrieval () :=
  id <- exec_const (λ _, p2p_mining_context_id p) ;;
  key <- exec_const (λ _, checked_key p) ;;
  anchor <- exec_const (λ _, checked_local_anchor p) ;;
  exec_modify (emplace_local key id anchor).

Definition local_observations (st : P2pWorkRetrieval) (zano_height : Z) (prev_hash : Hash256)
    : list P2pMiningAnchor :=
  match rt_local_observations st !! (zano_height, prev_hash) with
  | None => []
  | Some observations => (map_sorted observations).*2
  end.

Definition read_local (sid : Hash256) (dir : Directory) (st : P2pWorkRetrieval)
    (key : MiningWorkKey) : res (option (list byte)) :=
  match rt_local st !! key with
  | None => Ok None
  | Some id => (payload ← archive_read sid dir id; mret (Some payload))%stdpp
  end.

(** ** Requesting *)

(** The oldest finished entry, the first one in key order among equals. *)
Definition older (best : option (PendingKey * Pending)) (kv : PendingKey * Pending)
    : option (PendingKey * Pending) :=
  if negb (pd_finished kv.2) then best
  else match best with
       | None => Some kv
       | Some b => if pd_started kv.2 <? pd_started b.2 then Some kv else best
       end.
Definition reusable (m : gmap PendingKey Pending) : option PendingKey :=
  fst <$> fold_left older (pending_sorted m) None.

Definition active_of (node : NodeId) (m : gmap PendingKey Pending) : gmap PendingKey Pending :=
  filter (λ kv, kv.1.1 = node ∧ pd_finished kv.2 = false) m.

(** The table with a free slot, if there can be one. *)
Definition make_room (m : gmap PendingKey Pending) : option (gmap PendingKey Pending) :=
  if (kMiningWorkMaxPending <=? size m)%nat then
    match reusable m with Some k => Some (delete k m) | None => None end
  else Some m.

Definition begin (peer : P2pHandshake) (key : MiningWorkKey) (now : Z)
    : exec P2pWorkRetrieval (option P2pEnvelope) :=
  if negb (has_work_retrieval peer) then exec_ret None
  else
  request <- exec_const (λ _, make_mining_work_request (mkWorkRequest key 0)) ;;
  do exec_modify (expire now) ;;
  st <- exec_get ;;
  let pending_key := (hs_node_id peer, key) in
  if bool_decide (is_Some (rt_received st !! key)) ||
     bool_decide (is_Some (rt_pending st !! pending_key))
  then exec_ret None
  else if (2 <=? size (active_of (hs_node_id peer) (rt_pending st)))%nat
  then exec_ret None
  else
  match make_room (rt_pending st) with
  | None => exec_ret None
  | Some m =>
      do exec_modify (set_pending (<[pending_key := mkPending now 0 false []]> m)) ;;
      exec_ret (Some request)
  end.

Definition answer (sid : Hash256) (dir : Directory) (st : P2pWorkRetrieval) (peer : P2pHandshake)
    (envelope : P2pEnvelope) : res P2pEnvelope :=
  (_ ← check_peer peer;
  request ← parse_mining_work_request envelope;
  response ←
    match rt_local st !! wr_key request with
    | None => mret (mkWorkResponse request 0 [])
    | Some id =>
        payload ← archive_read sid dir id;
        _ ← require_that (wr_offset request <? Z.of_nat (length payload))
              "work request offset beyond record";
        let count := Z.min kMiningWorkChunkSize
                       (Z.of_nat (length payload) - wr_offset request) in
        mret (mkWorkResponse request (Z.of_nat (length payload))
                (take (Z.to_nat count) (drop (Z.to_nat (wr_offset request)) payload)))
    end;
  make_mining_work_response response)%stdpp.

(** ** Receiving *)

Record MiningWorkReceiveResult := mkWorkReceive {
  wv_followup : option P2pEnvelope;
  wv_received_id : option Hash256 }.

(** The body of the [try] block, over the entry and the received records. *)
Definition receive_chunk (response : MiningWorkResponse)
    : exec (Pending * gmap MiningWorkKey (list byte)) MiningWorkReceiveResult :=
  entry <- exec_get ;;
  let '(pending, received) := entry in
  let key := wr_key (ws_request response) in
  do exec_const (λ _, require_that
       (wr_offset (ws_request response) =? Z.of_nat (length (pd_bytes pending)))
       "out-of-order work response") ;;
  if ws_total_size response =? 0 then
    do exec_modify (λ _, (mkPending (pd_started pending) (pd_total pending) true [], received)) ;;
    exec_ret (mkWorkReceive None None)
  else
  do exec_const (λ _, require_that
       ((pd_total pending =? 0) || (pd_total pending =? ws_total_size response))
       "work response total changed") ;;
  let bytes := pd_bytes pending ++ ws_chunk response in
  do exec_modify (λ _, (mkPending (pd_started pending) (ws_total_size response)
                          (pd_finished pending) bytes, received)) ;;
  if Z.of_nat (length bytes) <? ws_total_size response then
    request <- exec_const (λ _,
      make_mining_work_request (mkWorkRequest key (wrap32 (Z.of_nat (length bytes))))) ;;
    exec_ret (mkWorkReceive (Some request) None)
  else
  proposal <- exec_const (λ _, deserialize_p2p_mining_context_payload bytes) ;;
  found <- exec_const (λ _, checked_key proposal) ;;
  do exec_const (λ _, require_that (bool_decide (found = key))
       "work evidence does not match requested header/height") ;;
  id <- exec_const (λ _, p2p_mining_context_id proposal) ;;
  let received :=
    if (kMiningWorkMaxReceived <=? size received)%nat then
      match first_received received with Some k => delete k received | None => received end
    else received in
  do exec_modify (λ _, (mkPending (pd_started pending) (ws_total_size response) true [],
                        <[key := bytes]> received)) ;;
  exec_ret (mkWorkReceive None (Some id)).

Definition receive_work (peer : P2pHandshake) (envelope : P2pEnvelope) (now : Z)
    : exec P2pWorkRetrieval MiningWorkReceiveResult :=
  do exec_const (λ _, check_peer peer) ;;
  response <- exec_const (λ _, parse_mining_work_response envelope) ;;
  do exec_modify (expire now) ;;
  λ st,
  let pending_key := (hs_node_id peer, wr_key (ws_request response)) in
  match rt_pending st !! pending_key with
  | Some pending =>
      if pd_finished pending
      then (throw RuntimeError "unsolicited/expired work response", st)
      else
      match receive_chunk response (pending, rt_received st) with
      | (Ok r, (pending, received)) =>
          (Ok r, set_received received
                   (set_pending (<[pending_key := pending]> (rt_pending st)) st))
      | (Throw e, (pending, received)) =>
          (Throw e, set_received received
             (set_pending (<[pending_key :=
                mkPending (pd_started pending) (pd_total pending) true []]> (rt_pending st)) st))
      end
  | None => (throw RuntimeError "unsolicited/expired work response", st)
  end.

Definition take_untrusted (key : MiningWorkKey) : exec P2pWorkRetrieval (option (list byte)) :=
  st <- exec_get ;;
  match rt_received st !! key with
  | None => exec_ret None
  | Some bytes =>
      do exec_modify (set_received (delete key (rt_received st))) ;;
      exec_ret (Some bytes)
  end.

End Retrieval.

(** ** The bounds *)

(** An entry that is being filled is empty or holds whole chunks of a record of a
    known, legal size that it does not complete; a finished entry holds nothing. *)
Definition pending_ok (p : Pending) : Prop :=
  if pd_finished p then pd_bytes p = []
  else pd_total p = 0 ∧ pd_bytes p = [] ∨
       121 ≤ pd_total p ≤ kP2pMaxPayloadSize ∧
       0 < Z.of_nat (length (pd_bytes p)) < pd_total p ∧
       Z.of_nat (length (pd_bytes p)) mod kMiningWorkChunkSize = 0.

Record retrieval_ok `{!JsonC} (st : P2pWorkRetrieval) : Prop := {
  ro_pending : (size (rt_pending st) ≤ kMiningWorkMaxPending)%nat;
  ro_active : ∀ node : NodeId, (size (active_of node (rt_pending st)) ≤ 2)%nat;
  ro_entries : ∀ k p, rt_pending st !! k = Some p → pending_ok p;
  ro_received : (size (rt_received st) ≤ kMiningWorkMaxReceived)%nat;
  ro_evidence : ∀ key b, rt_received st !! key = Some b →
    ∃ p, deserialize_p2p_mining_context_payload b = Ok p ∧ checked_key p = Ok key }.

Lemma size_subseteq {K A} `{Countable K} (m1 m2 : gmap K A) : m1 ⊆ m2 → (size m1 ≤ size m2)%nat.
Proof. intros Hs. rewrite <-!size_dom. by apply subseteq_size, subseteq_dom. Qed.

Lemma active_mono (node : NodeId) (m1 m2 : gmap PendingKey Pending) :
  m1 ⊆ m2 → (size (active_of node m1) ≤ size (active_of node m2))%nat.
Proof. intros Hs. apply size_subseteq. by apply map_filter_subseteq_mono. Qed.

Lemma active_insert (node : NodeId) (k : PendingKey) (p : Pending) (m : gmap PendingKey Pending) :
  (k.1 ≠ node ∨ pd_finished p = true →
   size (active_of node (<[k := p]> m)) ≤ size (active_of node m))%nat ∧
  (size (active_of node (<[k := p]> m)) ≤ S (size (active_of node m)))%nat.
Proof.
  unfold active_of. rewrite map_filter_insert. split.
  - intros Hk. rewrite decide_False by (simpl; intros [? ?]; destruct Hk; congruence).
    apply size_subseteq, map_filter_subseteq_mono, delete_subseteq.
  - case_decide.
    + rewrite map_size_insert. destruct (filter _ m !! k); simpl; lia.
    + etransitivity; [apply size_subseteq, map_filter_subseteq_mono, delete_subseteq|]. lia.
Qed.

(** Updating an entry that is active. *)
Lemma active_update (node : NodeId) (k : PendingKey) (p p0 : Pending) (m : gmap PendingKey Pending) :
  m !! k = Some p0 → pd_finished p0 = false →
  (size (active_of node (<[k := p]> m)) ≤ size (active_of node m))%nat.
Proof.
  intros Hk Hf. destruct (decide (k.1 = node)) as [<-|Hne]; [|by apply (proj1 (active_insert _ _ _ _)); left].
  unfold active_of. rewrite map_filter_insert. case_decide.
  - rewrite map_size_insert.
    assert (filter (λ kv : PendingKey * Pending, kv.1.1 = k.1 ∧ pd_finished kv.2 = false) m !! k =
      Some p0) as -> by (by apply map_lookup_filter_Some). simpl. lia.
  - apply size_subseteq, map_filter_subseteq_mono, delete_subseteq.
Qed.

Lemma expire_ok `{!JsonC} now st : retrieval_ok st → retrieval_ok (expire now st).
Proof.
  intros [H1 H2 H3 H4 H5]. pose proof (map_filter_subseteq
    (λ kv : PendingKey * Pending, expired now kv.2 = false) (rt_pending st)) as Hs.
  split; cbn [expire set_pending rt_pending rt_received]; try done.
  - etransitivity; [by apply size_subseteq|done].
  - intros node. etransitivity; [by apply active_mono|done].
  - intros k p Hk. by eapply H3, lookup_weaken.
Qed.

Lemma older_spec l : ∀ b,
  (∀ kv, b = Some kv → pd_finished kv.2 = true) →
  ∀ kv, fold_left older l b = Some kv → pd_finished kv.2 = true ∧ (kv ∈ l ∨ b = Some kv).
Proof.
  induction l as [|x l IH]; intros b Hb kv Hf; cbn [fold_left] in Hf; [auto|].
  assert (∀ kv, older b x = Some kv → pd_finished kv.2 = true ∧ (kv = x ∨ b = Some kv)) as Hx.
  { intros y. unfold older. destruct (pd_finished x.2) eqn:E; cbn [negb]; [|auto].
    destruct b as [y'|]; [|intros [= <-]; auto].
    destruct (_ <? _); intros [= <-]; auto. }
  destruct (IH _ ltac:(intros; by apply Hx) kv Hf) as [Hfin [?|Ho]]; [split; [done|]; left; by right|].
  destruct (Hx kv Ho) as [? [->|?]]; split; try done; [left; left|by right].
Qed.

Lemma reusable_finished m k :
  reusable m = Some k → ∃ p, m !! k = Some p ∧ pd_finished p = true.
Proof.
  unfold reusable. intros ([k' p] & Hf & ->)%fmap_Some.
  destruct (older_spec _ None ltac:(done) _ Hf) as [Hfin [Hin|?]]; [|done].
  exists p. split; [|done]. unfold pending_sorted in Hin. rewrite merge_sort_Permutation in Hin.
  by apply elem_of_map_to_list in Hin.
Qed.

(** Making room drops a finished entry at most. *)
Lemma make_room_spec m m' :
  make_room m = Some m' →
  m' ⊆ m ∧ ((size m ≤ kMiningWorkMaxPending)%nat → (size m' < kMiningWorkMaxPending)%nat) ∧
  ∀ k p, m !! k = Some p → pd_finished p = false → m' !! k = Some p.
Proof.
  unfold make_room. destruct (Nat.leb_spec kMiningWorkMaxPending (size m)) as [Hle|Hlt].
  - destruct (reusable m) as [k|] eqn:Er; [|done]. intros [= <-].
    apply reusable_finished in Er as (p & Hp & Hf). split; [apply delete_subseteq|]. split.
    + intros Hs. rewrite map_size_delete_Some by eauto. unfold kMiningWorkMaxPending in *. lia.
    + intros k' p' Hk' Hf'. rewrite lookup_delete_ne; [done|]. intros <-. congruence.
  - intros [= <-]. split; [done|]. split; [intros _; done|done].
Qed.

Lemma require_ok_that b m u : require_that b m = Ok u ↔ b = true.
Proof. unfold require_that. rewrite throw_if_ok. apply negb_false_iff. Qed.

Lemma check_request_ok r :
  check_request r = Ok () ↔
  (wr_key r).2 ≠ arr_zero 32 ∧ wr_offset r < kP2pMaxPayloadSize ∧
  wr_offset r mod kMiningWorkChunkSize = 0.
Proof.
  unfold check_request. rewrite require_ok_that, !andb_true_iff, negb_true_iff, arr_eqb_false,
    Z.ltb_lt, Z.eqb_eq. tauto.
Qed.

Lemma check_response_ok r :
  check_response r = Ok () ↔
  check_request (ws_request r) = Ok () ∧
  (ws_total_size r = 0 ∧ ws_chunk r = [] ∨
   ws_total_size r ≠ 0 ∧ 121 ≤ ws_total_size r ≤ kP2pMaxPayloadSize ∧
   wr_offset (ws_request r) < ws_total_size r ∧
   Z.of_nat (length (ws_chunk r)) =
     Z.min kMiningWorkChunkSize (ws_total_size r - wr_offset (ws_request r))).
Proof.
  unfold check_response. destruct (check_request (ws_request r)) as [[]|e]; [|by split; [|intros [? _]]].
  cbn [mbind res_bind]. destruct (Z.eqb_spec (ws_total_size r) 0) as [E|E].
  - rewrite require_ok_that, bool_decide_eq_true. split; [auto|].
    intros [_ [[_ ?]|[? _]]]; [done|lia].
  - split.
    + intros H. apply res_bind_ok in H as ([] & H1%require_ok_that & H2%require_ok_that). bool_prop.
      split; [done|]. right. change (Z.of_nat kP2pMiningContextFixedPayloadSize) with 121 in *. lia.
    + intros [_ [[? _]|(_ & H1 & H2 & H3)]]; [done|].
      change (Z.of_nat kP2pMiningContextFixedPayloadSize) with 121.
      rewrite !(proj2 (Z.leb_le _ _)), (proj2 (Z.ltb_lt _ _)) by lia. cbn [andb].
      change (require_that true ?m) with (Ok ()). cbn [mbind res_bind].
      apply require_ok_that. by apply Z.eqb_eq.
Qed.

Lemma parse_work_response_ok e r :
  parse_mining_work_response e = Ok r →
  check_response r = Ok () ∧ 0 ≤ wr_offset (ws_request r) ∧ 0 ≤ ws_total_size r.
Proof.
  unfold parse_mining_work_response. intros H. apply res_bind_ok in H as (_ & _ & H).
  apply res_bind_ok in H as (_ & _ & H). apply res_bind_ok in H as (q & Hq & H).
  apply res_bind_ok in H as ([] & Hc & H). injection H as <-. split; [done|].
  unfold decode_request in Hq. apply res_bind_ok in Hq as (_ & _ & Hq). injection Hq as <-.
  cbn [ws_request wr_offset ws_total_size]. split; apply be_Z_range.
Qed.

Section Bounds.
Context `{!JsonC}.

(** What [begin] can do: expire, and add one entry. *)
Lemma begin_outcome peer key now st r st' :
  begin peer key now st = (r, st') →
  ((st' = st ∨ st' = expire now st) ∧ ∀ q, r ≠ Ok (Some q)) ∨
  ∃ request m,
    make_mining_work_request (mkWorkRequest key 0) = Ok request ∧ r = Ok (Some request) ∧
    has_work_retrieval peer = true ∧
    rt_pending (expire now st) !! (hs_node_id peer, key) = None ∧
    (size (active_of (hs_node_id peer) (rt_pending (expire now st))) < 2)%nat ∧
    make_room (rt_pending (expire now st)) = Some m ∧
    st' = set_pending (<[(hs_node_id peer, key) := mkPending now 0 false []]> m) (expire now st).
Proof.
  unfold begin.
  destruct (has_work_retrieval peer); cbn [negb]; [|intros [= <- <-]; left; split; [by left|done]].
  unfold exec_bind, exec_const, exec_modify, exec_get, exec_ret.
  destruct (make_mining_work_request _) as [q|e]; [|intros [= <- <-]; left; split; [by left|done]].
  destruct (_ || _) eqn:Eo; [intros [= <- <-]; left; split; [by right|done]|]. bool_prop.
  destruct (Nat.leb_spec 2 (size (active_of (hs_node_id peer) (rt_pending (expire now st)))));
    [intros [= <- <-]; left; split; [by right|done]|].
  destruct (make_room (rt_pending (expire now st))) as [m|] eqn:Em;
    [|intros [= <- <-]; left; split; [by right|done]].
  intros [= <- <-]. right. exists q, m.
  do 3 (split; [done|]). split; [by apply eq_None_not_Some|]. done.
Qed.

Lemma begin_ok peer key now st : retrieval_ok st → retrieval_ok (begin peer key now st).2.
Proof.
  intros Hok. destruct (begin peer key now st) as [r st'] eqn:E.
  destruct (begin_outcome _ _ _ _ _ _ E)
    as [[[->| ->] _]|(q & m & _ & _ & _ & Hn & Ha & Hm & ->)]; [done|by apply expire_ok|].
  apply (expire_ok now) in Hok as [H1 H2 H3 H4 H5].
  apply make_room_spec in Hm as (Hsub & Hsz & _). specialize (Hsz H1).
  split; cbn [snd set_pending rt_pending rt_received]; try done.
  - rewrite map_size_insert. destruct (m !! _); simpl; unfold kMiningWorkMaxPending in *; lia.
  - intros node. destruct (decide (hs_node_id peer = node)) as [<-|Hne].
    + etransitivity; [apply (proj2 (active_insert _ _ _ _))|]. pose proof (active_mono (hs_node_id peer) _ _ Hsub). lia.
    + etransitivity; [apply (proj1 (active_insert _ _ _ _)); by left|]. etransitivity; [by apply active_mono|done].
  - intros k p [[_ <-]|[_ Hk]]%lookup_insert_Some; [by left|]. by eapply H3, lookup_weaken.
Qed.

(** What one response does to the entry it belongs to. *)
Lemma receive_chunk_outcome response p received r p' received' :
  receive_chunk response (p, received) = (r, (p', received')) →
  pending_ok p → pd_finished p = false → check_response response = Ok () →
  0 ≤ ws_total_size response →
  pd_started p' = pd_started p ∧
  match r with
  | Throw _ => received' = received
  | Ok _ => pending_ok p' ∧
      (received' = received ∨
       ∃ b q, deserialize_p2p_mining_context_payload b = Ok q ∧
         checked_key q = Ok (wr_key (ws_request response)) ∧
         (received' = <[wr_key (ws_request response) := b]> received ∧
          (size received < kMiningWorkMaxReceived)%nat ∨
          ∃ k, is_Some (received !! k) ∧
            received' = <[wr_key (ws_request response) := b]> (delete k received)))
  end.
Proof.
  intros Hrun Hok Hf Hc Ht. unfold receive_chunk, exec_bind, exec_get, exec_const, exec_modify,
    exec_ret in Hrun. cbv zeta in Hrun.
  apply check_response_ok in Hc as [Hreq Hc].
  destruct (require_that _ "out-of-order work response") as [[]|e] eqn:Eo;
    [|by injection Hrun as <- <- <-]. apply require_ok_that in Eo. bool_prop.
  destruct (Z.eqb_spec (ws_total_size response) 0) as [E0|E0].
  { injection Hrun as <- <- <-. split; [done|]. split; [done|]. by left. }
  destruct Hc as [[? _]|(_ & Hr & Hlt & Hlen)]; [done|].
  destruct (require_that _ "work response total changed") as [[]|e] eqn:Et;
    [|by injection Hrun as <- <- <-].
  destruct (Z.ltb_spec (Z.of_nat (length (pd_bytes p ++ ws_chunk response)))
    (ws_total_size response)) as [Hmore|Hdone].
  - destruct (make_mining_work_request _) as [q|e]; injection Hrun as <- <- <-; [|done].
    split; [done|]. split; [|by left]. unfold pending_ok. cbn [pd_finished pd_total pd_bytes].
    rewrite Hf. right. rewrite length_app in *.
    apply check_request_ok in Hreq as (_ & _ & Hmod). rewrite Eo in Hmod, Hlen, Hlt.
    assert (Z.of_nat (length (ws_chunk response)) = kMiningWorkChunkSize) as Hfull by lia.
    rewrite Nat2Z.inj_add in *. rewrite Hfull in *. unfold kMiningWorkChunkSize in *.
    split; [lia|]. split; [lia|]. rewrite <-(Z.mul_1_l (16 * 1024)) at 1.
    rewrite Z.mod_add by lia. done.
  - destruct (deserialize_p2p_mining_context_payload _) as [q|e] eqn:Ed; [|by injection Hrun as <- <- <-].
    destruct (checked_key q) as [key|e] eqn:Ek; [|by injection Hrun as <- <- <-].
    destruct (require_that _ "work evidence does not match requested header/height") as [[]|e] eqn:Em;
      [|by injection Hrun as <- <- <-]. apply require_ok_that in Em. bool_prop. subst key.
    destruct (p2p_mining_context_id q) as [id|e]; [|by injection Hrun as <- <- <-].
    destruct (Nat.leb_spec kMiningWorkMaxReceived (size received)) as [Hfull|Hroom].
    2: { injection Hrun as <- <- <-. split; [done|]. split; [done|]. right.
         exists (pd_bytes p ++ ws_chunk response), q. auto. }
    destruct (first_received received) as [k|] eqn:Ef.
    + injection Hrun as <- <- <-. split; [done|]. split; [done|]. right.
      exists (pd_bytes p ++ ws_chunk response), q. split; [done|]. split; [done|]. right.
      exists k. split; [|done]. unfold first_received in Ef.
      apply head_Some_elem_of in Ef. rewrite merge_sort_Permutation in Ef.
      apply list_elem_of_fmap in Ef as ([k' b] & -> & Hin). apply elem_of_map_to_list in Hin. eauto.
    + exfalso. unfold first_received in Ef. apply head_None in Ef.
      assert (length (merge_sort work_key_le (map_to_list received).*1) = size received) as Hl
        by (by rewrite merge_sort_Permutation, length_fmap, length_map_to_list).
      rewrite Ef in Hl. simpl in Hl. unfold kMiningWorkMaxReceived in Hfull. lia.
Qed.

Lemma receive_work_ok peer envelope now st :
  retrieval_ok st → retrieval_ok (receive_work peer envelope now st).2.
Proof.
  intros Hok. unfold receive_work, exec_bind, exec_const, exec_modify.
  destruct (check_peer peer); [|done].
  destruct (parse_mining_work_response envelope) as [response|e] eqn:Ep; [|done].
  apply parse_work_response_ok in Ep as (Hc & _ & Ht).
  apply (expire_ok now) in Hok as Hok'. clear Hok. set (s := expire now st) in *.
  destruct (rt_pending s !! _) as [p|] eqn:Hp; [|done].
  destruct (pd_finished p) eqn:Hf; [done|].
  destruct (receive_chunk response (p, rt_received s)) as [r [p' received']] eqn:Er.
  destruct Hok' as [H1 H2 H3 H4 H5].
  destruct (receive_chunk_outcome _ _ _ _ _ _ Er (H3 _ _ Hp) Hf Hc Ht) as [_ Hr].
  assert (∀ p2, pending_ok p2 → ∀ rc, (size rc ≤ kMiningWorkMaxReceived)%nat →
    (∀ key b, rc !! key = Some b → ∃ q, deserialize_p2p_mining_context_payload b = Ok q ∧
       checked_key q = Ok key) →
    retrieval_ok (set_received rc (set_pending
      (<[(hs_node_id peer, wr_key (ws_request response)) := p2]> (rt_pending s)) s))) as Hgen.
  { intros p2 Hp2 rc Hrc Hev. split; cbn [set_received set_pending rt_pending rt_received]; try done.
    - rewrite map_size_insert_Some by eauto. done.
    - intros node. etransitivity; [by eapply active_update|done].
    - intros k q [[_ <-]|[_ Hk]]%lookup_insert_Some; [done|by eapply H3]. }
  destruct r as [r|e]; cbn [snd].
  - destruct Hr as [Hp' Hr]. apply Hgen; [done| |].
    + destruct Hr as [->|(b & q & _ & _ & [[-> Hlt]|(k & Hk & ->)])]; [done| |].
      * rewrite map_size_insert. destruct (_ !! wr_key _); unfold id; lia.
      * rewrite map_size_insert. assert (size (delete k (rt_received s)) = pred (size (rt_received s)))
          as Hd by (by rewrite map_size_delete_Some).
        assert (size (rt_received s) ≠ 0)%nat
          by (destruct Hk; by eapply map_size_ne_0_lookup_2).
        destruct (delete k _ !! wr_key _); unfold id, kMiningWorkMaxReceived in *; lia.
    + intros key b' Hb'. destruct Hr as [->|(b & q & Hd & Hk & Hr)]; [by eapply H5|].
      destruct Hr as [[-> _]|(k & _ & ->)];
        apply lookup_insert_Some in Hb' as [[<- <-]|[_ Hb']]; eauto.
      apply lookup_delete_Some in Hb' as [_ Hb']. eauto.
  - subst received'. apply Hgen; [done|done|done].
Qed.

Lemma take_untrusted_ok key st : retrieval_ok st → retrieval_ok (take_untrusted key st).2.
Proof.
  intros [H1 H2 H3 H4 H5]. unfold take_untrusted, exec_bind, exec_get, exec_modify, exec_ret.
  destruct (rt_received st !! key); [|done]. split; try done; cbn [snd set_received rt_received].
  - etransitivity; [apply size_subseteq, delete_subseteq|done].
  - intros k b [_ Hk]%lookup_delete_Some. eauto.
Qed.

End Bounds.

(** ** Round trips of the messages *)

(** Unlike [injection], this does not reduce the two sides. *)
Lemma Ok_inj {A} (x y : A) : Ok x = Ok y → x = y.
Proof. congruence. Qed.

Definition request_wf (r : MiningWorkRequest) : Prop := is_u64 (wr_key r).1 ∧ 0 ≤ wr_offset r.

Lemma length_request_payload r : length (request_payload r) = 44%nat.
Proof. unfold request_payload. by rewrite !length_app, !length_be_bytes, length_vec_to_list. Qed.

Lemma decode_request_payload r post :
  request_wf r → check_request r = Ok () → decode_request (request_payload r ++ post) = Ok r.
Proof.
  intros [Hk Ho] Hc. pose proof Hc as (_ & Hlt & _)%check_request_ok.
  unfold decode_request, request_payload. rewrite <-!app_assoc.
  assert (∀ n z t, 0 ≤ z < pow256 n → be_Z (take n (be_bytes n z ++ t)) = z) as Hbe.
  { intros n z t Hz. rewrite take_app_length' by (by rewrite length_be_bytes).
    by rewrite be_Z_be_bytes, Z.mod_small. }
  rewrite Hbe by (change (pow256 8) with (u64_max + 1); unfold is_u64 in Hk; lia).
  rewrite copy_n_at by (by rewrite length_be_bytes).
  rewrite (app_assoc (be_bytes 8 _)), (drop_app_length' (be_bytes 8 _ ++ _))
    by (by rewrite length_app, length_be_bytes, length_vec_to_list).
  rewrite Hbe by (change (pow256 4) with 4294967296; unfold kP2pMaxPayloadSize in Hlt; lia).
  destruct r as [[h hh] o]. cbn [wr_key wr_offset fst snd] in *. cbv zeta. by rewrite Hc.
Qed.

Lemma make_work_request_ok r e :
  make_mining_work_request r = Ok e →
  check_request r = Ok () ∧
  e = mkEnvelope kP2pProtocolVersion P2pProtocol.MiningWorkRequest 0 (request_payload r).
Proof.
  unfold make_mining_work_request. intros H. apply res_bind_ok in H as ([] & Hc & H).
  by injection H as <-.
Qed.

Lemma parse_make_work_request r e :
  request_wf r → make_mining_work_request r = Ok e → parse_mining_work_request e = Ok r.
Proof.
  intros Hwf [Hc ->]%make_work_request_ok. unfold parse_mining_work_request, check_envelope.
  cbn [env_version env_type env_flags env_payload]. rewrite length_request_payload.
  rewrite bool_decide_eq_true_2 by done. change (require_that _ "invalid work-retrieval envelope")
    with (Ok ()). change (require_that _ "invalid work request length") with (Ok ()).
  cbn [mbind res_bind]. rewrite <-(app_nil_r (request_payload r)). by apply decode_request_payload.
Qed.

Lemma parse_make_work_response r e :
  request_wf (ws_request r) → 0 ≤ ws_total_size r → make_mining_work_response r = Ok e →
  parse_mining_work_response e = Ok r.
Proof.
  intros Hwf Ht H. unfold make_mining_work_response in H.
  apply res_bind_ok in H as ([] & Hc & H). apply res_bind_ok in H as (q & Hq & H).
  apply Ok_inj in H. subst e.
  apply make_work_request_ok in Hq as [Hcr ->]. cbn [env_version env_flags env_payload].
  pose proof Hc as [_ Hcr']%check_response_ok.
  assert (Z.of_nat (length (ws_chunk r)) ≤ kMiningWorkChunkSize) as Hch.
  { destruct Hcr' as [[_ ->]|(_ & _ & _ & ->)]; [by vm_compute|lia]. }
  assert (ws_total_size r ≤ kP2pMaxPayloadSize) as Htm.
  { destruct Hcr' as [[-> _]|(_ & ? & _)]; [by vm_compute|lia]. }
  unfold parse_mining_work_response, check_envelope. cbn [env_version env_type env_flags env_payload].
  rewrite !length_app, length_request_payload, length_be_bytes.
  unfold kMiningWorkChunkSize, kP2pMaxPayloadSize in *.
  rewrite bool_decide_eq_true_2, (proj2 (Z.leb_le _ 65536)) by (done || lia).
  change (require_that _ "invalid work-retrieval envelope") with (Ok ()).
  rewrite (proj2 (Nat.leb_le _ _)), (proj2 (Z.leb_le _ (48 + 16 * 1024))) by lia.
  change (require_that _ "invalid work response length") with (Ok ()). cbn [mbind res_bind].
  rewrite decode_request_payload by done. cbn [mbind res_bind].
  rewrite (drop_app_length' (request_payload _)) by (by rewrite length_request_payload).
  rewrite take_app_length' by (by rewrite length_be_bytes).
  rewrite be_Z_be_bytes, Z.mod_small
    by (change (pow256 4) with 4294967296; lia).
  rewrite (app_assoc (request_payload _)), drop_app_length'
    by (by rewrite length_app, length_request_payload, length_be_bytes).
  destruct r as [q t c]. cbn [ws_request ws_total_size ws_chunk] in *. by rewrite Hc.
Qed.

(** ** A transfer *)

Section Transfer.
Context `{!JsonC}.

(** The requester sends its request, the responder answers from its archive, the
    requester receives and sends the follow-up; one clock reading per round. *)
Fixpoint transfer (times : list Z) (sid : Hash256) (dir : Directory) (remote : P2pWorkRetrieval)
    (requester responder : P2pHandshake) (request : P2pEnvelope)
    : exec P2pWorkRetrieval (option Hash256) :=
  match times with
  | [] => exec_ret None
  | now :: times =>
      response <- exec_const (λ _, answer sid dir remote requester request) ;;
      result <- receive_work responder response now ;;
      match wv_followup result with
      | Some request => transfer times sid dir remote requester responder request
      | None => exec_ret (wv_received_id result)
      end
  end.

(** What the responder has archived under [key]. *)
Record archived (sid : Hash256) (dir : Directory) (remote : P2pWorkRetrieval) (key : MiningWorkKey)
    (payload : list byte) (p : P2pMiningContextProposal) : Prop := {
  av_read : ∃ id, rt_local remote !! key = Some id ∧ archive_read sid dir id = Ok payload;
  av_proposal : deserialize_p2p_mining_context_payload payload = Ok p;
  av_key : checked_key p = Ok key;
  av_nonzero : key.2 ≠ arr_zero 32 }.

Lemma archived_facts sid dir remote key payload p :
  archived sid dir remote key payload p →
  is_u64 key.1 ∧ 121 ≤ Z.of_nat (length payload) ≤ kP2pMaxPayloadSize ∧
  p2p_mining_context_id p = Ok (cn_fast_hash payload).
Proof.
  intros [(id & _ & Hr) Hd Hk _]. apply archive_read_ok in Hr as (_ & Hsz & _).
  apply payload_size_ok in Hsz as [Hlo Hhi].
  apply deserialize_context_inv in Hd as (Hwf & Hv & ->). split; [|split; [lia|]].
  - unfold checked_key in Hk. apply res_bind_ok in Hk as (w & _ & Hk). injection Hk as <-. apply Hwf.
  - unfold p2p_mining_context_id.
    by rewrite (proj2 (serialize_context_ok p (context_layout p)) (conj Hv eq_refl)).
Qed.

(** One answer: the chunk at the requested offset. *)
Lemma answer_chunk sid dir remote requester key payload p o request :
  archived sid dir remote key payload p → has_work_retrieval requester = true →
  make_mining_work_request (mkWorkRequest key o) = Ok request →
  0 ≤ o < Z.of_nat (length payload) →
  let chunk := take (Z.to_nat (Z.min kMiningWorkChunkSize (Z.of_nat (length payload) - o)))
                 (drop (Z.to_nat o) payload) in
  ∃ response, answer sid dir remote requester request = Ok response ∧
    parse_mining_work_response response =
      Ok (mkWorkResponse (mkWorkRequest key o) (Z.of_nat (length payload)) chunk).
Proof.
  intros Hav Hcap Hreq Ho. destruct (archived_facts _ _ _ _ _ _ Hav) as (Hk & Hlen & _).
  destruct Hav as [(id & Hl & Hr) _ _ _]. cbv zeta.
  assert (request_wf (mkWorkRequest key o)) as Hwf by (split; cbn [wr_key wr_offset]; [done|lia]).
  pose proof (parse_make_work_request _ _ Hwf Hreq) as Hparse.
  apply make_work_request_ok in Hreq as [Hcr _].
  set (chunk := take _ (drop _ payload)).
  set (r := mkWorkResponse (mkWorkRequest key o) (Z.of_nat (length payload)) chunk).
  assert (check_response r = Ok ()) as Hc.
  { apply check_response_ok. split; [done|]. right. cbn [r ws_total_size ws_request ws_chunk wr_offset].
    split; [lia|]. split; [lia|]. split; [lia|]. unfold chunk. rewrite length_take, length_drop.
    unfold kMiningWorkChunkSize. lia. }
  unfold answer, check_peer. rewrite Hcap. change (require_that true ?m) with (Ok ()).
  cbn [mbind res_bind]. rewrite Hparse. cbn [mbind res_bind wr_key wr_offset]. rewrite Hl, Hr.
  cbn [mbind res_bind]. rewrite (proj2 (Z.ltb_lt _ _)) by lia.
  change (require_that true ?m) with (Ok ()). cbn [mbind res_bind mret res_ret]. fold chunk. fold r.
  assert (∃ e, make_mining_work_response r = Ok e) as [e He].
  { unfold make_mining_work_response. rewrite Hc. cbn [mbind res_bind].
    unfold make_mining_work_request. cbn [r ws_request]. rewrite Hcr. cbn [mbind res_bind]. eauto. }
  exists e. split; [done|]. apply parse_make_work_response; [done|cbn; lia|done].
Qed.

(** One reception: the entry takes the chunk; it asks for the next one, or the
    payload is complete. *)
Lemma receive_next responder response now started key payload p sid dir remote o st :
  archived sid dir remote key payload p → has_work_retrieval responder = true →
  started ≤ now < started + kMiningWorkRequestLifetime →
  0 ≤ o < Z.of_nat (length payload) → o mod kMiningWorkChunkSize = 0 →
  let total := Z.of_nat (length payload) in
  let chunk := take (Z.to_nat (Z.min kMiningWorkChunkSize (total - o))) (drop (Z.to_nat o) payload) in
  parse_mining_work_response response = Ok (mkWorkResponse (mkWorkRequest key o) total chunk) →
  (∃ t, (t = 0 ∨ t = total) ∧ rt_pending st !! (hs_node_id responder, key) =
     Some (mkPending started t false (take (Z.to_nat o) payload))) →
  if o + kMiningWorkChunkSize <? total then
    ∃ request st', receive_work responder response now st =
        (Ok (mkWorkReceive (Some request) None), st') ∧
      make_mining_work_request (mkWorkRequest key (o + kMiningWorkChunkSize)) = Ok request ∧
      rt_pending st' !! (hs_node_id responder, key) =
        Some (mkPending started total false (take (Z.to_nat (o + kMiningWorkChunkSize)) payload))
  else
    ∃ st', receive_work responder response now st =
        (Ok (mkWorkReceive None (Some (cn_fast_hash payload))), st') ∧
      rt_received st' !! key = Some payload.
Proof.
  intros Hav Hcap Hnow Ho Hmod total chunk Hparse (t & Ht & Hp).
  destruct (archived_facts _ _ _ _ _ _ Hav) as (Hk & Hlen & Hid). fold total in Ho, Hlen.
  assert (rt_pending (expire now st) !! (hs_node_id responder, key) =
    Some (mkPending started t false (take (Z.to_nat o) payload))) as Hp'.
  { apply map_lookup_filter_Some. split; [done|]. unfold expired. cbn [snd pd_started].
    rewrite (proj2 (Z.ltb_ge _ _)), (proj2 (Z.leb_gt _ _)) by lia. done. }
  assert (take (Z.to_nat o) payload ++ chunk =
    take (Z.to_nat (Z.min (o + kMiningWorkChunkSize) total)) payload) as Happ.
  { unfold chunk. rewrite <-(take_drop (Z.to_nat o) (take (Z.to_nat (Z.min _ total)) payload)).
    rewrite take_take, take_drop_commute. f_equal; repeat f_equal; unfold kMiningWorkChunkSize; lia. }
  assert (receive_work responder response now st =
    match receive_chunk (mkWorkResponse (mkWorkRequest key o) total chunk)
            (mkPending started t false (take (Z.to_nat o) payload), rt_received (expire now st)) with
    | (Ok r, (pending, received)) => (Ok r, set_received received (set_pending
        (<[(hs_node_id responder, key) := pending]> (rt_pending (expire now st))) (expire now st)))
    | (Throw e, (pending, received)) => (Throw e, set_received received (set_pending
        (<[(hs_node_id responder, key) :=
           mkPending (pd_started pending) (pd_total pending) true []]>
           (rt_pending (expire now st))) (expire now st)))
    end) as ->.
  { unfold receive_work, check_peer, exec_bind, exec_const, exec_modify. rewrite Hcap, Hparse.
    change (require_that true ?m) with (Ok ()). cbn [ws_request wr_key]. by rewrite Hp'. }
  unfold receive_chunk, exec_bind, exec_get, exec_const, exec_modify, exec_ret.
  cbv zeta. cbn [ws_request ws_total_size ws_chunk wr_offset wr_key pd_bytes pd_total pd_started
    pd_finished].
  assert (length (take (Z.to_nat o) payload) = Z.to_nat o) as Hto by (rewrite length_take; lia).
  rewrite Hto, (proj2 (Z.eqb_eq o (Z.of_nat (Z.to_nat o)))) by lia.
  change (require_that true ?m) with (Ok ()). rewrite (proj2 (Z.eqb_neq total 0)) by lia.
  assert ((t =? 0) || (t =? total) = true) as ->.
  { rewrite orb_true_iff, !Z.eqb_eq. done. }
  change (require_that true ?m) with (Ok ()). cbv beta iota. rewrite Happ.
  assert (Z.of_nat (length (take (Z.to_nat (Z.min (o + kMiningWorkChunkSize) total)) payload)) =
    Z.min (o + kMiningWorkChunkSize) total) as Hl
    by (rewrite length_take; unfold kMiningWorkChunkSize; lia).
  rewrite Hl. destruct (Z.ltb_spec (o + kMiningWorkChunkSize) total) as [Hlt|Hge].
  - rewrite Z.min_l in * by lia. rewrite (proj2 (Z.ltb_lt _ _)) by lia.
    assert (wrap32 (o + kMiningWorkChunkSize) = o + kMiningWorkChunkSize) as ->.
    { unfold wrap32. apply Z.mod_small. unfold kMiningWorkChunkSize, kP2pMaxPayloadSize in *. lia. }
    assert (make_mining_work_request (mkWorkRequest key (o + kMiningWorkChunkSize)) =
      Ok (mkEnvelope kP2pProtocolVersion P2pProtocol.MiningWorkRequest 0
        (request_payload (mkWorkRequest key (o + kMiningWorkChunkSize))))) as Hq.
    { unfold make_mining_work_request.
      rewrite (proj2 (check_request_ok _)); [done|]. cbn [wr_key wr_offset].
      split; [apply Hav|]. split; [lia|]. rewrite <-(Z.mul_1_l kMiningWorkChunkSize) at 1.
      by rewrite Z.mod_add. }
    rewrite Hq. eexists _, _. split; [done|]. split; [done|].
    cbn [set_received set_pending rt_pending]. by rewrite lookup_insert_eq.
  - rewrite Z.min_r in * by lia. rewrite (proj2 (Z.ltb_ge _ _)) by lia.
    rewrite take_ge by lia. rewrite (av_proposal _ _ _ _ _ _ Hav), (av_key _ _ _ _ _ _ Hav).
    rewrite bool_decide_eq_true_2 by done. change (require_that true ?m) with (Ok ()). rewrite Hid.
    eexists. split; [done|]. cbn [set_received set_pending rt_received]. by rewrite lookup_insert_eq.
Qed.

(** Enough rounds for what is left complete the transfer. *)
Lemma transfer_completes times : ∀ sid dir remote requester responder started key payload p o request st,
  archived sid dir remote key payload p → has_work_retrieval requester = true →
  has_work_retrieval responder = true →
  Forall (λ now, started ≤ now < started + kMiningWorkRequestLifetime) times →
  0 ≤ o < Z.of_nat (length payload) → o mod kMiningWorkChunkSize = 0 →
  Z.of_nat (length payload) - o ≤ kMiningWorkChunkSize * Z.of_nat (length times) →
  make_mining_work_request (mkWorkRequest key o) = Ok request →
  (∃ t, (t = 0 ∨ t = Z.of_nat (length payload)) ∧ rt_pending st !! (hs_node_id responder, key) =
     Some (mkPending started t false (take (Z.to_nat o) payload))) →
  ∃ st', transfer times sid dir remote requester responder request st =
      (Ok (Some (cn_fast_hash payload)), st') ∧ rt_received st' !! key = Some payload.
Proof.
  induction times as [|now times IH];
    intros sid dir remote requester responder started key payload p o request st
      Hav Hcq Hcr Hnow Ho Hmod Hrounds Hreq Hp; [simpl in Hrounds; lia|].
  apply Forall_cons in Hnow as [Hn Hnow].
  destruct (answer_chunk sid dir remote requester key payload p o request Hav Hcq Hreq Ho)
    as (response & Ha & Hparse).
  pose proof (receive_next responder response now started key payload p sid dir remote o st
    Hav Hcr Hn Ho Hmod Hparse Hp) as Hr.
  cbn [transfer]. unfold exec_bind at 1, exec_const. rewrite Ha. unfold exec_bind.
  cbn [length] in Hrounds.
  destruct (Z.ltb_spec (o + kMiningWorkChunkSize) (Z.of_nat (length payload))) as [Hlt|Hge].
  - destruct Hr as (q & st1 & -> & Hq & Hp1). cbn [wv_followup].
    apply (IH sid dir remote requester responder started key payload p (o + kMiningWorkChunkSize) q st1);
      try done; [unfold kMiningWorkChunkSize in *; lia| |lia|by exists (Z.of_nat (length payload)); auto].
    rewrite <-(Z.mul_1_l kMiningWorkChunkSize) at 1. by rewrite Z.mod_add.
  - destruct Hr as (st1 & -> & Hrec). cbn [wv_followup wv_received_id]. by exists st1.
Qed.

End Transfer.

(** ** The theorems *)

Section Spec.
Context `{!JsonC}.

Inductive work_event :=
| WkRemember (p : P2pMiningContextProposal)
| WkBegin (peer : P2pHandshake) (key : MiningWorkKey) (now : Z)
| WkReceive (peer : P2pHandshake) (envelope : P2pEnvelope) (now : Z)
| WkTake (key : MiningWorkKey).

Definition work_run (ev : work_event) (st : P2pWorkRetrieval) : P2pWorkRetrieval :=
  match ev with
  | WkRemember p => (remember_local p st).2
  | WkBegin peer key now => (begin peer key now st).2
  | WkReceive peer envelope now => (receive_work peer envelope now st).2
  | WkTake key => (take_untrusted key st).2
  end.

(** Started from an archive, then any calls; a throw keeps the state it left. *)
Inductive work_reachable : P2pWorkRetrieval → Prop :=
| work_start sid dir st : new_work_retrieval sid dir = Ok st → work_reachable st
| work_step st ev : work_reachable st → work_reachable (work_run ev st).

Lemma index_archive_network sid dir names : ∀ st st',
  index_archive sid dir names st = Ok st' →
  rt_pending st' = rt_pending st ∧ rt_received st' = rt_received st.
Proof.
  induction names as [|name names IH]; intros st st' Hi; cbn [index_archive] in Hi;
    [by injection Hi as <-|].
  destruct (negb _); [by apply IH|].
  apply res_bind_ok in Hi as (b & _ & Hi). apply res_bind_ok in Hi as (pl & _ & Hi).
  apply res_bind_ok in Hi as (p & _ & Hi). apply res_bind_ok in Hi as (key & _ & Hi).
  apply res_bind_ok in Hi as (anchor & _ & Hi). apply IH in Hi as [-> ->]. done.
Qed.

Lemma retrieval_ok_network st st' :
  rt_pending st' = rt_pending st → rt_received st' = rt_received st →
  retrieval_ok st → retrieval_ok st'.
Proof. intros E1 E2 [H1 H2 H3 H4 H5]. split; rewrite ?E1, ?E2; done. Qed.

Lemma work_reachable_ok st : work_reachable st → retrieval_ok st.
Proof.
  induction 1 as [sid dir st Hn|st ev _ IH].
  - unfold new_work_retrieval in Hn. apply res_bind_ok in Hn as (_ & _ & Hn).
    apply index_archive_network in Hn as [E1 E2]. apply (retrieval_ok_network empty_retrieval); try done.
    split; cbn [empty_retrieval rt_pending rt_received].
    + rewrite map_size_empty. lia.
    + intros node. unfold active_of. rewrite map_filter_empty, map_size_empty. lia.
    + intros k p Hk. by rewrite lookup_empty in Hk.
    + rewrite map_size_empty. lia.
    + intros k p Hk. by rewrite lookup_empty in Hk.
  - destruct ev; cbn [work_run]; [|by apply begin_ok|by apply receive_work_ok|by apply take_untrusted_ok].
    unfold remember_local, exec_bind, exec_const, exec_modify.
    destruct (p2p_mining_context_id p); [|done]. destruct (checked_key p); [|done].
    destruct (checked_local_anchor p); [|done]. by apply (retrieval_ok_network st).
Qed.

(** What peers can make the retrieval hold is bounded.  In every reachable
    state there are at most 16 requests, two active ones per peer, and 8 received
    records; an active request buffers less than the legal size it was promised,
    in whole chunks, and a finished one nothing; a received record is a valid
    context whose own template derives the header and height it was asked for.
    And starting another request never evicts an active one. *)
Theorem retrieval_bounded : ∀ st,
  work_reachable st →
  retrieval_ok st ∧
  ∀ peer key now k p, rt_pending st !! k = Some p → pd_finished p = false →
    expired now p = false → rt_pending (begin peer key now st).2 !! k = Some p.
Proof.
  intros st Hst. split; [by apply work_reachable_ok|]. intros peer key now k p Hk Hf He.
  assert (rt_pending (expire now st) !! k = Some p) as Hk'
    by (by apply map_lookup_filter_Some).
  destruct (begin peer key now st) as [r st'] eqn:E.
  destruct (begin_outcome _ _ _ _ _ _ E) as [[[->| ->] _]|(q & m & _ & _ & _ & Hn & _ & Hm & ->)];
    try done.
  cbn [snd set_pending rt_pending]. rewrite lookup_insert_ne by congruence.
  apply make_room_spec in Hm as (_ & _ & Hm). by apply Hm.
Qed.

(** A transfer terminates with the evidence.  A request that was begun with a
    peer that has archived the work is completed within four rounds of answering
    and receiving, all within the request's lifetime of 60 seconds: the record
    is received under its own hash, and taking it gives the archived bytes. *)
Theorem transfer_liveness : ∀ times sid dir remote requester responder key payload p now st request st0,
  archived sid dir remote key payload p →
  has_work_retrieval requester = true → has_work_retrieval responder = true →
  begin responder key now st = (Ok (Some request), st0) →
  Forall (λ t, now ≤ t < now + kMiningWorkRequestLifetime) times → (4 ≤ length times)%nat →
  ∃ st', transfer times sid dir remote requester responder request st0 =
      (Ok (Some (cn_fast_hash payload)), st') ∧
    (take_untrusted key st').1 = Ok (Some payload).
Proof.
  intros times sid dir remote requester responder key payload p now st request st0
    Hav Hcq Hcr Hb Ht H4. destruct (archived_facts _ _ _ _ _ _ Hav) as (_ & Hlen & _).
  destruct (begin_outcome _ _ _ _ _ _ Hb) as [[_ Hno]|(q & m & Hq & E & _ & _ & _ & _ & ->)];
    [by destruct (Hno request)|]. injection E as ->.
  destruct (transfer_completes times sid dir remote requester responder now key payload p 0 q
    (set_pending (<[(hs_node_id responder, key) := mkPending now 0 false []]> m) (expire now st))
    Hav Hcq Hcr Ht) as (st' & Htr & Hrec); try done.
  - lia.
  - unfold kMiningWorkChunkSize, kP2pMaxPayloadSize in *. lia.
  - exists 0. split; [by left|]. cbn [set_pending rt_pending]. by rewrite lookup_insert_eq.
  - exists st'. split; [done|]. unfold take_untrusted, exec_bind, exec_get. by rewrite Hrec.
Qed.

End Spec.

(** ** A concrete transfer *)

Definition demo_work_key : MiningWorkKey := (3000000, mw_header_hash demo_work).
Definition demo_payload : list byte := context_layout demo_proposal.
Definition demo_work_id : Hash256 := cn_fast_hash demo_payload.
Definition demo_archive : Directory :=
  {[record_name demo_work_id := archive_record (fill_be 32 7) demo_payload]}.
Definition demo_remote : P2pWorkRetrieval := mkRetrieval {[demo_work_key := demo_work_id]} ∅ ∅ ∅.
Definition demo_request : P2pEnvelope :=
  mkEnvelope kP2pProtocolVersion P2pProtocol.MiningWorkRequest 0
    (request_payload (mkWorkRequest demo_work_key 0)).

Lemma demo_archived :
  @archived demo_json (fill_be 32 7) demo_archive demo_remote demo_work_key demo_payload demo_proposal.
Proof.
  split.
  - exists demo_work_id. split; [apply lookup_singleton_eq|].
    apply archive_read_ok. split; [apply lookup_singleton_eq|]. split; [|done].
    vm_compute. reflexivity.
  - exact (@deserialize_context_layout demo_json demo_proposal demo_proposal_wf demo_proposal_valid).
  - unfold checked_key. assert (pp_block_template_blob demo_proposal = demo_block Byte.x00) as -> by done.
    by rewrite demo_work_ok.
  - apply arr_eqb_false. vm_compute. reflexivity.
Qed.

Lemma demo_begin :
  (begin demo_context_peer demo_work_key 100 empty_retrieval).1 = Ok (Some demo_request).
Proof. vm_compute. reflexivity. Qed.

Lemma fst_pair {A B} (m : A * B) a : m.1 = a → m = (a, m.2).
Proof. intros <-. by destruct m. Qed.

Lemma demo_times :
  Forall (λ t, 100 ≤ t < 100 + kMiningWorkRequestLifetime) [100; 101; 102; 103].
Proof. unfold kMiningWorkRequestLifetime. repeat constructor; lia. Qed.

Lemma transfer_liveness_witness :
  ∃ st', @transfer demo_json [100; 101; 102; 103] (fill_be 32 7) demo_archive demo_remote
      demo_context_peer demo_context_peer demo_request
      (begin demo_context_peer demo_work_key 100 empty_retrieval).2 =
    (Ok (Some demo_work_id), st').
Proof.
  destruct (@transfer_liveness demo_json [100; 101; 102; 103] (fill_be 32 7) demo_archive demo_remote
    demo_context_peer demo_context_peer demo_work_key demo_payload demo_proposal 100 empty_retrieval
    demo_request (begin demo_context_peer demo_work_key 100 empty_retrieval).2 demo_archived
    eq_refl eq_refl (fst_pair _ _ demo_begin)
    demo_times (le_n 4)) as (st' & Ht & _).
  exists st'. exact Ht.
Defined.

Lemma demo_retrieval_new : @new_work_retrieval demo_json (fill_be 32 7) ∅ = Ok empty_retrieval.
Proof. vm_compute. reflexivity. Qed.

Lemma retrieval_bounded_witness :
  @retrieval_ok demo_json (begin demo_context_peer demo_work_key 100 empty_retrieval).2.
Proof.
  exact (proj1 (@retrieval_bounded demo_json _
    (@work_step demo_json empty_retrieval (WkBegin demo_context_peer demo_work_key 100)
      (@work_start demo_json (fill_be 32 7) ∅ empty_retrieval demo_retrieval_new)))).
Defined.
