(* ===== verification/WireTypes.v ===== *)
(** What the parsers of peer messages return is well typed: every integer in its
    width, every variable part in its bounds, every id the id of its content. *)
From S2P Require Import Prelude CryptoHash PowTarget Share P2pProtocol P2pShare P2pSync.
From S2P Require Import BlockTemplate MiningContext WorkArchive WorkRetrieval.
Local Open Scope pool_scope.

(** A message, decoded. *)
Inductive wire_message :=
| WireHandshake (h : P2pHandshake)
| WireAnnounce (share : Share)
| WireRequest (id : ShareId)
| WireResponse (r : P2pShareResponse)
| WireTip (hint : P2pTipHint)
| WireContext (p : P2pMiningContextProposal)
| WireWorkRequest (r : MiningWorkRequest)
| WireWorkResponse (r : MiningWorkResponse).

Section Wire.
Context `{!JsonC}.

(** The parser that the message type selects. *)
Definition parse_message (e : P2pEnvelope) : option (res wire_message) :=
  match env_type e with
  | Handshake => Some (WireHandshake <$> parse_p2p_handshake_envelope e)
  | ShareAnnounce => Some (WireAnnounce <$> parse_p2p_share_announce_envelope e)
  | ShareRequest => Some (WireRequest <$> parse_p2p_share_request_envelope e)
  | ShareResponse => Some (WireResponse <$> parse_p2p_share_response_envelope e)
  | TipAnnounce => Some (WireTip <$> parse_p2p_tip_announce_envelope e)
  | MiningContextAnnounce => Some (WireContext <$> parse_p2p_mining_context_envelope e)
  | P2pProtocol.MiningWorkRequest => Some (WireWorkRequest <$> parse_mining_work_request e)
  | P2pProtocol.MiningWorkResponse => Some (WireWorkResponse <$> parse_mining_work_response e)
  | UnknownMessage _ => None
  end.

(** A share as the codec makes it: canonical, under its own id. *)
Definition wire_share (share : Share) : Prop :=
  share_wf share ∧ share_canonical share = true ∧ ∃ id, share_id share = Ok id.

Definition work_request_typed (r : MiningWorkRequest) : Prop :=
  is_u64 (wr_key r).1 ∧ (wr_key r).2 ≠ arr_zero 32 ∧ 0 ≤ wr_offset r < kP2pMaxPayloadSize ∧
  wr_offset r mod kMiningWorkChunkSize = 0.

Definition typed (m : wire_message) : Prop :=
  match m with
  | WireHandshake h => handshake_wf h ∧ handshake_valid h
  | WireAnnounce share => wire_share share
  | WireRequest id => is_zero_share_id id = false
  | WireResponse r => is_zero_share_id (sr_requested_id r) = false ∧
      match sr_code r, sr_share r with
      | Found, Some share => wire_share share ∧ share_id share = Ok (sr_requested_id r)
      | NotFound, None => True
      | _, _ => False
      end
  | WireTip hint => is_u64 (th_share_height hint) ∧
      (is_zero_share_id (th_share_id hint) = true → th_share_height hint = 0)
  | WireContext p => proposal_wf p ∧ proposal_valid p
  | WireWorkRequest r => work_request_typed r
  | WireWorkResponse r => work_request_typed (ws_request r) ∧
      (ws_total_size r = 0 ∧ ws_chunk r = [] ∨
       121 ≤ ws_total_size r ≤ kP2pMaxPayloadSize ∧ wr_offset (ws_request r) < ws_total_size r ∧
       Z.of_nat (length (ws_chunk r)) =
         Z.min kMiningWorkChunkSize (ws_total_size r - wr_offset (ws_request r)))
  end.

Lemma deserialized_share l s : deserialize_share l = Ok s → wire_share s.
Proof.
  intros E0. destruct (deserialize_share_inv _ _ E0) as (Hw & Hc & _). split_and!; try done.
  assert (serialize_share s = Ok (share_layout s)) as Hs by (by apply serialize_share_ok).
  unfold share_id. rewrite Hs. by eexists.
Qed.

Lemma response_typed e r : parse_p2p_share_response_envelope e = Ok r → typed (WireResponse r).
Proof.
  unfold parse_p2p_share_response_envelope. cbv zeta. intros Hp.
  do 2 (apply res_bind_ok in Hp as (? & _ & Hp)).
  apply res_bind_ok in Hp as (? & Hz%throw_if_ok & Hp).
  destruct (_ =? _); apply res_bind_ok in Hp as (? & _ & Hp); [by injection Hp as <-|].
  apply res_bind_ok in Hp as (? & _ & Hp). apply res_bind_ok in Hp as (s & Hd & Hp).
  apply res_bind_ok in Hp as (id & Hid & Hp). apply res_bind_ok in Hp as (? & Hm%throw_if_ok & Hp).
  injection Hp as <-. split; [exact Hz|]. cbn. split; [by eapply deserialized_share|].
  apply negb_false_iff, arr_eqb_true in Hm. congruence.
Qed.

Lemma decoded_request p r : decode_request p = Ok r → work_request_typed r.
Proof.
  unfold decode_request. intros E0. apply res_bind_ok in E0 as ([] & Hc & E0). injection E0 as <-.
  apply check_request_ok in Hc as (Hz & Ho & Hm). split_and!; try done; cbn.
  - pose proof (be_Z_range (take 8 p)) as Hr.
    assert (pow256 (length (take 8 p)) ≤ pow256 8) as Hle.
    { unfold pow256. apply Z.pow_le_mono_r; [lia|]. rewrite length_take. lia. }
    change (pow256 8) with (u64_max + 1) in Hle. unfold is_u64. lia.
  - apply be_Z_range.
Qed.

Lemma work_response_typed e r :
  parse_mining_work_response e = Ok r → typed (WireWorkResponse r).
Proof.
  unfold parse_mining_work_response. intros E0. do 2 (apply res_bind_ok in E0 as (_ & _ & E0)).
  apply res_bind_ok in E0 as (q & Hq & E0). apply res_bind_ok in E0 as ([] & Hc & E0). injection E0 as <-.
  split; [by eapply decoded_request|]. apply check_response_ok in Hc as [_ Hc]. tauto.
Qed.

Lemma tip_typed e hint : parse_p2p_tip_announce_envelope e = Ok hint → typed (WireTip hint).
Proof.
  unfold parse_p2p_tip_announce_envelope. intros E0. do 2 (apply res_bind_ok in E0 as (_ & _ & E0)).
  apply res_bind_ok in E0 as (h & Hh & E0). apply res_bind_ok in E0 as ([] & Hv%throw_if_ok & E0).
  injection E0 as <-. split; [apply (read_be_range 8) in Hh as [Hr _]; change (pow256 8) with (u64_max + 1) in Hr; split; cbn; lia|]. cbn in *. intros Hz. rewrite Hz in Hv.
  cbn in Hv. lia.
Qed.

(** C26: the wire is typed.  Whatever bytes a peer sends, a parser throws or returns
    a value whose integers fit their widths and whose parts are within their
    bounds: shares are canonical and a returned share has the id that was asked
    for, a tip without an id has height zero, a proposal is valid, a work chunk
    lies inside its record at a chunk boundary and is exactly as long as the rest
    of the record allows. *)
Theorem wire_typed : ∀ e,
  match parse_message e with Some (Ok m) => typed m | _ => True end.
Proof.
  intros e. unfold parse_message. destruct (env_type e); try done.
  - destruct (parse_p2p_handshake_envelope e) as [h|] eqn:E; [|done]. cbn.
    unfold parse_p2p_handshake_envelope in E. do 3 (apply res_bind_ok in E as (_ & _ & E)).
    by apply deserialize_handshake_inv in E as (? & ? & _).
  - destruct (parse_p2p_share_announce_envelope e) as [s|] eqn:E; [|done]. cbn.
    unfold parse_p2p_share_announce_envelope in E. do 2 (apply res_bind_ok in E as (_ & _ & E)).
    by eapply deserialized_share.
  - destruct (parse_p2p_share_request_envelope e) as [id|] eqn:E; [|done]. cbn.
    unfold parse_p2p_share_request_envelope in E. do 2 (apply res_bind_ok in E as (_ & _ & E)).
    apply res_bind_ok in E as (? & Hz%throw_if_ok & E). by injection E as <-.
  - destruct (parse_p2p_share_response_envelope e) as [r|] eqn:E; [|done]. by eapply response_typed.
  - destruct (parse_p2p_tip_announce_envelope e) as [t|] eqn:E; [|done]. by eapply tip_typed.
  - destruct (parse_p2p_mining_context_envelope e) as [p|] eqn:E; [|done]. cbn.
    unfold parse_p2p_mining_context_envelope in E. apply res_bind_ok in E as (_ & _ & E).
    by apply deserialize_context_inv in E as (? & ? & _).
  - destruct (parse_mining_work_request e) as [r|] eqn:E; [|done]. cbn.
    unfold parse_mining_work_request in E. do 2 (apply res_bind_ok in E as (_ & _ & E)).
    by eapply decoded_request.
  - destruct (parse_mining_work_response e) as [r|] eqn:E; [|done]. by eapply work_response_typed.
Qed.

End Wire.
