(* ===== verification/PeerGuard.v ===== *)
(** Temporary bans and retry delays: [include/zano_p2pool/p2p_peer_score.hpp] and
    [include/zano_p2pool/rpc_backoff.hpp].  Clock readings are numbers of
    milliseconds. *)
From S2P Require Import Prelude CryptoHash P2pProtocol.
Local Open Scope pool_scope.

Module PeerScore.

Definition kP2pProtocolViolationPenalty : Z := 25.

Record P2pPeerScoreConfig := mkConfig { cf_ban_threshold : Z; cf_ban_duration : Z }.

Record Entry := mkEntry { sc_score : Z; sc_banned_until : option Z }.

Record P2pPeerPenaltyResult := mkPenalty {
  pr_score : Z;
  pr_banned : bool;
  pr_ban_started : bool;
  pr_banned_until : option Z }.

Abbreviation Entries := (gmap NodeId Entry).

Definition new_score_book (config : P2pPeerScoreConfig) : res P2pPeerScoreConfig :=
  (_ ← throw_if (cf_ban_threshold config =? 0) RuntimeError
        "P2P peer ban threshold must be nonzero";
  _ ← throw_if (cf_ban_duration config <=? 0) RuntimeError
        "P2P peer ban duration must be positive";
  mret config)%stdpp.

Definition refresh_locked (e : Entry) (now : Z) : Entry :=
  match sc_banned_until e with
  | Some until => if until <=? now then mkEntry 0 None else e
  | None => e
  end.

Definition result_locked (e : Entry) (ban_started : bool) : P2pPeerPenaltyResult :=
  mkPenalty (sc_score e) (bool_decide (is_Some (sc_banned_until e))) ban_started
    (sc_banned_until e).

Definition penalize (config : P2pPeerScoreConfig) (node : NodeId) (penalty now : Z)
    (entries : Entries) : P2pPeerPenaltyResult * Entries :=
  let e := refresh_locked (default (mkEntry 0 None) (entries !! node)) now in
  match sc_banned_until e with
  | Some _ => (result_locked e false, <[node := e]> entries)
  | None =>
      if penalty =? 0 then (result_locked e false, <[node := e]> entries)
      else
      let room := if sc_score e <? cf_ban_threshold config
                  then cf_ban_threshold config - sc_score e else 0 in
      let score := sc_score e + Z.min penalty room in
      if cf_ban_threshold config <=? score then
        let e := mkEntry (cf_ban_threshold config) (Some (now + cf_ban_duration config)) in
        (result_locked e true, <[node := e]> entries)
      else
        let e := mkEntry score None in
        (result_locked e false, <[node := e]> entries)
  end.

(** The queries refresh the entry they look at. *)
Definition score (node : NodeId) (now : Z) (entries : Entries) : Z * Entries :=
  match entries !! node with
  | None => (0, entries)
  | Some e => let e := refresh_locked e now in (sc_score e, <[node := e]> entries)
  end.

Definition banned_until (node : NodeId) (now : Z) (entries : Entries) : option Z * Entries :=
  match entries !! node with
  | None => (None, entries)
  | Some e => let e := refresh_locked e now in (sc_banned_until e, <[node := e]> entries)
  end.

Definition banned (node : NodeId) (now : Z) (entries : Entries) : bool * Entries :=
  let '(until, entries) := banned_until node now entries in
  (bool_decide (is_Some until), entries).

Definition clear (node : NodeId) (entries : Entries) : Entries := delete node entries.

(** ** What a peer's entry means *)

(** A configuration the constructor accepts. *)
Definition config_ok (config : P2pPeerScoreConfig) : Prop :=
  0 < cf_ban_threshold config ≤ u32_max ∧ 0 < cf_ban_duration config.

(** The state of one peer: how much it was penalised since its slate was last
    clean, and the end of its ban. *)
Definition standing (node : NodeId) (now : Z) (entries : Entries) : Entry :=
  refresh_locked (default (mkEntry 0 None) (entries !! node)) now.

Definition entry_ok (config : P2pPeerScoreConfig) (e : Entry) : Prop :=
  match sc_banned_until e with
  | Some _ => sc_score e = cf_ban_threshold config
  | None => 0 ≤ sc_score e < cf_ban_threshold config
  end.
Definition book_ok (config : P2pPeerScoreConfig) (entries : Entries) : Prop :=
  ∀ node e, entries !! node = Some e → entry_ok config e.

Lemma refresh_ok config e now :
  config_ok config → entry_ok config e → entry_ok config (refresh_locked e now).
Proof.
  intros [Hc _]. unfold refresh_locked. destruct (sc_banned_until e) eqn:E; [|done].
  destruct (_ <=? _); [|done]. intros _. unfold entry_ok. simpl. lia.
Qed.

Lemma standing_ok config node now entries :
  config_ok config → book_ok config entries → entry_ok config (standing node now entries).
Proof.
  intros Hc Hb. apply refresh_ok; [done|]. destruct (entries !! node) as [e|] eqn:E; simpl.
  - by eapply Hb.
  - unfold entry_ok. simpl. destruct Hc. lia.
Qed.

Lemma insert_book_ok config node e entries :
  book_ok config entries → entry_ok config e → book_ok config (<[node := e]> entries).
Proof. intros Hb He n x [[_ <-]|[_ Hx]]%lookup_insert_Some; [done|by eapply Hb]. Qed.

(** Refreshing twice is refreshing at the later time. *)
Lemma refresh_refresh e t1 t2 :
  t1 ≤ t2 → refresh_locked (refresh_locked e t1) t2 = refresh_locked e t2.
Proof.
  intros Ht. unfold refresh_locked. destruct (sc_banned_until e) as [u|] eqn:E.
  - destruct (Z.leb_spec u t1); cbn [sc_banned_until]; [|by rewrite E].
    by rewrite (proj2 (Z.leb_le u t2)) by lia.
  - by rewrite E.
Qed.

(** What a penalty does, on every branch. *)
Lemma penalize_standing config node penalty now entries :
  config_ok config → book_ok config entries → is_u32 penalty →
  let e := standing node now entries in
  let '(r, entries') := penalize config node penalty now entries in
  let total := sc_score e + penalty in
  let e' := match sc_banned_until e with
            | Some _ => e
            | None => if cf_ban_threshold config <=? total
                      then mkEntry (cf_ban_threshold config) (Some (now + cf_ban_duration config))
                      else mkEntry total None
            end in
  entries' = <[node := e']> entries ∧ entry_ok config e' ∧ pr_score r = sc_score e' ∧
  pr_banned_until r = sc_banned_until e' ∧
  pr_ban_started r = match sc_banned_until e, sc_banned_until e' with
                     | None, Some _ => true
                     | _, _ => false
                     end.
Proof.
  intros Hc Hb Hp. cbv zeta. pose proof (standing_ok config node now entries Hc Hb) as He.
  unfold penalize. fold (standing node now entries). destruct (standing node now entries) as [sc bu].
  unfold entry_ok in He. cbn [sc_banned_until sc_score] in *. destruct Hc as [Ht Hd].
  unfold is_u32 in Hp. destruct bu as [u|].
  - unfold result_locked. cbn. split; [done|]. split; [done|]. split; [done|]. done.
  - destruct (Z.eqb_spec penalty 0) as [->|Hz].
    + rewrite Z.add_0_r, (proj2 (Z.leb_gt _ _)) by lia. unfold result_locked. cbn.
      done.
    + rewrite (proj2 (Z.ltb_lt _ _)) by lia.
      destruct (Z.leb_spec (cf_ban_threshold config) (sc + penalty)) as [Hle|Hlt].
      * rewrite (proj2 (Z.leb_le _ (sc + Z.min _ _))) by lia. unfold result_locked. cbn.
        done.
      * rewrite (proj2 (Z.leb_gt _ (sc + Z.min _ _))) by lia. rewrite Z.min_l by lia.
        unfold result_locked, entry_ok. cbn. split; [done|]. split; [lia|]. done.
Qed.

(** A sequence of penalties for one peer. *)
Fixpoint penalize_all (config : P2pPeerScoreConfig) (node : NodeId) (ps : list (Z * Z))
    (entries : Entries) : Entries :=
  match ps with
  | [] => entries
  | (penalty, now) :: ps =>
      penalize_all config node ps (penalize config node penalty now entries).2
  end.

Lemma penalize_other config node other penalty now entries :
  other ≠ node → (penalize config node penalty now entries).2 !! other = entries !! other.
Proof.
  intros Hne. unfold penalize. cbv zeta. destruct (sc_banned_until _); cbn [snd];
    [by rewrite lookup_insert_ne by done|].
  destruct (_ =? _); cbn [snd]; [by rewrite lookup_insert_ne by done|].
  destruct (_ <=? _); cbn [snd]; by rewrite lookup_insert_ne by done.
Qed.

Lemma penalize_all_ok config node ps : ∀ entries,
  config_ok config → book_ok config entries → Forall (λ p, is_u32 p.1) ps →
  book_ok config (penalize_all config node ps entries) ∧
  ∀ other, other ≠ node → penalize_all config node ps entries !! other = entries !! other.
Proof.
  induction ps as [|[pen now] ps IH]; intros entries Hc Hb Hp; [done|].
  apply Forall_cons in Hp as [Hp Hps]. cbn [penalize_all].
  pose proof (penalize_standing config node pen now entries Hc Hb Hp) as Hs. cbv zeta in Hs.
  destruct (IH (penalize config node pen now entries).2 Hc) as [Hb' Ho]; [|done|].
  { destruct (penalize config node pen now entries) as [r e']. destruct Hs as (-> & He & _).
    by apply insert_book_ok. }
  split; [done|]. intros other Hne. rewrite Ho by done. by apply penalize_other.
Qed.

(** Penalties for a peer that is not banned, before any ban could end: the score
    is their sum, and the ban starts with the one that reaches the threshold. *)
Lemma penalize_all_sum config node ps : ∀ entries sc,
  config_ok config → Forall (λ p, is_u32 p.1) ps →
  default (mkEntry 0 None) (entries !! node) = mkEntry sc None →
  0 ≤ sc < cf_ban_threshold config → sc + sum_by fst ps < cf_ban_threshold config →
  default (mkEntry 0 None) (penalize_all config node ps entries !! node) =
    mkEntry (sc + sum_by fst ps) None.
Proof.
  induction ps as [|[pen now] ps IH]; intros entries sc Hc Hp He Hsc Hsum; cbn [sum_by fst] in *.
  { cbn [penalize_all]. rewrite He. f_equal. lia. }
  apply Forall_cons in Hp as [Hp Hps]. cbn [fst] in Hp. unfold is_u32 in Hp.
  assert (0 ≤ sum_by fst ps) as Hnn.
  { apply sum_by_nonneg. intros x Hx. rewrite Forall_forall in Hps. destruct (Hps x Hx). lia. }
  cbn [penalize_all]. unfold penalize. cbv zeta. rewrite He. cbn [refresh_locked sc_banned_until sc_score].
  destruct (Z.eqb_spec pen 0) as [->|Hz].
  - cbn [snd]. rewrite Z.add_0_l in *. apply IH; try done. by rewrite lookup_insert_eq.
  - rewrite (proj2 (Z.ltb_lt sc _)), Z.min_l, (proj2 (Z.leb_gt _ _)) by lia. cbn [snd].
    rewrite Z.add_assoc. apply IH; try done; [by rewrite lookup_insert_eq|lia|lia].
Qed.

(** Bans are earned, exact and temporary.  A peer with a clean slate is banned
    by the penalty that makes the sum of its penalties reach the threshold, and
    by none before; the ban lasts for its whole duration whatever further
    penalties arrive, then the slate is clean again.  Penalties for one peer
    never touch the entry of another. *)
Theorem ban_lifecycle : ∀ config node entries ps penalty now more t,
  config_ok config → book_ok config entries → entries !! node = None →
  Forall (λ p, is_u32 p.1) ps → is_u32 penalty → Forall (λ p, is_u32 p.1) more →
  sum_by fst ps < cf_ban_threshold config ≤ sum_by fst ps + penalty →
  Forall (λ p, p.2 < now + cf_ban_duration config) more →
  (banned node t (penalize_all config node ps entries)).1 = false ∧
  let after := penalize_all config node more
                 (penalize config node penalty now (penalize_all config node ps entries)).2 in
  (banned node t after).1 = bool_decide (t < now + cf_ban_duration config) ∧
  (now + cf_ban_duration config ≤ t → (score node t after).1 = 0) ∧
  (∀ other, other ≠ node → after !! other = entries !! other) ∧ book_ok config after.
Proof.
  intros config node entries ps penalty now more t Hc Hb Hn Hps Hp Hmore Hsum Htimes.
  assert (0 ≤ sum_by fst ps) as Hnn.
  { apply sum_by_nonneg. intros x Hx. rewrite Forall_forall in Hps. destruct (Hps x Hx). lia. }
  pose proof Hc as [Hth Hdur].
  pose proof (penalize_all_sum config node ps entries 0 Hc Hps
    ltac:(by rewrite Hn) ltac:(lia) ltac:(lia)) as Hs. rewrite Z.add_0_l in Hs.
  destruct (penalize_all_ok config node ps entries Hc Hb Hps) as [Hb1 Ho1].
  set (e1 := penalize_all config node ps entries) in *. split.
  { unfold banned, banned_until. destruct (e1 !! node) as [e|]; [|done]. simpl in Hs. by rewrite Hs. }
  cbv zeta. set (until := now + cf_ban_duration config) in *.
  assert ((penalize config node penalty now e1).2 !! node =
    Some (mkEntry (cf_ban_threshold config) (Some until))) as Hban.
  { unfold penalize. cbv zeta. rewrite Hs. cbn [refresh_locked sc_banned_until sc_score].
    rewrite (proj2 (Z.eqb_neq penalty 0)) by lia. rewrite (proj2 (Z.ltb_lt _ _)) by lia.
    rewrite (proj2 (Z.leb_le _ (_ + Z.min _ _))) by lia. cbn [snd]. by rewrite lookup_insert_eq. }
  assert (book_ok config (penalize config node penalty now e1).2) as Hb2.
  { pose proof (penalize_standing config node penalty now e1 Hc Hb1 Hp) as Hst. cbv zeta in Hst.
    destruct (penalize config node penalty now e1) as [r e2]. destruct Hst as (-> & He & _).
    by apply insert_book_ok. }
  destruct (penalize_all_ok config node more _ Hc Hb2 Hmore) as [Hb3 Ho3].
  assert (penalize_all config node more (penalize config node penalty now e1).2 !! node =
    Some (mkEntry (cf_ban_threshold config) (Some until))) as Hstay.
  { clear Hb2 Hb3 Ho3 Hmore. revert Hban. generalize ((penalize config node penalty now e1).2).
    induction more as [|[pen w] more IH]; intros e2 Hban; [done|].
    apply Forall_cons in Htimes as [Hw Htimes]. cbn [snd] in Hw. cbn [penalize_all]. apply IH; [done|].
    unfold penalize. rewrite Hban. unfold refresh_locked. cbn [default from_option id sc_banned_until].
    rewrite (proj2 (Z.leb_gt _ _)) by lia. cbn [sc_banned_until snd]. by rewrite lookup_insert_eq. }
  split; [|split; [|split; [|done]]].
  - unfold banned, banned_until. rewrite Hstay. cbv zeta. unfold refresh_locked.
    cbn [sc_banned_until]. destruct (Z.leb_spec until t); cbn [sc_banned_until fst].
    + rewrite !bool_decide_eq_false_2; [done|lia|by intros [? ?]].
    + rewrite !bool_decide_eq_true_2; [done|lia|eauto].
  - intros Ht. unfold score. rewrite Hstay. cbv zeta. unfold refresh_locked. cbn [sc_banned_until].
    by rewrite (proj2 (Z.leb_le _ _)) by lia.
  - intros other Hne. rewrite Ho3, penalize_other, Ho1 by done. done.
Qed.

Definition demo_config : P2pPeerScoreConfig := mkConfig 100 300000.

Lemma ban_lifecycle_witness :
  (banned (fill_be 32 1) 100000
     (penalize_all demo_config (fill_be 32 1) [(25, 60000)]
        (penalize demo_config (fill_be 32 1) 25 50000
           (penalize_all demo_config (fill_be 32 1) [(25, 10); (25, 20); (25, 30)] ∅)).2)).1 = true.
Proof.
  exact (proj1 (proj2 (ban_lifecycle demo_config (fill_be 32 1) ∅ [(25, 10); (25, 20); (25, 30)] 25
    50000 [(25, 60000)] 100000
    ltac:(unfold config_ok, u32_max; simpl; lia)
    ltac:(intros n e He; rewrite lookup_empty in He; discriminate He)
    (lookup_empty _)
    ltac:(repeat constructor; unfold u32_max; simpl; lia) ltac:(unfold is_u32, u32_max; lia)
    ltac:(repeat constructor; unfold u32_max; simpl; lia) ltac:(simpl; lia)
    ltac:(repeat constructor; simpl; lia)))).
Defined.

End PeerScore.

Module Backoff.

Record RpcRetryBackoff := mkBackoff { bo_initial : Z; bo_maximum : Z; bo_next : Z }.

Definition new_backoff (initial maximum : Z) : res RpcRetryBackoff :=
  (_ ← throw_if (initial <=? 0) InvalidArgument "RPC reconnect initial delay must be positive";
  _ ← throw_if (maximum <? initial) InvalidArgument
        "RPC reconnect maximum delay must not be less than initial delay";
  mret (mkBackoff initial maximum initial))%stdpp.

Definition record_failure (b : RpcRetryBackoff) : Z * RpcRetryBackoff :=
  let delay := bo_next b in
  if bo_next b <? bo_maximum b then
    let next := if bo_maximum b ÷ 2 <? bo_next b then bo_maximum b
                else Z.min (bo_next b * 2) (bo_maximum b) in
    (delay, mkBackoff (bo_initial b) (bo_maximum b) next)
  else (delay, b).

Definition record_success (b : RpcRetryBackoff) : RpcRetryBackoff :=
  mkBackoff (bo_initial b) (bo_maximum b) (bo_initial b).

Definition next_delay (b : RpcRetryBackoff) : Z := bo_next b.

(** [n] failures in a row. *)
Fixpoint failures (n : nat) (b : RpcRetryBackoff) : RpcRetryBackoff :=
  match n with O => b | S n => (record_failure (failures n b)).2 end.

Lemma record_failure_spec b k :
  0 < bo_initial b ≤ bo_maximum b →
  bo_next b = Z.min (bo_initial b * 2 ^ Z.of_nat k) (bo_maximum b) →
  (record_failure b).2 = mkBackoff (bo_initial b) (bo_maximum b)
    (Z.min (bo_initial b * 2 ^ Z.of_nat (S k)) (bo_maximum b)).
Proof.
  intros Hb Hn. rewrite Nat2Z.inj_succ, Z.pow_succ_r by lia. unfold record_failure. cbv zeta.
  assert (0 < 2 ^ Z.of_nat k) as Hp by (apply Z.pow_pos_nonneg; lia).
  set (x := bo_initial b * 2 ^ Z.of_nat k) in *.
  replace (bo_initial b * (2 * 2 ^ Z.of_nat k)) with (2 * x) by (unfold x; ring).
  destruct b as [ini mx nx]. cbn [bo_initial bo_maximum bo_next] in *.
  destruct (Z.ltb_spec nx mx) as [Hlt|Hge]; cbn [snd].
  - f_equal. assert (nx = x) as -> by lia.
    rewrite Z.quot_div_nonneg by lia. destruct (Z.ltb_spec (mx / 2) x) as [Hh|Hh]; [|lia].
    assert (mx < 2 * x) by (pose proof (Z.div_mod mx 2 ltac:(lia));
      pose proof (Z.mod_pos_bound mx 2 ltac:(lia)); lia). lia.
  - f_equal. unfold x in *. nia.
Qed.

(** The retry delay doubles up to its maximum.  After [n] failures since the
    start or the last success the next delay is the initial one times 2^n, capped
    at the maximum, without overflow on the way. *)
Theorem backoff_doubles : ∀ initial maximum b0 n,
  new_backoff initial maximum = Ok b0 →
  let b := failures n b0 in
  next_delay b = Z.min (initial * 2 ^ Z.of_nat n) maximum ∧
  0 < initial ≤ next_delay b ∧ next_delay b ≤ maximum ∧
  (record_failure b).1 = next_delay b ∧ record_success b = b0.
Proof.
  intros initial maximum b0 n Hn. unfold new_backoff in Hn.
  apply res_bind_ok in Hn as (_ & H1%throw_if_ok & Hn).
  apply res_bind_ok in Hn as (_ & H2%throw_if_ok & Hn). injection Hn as <-. bool_prop. cbv zeta.
  assert (failures n (mkBackoff initial maximum initial) =
    mkBackoff initial maximum (Z.min (initial * 2 ^ Z.of_nat n) maximum)) as ->.
  { induction n as [|n IH]; cbn [failures].
    - f_equal. rewrite Z.mul_1_r. lia.
    - rewrite IH. by apply (record_failure_spec (mkBackoff initial maximum _)). }
  assert (1 ≤ 2 ^ Z.of_nat n) as Hp by (pose proof (Z.pow_pos_nonneg 2 (Z.of_nat n)); lia).
  unfold next_delay, record_failure, record_success. cbn [bo_next bo_initial bo_maximum].
  split; [done|]. split; [nia|]. split; [lia|]. split; [by destruct (_ <? _)|done].
Qed.

Lemma backoff_doubles_witness :
  next_delay (failures 3 (mkBackoff 1000 30000 1000)) = Z.min (1000 * 2 ^ Z.of_nat 3) 30000.
Proof. exact (proj1 (backoff_doubles 1000 30000 (mkBackoff 1000 30000 1000) 3 eq_refl)). Defined.

End Backoff.
