(* ===== verification/Witnesses.v ===== *)
(** Concrete instances of the theorems about the share codec, the parameters,
    the retarget and the candidate classification. *)
From S2P Require Import Prelude CryptoHash PowTarget Share SidechainParams Difficulty ShareChain.
From S2P Require Import ChainAdmit ChainHistory Demo.

Definition wit_share : Share :=
  mkShare 1 (arr_zero 32) 0 1700000000 3000000 (fill_be 32 77) 1 (fill_be 16 100000000)
    (fill_be 16 5000000000) (fill_be 32 5) None.

Lemma wit_share_wf : share_wf wit_share.
Proof. by split. Qed.

Definition wit_bytes : list byte := Eval vm_compute in ok_or [] (serialize_share wit_share).

Lemma deserialize_serialize_witness : deserialize_share wit_bytes = Ok wit_share.
Proof.
  exact (deserialize_serialize_share wit_share wit_bytes wit_share_wf
    ltac:(vm_compute; reflexivity)).
Defined.

Lemma serialize_deserialize_witness :
  serialize_share wit_share = Ok wit_bytes ∧ share_wf wit_share ∧
  share_id wit_share = Ok (cn_fast_hash wit_bytes).
Proof.
  exact (serialize_deserialize_share wit_bytes wit_share ltac:(vm_compute; reflexivity)).
Defined.

Lemma difficulty128_decimal_witness :
  difficulty128_from_decimal (difficulty128_to_decimal (fill_be 16 100000000))
  = Ok (fill_be 16 100000000).
Proof.
  exact (difficulty128_decimal_roundtrip (fill_be 16 100000000)
    ltac:(vm_compute; reflexivity)).
Defined.

Lemma serialize_params_witness : demo_params = demo_params.
Proof.
  exact (serialize_params_injective demo_params demo_params
    (ok_or [] (serialize_sidechain_parameters demo_params)) demo_params_wf demo_params_wf
    ltac:(vm_compute; reflexivity) ltac:(vm_compute; reflexivity)).
Defined.

(** Four shares, one every ten seconds, each adding 200000000 to the work. *)
Definition wit_history : list SidechainDifficultySample :=
  (λ i, mkSample (1700000030 - 10 * i) (fill_be 32 (1000000000 - 200000000 * i)))
    <$> [0; 1; 2; 3].
Definition wit_network : Difficulty128 := fill_be 16 5000000000.

Lemma wit_history_ok : window_ok wit_history.
Proof.
  assert (∀ s, s ∈ wit_history → 1700000000 ≤ ts s ≤ 1700000030) as Hb.
  { intros s Hs. apply list_elem_of_fmap in Hs as (i & -> & Hi). cbn [ts].
    repeat (apply elem_of_cons in Hi as [->|Hi]; [lia|]). by apply elem_of_nil in Hi. }
  split.
  - intros s Hs. specialize (Hb s Hs). unfold is_u64, u64_max. lia.
  - intros s t Hs Ht. pose proof (Hb s Hs). pose proof (Hb t Ht). unfold u32_max. lia.
Qed.

Lemma wit_history_steady : steady 1700000030 10 1000000000 200000000 wit_history.
Proof.
  intros i s Hs. unfold wit_history in Hs. do 4 (destruct i as [|i]; [injection Hs as <-; by split|]).
  done.
Qed.

Lemma next_difficulty_witness :
  ∃ d, calculate_next_sidechain_difficulty wit_history 10 100000000 2160 wit_network = Ok d ∧
       Z.min 100000000 (arr_Z wit_network) ≤ arr_Z d ≤ arr_Z wit_network.
Proof.
  exact (next_difficulty_total_bounded wit_history 10 100000000 2160 wit_network
    ltac:(unfold is_u64, u64_max; lia) ltac:(unfold is_u64, u64_max; lia)
    ltac:(unfold is_u64, u64_max; lia) ltac:(lia) ltac:(lia) ltac:(lia)
    ltac:(vm_compute; reflexivity) wit_history_ok).
Defined.

Lemma next_difficulty_order_witness :
  calculate_next_sidechain_difficulty wit_history 10 100000000 2160 wit_network =
  calculate_next_sidechain_difficulty (reverse wit_history) 10 100000000 2160 wit_network.
Proof.
  refine (next_difficulty_order_independent wit_history (reverse wit_history) 10 100000000 2160
    wit_network ltac:(lia) ltac:(lia) ltac:(lia) ltac:(vm_compute; reflexivity) _ wit_history_ok).
  symmetry. exact (reverse_Permutation wit_history).
Defined.

Lemma next_difficulty_steady_witness :
  calculate_next_sidechain_difficulty wit_history 10 100000000 2160 wit_network =
  int_to_difficulty128 (clamp (Z.min 100000000 (arr_Z wit_network)) (arr_Z wit_network) 200000000).
Proof.
  exact (next_difficulty_steady_state 1700000030 10 1000000000 200000000 100000000 2160
    wit_network wit_history ltac:(lia) ltac:(lia) ltac:(lia) ltac:(vm_compute; reflexivity)
    ltac:(simpl; lia) ltac:(simpl; lia) wit_history_steady wit_history_ok).
Defined.

Lemma validate_candidate_witness :
  ∃ v, @validate_candidate demo_pow 3000000 (fill_be 32 77) 1 (dec_str 100000000)
         (dec_str 5000000000) Light = Ok v ∧
       classify_pow_hash (final_hash (pow v)) (dec_str 100000000) (dec_str 5000000000)
       = Ok (classification v).
Proof.
  eexists. split; [vm_compute; reflexivity|].
  apply (@validate_candidate_classifies demo_pow 3000000 (fill_be 32 77) 1 (dec_str 100000000)
    (dec_str 5000000000) Light _ 100000000 5000000000); vm_compute; reflexivity.
Defined.
