(* ===== verification/ZanoCurve.v ===== *)
(** The Zano curve backend: [include/zano_p2pool/zano_curve.hpp],
    [src/zano_curve.cpp].  Zano's own [crypto] library is the class
    [ZanoCrypto]; the functions here are the checks the pool builds from it. *)
From S2P Require Import Prelude CryptoHash.

Abbreviation ZanoCurveKey := (bytes 32).

Record ZanoBppSignature := mkBpp {
  bpp_left : list ZanoCurveKey;
  bpp_right : list ZanoCurveKey;
  bpp_a0 : ZanoCurveKey;
  bpp_a : ZanoCurveKey;
  bpp_b : ZanoCurveKey;
  bpp_r : ZanoCurveKey;
  bpp_s : ZanoCurveKey;
  bpp_delta : ZanoCurveKey }.

Record ZanoUgAggregationProof := mkUg {
  ug_commitments : list ZanoCurveKey;
  ug_y0s : list ZanoCurveKey;
  ug_y1s : list ZanoCurveKey;
  ug_c : ZanoCurveKey }.

(** What is added to a [crypto::hash_helper_t::hs_t]. *)
Inductive transcript_item (point : Type) :=
| AddHash (h : ZanoCurveKey)
| AddPoint (p : point)
| AddPubKey (k : ZanoCurveKey).
Arguments AddHash {_} _.
Arguments AddPoint {_} _.
Arguments AddPubKey {_} _.

(** [crypto::bpp_signature]. *)
Record bpp_signature (scalar : Type) := mkSignature {
  sig_L : list ZanoCurveKey;
  sig_R : list ZanoCurveKey;
  sig_A0 : ZanoCurveKey;
  sig_A : ZanoCurveKey;
  sig_B : ZanoCurveKey;
  sig_r : scalar;
  sig_s : scalar;
  sig_delta : scalar }.
Arguments mkSignature {_} _ _ _ _ _ _ _ _.

(** Zano's [crypto] library as the pool uses it, and whether the pool was built
    with it.  Constructing a point from a key may throw. *)
Class ZanoCrypto := {
  have_zano_curve : bool;
  scalar_t : Type;
  point_t : Type;
  secret_key_to_public_key : ZanoCurveKey → option ZanoCurveKey;
  generate_key_derivation : ZanoCurveKey → ZanoCurveKey → option ZanoCurveKey;
  derive_public_key : ZanoCurveKey → nat → ZanoCurveKey → option ZanoCurveKey;
  scalar_of_key : ZanoCurveKey → scalar_t;
  scalar_of_u64 : Z → scalar_t;
  is_reduced : scalar_t → bool;
  scalar_eqb : scalar_t → scalar_t → bool;
  point_of_key : ZanoCurveKey → res point_t;
  to_public_key : point_t → ZanoCurveKey;
  modify_mul8 : point_t → point_t;
  point_add : point_t → point_t → point_t;
  point_sub : point_t → point_t → point_t;
  point_mul : scalar_t → point_t → point_t;
  point_eqb : point_t → point_t → bool;
  c_point_0 : point_t;
  c_point_G : point_t;
  c_point_H : point_t;
  c_point_U : point_t;
  verify_double_schnorr_sig : ZanoCurveKey → point_t → ZanoCurveKey → list byte → bool;
  c_bpp_values_max : nat;
  c_bpp_log2_n : nat;
  bpp_verify : bpp_signature scalar_t → list point_t → bool;
  calc_hash : list (transcript_item point_t) → scalar_t }.

(** [try { ... } catch (...) { return false; }]. *)
Definition false_on_throw (r : res bool) : bool :=
  match r with Ok b => b | Throw _ => false end.

(** [while (value != 0) { value >>= 1; ++result; }]: a size has 64 bits. *)
Fixpoint ceil_log2_loop (fuel : nat) (value : Z) (result : nat) : nat :=
  match fuel with
  | O => result
  | S fuel =>
      if value =? 0 then result else ceil_log2_loop fuel (Z.shiftr value 1) (S result)
  end.
Definition ceil_log2 (value : nat) : nat :=
  if (value <=? 1)%nat then 0%nat else ceil_log2_loop 64 (Z.of_nat value - 1) 0.

Fixpoint map_res {A B} (f : A → res B) (l : list A) : res (list B) :=
  match l with
  | [] => Ok []
  | a :: l => (b ← f a; bs ← map_res f l; mret (b :: bs))%stdpp
  end.

Section Curve.
Context `{!ZanoCrypto}.

Definition zano_curve_backend_available : bool := have_zano_curve.

(** A key premultiplied by 1/8 on the wire. *)
Definition point_mul8 (wire : ZanoCurveKey) : res point_t := modify_mul8 <$> point_of_key wire.

Definition verify_ug_aggregation_proof (message : ZanoCurveKey)
    (amount_commitments_1div8 blinded_asset_ids_1div8 : list ZanoCurveKey)
    (proof : ZanoUgAggregationProof) : res bool :=
  (let n := length amount_commitments_1div8 in
  let y0s := scalar_of_key <$> ug_y0s proof in
  let y1s := scalar_of_key <$> ug_y1s proof in
  let c := scalar_of_key (ug_c proof) in
  if (n =? 0)%nat || negb (length blinded_asset_ids_1div8 =? n)%nat ||
     negb (length (ug_commitments proof) =? n)%nat || negb (length y0s =? n)%nat ||
     negb (length y1s =? n)%nat || negb (is_reduced c)
  then mret false
  else if negb (forallb is_reduced y0s && forallb is_reduced y1s) then mret false
  else
  amount_commitments ← map_res point_mul8 amount_commitments_1div8;
  rp_commitments ← map_res point_mul8 (ug_commitments proof);
  let transcript :=
    AddHash message :: (AddPoint <$> amount_commitments) ++ (AddPoint <$> rp_commitments) in
  let w := calc_hash transcript in
  asset_tags ← map_res point_mul8 blinded_asset_ids_1div8;
  let asset_tag_plus_u := (λ t, point_add t (point_mul w c_point_U)) <$> asset_tags in
  let response '(y0, y1, tag, e, e') :=
    point_add (point_add (point_mul y0 tag) (point_mul y1 c_point_G))
      (point_mul c (point_add e (point_mul w e'))) in
  let responses :=
    response <$> zip (zip (zip (zip y0s y1s) asset_tag_plus_u) amount_commitments)
                   rp_commitments in
  mret (scalar_eqb c
          (calc_hash (transcript ++ ((λ p, AddPubKey (to_public_key p)) <$> responses)))))%stdpp.

Definition zano_secret_key_matches_public (secret_key public_key : ZanoCurveKey) : bool :=
  have_zano_curve &&
  match secret_key_to_public_key secret_key with
  | Some actual => arr_eqb actual public_key
  | None => false
  end.

(** The derived key, if the function returns true. *)
Definition zano_derive_output_public_key
    (tx_secret_key spend_public_key view_public_key : ZanoCurveKey) (output_index : nat)
    : option ZanoCurveKey :=
  if have_zano_curve then
    derivation ← generate_key_derivation view_public_key tx_secret_key;
    derive_public_key derivation output_index spend_public_key
  else None.

Definition zano_amount_commitment_matches (amount : Z)
    (amount_blinding_mask blinded_asset_id amount_commitment : ZanoCurveKey) : bool :=
  have_zano_curve &&
  false_on_throw (
    let mask := scalar_of_key amount_blinding_mask in
    if negb (is_reduced mask) then mret false
    else
    asset_point ← point_of_key blinded_asset_id;
    committed_point ← point_of_key amount_commitment;
    let expected :=
      point_add (point_mul (scalar_of_u64 amount) (modify_mul8 asset_point))
        (point_mul mask c_point_G) in
    mret (point_eqb (modify_mul8 committed_point) expected))%stdpp.

(** [for (const auto& c : amount_commitments) outputs_sum += point_t(c)]. *)
Fixpoint sum_commitments (outputs_sum : point_t) (l : list ZanoCurveKey) : res point_t :=
  match l with
  | [] => Ok outputs_sum
  | c :: l => (p ← point_of_key c; sum_commitments (point_add outputs_sum p) l)%stdpp
  end.

Definition zano_verify_hf6_miner_balance_proof (tx_id : ZanoCurveKey) (block_reward : Z)
    (tx_public_key : ZanoCurveKey) (amount_commitments : list ZanoCurveKey)
    (serialized_proof : list byte) : bool :=
  have_zano_curve &&
  false_on_throw (
    if (block_reward =? 0) || bool_decide (amount_commitments = []) ||
       negb (length serialized_proof =? 96)%nat
    then mret false
    else
    outputs_sum ← sum_commitments c_point_0 amount_commitments;
    let commitment_to_zero :=
      point_sub (point_mul (scalar_of_u64 block_reward) c_point_H) (modify_mul8 outputs_sum) in
    mret (verify_double_schnorr_sig tx_id commitment_to_zero tx_public_key serialized_proof))%stdpp.

Definition zano_verify_hf6_miner_range_proof (tx_id : ZanoCurveKey)
    (amount_commitments blinded_asset_ids : list ZanoCurveKey) (bpp : ZanoBppSignature)
    (aggregation : ZanoUgAggregationProof) : bool :=
  have_zano_curve &&
  false_on_throw (
    let n := length amount_commitments in
    if (n <? 2)%nat || (c_bpp_values_max <? n)%nat ||
       negb (length blinded_asset_ids =? n)%nat ||
       negb (length (ug_commitments aggregation) =? n)%nat ||
       negb (length (ug_y0s aggregation) =? n)%nat ||
       negb (length (ug_y1s aggregation) =? n)%nat ||
       negb (length (bpp_left bpp) =? length (bpp_right bpp))%nat ||
       negb (length (bpp_left bpp) =? c_bpp_log2_n + ceil_log2 n)%nat
    then mret false
    else
    let signature :=
      mkSignature (bpp_left bpp) (bpp_right bpp) (bpp_a0 bpp) (bpp_a bpp) (bpp_b bpp)
        (scalar_of_key (bpp_r bpp)) (scalar_of_key (bpp_s bpp))
        (scalar_of_key (bpp_delta bpp)) in
    bpp_commitments ← map_res point_of_key (ug_commitments aggregation);
    if negb (bpp_verify signature bpp_commitments) then mret false
    else verify_ug_aggregation_proof tx_id amount_commitments blinded_asset_ids aggregation)%stdpp.

End Curve.
