(* ===== verification/MinerTxBinding.v ===== *)
(** The key binding between a miner transaction and its generation context:
    [include/zano_p2pool/p2p_miner_tx_binding.hpp],
    [src/p2p_miner_tx_binding.cpp], with the cursor that
    [src/p2p_payout_policy.cpp] and [src/p2p_miner_tx_proofs.cpp] repeat. *)
From S2P Require Import Prelude CryptoHash PowTarget Share SidechainParams P2pProtocol P2pShare.
From S2P Require Import MiningHeader BlockTemplate MiningContext ZanoCurve.
Local Open Scope pool_scope.

(** ** The strict cursor *)

Section Cursor.
(** The message of a read past the end. *)
Context (truncated : string).

Definition tx_require (count : Z) : exec Cursor () :=
  exec_const (λ c, throw_if ((length (cur_data c) <? cur_pos c)%nat ||
      (Z.of_nat (length (cur_data c) - cur_pos c) <? count)) RuntimeError truncated).

Definition tx_read_u8 : exec Cursor Z :=
  do tx_require 1 ;;
  λ c, (Ok (byte_to_Z (cur_data c !!! cur_pos c)), mkCursor (cur_data c) (S (cur_pos c))).

Fixpoint tx_read_varint_loop (iterations start : nat) (value shift : Z) : exec Cursor Z :=
  match iterations with
  | O => exec_throw RuntimeError "miner-tx varint is too long"
  | S iterations =>
      byte <- tx_read_u8 ;;
      if (shift =? 63) && negb (Z.land byte 126 =? 0)
      then exec_throw RuntimeError "miner-tx varint overflows uint64"
      else
      let value := Z.lor value (wrap64 (Z.shiftl (Z.land byte 127) shift)) in
      if Z.land byte 128 =? 0 then
        offset <- position ;;
        if negb (offset - start =? encoded_varint_size value)%nat
        then exec_throw RuntimeError "non-canonical miner-tx varint"
        else exec_ret value
      else tx_read_varint_loop iterations start value (shift + 7)
  end.
Definition tx_read_varint : exec Cursor Z :=
  start <- position ;; tx_read_varint_loop 10 start 0 0.

Definition tx_skip (count : Z) : exec Cursor () :=
  do tx_require count ;;
  exec_modify (λ c, mkCursor (cur_data c) (cur_pos c + Z.to_nat count)).

Definition tx_skip_blob : exec Cursor () :=
  count <- tx_read_varint ;;
  if u64_max <? count
  then exec_throw RuntimeError "miner-tx blob length does not fit size_t"
  else tx_skip count.

Definition read_key : exec Cursor ZanoCurveKey :=
  do tx_require 32 ;;
  λ c, (Ok (copy_n 32 (cur_data c) (cur_pos c)), mkCursor (cur_data c) (cur_pos c + 32)).

Definition at_end : exec Cursor bool :=
  λ c, (Ok (cur_pos c =? length (cur_data c))%nat, c).

(** ** The extra field *)

(** One entry of [extra]; [found] is the public key read so far, [multiple] and
    [unsupported] the messages of the two throws. *)
Definition parse_extra (multiple : string) (unsupported : Z → string) (tag : Z)
    (found : option ZanoCurveKey) : exec Cursor (option ZanoCurveKey) :=
  if (tag =? 11) || (tag =? 19) || (tag =? 21) then do tx_skip_blob ;; exec_ret found
  else if (tag =? 14) || (tag =? 15) || (tag =? 16) || (tag =? 78) then
    do tx_read_varint ;; exec_ret found
  else if tag =? 18 then
    do tx_read_varint ;; do tx_skip 32 ;; do tx_read_varint ;; exec_ret found
  else if tag =? 22 then
    if bool_decide (is_Some found) then exec_throw RuntimeError multiple
    else key <- read_key ;; exec_ret (Some key)
  else exec_throw RuntimeError (unsupported tag).

Fixpoint parse_extras (multiple : string) (unsupported : Z → string) (count : nat)
    (found : option ZanoCurveKey) : exec Cursor (option ZanoCurveKey) :=
  match count with
  | O => exec_ret found
  | S count =>
      tag <- tx_read_u8 ;;
      found <- parse_extra multiple unsupported tag found ;;
      parse_extras multiple unsupported count found
  end.

End Cursor.

(** ** The binding *)

Record TgcKeyPair := mkKeyPair { kp_public_key : ZanoCurveKey; kp_secret_key : ZanoCurveKey }.

Inductive P2pMinerTxBindingStatus :=
| BindingVerified | BindingNotAnchored | BindingBackendUnavailable | BindingMalformedTgc
| BindingMalformedMinerTxPrefix | TgcKeyPairMismatch | PrefixPublicKeyMismatch.
#[export] Instance P2pMinerTxBindingStatus_eq_dec : EqDecision P2pMinerTxBindingStatus.
Proof. solve_decision. Defined.

Record P2pMinerTxBindingResult := mkBinding {
  mb_status : P2pMinerTxBindingStatus;
  mb_tx_public_key : ZanoCurveKey }.

Definition truncated_prefix : string := "truncated miner transaction prefix".

Definition prefix_tx_public_key_fields : exec Cursor ZanoCurveKey :=
  version <- tx_read_varint truncated_prefix ;;
  if negb (version =? 4) then exec_throw RuntimeError "unsupported miner transaction version"
  else
  vin_count <- tx_read_varint truncated_prefix ;;
  if negb (vin_count =? 1)
  then exec_throw RuntimeError "current PoW miner transaction must have one input"
  else
  input <- tx_read_u8 truncated_prefix ;;
  if negb (input =? 0)
  then exec_throw RuntimeError "current PoW miner transaction input is not txin_gen"
  else
  do tx_read_varint truncated_prefix ;;
  extra_count <- tx_read_varint truncated_prefix ;;
  if 1024 <? extra_count
  then exec_throw RuntimeError "miner transaction has unreasonable extra count"
  else
  found <- parse_extras truncated_prefix "miner transaction has multiple tx public keys"
             (with_tag "unsupported miner transaction extra tag: ") (Z.to_nat extra_count) None ;;
  match found with
  | None => exec_throw RuntimeError "miner transaction has no tx public key"
  | Some key => exec_ret key
  end.

Definition parse_prefix_tx_public_key (miner_tx_prefix : list byte) : res ZanoCurveKey :=
  (prefix_tx_public_key_fields (mkCursor miner_tx_prefix 0)).1.

Section Binding.
Context `{!JsonC, !ZanoCrypto}.

Definition parse_tgc_keypair (json_text : text) : res TgcKeyPair :=
  (_ ← throw_if (bool_decide (json_text = [])) RuntimeError "empty miner_tx_tgc JSON";
  let parsed := json_tokener_parse json_text in
  _ ← throw_if (negb (jp_success parsed) ||
        match jp_root parsed with JObject _ => false | _ => true end) RuntimeError
        "invalid miner_tx_tgc JSON";
  match json_get (jp_root parsed) "tx_key" with
  | Some (JString s) =>
      bytes ← hex_to_bytes (c_str s);
      _ ← throw_if (negb (length bytes =? 64)%nat) RuntimeError
            "miner_tx_tgc tx_key must be exactly 64 bytes";
      mret (mkKeyPair (copy_n 32 bytes 0) (copy_n 32 bytes 32))
  | _ => throw RuntimeError "miner_tx_tgc has no string tx_key"
  end)%stdpp.

Definition verify_miner_tx_tgc_key_binding (miner_tx_prefix : list byte) (miner_tx_tgc_json : text)
    : P2pMinerTxBindingResult :=
  match parse_tgc_keypair miner_tx_tgc_json with
  | Throw _ => mkBinding BindingMalformedTgc (arr_zero 32)
  | Ok tgc_keypair =>
  match parse_prefix_tx_public_key miner_tx_prefix with
  | Throw _ => mkBinding BindingMalformedMinerTxPrefix (arr_zero 32)
  | Ok tx_public_key =>
      let at_status s := mkBinding s tx_public_key in
      if negb zano_curve_backend_available then at_status BindingBackendUnavailable
      else if negb (zano_secret_key_matches_public (kp_secret_key tgc_keypair)
                      (kp_public_key tgc_keypair))
      then at_status TgcKeyPairMismatch
      else if negb (arr_eqb (kp_public_key tgc_keypair) tx_public_key)
      then at_status PrefixPublicKeyMismatch
      else at_status BindingVerified
  end
  end.

(** The gate before each proposal check: the check anchored this very proposal.
    The id is computed outside the [try], in a [noexcept] function. *)
Definition anchors_proposal (proposal : P2pMiningContextProposal)
    (check : P2pMiningContextCheckResult) : res bool :=
  if negb (bool_decide (ck_status check = AnchoredUnverifiedMinerTx)) then Ok false
  else noexcept (id ← p2p_mining_context_id proposal; mret (arr_eqb (ck_proposal_id check) id))%stdpp.

Definition verify_p2p_mining_context_key_binding (proposal : P2pMiningContextProposal)
    (anchored_check : P2pMiningContextCheckResult) : res P2pMinerTxBindingResult :=
  (anchored ← anchors_proposal proposal anchored_check;
  if negb anchored then mret (mkBinding BindingNotAnchored (arr_zero 32))
  else
  match derive_mining_header_work (pp_block_template_blob proposal) with
  | Throw _ => mret (mkBinding BindingMalformedMinerTxPrefix (arr_zero 32))
  | Ok work =>
      if negb (arr_eqb (mw_header_hash work) (ck_mining_header_hash anchored_check))
      then mret (mkBinding BindingNotAnchored (arr_zero 32))
      else mret (verify_miner_tx_tgc_key_binding (mp_serialized (mw_miner_tx_prefix work))
                   (pp_miner_tx_tgc_json proposal))
  end)%stdpp.

End Binding.

Definition p2p_miner_tx_binding_status_name (s : P2pMinerTxBindingStatus) : string :=
  match s with
  | BindingVerified => "verified"
  | BindingNotAnchored => "not-anchored"
  | BindingBackendUnavailable => "backend-unavailable"
  | BindingMalformedTgc => "malformed-tgc"
  | BindingMalformedMinerTxPrefix => "malformed-miner-tx-prefix"
  | TgcKeyPairMismatch => "tgc-keypair-mismatch"
  | PrefixPublicKeyMismatch => "prefix-public-key-mismatch"
  end.
