(* ===== verification/PayoutPolicy.v ===== *)
(** The payout policy of a peer's miner transaction:
    [include/zano_p2pool/p2p_payout_policy.hpp], [src/p2p_payout_policy.cpp]. *)
From S2P Require Import Prelude CryptoHash PowTarget Share SidechainParams P2pProtocol P2pShare.
From S2P Require Import Pplns PplnsCoinbase MiningHeader BlockTemplate MiningContext.
From S2P Require Import ZanoCurve MinerTxBinding.
Local Open Scope pool_scope.

Definition kCurrentMinerMinOutputs : nat := 2.
Definition kCurrentMinerMaxOutputs : nat := 32.

Definition kNativeCoinAssetId1Div8 : ZanoCurveKey :=
  fill_be 32 0x74c32d3eaafafc623bf483e858d42e8bf4ec7df064ada2e34934469cff6b6268.

Record P2pPayoutAddress := mkPayoutAddress {
  pa_spend_public_key : ZanoCurveKey;
  pa_view_public_key : ZanoCurveKey }.

Inductive P2pPayoutPolicyStatus :=
| PolVerified | PolNotAnchored | PolKeyBindingFailed | PolBackendUnavailable | PolMalformedTgc
| PolMalformedMinerTxPrefix | PolInvalidOutputCount | PolRewardMetadataMismatch
| PolTgcOutputCountMismatch | PolNonNativeAsset | PolDestinationMismatch
| PolAmountCommitmentMismatch | PolRewardSumMismatch | PolPayoutPlanMismatch.
#[export] Instance P2pPayoutPolicyStatus_eq_dec : EqDecision P2pPayoutPolicyStatus.
Proof. solve_decision. Defined.

Record P2pPayoutPolicyResult := mkPolicy {
  po_status : P2pPayoutPolicyStatus;
  po_binding_status : P2pMinerTxBindingStatus;
  po_output_count : nat;
  po_verified_reward : Z }.

(** ** The outputs of the miner transaction *)

Definition skip_current_extra (tag : Z) : exec Cursor () :=
  if (tag =? 11) || (tag =? 19) || (tag =? 21) then tx_skip_blob truncated_prefix
  else if (tag =? 14) || (tag =? 15) || (tag =? 16) || (tag =? 78) then
    do tx_read_varint truncated_prefix ;; exec_ret ()
  else if tag =? 18 then
    do tx_read_varint truncated_prefix ;; do tx_skip truncated_prefix 32 ;;
    do tx_read_varint truncated_prefix ;; exec_ret ()
  else if tag =? 22 then tx_skip truncated_prefix 32
  else exec_throw RuntimeError "unsupported current miner-tx extra tag".

Record ParsedPayoutOutput := mkOutput {
  out_stealth_address : ZanoCurveKey;
  out_concealing_point : ZanoCurveKey;
  out_amount_commitment : ZanoCurveKey;
  out_blinded_asset_id : ZanoCurveKey }.

#[export] Instance ParsedPayoutOutput_inhabited : Inhabited ParsedPayoutOutput :=
  populate (mkOutput (arr_zero 32) (arr_zero 32) (arr_zero 32) (arr_zero 32)).

Definition parse_output : exec Cursor ParsedPayoutOutput :=
  tag <- tx_read_u8 truncated_prefix ;;
  if negb (tag =? 63)
  then exec_throw RuntimeError "current miner output is not tx_out_zarcanum"
  else
  version <- tx_read_u8 truncated_prefix ;;
  if negb (version =? 0) then exec_throw RuntimeError "unsupported tx_out_zarcanum version"
  else
  stealth_address <- read_key truncated_prefix ;;
  concealing_point <- read_key truncated_prefix ;;
  amount_commitment <- read_key truncated_prefix ;;
  blinded_asset_id <- read_key truncated_prefix ;;
  do tx_skip truncated_prefix (8 + 8 + 1) ;;
  exec_ret (mkOutput stealth_address concealing_point amount_commitment blinded_asset_id).

Fixpoint parse_outputs (count : nat) : exec Cursor (list ParsedPayoutOutput) :=
  match count with
  | O => exec_ret []
  | S count =>
      output <- parse_output ;; outputs <- parse_outputs count ;; exec_ret (output :: outputs)
  end.

Definition current_output_fields : exec Cursor (list ParsedPayoutOutput) :=
  version <- tx_read_varint truncated_prefix ;;
  if negb (version =? 4) then exec_throw RuntimeError "unsupported miner transaction version"
  else
  vin_count <- tx_read_varint truncated_prefix ;;
  input <- (if negb (vin_count =? 1) then exec_ret 1 else tx_read_u8 truncated_prefix) ;;
  if negb (input =? 0)
  then exec_throw RuntimeError "current PoW miner transaction must have txin_gen"
  else
  do tx_read_varint truncated_prefix ;;
  extra_count <- tx_read_varint truncated_prefix ;;
  if 1024 <? extra_count
  then exec_throw RuntimeError "unreasonable miner transaction extra count"
  else
  do repeat_exec (Z.to_nat extra_count)
       (tag <- tx_read_u8 truncated_prefix ;; skip_current_extra tag) ;;
  output_count <- tx_read_varint truncated_prefix ;;
  if Z.of_nat kCurrentMinerMaxOutputs <? output_count
  then exec_throw RuntimeError "miner transaction has too many outputs"
  else
  outputs <- parse_outputs (Z.to_nat output_count) ;;
  hardfork_id <- tx_read_u8 truncated_prefix ;;
  ended <- at_end ;;
  if negb (hardfork_id =? 6) || negb ended
  then exec_throw RuntimeError "unexpected current miner hardfork/trailing data"
  else exec_ret outputs.

Definition parse_current_outputs (miner_tx_prefix : list byte) : res (list ParsedPayoutOutput) :=
  (current_output_fields (mkCursor miner_tx_prefix 0)).1.

(** ** The transaction generation context *)

Definition is_blank (c : Ascii.ascii) : bool := (char_Z c =? 32) || (char_Z c =? 9).

Fixpoint skip_blanks (s : text) : text :=
  match s with c :: r => if is_blank c then skip_blanks r else s | [] => [] end.
(** [while (end > pos && is_blank(text[end - 1])) --end]. *)
Definition trim_end (s : text) : text := rev (skip_blanks (rev s)).

(** [text.find(',', pos)]: the text before the comma, and after it if any. *)
Fixpoint split_comma (s : text) : text * option text :=
  match s with
  | [] => ([], None)
  | c :: r =>
      if char_Z c =? 44 then ([], Some r)
      else let '(token, rest) := split_comma r in (c :: token, rest)
  end.

(** The loop over the text from [pos]; each round consumes a character. *)
Fixpoint scalar_list_loop (fuel : nat) (s : text) (result : list ZanoCurveKey)
    : res (list ZanoCurveKey) :=
  match fuel with
  | O => Ok result
  | S fuel =>
      (let s := skip_blanks s in
      if bool_decide (s = []) then mret result
      else
      let '(token, rest) := split_comma s in
      let token := trim_end token in
      _ ← throw_if (bool_decide (token = [])) RuntimeError "empty scalar in TGC list";
      bytes ← hex_to_bytes token;
      _ ← throw_if (negb (length bytes =? 32)%nat) RuntimeError
            "TGC scalar must be exactly 32 bytes";
      let result := result ++ [arr_of 32 bytes] in
      match rest with
      | None => mret result
      | Some rest => scalar_list_loop fuel rest result
      end)%stdpp
  end.
Definition parse_scalar_list (s : text) : res (list ZanoCurveKey) :=
  scalar_list_loop (S (length s)) s [].

Definition scalar_to_u64 (scalar : ZanoCurveKey) : res Z :=
  (let l := vec_to_list scalar in
  _ ← throw_if (negb (all_zero (drop 8 l))) RuntimeError "TGC amount does not fit uint64";
  mret (load_le64 (take 8 l)))%stdpp.

Record ParsedTgcPayoutData := mkTgc {
  tgc_tx_secret_key : ZanoCurveKey;
  tgc_amounts : list Z;
  tgc_amount_blinding_masks : list ZanoCurveKey;
  tgc_asset_id_blinding_masks : list ZanoCurveKey }.

Definition is_zero_key (key : ZanoCurveKey) : bool := all_zero (vec_to_list key).

Section Policy.
Context `{!JsonC, !ZanoCrypto}.

(** [static_cast<std::size_t>(std::numeric_limits<int>::max())]. *)
Definition int_max : Z := 2147483647.

Definition parse_tgc_json (json_text : text) : res json :=
  (_ ← throw_if (bool_decide (json_text = []) || (int_max <? Z.of_nat (length json_text)))
        RuntimeError "invalid miner_tx_tgc JSON size";
  let parsed := json_tokener_parse json_text in
  _ ← throw_if (negb (jp_success parsed) ||
        match jp_root parsed with JObject _ => false | _ => true end) RuntimeError
        "invalid miner_tx_tgc JSON";
  mret (jp_root parsed))%stdpp.

Definition get_string_field (root : json) (name : string) : res text :=
  match json_get root name with
  | Some (JString s) => Ok (c_str s)
  | _ => throw RuntimeError ("missing TGC string field: " +:+ name)
  end.

Definition parse_tgc_payout_data (json_text : text) : res ParsedTgcPayoutData :=
  (root ← parse_tgc_json json_text;
  tx_key ← get_string_field root "tx_key";
  tx_key_bytes ← hex_to_bytes tx_key;
  _ ← throw_if (negb (length tx_key_bytes =? 64)%nat) RuntimeError
        "TGC tx_key must be exactly 64 bytes";
  amounts ← get_string_field root "amounts";
  amount_scalars ← parse_scalar_list amounts;
  amounts ← map_res scalar_to_u64 amount_scalars;
  masks ← get_string_field root "amount_blinding_masks";
  amount_blinding_masks ← parse_scalar_list masks;
  masks ← get_string_field root "asset_id_blinding_masks";
  asset_id_blinding_masks ← parse_scalar_list masks;
  mret (mkTgc (copy_n 32 tx_key_bytes 32) amounts amount_blinding_masks
          asset_id_blinding_masks))%stdpp.

(** ** The gates the three policies share *)

(** Key binding, backend and reward metadata; [None] is to go on. *)
Definition policy_gate (binding : P2pMinerTxBindingStatus)
    (block_reward_without_fee block_reward : Z) : option P2pPayoutPolicyStatus :=
  if negb (bool_decide (binding = BindingVerified)) then
    Some (if bool_decide (binding = BindingBackendUnavailable)
          then PolBackendUnavailable else PolKeyBindingFailed)
  else if negb zano_curve_backend_available then Some PolBackendUnavailable
  else if (block_reward_without_fee =? 0) || negb (block_reward =? block_reward_without_fee)
  then Some PolRewardMetadataMismatch
  else None.

(** The outputs and the generation context, or the status and output count of
    the early return. *)
Definition policy_inputs (miner_tx_prefix : list byte) (miner_tx_tgc_json : text)
    : (P2pPayoutPolicyStatus * nat) + (list ParsedPayoutOutput * ParsedTgcPayoutData) :=
  match parse_current_outputs miner_tx_prefix with
  | Throw _ => inl (PolMalformedMinerTxPrefix, 0%nat)
  | Ok outputs =>
      let n := length outputs in
      if (n <? kCurrentMinerMinOutputs)%nat || (kCurrentMinerMaxOutputs <? n)%nat
      then inl (PolInvalidOutputCount, n)
      else
      match parse_tgc_payout_data miner_tx_tgc_json with
      | Throw _ => inl (PolMalformedTgc, n)
      | Ok tgc =>
          if negb (length (tgc_amounts tgc) =? n)%nat ||
             negb (length (tgc_amount_blinding_masks tgc) =? n)%nat ||
             negb (length (tgc_asset_id_blinding_masks tgc) =? n)%nat
          then inl (PolTgcOutputCountMismatch, n)
          else inr (outputs, tgc)
      end
  end.

(** Output [i] is of the native asset. *)
Definition native_asset (tgc : ParsedTgcPayoutData) (i : nat) (output : ParsedPayoutOutput) : bool :=
  arr_eqb (out_blinded_asset_id output) kNativeCoinAssetId1Div8 &&
  is_zero_key (tgc_asset_id_blinding_masks tgc !!! i).

Definition commitment_matches (tgc : ParsedTgcPayoutData) (i : nat) (output : ParsedPayoutOutput)
    : bool :=
  zano_amount_commitment_matches (tgc_amounts tgc !!! i) (tgc_amount_blinding_masks tgc !!! i)
    (out_blinded_asset_id output) (out_amount_commitment output).

(** ** One recipient, or none in particular *)

(** The destination check of output [i]: for the bootstrap policy there is none. *)
Definition pays_to (expected : option P2pPayoutAddress) (tgc : ParsedTgcPayoutData) (i : nat)
    (output : ParsedPayoutOutput) : bool :=
  match expected with
  | None => true
  | Some payout =>
      match zano_derive_output_public_key (tgc_tx_secret_key tgc) (pa_spend_public_key payout)
              (pa_view_public_key payout) i with
      | None => false
      | Some expected_stealth => arr_eqb expected_stealth (out_stealth_address output)
      end
  end.

(** The loop over the outputs from index [i]: the status of an early return, or
    the sum of the amounts. *)
Fixpoint single_loop (expected : option P2pPayoutAddress) (tgc : ParsedTgcPayoutData) (i : nat)
    (outputs : list ParsedPayoutOutput) (reward_sum : Z) : P2pPayoutPolicyStatus + Z :=
  match outputs with
  | [] => inr reward_sum
  | output :: rest =>
      if negb (native_asset tgc i output) then inl PolNonNativeAsset
      else if negb (pays_to expected tgc i output) then inl PolDestinationMismatch
      else if negb (commitment_matches tgc i output) then inl PolAmountCommitmentMismatch
      else
      let amount := tgc_amounts tgc !!! i in
      if u64_max - reward_sum <? amount then inl PolRewardSumMismatch
      else single_loop expected tgc (S i) rest (reward_sum + amount)
  end.

Definition verify_single (expected : option P2pPayoutAddress) (miner_tx_prefix : list byte)
    (miner_tx_tgc_json : text) (block_reward_without_fee block_reward : Z)
    : P2pPayoutPolicyResult :=
  let binding := mb_status (verify_miner_tx_tgc_key_binding miner_tx_prefix miner_tx_tgc_json) in
  match policy_gate binding block_reward_without_fee block_reward with
  | Some status => mkPolicy status binding 0 0
  | None =>
  match policy_inputs miner_tx_prefix miner_tx_tgc_json with
  | inl (status, n) => mkPolicy status binding n 0
  | inr (outputs, tgc) =>
      let n := length outputs in
      match single_loop expected tgc 0 outputs 0 with
      | inl status => mkPolicy status binding n 0
      | inr reward_sum =>
          if negb (reward_sum =? block_reward)
          then mkPolicy PolRewardSumMismatch binding n reward_sum
          else mkPolicy PolVerified binding n reward_sum
      end
  end
  end.

(** [txs_fee] is burnt since HF4 and not looked at. *)
Definition verify_miner_tx_payout_policy (miner_tx_prefix : list byte) (miner_tx_tgc_json : text)
    (block_reward_without_fee block_reward txs_fee : Z) (expected_payout : P2pPayoutAddress)
    : P2pPayoutPolicyResult :=
  verify_single (Some expected_payout) miner_tx_prefix miner_tx_tgc_json
    block_reward_without_fee block_reward.

Definition verify_miner_tx_bootstrap_policy (miner_tx_prefix : list byte)
    (miner_tx_tgc_json : text) (block_reward_without_fee block_reward txs_fee : Z)
    : P2pPayoutPolicyResult :=
  verify_single None miner_tx_prefix miner_tx_tgc_json block_reward_without_fee block_reward.

(** ** The PPLNS plan *)

(** The sanity loop over the plan's destinations; [seen] are those before. *)
Fixpoint plan_loop (seen dests : list PplnsCoinbaseDestination) (expected_sum : Z) : option Z :=
  match dests with
  | [] => Some expected_sum
  | d :: rest =>
      if (dest_amount d =? 0) ||
         negb (arr_eqb (miner_id_from_payout (dest_payout d)) (dest_miner_id d)) ||
         (u64_max - expected_sum <? dest_amount d) ||
         existsb (λ e, bool_decide (dest_payout e = dest_payout d)) seen
      then None
      else plan_loop (seen ++ [d]) rest (expected_sum + dest_amount d)
  end.

Definition plan_accepted (plan : PplnsCoinbasePlan) (block_reward : Z) : bool :=
  bool_decide (plan_status plan = Ready) && (plan_reward plan =? block_reward) &&
  negb (bool_decide (destinations plan = [])) &&
  (length (destinations plan) <=? kCurrentMinerMaxOutputs)%nat &&
  match plan_loop [] (destinations plan) 0 with
  | Some expected_sum => expected_sum =? plan_reward plan
  | None => false
  end.

(** The one destination, from index [j], whose key derives to the output's. *)
Fixpoint match_destination (tgc : ParsedTgcPayoutData) (i : nat) (output : ParsedPayoutOutput)
    (j : nat) (dests : list PplnsCoinbaseDestination) (matched : option nat)
    : P2pPayoutPolicyStatus + option nat :=
  match dests with
  | [] => inr matched
  | d :: rest =>
      match zano_derive_output_public_key (tgc_tx_secret_key tgc)
              (spend_public_key (dest_payout d)) (view_public_key (dest_payout d)) i with
      | None => inl PolDestinationMismatch
      | Some expected_stealth =>
          if arr_eqb expected_stealth (out_stealth_address output) then
            match matched with
            | Some _ => inl PolPayoutPlanMismatch
            | None => match_destination tgc i output (S j) rest (Some j)
            end
          else match_destination tgc i output (S j) rest matched
      end
  end.

Fixpoint plan_outputs_loop (tgc : ParsedTgcPayoutData) (dests : list PplnsCoinbaseDestination)
    (i : nat) (outputs : list ParsedPayoutOutput) (credited : list Z) (reward_sum : Z)
    : P2pPayoutPolicyStatus + (list Z * Z) :=
  match outputs with
  | [] => inr (credited, reward_sum)
  | output :: rest =>
      if negb (native_asset tgc i output) then inl PolNonNativeAsset
      else
      match match_destination tgc i output 0 dests None with
      | inl status => inl status
      | inr None => inl PolDestinationMismatch
      | inr (Some j) =>
          if negb (commitment_matches tgc i output) then inl PolAmountCommitmentMismatch
          else
          let amount := tgc_amounts tgc !!! i in
          if (u64_max - reward_sum <? amount) || (u64_max - credited !!! j <? amount)
          then inl PolRewardSumMismatch
          else plan_outputs_loop tgc dests (S i) rest
                 (<[j := credited !!! j + amount]> credited) (reward_sum + amount)
      end
  end.

Definition verify_miner_tx_plan_policy (miner_tx_prefix : list byte) (miner_tx_tgc_json : text)
    (block_reward_without_fee block_reward txs_fee : Z) (expected_plan : PplnsCoinbasePlan)
    : P2pPayoutPolicyResult :=
  let binding := mb_status (verify_miner_tx_tgc_key_binding miner_tx_prefix miner_tx_tgc_json) in
  match policy_gate binding block_reward_without_fee block_reward with
  | Some status => mkPolicy status binding 0 0
  | None =>
  if negb (plan_accepted expected_plan block_reward)
  then mkPolicy PolPayoutPlanMismatch binding 0 0
  else
  match policy_inputs miner_tx_prefix miner_tx_tgc_json with
  | inl (status, n) => mkPolicy status binding n 0
  | inr (outputs, tgc) =>
      let n := length outputs in
      let dests := destinations expected_plan in
      match plan_outputs_loop tgc dests 0 outputs (replicate (length dests) 0) 0 with
      | inl status => mkPolicy status binding n 0
      | inr (credited, reward_sum) =>
          if negb (reward_sum =? block_reward)
          then mkPolicy PolRewardSumMismatch binding n reward_sum
          else if negb (forallb (λ cd, cd.1 =? dest_amount cd.2) (zip credited dests))
          then mkPolicy PolPayoutPlanMismatch binding n reward_sum
          else mkPolicy PolVerified binding n reward_sum
      end
  end
  end.

(** ** Policies of an anchored proposal *)

(** The three proposal checks: anchored, same header, then [verify] on the
    prefix of the miner transaction. *)
Definition verify_anchored (proposal : P2pMiningContextProposal)
    (anchored_check : P2pMiningContextCheckResult) (verify : list byte → P2pPayoutPolicyResult)
    : res P2pPayoutPolicyResult :=
  (let fresh s := mkPolicy s BindingMalformedMinerTxPrefix 0 0 in
  anchored ← anchors_proposal proposal anchored_check;
  if negb anchored then mret (fresh PolNotAnchored)
  else
  match derive_mining_header_work (pp_block_template_blob proposal) with
  | Throw _ => mret (fresh PolMalformedMinerTxPrefix)
  | Ok work =>
      if negb (arr_eqb (mw_header_hash work) (ck_mining_header_hash anchored_check))
      then mret (fresh PolNotAnchored)
      else mret (verify (mp_serialized (mw_miner_tx_prefix work)))
  end)%stdpp.

Definition verify_p2p_mining_context_payout_policy (p : P2pMiningContextProposal)
    (anchored_check : P2pMiningContextCheckResult) (expected_payout : P2pPayoutAddress)
    : res P2pPayoutPolicyResult :=
  verify_anchored p anchored_check (λ prefix,
    verify_miner_tx_payout_policy prefix (pp_miner_tx_tgc_json p)
      (pp_block_reward_without_fee p) (pp_block_reward p) (pp_txs_fee p) expected_payout).

Definition verify_p2p_mining_context_bootstrap_payout_policy (p : P2pMiningContextProposal)
    (anchored_check : P2pMiningContextCheckResult) : res P2pPayoutPolicyResult :=
  verify_anchored p anchored_check (λ prefix,
    verify_miner_tx_bootstrap_policy prefix (pp_miner_tx_tgc_json p)
      (pp_block_reward_without_fee p) (pp_block_reward p) (pp_txs_fee p)).

Definition verify_p2p_mining_context_plan_policy (p : P2pMiningContextProposal)
    (anchored_check : P2pMiningContextCheckResult) (expected_plan : PplnsCoinbasePlan)
    : res P2pPayoutPolicyResult :=
  verify_anchored p anchored_check (λ prefix,
    verify_miner_tx_plan_policy prefix (pp_miner_tx_tgc_json p)
      (pp_block_reward_without_fee p) (pp_block_reward p) (pp_txs_fee p) expected_plan).

End Policy.

Definition p2p_payout_policy_status_name (s : P2pPayoutPolicyStatus) : string :=
  match s with
  | PolVerified => "verified"
  | PolNotAnchored => "not-anchored"
  | PolKeyBindingFailed => "key-binding-failed"
  | PolBackendUnavailable => "backend-unavailable"
  | PolMalformedTgc => "malformed-tgc"
  | PolMalformedMinerTxPrefix => "malformed-miner-tx-prefix"
  | PolInvalidOutputCount => "invalid-output-count"
  | PolRewardMetadataMismatch => "reward-metadata-mismatch"
  | PolTgcOutputCountMismatch => "tgc-output-count-mismatch"
  | PolNonNativeAsset => "non-native-asset"
  | PolDestinationMismatch => "destination-mismatch"
  | PolAmountCommitmentMismatch => "amount-commitment-mismatch"
  | PolRewardSumMismatch => "reward-sum-mismatch"
  | PolPayoutPlanMismatch => "payout-plan-mismatch"
  end.

(** ** What a verified miner transaction pays *)

Lemma load_le64_range (l : list byte) : is_u64 (load_le64 l).
Proof.
  unfold is_u64, load_le64, u64_max.
  set (f := λ i value, Z.lor value (Z.shiftl (byte_to_Z (l !!! i)) (8 * Z.of_nat i))).
  assert (∀ ks, Forall (λ i, (i < 8)%nat) ks → 0 ≤ foldr f 0 ks < 2 ^ 64) as H8.
  { induction ks as [|i ks IH]; intros Hf; [simpl; lia|]. apply Forall_cons in Hf as [Hi Hf].
    specialize (IH Hf). cbn [foldr]. unfold f at 1 3.
    pose proof (byte_to_Z_range (l !!! i)).
    assert (0 ≤ Z.shiftl (byte_to_Z (l !!! i)) (8 * Z.of_nat i) < 2 ^ 64) as Hs.
    { rewrite Z.shiftl_mul_pow2 by lia.
      assert (2 ^ (8 * Z.of_nat i) ≤ 2 ^ 56) by (apply Z.pow_le_mono_r; lia).
      pose proof (Z.pow_pos_nonneg 2 (8 * Z.of_nat i)). nia. }
    split; [apply Z.lor_nonneg; lia|].
    destruct (Z.eq_dec (Z.lor (foldr f 0 ks) (Z.shiftl (byte_to_Z (l !!! i)) (8 * Z.of_nat i))) 0)
      as [->|]; [lia|].
    apply Z.log2_lt_cancel. rewrite Z.log2_lor, (Z.log2_pow2 64) by lia.
    apply Z.max_lub_lt.
    - destruct (Z.eq_dec (foldr f 0 ks) 0) as [->|]; [done|]. apply Z.log2_lt_pow2; lia.
    - destruct (Z.eq_dec (Z.shiftl (byte_to_Z (l !!! i)) (8 * Z.of_nat i)) 0) as [->|]; [done|].
      apply Z.log2_lt_pow2; lia. }
  assert (Forall (λ i, (i < 8)%nat) (seq 0 8)) as Hseq by (repeat constructor; lia).
  specialize (H8 _ Hseq). lia.
Qed.

Lemma map_res_ok {A B} (f : A → res B) l l' : map_res f l = Ok l' ↔ Forall2 (λ a b, f a = Ok b) l l'.
Proof.
  revert l'. induction l as [|a l IH]; intros l'; simpl.
  - split; [by intros [= <-]|by inversion 1].
  - split.
    + intros E. res_inv. constructor; [done|]. by apply IH.
    + inversion 1 as [|? b ? bs Ha Hl]; subst. rewrite Ha. simpl. by rewrite (proj2 (IH bs) Hl).
Qed.

Section PolicySpec.
Context `{!JsonC, !ZanoCrypto}.

Lemma tgc_amounts_u64 json_text tgc :
  parse_tgc_payout_data json_text = Ok tgc → Forall is_u64 (tgc_amounts tgc).
Proof.
  unfold parse_tgc_payout_data. intros E. res_inv.
  match goal with H : map_res _ _ = Ok _ |- _ => apply map_res_ok in H; revert H end.
  generalize x4 x5. induction 1 as [|a b la lb Ha _ IH]; constructor; [|done].
  unfold scalar_to_u64 in Ha. res_inv. apply load_le64_range.
Qed.

(** Destination [j] alone derives to the key of output [i]. *)
Definition recipient (tgc : ParsedTgcPayoutData) (dests : list PplnsCoinbaseDestination) (i : nat)
    (output : ParsedPayoutOutput) (j : nat) : Prop :=
  is_Some (dests !! j) ∧
  ∀ k d, dests !! k = Some d → ∃ key,
    zano_derive_output_public_key (tgc_tx_secret_key tgc) (spend_public_key (dest_payout d))
      (view_public_key (dest_payout d)) i = Some key ∧
    (key = out_stealth_address output ↔ k = j).

(** What the outputs assigned to destination [j] carry. *)
Definition received (assign : list nat) (amounts : list Z) (j : nat) : Z :=
  sum_by (λ ka, if decide (ka.1 = j) then ka.2 else 0) (zip assign amounts).

(** The outputs, with the openings of their commitments, pay the destinations
    their amounts and nobody else: [assign] names the destination of each. *)
Record pays_plan (tgc : ParsedTgcPayoutData) (outputs : list ParsedPayoutOutput)
    (dests : list PplnsCoinbaseDestination) (assign : list nat) : Prop := {
  pay_assign : length assign = length outputs;
  pay_output : ∀ i o, outputs !! i = Some o →
    native_asset tgc i o = true ∧ commitment_matches tgc i o = true ∧
    ∃ j, assign !! i = Some j ∧ recipient tgc dests i o j;
  pay_amount : ∀ j d, dests !! j = Some d →
    received assign (tgc_amounts tgc) j = dest_amount d }.

Definition derives (tgc : ParsedTgcPayoutData) (i : nat) (d : PplnsCoinbaseDestination)
    : option ZanoCurveKey :=
  zano_derive_output_public_key (tgc_tx_secret_key tgc) (spend_public_key (dest_payout d))
    (view_public_key (dest_payout d)) i.

Lemma match_destination_rest tgc i o dests : ∀ j m m',
  match_destination tgc i o j dests (Some m) = inr m' ↔
  m' = Some m ∧ ∀ k d, dests !! k = Some d → ∃ key,
    derives tgc i d = Some key ∧ key ≠ out_stealth_address o.
Proof.
  induction dests as [|d dests IH]; intros j m m'; simpl; [naive_solver|].
  fold (derives tgc i d). destruct (derives tgc i d) as [key|] eqn:Ed.
  - destruct (arr_eqb key _) eqn:Ek; bool_prop.
    + split; [done|]. intros [_ Hr]. destruct (Hr 0%nat d eq_refl) as (key' & E & ?). congruence.
    + rewrite IH. split.
      * intros [-> Hr]. split; [done|]. intros [|k] d'; simpl; [intros [= <-]; eauto|eauto].
      * intros [-> Hr]. split; [done|]. intros k d' Hk. apply (Hr (S k) d' Hk).
  - split; [done|]. intros [_ Hr]. destruct (Hr 0%nat d eq_refl) as (key' & E & ?). congruence.
Qed.

Lemma match_destination_spec tgc i o dests : ∀ j0 j,
  match_destination tgc i o j0 dests None = inr (Some j) ↔
  ∃ k, j = (j0 + k)%nat ∧ recipient tgc dests i o k.
Proof.
  unfold recipient. induction dests as [|d dests IH]; intros j0 j; simpl.
  { split; [done|]. intros (k & _ & [? ?] & _). done. }
  fold (derives tgc i d). destruct (derives tgc i d) as [key|] eqn:Ed.
  2:{ split; [done|]. intros (k & _ & _ & Hr). destruct (Hr 0%nat d eq_refl) as (key' & E & ?).
      unfold derives in Ed. congruence. }
  destruct (arr_eqb key _) eqn:Ek; bool_prop.
  - rewrite match_destination_rest. split.
    + intros [[= ->] Hr]. exists 0%nat. split; [lia|]. split; [by eexists|].
      intros [|k] d'; simpl.
      * intros [= <-]. exists key. split; [done|]. by subst key.
      * intros Hk. destruct (Hr k d' Hk) as (key' & E & Hne). exists key'. by split.
    + intros (k & -> & _ & Hr). destruct (Hr 0%nat d eq_refl) as (key' & E & Hz).
      unfold derives in Ed. assert (key' = key) as -> by congruence.
      assert (k = 0%nat) as -> by (symmetry; by apply Hz). split; [f_equal; lia|].
      intros k d' Hk. destruct (Hr (S k) d' Hk) as (key' & E' & Hy). exists key'. split; [done|].
      intros F. by apply Hy in F.
  - rewrite IH. split.
    + intros (k & -> & [d' Hk] & Hr). exists (S k). split; [lia|]. split; [by eexists|].
      intros [|k'] d''; simpl; [|intros Hk'; destruct (Hr k' d'' Hk') as (key' & E & Hy);
        exists key'; split; [done|]; rewrite Hy; lia].
      intros [= <-]. exists key. split; [done|]. split; [done|lia].
    + intros (k & -> & [d' Hk] & Hr). destruct k as [|k].
      { destruct (Hr 0%nat d eq_refl) as (key' & E & Hz). unfold derives in Ed.
        assert (key' = key) as -> by congruence. destruct Ek. by apply Hz. }
      exists k. split; [lia|]. split; [by exists d'|]. intros k' d'' Hk'.
      destruct (Hr (S k') d'' Hk') as (key' & E & Hy). exists key'. split; [done|]. rewrite Hy. lia.
Qed.

(** The amounts of outputs [i] to [i + n - 1]. *)
Definition amounts_from (tgc : ParsedTgcPayoutData) (i n : nat) : list Z :=
  (λ k, tgc_amounts tgc !!! k) <$> seq i n.

(** Output [i + k] of the loop is good for destination [j]. *)
Definition output_pays (tgc : ParsedTgcPayoutData) (dests : list PplnsCoinbaseDestination) (i : nat)
    (o : ParsedPayoutOutput) (j : nat) : Prop :=
  native_asset tgc i o = true ∧ commitment_matches tgc i o = true ∧ recipient tgc dests i o j.

Definition assigned (tgc : ParsedTgcPayoutData) (dests : list PplnsCoinbaseDestination) (i : nat)
    (outputs : list ParsedPayoutOutput) (assign : list nat) : Prop :=
  length assign = length outputs ∧
  ∀ k o, outputs !! k = Some o → ∃ j, assign !! k = Some j ∧ output_pays tgc dests (i + k) o j.

Lemma assigned_cons tgc dests i o outputs j assign :
  assigned tgc dests i (o :: outputs) (j :: assign) ↔
  output_pays tgc dests i o j ∧ assigned tgc dests (S i) outputs assign.
Proof.
  unfold assigned. simpl. split.
  - intros [Hl Hk]. split.
    + destruct (Hk 0%nat o eq_refl) as (? & [= <-] & Ho). by rewrite Nat.add_0_r in Ho.
    + split; [lia|]. intros k o' Ho. destruct (Hk (S k) o' Ho) as (j' & Hj & Hp). exists j'.
      by rewrite <-Nat.add_succ_r.
  - intros (Ho & Hl & Hk). split; [lia|]. intros [|k] o'; simpl.
    + intros [= <-]. exists j. by rewrite Nat.add_0_r.
    + intros Hk'. rewrite Nat.add_succ_r. by apply Hk.
Qed.

Lemma amounts_from_S tgc i n :
  amounts_from tgc i (S n) = tgc_amounts tgc !!! i :: amounts_from tgc (S i) n.
Proof. done. Qed.

Lemma sum_by_id_cons a l : sum_by id (a :: l) = a + sum_by id l.
Proof. done. Qed.

Lemma received_cons assign amounts j k a :
  received (k :: assign) (a :: amounts) j =
  (if decide (k = j) then a else 0) + received assign amounts j.
Proof. done. Qed.

(** The accounts after crediting [amount] to [j]. *)
Lemma credit_lookup (credited : list Z) j j' amount :
  (j < length credited)%nat →
  <[j := credited !!! j + amount]> credited !!! j' =
  credited !!! j' + (if decide (j = j') then amount else 0).
Proof.
  intros Hj. destruct (decide (j = j')) as [->|Hne].
  - by rewrite list_lookup_total_insert_eq.
  - rewrite list_lookup_total_insert_ne by done. lia.
Qed.

Lemma plan_outputs_sound tgc dests outputs : ∀ i credited sum credited' sum',
  length credited = length dests →
  plan_outputs_loop tgc dests i outputs credited sum = inr (credited', sum') →
  ∃ assign, assigned tgc dests i outputs assign ∧ length credited' = length dests ∧
    sum' = sum + sum_by id (amounts_from tgc i (length outputs)) ∧
    ∀ j, credited' !!! j = credited !!! j + received assign (amounts_from tgc i (length outputs)) j.
Proof.
  induction outputs as [|o outputs IH]; intros i credited sum credited' sum' Hl;
    cbn [plan_outputs_loop length].
  { intros [= <- <-]. exists []. split; [by split|]. split; [done|].
    split; [simpl; lia|]. intros j. unfold received. simpl. lia. }
  destruct (native_asset tgc i o) eqn:En; [cbn [negb]|done].
  destruct (match_destination _ _ _ _ _ _) as [?|[j|]] eqn:Em; [done| |done].
  apply match_destination_spec in Em as (j' & -> & Hr). cbn [Nat.add].
  destruct (commitment_matches tgc i o) eqn:Ec; [cbn [negb]|done].
  destruct (_ || _); [done|]. intros Hloop.
  assert (j' < length credited)%nat as Hj by (rewrite Hl; by apply lookup_lt_is_Some, Hr).
  apply IH in Hloop as (assign & Ha & Hl' & -> & Hc); [|by rewrite length_insert].
  exists (j' :: assign). split; [by apply assigned_cons|]. split; [done|].
  rewrite amounts_from_S, sum_by_id_cons. split; [lia|].
  intros k. rewrite received_cons, Hc, credit_lookup by done. lia.
Qed.

Lemma plan_outputs_complete tgc dests outputs : ∀ i credited sum assign,
  length credited = length dests → assigned tgc dests i outputs assign →
  Forall (λ a, 0 ≤ a) (amounts_from tgc i (length outputs)) →
  sum + sum_by id (amounts_from tgc i (length outputs)) ≤ u64_max →
  (∀ j, (j < length dests)%nat →
    credited !!! j + received assign (amounts_from tgc i (length outputs)) j ≤ u64_max) →
  is_Some (match plan_outputs_loop tgc dests i outputs credited sum with
           | inr r => Some r | inl _ => None end).
Proof.
  induction outputs as [|o outputs IH]; intros i credited sum assign Hl Ha Hnn Hs Hc; [by eexists|].
  destruct assign as [|j assign]; [by destruct Ha|].
  apply assigned_cons in Ha as [(Hn & Hm & Hr) Ha]. cbn [length] in Hnn, Hs, Hc.
  rewrite amounts_from_S in Hnn, Hs, Hc. apply Forall_cons in Hnn as [Hnn0 Hnn].
  assert (0 ≤ sum_by id (amounts_from tgc (S i) (length outputs))) as Hrest.
  { apply sum_by_nonneg. by apply Forall_forall. }
  assert (∀ k, 0 ≤ received assign (amounts_from tgc (S i) (length outputs)) k) as Hrc.
  { intros k. apply sum_by_nonneg. intros [k' a] Hin. simpl. case_decide; [|done].
    apply elem_of_zip_r in Hin. rewrite Forall_forall in Hnn. by apply Hnn. }
  rewrite sum_by_id_cons in Hs.
  assert (j < length credited)%nat as Hj by (rewrite Hl; by apply lookup_lt_is_Some, Hr).
  cbn [plan_outputs_loop]. rewrite Hn. cbn [negb].
  rewrite (proj2 (match_destination_spec tgc i o dests 0 j)) by by exists j.
  rewrite Hm. cbn [negb].
  pose proof (Hc j ltac:(lia)) as Hcj. rewrite received_cons, decide_True in Hcj by done.
  specialize (Hrc j) as Hrj.
  rewrite (proj2 (Z.ltb_ge _ _)), (proj2 (Z.ltb_ge _ _)) by lia. cbn [orb].
  eapply (IH _ _ _ assign); [by rewrite length_insert|done|done|lia|].
  intros k Hk. rewrite credit_lookup by done. specialize (Hc k Hk). rewrite received_cons in Hc. lia.
Qed.

Lemma received_total assign amounts n :
  length assign = length amounts → Forall (λ j, (j < n)%nat) assign →
  sum_by (received assign amounts) (seq 0 n) = sum_by id amounts.
Proof.
  revert amounts. induction assign as [|k assign IH]; intros [|a amounts] Hl Hf; try done.
  - unfold received. simpl. induction (seq 0 n); simpl; lia.
  - apply Forall_cons in Hf as [Hk Hf]. injection Hl as Hl. rewrite sum_by_id_cons.
    rewrite <-(IH _ Hl Hf).
    assert (∀ s, NoDup s → sum_by (received (k :: assign) (a :: amounts)) s =
      (if decide (k ∈ s) then a else 0) + sum_by (received assign amounts) s) as Hs.
    { induction 1 as [|x s Hx Hs IHs]; simpl; [done|]. rewrite IHs, received_cons.
      destruct (decide (k = x)) as [->|].
      - rewrite (decide_True _ _ (proj2 (elem_of_cons s x x) (or_introl eq_refl))).
        rewrite decide_False by done. lia.
      - destruct (decide (k ∈ s)).
        + rewrite decide_True by by right. lia.
        + rewrite decide_False by (intros [?|?]%elem_of_cons; done). lia. }
    rewrite (Hs _ (NoDup_seq 0 n)), decide_True by (apply elem_of_seq; lia). done.
Qed.

Lemma plan_loop_sum dests : ∀ seen sum sum',
  plan_loop seen dests sum = Some sum' → 0 ≤ sum ≤ u64_max → Forall (λ d, is_u64 (dest_amount d)) dests →
  sum' = sum + sum_by dest_amount dests ∧ 0 ≤ sum' ≤ u64_max.
Proof.
  induction dests as [|d dests IH]; intros seen sum sum'; simpl; [intros [= <-]; lia|].
  destruct (_ || _) eqn:Eb; [done|]. bool_prop. intros Hl Hs [Hd Hf]%Forall_cons.
  unfold is_u64 in Hd. apply IH in Hl; [|lia|done]. lia.
Qed.

Lemma plan_accepted_sum plan reward :
  Forall (λ d, is_u64 (dest_amount d)) (destinations plan) → plan_accepted plan reward = true →
  sum_by dest_amount (destinations plan) = reward ∧ reward ≤ u64_max.
Proof.
  unfold plan_accepted. intros Hf Hp. destruct (plan_loop _ _ _) as [sum|] eqn:El; bool_prop; [|done].
  apply plan_loop_sum in El; [lia|unfold u64_max; lia|done].
Qed.

Lemma amounts_from_all tgc n :
  length (tgc_amounts tgc) = n → amounts_from tgc 0 n = tgc_amounts tgc.
Proof.
  intros <-. apply list_eq. intros k. unfold amounts_from. rewrite list_lookup_fmap.
  destruct (decide (k < length (tgc_amounts tgc))%nat) as [Hk|Hk].
  - rewrite lookup_seq_lt by done. simpl. by rewrite list_lookup_lookup_total_lt.
  - rewrite lookup_seq_ge by lia. symmetry. apply lookup_ge_None. lia.
Qed.

Lemma pays_plan_assigned tgc outputs dests assign :
  length (tgc_amounts tgc) = length outputs →
  pays_plan tgc outputs dests assign ↔
  assigned tgc dests 0 outputs assign ∧
  ∀ j d, dests !! j = Some d →
    received assign (amounts_from tgc 0 (length outputs)) j = dest_amount d.
Proof.
  intros Hl. rewrite amounts_from_all by done. unfold assigned, output_pays. split.
  - intros [Ha Ho Hm]. split; [|done]. split; [done|]. intros k o Hk.
    destruct (Ho k o Hk) as (? & ? & j & ? & ?). by exists j.
  - intros [[Ha Ho] Hm]. split; [done| |done]. intros k o Hk.
    destruct (Ho k o Hk) as (j & ? & ? & ? & ?). eauto.
Qed.

Lemma credited_match (credited : list Z) dests :
  length credited = length dests →
  forallb (λ cd, cd.1 =? dest_amount cd.2) (zip credited dests) = true ↔
  ∀ j d, dests !! j = Some d → credited !!! j = dest_amount d.
Proof.
  revert credited. induction dests as [|d dests IH]; intros [|c credited] Hl; try done.
  injection Hl as Hl. cbn [zip zip_with forallb fst snd]. rewrite andb_true_iff, IH by done. split.
  - intros [Hc Hr] [|j] d'; simpl; [intros [= <-]; lia|by apply Hr].
  - intros Hr. split; [apply Z.eqb_eq; exact (Hr 0%nat d eq_refl)|].
    intros j d' Hj. exact (Hr (S j) d' Hj).
Qed.

Lemma received_le assign amounts j :
  Forall (λ a, 0 ≤ a) amounts → received assign amounts j ≤ sum_by id amounts.
Proof.
  revert amounts. induction assign as [|k assign IH]; intros [|a amounts] Hf; try done.
  - by apply (sum_by_nonneg id), Forall_forall.
  - apply Forall_cons in Hf as [Ha Hf]. rewrite received_cons, sum_by_id_cons.
    specialize (IH amounts Hf). case_decide; lia.
Qed.

Lemma sum_by_dests (f : nat → Z) (l : list PplnsCoinbaseDestination) : ∀ k,
  (∀ j d, l !! j = Some d → f (k + j)%nat = dest_amount d) →
  sum_by f (seq k (length l)) = sum_by dest_amount l.
Proof.
  induction l as [|d l IH]; intros k Hk; [done|]. simpl.
  rewrite <-(Hk 0%nat d eq_refl), Nat.add_0_r. f_equal. apply IH. intros j d' Hj.
  rewrite Nat.add_succ_l, <-Nat.add_succ_r. by apply (Hk (S j)).
Qed.

Lemma assigned_total tgc dests outputs assign :
  assigned tgc dests 0 outputs assign →
  (∀ j d, dests !! j = Some d →
    received assign (amounts_from tgc 0 (length outputs)) j = dest_amount d) →
  sum_by id (amounts_from tgc 0 (length outputs)) = sum_by dest_amount dests.
Proof.
  intros [Hla Ha] Hr. rewrite <-(received_total assign _ (length dests)).
  - by apply sum_by_dests.
  - unfold amounts_from. by rewrite length_fmap, length_seq.
  - apply Forall_lookup. intros k j Hk.
    destruct (lookup_lt_is_Some_2 outputs k) as [o Ho].
    { rewrite <-Hla. by eapply lookup_lt_Some. }
    destruct (Ha k o Ho) as (j' & Hj' & _ & _ & Hrec & _).
    assert (j' = j) as -> by congruence. by apply lookup_lt_is_Some.
Qed.

Lemma assigned_unique tgc dests i outputs assign assign' :
  assigned tgc dests i outputs assign → assigned tgc dests i outputs assign' → assign = assign'.
Proof.
  intros [Hl Ha] [Hl' Ha']. apply list_eq_same_length with (length outputs); [done|done|].
  intros k j j' Hk Hj Hj'. destruct (lookup_lt_is_Some_2 outputs k Hk) as [o Ho].
  destruct (Ha k o Ho) as (? & E & _ & _ & [d Hd] & Hrec).
  destruct (Ha' k o Ho) as (? & E' & _ & _ & _ & Hrec').
  destruct (Hrec _ d Hd) as (key & Ek & Hkey). destruct (Hrec' _ d Hd) as (key' & Ek' & Hkey').
  simplify_eq. apply Hkey'. by apply Hkey.
Qed.

Lemma plan_outputs_exact tgc outputs dests reward :
  length (tgc_amounts tgc) = length outputs → Forall is_u64 (tgc_amounts tgc) →
  sum_by dest_amount dests = reward → reward ≤ u64_max →
  (∃ credited, plan_outputs_loop tgc dests 0 outputs (replicate (length dests) 0) 0 =
     inr (credited, reward) ∧
   forallb (λ cd, cd.1 =? dest_amount cd.2) (zip credited dests) = true) ↔
  ∃ assign, pays_plan tgc outputs dests assign.
Proof.
  intros Hl Hu Hsum Hmax. setoid_rewrite pays_plan_assigned; [|done].
  assert (∀ j, (j < length dests)%nat → (replicate (length dests) 0 : list Z) !!! j = 0) as Hz.
  { intros j Hj. by rewrite lookup_total_replicate_2. }
  split.
  - intros (credited & Hloop & Hc).
    apply plan_outputs_sound in Hloop as (assign & Ha & Hlc & _ & Hr); [|by rewrite length_replicate].
    exists assign. split; [done|]. intros j d Hj. rewrite (credited_match _ _ Hlc) in Hc.
    rewrite <-(Hc j d Hj), Hr, Hz by by eapply lookup_lt_Some. lia.
  - intros (assign & Ha & Hr). pose proof (assigned_total _ _ _ _ Ha Hr) as Htot.
    assert (Forall (λ a, 0 ≤ a) (amounts_from tgc 0 (length outputs))) as Hnn.
    { rewrite amounts_from_all by done. eapply Forall_impl; [done|]. unfold is_u64. lia. }
    destruct (plan_outputs_complete tgc dests outputs 0 (replicate (length dests) 0) 0 assign)
      as [[credited sum] Eloop]; [by rewrite length_replicate|done|done|lia| |].
    { intros j Hj. rewrite Hz by done. pose proof (received_le assign _ j Hnn). lia. }
    destruct (plan_outputs_loop _ _ _ _ _ _) as [?|r] eqn:Er; [done|]. injection Eloop as ->.
    apply plan_outputs_sound in Er as (assign' & Ha' & Hlc & -> & Hr'); [|by rewrite length_replicate].
    exists credited. split; [by rewrite Htot, Hsum|]. apply credited_match; [done|].
    intros j d Hj. rewrite Hr', Hz, <-(Hr j d Hj) by by eapply lookup_lt_Some.
    by rewrite (assigned_unique _ _ _ _ _ _ Ha' Ha).
Qed.

Lemma policy_gate_none binding reward_without_fee reward :
  policy_gate binding reward_without_fee reward = None ↔
  binding = BindingVerified ∧ zano_curve_backend_available = true ∧
  reward_without_fee ≠ 0 ∧ reward = reward_without_fee.
Proof.
  unfold policy_gate. destruct (decide (binding = BindingVerified)) as [->|Hb].
  - rewrite bool_decide_true by done. cbn [negb].
    destruct zano_curve_backend_available; cbn [negb]; [|naive_solver].
    destruct (Z.eqb_spec reward_without_fee 0), (Z.eqb_spec reward reward_without_fee); naive_solver.
  - rewrite bool_decide_false by done. naive_solver.
Qed.

(** The outputs of the transaction and their openings, as the policies read
    them. *)
Definition opened (miner_tx_prefix : list byte) (miner_tx_tgc_json : text)
    (outputs : list ParsedPayoutOutput) (tgc : ParsedTgcPayoutData) : Prop :=
  parse_current_outputs miner_tx_prefix = Ok outputs ∧
  parse_tgc_payout_data miner_tx_tgc_json = Ok tgc ∧
  (kCurrentMinerMinOutputs ≤ length outputs ≤ kCurrentMinerMaxOutputs)%nat ∧
  length (tgc_amounts tgc) = length outputs ∧
  length (tgc_amount_blinding_masks tgc) = length outputs ∧
  length (tgc_asset_id_blinding_masks tgc) = length outputs.

Lemma policy_inputs_ok miner_tx_prefix miner_tx_tgc_json outputs tgc :
  policy_inputs miner_tx_prefix miner_tx_tgc_json = inr (outputs, tgc) ↔
  opened miner_tx_prefix miner_tx_tgc_json outputs tgc.
Proof.
  unfold policy_inputs, opened.
  destruct (parse_current_outputs miner_tx_prefix) as [os|]; [|naive_solver].
  destruct (parse_tgc_payout_data miner_tx_tgc_json) as [t|]; cycle 1.
  { destruct (_ || _); naive_solver. }
  destruct (Nat.ltb_spec (length os) kCurrentMinerMinOutputs),
    (Nat.ltb_spec kCurrentMinerMaxOutputs (length os)); cbn [orb];
    try (split; [done|]; intros (? & ? & ? & _); simplify_eq; lia).
  destruct (Nat.eqb_spec (length (tgc_amounts t)) (length os)),
    (Nat.eqb_spec (length (tgc_amount_blinding_masks t)) (length os)),
    (Nat.eqb_spec (length (tgc_asset_id_blinding_masks t)) (length os)); cbn [negb orb]; naive_solver.
Qed.

Lemma policy_inputs_not_verified miner_tx_prefix miner_tx_tgc_json status n :
  policy_inputs miner_tx_prefix miner_tx_tgc_json = inl (status, n) → status ≠ PolVerified.
Proof.
  unfold policy_inputs. destruct (parse_current_outputs _); [|naive_solver].
  destruct (_ || _); [naive_solver|]. destruct (parse_tgc_payout_data _); [|naive_solver].
  destruct (_ || _); naive_solver.
Qed.

Lemma match_destination_not_verified tgc i o dests : ∀ j matched status,
  match_destination tgc i o j dests matched = inl status → status ≠ PolVerified.
Proof.
  induction dests as [|d dests IH]; intros j matched status; simpl; [done|].
  destruct (zano_derive_output_public_key _ _ _ _); [|naive_solver].
  destruct (arr_eqb _ _); [|by apply IH]. destruct matched; [naive_solver|by apply IH].
Qed.

Lemma plan_outputs_not_verified tgc dests outputs : ∀ i credited sum status,
  plan_outputs_loop tgc dests i outputs credited sum = inl status → status ≠ PolVerified.
Proof.
  induction outputs as [|o outputs IH]; intros i credited sum status; simpl; [done|].
  destruct (negb _); [naive_solver|].
  destruct (match_destination _ _ _ _ _ _) as [st|[j|]] eqn:Em; [|destruct (negb _)|naive_solver].
  - intros [= <-]. by apply match_destination_not_verified in Em.
  - naive_solver.
  - destruct (_ || _); [naive_solver|]. by apply IH.
Qed.

(** The end of the policy, once the outputs are open. *)
Lemma plan_tail_exact binding plan reward outputs tgc :
  length (tgc_amounts tgc) = length outputs → Forall is_u64 (tgc_amounts tgc) →
  sum_by dest_amount (destinations plan) = reward → reward ≤ u64_max →
  let dests := destinations plan in
  let n := length outputs in
  let r := match plan_outputs_loop tgc dests 0 outputs (replicate (length dests) 0) 0 with
           | inl status => mkPolicy status binding n 0
           | inr (credited, reward_sum) =>
               if negb (reward_sum =? reward)
               then mkPolicy PolRewardSumMismatch binding n reward_sum
               else if negb (forallb (λ cd, cd.1 =? dest_amount cd.2) (zip credited dests))
               then mkPolicy PolPayoutPlanMismatch binding n reward_sum
               else mkPolicy PolVerified binding n reward_sum
           end in
  (po_status r = PolVerified ↔ ∃ assign, pays_plan tgc outputs dests assign) ∧
  (po_status r = PolVerified → po_verified_reward r = reward).
Proof.
  intros Hla Htgc Hsum Hmax. cbv zeta.
  rewrite <-(plan_outputs_exact tgc outputs (destinations plan) reward Hla Htgc Hsum Hmax).
  destruct (plan_outputs_loop _ _ _ _ _ _) as [status|[credited sum]] eqn:El.
  { pose proof (plan_outputs_not_verified _ _ _ _ _ _ _ El).
    split; [|done]. split; [done|]. by intros (? & ? & _). }
  destruct (Z.eqb_spec sum reward) as [->|Hne]; cbn [negb]; cycle 1.
  { split; [|done]. split; [done|]. by intros (? & [= ? ?] & _). }
  destruct (forallb _ _) eqn:Ef; cbn [negb po_status po_verified_reward].
  - split; [|done]. split; [|done]. intros _. by exists credited.
  - split; [|done]. split; [done|]. intros (c & [= <-] & E). congruence.
Qed.

Lemma plan_policy_iff : ∀ miner_tx_prefix miner_tx_tgc_json reward_without_fee reward fee plan,
  Forall (λ d, is_u64 (dest_amount d)) (destinations plan) →
  let r := verify_miner_tx_plan_policy miner_tx_prefix miner_tx_tgc_json reward_without_fee
             reward fee plan in
  (po_status r = PolVerified ↔
   mb_status (verify_miner_tx_tgc_key_binding miner_tx_prefix miner_tx_tgc_json) = BindingVerified ∧
   zano_curve_backend_available = true ∧
   reward_without_fee ≠ 0 ∧ reward = reward_without_fee ∧ plan_accepted plan reward = true ∧
   ∃ outputs tgc assign, opened miner_tx_prefix miner_tx_tgc_json outputs tgc ∧
     pays_plan tgc outputs (destinations plan) assign) ∧
  (po_status r = PolVerified → po_verified_reward r = reward).
Proof.
  intros prefix json_text rwf reward fee plan Hd. cbv zeta. unfold verify_miner_tx_plan_policy.
  set (binding := mb_status _).
  destruct (policy_gate binding rwf reward) as [status|] eqn:Eg.
  { assert (status ≠ PolVerified) as Hs.
    { revert Eg. unfold policy_gate. repeat case_match; naive_solver. }
    split; [|done]. split; [done|]. intros (Hb & Hz & Hr & Hw & _).
    assert (policy_gate binding rwf reward = None) as E by (apply policy_gate_none; tauto). congruence. }
  apply policy_gate_none in Eg as (Hb & Hz & Hr & Hw).
  destruct (plan_accepted plan reward) eqn:Ea; cbn [negb]; [|naive_solver].
  destruct (plan_accepted_sum plan reward Hd Ea) as [Hsum Hmax].
  destruct (policy_inputs prefix json_text) as [[status n]|[outputs tgc]] eqn:Ei.
  { pose proof (policy_inputs_not_verified _ _ _ _ Ei). split; [|done]. split; [done|].
    intros (_ & _ & _ & _ & _ & outputs & tgc & assign & Ho & _).
    apply policy_inputs_ok in Ho. congruence. }
  pose proof (proj1 (policy_inputs_ok _ _ _ _) Ei) as Hop.
  pose proof Hop as (_ & Htgc & _ & Hla & _). apply tgc_amounts_u64 in Htgc.
  destruct (plan_tail_exact binding plan reward outputs tgc Hla Htgc Hsum Hmax) as [Htail Hrew].
  split; [|exact Hrew]. rewrite Htail. split.
  - intros [assign Ha]. repeat (split; [done|]). by exists outputs, tgc, assign.
  - intros (_ & _ & _ & _ & _ & outputs' & tgc' & assign & Ho & Ha).
    apply policy_inputs_ok in Ho. rewrite Ei in Ho. injection Ho as <- <-. by exists assign.
Qed.

(** C24: the coinbase pays the plan.  The PPLNS policy verifies a miner
    transaction exactly when its key is bound, its reward is the block's base
    reward and the plan's, and every output opens to a native amount, is derived
    for one destination of the plan and no other, and the amounts of the outputs
    of each destination add up to what the plan gives it.  Then the whole reward
    is accounted for. *)
Theorem plan_policy_exact : ∀ miner_tx_prefix miner_tx_tgc_json reward_without_fee reward fee plan,
  Forall (λ d, is_u64 (dest_amount d)) (destinations plan) →
  let r := verify_miner_tx_plan_policy miner_tx_prefix miner_tx_tgc_json reward_without_fee
             reward fee plan in
  (po_status r = PolVerified ↔
   mb_status (verify_miner_tx_tgc_key_binding miner_tx_prefix miner_tx_tgc_json) = BindingVerified ∧
   zano_curve_backend_available = true ∧
   reward_without_fee ≠ 0 ∧ reward = reward_without_fee ∧ plan_accepted plan reward = true ∧
   ∃ outputs tgc assign, opened miner_tx_prefix miner_tx_tgc_json outputs tgc ∧
     pays_plan tgc outputs (destinations plan) assign) ∧
  (po_status r = PolVerified → po_verified_reward r = reward).
Proof. intros. by apply plan_policy_iff. Qed.

End PolicySpec.
