(* ===== verification/ZanoAddress.v ===== *)
(** Zano's standard addresses: [include/zano_p2pool/zano_address.hpp],
    [src/zano_address.cpp].  CryptoNote base58 in blocks of eight bytes, a varint
    prefix and a checksum of four bytes. *)
From S2P Require Import Prelude CryptoHash Share P2pProtocol MiningHeader BlockTemplate PayoutPolicy.
Local Open Scope pool_scope.

Definition kZanoStandardAddressBase58Prefix : Z := 197.
Definition kBase58Alphabet : text :=
  String.list_ascii_of_string "123456789ABCDEFGHJKLMNPQRSTUVWXYZabcdefghijkmnopqrstuvwxyz".
Definition kEncodedBlockSizes : list nat := [0; 2; 3; 5; 6; 7; 9; 10; 11]%nat.
Definition kDecodedFullBlockSize : nat := 8.
Definition kEncodedFullBlockSize : nat := 11.
Definition kAddressChecksumSize : nat := 4.
Definition kClassicAddressPayloadSize : nat := 64.

Inductive ZanoAddressDecodeStatus :=
| AddressValid | InvalidBase58 | InvalidChecksum | InvalidPrefix | UnsupportedPayload.

Record ZanoAddressDecodeResult := mkDecoded {
  zd_status : ZanoAddressDecodeStatus;
  zd_payout : P2pPayoutAddress }.

(** The first index whose entry satisfies [p]. *)
Fixpoint find_index {A} (p : A → bool) (l : list A) : option nat :=
  match l with
  | [] => None
  | x :: l => if p x then Some O else S <$> find_index p l
  end.

(** [-1] is [None]. *)
Definition decoded_block_size (encoded_size : nat) : option nat :=
  find_index (λ s, (s =? encoded_size)%nat) kEncodedBlockSizes.
Definition base58_digit (c : Ascii.ascii) : option nat :=
  find_index (Ascii.eqb c) kBase58Alphabet.

Fixpoint block_value (encoded : text) (value : Z) : option Z :=
  match encoded with
  | [] => Some value
  | c :: rest =>
      match base58_digit c with
      | None => None
      | Some digit => block_value rest (value * 58 + Z.of_nat digit)
      end
  end.

(** Into [size] bytes; [uint128_t] holds every value of at most eleven digits. *)
Definition decode_block (encoded : text) (size : nat) : option (list byte) :=
  if bool_decide (encoded = []) || (size =? 0)%nat || (8 <? size)%nat then None
  else
  match block_value encoded 0 with
  | None => None
  | Some value => if pow256 size <=? value then None else Some (be_bytes size value)
  end.

Fixpoint decode_full_blocks (full_blocks : nat) (encoded : text) : option (list byte * text) :=
  match full_blocks with
  | O => Some ([], encoded)
  | S n =>
      match decode_block (take kEncodedFullBlockSize encoded) kDecodedFullBlockSize with
      | None => None
      | Some block =>
          '(rest, tail) ← decode_full_blocks n (drop kEncodedFullBlockSize encoded);
          Some (block ++ rest, tail)
      end
  end.

Definition decode_base58 (encoded : text) : option (list byte) :=
  if bool_decide (encoded = []) then Some []
  else
  let full_blocks := (length encoded / kEncodedFullBlockSize)%nat in
  let remainder := (length encoded mod kEncodedFullBlockSize)%nat in
  match decoded_block_size remainder with
  | None => None
  | Some tail_size =>
      '(decoded, tail) ← decode_full_blocks full_blocks encoded;
      if (remainder =? 0)%nat then Some decoded
      else block ← decode_block tail tail_size; Some (decoded ++ block)
  end.

(** The value and the bytes consumed; [fuel] is what is left of the ten rounds. *)
Fixpoint varint_loop (fuel : nat) (bytes : list byte) (i : nat) (value shift : Z)
    : option (Z * nat) :=
  match fuel, bytes with
  | S fuel, b :: bytes =>
      let byte := byte_to_Z b in
      let part := Z.land byte 127 in
      if (64 <=? shift) || ((shift =? 63) && (1 <? part)) then None
      else
      let value := Z.lor value (Z.shiftl part shift) in
      if Z.land byte 128 =? 0
      then if (0 <? i)%nat && (part =? 0) then None else Some (value, S i)
      else varint_loop fuel bytes (S i) value (shift + 7)
  | _, _ => None
  end.
Definition read_canonical_varint (bytes : list byte) : option (Z * nat) := varint_loop 10 bytes 0 0 0.

Definition no_payout : P2pPayoutAddress := mkPayoutAddress (arr_zero 32) (arr_zero 32).

Definition decode_zano_standard_address (address : text) : ZanoAddressDecodeResult :=
  match decode_base58 address with
  | None => mkDecoded InvalidBase58 no_payout
  | Some decoded =>
      if (length decoded <=? kAddressChecksumSize)%nat then mkDecoded InvalidBase58 no_payout
      else
      let content_size := (length decoded - kAddressChecksumSize)%nat in
      let content := take content_size decoded in
      if negb (bool_decide (drop content_size decoded =
                            take kAddressChecksumSize (vec_to_list (cn_fast_hash content))))
      then mkDecoded InvalidChecksum no_payout
      else
      match read_canonical_varint content with
      | Some (prefix, prefix_size) =>
          if negb (prefix =? kZanoStandardAddressBase58Prefix) then mkDecoded InvalidPrefix no_payout
          else if negb (length content - prefix_size =? kClassicAddressPayloadSize)%nat
          then mkDecoded UnsupportedPayload no_payout
          else
          let payload := drop prefix_size content in
          mkDecoded AddressValid (mkPayoutAddress (copy_n 32 payload 0) (copy_n 32 payload 32))
      | None => mkDecoded InvalidPrefix no_payout
      end
  end.

Definition zano_address_decode_status_name (s : ZanoAddressDecodeStatus) : string :=
  match s with
  | AddressValid => "valid"
  | InvalidBase58 => "invalid-base58"
  | InvalidChecksum => "invalid-checksum"
  | InvalidPrefix => "invalid-prefix"
  | UnsupportedPayload => "unsupported-payload"
  end.

(** ** The one text of an address *)

Fixpoint digits58 (w : nat) (v : Z) : list nat :=
  match w with
  | O => []
  | S w => digits58 w (v / 58) ++ [Z.to_nat (v mod 58)]
  end.
Definition digit_char (d : nat) : Ascii.ascii := nth d kBase58Alphabet Ascii.zero.
Definition encode_block (block : list byte) : text :=
  digit_char <$> digits58 (nth (length block) kEncodedBlockSizes 0%nat) (be_Z block).

Fixpoint encode_blocks (n : nat) (bytes : list byte) : text :=
  match n with
  | O => encode_block bytes
  | S n => encode_block (take 8 bytes) ++ encode_blocks n (drop 8 bytes)
  end.
(** Full blocks of eight bytes, and a shorter one. *)
Definition encode_base58 (bytes : list byte) : text := encode_blocks (length bytes / 8) bytes.

Definition address_content (payout : P2pPayoutAddress) : list byte :=
  [byte_of_Z 197; byte_of_Z 1] ++ vec_to_list (pa_spend_public_key payout) ++
  vec_to_list (pa_view_public_key payout).
Definition encode_zano_standard_address (payout : P2pPayoutAddress) : text :=
  encode_base58 (address_content payout ++ take 4 (vec_to_list (cn_fast_hash (address_content payout)))).

(** *** Digits *)

Lemma find_index_spec {A} (p : A → bool) l i d :
  find_index p l = Some i → (i < length l)%nat ∧ p (nth i l d) = true.
Proof.
  revert i. induction l as [|x l IH]; intros i; [done|]. cbn.
  destruct (p x) eqn:E; [intros [= <-]; split; [lia|done]|].
  destruct (find_index p l) as [j|]; [|done]. intros [= <-]. destruct (IH j eq_refl) as [Hj Hp].
  split; [lia|exact Hp].
Qed.

#[local] Arguments base58_digit : simpl never.
#[local] Arguments digit_char : simpl never.

Lemma base58_digit_spec c i : base58_digit c = Some i ↔ (i < 58)%nat ∧ c = digit_char i.
Proof.
  split.
  - intros H. apply (find_index_spec _ _ _ Ascii.zero) in H as [Hl He]. split; [exact Hl|].
    by apply Ascii.eqb_eq in He.
  - intros [Hi ->]. revert i Hi.
    assert (Forall (λ i, base58_digit (digit_char i) = Some i) (seq 0 58)) as Hall.
    { apply (bool_decide_unpack _). by vm_compute. }
    intros i Hi. rewrite Forall_forall in Hall. apply Hall, elem_of_seq. lia.
Qed.

Lemma block_value_app l1 l2 v :
  block_value (l1 ++ l2) v = v' ← block_value l1 v; block_value l2 v'.
Proof.
  revert v. induction l1 as [|c l1 IH]; intros v; [done|]. cbn. destruct (base58_digit c); [|done]. apply IH.
Qed.

Lemma length_digits58 w v : length (digits58 w v) = w.
Proof. revert v. induction w; intros v; cbn; [done|]. rewrite length_app, IHw. cbn. lia. Qed.

Lemma block_value_digits w : ∀ v, 0 ≤ v → block_value (digit_char <$> digits58 w v) 0 = Some (v mod 58 ^ Z.of_nat w).
Proof.
  induction w as [|w IH]; intros v Hv; cbn [digits58 fmap list_fmap].
  { by rewrite Z.mod_1_r. }
  rewrite fmap_app, block_value_app, IH by (apply Z.div_pos; lia). cbn.
  assert (base58_digit (digit_char (Z.to_nat (v mod 58))) = Some (Z.to_nat (v mod 58))) as ->.
  { apply base58_digit_spec. pose proof (Z.mod_pos_bound v 58). split; [lia|done]. }
  f_equal. rewrite Z2Nat.id by (apply Z.mod_pos_bound; lia).
  replace (58 ^ Z.of_nat (S w)) with (58 * 58 ^ Z.of_nat w)
    by (rewrite Nat2Z.inj_succ, Z.pow_succ_r by lia; done).
  rewrite Z.rem_mul_r by (try lia; apply Z.pow_pos_nonneg; lia). lia.
Qed.

(** A text of digits is determined by its length and its value. *)
Lemma block_value_inv e : ∀ v, block_value e 0 = Some v →
  0 ≤ v < 58 ^ Z.of_nat (length e) ∧ e = digit_char <$> digits58 (length e) v.
Proof.
  induction e as [|c e IH] using rev_ind; intros v; [intros [= <-]; by cbn|].
  rewrite block_value_app. destruct (block_value e 0) as [u|] eqn:Eu; [|done]. cbn.
  destruct (base58_digit c) as [d|] eqn:Ed; [|done]. intros [= <-].
  apply base58_digit_spec in Ed as [Hd ->]. destruct (IH u eq_refl) as [Hu He].
  rewrite length_app. cbn [length]. rewrite Nat.add_1_r. cbn [digits58].
  assert ((u * 58 + Z.of_nat d) / 58 = u) as Hdiv by (rewrite Z.div_add_l by lia; rewrite Z.div_small; lia).
  assert ((u * 58 + Z.of_nat d) mod 58 = Z.of_nat d) as Hmod
    by (rewrite Z.add_comm, Z.mod_add, Z.mod_small; lia).
  rewrite Hdiv, Hmod, Nat2Z.id, fmap_app, <-He. split; [|done].
  rewrite Nat2Z.inj_succ, Z.pow_succ_r by lia. lia.
Qed.

(** *** Blocks *)

Abbreviation block_width n := (nth n kEncodedBlockSizes 0%nat).

(** The nine sizes, checked one by one. *)
Lemma block_sizes n : (n ≤ 8)%nat →
  pow256 n ≤ 58 ^ Z.of_nat (block_width n) ∧ decoded_block_size (block_width n) = Some n ∧
  (block_width n = 0 ↔ n = 0)%nat ∧ (n < 8 → block_width n < 11)%nat.
Proof.
  intros Hn. do 9 (destruct n as [|n]; [split_and!; [by vm_compute|by vm_compute|..]; cbn; lia|]). lia.
Qed.

Lemma decoded_size_inv r t : decoded_block_size r = Some t → (r < 11)%nat →
  (t < 8)%nat ∧ r = block_width t.
Proof.
  intros H Hr. apply (find_index_spec _ _ _ 0%nat) in H as [Hl He]. apply Nat.eqb_eq in He. cbn in Hl.
  split; [|done]. destruct (decide (t = 8%nat)) as [->|]; [cbn in He; lia|lia].
Qed.

Lemma length_encode_block l : length (encode_block l) = block_width (length l).
Proof. unfold encode_block. by rewrite length_fmap, length_digits58. Qed.

Lemma decode_block_inv e n out :
  (n ≤ 8)%nat → length e = block_width n → decode_block e n = Some out →
  length out = n ∧ e = encode_block out.
Proof.
  intros Hn Hl. unfold decode_block. destruct (_ || _); [done|].
  destruct (block_value e 0) as [v|] eqn:Ev; [|done]. destruct (_ <=? v) eqn:E; [done|].
  intros [= <-]. apply block_value_inv in Ev as [Hv He]. rewrite length_be_bytes. split; [done|].
  unfold encode_block. rewrite length_be_bytes, be_Z_be_bytes, <-Hl, Z.mod_small by lia. done.
Qed.

Lemma decode_encode_block l :
  (0 < length l ≤ 8)%nat → decode_block (encode_block l) (length l) = Some l.
Proof.
  intros Hl. destruct (block_sizes (length l)) as (Hp & _ & Hz & _); [lia|]. unfold decode_block.
  rewrite bool_decide_false, (proj2 (Nat.eqb_neq _ _)), (proj2 (Nat.ltb_ge _ _)).
  - cbn [orb]. unfold encode_block. pose proof (be_Z_range l).
    rewrite block_value_digits, Z.mod_small by lia. rewrite (proj2 (Z.leb_gt _ _)) by lia.
    by rewrite be_bytes_be_Z.
  - lia.
  - lia.
  - intros E. apply (f_equal length) in E. rewrite length_encode_block in E. cbn [length] in E. apply Hz in E. lia.
Qed.

Lemma decode_full_inv n : ∀ e d tail,
  (11 * n ≤ length e)%nat → decode_full_blocks n e = Some (d, tail) →
  length d = (8 * n)%nat ∧ tail = drop (11 * n) e ∧
  ∀ r, encode_blocks n (d ++ r) = take (11 * n) e ++ encode_block r.
Proof.
  induction n as [|n IH]; intros e d tail Hl; cbn [decode_full_blocks].
  { intros [= <- <-]. rewrite Nat.mul_0_r. by split_and!. }
  destruct (decode_block _ _) as [block|] eqn:Eb; [|done].
  destruct (decode_full_blocks n _) as [[d' t']|] eqn:Er; cbn; [|done]. intros [= <- <-].
  apply decode_block_inv in Eb as [Hlb Hb]; [|done|rewrite length_take; change (11 `min` length e = 11)%nat; lia].
  unfold kEncodedFullBlockSize, kDecodedFullBlockSize in *.
  apply IH in Er as (Hld & -> & Henc); [|rewrite length_drop; lia].
  rewrite length_app, Hlb, Hld, drop_drop. split_and!; [lia|f_equal; lia|].
  intros r. change (encode_block (take 8 ((block ++ d') ++ r)) ++ encode_blocks n (drop 8 ((block ++ d') ++ r)) =
    take (11 * S n) e ++ encode_block r). rewrite <-app_assoc.
  rewrite (take_app_length' block (d' ++ r) 8 (eq_sym Hlb)), (drop_app_length' block (d' ++ r) 8 (eq_sym Hlb)).
  rewrite Henc, <-Hb, app_assoc. f_equal.
  replace (11 * S n)%nat with (11 + 11 * n)%nat by lia.
  by rewrite <-(take_take_drop e 11 (11 * n)).
Qed.

Lemma decode_base58_inv a d : decode_base58 a = Some d → a = encode_base58 d.
Proof.
  unfold decode_base58. destruct (bool_decide (a = [])) eqn:E0.
  { apply bool_decide_eq_true in E0 as ->. by intros [= <-]. }
  cbv zeta. unfold kEncodedFullBlockSize. set (n := (length a / 11)%nat). set (r := (length a mod 11)%nat).
  assert (length a = 11 * n + r)%nat as Hla by (apply Nat.div_mod; lia).
  assert (r < 11)%nat as Hr by (apply Nat.mod_upper_bound; lia).
  destruct (decoded_block_size r) as [t|] eqn:Et; [|done]. apply decoded_size_inv in Et as [Ht Hrt]; [|done].
  destruct (decode_full_blocks n a) as [[d0 tail]|] eqn:Ef; cbn [mbind option_bind]; [|done].
  apply decode_full_inv in Ef as (Hl0 & -> & Henc); [|lia].
  assert (∀ block, length block = t → encode_block block = drop (11 * n) a →
    a = encode_base58 (d0 ++ block)) as Hdone.
  { intros block Hb Hd. unfold encode_base58. rewrite length_app, Hl0, Hb.
    replace ((8 * n + t) / 8)%nat with n by (apply Nat.div_unique with t; lia).
    rewrite Henc, Hd. by rewrite take_drop. }
  destruct (r =? 0)%nat eqn:E.
  - apply Nat.eqb_eq in E. intros [= <-]. rewrite <-(app_nil_r d0). apply Hdone.
    + destruct (block_sizes t) as (_ & _ & Hz & _); [lia|]. symmetry. apply Hz. lia.
    + symmetry. apply nil_length_inv. rewrite length_drop. lia.
  - destruct (decode_block _ t) as [block|] eqn:Eb; cbn [mbind option_bind]; [|done]. intros [= <-].
    apply decode_block_inv in Eb as [Hb Heq]; [|lia|rewrite length_drop; lia]. by apply Hdone.
Qed.

Lemma decode_full_encode n : ∀ d t, length d = (8 * n + t)%nat → 
  decode_full_blocks n (encode_blocks n d) = Some (take (8 * n) d, encode_block (drop (8 * n) d)).
Proof.
  induction n as [|n IH]; intros d t Hl; cbn [decode_full_blocks encode_blocks]; [done|].
  assert (length (take 8 d) = 8%nat) as H8 by (rewrite length_take; lia).
  unfold kEncodedFullBlockSize, kDecodedFullBlockSize.
  rewrite take_app_length', drop_app_length' by (rewrite length_encode_block, H8; done).
  rewrite <-H8 at 2. rewrite decode_encode_block by lia.
  rewrite (IH (drop 8 d) t) by (rewrite length_drop; lia). cbn [mbind option_bind].
  rewrite drop_drop. replace (8 * S n)%nat with (8 + 8 * n)%nat by lia.
  by rewrite take_take_drop.
Qed.

Lemma length_encode_blocks n : ∀ d t, length d = (8 * n + t)%nat →
  length (encode_blocks n d) = (11 * n + block_width t)%nat.
Proof.
  induction n as [|n IH]; intros d t Hl; cbn [encode_blocks].
  { rewrite length_encode_block, Hl. done. }
  rewrite length_app, length_encode_block, (IH _ t) by (rewrite length_drop; lia).
  replace (length (take 8 d)) with 8%nat by (rewrite length_take; lia).
  change (11 + (11 * n + block_width t) = 11 * S n + block_width t)%nat. lia.
Qed.

Lemma decode_encode_base58 d : decode_base58 (encode_base58 d) = Some d.
Proof.
  set (n := (length d / 8)%nat). set (t := (length d mod 8)%nat).
  assert (length d = 8 * n + t)%nat as Hld by (apply Nat.div_mod; lia).
  assert (t < 8)%nat as Ht by (apply Nat.mod_upper_bound; lia).
  destruct (block_sizes t) as (_ & Hdec & Hz & Hlt); [lia|]. specialize (Hlt Ht).
  unfold decode_base58, encode_base58. fold n.
  pose proof (length_encode_blocks n d t Hld) as Hle.
  destruct (bool_decide (encode_blocks n d = [])) eqn:E.
  { apply bool_decide_eq_true in E. rewrite E in Hle. cbn [length] in Hle. f_equal. symmetry.
    apply nil_length_inv. lia. }
  cbv zeta. rewrite Hle. unfold kEncodedFullBlockSize.
  replace ((11 * n + block_width t) / 11)%nat with n
    by (apply Nat.div_unique with (block_width t); lia).
  replace ((11 * n + block_width t) mod 11)%nat with (block_width t)
    by (apply Nat.mod_unique with n; lia).
  rewrite Hdec, (decode_full_encode n d t Hld). cbn [mbind option_bind].
  destruct (block_width t =? 0)%nat eqn:Ew.
  - apply Nat.eqb_eq, Hz in Ew. rewrite take_ge by lia. done.
  - apply Nat.eqb_neq in Ew. assert (length (drop (8 * n) d) = t) as Hd by (rewrite length_drop; lia).
    rewrite <-Hd at 1. rewrite decode_encode_block by (rewrite Hd; lia). cbn [mbind option_bind].
    by rewrite take_drop.
Qed.

(** *** The prefix *)

(** One round, for a shift below 63. *)
Lemma varint_step fuel b bytes i value shift :
  0 ≤ shift < 63 → 0 ≤ value < 2 ^ shift →
  varint_loop (S fuel) (b :: bytes) i value shift =
  let part := byte_to_Z b mod 128 in
  if byte_to_Z b <? 128
  then if (0 <? i)%nat && (part =? 0) then None else Some (value + part * 2 ^ shift, S i)
  else varint_loop fuel bytes (S i) (value + part * 2 ^ shift) (shift + 7).
Proof.
  intros Hs Hv. cbn [varint_loop]. cbv zeta. destruct (byte_bits b) as [-> ->].
  pose proof (Z.mod_pos_bound (byte_to_Z b) 128). rewrite lor_shifted by lia.
  rewrite (proj2 (Z.leb_gt 64 shift)), (proj2 (Z.eqb_neq shift 63)) by lia. done.
Qed.

(** The last byte of a varint of several bytes is not zero. *)
Lemma varint_lower fuel : ∀ bytes i value shift v c,
  (0 < i)%nat → 0 ≤ shift → 0 ≤ value < 2 ^ shift →
  varint_loop fuel bytes i value shift = Some (v, c) → 2 ^ shift ≤ v.
Proof.
  induction fuel as [|fuel IH]; intros bytes i value shift v c Hi Hs Hv; [done|]. cbn [varint_loop].
  destruct bytes as [|b bytes]; [done|]. cbv zeta. destruct (_ || _); [done|].
  destruct (byte_bits b) as [-> ->]. pose proof (Z.mod_pos_bound (byte_to_Z b) 128) as Hp.
  rewrite lor_shifted by lia. destruct (byte_to_Z b <? 128).
  - rewrite (proj2 (Nat.ltb_lt _ _) Hi). cbn [andb]. destruct (_ =? 0) eqn:E0; [done|].
    intros [= <- <-]. nia.
  - intros H%IH; [|lia..|].
    + etrans; [|exact H]. apply Z.pow_le_mono_r; lia.
    + rewrite Z.pow_add_r by lia. nia.
Qed.

Lemma standard_prefix bytes c :
  read_canonical_varint bytes = Some (kZanoStandardAddressBase58Prefix, c) ↔
  ∃ rest, bytes = [byte_of_Z 197; byte_of_Z 1] ++ rest ∧ c = 2%nat.
Proof.
  split; [|by intros (rest & -> & ->)]. unfold read_canonical_varint.
  destruct bytes as [|b1 bytes]; [done|]. pose proof (byte_to_Z_range b1).
  rewrite varint_step by lia. cbv zeta. rewrite Z.mul_1_r. destruct (byte_to_Z b1 <? 128) eqn:E1.
  { cbn [andb Nat.ltb Nat.leb]. intros [= Hv _]. unfold kZanoStandardAddressBase58Prefix in Hv.
    Z.div_mod_to_equations. lia. }
  destruct bytes as [|b2 bytes]; [done|]. pose proof (byte_to_Z_range b2).
  change (2 ^ (0 + 7)) with 128.
  rewrite varint_step by (try change (2 ^ (0 + 7)) with 128; Z.div_mod_to_equations; lia). cbv zeta.
  change (2 ^ (0 + 7)) with 128.
  destruct (byte_to_Z b2 <? 128) eqn:E2.
  - destruct (_ && _); [done|]. intros [= Hv <-]. exists bytes. split; [|done].
    unfold kZanoStandardAddressBase58Prefix in Hv. cbn [app]. repeat f_equal; apply byte_to_Z_inj;
      rewrite byte_to_of_Z; change (197 mod 256) with 197; change (1 mod 256) with 1; Z.div_mod_to_equations; lia.
  - intros Hv%varint_lower; 
      [|lia|lia|change (2 ^ (0 + 7 + 7)) with 16384; Z.div_mod_to_equations; lia].
    unfold kZanoStandardAddressBase58Prefix in Hv.
    change (2 ^ (0 + 7 + 7)) with 16384 in Hv. lia.
Qed.

(** *** The address *)

Lemma address_content_length k : length (address_content k) = 66%nat.
Proof. unfold address_content. rewrite !length_app, !length_vec_to_list. done. Qed.

(** The text of a standard Zano address is unique: a text decodes to a pair of keys
    exactly when it is the base58 text of the prefix 197, the two keys and the first four
    bytes of the hash of these. *)
Theorem address_text_unique a k :
  decode_zano_standard_address a = mkDecoded AddressValid k ↔ a = encode_zano_standard_address k.
Proof.
  unfold decode_zano_standard_address. split.
  - destruct (decode_base58 a) as [d|] eqn:Ed; [|done]. apply decode_base58_inv in Ed as ->.
    destruct (_ <=? _)%nat eqn:El; [done|]. apply Nat.leb_gt in El. unfold kAddressChecksumSize in *. cbv zeta.
    set (content := take _ d). destruct (negb _) eqn:Ec; [done|].
    apply negb_false_iff, bool_decide_eq_true in Ec.
    destruct (read_canonical_varint content) as [[prefix c]|] eqn:Ev; [|done].
    destruct (negb _) eqn:Ep; [done|]. apply negb_false_iff, Z.eqb_eq in Ep as ->.
    destruct (negb _) eqn:Es; [done|]. apply negb_false_iff, Nat.eqb_eq in Es. intros [= <-].
    apply standard_prefix in Ev as (rest & Hc & ->).
    assert (length rest = 64%nat) as Hr.
    { rewrite Hc in Es. cbn [app length] in Es. unfold kClassicAddressPayloadSize in Es. lia. }
    unfold encode_zano_standard_address. f_equal. rewrite <-(take_drop (length d - 4) d). fold content.
    assert (address_content (mkPayoutAddress (copy_n 32 (drop 2 content) 0) (copy_n 32 (drop 2 content) 32)) = content)
      as Hcontent; [|by rewrite Hcontent, Ec].
    rewrite Hc. unfold address_content. cbn [pa_spend_public_key pa_view_public_key]. f_equal.
    change (drop 2 _) with rest. rewrite !copy_n_list by lia. rewrite drop_0.
    rewrite (take_ge (drop 32 rest)) by (rewrite length_drop; lia). apply take_drop.
  - intros ->. unfold encode_zano_standard_address. rewrite decode_encode_base58.
    pose proof (address_content_length k) as Hk. set (content := address_content k) in *.
    set (sum := take 4 _). assert (length sum = 4%nat) as Hs.
    { unfold sum. rewrite length_take, length_vec_to_list. done. }
    rewrite length_app, Hk, Hs. cbn [Nat.leb kAddressChecksumSize Nat.add]. cbv zeta.
    unfold kAddressChecksumSize. rewrite (take_app_length' content), (drop_app_length' content) by lia.
    rewrite bool_decide_true by done. cbn [negb].
    rewrite (proj2 (standard_prefix content 2)); [|by eexists].
    rewrite Z.eqb_refl, Hk. cbn [negb Nat.sub Nat.eqb kClassicAddressPayloadSize].
    change (drop 2 content) with (vec_to_list (pa_spend_public_key k) ++ vec_to_list (pa_view_public_key k)).
    pose proof (copy_n_at 32 (pa_spend_public_key k) [] (pa_view_public_key k) 0 eq_refl) as Hspend.
    pose proof (copy_n_at 32 (pa_view_public_key k) (pa_spend_public_key k) [] 32) as Hview.
    rewrite app_nil_l in Hspend. rewrite app_nil_r in Hview.
    rewrite Hspend, Hview by apply length_vec_to_list.
    by destruct k.
Qed.
