(* ===== verification/PplnsTemplate.v ===== *)
(** The payout of the pool in a block template: [src/zano_miner_tx.cpp],
    [src/pplns_block_template.cpp], [include/zano_p2pool/pplns_template.hpp] and the
    headers of the first two.  Zano's own transaction code is a parameter. *)
From S2P Require Import Prelude CryptoHash PowTarget Share SidechainParams ShareChain Pplns PplnsCoinbase.
From S2P Require Import MiningHeader BlockTemplate Demo.
Local Open Scope pool_scope.

Definition kZanoFullRewardZoneBytes : Z := 125000.
Definition CURRENCY_TX_MIN_ALLOWED_OUTS : nat := 2.

Record ZanoMinerTxResult := mkMinerTx {
  mt_tx_blob_hex : text;
  mt_miner_tx_tgc_json : text;
  mt_block_reward_without_fee : Z;
  mt_block_reward : Z }.

(** [tx_destination_entry]: the keys of its address and the amount; the asset is the
    native coin, set explicitly. *)
Record tx_destination_entry := mkDestination {
  td_addr : PayoutPublicKeys;
  td_amount : Z }.

(** The arguments of [construct_miner_tx] that vary. *)
Record miner_tx_request := mkMinerTxRequest {
  mr_height : Z;
  mr_median : Z;
  mr_fee : Z;
  mr_miner_address : PayoutPublicKeys;
  mr_stakeholder_address : PayoutPublicKeys;
  mr_cumulative_size : Z;
  mr_extra_nonce : text;
  mr_max_outs : nat;
  mr_destinations : list tx_destination_entry }.

(** What it makes of them: the rewards, the transaction in binary and the generation
    context in JSON. *)
Record miner_tx_built := mkBuilt {
  mb_block_reward_without_fee : Z;
  mb_block_reward : Z;
  mb_dump_binary : option (list byte);
  mb_store_to_json : text }.

(** Zano's transaction code: whether it is compiled in
    ([ZANO_P2POOL_HAVE_ZANO_MINER_TX]); [parse_and_validate_tx_from_blob], with the
    cumulative size in the extra fields, if there is one; [construct_miner_tx]. *)
Class ZanoMinerTx := {
  have_zano_miner_tx : bool;
  parse_tx_cumulative_size : list byte → option (option Z);
  construct_miner_tx : miner_tx_request → option miner_tx_built }.

Inductive PplnsTemplateStatus :=
| TemplateReady | PayoutPlanUnavailable | BackendUnavailable | InvalidDaemonTemplate | BlockTooLarge.
#[export] Instance PplnsTemplateStatus_eq_dec : EqDecision PplnsTemplateStatus.
Proof. solve_decision. Defined.

Record PplnsTemplateResult := mkTemplateResult {
  pr_status : PplnsTemplateStatus;
  pr_plan : PplnsCoinbasePlan;
  pr_block : BlockTemplate;
  pr_mining_work : option MiningHeaderWork;
  pr_error : string }.

Definition pplns_template_status_name (s : PplnsTemplateStatus) : string :=
  match s with
  | TemplateReady => "ready"
  | PayoutPlanUnavailable => "payout-plan-unavailable"
  | BackendUnavailable => "backend-unavailable"
  | InvalidDaemonTemplate => "invalid-daemon-template"
  | BlockTooLarge => "block-too-large"
  end.

Definition set_blob (blob : text) (t : BlockTemplate) : BlockTemplate :=
  mkTemplate (bt_block_reward t) (bt_block_reward_without_fee t) blob (bt_difficulty t) (bt_height t)
    (bt_miner_tx_tgc_json t) (bt_prev_hash t) (bt_seed t) (bt_status t) (bt_txs_fee t).
Definition set_tgc (tgc : text) (t : BlockTemplate) : BlockTemplate :=
  mkTemplate (bt_block_reward t) (bt_block_reward_without_fee t) (bt_blocktemplate_blob t) (bt_difficulty t)
    (bt_height t) tgc (bt_prev_hash t) (bt_seed t) (bt_status t) (bt_txs_fee t).

(** The header of the daemon's block, another miner transaction, and the daemon's
    trailer. *)
Definition rebuild_block (daemon_blob : list byte) (work : MiningHeaderWork) (miner_tx : list byte) : list byte :=
  take (bh_serialized_size (mw_block_header work)) daemon_blob ++ miner_tx ++
  drop (tt_serialized_offset (mw_tx_hashes work)) daemon_blob.

Definition bad_boundaries (blob : list byte) (work : MiningHeaderWork) : bool :=
  (tt_serialized_offset (mw_tx_hashes work) <? bh_serialized_size (mw_block_header work))%nat ||
  (length blob <? tt_serialized_offset (mw_tx_hashes work))%nat.

(** [PplnsBlockTemplate]: the block and its mining work. *)
Definition replace_hf6_miner_tx (base : BlockTemplate) (miner_tx_blob_hex : text)
    : res (BlockTemplate * MiningHeaderWork) :=
  (_ ← throw_if (bool_decide (bt_blocktemplate_blob base = [])) InvalidArgument
         "base block template blob is empty";
  _ ← throw_if (bool_decide (miner_tx_blob_hex = [])) InvalidArgument
        "replacement miner transaction is empty";
  base_bytes ← hex_to_bytes (bt_blocktemplate_blob base);
  replacement ← hex_to_bytes miner_tx_blob_hex;
  base_work ← derive_mining_header_work base_bytes;
  _ ← throw_if (bad_boundaries base_bytes base_work) LogicError "invalid parsed block-template boundaries";
  _ ← parse_hf6_miner_tx_prefix replacement;
  let rebuilt := rebuild_block base_bytes base_work replacement in
  work ← derive_mining_header_work rebuilt;
  _ ← throw_if (negb (bool_decide (tt_hashes (mw_tx_hashes work) = tt_hashes (mw_tx_hashes base_work)))) LogicError
        "replacement miner transaction changed regular transaction hashes";
  _ ← throw_if (negb (bool_decide (bh_serialized (mw_block_header work) =
                                   bh_serialized (mw_block_header base_work)))) LogicError
        "replacement miner transaction changed serialized block header";
  mret (set_blob (bytes_to_hex rebuilt) base, work))%stdpp.

Section MinerTx.
Context `{!ZanoMinerTx}.

Definition zano_miner_tx_builder_available : bool := have_zano_miner_tx.

Definition extract_zano_hf6_coinbase_cumulative_size (tx_blob : list byte) : res Z :=
  if negb have_zano_miner_tx
  then throw RuntimeError "exact Zano miner-tx parser is not enabled; configure with ZANO_P2POOL_ZANO_SOURCE_DIR"
  else
  (_ ← throw_if (bool_decide (tx_blob = [])) InvalidArgument "daemon miner transaction is empty";
  match parse_tx_cumulative_size tx_blob with
  | None => throw RuntimeError "failed to parse daemon Zano miner transaction"
  | Some None => throw RuntimeError "daemon HF6 miner transaction is missing cumulative block size"
  | Some (Some size) => Ok size
  end)%stdpp.

Definition plan_entry (d : PplnsCoinbaseDestination) : tx_destination_entry :=
  mkDestination (dest_payout d) (dest_amount d).

(** A single recipient is paid by two outputs. *)
Definition physical_destinations (dests : list PplnsCoinbaseDestination) : res (list tx_destination_entry) :=
  match dests with
  | [d] =>
      (_ ← throw_if (dest_amount d <? Z.of_nat CURRENCY_TX_MIN_ALLOWED_OUTS) InvalidArgument
             "single-recipient PPLNS payout is too small for Zano minimum outputs";
      let first_amount := dest_amount d / 2 in
      mret [mkDestination (dest_payout d) first_amount;
            mkDestination (dest_payout d) (wrap64 (dest_amount d - first_amount))])%stdpp
  | _ => Ok (plan_entry <$> dests)
  end.

Definition build_zano_hf6_pplns_miner_tx (height fee expected_block_reward : Z) (plan : PplnsCoinbasePlan)
    (extra_text : text) (coinbase_block_cumulative_size : Z) : res ZanoMinerTxResult :=
  if negb have_zano_miner_tx
  then throw RuntimeError "exact Zano miner-tx builder is not enabled; configure with ZANO_P2POOL_ZANO_SOURCE_DIR"
  else
  (_ ← throw_if (negb (bool_decide (plan_status plan = Ready))) InvalidArgument
         "PPLNS coinbase plan is not ready";
  _ ← throw_if (bool_decide (destinations plan = [])) InvalidArgument
        "PPLNS coinbase plan has no destinations";
  _ ← throw_if (kZanoHf6MaxCoinbaseOutputs <? length (destinations plan))%nat InvalidArgument
        "PPLNS coinbase plan exceeds Zano output limit";
  _ ← throw_if (negb (plan_reward plan =? expected_block_reward)) InvalidArgument
        "PPLNS coinbase reward does not match daemon template reward";
  outs ← physical_destinations (destinations plan);
  _ ← throw_if (kZanoHf6MaxCoinbaseOutputs <? length outs)%nat InvalidArgument
        "expanded PPLNS coinbase exceeds Zano output limit";
  match outs with
  | [] => throw LogicError "model: no destination"
  | front :: _ =>
      match construct_miner_tx (mkMinerTxRequest height kZanoFullRewardZoneBytes fee (td_addr front)
              (td_addr front) coinbase_block_cumulative_size extra_text kZanoHf6MaxCoinbaseOutputs outs) with
      | None => throw RuntimeError "Zano construct_miner_tx rejected PPLNS destinations"
      | Some built =>
          _ ← throw_if (negb (mb_block_reward built =? expected_block_reward) ||
                        negb (mb_block_reward_without_fee built =? expected_block_reward)) RuntimeError
                "Zano canonical miner-tx reward disagrees with daemon template";
          match mb_dump_binary built with
          | None => throw RuntimeError "failed to serialize canonical Zano miner tx"
          | Some blob =>
              _ ← throw_if (bool_decide (mb_store_to_json built = [])) RuntimeError
                    "failed to serialize canonical Zano miner tx generation context";
              mret (mkMinerTx (bytes_to_hex blob) (mb_store_to_json built)
                      (mb_block_reward_without_fee built) (mb_block_reward built))
          end
      end
  end)%stdpp.

(** From the plan on. *)
Definition build_from_plan (t : BlockTemplate) (plan : PplnsCoinbasePlan) (extra_text : text)
    : res (PplnsTemplateStatus * string * option (text * text) * option MiningHeaderWork) :=
  if negb (bool_decide (plan_status plan = Ready))
  then Ok (PayoutPlanUnavailable, pplns_coinbase_plan_status_name (plan_status plan), None, None)
  else if negb zano_miner_tx_builder_available
  then Ok (BackendUnavailable, "exact Zano miner-tx builder is unavailable", None, None)
  else
  (daemon_blob ← hex_to_bytes (bt_blocktemplate_blob t);
  daemon_work ← derive_mining_header_work daemon_blob;
  if bad_boundaries daemon_blob daemon_work
  then mret (InvalidDaemonTemplate, "invalid daemon miner-transaction offsets", None, None)
  else
  cumulative_size ← extract_zano_hf6_coinbase_cumulative_size (mp_serialized (mw_miner_tx_prefix daemon_work));
  miner_tx ← build_zano_hf6_pplns_miner_tx (bt_height t) (bt_txs_fee t) (bt_block_reward t) plan extra_text
               cumulative_size;
  miner_tx_bytes ← hex_to_bytes (mt_tx_blob_hex miner_tx);
  let rebuilt := rebuild_block daemon_blob daemon_work miner_tx_bytes in
  if kZanoFullRewardZoneBytes <? Z.of_nat (length rebuilt)
  then mret (BlockTooLarge, "rebuilt block exceeds the audited full-reward zone", None, None)
  else
  mining_work ← derive_mining_header_work rebuilt;
  if negb (bool_decide (bh_serialized (mw_block_header mining_work) = bh_serialized (mw_block_header daemon_work))) ||
     negb (bool_decide (tt_hashes (mw_tx_hashes mining_work) = tt_hashes (mw_tx_hashes daemon_work)))
  then mret (InvalidDaemonTemplate, "PPLNS rebuild changed daemon header or regular transactions", None,
             Some mining_work)
  else
  mret (TemplateReady, "", Some (bytes_to_hex rebuilt, mt_miner_tx_tgc_json miner_tx), Some mining_work))%stdpp.

Definition no_plan : PplnsCoinbasePlan := mkPlan EmptyWindow 0 [].

Definition build_canonical_pplns_template (daemon_template : BlockTemplate) (chain : ShareChain)
    (params : SidechainParameters) (extra_text : text) : PplnsTemplateResult :=
  match (network_difficulty ← difficulty128_from_decimal (bt_difficulty daemon_template);
         window ← build_sidechain_pplns_window chain params network_difficulty;
         make_pplns_coinbase_plan window (bt_block_reward daemon_template) params)%stdpp with
  | Throw x => mkTemplateResult InvalidDaemonTemplate no_plan daemon_template None (exn_what x)
  | Ok plan =>
      match build_from_plan daemon_template plan extra_text with
      | Throw x => mkTemplateResult InvalidDaemonTemplate plan daemon_template None (exn_what x)
      | Ok (status, error, built, work) =>
          let block := match built with
                       | Some (blob, tgc) => set_tgc tgc (set_blob blob daemon_template)
                       | None => daemon_template
                       end in
          mkTemplateResult status plan block work error
      end
  end.

(** ** Who is paid *)

Definition paid_to (keys : PayoutPublicKeys) (outs : list tx_destination_entry) : Z :=
  sum_by (λ d, if bool_decide (td_addr d = keys) then td_amount d else 0) outs.

(** The outputs pay what the plan says, and are as many as Zano takes. *)
Record pays_plan (outs : list tx_destination_entry) (dests : list PplnsCoinbaseDestination) : Prop := {
  pd_paid : ∀ keys, paid_to keys outs = planned_for keys dests;
  pd_total : sum_by td_amount outs = sum_by dest_amount dests;
  pd_positive : ∀ d, d ∈ outs → 0 < td_amount d;
  pd_count : (CURRENCY_TX_MIN_ALLOWED_OUTS ≤ length outs ≤ kZanoHf6MaxCoinbaseOutputs)%nat }.

Lemma physical_pays dests outs reward params :
  plan_ok params reward dests → is_u64 reward → dests ≠ [] → physical_destinations dests = Ok outs →
  pays_plan outs dests.
Proof.
  intros [Hsum Hlen Hpos _ _] Hr Hne Hout. destruct dests as [|d [|d' dests]]; [done| |].
  - cbn [physical_destinations] in Hout. res_inv. bool_prop. unfold is_u64 in Hr. cbn in Hr.
    change (2 ≤ dest_amount d) in H0.
    assert (dest_amount d / 2 ≤ dest_amount d) by (apply Z.div_le_upper_bound; lia).
    assert (1 ≤ dest_amount d / 2) by (apply Z.div_le_lower_bound; lia).
    pose proof (Z.mul_div_le (dest_amount d) 2).
    rewrite wrap64_id by (unfold is_u64; lia). constructor.
    + intros keys. unfold paid_to, planned_for. cbn. case_bool_decide; lia.
    + cbn. lia.
    + intros y [->|[->|[]%not_elem_of_nil]%elem_of_cons]%elem_of_cons; cbn; lia.
    + unfold CURRENCY_TX_MIN_ALLOWED_OUTS, kZanoHf6MaxCoinbaseOutputs. cbn. lia.
  - assert (outs = plan_entry <$> (d :: d' :: dests)) as -> by (by injection Hout). clear Hout.
    set (l := d :: d' :: dests) in *. assert (2 ≤ length l)%nat by (cbn; lia). clearbody l. constructor.
    + intros keys. unfold paid_to, planned_for. by rewrite sum_by_fmap.
    + by rewrite sum_by_fmap.
    + intros x (y & -> & Hy)%list_elem_of_fmap. by apply Hpos.
    + by rewrite length_fmap.
Qed.

(** A miner transaction that was built. *)
Record built_for (height fee reward : Z) (plan : PplnsCoinbasePlan) (extra : text) (size : Z)
    (tx : ZanoMinerTxResult) (miner_tx : list byte) : Prop := {
  bf_request : ∃ request built, construct_miner_tx request = Some built ∧ mb_dump_binary built = Some miner_tx ∧
    mb_block_reward built = reward ∧ mb_block_reward_without_fee built = reward ∧
    mr_height request = height ∧ mr_fee request = fee ∧ mr_extra_nonce request = extra ∧
    mr_cumulative_size request = size ∧ pays_plan (mr_destinations request) (destinations plan);
  bf_blob : mt_tx_blob_hex tx = bytes_to_hex miner_tx }.

Lemma build_miner_tx_ok height fee reward plan extra size tx params :
  is_u64 reward → plan_ok params reward (destinations plan) →
  build_zano_hf6_pplns_miner_tx height fee reward plan extra size = Ok tx →
  ∃ miner_tx, built_for height fee reward plan extra size tx miner_tx.
Proof.
  intros Hr Hplan E. unfold build_zano_hf6_pplns_miner_tx in E. destruct (negb have_zano_miner_tx); [done|].
  do 4 (apply res_bind_ok in E as (? & ?%throw_if_ok & E)).
  apply res_bind_ok in E as (outs & Houts & E). apply res_bind_ok in E as (? & _ & E). bool_prop.
  apply (physical_pays _ _ _ _ Hplan Hr) in Houts; [|done]. destruct outs as [|front outs]; [done|].
  destruct (construct_miner_tx _) as [built|] eqn:Ec; [|done].
  apply res_bind_ok in E as (? & ?%throw_if_ok & E). bool_prop.
  destruct (mb_dump_binary built) as [blob|] eqn:Eb; [|done].
  apply res_bind_ok in E as (? & _ & E). injection E as <-. exists blob. constructor; [|done].
  eexists _, built. split_and!; try done.
Qed.

(** A template that is ready. *)
Record canonical_template (t : BlockTemplate) (chain : ShareChain) (params : SidechainParameters) (extra : text)
    (r : PplnsTemplateResult) (daemon_blob : list byte) (daemon_work : MiningHeaderWork)
    (miner_tx : list byte) (work : MiningHeaderWork) : Prop := {
  ct_plan : ∃ network window, difficulty128_from_decimal (bt_difficulty t) = Ok network ∧
    build_sidechain_pplns_window chain params network = Ok window ∧
    make_pplns_coinbase_plan window (bt_block_reward t) params = Ok (pr_plan r);
  ct_daemon : hex_to_bytes (bt_blocktemplate_blob t) = Ok daemon_blob ∧
    derive_mining_header_work daemon_blob = Ok daemon_work;
  ct_tx : ∃ size tx,
    extract_zano_hf6_coinbase_cumulative_size (mp_serialized (mw_miner_tx_prefix daemon_work)) = Ok size ∧
    built_for (bt_height t) (bt_txs_fee t) (bt_block_reward t) (pr_plan r) extra size tx miner_tx ∧
    bt_miner_tx_tgc_json (pr_block r) = mt_miner_tx_tgc_json tx;
  ct_block : hex_to_bytes (bt_blocktemplate_blob (pr_block r)) = Ok (rebuild_block daemon_blob daemon_work miner_tx);
  ct_size : Z.of_nat (length (rebuild_block daemon_blob daemon_work miner_tx)) ≤ kZanoFullRewardZoneBytes;
  ct_work : pr_mining_work r = Some work ∧
    derive_mining_header_work (rebuild_block daemon_blob daemon_work miner_tx) = Ok work;
  ct_header : bh_serialized (mw_block_header work) = bh_serialized (mw_block_header daemon_work);
  ct_transactions : tt_hashes (mw_tx_hashes work) = tt_hashes (mw_tx_hashes daemon_work) }.

(** C37: a template that is ready pays the pool.  Its miner transaction was built by Zano's
    constructor from outputs that give every recipient of the PPLNS plan exactly its
    amount, sum to the block's reward, and are two to thirty-two; the block is the
    daemon's header and regular transactions around it, inside the full-reward zone, and
    the mining work is the work of that very block. *)
Theorem template_pays_pool t chain params extra :
  params_wf params → is_u64 (bt_block_reward t) →
  let r := build_canonical_pplns_template t chain params extra in
  pr_status r = TemplateReady →
  plan_ok params (bt_block_reward t) (destinations (pr_plan r)) ∧
  ∃ daemon_blob daemon_work miner_tx work,
    canonical_template t chain params extra r daemon_blob daemon_work miner_tx work.
Proof.
  intros Hwf Hr. unfold build_canonical_pplns_template.
  destruct (_ ≫= _) as [plan|x] eqn:Eplan; [|done]. apply res_bind_ok in Eplan as (network & Hnet & Eplan).
  apply res_bind_ok in Eplan as (window & Hwin & Hplan).
  destruct (make_plan_ok _ _ _ _ Hwf Hr Hplan) as [_ Hok].
  destruct (build_from_plan t plan extra) as [[[[status error] built] work]|x] eqn:Eb; [|done].
  cbv zeta. cbn [pr_status pr_plan]. intros ->. unfold build_from_plan in Eb.
  destruct (negb (bool_decide _)) eqn:Er; [done|]. apply negb_false_iff in Er. rewrite Er in Hok.
  destruct (negb _); [done|].
  apply res_bind_ok in Eb as (daemon_blob & Hblob & Eb). apply res_bind_ok in Eb as (daemon_work & Hdw & Eb).
  destruct (bad_boundaries _ _); [done|].
  apply res_bind_ok in Eb as (size & Hsize & Eb). apply res_bind_ok in Eb as (tx & Htx & Eb).
  apply (build_miner_tx_ok _ _ _ _ _ _ _ params Hr Hok) in Htx as [miner_tx Hbuilt].
  apply res_bind_ok in Eb as (bytes & Hbytes & Eb).
  rewrite (bf_blob _ _ _ _ _ _ _ _ Hbuilt), hex_to_bytes_to_hex in Hbytes. injection Hbytes as <-. cbv zeta in Eb.
  destruct (_ <? _) eqn:El; [done|]. apply Z.ltb_ge in El.
  apply res_bind_ok in Eb as (mw & Hmw & Eb). destruct (_ || _) eqn:Ekeep; [done|]. bool_prop.
  injection Eb as _ <- <-. split; [done|]. exists daemon_blob, daemon_work, miner_tx, mw.
  constructor; cbn; try done; [by exists network, window|by exists size, tx|apply hex_to_bytes_to_hex].
Qed.

End MinerTx.

(** ** A concrete template *)

(** A constructor that answers with the daemon's own transaction. *)
Definition demo_daemon_tx : list byte := Eval vm_compute in
  drop (bh_serialized_size (mw_block_header demo_work))
    (take (tt_serialized_offset (mw_tx_hashes demo_work)) (demo_block Byte.x00)).
Definition demo_miner_tx : ZanoMinerTx := {|
  have_zano_miner_tx := true;
  parse_tx_cumulative_size _ := Some (Some 0);
  construct_miner_tx _ := Some (mkBuilt 1000000 1000000 (Some demo_daemon_tx) (String.list_ascii_of_string "{}")) |}.
Definition demo_template : BlockTemplate :=
  mkTemplate 1000000 1000000 (bytes_to_hex (demo_block Byte.x00)) (dec_str 5000000000) 3000000 [] [] [] [] 0.

Lemma template_pays_witness :
  sum_by dest_amount (destinations (pr_plan
    (@build_canonical_pplns_template demo_miner_tx demo_template demo_c3 demo_params []))) = 1000000.
Proof.
  destruct (@template_pays_pool demo_miner_tx demo_template demo_c3 demo_params [] demo_params_wf) as [Hplan _].
  - unfold is_u64, u64_max. cbn. lia.
  - vm_compute. reflexivity.
  - exact (po_sum _ _ _ Hplan).
Defined.
