(* ===== verification/MinerTxProofs.v ===== *)
(** The consensus proofs of a peer's miner transaction:
    [include/zano_p2pool/p2p_miner_tx_proofs.hpp],
    [src/p2p_miner_tx_proofs.cpp]. *)
From S2P Require Import Prelude CryptoHash PowTarget Share SidechainParams P2pProtocol P2pShare.
From S2P Require Import Pplns PplnsCoinbase MiningHeader BlockTemplate MiningContext.
From S2P Require Import ZanoCurve MinerTxBinding PayoutPolicy.
Local Open Scope pool_scope.

Definition kBalanceProofPayloadSize : nat := 96.
Definition kBalanceProofSerializedSize : nat := 1 + kBalanceProofPayloadSize.
Definition kRangeProofTag : Z := 47.
Definition kBalanceProofTag : Z := 48.
Definition kBppLog2N : nat := 6.

Inductive P2pMinerTxProofStatus :=
| BalanceVerifiedRangePending | ProofsVerified | ProofNotAnchored | PayoutPolicyFailed
| ProofBackendUnavailable | MalformedBlock | MalformedRangeProof | InvalidBalanceProof
| InvalidRangeProof.
#[export] Instance P2pMinerTxProofStatus_eq_dec : EqDecision P2pMinerTxProofStatus.
Proof. solve_decision. Defined.

Record P2pMinerTxProofResult := mkProof {
  pr_status : P2pMinerTxProofStatus;
  pr_payout_status : P2pPayoutPolicyStatus }.

(** ** Parsing *)

Definition truncated_proof : string := "truncated miner transaction/proof data".

Fixpoint read_keys (count : nat) : exec Cursor (list ZanoCurveKey) :=
  match count with
  | O => exec_ret []
  | S count => key <- read_key truncated_proof ;; keys <- read_keys count ;; exec_ret (key :: keys)
  end.

Definition read_key_vector (max_count : nat) : exec Cursor (list ZanoCurveKey) :=
  count <- tx_read_varint truncated_proof ;;
  if Z.of_nat max_count <? count
  then exec_throw RuntimeError "proof vector exceeds current HF6 bound"
  else read_keys (Z.to_nat count).

Record ParsedProofInputs := mkProofInputs {
  pi_tx_public_key : ZanoCurveKey;
  pi_amount_commitments : list ZanoCurveKey;
  pi_blinded_asset_ids : list ZanoCurveKey }.

(** The commitment and the asset id of one output. *)
Definition parse_proof_output : exec Cursor (ZanoCurveKey * ZanoCurveKey) :=
  tag <- tx_read_u8 truncated_proof ;;
  version <- (if negb (tag =? 63) then exec_ret 1 else tx_read_u8 truncated_proof) ;;
  if negb (version =? 0) then exec_throw RuntimeError "unsupported current miner output"
  else
  do tx_skip truncated_proof 32 ;;
  do tx_skip truncated_proof 32 ;;
  amount_commitment <- read_key truncated_proof ;;
  blinded_asset_id <- read_key truncated_proof ;;
  do tx_skip truncated_proof (8 + 8 + 1) ;;
  exec_ret (amount_commitment, blinded_asset_id).

Fixpoint parse_proof_outputs (count : nat)
    : exec Cursor (list (ZanoCurveKey * ZanoCurveKey)) :=
  match count with
  | O => exec_ret []
  | S count =>
      output <- parse_proof_output ;; outputs <- parse_proof_outputs count ;;
      exec_ret (output :: outputs)
  end.

Definition proof_input_fields : exec Cursor ParsedProofInputs :=
  version <- tx_read_varint truncated_proof ;;
  if negb (version =? 4) then exec_throw RuntimeError "unsupported miner transaction version"
  else
  vin_count <- tx_read_varint truncated_proof ;;
  input <- (if negb (vin_count =? 1) then exec_ret 1 else tx_read_u8 truncated_proof) ;;
  if negb (input =? 0)
  then exec_throw RuntimeError "current PoW miner transaction must have txin_gen"
  else
  do tx_read_varint truncated_proof ;;
  extra_count <- tx_read_varint truncated_proof ;;
  if 1024 <? extra_count
  then exec_throw RuntimeError "unreasonable miner transaction extra count"
  else
  found <- parse_extras truncated_proof "multiple miner transaction public keys"
             (with_tag "unsupported current miner-tx extra tag: ") (Z.to_nat extra_count) None ;;
  match found with
  | None => exec_throw RuntimeError "miner transaction has no public key"
  | Some tx_public_key =>
      output_count <- tx_read_varint truncated_proof ;;
      if (output_count <? Z.of_nat kCurrentMinerMinOutputs) ||
         (Z.of_nat kCurrentMinerMaxOutputs <? output_count)
      then exec_throw RuntimeError "invalid current miner output count"
      else
      outputs <- parse_proof_outputs (Z.to_nat output_count) ;;
      hardfork_id <- tx_read_u8 truncated_proof ;;
      ended <- at_end ;;
      if negb (hardfork_id =? 6) || negb ended
      then exec_throw RuntimeError "unexpected miner hardfork/trailing prefix data"
      else exec_ret (mkProofInputs tx_public_key outputs.*1 outputs.*2)
  end.

Definition parse_proof_inputs (miner_tx_prefix : list byte) : res ParsedProofInputs :=
  (proof_input_fields (mkCursor miner_tx_prefix 0)).1.

Definition range_proof_fields (output_count : nat)
    : exec Cursor (ZanoBppSignature * ZanoUgAggregationProof) :=
  let expected_rounds := (kBppLog2N + ceil_log2 output_count)%nat in
  left <- read_key_vector (kBppLog2N + 5) ;;
  right <- read_key_vector (kBppLog2N + 5) ;;
  if negb (length left =? expected_rounds)%nat || negb (length right =? expected_rounds)%nat
  then exec_throw RuntimeError "unexpected current BPP round count"
  else
  a0 <- read_key truncated_proof ;;
  a <- read_key truncated_proof ;;
  b <- read_key truncated_proof ;;
  r <- read_key truncated_proof ;;
  s <- read_key truncated_proof ;;
  delta <- read_key truncated_proof ;;
  commitments <- read_key_vector kCurrentMinerMaxOutputs ;;
  y0s <- read_key_vector kCurrentMinerMaxOutputs ;;
  y1s <- read_key_vector kCurrentMinerMaxOutputs ;;
  c <- read_key truncated_proof ;;
  ended <- at_end ;;
  if negb (length commitments =? output_count)%nat || negb (length y0s =? output_count)%nat ||
     negb (length y1s =? output_count)%nat || negb ended
  then exec_throw RuntimeError "range-proof aggregation count/trailing-data mismatch"
  else exec_ret (mkBpp left right a0 a b r s delta, mkUg commitments y0s y1s c).

Definition parse_current_range_proof (bytes : list byte) (output_count : nat)
    : res (ZanoBppSignature * ZanoUgAggregationProof) :=
  (_ ← throw_if ((output_count <? kCurrentMinerMinOutputs)%nat ||
        (kCurrentMinerMaxOutputs <? output_count)%nat) RuntimeError
        "invalid output count for range proof";
  (range_proof_fields output_count (mkCursor bytes 0)).1)%stdpp.

Definition blob_at (blob : list byte) (i : nat) : Z := byte_to_Z (blob !!! i).

Definition current_range_proof_payload (proposal : P2pMiningContextProposal)
    (work : MiningHeaderWork) : res (list byte) :=
  (let miner_suffix_offset :=
    (bh_serialized_size (mw_block_header work) + mp_serialized_size (mw_miner_tx_prefix work))%nat in
  let tx_hashes_offset := tt_serialized_offset (mw_tx_hashes work) in
  let blob := pp_block_template_blob proposal in
  _ ← throw_if ((length blob <? miner_suffix_offset)%nat || (length blob <? tx_hashes_offset)%nat ||
        (tx_hashes_offset <? kBalanceProofSerializedSize)%nat ||
        (tx_hashes_offset <? miner_suffix_offset + 4)%nat) RuntimeError
        "invalid current miner proof offsets";
  _ ← throw_if (negb (blob_at blob miner_suffix_offset =? 0) ||
        negb (blob_at blob (miner_suffix_offset + 1) =? 0) ||
        negb (blob_at blob (miner_suffix_offset + 2) =? 2) ||
        negb (blob_at blob (miner_suffix_offset + 3) =? kRangeProofTag)) RuntimeError
        "unexpected current miner proof vector shape";
  let balance_tag_offset := (tx_hashes_offset - kBalanceProofSerializedSize)%nat in
  _ ← throw_if ((balance_tag_offset <=? miner_suffix_offset + 4)%nat ||
        negb (blob_at blob balance_tag_offset =? kBalanceProofTag)) RuntimeError
        "missing current balance proof after range proof";
  let range_begin := (miner_suffix_offset + 4)%nat in
  mret (take (balance_tag_offset - range_begin) (drop range_begin blob)))%stdpp.

(** ** The proof gates *)

Section Proofs.
Context `{!JsonC, !ZanoCrypto}.

(** The statements of the [try] block; its [catch (...)] gives [MalformedBlock]. *)
Definition balance_status (proposal : P2pMiningContextProposal)
    (anchored_check : P2pMiningContextCheckResult) : res P2pMinerTxProofStatus :=
  (work ← derive_mining_header_work (pp_block_template_blob proposal);
  if negb (arr_eqb (mw_header_hash work) (ck_mining_header_hash anchored_check)) ||
     arr_eqb (mp_hash (mw_miner_tx_prefix work)) (arr_zero 32)
  then mret ProofNotAnchored
  else
  proof_inputs ← parse_proof_inputs (mp_serialized (mw_miner_tx_prefix work));
  let blob := pp_block_template_blob proposal in
  let tx_hashes_offset := tt_serialized_offset (mw_tx_hashes work) in
  if (tx_hashes_offset <? kBalanceProofSerializedSize)%nat || (length blob <? tx_hashes_offset)%nat
  then mret MalformedBlock
  else
  let balance_tag_offset := (tx_hashes_offset - kBalanceProofSerializedSize)%nat in
  if negb (blob_at blob balance_tag_offset =? kBalanceProofTag) then mret MalformedBlock
  else
  let proof := take kBalanceProofPayloadSize (drop (balance_tag_offset + 1) blob) in
  if negb (zano_verify_hf6_miner_balance_proof (mp_hash (mw_miner_tx_prefix work))
             (pp_block_reward proposal) (pi_tx_public_key proof_inputs)
             (pi_amount_commitments proof_inputs) proof)
  then mret InvalidBalanceProof
  else mret BalanceVerifiedRangePending)%stdpp.

Definition verify_balance_after_payout (proposal : P2pMiningContextProposal)
    (anchored_check : P2pMiningContextCheckResult) (payout : P2pPayoutPolicyResult)
    : P2pMinerTxProofResult :=
  let at_status s := mkProof s (po_status payout) in
  if negb (bool_decide (po_status payout = PolVerified)) then
    at_status (match po_status payout with
               | PolNotAnchored => ProofNotAnchored
               | PolBackendUnavailable => ProofBackendUnavailable
               | _ => PayoutPolicyFailed
               end)
  else if negb zano_curve_backend_available then at_status ProofBackendUnavailable
  else
  match balance_status proposal anchored_check with
  | Ok status => at_status status
  | Throw _ => at_status MalformedBlock
  end.

Definition range_status (proposal : P2pMiningContextProposal)
    (anchored_check : P2pMiningContextCheckResult) : res P2pMinerTxProofStatus :=
  (work ← derive_mining_header_work (pp_block_template_blob proposal);
  if negb (arr_eqb (mw_header_hash work) (ck_mining_header_hash anchored_check)) ||
     arr_eqb (mp_hash (mw_miner_tx_prefix work)) (arr_zero 32)
  then mret ProofNotAnchored
  else
  proof_inputs ← parse_proof_inputs (mp_serialized (mw_miner_tx_prefix work));
  range_payload ← current_range_proof_payload proposal work;
  '(bpp, aggregation) ← parse_current_range_proof range_payload
                          (length (pi_amount_commitments proof_inputs));
  if negb (zano_verify_hf6_miner_range_proof (mp_hash (mw_miner_tx_prefix work))
             (pi_amount_commitments proof_inputs) (pi_blinded_asset_ids proof_inputs)
             bpp aggregation)
  then mret InvalidRangeProof
  else mret ProofsVerified)%stdpp.

Definition verify_range_after_balance (proposal : P2pMiningContextProposal)
    (anchored_check : P2pMiningContextCheckResult) (result : P2pMinerTxProofResult)
    : P2pMinerTxProofResult :=
  if negb (bool_decide (pr_status result = BalanceVerifiedRangePending)) then result
  else
  let at_status s := mkProof s (pr_payout_status result) in
  match range_status proposal anchored_check with
  | Ok status => at_status status
  | Throw e =>
      at_status (if is_runtime_error e then MalformedRangeProof else MalformedBlock)
  end.

Definition verify_p2p_mining_context_bootstrap_balance_proof (p : P2pMiningContextProposal)
    (anchored_check : P2pMiningContextCheckResult) : res P2pMinerTxProofResult :=
  verify_balance_after_payout p anchored_check <$>
    verify_p2p_mining_context_bootstrap_payout_policy p anchored_check.

Definition verify_p2p_mining_context_bootstrap_proofs (p : P2pMiningContextProposal)
    (anchored_check : P2pMiningContextCheckResult) : res P2pMinerTxProofResult :=
  verify_range_after_balance p anchored_check <$>
    verify_p2p_mining_context_bootstrap_balance_proof p anchored_check.

Definition verify_p2p_mining_context_balance_proof (p : P2pMiningContextProposal)
    (anchored_check : P2pMiningContextCheckResult) (expected_payout : P2pPayoutAddress)
    : res P2pMinerTxProofResult :=
  verify_balance_after_payout p anchored_check <$>
    verify_p2p_mining_context_payout_policy p anchored_check expected_payout.

Definition verify_p2p_mining_context_plan_balance_proof (p : P2pMiningContextProposal)
    (anchored_check : P2pMiningContextCheckResult) (expected_plan : PplnsCoinbasePlan)
    : res P2pMinerTxProofResult :=
  verify_balance_after_payout p anchored_check <$>
    verify_p2p_mining_context_plan_policy p anchored_check expected_plan.

Definition verify_p2p_mining_context_proofs (p : P2pMiningContextProposal)
    (anchored_check : P2pMiningContextCheckResult) (expected_payout : P2pPayoutAddress)
    : res P2pMinerTxProofResult :=
  verify_range_after_balance p anchored_check <$>
    verify_p2p_mining_context_balance_proof p anchored_check expected_payout.

Definition verify_p2p_mining_context_plan_proofs (p : P2pMiningContextProposal)
    (anchored_check : P2pMiningContextCheckResult) (expected_plan : PplnsCoinbasePlan)
    : res P2pMinerTxProofResult :=
  verify_range_after_balance p anchored_check <$>
    verify_p2p_mining_context_plan_balance_proof p anchored_check expected_plan.

End Proofs.

Definition p2p_miner_tx_proof_status_name (s : P2pMinerTxProofStatus) : string :=
  match s with
  | BalanceVerifiedRangePending => "balance-verified-range-pending"
  | ProofsVerified => "proofs-verified"
  | ProofNotAnchored => "not-anchored"
  | PayoutPolicyFailed => "payout-policy-failed"
  | ProofBackendUnavailable => "backend-unavailable"
  | MalformedBlock => "malformed-block"
  | MalformedRangeProof => "malformed-range-proof"
  | InvalidBalanceProof => "invalid-balance-proof"
  | InvalidRangeProof => "invalid-range-proof"
  end.

(** ** The parsers agree *)

(** Where [m1] succeeds, [m2] succeeds with a related value and reads as much. *)
Definition simulates {A B} (R : A → B → Prop) (m1 : exec Cursor A) (m2 : exec Cursor B) : Prop :=
  ∀ c a c', m1 c = (Ok a, c') → ∃ b, m2 c = (Ok b, c') ∧ R a b.

Lemma simulates_bind {A B A' B'} (R : A → B → Prop) (Q : A' → B' → Prop) m1 m2 f g :
  simulates R m1 m2 → (∀ a b, R a b → simulates Q (f a) (g b)) →
  simulates Q (exec_bind m1 f) (exec_bind m2 g).
Proof.
  intros Hm Hf c a c' (a1 & c1 & H1 & H2)%exec_bind_ok.
  destruct (Hm _ _ _ H1) as (b1 & E1 & HR). destruct (Hf _ _ HR _ _ _ H2) as (b & E2 & HQ).
  exists b. split; [|done]. apply exec_bind_ok. by exists b1, c1.
Qed.

Lemma simulates_ret {A B} (R : A → B → Prop) a b : R a b → simulates R (exec_ret a) (exec_ret b).
Proof. intros HR c a' c' [= <- <-]. by exists b. Qed.

Lemma simulates_throw {A B} (R : A → B → Prop) k what (m2 : exec Cursor B) :
  simulates R (exec_throw k what : exec Cursor A) m2.
Proof. by intros c a c' [=]. Qed.

Lemma simulates_if {A B} (R : A → B → Prop) b m1 m2 n1 n2 :
  simulates R m1 n1 → simulates R m2 n2 →
  simulates R (if b : bool then m1 else m2) (if b then n1 else n2).
Proof. by destruct b. Qed.

Lemma simulates_weaken {A B} (R Q : A → B → Prop) m1 m2 :
  (∀ a b, R a b → Q a b) → simulates R m1 m2 → simulates Q m1 m2.
Proof. intros HRQ Hm c a c' H1. destruct (Hm _ _ _ H1) as (b & ? & ?). eauto. Qed.

Create HintDb cursor discriminated.
#[local] Hint Resolve simulates_ret simulates_throw simulates_if : cursor.

Section SameReads.
Context (w1 w2 : string).

Lemma same_require n : simulates eq (tx_require w1 n) (tx_require w2 n).
Proof.
  intros c a c'. unfold tx_require, exec_const. destruct (_ || _); simpl; [done|].
  intros [= <- <-]. by exists ().
Qed.

(** After the same check the reads are the same. *)
Lemma same_checked {A B} (R : A → B → Prop) n (f : exec Cursor A) (g : exec Cursor B) :
  simulates R f g →
  simulates R (exec_bind (tx_require w1 n) (λ _, f)) (exec_bind (tx_require w2 n) (λ _, g)).
Proof. intros Hfg. eapply simulates_bind; [apply same_require|done]. Qed.

Lemma same_pure {A} (f : exec Cursor A) : simulates eq f f.
Proof. intros c a c' E. by exists a. Qed.

Lemma same_u8 : simulates eq (tx_read_u8 w1) (tx_read_u8 w2).
Proof. apply same_checked, same_pure. Qed.

Lemma same_skip n : simulates eq (tx_skip w1 n) (tx_skip w2 n).
Proof. apply same_checked, same_pure. Qed.

Lemma same_key : simulates eq (read_key w1) (read_key w2).
Proof. apply same_checked, same_pure. Qed.

Lemma skip_key : simulates (λ _ _, True) (tx_skip w1 32) (read_key w2).
Proof.
  apply same_checked. intros c a c' [= <- <-]. eexists. by split.
Qed.
Lemma key_skip : simulates (λ _ _, True) (read_key w1) (tx_skip w2 32).
Proof.
  apply same_checked. intros c a c' [= <- <-]. eexists. by split.
Qed.

Lemma same_varint_loop n : ∀ start v s,
  simulates eq (tx_read_varint_loop w1 n start v s) (tx_read_varint_loop w2 n start v s).
Proof.
  induction n as [|n IH]; intros start v s; cbn [tx_read_varint_loop]; [auto with cursor|].
  eapply simulates_bind; [apply same_u8|]. intros a ? <-. apply simulates_if; [auto with cursor|].
  cbv zeta. apply simulates_if; [|apply IH]. apply same_pure.
Qed.
Lemma same_varint : simulates eq (tx_read_varint w1) (tx_read_varint w2).
Proof.
  eapply simulates_bind; [apply (same_pure position)|]. intros a ? <-. apply same_varint_loop.
Qed.

Lemma same_blob : simulates eq (tx_skip_blob w1) (tx_skip_blob w2).
Proof.
  eapply simulates_bind; [apply same_varint|]. intros a ? <-.
  apply simulates_if; [auto with cursor|apply same_skip].
Qed.

(** The extra field as the proof and the binding parsers read it. *)
Lemma same_extras m1 m2 u1 u2 n : ∀ found,
  simulates eq (parse_extras w1 m1 u1 n found) (parse_extras w2 m2 u2 n found).
Proof.
  induction n as [|n IH]; intros found; cbn [parse_extras]; [auto with cursor|].
  eapply simulates_bind; [apply same_u8|]. intros tag ? <-.
  apply (simulates_bind eq); [|by intros a ? <-]. unfold parse_extra.
  repeat apply simulates_if; try apply simulates_throw.
  - eapply simulates_bind; [apply same_blob|]. auto with cursor.
  - eapply simulates_bind; [apply same_varint|]. auto with cursor.
  - eapply simulates_bind; [apply same_varint|]. intros _ _ _.
    eapply simulates_bind; [apply same_skip|]. intros _ _ _.
    eapply simulates_bind; [apply same_varint|]. auto with cursor.
  - eapply simulates_bind; [apply same_key|]. intros k ? <-. auto with cursor.
Qed.

End SameReads.

(** The payout parser skips what the proof parser accepts as extra. *)
Lemma extras_skipped m u n : ∀ found,
  simulates (λ _ _, True) (parse_extras truncated_proof m u n found)
    (repeat_exec n (tag <- tx_read_u8 truncated_prefix ;; skip_current_extra tag)).
Proof.
  induction n as [|n IH]; intros found; cbn [parse_extras repeat_exec]; [auto with cursor|].
  intros c a c' (tag & c1 & Ht & H2)%exec_bind_ok. apply exec_bind_ok in H2 as (found' & c2 & Hx & Hr).
  destruct (same_u8 truncated_proof truncated_prefix _ _ _ Ht) as (? & Et & <-).
  destruct (IH _ _ _ _ Hr) as (b & Eb & _). exists b. split; [|done].
  apply exec_bind_ok. exists (), c2. split; [|done]. apply exec_bind_ok. exists tag, c1.
  split; [done|].
  assert (simulates (λ _ _, True) (parse_extra truncated_proof m u tag found)
            (skip_current_extra tag)) as Hs; [|by destruct (Hs _ _ _ Hx) as ([] & ? & _)].
  unfold parse_extra, skip_current_extra. repeat apply simulates_if; try apply simulates_throw.
  - intros d x d' (? & ? & H1 & [= <- <-])%exec_bind_ok.
    destruct (same_blob truncated_proof truncated_prefix _ _ _ H1) as (? & ? & <-). by exists x0.
  - eapply simulates_bind; [apply same_varint|]. auto with cursor.
  - eapply simulates_bind; [apply same_varint|]. intros _ _ _.
    eapply simulates_bind; [apply same_skip|]. intros _ _ _.
    eapply simulates_bind; [apply same_varint|]. auto with cursor.
  - destruct (bool_decide _); [apply simulates_throw|].
    intros d x d' (k & ? & H1 & [= <- <-])%exec_bind_ok.
    destruct (key_skip truncated_proof truncated_prefix _ _ _ H1) as (? & ? & _). by eexists.
Qed.

(** The commitment and the asset id of an output. *)
Definition proof_view (o : ParsedPayoutOutput) : ZanoCurveKey * ZanoCurveKey :=
  (out_amount_commitment o, out_blinded_asset_id o).

Lemma same_output : simulates (λ v o, v = proof_view o) parse_proof_output parse_output.
Proof.
  unfold parse_proof_output, parse_output.
  eapply simulates_bind; [apply same_u8|]. intros tag ? <-.
  destruct (negb (tag =? 63)); [intros c a c'; by intros (? & ? & [= <- <-] & [=])%exec_bind_ok|].
  eapply simulates_bind; [apply same_u8|]. intros version ? <-.
  apply simulates_if; [apply simulates_throw|].
  eapply simulates_bind; [apply skip_key|]. intros _ stealth _.
  eapply simulates_bind; [apply skip_key|]. intros _ concealing _.
  eapply simulates_bind; [apply same_key|]. intros k1 ? <-.
  eapply simulates_bind; [apply same_key|]. intros k2 ? <-.
  eapply simulates_bind; [apply same_skip|]. intros _ _ _. by apply simulates_ret.
Qed.

Lemma same_outputs n :
  simulates (λ vs os, vs = proof_view <$> os) (parse_proof_outputs n) (parse_outputs n).
Proof.
  induction n as [|n IH]; cbn [parse_proof_outputs parse_outputs]; [by apply simulates_ret|].
  eapply simulates_bind; [apply same_output|]. intros v o ->.
  eapply simulates_bind; [apply IH|]. intros vs os ->. by apply simulates_ret.
Qed.

Lemma same_output_fields :
  simulates (λ i os, pi_amount_commitments i = out_amount_commitment <$> os ∧
      pi_blinded_asset_ids i = out_blinded_asset_id <$> os)
    proof_input_fields current_output_fields.
Proof.
  unfold proof_input_fields, current_output_fields.
  eapply simulates_bind; [apply same_varint|]. intros version ? <-.
  apply simulates_if; [apply simulates_throw|].
  eapply simulates_bind; [apply same_varint|]. intros vin ? <-.
  apply (simulates_bind eq); [apply simulates_if; [by apply simulates_ret|apply same_u8]|].
  intros input ? <-. apply simulates_if; [apply simulates_throw|].
  eapply simulates_bind; [apply same_varint|]. intros _ _ _.
  eapply simulates_bind; [apply same_varint|]. intros extra_count ? <-.
  apply simulates_if; [apply simulates_throw|].
  eapply simulates_bind; [apply extras_skipped|]. intros [key|] _ _; [|apply simulates_throw].
  eapply simulates_bind; [apply same_varint|]. intros count ? <-.
  destruct (count <? _); [apply simulates_throw|]. cbn [orb].
  apply simulates_if; [apply simulates_throw|].
  eapply simulates_bind; [apply same_outputs|]. intros vs os ->.
  eapply simulates_bind; [apply same_u8|]. intros hf ? <-.
  eapply simulates_bind; [apply (same_pure at_end)|]. intros ended ? <-.
  apply simulates_if; [apply simulates_throw|]. apply simulates_ret. cbn.
  rewrite <-!list_fmap_compose. by split.
Qed.

Lemma proof_key_fields c i c' :
  proof_input_fields c = (Ok i, c') → ∃ c1, prefix_tx_public_key_fields c = (Ok (pi_tx_public_key i), c1).
Proof.
  unfold proof_input_fields, prefix_tx_public_key_fields. intros Hp.
  apply exec_bind_ok in Hp as (version & c1 & H1 & Hp).
  destruct (same_varint _ truncated_prefix _ _ _ H1) as (? & E1 & <-).
  destruct (negb (version =? 4)) eqn:E; [done|].
  apply exec_bind_ok in Hp as (vin & c2 & H2 & Hp).
  destruct (same_varint _ truncated_prefix _ _ _ H2) as (? & E2 & <-).
  destruct (negb (vin =? 1)) eqn:Ev; [by apply exec_bind_ok in Hp as (? & ? & [= <- <-] & [=])|].
  apply exec_bind_ok in Hp as (input & c3 & H3 & Hp).
  destruct (same_u8 _ truncated_prefix _ _ _ H3) as (? & E3 & <-).
  destruct (negb (input =? 0)) eqn:Ei; [done|].
  apply exec_bind_ok in Hp as (h & c4 & H4 & Hp).
  destruct (same_varint _ truncated_prefix _ _ _ H4) as (? & E4 & <-).
  apply exec_bind_ok in Hp as (extra_count & c5 & H5 & Hp).
  destruct (same_varint _ truncated_prefix _ _ _ H5) as (? & E5 & <-).
  destruct (1024 <? extra_count) eqn:Ex; [done|].
  apply exec_bind_ok in Hp as (found & c6 & H6 & Hp).
  destruct (same_extras _ truncated_prefix _ "miner transaction has multiple tx public keys" _
    (with_tag "unsupported miner transaction extra tag: ") _ _ _ _ _ H6) as (? & E6 & <-).
  destruct found as [key|]; [|done].
  assert (pi_tx_public_key i = key) as ->.
  { apply exec_bind_ok in Hp as (count & c7 & _ & Hp). destruct (_ || _); [done|].
    apply exec_bind_ok in Hp as (outs & c8 & _ & Hp). apply exec_bind_ok in Hp as (hf & c9 & _ & Hp).
    apply exec_bind_ok in Hp as (ended & c10 & _ & Hp). destruct (_ || _); [done|].
    by injection Hp as <- <-. }
  exists c6. apply exec_bind_ok. exists version, c1. split; [done|]. rewrite E.
  apply exec_bind_ok. exists vin, c2. split; [done|]. rewrite Ev.
  apply exec_bind_ok. exists input, c3. split; [done|]. rewrite Ei.
  apply exec_bind_ok. exists h, c4. split; [done|].
  apply exec_bind_ok. exists extra_count, c5. split; [done|]. rewrite Ex.
  apply exec_bind_ok. by exists (Some key), c6.
Qed.

(** The gates look at the same transaction.  A miner transaction prefix that
    the proof gate parses is parsed by the key-binding gate to the same public
    key and by the payout gate to outputs with the same commitments and asset
    ids, so what the proofs are about is what the payout check opened. *)
Theorem gates_read_same_outputs : ∀ miner_tx_prefix inputs,
  parse_proof_inputs miner_tx_prefix = Ok inputs →
  parse_prefix_tx_public_key miner_tx_prefix = Ok (pi_tx_public_key inputs) ∧
  ∃ outputs, parse_current_outputs miner_tx_prefix = Ok outputs ∧
    pi_amount_commitments inputs = out_amount_commitment <$> outputs ∧
    pi_blinded_asset_ids inputs = out_blinded_asset_id <$> outputs.
Proof.
  intros prefix inputs. unfold parse_proof_inputs.
  destruct (proof_input_fields (mkCursor prefix 0)) as [r c'] eqn:E. simpl. intros ->. split.
  - destruct (proof_key_fields _ _ _ E) as [c1 E1]. unfold parse_prefix_tx_public_key. by rewrite E1.
  - destruct (same_output_fields _ _ _ E) as (outputs & E2 & Hc). exists outputs.
    unfold parse_current_outputs. by rewrite E2.
Qed.
