(* ===== verification/ContextTrust.v ===== *)
(** The trust crossing of a peer's mining context:
    [include/zano_p2pool/p2p_mining_context_trust.hpp],
    [src/p2p_mining_context_trust.cpp]. *)
From S2P Require Import Prelude CryptoHash PowTarget Share SidechainParams ShareChain P2pProtocol.
From S2P Require Import P2pShare Pplns PplnsCoinbase MiningHeader BlockTemplate MiningContext.
From S2P Require Import ZanoCurve MinerTxBinding PayoutPolicy MinerTxProofs.
Local Open Scope pool_scope.

Inductive P2pMiningContextTrustStatus :=
| Trusted | TrustCapabilityMissing | TrustAnchorMismatch | ProofsRejected.
#[export] Instance P2pMiningContextTrustStatus_eq_dec : EqDecision P2pMiningContextTrustStatus.
Proof. solve_decision. Defined.

Record P2pMiningContextTrustResult := mkTrust {
  tr_status : P2pMiningContextTrustStatus;
  tr_check_status : P2pMiningContextCheckStatus;
  tr_proof_status : P2pMinerTxProofStatus;
  tr_payout_status : P2pPayoutPolicyStatus;
  tr_proposal_id : Hash256;
  tr_trusted_context : ShareWorkContext;
  tr_registry_inserted : bool }.

Definition empty_context : ShareWorkContext := mkContext 0 (arr_zero 32) (arr_zero 16).

(** A result as default-initialised. *)
Definition default_trust : P2pMiningContextTrustResult :=
  mkTrust ProofsRejected AnchorMismatch ProofNotAnchored PolMalformedMinerTxPrefix (arr_zero 32)
    empty_context false.

Section Trust.
Context `{!JsonC, !ZanoCrypto}.

Definition promote_p2p_mining_context_impl (peer : P2pHandshake) (envelope : P2pEnvelope)
    (local_anchor : P2pMiningAnchor) (expected_parent_id : ShareId)
    (verify_proofs : P2pMiningContextProposal → P2pMiningContextCheckResult →
      res P2pMinerTxProofResult) : exec P2pTrustedWorkRegistry P2pMiningContextTrustResult :=
  check <- exec_const (λ _, inspect_p2p_mining_context peer envelope local_anchor) ;;
  let rejected status :=
    mkTrust status (ck_status check) ProofNotAnchored PolMalformedMinerTxPrefix
      (ck_proposal_id check) empty_context false in
  match ck_status check with
  | ContextCapabilityMissing => exec_ret (rejected TrustCapabilityMissing)
  | AnchorMismatch => exec_ret (rejected TrustAnchorMismatch)
  | AnchoredUnverifiedMinerTx =>
      proposal <- exec_const (λ _, parse_p2p_mining_context_envelope envelope) ;;
      proof <- exec_const (λ _, verify_proofs proposal check) ;;
      let result status ctx inserted :=
        mkTrust status (ck_status check) (pr_status proof) (pr_payout_status proof)
          (ck_proposal_id check) ctx inserted in
      if negb (bool_decide (pr_status proof = ProofsVerified))
      then exec_ret (result ProofsRejected empty_context false)
      else
      let trusted_context :=
        mkContext (an_zano_height local_anchor) (ck_mining_header_hash check)
          (an_network_difficulty local_anchor) in
      trusted_work <- exec_get ;;
      let already_trusted :=
        bool_decide (is_Some (find_work trusted_work (ctx_zano_height trusted_context)
          (ctx_mining_header_hash trusted_context) expected_parent_id)) in
      do remember_canonical trusted_context expected_parent_id (an_prev_hash local_anchor) ;;
      exec_ret (result Trusted trusted_context (negb already_trusted))
  end.

Definition promote_bootstrap_p2p_mining_context (peer : P2pHandshake) (envelope : P2pEnvelope)
    (local_anchor : P2pMiningAnchor) : exec P2pTrustedWorkRegistry P2pMiningContextTrustResult :=
  promote_p2p_mining_context_impl peer envelope local_anchor (arr_zero 32)
    verify_p2p_mining_context_bootstrap_proofs.

(** The overloads with one expected payout; without a parent it is zero. *)
Definition promote_p2p_mining_context_payout (peer : P2pHandshake) (envelope : P2pEnvelope)
    (local_anchor : P2pMiningAnchor) (expected_parent_id : ShareId)
    (expected_payout : P2pPayoutAddress)
    : exec P2pTrustedWorkRegistry P2pMiningContextTrustResult :=
  promote_p2p_mining_context_impl peer envelope local_anchor expected_parent_id
    (λ proposal check, verify_p2p_mining_context_proofs proposal check expected_payout).
Definition promote_root_context_payout (peer : P2pHandshake) (envelope : P2pEnvelope)
    (local_anchor : P2pMiningAnchor) (expected_payout : P2pPayoutAddress)
    : exec P2pTrustedWorkRegistry P2pMiningContextTrustResult :=
  promote_p2p_mining_context_payout peer envelope local_anchor (arr_zero 32) expected_payout.

(** The overloads with a PPLNS plan. *)
Definition promote_p2p_mining_context (peer : P2pHandshake) (envelope : P2pEnvelope)
    (local_anchor : P2pMiningAnchor) (expected_parent_id : ShareId)
    (expected_plan : PplnsCoinbasePlan)
    : exec P2pTrustedWorkRegistry P2pMiningContextTrustResult :=
  promote_p2p_mining_context_impl peer envelope local_anchor expected_parent_id
    (λ proposal check, verify_p2p_mining_context_plan_proofs proposal check expected_plan).
Definition promote_root_context (peer : P2pHandshake) (envelope : P2pEnvelope)
    (local_anchor : P2pMiningAnchor) (expected_plan : PplnsCoinbasePlan)
    : exec P2pTrustedWorkRegistry P2pMiningContextTrustResult :=
  promote_p2p_mining_context peer envelope local_anchor (arr_zero 32) expected_plan.

End Trust.

Definition p2p_mining_context_trust_status_name (s : P2pMiningContextTrustStatus) : string :=
  match s with
  | Trusted => "trusted"
  | TrustCapabilityMissing => "capability-missing"
  | TrustAnchorMismatch => "anchor-mismatch"
  | ProofsRejected => "proofs-rejected"
  end.

(** ** What crosses *)

Section Crossing.
Context `{!JsonC, !ZanoCrypto}.

(** The bytes before the transaction hashes that the balance proof is read from. *)
Definition balance_proof_bytes (p : P2pMiningContextProposal) (w : MiningHeaderWork) : list byte :=
  let balance_tag_offset :=
    (tt_serialized_offset (mw_tx_hashes w) - kBalanceProofSerializedSize)%nat in
  take kBalanceProofPayloadSize (drop (balance_tag_offset + 1) (pp_block_template_blob p)).

(** The balance and the range proof that the template carries verify over the
    commitments of the miner transaction's own outputs. *)
Definition proofs_hold (p : P2pMiningContextProposal) (w : MiningHeaderWork) : Prop :=
  ∃ inputs payload bpp aggregation,
    let tx := mw_miner_tx_prefix w in
    parse_proof_inputs (mp_serialized tx) = Ok inputs ∧
    zano_verify_hf6_miner_balance_proof (mp_hash tx) (pp_block_reward p) (pi_tx_public_key inputs)
      (pi_amount_commitments inputs) (balance_proof_bytes p w) = true ∧
    current_range_proof_payload p w = Ok payload ∧
    parse_current_range_proof payload (length (pi_amount_commitments inputs)) =
      Ok (bpp, aggregation) ∧
    zano_verify_hf6_miner_range_proof (mp_hash tx) (pi_amount_commitments inputs)
      (pi_blinded_asset_ids inputs) bpp aggregation = true.

Lemma balance_status_ok p check w :
  derive_mining_header_work (pp_block_template_blob p) = Ok w →
  balance_status p check = Ok BalanceVerifiedRangePending →
  mw_header_hash w = ck_mining_header_hash check ∧
  ∃ inputs, parse_proof_inputs (mp_serialized (mw_miner_tx_prefix w)) = Ok inputs ∧
    zano_verify_hf6_miner_balance_proof (mp_hash (mw_miner_tx_prefix w)) (pp_block_reward p)
      (pi_tx_public_key inputs) (pi_amount_commitments inputs) (balance_proof_bytes p w) = true.
Proof.
  intros Hw. unfold balance_status. rewrite Hw. cbn [mbind res_bind].
  destruct (_ || _) eqn:Eh; [done|]. bool_prop. intros Hb.
  apply res_bind_ok in Hb as (inputs & Hi & Hb). cbv zeta in Hb.
  destruct (_ || _); [done|]. destruct (negb _); [done|].
  destruct (zano_verify_hf6_miner_balance_proof _ _ _ _ _) eqn:Ez; [|done].
  split; [done|]. by eexists.
Qed.

Lemma balance_never_final p check : balance_status p check ≠ Ok ProofsVerified.
Proof.
  unfold balance_status. intros Hb. apply res_bind_ok in Hb as (w & _ & Hb).
  destruct (_ || _); [done|]. apply res_bind_ok in Hb as (inputs & _ & Hb). cbv zeta in Hb.
  destruct (_ || _); [done|]. destruct (negb _); [done|]. by destruct (negb _).
Qed.

Lemma range_status_ok p check w :
  derive_mining_header_work (pp_block_template_blob p) = Ok w →
  range_status p check = Ok ProofsVerified →
  ∃ inputs payload bpp aggregation,
    parse_proof_inputs (mp_serialized (mw_miner_tx_prefix w)) = Ok inputs ∧
    current_range_proof_payload p w = Ok payload ∧
    parse_current_range_proof payload (length (pi_amount_commitments inputs)) =
      Ok (bpp, aggregation) ∧
    zano_verify_hf6_miner_range_proof (mp_hash (mw_miner_tx_prefix w))
      (pi_amount_commitments inputs) (pi_blinded_asset_ids inputs) bpp aggregation = true.
Proof.
  intros Hw. unfold range_status. rewrite Hw. cbn [mbind res_bind].
  destruct (_ || _); [done|]. intros Hb.
  apply res_bind_ok in Hb as (inputs & Hi & Hb). apply res_bind_ok in Hb as (payload & Hp & Hb).
  apply res_bind_ok in Hb as ([bpp agg] & Hr & Hb).
  destruct (zano_verify_hf6_miner_range_proof _ _ _ _ _) eqn:Ez; [|done]. by exists inputs, payload, bpp, agg.
Qed.

(** The two proof gates after a payout gate [verify] on the prefix. *)
Definition gated (p : P2pMiningContextProposal) (check : P2pMiningContextCheckResult)
    (verify : list byte → P2pPayoutPolicyResult) : res P2pMinerTxProofResult :=
  verify_range_after_balance p check <$>
    (verify_balance_after_payout p check <$> verify_anchored p check verify).

Lemma gated_total p check verify id :
  p2p_mining_context_id p = Ok id → ∃ proof, gated p check verify = Ok proof.
Proof.
  intros Hid. unfold gated, verify_anchored, anchors_proposal. rewrite Hid.
  destruct (negb (bool_decide _)); simpl; [by eexists|].
  destruct (negb (arr_eqb _ _)); simpl; [by eexists|].
  destruct (derive_mining_header_work _); simpl; [|by eexists].
  destruct (negb (arr_eqb _ _)); simpl; by eexists.
Qed.

Lemma gated_verified p check verify w proof :
  derive_mining_header_work (pp_block_template_blob p) = Ok w →
  gated p check verify = Ok proof → pr_status proof = ProofsVerified →
  po_status (verify (mp_serialized (mw_miner_tx_prefix w))) = PolVerified ∧ proofs_hold p w.
Proof.
  intros Hw Hg Hst. unfold gated in Hg. apply res_fmap_ok in Hg as (bal & Hg & ->).
  apply res_fmap_ok in Hg as (pol & Ha & ->).
  assert (po_status pol = PolVerified ∧ balance_status p check = Ok BalanceVerifiedRangePending ∧
    range_status p check = Ok ProofsVerified) as (Hpol & Hbal & Hrange).
  { revert Hst. unfold verify_range_after_balance, verify_balance_after_payout.
    destruct (decide (po_status pol = PolVerified)) as [E|E].
    2:{ rewrite (bool_decide_false (po_status pol = _)) by done. cbn [negb].
        by destruct (po_status pol). }
    rewrite (bool_decide_true (po_status pol = _)) by done. cbn [negb]. destruct zano_curve_backend_available; [|done].
    cbn [negb]. destruct (balance_status p check) as [[]|] eqn:Eb; try done; [|by apply balance_never_final in Eb].
    rewrite (bool_decide_true (BalanceVerifiedRangePending = _)) by done. cbn [negb].
    destruct (range_status p check) as [[]|e]; try done. by destruct (is_runtime_error e). }
  split.
  - revert Ha. unfold verify_anchored. intros Ha. apply res_bind_ok in Ha as (b & _ & Ha).
    destruct b; cbn [negb] in Ha; [|by injection Ha as <-]. rewrite Hw in Ha.
    destruct (negb (arr_eqb _ _)); by injection Ha as <-.
  - destruct (balance_status_ok _ _ _ Hw Hbal) as (_ & inputs & Hi & Hb).
    destruct (range_status_ok _ _ _ Hw Hrange) as (inputs' & payload & bpp & agg & Hi' & Hp & Hr & Hz).
    assert (inputs' = inputs) as -> by congruence. by exists inputs, payload, bpp, agg.
Qed.

(** Conversely the gates let such a proposal through. *)
Lemma gated_accepts p check verify w :
  p2p_mining_context_id p = Ok (ck_proposal_id check) →
  ck_status check = AnchoredUnverifiedMinerTx →
  derive_mining_header_work (pp_block_template_blob p) = Ok w →
  ck_mining_header_hash check = mw_header_hash w →
  po_status (verify (mp_serialized (mw_miner_tx_prefix w))) = PolVerified →
  zano_curve_backend_available = true →
  balance_status p check = Ok BalanceVerifiedRangePending →
  range_status p check = Ok ProofsVerified →
  gated p check verify = Ok (mkProof ProofsVerified PolVerified).
Proof.
  intros Hid Hst Hw Hh Hpol Hcurve Hb Hr.
  unfold gated, verify_anchored, anchors_proposal. rewrite Hid, Hst, Hw, Hh.
  rewrite bool_decide_true by done. cbn. rewrite arr_eqb_refl. cbn. rewrite arr_eqb_refl. cbn.
  unfold verify_balance_after_payout. rewrite Hpol, Hcurve, Hb.
  rewrite (bool_decide_true (PolVerified = _)) by done. cbn.
  unfold verify_range_after_balance. rewrite Hr. by rewrite bool_decide_true.
Qed.

(** The registry entry made for proposal [p] with work [w]. *)
Record crossing (envelope : P2pEnvelope) (anchor : P2pMiningAnchor) (parent : ShareId)
    (m m' : P2pTrustedWorkRegistry) (r : P2pMiningContextTrustResult)
    (p : P2pMiningContextProposal) (w : MiningHeaderWork) : Prop := {
  cr_parsed : parse_p2p_mining_context_envelope envelope = Ok p;
  cr_work : derive_mining_header_work (pp_block_template_blob p) = Ok w;
  cr_anchor : anchor = mkAnchor (pp_zano_height p) (pp_prev_hash p) (pp_network_difficulty p)
                         (pp_seed p) (pp_block_reward_without_fee p);
  cr_bound : bound_to p w;
  cr_context : tr_trusted_context r =
    mkContext (pp_zano_height p) (mw_header_hash w) (pp_network_difficulty p);
  cr_extends : extends m m' (context_key (tr_trusted_context r) parent) (tr_trusted_context r);
  cr_provenance : find_zano_parent_hash m' (pp_zano_height p) (mw_header_hash w) parent =
    Some (pp_prev_hash p);
  cr_inserted : tr_registry_inserted r = true ↔
    m !! context_key (tr_trusted_context r) parent = None }.

(** The outcome of a promotion whose payout gate is [verify]. *)
Definition promotion_post (peer : P2pHandshake) (envelope : P2pEnvelope) (anchor : P2pMiningAnchor)
    (parent : ShareId) (m : P2pTrustedWorkRegistry)
    (verified : P2pMiningContextProposal → MiningHeaderWork → Prop)
    (out : res P2pMiningContextTrustResult * P2pTrustedWorkRegistry) : Prop :=
  match out with
  | (Ok r, m') =>
      if bool_decide (tr_status r = Trusted)
      then Z.land (hs_capabilities peer) kP2pCapabilityMiningContext ≠ 0 ∧
        ∃ p w, crossing envelope anchor parent m m' r p w ∧ verified p w ∧ proofs_hold p w
      else m' = m
  | (Throw e, m') => m' = m ∧
      (inspect_p2p_mining_context peer envelope anchor = Throw e ∨
       difficulty128_is_zero (an_network_difficulty anchor) = true ∨
       ∃ header e, m !! (an_zano_height anchor, header, parent) = Some e ∧
         (ctx_network_difficulty (we_context e) ≠ an_network_difficulty anchor ∨
          ∃ zp, we_zano_parent_hash e = Some zp ∧ zp ≠ an_prev_hash anchor))
  end.

Lemma promote_outcome peer envelope anchor parent m policy :
  registry_ok m →
  promotion_post peer envelope anchor parent m
    (λ p w, po_status (policy p (mp_serialized (mw_miner_tx_prefix w))) = PolVerified)
    (promote_p2p_mining_context_impl peer envelope anchor parent
       (λ p check, gated p check (policy p)) m).
Proof.
  intros Hok. unfold promote_p2p_mining_context_impl, exec_bind at 1, exec_const at 1.
  destruct (inspect_p2p_mining_context peer envelope anchor) as [check|e] eqn:Hi; [|by split; eauto].
  destruct (ck_status check) eqn:Hst; [|done|done].
  destruct (inspect_anchored _ _ _ _ Hi Hst) as (Hcap & p & w & Hp & Hid & _ & Ha & Hw & Hh & Hb).
  unfold exec_bind at 1, exec_const at 1. rewrite Hp. unfold exec_bind at 1, exec_const at 1.
  destruct (gated_total p check (policy p) _ Hid) as [proof Hg]. rewrite Hg.
  destruct (decide (pr_status proof = ProofsVerified)) as [Hpr|Hpr].
  2:{ rewrite (bool_decide_false (pr_status proof = _)) by done. done. }
  rewrite (bool_decide_true (pr_status proof = _)) by done. cbn [negb].
  destruct (gated_verified _ _ _ _ _ Hw Hg Hpr) as [Hpol Hproofs].
  unfold exec_bind at 1, exec_get at 1. set (ctx := mkContext _ _ _).
  pose proof (remember_canonical_outcome m ctx parent (an_prev_hash anchor) Hok) as Hrem.
  unfold exec_bind. destruct (remember_canonical _ _ _ m) as [[[]|e] m']; cbn [exec_ret].
  2:{ destruct Hrem as [-> Hc]. split; [done|]. right.
      destruct Hc as [Hz|(e' & He & Hc)]; [by left|right]. exists (ck_mining_header_hash check), e'.
      split; [exact He|]. destruct Hc as [Hd|(zp & zp' & [= <-] & Hzp & Hne)]; [by left|right].
      by exists zp'. }
  destruct Hrem as [Hext Hprov]. destruct (Hprov _ eq_refl) as (entry & He & Hz).
  unfold promotion_post, exec_ret. rewrite (bool_decide_true (tr_status _ = Trusted)) by done.
  split; [done|]. exists p, w. split; [|by split].
  assert (ctx = mkContext (pp_zano_height p) (mw_header_hash w) (pp_network_difficulty p)) as Hctx.
  { unfold ctx. by rewrite Ha, Hh. }
  split; cbn [tr_trusted_context tr_registry_inserted]; try done.
  - unfold find_zano_parent_hash. rewrite Hctx in He. unfold context_key in He. cbn in He.
    rewrite He. cbn. rewrite Hz, Ha. done.
  - fold ctx. unfold find_work, context_key.
    destruct (m !! _) as [e0|]; cbn [fmap option_fmap option_map].
    + rewrite bool_decide_true by done. done.
    + rewrite bool_decide_false by by intros []. done.
Qed.

Lemma promotion_post_weaken peer envelope anchor parent m
    (Q R : P2pMiningContextProposal → MiningHeaderWork → Prop) out :
  (∀ p w, Q p w → R p w) →
  promotion_post peer envelope anchor parent m Q out →
  promotion_post peer envelope anchor parent m R out.
Proof.
  unfold promotion_post. intros HQR. destruct out as [[r|e] m']; [|done].
  destruct (bool_decide _); [|done]. intros (? & p & w & ? & ? & ?). split; [done|]. exists p, w. eauto.
Qed.

(** The coinbase of the template pays [plan], and the plan is of its reward. *)
Definition coinbase_pays (plan : PplnsCoinbasePlan) (p : P2pMiningContextProposal)
    (w : MiningHeaderWork) : Prop :=
  plan_status plan = Ready ∧ plan_reward plan = pp_block_reward p ∧
  pp_block_reward p = pp_block_reward_without_fee p ∧
  ∃ outputs tgc assign,
    opened (mp_serialized (mw_miner_tx_prefix w)) (pp_miner_tx_tgc_json p) outputs tgc ∧
    pays_plan tgc outputs (destinations plan) assign.

Lemma promote_plan_outcome peer envelope anchor parent plan m :
  registry_ok m → Forall (λ d, is_u64 (dest_amount d)) (destinations plan) →
  promotion_post peer envelope anchor parent m (coinbase_pays plan)
    (promote_p2p_mining_context peer envelope anchor parent plan m).
Proof.
  intros Hok Hd. eapply promotion_post_weaken; [|exact (promote_outcome peer envelope anchor parent m
    (λ p prefix, verify_miner_tx_plan_policy prefix (pp_miner_tx_tgc_json p)
       (pp_block_reward_without_fee p) (pp_block_reward p) (pp_txs_fee p) plan) Hok)].
  intros p w Hpol. cbv beta in Hpol. apply plan_policy_iff in Hpol as (_ & _ & _ & Hr & Ha & Hex); [|done].
  unfold plan_accepted in Ha. destruct (plan_loop _ _ _); bool_prop; [|done].
  by split_and!.
Qed.

(** C8: the trust crossing.  Promoting a peer's context under a plan trusts it only
    for a peer with the capability whose template extends the local anchor, whose
    coinbase pays exactly the plan and whose balance and range proofs verify over
    the same outputs; then the registry gains, or confirms, the one entry of the
    derived header under the expected parent, with the anchored block as its
    provenance.  Any other status leaves the registry as it was.  So does every
    exception, which is one of the parser or a conflict with a known entry: no
    message of a peer ends the process through the [noexcept] gates. *)
Theorem promotion_sound : ∀ peer envelope anchor parent plan m,
  registry_ok m → Forall (λ d, is_u64 (dest_amount d)) (destinations plan) →
  match promote_p2p_mining_context peer envelope anchor parent plan m with
  | (Ok r, m') =>
      if bool_decide (tr_status r = Trusted)
      then Z.land (hs_capabilities peer) kP2pCapabilityMiningContext ≠ 0 ∧
        ∃ p w, crossing envelope anchor parent m m' r p w ∧ coinbase_pays plan p w ∧
          proofs_hold p w
      else m' = m
  | (Throw e, m') => m' = m ∧
      (inspect_p2p_mining_context peer envelope anchor = Throw e ∨
       difficulty128_is_zero (an_network_difficulty anchor) = true ∨
       ∃ header entry, m !! (an_zano_height anchor, header, parent) = Some entry ∧
         (ctx_network_difficulty (we_context entry) ≠ an_network_difficulty anchor ∨
          ∃ zp, we_zano_parent_hash entry = Some zp ∧ zp ≠ an_prev_hash anchor))
  end.
Proof.
  intros peer envelope anchor parent plan m Hok Hd.
  exact (promote_plan_outcome peer envelope anchor parent plan m Hok Hd).
Qed.

End Crossing.
