(* ===== verification/HistoricalTrust.v ===== *)
(** Historical work and its trust crossing:
    [include/zano_p2pool/historical_work.hpp], [src/historical_work.cpp],
    [include/zano_p2pool/historical_payout.hpp], [src/historical_payout.cpp],
    [include/zano_p2pool/historical_trust.hpp], [src/historical_trust.cpp], and
    the evidence records of [include/zano_p2pool/rpc_client.hpp].  The daemon the
    callbacks ask is the world [W]: each question may change it and may be
    answered differently from the one before. *)
From S2P Require Import Prelude CryptoHash PowTarget Share SidechainParams ShareChain P2pProtocol.
From S2P Require Import P2pShare Pplns PplnsCoinbase MiningHeader BlockTemplate MiningContext.
From S2P Require Import WorkArchive ZanoCurve MinerTxBinding PayoutPolicy MinerTxProofs ContextTrust.
Local Open Scope pool_scope.

Record RpcCanonicalHeader := mkCanonical { ch_height : Z; ch_hash : Hash256 }.

Record RpcHistoricalPowContext := mkPowContext {
  pc_height : Z;
  pc_parent_hash : Hash256;
  pc_network_difficulty : Difficulty128;
  pc_block_reward_without_fee : Z;
  pc_confirming_pow_height : Z }.

Inductive HistoricalParentStatus :=
| ParentMatchedUntrusted | ParentMismatch | ParentChangedDuringCheck.
#[export] Instance HistoricalParentStatus_eq_dec : EqDecision HistoricalParentStatus.
Proof. solve_decision. Defined.

Record HistoricalParentResult := mkParentResult {
  hp_status : HistoricalParentStatus;
  hp_mining_header_hash : Hash256 }.

Inductive HistoricalAnchorStatus :=
| AnchorMatchedUntrusted | AnchorParentMismatch | AnchorParentChanged | SeedMismatch
| LocalObservationMissing | LocalObservationConflict | LocalObservationMismatch
| CanonicalPowContextUnavailable | CanonicalPowContextMismatch.
#[export] Instance HistoricalAnchorStatus_eq_dec : EqDecision HistoricalAnchorStatus.
Proof. solve_decision. Defined.

Record HistoricalAnchorResult := mkAnchorResult {
  ha_status : HistoricalAnchorStatus;
  ha_mining_header_hash : Hash256;
  ha_matching_observations : nat }.

Definition default_anchor_result : HistoricalAnchorResult :=
  mkAnchorResult LocalObservationMissing (arr_zero 32) 0.

#[export] Instance P2pMiningAnchor_eq_dec : EqDecision P2pMiningAnchor.
Proof. solve_decision. Defined.

(** The anchor fields of a proposal. *)
Definition proposal_anchor (p : P2pMiningContextProposal) : P2pMiningAnchor :=
  mkAnchor (pp_zano_height p) (pp_prev_hash p) (pp_network_difficulty p) (pp_seed p)
    (pp_block_reward_without_fee p).

(** ** Local observations *)

Section Observations.
Context `{!JsonC}.

Fixpoint load_anchors_loop (sid : Hash256) (dir : Directory) (max_records : Z) (names : list text)
    (anchors : list P2pMiningAnchor) : res (list P2pMiningAnchor) :=
  match names with
  | [] => Ok anchors
  | name :: rest =>
      (if negb (bool_decide (path_extension name = dot_work))
      then load_anchors_loop sid dir max_records rest anchors
      else
      _ ← throw_if (max_records <=? Z.of_nat (length anchors)) RuntimeError
            "local archive scan limit exceeded; no partial evidence accepted";
      let stem := path_stem name in
      _ ← throw_if (negb (length stem =? 64)%nat || negb (forallb is_lower_hex stem)) RuntimeError
            "invalid local archive record name";
      bytes ← hex_to_bytes stem;
      payload ← archive_read sid dir (arr_of 32 bytes);
      proposal ← deserialize_p2p_mining_context_payload payload;
      _ ← validate_p2p_mining_context_structure proposal;
      load_anchors_loop sid dir max_records rest (anchors ++ [proposal_anchor proposal]))%stdpp
  end.
Definition load_local_mining_anchors (sid : Hash256) (dir : Directory) (max_records : Z)
    : res (list P2pMiningAnchor) :=
  load_anchors_loop sid dir max_records (directory_names dir) [].

(** The loop over the observations: whether they conflict, the one expected, and
    the number of matching ones seen. *)
Fixpoint observations_loop (p : P2pMiningContextProposal) (seed : Hash256)
    (observations : list P2pMiningAnchor) (expected : option P2pMiningAnchor) (matching : nat)
    : nat * (() + option P2pMiningAnchor) :=
  match observations with
  | [] => (matching, inr expected)
  | o :: rest =>
      if negb (an_zano_height o =? pp_zano_height p) ||
         negb (arr_eqb (an_prev_hash o) (pp_prev_hash p))
      then observations_loop p seed rest expected matching
      else if negb (arr_eqb (an_seed o) seed) ||
              match expected with Some e => negb (bool_decide (o = e)) | None => false end
      then (S matching, inl ())
      else observations_loop p seed rest (Some o) (S matching)
  end.

End Observations.

(** ** Audits against the local daemon *)

Section Audits.
Context `{!JsonC} {W : Type}.
Context (lookup : Z → exec W RpcCanonicalHeader).
(** An empty [std::function] is [None]. *)
Context (historical_pow_lookup : option (Z → exec W (option RpcHistoricalPowContext))).

Definition audit_historical_parent (p : P2pMiningContextProposal)
    : exec W HistoricalParentResult :=
  if pp_zano_height p =? 0
  then exec_throw RuntimeError "historical work has no parent height"
  else
  mining_header_hash <- exec_const (λ _, validate_p2p_mining_context_structure p) ;;
  let height := pp_zano_height p - 1 in
  first <- lookup height ;;
  second <- lookup height ;;
  if negb (ch_height first =? height) || negb (ch_height second =? height) ||
     arr_eqb (ch_hash first) (arr_zero 32) || arr_eqb (ch_hash second) (arr_zero 32)
  then exec_throw RuntimeError "invalid canonical parent lookup"
  else exec_ret (mkParentResult
    (if negb (arr_eqb (ch_hash first) (ch_hash second)) then ParentChangedDuringCheck
     else if arr_eqb (ch_hash first) (pp_prev_hash p) then ParentMatchedUntrusted
     else ParentMismatch) mining_header_hash).

(** Without a matching observation: ask the daemon's own history. *)
Definition audit_pow_history (p : P2pMiningContextProposal) : exec W HistoricalAnchorStatus :=
  match historical_pow_lookup with
  | None => exec_ret LocalObservationMissing
  | Some pow_lookup =>
      historical <- pow_lookup (pp_zano_height p) ;;
      match historical with
      | None => exec_ret CanonicalPowContextUnavailable
      | Some h =>
          exec_ret
            (if negb (pc_height h =? pp_zano_height p) ||
                negb (arr_eqb (pc_parent_hash h) (pp_prev_hash p)) ||
                negb (arr_eqb (pc_network_difficulty h) (pp_network_difficulty p)) ||
                negb (pc_block_reward_without_fee h =? pp_block_reward_without_fee p) ||
                (pc_confirming_pow_height h <? pp_zano_height p)
             then CanonicalPowContextMismatch else AnchorMatchedUntrusted)
      end
  end.

Definition audit_historical_local_anchor (p : P2pMiningContextProposal)
    (observations : list P2pMiningAnchor) : exec W HistoricalAnchorResult :=
  seed <- exec_const (λ _, progpowz_seed (pp_zano_height p)) ;;
  parent <- audit_historical_parent p ;;
  let header := hp_mining_header_hash parent in
  match hp_status parent with
  | ParentMismatch => exec_ret (mkAnchorResult AnchorParentMismatch header 0)
  | ParentChangedDuringCheck => exec_ret (mkAnchorResult AnchorParentChanged header 0)
  | ParentMatchedUntrusted =>
      if negb (arr_eqb (pp_seed p) seed) then exec_ret (mkAnchorResult SeedMismatch header 0)
      else
      match observations_loop p seed observations None 0 with
      | (n, inl _) => exec_ret (mkAnchorResult LocalObservationConflict header n)
      | (n, inr (Some expected)) =>
          if negb (arr_eqb (pp_network_difficulty p) (an_network_difficulty expected)) ||
             negb (pp_block_reward_without_fee p =? an_block_reward_without_fee expected)
          then exec_ret (mkAnchorResult LocalObservationMismatch header n)
          else exec_ret (mkAnchorResult AnchorMatchedUntrusted header n)
      | (n, inr None) =>
          status <- audit_pow_history p ;;
          exec_ret (mkAnchorResult status header n)
      end
  end.

End Audits.

Definition historical_anchor_status_name (s : HistoricalAnchorStatus) : string :=
  match s with
  | AnchorMatchedUntrusted => "matched-local-observation-untrusted"
  | AnchorParentMismatch => "parent-mismatch"
  | AnchorParentChanged => "parent-changed-during-check"
  | SeedMismatch => "seed-mismatch"
  | LocalObservationMissing => "local-observation-missing"
  | LocalObservationConflict => "local-observation-conflict"
  | LocalObservationMismatch => "local-observation-mismatch"
  | CanonicalPowContextUnavailable => "canonical-pow-context-unavailable"
  | CanonicalPowContextMismatch => "canonical-pow-context-mismatch"
  end.

(** ** Historical payouts *)

Inductive HistoricalPayoutStatus :=
| PlanDerived | ParameterMismatch | BootstrapHistoryRequired | BootstrapRoot | ParentMissing
| UnverifiedAncestry | PlanUnavailable.
#[export] Instance HistoricalPayoutStatus_eq_dec : EqDecision HistoricalPayoutStatus.
Proof. solve_decision. Defined.

Record HistoricalPayoutResult := mkPayoutResult {
  hy_status : HistoricalPayoutStatus;
  hy_parent_id : ShareId;
  hy_plan : PplnsCoinbasePlan }.

Definition default_plan : PplnsCoinbasePlan := mkPlan EmptyWindow 0 [].

Definition derive_historical_payout_plan (chain : ShareChain) (params : SidechainParameters)
    (parent_id : ShareId) (network_difficulty : Difficulty128) (reward_atomic : Z)
    : res HistoricalPayoutResult :=
  (matches ← matches_sidechain_parameters chain params;
  if negb matches then mret (mkPayoutResult ParameterMismatch parent_id default_plan)
  else if is_zero_share_id parent_id
  then mret (mkPayoutResult BootstrapHistoryRequired parent_id default_plan)
  else
  match find chain parent_id with
  | None => mret (mkPayoutResult ParentMissing parent_id default_plan)
  | Some parent =>
      if negb (validated_ancestry parent)
      then mret (mkPayoutResult UnverifiedAncestry parent_id default_plan)
      else
      window ← build_sidechain_pplns_window_at_parent chain parent_id params network_difficulty;
      plan ← make_pplns_coinbase_plan window reward_atomic params;
      mret (mkPayoutResult
              (if bool_decide (plan_status plan = Ready) then PlanDerived else PlanUnavailable)
              parent_id plan)
  end)%stdpp.

Definition historical_payout_status_name (s : HistoricalPayoutStatus) : string :=
  match s with
  | PlanDerived => "plan-derived"
  | ParameterMismatch => "parameter-mismatch"
  | BootstrapHistoryRequired => "bootstrap-history-required"
  | BootstrapRoot => "bootstrap-root"
  | ParentMissing => "parent-missing"
  | UnverifiedAncestry => "unverified-ancestry"
  | PlanUnavailable => "plan-unavailable"
  end.

(** ** The historical trust crossing *)

Inductive HistoricalTrustStatus :=
| HistTrusted | CandidateMismatch | AnchorRejected | PayoutRejected
| AnchorChangedBeforePromotion | PromotionRejected.
#[export] Instance HistoricalTrustStatus_eq_dec : EqDecision HistoricalTrustStatus.
Proof. solve_decision. Defined.

Record HistoricalTrustResult := mkHistorical {
  ht_status : HistoricalTrustStatus;
  ht_candidate_id : ShareId;
  ht_initial_anchor : HistoricalAnchorResult;
  ht_final_anchor : HistoricalAnchorResult;
  ht_payout : HistoricalPayoutResult;
  ht_promotion : P2pMiningContextTrustResult }.

Definition default_payout_result : HistoricalPayoutResult :=
  mkPayoutResult ParentMissing (arr_zero 32) default_plan.

(** Statements about the daemon alone, or about the rest of the state alone. *)
Definition on_world {R W A} (m : exec W A) : exec (R * W) A :=
  λ s, let '(r, w') := m s.2 in (r, (s.1, w')).
Definition on_state {R W A} (m : exec R A) : exec (R * W) A :=
  λ s, let '(r, x') := m s.1 in (r, (x', s.2)).

(** The candidate is a canonical version-2 root. *)
Definition bootstrap_shape (candidate : Share) : bool :=
  (share_height candidate =? 0) && (version candidate =? kShareVersion2) &&
  match payout candidate with
  | Some keys => arr_eqb (miner_id candidate) (miner_id_from_payout keys)
  | None => false
  end.

Section Historical.
Context `{!JsonC, !ZanoCrypto} {W : Type}.
Context (lookup : Z → exec W RpcCanonicalHeader).
Context (historical_pow_lookup : option (Z → exec W (option RpcHistoricalPowContext))).

Definition promote_historical_mining_context (chain : ShareChain) (params : SidechainParameters)
    (candidate : Share) (peer : P2pHandshake) (p : P2pMiningContextProposal)
    (observations : list P2pMiningAnchor)
    : exec (P2pTrustedWorkRegistry * W) HistoricalTrustResult :=
  let early status id initial payout :=
    mkHistorical status id initial default_anchor_result payout default_trust in
  match share_id candidate with
  | Throw (Exn InvalidArgument _) =>
      exec_ret (early CandidateMismatch (arr_zero 32) default_anchor_result default_payout_result)
  | Throw e => λ s, (Throw e, s)
  | Ok candidate_id =>
  proposal_header <- exec_const (λ _, validate_p2p_mining_context_structure p) ;;
  if negb (zano_height candidate =? pp_zano_height p) ||
     negb (arr_eqb (mining_header_hash candidate) proposal_header) ||
     negb (arr_eqb (network_difficulty candidate) (pp_network_difficulty p))
  then exec_ret (early CandidateMismatch candidate_id default_anchor_result default_payout_result)
  else
  let bootstrap_root := is_zero_share_id (parent_id candidate) in
  if bootstrap_root && negb (bootstrap_shape candidate)
  then exec_ret (early CandidateMismatch candidate_id default_anchor_result default_payout_result)
  else
  initial <- on_world (audit_historical_local_anchor lookup historical_pow_lookup p observations) ;;
  if negb (bool_decide (ha_status initial = AnchorMatchedUntrusted))
  then exec_ret (early AnchorRejected candidate_id initial default_payout_result)
  else if negb (arr_eqb (ha_mining_header_hash initial) proposal_header)
  then exec_ret (early CandidateMismatch candidate_id initial default_payout_result)
  else
  payout <- (if bootstrap_root
             then exec_ret (mkPayoutResult BootstrapRoot (parent_id candidate) default_plan)
             else exec_const (λ _, derive_historical_payout_plan chain params (parent_id candidate)
                                     (pp_network_difficulty p) (pp_block_reward_without_fee p))) ;;
  if negb bootstrap_root && negb (bool_decide (hy_status payout = PlanDerived))
  then exec_ret (early PayoutRejected candidate_id initial payout)
  else
  final <- on_world (audit_historical_local_anchor lookup historical_pow_lookup p observations) ;;
  if negb (bool_decide (ha_status final = AnchorMatchedUntrusted)) ||
     negb (arr_eqb (ha_mining_header_hash final) (ha_mining_header_hash initial))
  then exec_ret (mkHistorical AnchorChangedBeforePromotion candidate_id initial final payout
                   default_trust)
  else
  envelope <- exec_const (λ _, make_p2p_mining_context_envelope p) ;;
  promotion <- on_state
    (if bootstrap_root
     then promote_bootstrap_p2p_mining_context peer envelope (proposal_anchor p)
     else promote_p2p_mining_context peer envelope (proposal_anchor p) (parent_id candidate)
            (hy_plan payout)) ;;
  exec_ret (mkHistorical
    (if bool_decide (tr_status promotion = Trusted) then HistTrusted else PromotionRejected)
    candidate_id initial final payout promotion)
  end.

End Historical.

Definition historical_trust_status_name (s : HistoricalTrustStatus) : string :=
  match s with
  | HistTrusted => "trusted"
  | CandidateMismatch => "candidate-mismatch"
  | AnchorRejected => "anchor-rejected"
  | PayoutRejected => "payout-rejected"
  | AnchorChangedBeforePromotion => "anchor-changed-before-promotion"
  | PromotionRejected => "promotion-rejected"
  end.

(** ** What the audits establish *)

Section AuditSpec.
Context `{!JsonC} {W : Type}.
Context (lookup : Z → exec W RpcCanonicalHeader).
Context (historical_pow_lookup : option (Z → exec W (option RpcHistoricalPowContext))).

(** The daemon, asked twice in a row, named [hash] as its block at [height]. *)
Definition canonical_at (height : Z) (hash : Hash256) : Prop :=
  ∃ s1 s2 s3, lookup height s1 = (Ok (mkCanonical height hash), s2) ∧
    lookup height s2 = (Ok (mkCanonical height hash), s3).

(** The template fields of [p] are those of one of this node's own observations,
    or, when it has none for that parent, those of its daemon's history. *)
Definition locally_known (p : P2pMiningContextProposal) (observations : list P2pMiningAnchor)
    : Prop :=
  proposal_anchor p ∈ observations ∨
  ∃ pow_lookup s s' h, historical_pow_lookup = Some pow_lookup ∧
    (∀ o, o ∈ observations → an_zano_height o = pp_zano_height p → an_prev_hash o ≠ pp_prev_hash p) ∧
    pow_lookup (pp_zano_height p) s = (Ok (Some h), s') ∧
    pc_parent_hash h = pp_prev_hash p ∧ pc_network_difficulty h = pp_network_difficulty p ∧
    pc_block_reward_without_fee h = pp_block_reward_without_fee p.

Lemma parent_audit_ok p s r s' :
  audit_historical_parent lookup p s = (Ok r, s') → hp_status r = ParentMatchedUntrusted →
  canonical_at (pp_zano_height p - 1) (pp_prev_hash p) ∧
  validate_p2p_mining_context_structure p = Ok (hp_mining_header_hash r).
Proof.
  intros Ha Hst. revert Ha. unfold audit_historical_parent. destruct (_ =? 0); [done|].
  intros (header & s1 & Hv & Ha)%exec_bind_ok. unfold exec_const in Hv. injection Hv as Hv <-.
  apply exec_bind_ok in Ha as ([h1 b1] & s2 & H1 & Ha).
  apply exec_bind_ok in Ha as ([h2 b2] & s3 & H2 & Ha). cbn [ch_height ch_hash] in Ha.
  destruct (_ || _) eqn:E; [done|]. bool_prop. subst. injection Ha as <- <-.
  cbn [hp_status hp_mining_header_hash] in *.
  destruct (arr_eqb b1 b2) eqn:Eb; cbn [negb] in Hst; [|done]. bool_prop. subst b2.
  destruct (arr_eqb b1 (pp_prev_hash p)) eqn:Ep; [|done]. bool_prop. subst b1.
  split; [|done]. by exists s, s2, s3.
Qed.

Lemma observations_loop_ok p seed observations : ∀ expected n n' result,
  observations_loop p seed observations expected n = (n', inr result) →
  (∀ o, expected = Some o → an_zano_height o = pp_zano_height p ∧ an_prev_hash o = pp_prev_hash p ∧
     an_seed o = seed) →
  match result with
  | Some o => an_zano_height o = pp_zano_height p ∧ an_prev_hash o = pp_prev_hash p ∧
      an_seed o = seed ∧ (expected = Some o ∨ o ∈ observations)
  | None => expected = None ∧
      ∀ o, o ∈ observations → an_zano_height o = pp_zano_height p → an_prev_hash o ≠ pp_prev_hash p
  end.
Proof.
  induction observations as [|o rest IH]; intros expected n n' result; cbn [observations_loop].
  { intros [= <- <-] He. destruct expected as [e|]; [|split; [done|set_solver]].
    destruct (He e eq_refl) as (? & ? & ?). eauto. }
  destruct (_ || _) eqn:Em.
  { intros Hl He. specialize (IH _ _ _ _ Hl He). destruct result as [r|].
    - destruct IH as (? & ? & ? & [|]); split_and!; try done; [by left|]. right. by right.
    - destruct IH as [? IH]. split; [done|]. intros o' [->|Ho]%elem_of_cons; [|by apply IH].
      intros Eh Ep. by rewrite Eh, Ep, Z.eqb_refl, arr_eqb_refl in Em. }
  bool_prop. destruct (_ || _) eqn:Ec; [done|]. intros Hl _. bool_prop.
  apply IH in Hl; [|intros o' [= <-]; done].
  destruct result as [r|]; [|by destruct Hl].
  destruct Hl as (? & ? & ? & [[= <-]|Hr]); split_and!; try done; right; [left|by right].
Qed.

Lemma audit_ok p observations s r s' :
  audit_historical_local_anchor lookup historical_pow_lookup p observations s = (Ok r, s') →
  ha_status r = AnchorMatchedUntrusted →
  progpowz_seed (pp_zano_height p) = Ok (pp_seed p) ∧
  canonical_at (pp_zano_height p - 1) (pp_prev_hash p) ∧
  validate_p2p_mining_context_structure p = Ok (ha_mining_header_hash r) ∧
  locally_known p observations.
Proof.
  unfold audit_historical_local_anchor. intros (seed & s1 & Hs & Ha)%exec_bind_ok Hst.
  unfold exec_const in Hs. injection Hs as Hs <-.
  apply exec_bind_ok in Ha as (parent & s2 & Hp & Ha). cbv zeta in Ha.
  destruct (hp_status parent) eqn:Eps; [|by injection Ha as <- <-|by injection Ha as <- <-].
  destruct (parent_audit_ok _ _ _ _ Hp Eps) as [Hcan Hval].
  destruct (arr_eqb (pp_seed p) seed) eqn:Eseed; cbn [negb] in Ha; [|by injection Ha as <- <-].
  bool_prop. subst seed. split; [done|]. split; [done|].
  destruct (observations_loop p (pp_seed p) observations None 0) as [n [[]|[o|]]] eqn:El;
    [by injection Ha as <- <-| |].
  - apply observations_loop_ok in El as (Eh & Ep & Es & Ho); [|done].
    destruct (_ || _) eqn:E; [by injection Ha as <- <-|]. bool_prop. injection Ha as <- <-.
    split; [done|]. left. destruct Ho as [|Ho]; [done|]. destruct o; simpl in *.
    unfold proposal_anchor. by subst.
  - apply observations_loop_ok in El as [_ El]; [|done].
    apply exec_bind_ok in Ha as (status & s3 & Hh & [= <- <-]). cbn in *. split; [done|].
    revert Hh. unfold audit_pow_history. destruct historical_pow_lookup as [pl|] eqn:Epl;
      [|by intros [= <- <-]].
    intros (h & s4 & Hpl & Hh)%exec_bind_ok. destruct h as [h|]; [|by injection Hh as <- <-].
    injection Hh as Hh <-. destruct (_ || _) eqn:E in Hh; [by subst status|]. bool_prop.
    right. exists pl, s2, s4, h. by split_and!.
Qed.

End AuditSpec.

(** ** What the historical crossing establishes *)

Lemma make_plan_u64 window reward params plan :
  params_wf params → is_u64 reward → make_pplns_coinbase_plan window reward params = Ok plan →
  Forall (λ d, is_u64 (dest_amount d)) (destinations plan).
Proof.
  intros Hwf Hr Hp. apply make_plan_ok in Hp as [_ Hp]; [|done|done].
  destruct (bool_decide _); [|by rewrite Hp]. destruct Hp as [Hsum _ Hpos _ _].
  apply Forall_forall. intros d Hd. specialize (Hpos d Hd) as Hd0.
  pose proof (sum_by_elem_le dest_amount (destinations plan) d Hd
    ltac:(intros y Hy; specialize (Hpos y Hy); lia)). unfold is_u64 in *. lia.
Qed.

Lemma derive_payout_ok chain params parent network reward r :
  params_wf params → is_u64 reward →
  derive_historical_payout_plan chain params parent network reward = Ok r →
  Forall (λ d, is_u64 (dest_amount d)) (destinations (hy_plan r)) ∧
  (hy_status r = PlanDerived →
     ∃ e, connected chain !! parent = Some e ∧ validated_ancestry e = true).
Proof.
  intros Hwf Hr. unfold derive_historical_payout_plan. intros Hd.
  apply res_bind_ok in Hd as (b & _ & Hd).
  destruct (negb b); [by injection Hd as <-|]. destruct (is_zero_share_id parent); [by injection Hd as <-|].
  unfold find in Hd. destruct (connected chain !! parent) as [e|]; [|by injection Hd as <-].
  destruct (validated_ancestry e) eqn:Ev; cbn [negb] in Hd; [|by injection Hd as <-].
  apply res_bind_ok in Hd as (win & _ & Hd). apply res_bind_ok in Hd as (plan & Hp & Hd).
  injection Hd as <-. split; [by eapply make_plan_u64|]. intros _. by exists e.
Qed.

Lemma make_envelope_parses `{!JsonC} p envelope :
  proposal_wf p → make_p2p_mining_context_envelope p = Ok envelope →
  parse_p2p_mining_context_envelope envelope = Ok p.
Proof.
  intros Hwf. unfold make_p2p_mining_context_envelope. intros He.
  apply res_bind_ok in He as (payload & Hs & [= <-]). apply serialize_context_ok in Hs as [Hv ->].
  unfold parse_p2p_mining_context_envelope. cbn [env_payload].
  by rewrite deserialize_context_layout.
Qed.

Section Sound.
Context `{!JsonC, !ZanoCrypto} {W : Type}.
Context (lookup : Z → exec W RpcCanonicalHeader).
Context (historical_pow_lookup : option (Z → exec W (option RpcHistoricalPowContext))).

(** What a trusted historical context rests on. *)
Record historical_evidence (chain : ShareChain) (params : SidechainParameters) (candidate : Share)
    (p : P2pMiningContextProposal) (observations : list P2pMiningAnchor)
    (payout : HistoricalPayoutResult) (w : MiningHeaderWork) : Prop := {
  he_work : derive_mining_header_work (pp_block_template_blob p) = Ok w;
  he_candidate : zano_height candidate = pp_zano_height p ∧
    mining_header_hash candidate = mw_header_hash w ∧
    network_difficulty candidate = pp_network_difficulty p;
  he_seed : progpowz_seed (pp_zano_height p) = Ok (pp_seed p);
  he_canonical : canonical_at lookup (pp_zano_height p - 1) (pp_prev_hash p);
  he_known : locally_known historical_pow_lookup p observations;
  he_payout : if is_zero_share_id (parent_id candidate) then bootstrap_shape candidate = true
    else (∃ e, connected chain !! parent_id candidate = Some e ∧ validated_ancestry e = true) ∧
      derive_historical_payout_plan chain params (parent_id candidate) (pp_network_difficulty p)
        (pp_block_reward_without_fee p) = Ok payout ∧ coinbase_pays (hy_plan payout) p w;
  he_proofs : proofs_hold p w }.

(** The registry gains or confirms the candidate's own entry. *)
Definition candidate_entry (candidate : Share) (m m' : P2pTrustedWorkRegistry) : Prop :=
  let key := (zano_height candidate, mining_header_hash candidate, parent_id candidate) in
  (∃ ctx, find_work m' (zano_height candidate) (mining_header_hash candidate)
            (parent_id candidate) = Some ctx ∧
     ctx_network_difficulty ctx = network_difficulty candidate) ∧
  (∀ k, k ≠ key → m' !! k = m !! k) ∧ registry_ok m'.

Lemma crossing_entry p w candidate envelope anchor m m' r p' w' :
  crossing envelope anchor (parent_id candidate) m m' r p' w' → p' = p →
  derive_mining_header_work (pp_block_template_blob p) = Ok w → registry_ok m →
  zano_height candidate = pp_zano_height p → mining_header_hash candidate = mw_header_hash w →
  network_difficulty candidate = pp_network_difficulty p → candidate_entry candidate m m'.
Proof.
  intros [_ Hw _ _ Hctx Hext _ _] -> Hw' Hok Eh Em En.
  assert (w' = w) as -> by congruence. rewrite Hctx in Hext. unfold context_key in Hext.
  destruct Hext as [(e & He & Hd) Hother _ Hok']. cbn in He, Hd, Hother. unfold candidate_entry.
  rewrite Eh, Em, En. split; [|split; [exact Hother|by apply Hok']].
  exists (we_context e). unfold find_work. by rewrite He.
Qed.

(** The promotion at the end, with its gate. *)
Lemma promotion_step (root : bool) peer p envelope candidate plan m :
  registry_ok m → proposal_wf p → make_p2p_mining_context_envelope p = Ok envelope →
  (root = true → parent_id candidate = arr_zero 32) →
  Forall (λ d, is_u64 (dest_amount d)) (destinations plan) →
  promotion_post peer envelope (proposal_anchor p) (parent_id candidate) m
    (λ p' w, p' = p ∧ (root = false → coinbase_pays plan p' w))
    ((if root then promote_bootstrap_p2p_mining_context peer envelope (proposal_anchor p)
      else promote_p2p_mining_context peer envelope (proposal_anchor p) (parent_id candidate) plan) m).
Proof.
  intros Hok Hwf He Hroot Hd. pose proof (make_envelope_parses p envelope Hwf He) as Hp.
  assert (∀ Q out, promotion_post peer envelope (proposal_anchor p) (parent_id candidate) m Q out →
    promotion_post peer envelope (proposal_anchor p) (parent_id candidate) m
      (λ p' w, p' = p ∧ Q p' w) out) as Hsame.
  { unfold promotion_post. intros Q [[r|e] m'] HQ; [|done]. destruct (bool_decide _); [|done].
    destruct HQ as (Hc & p' & w & Hcr & HQ). split; [done|]. exists p', w. split; [done|].
    destruct Hcr as [Hp' _ _ _ _ _ _ _]. assert (p' = p) as -> by congruence. tauto. }
  destruct root.
  - rewrite Hroot by done. rewrite Hroot in Hsame by done.
    eapply promotion_post_weaken; [|apply Hsame; exact (promote_outcome peer envelope
      (proposal_anchor p) (arr_zero 32) m (λ q prefix, verify_miner_tx_bootstrap_policy prefix
        (pp_miner_tx_tgc_json q) (pp_block_reward_without_fee q) (pp_block_reward q) (pp_txs_fee q)) Hok)].
    by intros p' w [-> _].
  - eapply promotion_post_weaken; [|apply Hsame, promote_plan_outcome; done].
    by intros p' w [-> ?].
Qed.

Definition historical_post (chain : ShareChain) (params : SidechainParameters) (candidate : Share)
    (peer : P2pHandshake) (p : P2pMiningContextProposal) (observations : list P2pMiningAnchor)
    (m : P2pTrustedWorkRegistry)
    (out : res HistoricalTrustResult * (P2pTrustedWorkRegistry * W)) : Prop :=
  let m' := out.2.1 in
  match out.1 with
  | Ok r =>
      if bool_decide (ht_status r = HistTrusted)
      then Z.land (hs_capabilities peer) kP2pCapabilityMiningContext ≠ 0 ∧
        candidate_entry candidate m m' ∧
        ∃ w, historical_evidence chain params candidate p observations (ht_payout r) w
      else m' = m
  | Throw _ => m' = m
  end.

(** The payout of a candidate below a root rests on validated ancestry. *)
Definition payout_facts (chain : ShareChain) (params : SidechainParameters) (candidate : Share)
    (p : P2pMiningContextProposal) (y : HistoricalPayoutResult) : Prop :=
  Forall (λ d, is_u64 (dest_amount d)) (destinations (hy_plan y)) ∧
  (is_zero_share_id (parent_id candidate) = false →
     derive_historical_payout_plan chain params (parent_id candidate)
       (pp_network_difficulty p) (pp_block_reward_without_fee p) = Ok y ∧
     (hy_status y = PlanDerived → ∃ e, connected chain !! parent_id candidate = Some e ∧
        validated_ancestry e = true)).

Lemma payout_step {S} chain params candidate p (st : S) :
  params_wf params → proposal_wf p →
  ∃ r, (if is_zero_share_id (parent_id candidate)
        then exec_ret (mkPayoutResult BootstrapRoot (parent_id candidate) default_plan)
        else exec_const (λ _, derive_historical_payout_plan chain params (parent_id candidate)
               (pp_network_difficulty p) (pp_block_reward_without_fee p))) st = (r, st) ∧
    ∀ y, r = Ok y → payout_facts chain params candidate p y.
Proof.
  intros Hpwf Hwf. unfold payout_facts.
  destruct (is_zero_share_id _); eexists; (split; [done|]); intros y Hy.
  - injection Hy as <-. by split.
  - destruct (derive_payout_ok _ _ _ _ _ _ Hpwf (pw_base _ Hwf) Hy) as [? ?]. by split_and!.
Qed.

Lemma structure_header p header :
  validate_p2p_mining_context_structure p = Ok header →
  ∃ w, derive_mining_header_work (pp_block_template_blob p) = Ok w ∧ mw_header_hash w = header.
Proof.
  unfold validate_p2p_mining_context_structure. intros Hv. apply res_bind_ok in Hv as (w & Hw & Hv).
  exists w. split; [done|]. apply res_bind_ok in Hv as (? & _ & Hv).
  apply res_bind_ok in Hv as (? & _ & Hv). by injection Hv as ->.
Qed.

Lemma historical_promotion chain params candidate peer p observations payout w m envelope out :
  registry_ok m → proposal_wf p → make_p2p_mining_context_envelope p = Ok envelope →
  derive_mining_header_work (pp_block_template_blob p) = Ok w →
  zano_height candidate = pp_zano_height p → mining_header_hash candidate = mw_header_hash w →
  network_difficulty candidate = pp_network_difficulty p →
  payout_facts chain params candidate p payout →
  (is_zero_share_id (parent_id candidate) = true → bootstrap_shape candidate = true) →
  (is_zero_share_id (parent_id candidate) = false → hy_status payout = PlanDerived) →
  progpowz_seed (pp_zano_height p) = Ok (pp_seed p) →
  canonical_at lookup (pp_zano_height p - 1) (pp_prev_hash p) →
  locally_known historical_pow_lookup p observations →
  out = (if is_zero_share_id (parent_id candidate)
    then promote_bootstrap_p2p_mining_context peer envelope (proposal_anchor p)
    else promote_p2p_mining_context peer envelope (proposal_anchor p) (parent_id candidate)
           (hy_plan payout)) m →
  match out with
  | (Ok r, m') =>
      if bool_decide (tr_status r = Trusted)
      then Z.land (hs_capabilities peer) kP2pCapabilityMiningContext ≠ 0 ∧
        candidate_entry candidate m m' ∧
        historical_evidence chain params candidate p observations payout w
      else m' = m
  | (Throw _, m') => m' = m
  end.
Proof.
  intros Hok Hwf Henv Hw Eh Em En [Hu64 Hpay] Hroot Hder Hseed Hcan Hknown Hout.
  pose proof (promotion_step (is_zero_share_id (parent_id candidate)) peer p envelope candidate
    (hy_plan payout) m Hok Hwf Henv (λ Hz, proj1 (is_zero_share_id_spec _) Hz) Hu64) as Hpost.
  rewrite <-Hout in Hpost. clear Hout. destruct out as [[r|e] m']; [|by destruct Hpost].
  unfold promotion_post in Hpost. destruct (bool_decide _); [|done].
  destruct Hpost as (Hcap & p' & w' & Hcr & [-> Hpays] & Hproofs). split; [done|].
  split; [by eapply crossing_entry|]. destruct Hcr as [_ Hw' _ _ _ _ _ _].
  assert (w' = w) as -> by congruence. split; try done.
  destruct (is_zero_share_id _); [by apply Hroot|].
  destruct (Hpay eq_refl) as [Hd Ha]. split; [by apply Ha, Hder|]. split; [done|by apply Hpays].
Qed.

Lemma historical_outcome chain params candidate peer p observations m s :
  registry_ok m → params_wf params → proposal_wf p →
  historical_post chain params candidate peer p observations m
    (promote_historical_mining_context lookup historical_pow_lookup chain params candidate peer p
       observations (m, s)).
Proof.
  intros Hok Hpwf Hwf. unfold promote_historical_mining_context. cbv zeta.
  destruct (share_id candidate) as [cid|[k what]]; [|by destruct k].
  unfold exec_bind at 1, exec_const at 1.
  destruct (validate_p2p_mining_context_structure p) as [header|e] eqn:Hv; [|done].
  destruct (structure_header p header Hv) as (w & Hw & Hh).
  destruct (negb (zano_height candidate =? _) || _ || _) eqn:Ec; [done|]. bool_prop.
  destruct (is_zero_share_id (parent_id candidate) && _) eqn:Eroot; [done|].
  unfold exec_bind at 1, on_world at 1. cbn [fst snd].
  destruct (audit_historical_local_anchor _ _ p observations s) as [[initial|e] s1] eqn:Ha1; [|done].
  destruct (negb (bool_decide (ha_status initial = _))); [done|].
  destruct (negb (arr_eqb (ha_mining_header_hash initial) header)); [done|].
  unfold exec_bind at 1.
  destruct (payout_step chain params candidate p (m, s1) Hpwf Hwf) as (pres & -> & Hpay).
  destruct pres as [payout|e]; [|done]. specialize (Hpay _ eq_refl).
  destruct (negb (is_zero_share_id _) && _) eqn:Epl; [done|].
  unfold exec_bind at 1, on_world at 1. cbn [fst snd].
  destruct (audit_historical_local_anchor _ _ p observations s1) as [[final|e] s2] eqn:Ha2; [|done].
  destruct (negb (bool_decide (ha_status final = _)) || _) eqn:Efin; [done|]. bool_prop.
  destruct (audit_ok _ _ _ _ _ _ _ Ha2 ltac:(done)) as (Hseed & Hcan & _ & Hknown).
  unfold exec_bind at 1, exec_const at 1.
  destruct (make_p2p_mining_context_envelope p) as [envelope|e] eqn:Henv; [|done].
  unfold exec_bind at 1, on_state. cbn [fst snd].
  match goal with |- context [(if ?b then ?x else ?y) m] =>
    pose proof (historical_promotion chain params candidate peer p observations payout w m envelope
      ((if b then x else y) m) Hok Hwf Henv Hw) as Hfin;
    destruct ((if b then x else y) m) as [r m'] eqn:Eprom end.
  assert (match r with
    | Ok t => if bool_decide (tr_status t = Trusted)
        then Z.land (hs_capabilities peer) kP2pCapabilityMiningContext ≠ 0 ∧
          candidate_entry candidate m m' ∧
          historical_evidence chain params candidate p observations payout w
        else m' = m
    | Throw _ => m' = m end) as Hres.
  { apply Hfin; try done.
    - congruence.
    - intros Hz. rewrite Hz in Eroot. by destruct (bootstrap_shape candidate).
    - intros Hz. rewrite Hz in Epl. by destruct (hy_status payout). }
  destruct r as [t|e]; [|exact Hres]. unfold historical_post. cbn.
  destruct (bool_decide (tr_status t = Trusted)).
  - rewrite bool_decide_true by done. destruct Hres as (? & ? & ?). split_and!; try done. by exists w.
  - by rewrite bool_decide_false.
Qed.

(** C7: the historical trust crossing.  A retrieved proposal makes a candidate share's
    work trusted only if the daemon, asked twice just before, named the proposal's
    parent as its canonical block, the seed is the one of the height, the template
    fields are those this node observed itself or its daemon's history confirms,
    the proposal's own template derives the candidate's header, the coinbase pays
    the plan computed from the validated ancestry of the candidate's parent, or
    the candidate is a canonical root, and the consensus proofs verify; then the
    registry gains or confirms exactly the candidate's entry.  In every other
    outcome, exceptions of the daemon included, the registry is as before. *)
Theorem historical_trust_sound : ∀ chain params candidate peer p observations m s,
  registry_ok m → params_wf params → proposal_wf p →
  let out := promote_historical_mining_context lookup historical_pow_lookup chain params candidate
               peer p observations (m, s) in
  let m' := out.2.1 in
  match out.1 with
  | Ok r =>
      if bool_decide (ht_status r = HistTrusted)
      then Z.land (hs_capabilities peer) kP2pCapabilityMiningContext ≠ 0 ∧
        candidate_entry candidate m m' ∧
        ∃ w, historical_evidence chain params candidate p observations (ht_payout r) w
      else m' = m
  | Throw _ => m' = m
  end.
Proof. intros. by apply historical_outcome. Qed.

End Sound.
