(* ===== verification/Restart.v ===== *)
(** Recovering trust after a restart: [src/restart_revalidation.cpp],
    [src/restart_recovery.cpp] with their headers, and the stable reads of the
    canonical chain in [src/rpc_client.cpp]. *)
From S2P Require Import Prelude CryptoHash PowTarget Share SidechainParams Difficulty ShareChain.
From S2P Require Import ChainWork ChainInv ChainPromote ChainAdmit ChainReplay ChainPrune.
From S2P Require Import ChainHistory ReplayStore MiningHeader BlockTemplate MiningContext.
From S2P Require Import ShareStore P2pShare WorkArchive HistoricalTrust.
Local Open Scope pool_scope.

(** ** Stable reads of the local daemon *)

Section Stable.
Context {W : Type} (lookup : Z → exec W RpcCanonicalHeader).

Definition stable_canonical_parent_for_work_height (zano_height : Z) : exec W Hash256 :=
  if zano_height =? 0
  then exec_throw InvalidArgument "canonical-parent audit requires nonzero Zano work height"
  else
  let parent_height := zano_height - 1 in
  first <- lookup parent_height ;;
  second <- lookup parent_height ;;
  if negb (ch_height first =? parent_height) || negb (ch_height second =? parent_height)
  then exec_throw RuntimeError "canonical-parent audit returned the wrong Zano height"
  else if negb (arr_eqb (ch_hash first) (ch_hash second))
  then exec_throw RuntimeError "canonical Zano parent changed during stable audit"
  else exec_ret (ch_hash first).

Definition stable_canonical_checkpoint_matches (checkpoint : ReplayValidationCheckpoint)
    : exec W bool :=
  if arr_eqb (cp_block_hash checkpoint) (arr_zero 32)
  then exec_throw InvalidArgument "replay-validation checkpoint hash must be nonzero"
  else
  first <- lookup (cp_zano_height checkpoint) ;;
  second <- lookup (cp_zano_height checkpoint) ;;
  if negb (ch_height first =? cp_zano_height checkpoint) ||
     negb (ch_height second =? cp_zano_height checkpoint)
  then exec_throw RuntimeError
         "replay-validation checkpoint audit returned the wrong Zano height"
  else if arr_eqb (ch_hash first) (arr_zero 32) || arr_eqb (ch_hash second) (arr_zero 32)
  then exec_throw RuntimeError
         "replay-validation checkpoint audit returned a zero canonical hash"
  else if negb (arr_eqb (ch_hash first) (ch_hash second))
  then exec_throw RuntimeError "canonical Zano checkpoint changed during stable audit"
  else exec_ret (arr_eqb (ch_hash first) (cp_block_hash checkpoint)).

End Stable.

(** ** The validation cache *)

Inductive RestartReplayValidationStatus := CacheMissing | CacheRestored | CacheStale.

Record RestartReplayValidationResult := mkRestore {
  rv_status : RestartReplayValidationStatus;
  rv_checkpoint : option ReplayValidationCheckpoint;
  rv_records_loaded : nat;
  rv_records_restored : nat }.

Inductive RestartReplayValidationPersistStatus := CacheSaved | CanonicalChanged | CheckpointTooOld.

Record RestartReplayValidationPersistResult := mkPersist {
  pv_status : RestartReplayValidationPersistStatus;
  pv_checkpoint : option ReplayValidationCheckpoint;
  pv_records_exported : nat;
  pv_records_saved : nat }.

Section Cache.
Context {W : Type} (lookup : Z → exec W RpcCanonicalHeader).

(** The store is its sidechain id and its file. *)
Definition restore_replayed_validation_cache (params : SidechainParameters)
    (store_id : SidechainId) (file : File) : exec (ShareChain * W) RestartReplayValidationResult :=
  matches <- on_state (exec_const (λ c, matches_sidechain_parameters c params)) ;;
  if negb matches
  then exec_throw RuntimeError "replay-validation cache sidechain parameter mismatch"
  else
  snapshot <- exec_const (λ _, load store_id file) ;;
  match snapshot with
  | None => exec_ret (mkRestore CacheMissing None 0 0)
  | Some snapshot =>
      let checkpoint := sn_checkpoint snapshot in
      let loaded := length (sn_records snapshot) in
      matches <- on_world (stable_canonical_checkpoint_matches lookup checkpoint) ;;
      if negb matches then exec_ret (mkRestore CacheStale (Some checkpoint) loaded 0)
      else
      restored <- on_state (restore_replay_validation (sn_records snapshot)) ;;
      exec_ret (mkRestore CacheRestored (Some checkpoint) loaded restored)
  end.

(** The loop over the exported records: whether one is beyond the checkpoint. *)
Fixpoint export_beyond (c : ShareChain) (checkpoint_work_height : Z)
    (records : list ReplayValidationRecord) : res bool :=
  match records with
  | [] => Ok false
  | record :: rest =>
      match find c (rec_share_id record) with
      | None => throw LogicError "replay-validation export record is no longer connected"
      | Some connected =>
          if zano_height (cs_share connected) =? 0
          then throw LogicError "validated replay share has zero Zano work height"
          else if checkpoint_work_height <? zano_height (cs_share connected) then Ok true
          else export_beyond c checkpoint_work_height rest
      end
  end.

Definition persist_replayed_validation_cache (c : ShareChain) (params : SidechainParameters)
    (store_id : SidechainId) (checkpoint_work_height : Z) (expected_parent_hash : Hash256)
    : exec (File * W) RestartReplayValidationPersistResult :=
  matches <- exec_const (λ _, matches_sidechain_parameters c params) ;;
  if negb matches
  then exec_throw RuntimeError "replay-validation persistence sidechain parameter mismatch"
  else if checkpoint_work_height =? 0
  then exec_throw InvalidArgument
         "replay-validation persistence requires nonzero checkpoint work height"
  else if arr_eqb expected_parent_hash (arr_zero 32)
  then exec_throw InvalidArgument
         "replay-validation persistence expected parent hash must be nonzero"
  else
  stable_parent <- on_world (stable_canonical_parent_for_work_height lookup checkpoint_work_height) ;;
  if arr_eqb stable_parent (arr_zero 32)
  then exec_throw RuntimeError "replay-validation persistence canonical parent is zero"
  else
  let checkpoint := mkCheckpoint (checkpoint_work_height - 1) stable_parent in
  if negb (arr_eqb stable_parent expected_parent_hash)
  then exec_ret (mkPersist CanonicalChanged (Some checkpoint) 0 0)
  else
  records <- exec_const (λ _, replay_validation_snapshot c) ;;
  let exported := length records in
  beyond <- exec_const (λ _, export_beyond c checkpoint_work_height records) ;;
  if (beyond : bool) then exec_ret (mkPersist CheckpointTooOld (Some checkpoint) exported 0)
  else
  do on_state (save store_id (mkSnapshot checkpoint records)) ;;
  exec_ret (mkPersist CacheSaved (Some checkpoint) exported exported).

End Cache.

(** ** Revalidating one replayed share *)

Inductive RestartRevalidationStatus :=
| RstRevalidated | RstAlreadyValidated | RstShareMissing | RstParameterMismatch
| RstCandidateMismatch | RstParentUnvalidated | RstAnchorRejected
| RstAnchorChangedBeforeRevalidation | RstShareRejected.
#[export] Instance RestartRevalidationStatus_eq_dec : EqDecision RestartRevalidationStatus.
Proof. solve_decision. Defined.

Record RestartRevalidationResult := mkRestartReval {
  rr_status : RestartRevalidationStatus;
  rr_share_id : ShareId;
  rr_initial_anchor : HistoricalAnchorResult;
  rr_final_anchor : HistoricalAnchorResult;
  rr_share_result : RevalidateShareResult }.

Definition default_reval : RevalidateShareResult := mkReval NotConnected NoReject (arr_zero 32).

(** The status of [revalidate_connected_share] as a restart status. *)
Definition restart_status_of (s : RevalidateShareStatus) : RestartRevalidationStatus :=
  match s with
  | Validated => RstRevalidated
  | AlreadyValidated => RstAlreadyValidated
  | NotConnected => RstShareMissing
  | ParentUnvalidated => RstParentUnvalidated
  | RevalRejected => RstShareRejected
  end.

(** The counters of a recovery. *)
Record RestartRecoveryResult := mkRecovery {
  rc_archive_records : nat;
  rc_connected_considered : nat;
  rc_revalidated : nat;
  rc_already_validated : nat;
  rc_missing_local_work : nat;
  rc_parent_unvalidated : nat;
  rc_rejected : nat;
  rc_pruned_connected_shares : nat }.

(** The counter that a share ends in. *)
Inductive counted := CountRevalidated | CountAlready | CountMissing | CountParent | CountRejected.

Definition count (k : counted) (r : RestartRecoveryResult) : RestartRecoveryResult :=
  let '(mkRecovery a c v y m p j n) := r in
  match k with
  | CountRevalidated => mkRecovery a c (S v) y m p j n
  | CountAlready => mkRecovery a c v (S y) m p j n
  | CountMissing => mkRecovery a c v y (S m) p j n
  | CountParent => mkRecovery a c v y m (S p) j n
  | CountRejected => mkRecovery a c v y m p (S j) n
  end.
Definition consider (r : RestartRecoveryResult) : RestartRecoveryResult :=
  let '(mkRecovery a c v y m p j n) := r in mkRecovery a (S c) v y m p j n.
Definition add_pruned (k : nat) (r : RestartRecoveryResult) : RestartRecoveryResult :=
  let '(mkRecovery a c v y m p j n) := r in mkRecovery a c v y m p j (n + k).

(** The branch of the [switch] over a crossing's status. *)
Definition counted_of (s : RestartRevalidationStatus) : counted :=
  match s with
  | RstRevalidated => CountRevalidated
  | RstAlreadyValidated => CountAlready
  | RstParentUnvalidated => CountParent
  | RstAnchorRejected | RstShareMissing | RstParameterMismatch | RstCandidateMismatch
  | RstAnchorChangedBeforeRevalidation | RstShareRejected => CountRejected
  end.

(** [std::tuple<std::uint64_t, Hash256, Difficulty128>]. *)
Notation RecoveryWorkKey := (Z * Hash256 * Difficulty128)%type.

Section Recovery.
Context `{!ProgPow, !JsonC} {W : Type} (lookup : Z → exec W RpcCanonicalHeader).

Definition revalidate_recovered_share (params : SidechainParameters) (id : ShareId)
    (archive_id : Hash256) (dir : Directory) (proposal_id : Hash256)
    (local_observations : list P2pMiningAnchor) (now : Z) (mode : ProgPowZContextMode)
    : exec (ShareChain * W) RestartRevalidationResult :=
  let early status initial final := mkRestartReval status id initial final default_reval in
  let bare status := early status default_anchor_result default_anchor_result in
  matches <- on_state (exec_const (λ c, matches_sidechain_parameters c params)) ;;
  if negb matches then exec_ret (bare RstParameterMismatch)
  else
  chain <- on_state exec_get ;;
  match find chain id with
  | None => exec_ret (bare RstShareMissing)
  | Some connected =>
  if validated_ancestry connected then exec_ret (bare RstAlreadyValidated)
  else
  payload <- exec_const (λ _, archive_read archive_id dir proposal_id) ;;
  proposal <- exec_const (λ _, deserialize_p2p_mining_context_payload payload) ;;
  let candidate := cs_share connected in
  proposal_header <- exec_const (λ _, validate_p2p_mining_context_structure proposal) ;;
  if negb (zano_height candidate =? pp_zano_height proposal) ||
     negb (arr_eqb (mining_header_hash candidate) proposal_header) ||
     negb (arr_eqb (network_difficulty candidate) (pp_network_difficulty proposal))
  then exec_ret (bare RstCandidateMismatch)
  else if negb (is_zero_share_id (parent_id candidate)) &&
          negb match find chain (parent_id candidate) with
               | Some parent => validated_ancestry parent
               | None => false
               end
  then exec_ret (bare RstParentUnvalidated)
  else
  initial <- on_world (audit_historical_local_anchor lookup None proposal local_observations) ;;
  if negb (bool_decide (ha_status initial = AnchorMatchedUntrusted)) ||
     negb (arr_eqb (ha_mining_header_hash initial) proposal_header)
  then exec_ret (early RstAnchorRejected initial default_anchor_result)
  else
  final <- on_world (audit_historical_local_anchor lookup None proposal local_observations) ;;
  if negb (bool_decide (ha_status final = AnchorMatchedUntrusted)) ||
     negb (arr_eqb (ha_mining_header_hash final) (ha_mining_header_hash initial))
  then exec_ret (early RstAnchorChangedBeforeRevalidation initial final)
  else
  let trusted_context :=
    mkContext (pp_zano_height proposal) proposal_header (pp_network_difficulty proposal) in
  share_result <- on_state (revalidate_connected_share id trusted_context now mode) ;;
  exec_ret (mkRestartReval (restart_status_of (reval_status share_result)) id initial final
              share_result)
  end.

(** ** Recovering the replayed history *)

(** [work_index]: under each key the smallest content id of a local record. *)
Fixpoint index_work (archive_id : Hash256) (dir : Directory) (ids : list Hash256)
    (work_index : gmap RecoveryWorkKey Hash256) : res (gmap RecoveryWorkKey Hash256) :=
  match ids with
  | [] => Ok work_index
  | proposal_id :: rest =>
      (payload ← archive_read archive_id dir proposal_id;
      proposal ← deserialize_p2p_mining_context_payload payload;
      header ← validate_p2p_mining_context_structure proposal;
      let key := (pp_zano_height proposal, header, pp_network_difficulty proposal) in
      index_work archive_id dir rest
        match work_index !! key with
        | None => <[key := proposal_id]> work_index
        | Some known => if arr_lt proposal_id known then <[key := proposal_id]> work_index
                        else work_index
        end)%stdpp
  end.

(** The order of the pass; ids of the same chain, so [find] succeeds. *)
Definition recovery_height (c : ShareChain) (id : ShareId) : Z :=
  match find c id with Some e => share_height (cs_share e) | None => 0 end.
Definition recovery_le (c : ShareChain) (a b : ShareId) : Prop :=
  height_id_lt (recovery_height c b) b (recovery_height c a) a = false.
#[export] Instance recovery_le_dec c a b : Decision (recovery_le c a b).
Proof. unfold recovery_le. apply _. Defined.

(** One round of the pass: the counters and the mismatched roots so far. *)
Definition recover_share (params : SidechainParameters) (archive_id : Hash256) (dir : Directory)
    (work_index : gmap RecoveryWorkKey Hash256) (observations : list P2pMiningAnchor)
    (now : Z) (mode : ProgPowZContextMode) (id : ShareId)
    (acc : RestartRecoveryResult * list ShareId)
    : exec (ShareChain * W) (RestartRecoveryResult * list ShareId) :=
  let '(result, roots) := acc in
  let result := consider result in
  chain <- on_state exec_get ;;
  match find chain id with
  | None => exec_throw RuntimeError "connected share disappeared during restart recovery"
  | Some connected =>
  if validated_ancestry connected then exec_ret (count CountAlready result, roots)
  else
  let candidate := cs_share connected in
  match work_index !! (zano_height candidate, mining_header_hash candidate,
                       network_difficulty candidate) with
  | None => exec_ret (count CountMissing result, roots)
  | Some proposal_id =>
      crossing <- revalidate_recovered_share params id archive_id dir proposal_id observations
                    now mode ;;
      exec_ret (count (counted_of (rr_status crossing)) result,
                if bool_decide (rr_status crossing = RstAnchorRejected) &&
                   bool_decide (ha_status (rr_initial_anchor crossing) = AnchorParentMismatch)
                then roots ++ [id] else roots)
  end
  end.

Fixpoint recover_loop (params : SidechainParameters) (archive_id : Hash256) (dir : Directory)
    (work_index : gmap RecoveryWorkKey Hash256) (observations : list P2pMiningAnchor)
    (now : Z) (mode : ProgPowZContextMode) (ids : list ShareId)
    (acc : RestartRecoveryResult * list ShareId)
    : exec (ShareChain * W) (RestartRecoveryResult * list ShareId) :=
  match ids with
  | [] => exec_ret acc
  | id :: rest =>
      acc <- recover_share params archive_id dir work_index observations now mode id acc ;;
      recover_loop params archive_id dir work_index observations now mode rest acc
  end.

(** The pruning loop. *)
Fixpoint prune_roots (roots : list ShareId) (result : RestartRecoveryResult)
    : exec ShareChain RestartRecoveryResult :=
  match roots with
  | [] => exec_ret result
  | root :: rest =>
      removed <- prune_connected_subtree root ;;
      prune_roots rest (add_pruned removed result)
  end.

Definition recover_replayed_history (params : SidechainParameters) (archive_id : Hash256)
    (dir : Directory) (now : Z) (mode : ProgPowZContextMode) (max_archive_records : Z)
    : exec (ShareChain * W) RestartRecoveryResult :=
  matches <- on_state (exec_const (λ c, matches_sidechain_parameters c params)) ;;
  if negb matches then exec_throw RuntimeError "restart recovery sidechain parameter mismatch"
  else
  proposal_ids <- exec_const (λ _, list_ids archive_id dir max_archive_records) ;;
  observations <- exec_const (λ _, load_local_mining_anchors archive_id dir max_archive_records) ;;
  if negb (length observations =? length proposal_ids)%nat
  then exec_throw RuntimeError "mining-work archive enumeration changed during recovery"
  else
  work_index <- exec_const (λ _, index_work archive_id dir proposal_ids ∅) ;;
  chain <- on_state exec_get ;;
  let share_ids := merge_sort (recovery_le chain) (connected_share_ids chain) in
  acc <- recover_loop params archive_id dir work_index observations now mode share_ids
           (mkRecovery (length proposal_ids) 0 0 0 0 0 0 0, []) ;;
  on_state (prune_roots acc.2 acc.1).

End Recovery.

Definition restart_revalidation_status_name (s : RestartRevalidationStatus) : string :=
  match s with
  | RstRevalidated => "revalidated"
  | RstAlreadyValidated => "already-validated"
  | RstShareMissing => "share-missing"
  | RstParameterMismatch => "parameter-mismatch"
  | RstCandidateMismatch => "candidate-mismatch"
  | RstParentUnvalidated => "parent-unvalidated"
  | RstAnchorRejected => "anchor-rejected"
  | RstAnchorChangedBeforeRevalidation => "anchor-changed-before-revalidation"
  | RstShareRejected => "share-rejected"
  end.

(** ** What a recovery establishes *)

Section Evidence.
Context `{!ProgPow, !JsonC} {W : Type} (lookup : Z → exec W RpcCanonicalHeader).
Context (archive_id : Hash256) (dir : Directory) (observations : list P2pMiningAnchor).
Context (now : Z) (mode : ProgPowZContextMode).

(** This node's archive holds the template [p] that the share was mined on. *)
Definition archived (s : Share) (p : P2pMiningContextProposal) : Prop :=
  (∃ id payload, archive_read archive_id dir id = Ok payload ∧
     deserialize_p2p_mining_context_payload payload = Ok p) ∧
  validate_p2p_mining_context_structure p = Ok (mining_header_hash s) ∧
  zano_height s = pp_zano_height p ∧ network_difficulty s = pp_network_difficulty p.

Definition share_context (s : Share) : ShareWorkContext :=
  mkContext (zano_height s) (mining_header_hash s) (network_difficulty s).

(** What marks a replayed share: its own template, archived here, on the parent
    the daemon names, the node's own observation, and a proof of work. *)
Definition earned (s : Share) (v : CandidateValidation) : Prop :=
  (∃ p, archived s p ∧ progpowz_seed (pp_zano_height p) = Ok (pp_seed p) ∧
     canonical_at lookup (pp_zano_height p - 1) (pp_prev_hash p) ∧
     proposal_anchor p ∈ observations) ∧
  proven s (share_context s) now mode v.

(** The archived template is on another parent than the daemon's. *)
Definition stale (s : Share) : Prop :=
  ∃ p hash, archived s p ∧ hash ≠ pp_prev_hash p ∧
    canonical_at lookup (pp_zano_height p - 1) hash.

Lemma parent_mismatch p s r s' :
  audit_historical_parent lookup p s = (Ok r, s') → hp_status r = ParentMismatch →
  ∃ hash, hash ≠ pp_prev_hash p ∧ canonical_at lookup (pp_zano_height p - 1) hash.
Proof.
  intros Ha Hst. revert Ha. unfold audit_historical_parent. destruct (_ =? 0); [done|].
  intros (header & s1 & Hv & Ha)%exec_bind_ok. unfold exec_const in Hv. injection Hv as Hv <-.
  apply exec_bind_ok in Ha as ([h1 b1] & s2 & H1 & Ha).
  apply exec_bind_ok in Ha as ([h2 b2] & s3 & H2 & Ha). cbn [ch_height ch_hash] in Ha.
  destruct (_ || _) eqn:E; [done|]. bool_prop. subst. injection Ha as <- <-. cbn [hp_status] in Hst.
  destruct (arr_eqb b1 b2) eqn:Eb; cbn [negb] in Hst; [|done]. bool_prop. subst b2.
  destruct (arr_eqb b1 (pp_prev_hash p)) eqn:Ep; [done|]. exists b1. split.
  - intros ->. by rewrite arr_eqb_refl in Ep.
  - by exists s, s2, s3.
Qed.

Lemma audit_mismatch pow p s r s' :
  audit_historical_local_anchor lookup pow p observations s = (Ok r, s') →
  ha_status r = AnchorParentMismatch →
  ∃ hash, hash ≠ pp_prev_hash p ∧ canonical_at lookup (pp_zano_height p - 1) hash.
Proof.
  unfold audit_historical_local_anchor. intros (seed & s1 & Hs & Ha)%exec_bind_ok Hst.
  apply exec_bind_ok in Ha as (parent & s2 & Hp & Ha). cbv zeta in Ha.
  destruct (hp_status parent) eqn:Eps; [|by eapply parent_mismatch|by injection Ha as <- <-].
  destruct (negb _); [by injection Ha as <- <-|].
  destruct (observations_loop _ _ _ _ _) as [n [[]|[o|]]]; [by injection Ha as <- <-| |].
  - destruct (_ || _); by injection Ha as <- <-.
  - apply exec_bind_ok in Ha as (status & s3 & Hh & [= <- <-]). cbn in *. revert Hh.
    unfold audit_pow_history. destruct pow as [pow|]; [|by intros [= <- <-]].
    intros (h & s4 & _ & Hh)%exec_bind_ok. destruct h as [h|]; [|by injection Hh as <- <-].
    subst status. destruct (_ || _); by injection Hh.
Qed.

(** One crossing: it leaves the chain alone, or marks the share it is about. *)
Definition crossing_post (c : ShareChain) (id : ShareId)
    (out : res RestartRevalidationResult * (ShareChain * W)) : Prop :=
  match out with
  | (Ok x, (c', _)) =>
      if bool_decide (rr_status x = RstRevalidated)
      then ∃ e v, connected c !! id = Some e ∧ validated_ancestry e = false ∧
        earned (cs_share e) v ∧ c' = mark id e v c ∧
        ∃ ctx, c' = run_op (OpRevalidate id ctx now mode) c
      else c' = c ∧
        (rr_status x = RstAnchorRejected → ha_status (rr_initial_anchor x) = AnchorParentMismatch →
         ∃ e, connected c !! id = Some e ∧ stale (cs_share e))
  | (Throw _, (c', _)) => c' = c
  end.

Lemma restart_status_revalidated st : restart_status_of st = RstRevalidated → st = Validated.
Proof. by destruct st. Qed.

Lemma unmoved c id x s :
  rr_status x ≠ RstRevalidated → rr_status x ≠ RstAnchorRejected →
  crossing_post c id (Ok x, (c, s)).
Proof. intros H1 H2. unfold crossing_post. by rewrite bool_decide_false. Qed.

Lemma crossing_outcome c s id params proposal_id :
  chain_inv c → is_u64 now →
  crossing_post c id (revalidate_recovered_share lookup params id archive_id dir proposal_id
    observations now mode (c, s)).
Proof.
  intros Hinv Hnow. unfold revalidate_recovered_share. cbv zeta.
  unfold exec_bind at 1, on_state at 1, exec_const at 1. cbn [fst snd].
  destruct (matches_sidechain_parameters c params) as [b|e]; [|reflexivity].
  destruct (negb b); [by apply unmoved|]. unfold exec_bind at 1, on_state at 1, exec_get. cbn [fst snd].
  destruct (find c id) as [e|] eqn:He; [|by apply unmoved]. destruct (validated_ancestry e) eqn:Hva; [by apply unmoved|].
  unfold exec_bind at 1, exec_const at 1.
  destruct (archive_read archive_id dir proposal_id) as [payload|x] eqn:Hr; [|reflexivity].
  unfold exec_bind at 1, exec_const at 1.
  destruct (deserialize_p2p_mining_context_payload payload) as [p|x] eqn:Hd; [|reflexivity].
  unfold exec_bind at 1, exec_const at 1.
  destruct (validate_p2p_mining_context_structure p) as [header|x] eqn:Hv; [|reflexivity].
  destruct (_ || _ || _) eqn:Em; [by apply unmoved|]. bool_prop.
  assert (archived (cs_share e) p) as Har.
  { split; [by exists proposal_id, payload|]. by split_and!; [congruence|..]. }
  destruct (_ && _); [by apply unmoved|]. unfold exec_bind at 1, on_world at 1. cbn [fst snd].
  destruct (audit_historical_local_anchor lookup None p observations s) as [[initial|x] s1] eqn:Ha1;
    [|reflexivity].
  destruct (_ || _) eqn:Ei.
  { unfold crossing_post. cbn [fst snd exec_ret]. rewrite bool_decide_false by done.
    split; [done|]. intros _ Hm. cbn [rr_initial_anchor] in Hm. exists e. split; [done|].
    destruct (audit_mismatch _ _ _ _ _ Ha1 Hm) as (hash & ? & ?). by exists p, hash. }
  unfold exec_bind at 1, on_world at 1. cbn [fst snd].
  destruct (audit_historical_local_anchor lookup None p observations s1) as [[final|x] s2] eqn:Ha2;
    [|reflexivity].
  match goal with |- context [if ?b then _ else _] => destruct b eqn:Ef end.
  { by apply unmoved. } bool_prop.
  destruct (audit_ok _ _ _ _ _ _ _ Ha2 ltac:(done)) as (Hseed & Hcan & _ & [Hobs|(? & ? & ? & ? & [=] & _)]).
  unfold exec_bind, on_state. cbn [fst snd].
  set (ctx := mkContext _ _ _). destruct (revalidate_connected_share id ctx now mode c) as [r c'] eqn:Erv.
  destruct (revalidate_outcome _ _ _ _ _ _ Hinv Hnow Erv)
    as [[Ec Hs]|(e' & v & He' & Hv' & _ & Hp & _ & E)]; cbn [fst snd] in *.
  - subst c'. destruct r as [r|x]; [|done]. unfold crossing_post, exec_ret. cbn [fst snd rr_status].
    rewrite (bool_decide_false (restart_status_of _ = _))
      by (intros Hst%restart_status_revalidated; by rewrite Hst in Hs).
    split; [done|]. by destruct (reval_status r).
  - injection E as -> ->. unfold crossing_post, exec_ret. cbn [fst snd rr_status reval_status].
    rewrite bool_decide_true by done. unfold find in He. assert (e' = e) as -> by congruence.
    exists e, v. split; [done|]. split; [done|].
    split; [|split; [done|exists ctx; simpl; by rewrite Erv]]. split; [by exists p|]. unfold share_context. subst ctx. by destruct Har as (_ & _ & -> & ->);
      match goal with H : mining_header_hash _ = header |- _ => rewrite H end.
Qed.

(** ** The pass *)

(** [earned_entry e e']: the entry is the same, or newly marked and earned. *)
Definition earned_entry (e e' : ConnectedShare) : Prop :=
  e' = e ∨ (validated_ancestry e = false ∧
    ∃ v, earned (cs_share e) v ∧
      e' = mkConnected (cs_share e) (cs_id e) (cumulative_work e) (Some v) true).

#[local] Instance earned_entry_preorder : PreOrder earned_entry.
Proof.
  split; [by left|]. intros a b d [->|(Ha & v & Hv & ->)] [->|(Hb & w & Hw & ->)]; try done;
    [by left|right|right]; eauto.
Qed.

Definition earns (c c' : ShareChain) : Prop :=
  (∀ id, option_Forall2 earned_entry (connected c !! id) (connected c' !! id)) ∧
  c' = set_connected (connected c') c.

#[local] Instance earns_preorder : PreOrder earns.
Proof.
  split.
  - intros c. split; [intros id; reflexivity|by destruct c].
  - intros a b d [H1 E1] [H2 E2]. split.
    + intros id. by transitivity (connected b !! id).
    + by rewrite E2, E1.
Qed.

Lemma mark_earns c id e v :
  connected c !! id = Some e → validated_ancestry e = false → earned (cs_share e) v →
  earns c (mark id e v c).
Proof.
  intros He Hv Hc. split; [|done]. intros i. cbn. destruct (decide (i = id)) as [->|].
  - rewrite lookup_insert_eq, He. constructor. right. eauto.
  - by rewrite lookup_insert_ne.
Qed.

Lemma earns_lookup_l c c' id e :
  earns c c' → connected c !! id = Some e →
  ∃ e', connected c' !! id = Some e' ∧ earned_entry e e' ∧ cs_share e' = cs_share e.
Proof.
  intros [Hf _] He. specialize (Hf id). rewrite He in Hf. inversion Hf as [? e' Hee|]; subst.
  exists e'. split; [done|]. split; [done|]. destruct Hee as [->|(_ & v & _ & ->)]; done.
Qed.

Lemma earns_none c c' id : earns c c' → connected c !! id = None → connected c' !! id = None.
Proof. intros [Hf _] He. specialize (Hf id). rewrite He in Hf. by inversion Hf. Qed.

(** How many connected shares are validated. *)
Definition validated_shares (c : ShareChain) : nat :=
  size (filter (λ ie, validated_ancestry ie.2 = true) (connected c)).

Lemma mark_validated c id e v :
  connected c !! id = Some e → validated_ancestry e = false →
  validated_shares (mark id e v c) = S (validated_shares c).
Proof.
  intros He Hv. unfold validated_shares, mark. cbn [connected set_connected].
  rewrite map_filter_insert_True by done. apply map_size_insert_None.
  apply map_lookup_filter_None. right. intros x Hx. cbn. congruence.
Qed.

(** The sum of the five counters of a pass. *)
Definition tally (r : RestartRecoveryResult) : nat :=
  rc_revalidated r + rc_already_validated r + rc_missing_local_work r +
  rc_parent_unvalidated r + rc_rejected r.

Lemma count_tally k r :
  tally (count k r) = S (tally r) ∧
  rc_connected_considered (count k r) = rc_connected_considered r ∧
  rc_archive_records (count k r) = rc_archive_records r ∧
  rc_pruned_connected_shares (count k r) = rc_pruned_connected_shares r ∧
  rc_revalidated (count k r) = (match k with CountRevalidated => 1 | _ => 0 end + rc_revalidated r)%nat.
Proof. destruct r, k; cbv [tally]; cbn; split_and!; lia. Qed.

(** A share that the pass removes: unvalidated and archived on a stale parent. *)
Definition stale_root (c : ShareChain) (id : ShareId) : Prop :=
  ∃ e, connected c !! id = Some e ∧ validated_ancestry e = false ∧ stale (cs_share e).

Definition pass_post (c : ShareChain) (acc : RestartRecoveryResult * list ShareId)
    (ids : list ShareId) (out : res (RestartRecoveryResult * list ShareId) * (ShareChain * W)) : Prop :=
  match out with
  | (Ok (r, roots), (c', _)) =>
      reachable c' ∧ earns c c' ∧
      (∀ i, i ∉ ids → connected c' !! i = connected c !! i) ∧
      (tally r = length ids + tally acc.1)%nat ∧
      (rc_connected_considered r = length ids + rc_connected_considered acc.1)%nat ∧
      rc_archive_records r = rc_archive_records acc.1 ∧
      rc_pruned_connected_shares r = rc_pruned_connected_shares acc.1 ∧
      (validated_shares c' + rc_revalidated acc.1 = validated_shares c + rc_revalidated r)%nat ∧
      (∀ root, root ∈ roots → root ∈ acc.2 ∨ (root ∈ ids ∧ stale_root c' root))
  | (Throw _, (c', _)) => reachable c' ∧ earns c c'
  end.

Lemma recover_share_post params index id acc c s :
  reachable c → is_u64 now →
  pass_post c acc [id]
    (recover_share lookup params archive_id dir index observations now mode id acc (c, s)).
Proof.
  intros Hc Hnow. destruct acc as [r roots]. unfold recover_share. cbv zeta.
  unfold exec_bind at 1, on_state at 1, exec_get. cbn [fst snd].
  assert (∀ k, k ≠ CountRevalidated →
    pass_post c (r, roots) [id] (Ok (count k (consider r), roots), (c, s))) as Hsame.
  { intros k Hk. unfold pass_post. cbn [fst snd]. destruct (count_tally k (consider r)) as (-> & -> & -> & -> & ->).
    destruct r, k; try done; cbv [tally]; cbn; split_and!; try done; try lia; by left. }
  destruct (find c id) as [e|] eqn:He; [|done].
  destruct (validated_ancestry e) eqn:Hva; [by apply Hsame|].
  destruct (index !! _) as [pid|]; [|by apply Hsame]. unfold exec_bind.
  pose proof (crossing_outcome c s id params pid (proj1 (reachable_good c Hc)) Hnow) as Hx.
  destruct (revalidate_recovered_share _ _ _ _ _ _ _ _ _ _) as [[x|x] [c' s']]; cbn [exec_ret].
  2:{ cbn in Hx. by subst. }
  unfold crossing_post in Hx. destruct (decide (rr_status x = RstRevalidated)) as [E|E].
  - rewrite bool_decide_true in Hx by done. rewrite E. cbn [counted_of].
    destruct Hx as (e' & v & He' & _ & Hearn & -> & ctx & Hop).
    unfold find in He. assert (e' = e) as -> by congruence.
    unfold pass_post, exec_ret. cbn [fst snd].
    destruct (count_tally CountRevalidated (consider r)) as (-> & -> & -> & -> & ->).
    rewrite (bool_decide_false (RstRevalidated = _)) by done. cbn [andb].
    rewrite (mark_validated c id e v) by done. split; [rewrite Hop; by apply reach_step|].
    split; [by apply mark_earns|].
    split; [intros i Hi; apply lookup_insert_ne; set_solver|]. destruct r; cbv [tally]; cbn; split_and!; try done; try lia; by left.
  - rewrite bool_decide_false in Hx by done. destruct Hx as [-> Hst].
    destruct (Hsame (counted_of (rr_status x))) as (? & ? & ? & ? & ? & ? & ? & ? & _).
    { by destruct (rr_status x). }
    do 8 (split; [done|]). intros root.
    destruct (decide (rr_status x = RstAnchorRejected)) as [E1|E1];
      [|rewrite (bool_decide_false (rr_status x = _)) by done; by left].
    destruct (decide (ha_status (rr_initial_anchor x) = AnchorParentMismatch)) as [E2|E2];
      [|rewrite (bool_decide_false (ha_status _ = _)), andb_false_r by done; by left].
    rewrite !bool_decide_true by done. cbn [andb fst snd].
    intros [?|Hi%list_elem_of_singleton]%elem_of_app; [by left|right]. subst root.
    split; [by left|].
    destruct (Hst E1 E2) as (e' & He' & ?). unfold find in He. assert (e' = e) as -> by congruence.
    by exists e.
Qed.

Lemma stale_root_earns c c' id : earns c c' → stale_root c' id → stale_root c id.
Proof.
  intros Hm (e' & He' & Hv & Hs). destruct (connected c !! id) as [e|] eqn:He.
  - destruct (earns_lookup_l _ _ _ _ Hm He) as (e2 & He2 & Hee & Hsh).
    assert (e2 = e') as -> by congruence. exists e. split; [done|]. rewrite Hsh in Hs.
    split; [|done]. by destruct Hee as [<-|[? _]].
  - rewrite (earns_none _ _ _ Hm He) in He'. done.
Qed.

Lemma descendant_earned c c' root i :
  earns c c' → descendant (connected c') root i → descendant (connected c) root i.
Proof.
  intros Hm. apply rtc_subrel. intros p j (e' & He' & Hr & Hp).
  destruct (connected c !! j) as [e|] eqn:He; [|by rewrite (earns_none _ _ _ Hm He) in He'].
  destruct (earns_lookup_l _ _ _ _ Hm He) as (e2 & He2 & _ & Hsh).
  assert (e2 = e') as -> by congruence. exists e. by rewrite <-Hsh.
Qed.

Lemma recover_loop_post params index ids : ∀ acc c s,
  NoDup ids → reachable c → is_u64 now →
  pass_post c acc ids
    (recover_loop lookup params archive_id dir index observations now mode ids acc (c, s)).
Proof.
  induction ids as [|id ids IH]; intros acc c s Hnd Hc Hnow; cbn [recover_loop].
  { destruct acc as [r roots]. unfold pass_post. split_and!; try done; try lia. by left. }
  apply NoDup_cons in Hnd as [Hid Hnd].
  unfold exec_bind. pose proof (recover_share_post params index id acc c s Hc Hnow) as H1.
  destruct (recover_share _ _ _ _ _ _ _ _ _ _ _) as [[[r1 roots1]|x] [c1 s1]]; [|done].
  destruct H1 as (Hc1 & Hm1 & Hk1 & Ht1 & Hn1 & Ha1 & Hp1 & Hv1 & Hr1).
  specialize (IH (r1, roots1) c1 s1 Hnd Hc1 Hnow). unfold pass_post in IH |- *.
  destruct (recover_loop _ _ _ _ _ _ _ _ _ _ _) as [[[r2 roots2]|x] [c2 s2]].
  - destruct IH as (Hc2 & Hm2 & Hk2 & Ht2 & Hn2 & Ha2 & Hp2 & Hv2 & Hr2). cbn [fst snd length] in *.
    split; [done|]. split; [by transitivity c1|]. split; [|split_and!; try lia; try congruence].
    + intros i Hi. rewrite Hk2, Hk1; [done|set_solver|set_solver].
    + intros root Hroot. destruct (Hr2 root Hroot) as [Hin|[Hi Hst]]; [|right; split; [by right|done]].
      destruct (Hr1 root Hin) as [?|[->%list_elem_of_singleton (e & He & Hst)]]; [by left|right].
      split; [by left|]. exists e. by rewrite Hk2.
  - destruct IH. split; [done|by transitivity c1].
Qed.

End Evidence.

(** ** Pruning the stale roots *)

Section Prune.
Context `{!ProgPow}.

(** Nothing below an unvalidated share is validated. *)
Lemma descendant_unvalidated c root r0 i e :
  chain_inv c → connected c !! root = Some r0 → validated_ancestry r0 = false →
  descendant (connected c) root i → connected c !! i = Some e → validated_ancestry e = false.
Proof.
  intros Hinv Hr0 Hv0 Hd. revert i Hd e.
  refine (rtc_ind_r _ root _ _); [intros e He; congruence|].
  intros p i _ (e' & He' & Hroot & Hp) IH e He. assert (e' = e) as -> by congruence.
  destruct (validated_ancestry e) eqn:Hv; [|done].
  destruct (eo_validated _ _ _ (pi_entry _ _ _ Hinv i e He) Hv) as (_ & _ & _ & [?|(q & Hq & Hqv)]);
    [congruence|]. rewrite Hp in Hq. specialize (IH q Hq). congruence.
Qed.

Lemma validated_shares_filter c c' :
  connected c' ⊆ connected c →
  (∀ i e, connected c !! i = Some e → connected c' !! i = None → validated_ancestry e = false) →
  validated_shares c' = validated_shares c.
Proof.
  intros Hsub Hgone. unfold validated_shares. f_equal. apply map_eq. intros i.
  apply option_eq. intros x. rewrite !map_lookup_filter_Some. cbn. split; intros [Hi Hv].
  - split; [by eapply lookup_weaken|done].
  - split; [|done]. destruct (connected c' !! i) as [e|] eqn:He.
    + pose proof (lookup_weaken _ _ _ _ He Hsub). congruence.
    + rewrite (Hgone i x Hi He) in Hv. done.
Qed.

Lemma prune_roots_post roots : ∀ r c,
  reachable c →
  (∀ root e, root ∈ roots → connected c !! root = Some e → validated_ancestry e = false) →
  ∃ n c', prune_roots roots r c = (Ok (add_pruned n r), c') ∧ reachable c' ∧
    orphans c' = orphans c ∧ connected c' ⊆ connected c ∧
    (size (connected c) = size (connected c') + n)%nat ∧
    validated_shares c' = validated_shares c ∧
    (∀ i, is_Some (connected c !! i) → (connected c' !! i = None ↔
       ∃ root, root ∈ roots ∧ is_Some (connected c !! root) ∧ descendant (connected c) root i)).
Proof.
  induction roots as [|root roots IH]; intros r c Hc Hun; cbn [prune_roots].
  { exists 0%nat, c. split; [by destruct r; cbn; rewrite Nat.add_0_r|].
    split; [done|]. split; [done|]. split; [done|]. split; [lia|]. split; [done|]. intros i [e ->]. split; [done|]. intros (? & ?%elem_of_nil & _). done. }
  pose proof (proj1 (reachable_good c Hc)) as Hinv.
  destruct (prune_count c root Hinv) as (n1 & c1 & Hp & Hinv1 & Ho & Hsub & Hsz & Hgone & Hkeep).
  assert (reachable c1) as Hc1.
  { replace c1 with (run_op (OpPrune root) c) by (simpl; by rewrite Hp). by apply reach_step. }
  assert (validated_shares c1 = validated_shares c) as Hvs.
  { apply validated_shares_filter; [done|]. intros i e He Hn.
    apply Hgone in Hn as [[r0 Hr0] Hd]; [|eauto].
    eapply (descendant_unvalidated c root r0 i e); try done. apply (Hun root r0); [by left|done]. }
  destruct (IH (add_pruned n1 r) c1 Hc1) as (n & c' & Hl & Hc' & Ho' & Hsub' & Hsz' & Hvs' & Hgone').
  { intros root' e Hin He. apply (Hun root' e); [by right|by eapply lookup_weaken]. }
  exists (n1 + n)%nat, c'. unfold exec_bind. rewrite Hp. split.
  { rewrite Hl. destruct r; cbn. by rewrite Nat.add_assoc. }
  split_and!; try done; [congruence|by etrans|lia|congruence|].
  intros i Hi. destruct (connected c1 !! i) as [e|] eqn:Hi1.
  - rewrite (Hgone' i) by eauto. split; intros (root' & Hin & [r0 Hr0] & Hd).
    + exists root'. split; [by right|]. split; [by eexists; eapply lookup_weaken|].
      by eapply descendant_mono.
    + apply elem_of_cons in Hin as [->|Hin].
      * exfalso. assert (connected c1 !! i = None) as Hn by (apply Hgone; [done|split; [by eexists|done]]).
        congruence.
      * assert (is_Some (connected c1 !! root')) as Hr1.
        { destruct (connected c1 !! root') as [x|] eqn:Hx; [by eexists|]. exfalso.
          assert (connected c1 !! i = None) as Hn; [|congruence].
          apply Hgone in Hx as [Hr Hd0]; [|by eexists]. apply Hgone; [done|]. split; [done|].
          unfold descendant in *. by etrans. }
        exists root'. split; [done|]. split; [done|]. apply Hkeep; [done|]. by eexists.
  - split; [intros _|].
    + apply Hgone in Hi1 as [Hr Hd]; [|done]. exists root. split; [by left|done].
    + intros _. destruct (connected c' !! i) as [e|] eqn:E; [|done].
      pose proof (lookup_weaken _ _ _ _ E Hsub'). congruence.
Qed.

End Prune.

(** ** The recovery theorem *)

Section Recover.
Context `{!ProgPow, !JsonC} {W : Type} (lookup : Z → exec W RpcCanonicalHeader).


End Recover.

(** ** The cache across a restart *)

Section CacheSpec.
Context `{!ProgPow} {W : Type} (lookup : Z → exec W RpcCanonicalHeader).

(** Two reads of one height that agree on [hash]. *)
Definition stable_at (height : Z) (hash : Hash256) (s s' : W) : Prop :=
  ∃ s1, lookup height s = (Ok (mkCanonical height hash), s1) ∧
    lookup height s1 = (Ok (mkCanonical height hash), s').

Lemma stable_checkpoint checkpoint hash s s' :
  cp_block_hash checkpoint ≠ arr_zero 32 → hash ≠ arr_zero 32 →
  stable_at (cp_zano_height checkpoint) hash s s' →
  stable_canonical_checkpoint_matches lookup checkpoint s =
    (Ok (arr_eqb hash (cp_block_hash checkpoint)), s').
Proof.
  intros Hcp Hh (s1 & H1 & H2). unfold stable_canonical_checkpoint_matches, exec_bind.
  rewrite (proj2 (arr_eqb_false _ _) Hcp), H1, H2. cbn [ch_height ch_hash].
  by rewrite Z.eqb_refl, (proj2 (arr_eqb_false _ _) Hh), arr_eqb_refl.
Qed.

Lemma stable_parent height s hash s' :
  stable_canonical_parent_for_work_height lookup height s = (Ok hash, s') →
  height ≠ 0 ∧ stable_at (height - 1) hash s s'.
Proof.
  unfold stable_canonical_parent_for_work_height.
  destruct (Z.eqb_spec height 0) as [|Hz]; [done|].
  intros ([h1 b1] & s1 & H1 & Ha)%exec_bind_ok.
  apply exec_bind_ok in Ha as ([h2 b2] & s2 & H2 & Ha). cbn [ch_height ch_hash] in Ha.
  destruct (_ || _) eqn:E; [done|]. destruct (negb (arr_eqb b1 b2)) eqn:Eb; [done|]. bool_prop.
  injection Ha as <- <-. subst. split; [done|]. by exists s1.
Qed.

(** What a persisted cache holds. *)
Lemma persist_saved c params sid height prev f s r f' s' :
  is_u64 height →
  persist_replayed_validation_cache lookup c params sid height prev (f, s) = (Ok r, (f', s')) →
  pv_status r = CacheSaved →
  matches_sidechain_parameters c params = Ok true ∧ prev ≠ arr_zero 32 ∧
  is_u64 (height - 1) ∧ stable_at (height - 1) prev s s' ∧
  ∃ records, replay_validation_snapshot c = Ok records ∧ pv_records_saved r = length records ∧
    export_beyond c height records = Ok false ∧
    save sid (mkSnapshot (mkCheckpoint (height - 1) prev) records) f = (Ok (), f').
Proof.
  intros Hu. unfold persist_replayed_validation_cache. unfold exec_bind at 1, exec_const at 1.
  destruct (matches_sidechain_parameters c params) as [[]|x]; cbn [negb]; [|done|done].
  destruct (Z.eqb_spec height 0) as [|Hz]; [done|].
  destruct (arr_eqb prev (arr_zero 32)) eqn:Ep; [done|]. apply arr_eqb_false in Ep.
  unfold exec_bind at 1, on_world at 1. cbn [fst snd].
  destruct (stable_canonical_parent_for_work_height lookup height s) as [[parent|x] s1] eqn:Es; [|done].
  apply stable_parent in Es as [_ Hst]. destruct (arr_eqb parent (arr_zero 32)); [done|].
  destruct (arr_eqb parent prev) eqn:Epp; cbn [negb]; [|by intros [= <- _ _]]. bool_prop. subst parent.
  unfold exec_bind at 1, exec_const at 1.
  destruct (replay_validation_snapshot c) as [records|x]; [|done].
  unfold exec_bind at 1, exec_const at 1.
  destruct (export_beyond c height records) as [[]|x] eqn:Eb; [by intros [= <- _ _]| |done].
  unfold exec_bind, on_state. cbn [fst snd].
  destruct (save sid _ f) as [[[]|x] f1] eqn:Esave; [|done]. intros [= <- <- <-] _.
  split; [done|]. split; [done|]. split; [unfold is_u64 in *; lia|]. split; [done|]. by exists records.
Qed.

Lemma export_within c height records record e :
  export_beyond c height records = Ok false → record ∈ records →
  connected c !! rec_share_id record = Some e → zano_height (cs_share e) ≤ height.
Proof.
  induction records as [|x records IH]; cbn [export_beyond]; [by intros _ ?%elem_of_nil|].
  unfold find. destruct (connected c !! rec_share_id x) as [ex|] eqn:Ex; [|done].
  destruct (_ =? 0); [done|]. destruct (Z.ltb_spec height (zano_height (cs_share ex))); [done|].
  intros Hb [->|Hin]%elem_of_cons He; [|by apply IH]. assert (e = ex) as -> by congruence. lia.
Qed.

(** C12: the validation cache across a restart.  When the node saved its
    validation state under the parent of the current template and the daemon,
    after the restart, still names that block, twice, at that height, the chain
    read back from the share store becomes exactly the chain that was saved.
    When it stably names another block the cache is stale and the chain stays
    unvalidated; and the saved state never covers a share above the template's
    height. *)
Theorem cache_restart : ∀ params sid height prev c c0 f s r f' s' hash t t',
  reachable c → reachable c0 → marks c0 c →
  (∀ id, is_Some (connected c !! id) → is_zero_share_id id = false) → is_u64 height →
  persist_replayed_validation_cache lookup c params sid height prev (f, s) = (Ok r, (f', s')) →
  pv_status r = CacheSaved → hash ≠ arr_zero 32 → stable_at (height - 1) hash t t' →
  (∀ id e, connected c !! id = Some e → validated_ancestry e = true →
     zano_height (cs_share e) ≤ height) ∧
  let restored status n :=
    Ok (mkRestore status (Some (mkCheckpoint (height - 1) prev)) (pv_records_saved r) n) in
  let out := restore_replayed_validation_cache lookup params sid f' (c0, t) in
  if bool_decide (hash = prev)
  then ∃ n, out = (restored CacheRestored n, (c, t'))
  else out = (restored CacheStale 0%nat, (c0, t')).
Proof.
  intros params sid height prev c c0 f s r f' s' hash t t' Hc H0 Hm Hnz Hu Hp Hst Hh Hstable.
  apply reachable_good in H0 as [H0 _], Hc as [Hinv _].
  destruct (persist_saved _ _ _ _ _ _ _ _ _ _ Hu Hp Hst)
    as (Hmatch & Hprev & Hu' & _ & records & Hs & Hlen & Hbey & Hsave).
  assert (enforces_sidechain_difficulty c = true) as Henf.
  { unfold replay_validation_snapshot in Hs. res_inv. by bool_prop. }
  rewrite ChainReplay.snapshot_ok in Hs by done. injection Hs as <-. split.
  { intros id e He Hv.
    destruct (validated_facts c id e Hinv (conj He Hv)) as (v & Hpv & _).
    eapply (export_within c height _ (mkRecord id v) e); [exact Hbey| |exact He].
    apply elem_of_snapshot; [done|]. by exists e. }
  set (snap := mkSnapshot _ _) in Hsave.
  destruct (save_cases sid snap f Hu') as [[Hok Hsave']|[_ [x Hx]]]; [|congruence].
  rewrite Hsave' in Hsave. injection Hsave as <-. cbv zeta.
  assert (matches_sidechain_parameters c0 params = Ok true) as Hmatch0.
  { unfold matches_sidechain_parameters in *. destruct (marks_fields _ _ Hm) as (_ & _ & _ & _ & <-).
    exact Hmatch. }
  assert (length (sn_records (sorted_snapshot snap)) = pv_records_saved r) as Hl.
  { rewrite Hlen. unfold sorted_snapshot, snap. cbn [sn_records]. by rewrite merge_sort_Permutation. }
  destruct (restore_snapshot c0 c (sn_records (sorted_snapshot snap)) H0 Hinv Hm Henf Hnz
    (merge_sort_Permutation _ _)) as [n Hn].
  assert (load sid (Some (file_of sid (sorted_snapshot snap))) = Ok (Some (sorted_snapshot snap)))
    as Hload by (unfold load; by rewrite parse_file_of).
  unfold restore_replayed_validation_cache, exec_bind, on_state, on_world, exec_const, exec_ret.
  cbn [fst snd]. rewrite Hmatch0. cbn [negb]. rewrite Hload.
  assert (sn_checkpoint (sorted_snapshot snap) = mkCheckpoint (height - 1) prev) as -> by done.
  rewrite (stable_checkpoint _ hash t t') by done. cbn [cp_block_hash fst snd].
  case_bool_decide as E.
  - subst hash. rewrite arr_eqb_refl. exists n. cbn [negb]. rewrite Hl. cbn [fst snd]. by rewrite Hn.
  - rewrite (proj2 (arr_eqb_false _ _) E). cbn [negb]. by rewrite Hl.
Qed.

End CacheSpec.
