(* ===== verification/RpcClient.v ===== *)
(** The JSON-RPC client of the Zano daemon: [include/zano_p2pool/rpc_client.hpp],
    [src/rpc_client.cpp].  curl is a parameter: what it makes of a request body,
    in a world of its own. *)
From S2P Require Import Prelude CryptoHash Share BlockTemplate MiningContext HistoricalTrust.
Local Open Scope pool_scope.

Definition kZanoRpcErrorBlockAddedAsAlternative : Z := -13.

Inductive RpcBlockSubmissionResult := RpcAccepted | RpcAlternativeAccepted.
#[export] Instance RpcBlockSubmissionResult_eq_dec : EqDecision RpcBlockSubmissionResult.
Proof. solve_decision. Defined.

(** [curl_easy_perform]: an error and its text, or the HTTP status and the body. *)
Inductive curl_outcome :=
| CurlError (what : string)
| HttpResponse (status : Z) (body : text).

(** [std::to_string] of a signed number. *)
Definition to_string (z : Z) : string :=
  String.string_of_list_ascii (if z <? 0 then Ascii.ascii_of_nat 45 :: dec_str (- z) else dec_str z).

(** [static_cast<std::int64_t>] of a 64-bit value. *)
Definition to_i64 (z : Z) : Z := if z <? 2 ^ 63 then z else z - 2 ^ 64.

(** [json_object_get_int] and [json_object_get_int64] of a [json_type_int]. *)
Definition json_int (z : Z) : Z := Z.max (- 2 ^ 31) (Z.min z (2 ^ 31 - 1)).
Definition json_int64 (z : Z) : Z := Z.max (- 2 ^ 63) (Z.min z (2 ^ 63 - 1)).

(** [std::from_chars] of a [std::uint64_t]: the value and the rest of the text, or
    nothing on [invalid_argument] and [result_out_of_range]. *)
Fixpoint take_digits (s : text) : text * text :=
  match s with
  | c :: r => if is_digit c then let '(d, rest) := take_digits r in (c :: d, rest) else ([], s)
  | [] => ([], [])
  end.
Definition from_chars_u64 (s : text) : option (Z * text) :=
  match take_digits s with
  | ([], _) => None
  | (d, rest) => let value := digits_value d 0 in
                 if u64_max <? value then None else Some (value, rest)
  end.

Definition text_of (s : string) : text := String.list_ascii_of_string s.

Definition quoted (s : string) : text :=
  Ascii.ascii_of_nat 34 :: text_of s ++ [Ascii.ascii_of_nat 34].

(** A JSON string made with [json_object_new_string(s.c_str())]. *)
Definition json_string (s : text) : json := JString (c_str s).

Section Rpc.
Context `{!JsonC}.

Definition parse_json (s : text) (context : string) : res json :=
  let parsed := json_tokener_parse s in
  if negb (jp_success parsed) || json_is_null (jp_root parsed)
  then throw RuntimeError ("invalid JSON in " +:+ context +:+ ": " +:+ jp_error_desc parsed)
  else Ok (jp_root parsed).

(** The request body of a call. *)
Definition request_body (method : string) (params : json) : text :=
  c_str (json_to_string_plain (JObject
    [("id", JInt 0); ("jsonrpc", json_string (text_of "2.0"));
     ("method", json_string (text_of method)); ("params", params)])).

(** The response of the daemon to a call, as the text of its result. *)
Definition response_result (body : text) : res text :=
  (response ← parse_json body "Zano RPC response";
  _ ← throw_if (match response with JObject _ => false | _ => true end) RuntimeError
        "Zano RPC response is not a JSON object";
  _ ← match json_get response "error" with
      | None | Some JNull => Ok ()
      | Some error_object =>
          match json_get error_object "code", json_get error_object "message" with
          | Some (JInt code), Some (JString message) =>
              throw (RpcError (json_int code))
                ("Zano RPC error " +:+ to_string (json_int code) +:+ ": " +:+
                 String.string_of_list_ascii (c_str message))
          | _, _ =>
              throw RuntimeError
                ("Zano RPC error: " +:+
                 String.string_of_list_ascii (c_str (json_to_string_plain error_object)))
          end
      end;
  match json_get response "result" with
  | None | Some JNull => throw RuntimeError "Zano RPC response has no result"
  | Some result => Ok (c_str (json_to_string_plain result))
  end)%stdpp.

Section Client.
Context {W : Type} (curl_easy_perform : text → W → curl_outcome * W).

Definition call (method : string) (params_json : text) : exec W text :=
  params <- exec_const (λ _, parse_json params_json "RPC params") ;;
  outcome <- (λ w, let '(o, w') := curl_easy_perform (request_body method params) w in (Ok o, w')) ;;
  match outcome with
  | CurlError what => exec_throw RuntimeError ("Zano RPC transport error: " +:+ what)
  | HttpResponse http_status body =>
      if (http_status <? 200) || (300 <=? http_status)
      then exec_throw RuntimeError ("Zano RPC HTTP status " +:+ to_string http_status)
      else exec_const (λ _, response_result body)
  end.

(** [json_to_string(params)]. *)
Definition params_text (params : json) : text := c_str (json_to_string_plain params).

Definition get_block_template (wallet_address extra_text : text) : exec W BlockTemplate :=
  if bool_decide (wallet_address = [])
  then exec_throw InvalidArgument "wallet address is required for getblocktemplate"
  else
  result <- call "getblocktemplate" (params_text (JObject
    [("do_explicit_simulation", JBoolean false); ("explicit_transaction", json_string []);
     ("extra_text", json_string extra_text); ("pos_block", JBoolean false);
     ("stakeholder_address", json_string []); ("wallet_address", json_string wallet_address)])) ;;
  exec_const (λ _, parse_block_template_json result).

(** [field(object, name, type)] of the two history calls: [pick] recognises the
    type. *)
Definition history_field {A} (context : string) (object : json) (name : string)
    (pick : json → option A) : res A :=
  match json_get object name with
  | Some value =>
      match pick value with
      | Some a => Ok a
      | None => throw RuntimeError (context +:+ name)
      end
  | None => throw RuntimeError (context +:+ name)
  end.
Definition as_string (v : json) : option text := match v with JString s => Some s | _ => None end.
Definition as_int (v : json) : option Z := match v with JInt z => Some z | _ => None end.
Definition as_bool (v : json) : option bool := match v with JBoolean b => Some b | _ => None end.
Definition as_object (v : json) : option json := match v with JObject _ => Some v | _ => None end.
Definition as_array (v : json) : option (list json) := match v with JArray l => Some l | _ => None end.

Definition parse_canonical_header (height : Z) (result : text) : res RpcCanonicalHeader :=
  (root ← parse_json result "historical header result";
  let field {A} := @history_field A "invalid historical header field: " in
  status ← field root "status" as_string;
  _ ← throw_if (negb (bool_decide (status = text_of "OK"))) RuntimeError
        "historical header RPC status is not OK";
  header ← field root "block_header" as_object;
  orphan ← field header "orphan_status" as_bool;
  _ ← throw_if orphan RuntimeError "historical header is orphaned";
  encoded_height ← field header "height" as_int;
  _ ← throw_if (negb match from_chars_u64 (c_str (json_to_string_plain (JInt encoded_height))) with
                    | Some (returned_height, []) => returned_height =? height
                    | _ => false
                    end) RuntimeError "historical header height mismatch";
  hex ← field header "hash" as_string;
  _ ← throw_if (negb (length hex =? 64)%nat) RuntimeError "invalid historical header hash length";
  bytes ← hex_to_bytes hex;
  let hash := arr_of 32 bytes in
  _ ← throw_if (arr_eqb hash (arr_zero 32)) RuntimeError "zero historical header hash";
  mret (mkCanonical height hash))%stdpp.

Definition get_canonical_header (height : Z) : exec W RpcCanonicalHeader :=
  result <- call "getblockheaderbyheight"
              (text_of "{" ++ quoted "height" ++ text_of ":" ++ dec_str height ++ text_of "}") ;;
  exec_const (λ _, parse_canonical_header height result).

(** ** The PoW context of a past height *)

Definition context_field {A} : json → string → (json → option A) → res A :=
  history_field "invalid historical PoW context field: ".

Definition uint64_value (value : Z) (name : string) : res Z :=
  let parsed := json_int64 value in
  if parsed <? 0 then throw RuntimeError ("negative historical PoW context field: " +:+ name)
  else Ok parsed.

Definition hash_value (object : json) (name : string) : res Hash256 :=
  (hex ← context_field object name as_string;
  _ ← throw_if (negb (length hex =? 64)%nat) RuntimeError
        ("invalid historical PoW context hash length: " +:+ name);
  bytes ← hex_to_bytes hex;
  let result := arr_of 32 bytes in
  _ ← throw_if (arr_eqb result (arr_zero 32)) RuntimeError
        ("zero historical PoW context hash: " +:+ name);
  mret result)%stdpp.

(** The optionals that the loop over the blocks fills in. *)
Record pow_scan := mkScan {
  ps_parent_id : option Hash256;
  ps_height_prev_id : option Hash256;
  ps_base_reward : option Z;
  ps_pow_difficulty : option Difficulty128;
  ps_pow_height : option Z }.

Definition scan_block (height : Z) (block : json) (scan : pow_scan) : res pow_scan :=
  (_ ← throw_if (match block with JObject _ => false | _ => true end) RuntimeError
        "invalid historical PoW context block entry";
  number ← context_field block "height" as_int;
  block_height ← uint64_value number "height";
  parent_id ← (if block_height =? height - 1
               then Some <$> hash_value block "id" else Ok (ps_parent_id scan));
  height_prev_id ← (if block_height =? height
                    then Some <$> hash_value block "prev_id" else Ok (ps_height_prev_id scan));
  base_reward ← (if block_height =? height
                 then reward ← context_field block "base_reward" as_int;
                      Some <$> uint64_value reward "base_reward"
                 else Ok (ps_base_reward scan));
  if (height <=? block_height) && negb (bool_decide (is_Some (ps_pow_difficulty scan))) then
    type ← context_field block "type" as_int;
    let type := json_int64 type in
    _ ← throw_if (negb (type =? 0) && negb (type =? 1)) RuntimeError
          "invalid historical PoW context block type";
    if type =? 1 then
      difficulty ← context_field block "difficulty" as_string;
      pow_difficulty ← difficulty128_from_decimal difficulty;
      mret (mkScan parent_id height_prev_id base_reward (Some pow_difficulty) (Some block_height))
    else mret (mkScan parent_id height_prev_id base_reward (ps_pow_difficulty scan)
                 (ps_pow_height scan))
  else mret (mkScan parent_id height_prev_id base_reward (ps_pow_difficulty scan)
               (ps_pow_height scan)))%stdpp.

Fixpoint scan_blocks (height : Z) (blocks : list json) (scan : pow_scan) : res pow_scan :=
  match blocks with
  | [] => Ok scan
  | block :: rest => (scan ← scan_block height block scan; scan_blocks height rest scan)%stdpp
  end.

Definition parse_pow_context (height : Z) (result : text) : res (option RpcHistoricalPowContext) :=
  (root ← parse_json result "historical PoW context result";
  status ← context_field root "status" as_string;
  _ ← throw_if (negb (bool_decide (status = text_of "OK"))) RuntimeError
        "historical PoW context RPC status is not OK";
  blocks ← context_field root "blocks" as_array;
  scan ← scan_blocks height blocks (mkScan None None None None None);
  match scan with
  | mkScan (Some parent_id) (Some height_prev_id) (Some base_reward) (Some pow_difficulty)
           (Some pow_height) =>
      _ ← throw_if (negb (arr_eqb parent_id height_prev_id)) RuntimeError
            "historical PoW context canonical parent changed";
      mret (Some (mkPowContext height parent_id pow_difficulty base_reward pow_height))
  | _ => mret None
  end)%stdpp.

Definition get_historical_pow_context (height max_pow_lookahead : Z)
    : exec W (option RpcHistoricalPowContext) :=
  if height =? 0
  then exec_throw InvalidArgument "historical PoW context requires nonzero height"
  else if (max_pow_lookahead =? 0) || (4096 <? max_pow_lookahead)
  then exec_throw InvalidArgument "historical PoW lookahead must be between 1 and 4096"
  else
  result <- call "get_blocks_details" (params_text (JObject
    [("height_start", JInt (to_i64 (height - 1)));
     ("count", JInt (to_i64 (wrap64 (max_pow_lookahead + 2))));
     ("ignore_transactions", JBoolean true)])) ;;
  exec_const (λ _, parse_pow_context height result).

(** ** Submitting a block *)

Definition parse_submit_result (result_text : text) : res RpcBlockSubmissionResult :=
  (result ← parse_json result_text "submitblock result";
  match json_get result "status" with
  | Some (JString status) =>
      let status_text := c_str status in
      _ ← throw_if (negb (bool_decide (status_text = text_of "OK"))) RuntimeError
            ("submitblock returned non-OK status: " +:+ String.string_of_list_ascii status_text);
      mret RpcAccepted
  | _ => throw RuntimeError "submitblock result has no string status"
  end)%stdpp.

Definition rpc_submit_block (block_blob_hex : text) : exec W RpcBlockSubmissionResult :=
  if bool_decide (block_blob_hex = [])
  then exec_throw InvalidArgument "block blob cannot be empty"
  else λ w,
  match call "submitblock" (params_text (JArray [json_string block_blob_hex])) w with
  | (Throw (Exn (RpcError code) what), w') =>
      if code =? kZanoRpcErrorBlockAddedAsAlternative then (Ok RpcAlternativeAccepted, w')
      else (Throw (Exn (RpcError code) what), w')
  | (Throw e, w') => (Throw e, w')
  | (Ok result_text, w') => (parse_submit_result result_text, w')
  end.

End Client.
End Rpc.

(** ** What the history calls return *)

Lemma history_field_ok {A} context object name (pick : json → option A) a :
  history_field context object name pick = Ok a ↔ json_get object name ≫= pick = Some a.
Proof.
  unfold history_field. destruct (json_get object name) as [v|]; [|done]. simpl.
  destruct (pick v); naive_solver.
Qed.

(** A block of [get_blocks_details]. *)
Definition block_number (block : json) : option Z := json_int64 <$> (json_get block "height" ≫= as_int).
Definition block_type (block : json) : option Z := json_int64 <$> (json_get block "type" ≫= as_int).

(** The first PoW block from [height] on, in the order of the list. *)
Record first_pow (height : Z) (blocks : list json) (h : Z) (d : Difficulty128) : Prop := {
  fp_at : ∃ before block after difficulty, blocks = before ++ block :: after ∧
    block_number block = Some h ∧ block_type block = Some 1 ∧
    json_get block "difficulty" ≫= as_string = Some difficulty ∧
    difficulty128_from_decimal difficulty = Ok d ∧
    ∀ b n, b ∈ before → block_number b = Some n → height ≤ n → block_type b = Some 0;
  fp_height : height ≤ h }.

(** What the scan knows after a prefix of the blocks. *)
Record scan_ok (height : Z) (blocks : list json) (scan : pow_scan) : Prop := {
  so_parent : ∀ x, ps_parent_id scan = Some x → ∃ b, b ∈ blocks ∧
    block_number b = Some (height - 1) ∧ hash_value b "id" = Ok x;
  so_height : ∀ x r, ps_height_prev_id scan = Some x → ps_base_reward scan = Some r →
    ∃ b z, b ∈ blocks ∧ block_number b = Some height ∧ hash_value b "prev_id" = Ok x ∧
      json_get b "base_reward" ≫= as_int = Some z ∧ r = json_int64 z ∧ 0 ≤ r;
  so_pow : match ps_pow_difficulty scan, ps_pow_height scan with
           | Some d, Some h => first_pow height blocks h d
           | None, None => ∀ b n, b ∈ blocks → block_number b = Some n → height ≤ n →
               block_type b = Some 0
           | _, _ => False
           end }.

Lemma uint64_value_ok z name v : uint64_value z name = Ok v → v = json_int64 z ∧ 0 ≤ v.
Proof. unfold uint64_value. destruct (Z.ltb_spec (json_int64 z) 0); [done|]. by intros [= <-]. Qed.

Lemma first_pow_snoc height blocks h d b : first_pow height blocks h d → first_pow height (blocks ++ [b]) h d.
Proof.
  intros [(before & block & after & diff & -> & Hb) Hh]. split; [|done].
  exists before, block, (after ++ [b]), diff. by rewrite <-app_assoc.
Qed.

Lemma scan_block_ok height blocks block scan scan' :
  scan_ok height blocks scan → scan_block height block scan = Ok scan' →
  scan_ok height (blocks ++ [block]) scan'.
Proof.
  intros [Hpar Hhei Hpow] Hs. unfold scan_block in Hs.
  apply res_bind_ok in Hs as (_ & _ & Hs). apply res_bind_ok in Hs as (number & Hn & Hs).
  apply history_field_ok in Hn. apply res_bind_ok in Hs as (bh & Hbh & Hs).
  apply uint64_value_ok in Hbh as [-> Hpos].
  assert (block_number block = Some (json_int64 number)) as Hnum by (unfold block_number; by rewrite Hn).
  revert Hs Hpos Hnum. generalize (json_int64 number). intros bh Hs Hpos Hnum.
  apply res_bind_ok in Hs as (parent & Hp & Hs). apply res_bind_ok in Hs as (prev & Hprev & Hs).
  apply res_bind_ok in Hs as (base & Hbase & Hs).
  assert (∀ x, parent = Some x → ∃ b, b ∈ blocks ++ [block] ∧ block_number b = Some (height - 1) ∧
    hash_value b "id" = Ok x) as Hpar'.
  { intros x ->. destruct (Z.eqb_spec bh (height - 1)) as [->|].
    - apply res_fmap_ok in Hp as (y & Hy & [= ->]). exists block. by set_solver.
    - injection Hp as Hp. destruct (Hpar x Hp) as (b & ? & ?). exists b. set_solver. }
  assert (∀ x r, prev = Some x → base = Some r → ∃ b z, b ∈ blocks ++ [block] ∧
    block_number b = Some height ∧ hash_value b "prev_id" = Ok x ∧
    json_get b "base_reward" ≫= as_int = Some z ∧ r = json_int64 z ∧ 0 ≤ r) as Hhei'.
  { intros x r -> ->. destruct (Z.eqb_spec bh height) as [->|].
    - apply res_fmap_ok in Hprev as (y & Hy & [= ->]). apply res_bind_ok in Hbase as (z & Hz & Hb).
      apply history_field_ok in Hz. apply res_fmap_ok in Hb as (v & Hv & [= ->]).
      apply uint64_value_ok in Hv as [-> ?]. exists block, z. set_solver.
    - injection Hprev as Hprev. injection Hbase as Hbase.
      destruct (Hhei x r Hprev Hbase) as (b & z & ? & ?). exists b, z. set_solver. }
  destruct (Z.leb_spec height bh) as [Hle|Hlt]; cbn [andb] in Hs; cycle 1.
  { injection Hs as <-. split; cbn; [done|done|].
    destruct (ps_pow_difficulty scan), (ps_pow_height scan); try done; [by apply first_pow_snoc|].
    intros b n [?|Hx%list_elem_of_singleton]%elem_of_app Hb; [by eapply Hpow|]. subst b.
    rewrite Hnum in Hb. injection Hb as <-. lia. }
  destruct (ps_pow_difficulty scan) as [d|] eqn:Ed.
  { rewrite bool_decide_true in Hs by done. injection Hs as <-. split; cbn; [done|done|].
    destruct (ps_pow_height scan); [by apply first_pow_snoc|done]. }
  rewrite bool_decide_false in Hs by by intros []. cbn [negb] in Hs.
  destruct (ps_pow_height scan) eqn:Eh; [done|].
  apply res_bind_ok in Hs as (ty & Hty & Hs). apply history_field_ok in Hty.
  apply res_bind_ok in Hs as (u & Hck & Hs). apply throw_if_ok in Hck.
  assert (block_type block = Some (json_int64 ty)) as Ht by (unfold block_type; by rewrite Hty).
  destruct (Z.eqb_spec (json_int64 ty) 1) as [E1|E1].
  - apply res_bind_ok in Hs as (diff & Hd & Hs). apply history_field_ok in Hd.
    apply res_bind_ok in Hs as (d & Hdd & [= <-]). split; cbn; [done|done|]. split; [|done].
    exists blocks, block, [], diff. rewrite E1 in Ht. by split_and!.
  - injection Hs as <-. split; cbn; [done|done|].
    intros b n [?|Hx%list_elem_of_singleton]%elem_of_app Hb Hle'; [by eapply Hpow|]. subst b.
    destruct (Z.eqb_spec (json_int64 ty) 0) as [E0|]; [by rewrite Ht, E0|done].
Qed.

Lemma scan_blocks_ok height rest : ∀ blocks scan scan',
  scan_ok height blocks scan → scan_blocks height rest scan = Ok scan' →
  scan_ok height (blocks ++ rest) scan'.
Proof.
  induction rest as [|b rest IH]; intros blocks scan scan' Hok Hs; cbn [scan_blocks] in Hs.
  { injection Hs as <-. by rewrite app_nil_r. }
  apply res_bind_ok in Hs as (scan1 & H1 & H2). rewrite cons_middle, app_assoc.
  eapply IH; [|exact H2]. by eapply scan_block_ok.
Qed.

Section ClientSpec.
Context `{!JsonC} {W : Type} (curl_easy_perform : text → W → curl_outcome * W).

Lemma arr_nonzero_eqb (a : Hash256) : arr_eqb a (arr_zero 32) = false → a ≠ arr_zero 32.
Proof. apply arr_eqb_false. Qed.

Lemma hash_value_nonzero b name x : hash_value b name = Ok x → x ≠ arr_zero 32.
Proof.
  unfold hash_value. intros Hh. apply res_bind_ok in Hh as (hex & _ & Hh).
  apply res_bind_ok in Hh as (u & _ & Hh). apply res_bind_ok in Hh as (bs & _ & Hh).
  apply res_bind_ok in Hh as (u' & Hz & [= <-]). apply throw_if_ok in Hz. by apply arr_nonzero_eqb.
Qed.

(** The header of a height is of that height, and never the zero hash. *)
Lemma canonical_header_ok height w header w' :
  get_canonical_header curl_easy_perform height w = (Ok header, w') →
  ch_height header = height ∧ ch_hash header ≠ arr_zero 32.
Proof.
  intros (result & w1 & _ & Hp)%exec_bind_ok. unfold exec_const in Hp. injection Hp as Hp _.
  unfold parse_canonical_header in Hp. do 11 apply res_bind_ok in Hp as (? & ? & Hp).
  cbv zeta in Hp. apply res_bind_ok in Hp as (u & Hz & [= <-]). apply throw_if_ok in Hz.
  split; [done|]. by apply arr_nonzero_eqb.
Qed.

(** What the daemon is asked for the PoW context of [height]. *)
Definition details_request (height lookahead : Z) : text :=
  params_text (JObject
    [("height_start", JInt (to_i64 (height - 1)));
     ("count", JInt (to_i64 (wrap64 (lookahead + 2))));
     ("ignore_transactions", JBoolean true)]).

(** The PoW context of a past height is the daemon's own history.  A context
    that the client returns was asked for at a height and a lookahead in range,
    and names the block before the height, which one block of the daemon's list
    carries as its id and the block of the height as its predecessor, with that
    block's base reward, and the difficulty of the first block of the list from
    the height on that is proof of work, all those before it being proof of
    stake. *)
Theorem pow_context_sound : ∀ height lookahead w context w',
  0 ≤ lookahead →
  get_historical_pow_context curl_easy_perform height lookahead w = (Ok (Some context), w') →
  height ≠ 0 ∧ 1 ≤ lookahead ≤ 4096 ∧
  pc_height context = height ∧ pc_parent_hash context ≠ arr_zero 32 ∧
  ∃ result root blocks,
    call curl_easy_perform "get_blocks_details" (details_request height lookahead) w =
      (Ok result, w') ∧
    parse_json result "historical PoW context result" = Ok root ∧
    json_get root "status" = Some (JString (text_of "OK")) ∧
    json_get root "blocks" = Some (JArray blocks) ∧
    (∃ b, b ∈ blocks ∧ block_number b = Some (height - 1) ∧
       hash_value b "id" = Ok (pc_parent_hash context)) ∧
    (∃ b z, b ∈ blocks ∧ block_number b = Some height ∧
       hash_value b "prev_id" = Ok (pc_parent_hash context) ∧
       json_get b "base_reward" ≫= as_int = Some z ∧
       pc_block_reward_without_fee context = json_int64 z ∧ 0 ≤ json_int64 z) ∧
    first_pow height blocks (pc_confirming_pow_height context) (pc_network_difficulty context).
Proof.
  intros height lookahead w context w' Hla. unfold get_historical_pow_context.
  destruct (Z.eqb_spec height 0) as [|Hz]; [done|]. destruct (_ || _) eqn:El; [done|].
  apply orb_false_iff in El as [E1%Z.eqb_neq E2%Z.ltb_ge].
  intros (result & w1 & Hcall & Hp)%exec_bind_ok. unfold exec_const in Hp. injection Hp as Hp <-.
  split; [done|]. split; [lia|]. unfold parse_pow_context in Hp.
  apply res_bind_ok in Hp as (root & Hroot & Hp). apply res_bind_ok in Hp as (status & Hst & Hp).
  apply res_bind_ok in Hp as (u & Hok & Hp). apply throw_if_ok, negb_false_iff, bool_decide_eq_true in Hok.
  apply res_bind_ok in Hp as (blocks & Hbl & Hp). apply res_bind_ok in Hp as (scan & Hscan & Hp).
  apply history_field_ok in Hst, Hbl.
  apply (scan_blocks_ok height blocks []) in Hscan as [Hpar Hhei Hpow]; cycle 1.
  { split; cbn; [done|done|]. by intros b n ?%elem_of_nil. }
  destruct scan as [[parent|] [prev|] [base|] [diff|] [ph|]]; try done. cbn [app] in *.
  apply res_bind_ok in Hp as (u' & Hne & [= <-]). apply throw_if_ok, negb_false_iff in Hne. bool_prop.
  subst prev. cbn [pc_height pc_parent_hash pc_block_reward_without_fee pc_confirming_pow_height
    pc_network_difficulty].
  destruct (Hpar parent eq_refl) as (b & Hb & Hn & Hid). split; [done|].
  split; [by eapply hash_value_nonzero|]. exists result, root, blocks. split; [exact Hcall|].
  split; [done|]. split.
  { destruct (json_get root "status") as [[| | | |x| |]|]; try done. simpl in Hst. congruence. }
  split; [destruct (json_get root "blocks") as [[| | | | |x|]|]; try done; simpl in Hbl; congruence|].
  split; [by exists b|]. split; [|exact Hpow].
  destruct (Hhei parent base eq_refl eq_refl) as (b' & z & ? & ? & ? & ? & -> & ?). by exists b', z.
Qed.

End ClientSpec.

(** ** A daemon with two blocks *)

Section Demo.

Definition demo_id (c : nat) : text := replicate 64 (Ascii.ascii_of_nat c).
Definition demo_result : json :=
  JObject
    [("status", json_string (text_of "OK"));
     ("blocks", JArray
       [JObject [("height", JInt 6); ("id", JString (demo_id 49))];
        JObject [("height", JInt 7); ("prev_id", JString (demo_id 49)); ("base_reward", JInt 1000);
                 ("type", JInt 0)];
        JObject [("height", JInt 8); ("type", JInt 1); ("difficulty", JString (text_of "90"))]])].

(** A parser and a printer that know the texts of this exchange only. *)
#[local] Instance demo_json : JsonC := {|
  json_tokener_parse s :=
    mkParsed true ""
      (if bool_decide (s = text_of "body") then JObject [("result", demo_result)]
       else if bool_decide (s = text_of "result") then demo_result else JObject []);
  json_to_string_plain j :=
    match json_get j "status" with Some _ => text_of "result" | None => text_of "params" end |}.

Definition demo_curl (body : text) (calls : nat) : curl_outcome * nat :=
  (HttpResponse 200 (text_of "body"), S calls).

Lemma pow_context_witness :
  ∃ parent d result root blocks,
    get_historical_pow_context demo_curl 7 2 O = (Ok (Some (mkPowContext 7 parent d 1000 8)), 1%nat) ∧
    parse_json result "historical PoW context result" = Ok root ∧
    json_get root "blocks" = Some (JArray blocks) ∧
    first_pow 7 blocks 8 d.
Proof.
  assert (∃ parent d, get_historical_pow_context demo_curl 7 2 O
    = (Ok (Some (mkPowContext 7 parent d 1000 8)), 1%nat)) as (parent & d & Hg).
  { eexists _, _. vm_compute. reflexivity. }
  destruct (pow_context_sound demo_curl 7 2 O _ _ ltac:(lia) Hg)
    as (_ & _ & _ & _ & result & root & blocks & _ & Hp & _ & Hb & _ & _ & Hf).
  exists parent, d, result, root, blocks. split; [exact Hg|]. split; [exact Hp|]. split; [exact Hb|].
  exact Hf.
Defined.

End Demo.
