(* ===== verification/BlockSubmitter.v ===== *)
(** The queue of block candidates for the daemon:
    [include/zano_p2pool/block_submitter.hpp], [src/block_submitter.cpp].  The
    operations that hold the mutex are atomic; the worker thread submits without
    it, so its pass is split where it lets go of the lock. *)
From S2P Require Import Prelude CryptoHash BlockTemplate MiningHeader.
Local Open Scope pool_scope.

(** [bytes[1 + i] = (nonce >> (8 * i)) & 0xff], for [i] below 8. *)
Definition set_nonce (bytes : list byte) (nonce : Z) : list byte :=
  fold_left (λ l i, <[S i := byte_of_Z (Z.land (Z.shiftr nonce (Z.of_nat i * 8)) 255)]> l)
    (seq 0 8) bytes.

Definition block_blob_with_nonce (block_blob_hex : text) (nonce : Z) : res text :=
  (bytes ← hex_to_bytes block_blob_hex;
  _ ← throw_if (length bytes <? 9)%nat RuntimeError "block template is too short to contain nonce";
  mret (bytes_to_hex (set_nonce bytes nonce)))%stdpp.

Record BlockCandidate := mkCandidate {
  bc_zano_height : Z;
  bc_mining_header_hash : Hash256;
  bc_nonce : Z }.

Inductive BlockSubmitStatus := Submitted | AlternativeAccepted | SubmissionFailed.
Inductive BlockSubmissionResult := BlockSubmitted | BlockAlternativeAccepted.

Record BlockSubmitEvent := mkEvent {
  ev_status : BlockSubmitStatus;
  ev_candidate : BlockCandidate;
  ev_error : string }.

Inductive BlockCandidateQueueStatus := Queued | StaleTemplate | QueueFull | Stopped.
#[export] Instance BlockCandidateQueueStatus_eq_dec : EqDecision BlockCandidateQueueStatus.
Proof. solve_decision. Defined.

(** [BlockCandidateQueueResult::operator bool]. *)
Definition candidate_handled (s : BlockCandidateQueueStatus) : bool :=
  match s with Queued | StaleTemplate => true | QueueFull | Stopped => false end.

Record QueuedCandidate := mkQueued { qc_candidate : BlockCandidate; qc_block_blob_hex : text }.

(** Where the worker thread is: there is none, it waits for work, it holds a
    candidate it has taken, its submission of one has ended, or it has left. *)
Inductive worker :=
| NoWorker
| Waiting
| Taken (q : QueuedCandidate)
| Answered (q : QueuedCandidate) (r : res BlockSubmissionResult)
| Left.

Record BlockCandidateSubmitter := mkSubmitter {
  bs_max_templates : nat;
  bs_max_queue : nat;
  bs_running : bool;
  bs_stop_requested : bool;
  bs_templates : gmap Hash256 text;
  bs_template_order : list Hash256;
  bs_queue : list QueuedCandidate;
  bs_worker : worker }.

Definition new_submitter (has_submit : bool) (max_templates max_queue : nat)
    : res BlockCandidateSubmitter :=
  (_ ← throw_if (negb has_submit) InvalidArgument "block submit function is required";
  _ ← throw_if ((max_templates =? 0)%nat || (max_queue =? 0)%nat) InvalidArgument
        "block submitter bounds must be nonzero";
  mret (mkSubmitter max_templates max_queue false false ∅ [] [] NoWorker))%stdpp.

(** Creating the thread is taken to succeed. *)
Definition start : exec BlockCandidateSubmitter () := λ s,
  let '(mkSubmitter mt mq running stop templates order queue w) := s in
  if running then (throw RuntimeError "block submitter is already running", s)
  else (Ok (), mkSubmitter mt mq true false templates order queue Waiting).

(** [stop] up to the join, and after it. *)
Definition request_stop (s : BlockCandidateSubmitter) : BlockCandidateSubmitter :=
  let '(mkSubmitter mt mq running stop templates order queue w) := s in
  if negb running then s else mkSubmitter mt mq running true templates order queue w.
Definition finish_stop (s : BlockCandidateSubmitter) : BlockCandidateSubmitter :=
  let '(mkSubmitter mt mq running stop templates order queue w) := s in
  mkSubmitter mt mq false stop templates order [] NoWorker.

(** [while (templates_.size() > max_templates_ && !template_order_.empty())]. *)
Fixpoint evict (fuel max_templates : nat) (mining_header_hash : Hash256)
    (templates : gmap Hash256 text) (order : list Hash256)
    : option (gmap Hash256 text * list Hash256) :=
  if (size templates <=? max_templates)%nat then Some (templates, order)
  else match order with
  | [] => Some (templates, order)
  | oldest :: order =>
      match fuel with
      | O => None
      | S fuel =>
          if arr_eqb oldest mining_header_hash
          then evict fuel max_templates mining_header_hash templates (order ++ [oldest])
          else evict fuel max_templates mining_header_hash (delete oldest templates) order
      end
  end.

(** Two rounds are enough: one template is over the bound, and the one to keep
    comes to the front at most once before another. *)
Definition remember_template (mining_header_hash : Hash256) (block_blob_hex : text)
    : exec BlockCandidateSubmitter () :=
  do exec_const (λ _, block_blob_with_nonce block_blob_hex 0) ;;
  λ s,
  let '(mkSubmitter mt mq running stop templates order queue w) := s in
  let order := match templates !! mining_header_hash with
               | None => order ++ [mining_header_hash]
               | Some _ => order
               end in
  match evict 2 mt mining_header_hash (<[mining_header_hash := block_blob_hex]> templates) order with
  | None => (throw LogicError "model: fuel exhausted", s)
  | Some (templates, order) => (Ok (), mkSubmitter mt mq running stop templates order queue w)
  end.

Definition enqueue (candidate : BlockCandidate) (s : BlockCandidateSubmitter)
    : BlockCandidateQueueStatus * BlockCandidateSubmitter :=
  let '(mkSubmitter mt mq running stop templates order queue w) := s in
  if negb running || stop then (Stopped, s)
  else match templates !! bc_mining_header_hash candidate with
  | None => (StaleTemplate, s)
  | Some blob =>
      if (mq <=? length queue)%nat then (QueueFull, s)
      else (Queued, mkSubmitter mt mq running stop templates order
                      (queue ++ [mkQueued candidate blob]) w)
  end.

Definition is_running (s : BlockCandidateSubmitter) : bool := bs_running s && negb (bs_stop_requested s).
Definition queued (s : BlockCandidateSubmitter) : nat := length (bs_queue s).
Definition template_count (s : BlockCandidateSubmitter) : nat := size (bs_templates s).

(** ** The worker *)

(** Woken with a stop request or a candidate: leave, or take the first one. *)
Definition worker_wake (s : BlockCandidateSubmitter) : option BlockCandidateSubmitter :=
  let '(mkSubmitter mt mq running stop templates order queue w) := s in
  match w with
  | Waiting =>
      if stop then Some (mkSubmitter mt mq running stop templates order queue Left)
      else match queue with
      | [] => None
      | q :: rest => Some (mkSubmitter mt mq running stop templates order rest (Taken q))
      end
  | _ => None
  end.

(** An accepted candidate retires its template and its siblings. *)
Definition retire (header : Hash256) (s : BlockCandidateSubmitter) : BlockCandidateSubmitter :=
  let '(mkSubmitter mt mq running stop templates order queue w) := s in
  mkSubmitter mt mq running stop (delete header templates)
    (filter (λ h, h ≠ header) order)
    (filter (λ q, bc_mining_header_hash (qc_candidate q) ≠ header) queue) w.

Definition set_worker (w : worker) (s : BlockCandidateSubmitter) : BlockCandidateSubmitter :=
  let '(mkSubmitter mt mq running stop templates order queue _) := s in
  mkSubmitter mt mq running stop templates order queue w.

(** What the worker reports of a submission. *)
Definition submit_event (q : QueuedCandidate) (r : res BlockSubmissionResult) : BlockSubmitEvent :=
  match r with
  | Ok BlockAlternativeAccepted => mkEvent AlternativeAccepted (qc_candidate q) ""
  | Ok BlockSubmitted => mkEvent Submitted (qc_candidate q) ""
  | Throw e => mkEvent SubmissionFailed (qc_candidate q) (exn_what e)
  end.

Section Worker.
Context {W : Type} (submit : text → exec W BlockSubmissionResult).
Context (handler : option (BlockSubmitEvent → exec W ())).

(** [submit_(block_blob_with_nonce(...))], without the lock. *)
Definition worker_submit (q : QueuedCandidate) : exec W BlockSubmissionResult :=
  blob <- exec_const (λ _, block_blob_with_nonce (qc_block_blob_hex q) (bc_nonce (qc_candidate q))) ;;
  submit blob.

(** Whatever the handler throws is dropped. *)
Definition emit (event : BlockSubmitEvent) (w : W) : W :=
  match handler with
  | None => w
  | Some handle => (handle event w).2
  end.

Definition worker_finish (q : QueuedCandidate) (r : res BlockSubmissionResult)
    (s : BlockCandidateSubmitter) : BlockCandidateSubmitter :=
  set_worker Waiting
    match r with
    | Ok _ => retire (bc_mining_header_hash (qc_candidate q)) s
    | Throw _ => s
    end.

End Worker.

Definition block_submit_status_name (s : BlockSubmitStatus) : string :=
  match s with
  | Submitted => "submitted"
  | AlternativeAccepted => "alternative-accepted"
  | SubmissionFailed => "submission-failed"
  end.
Definition block_candidate_queue_status_name (s : BlockCandidateQueueStatus) : string :=
  match s with
  | Queued => "queued"
  | StaleTemplate => "stale-template"
  | QueueFull => "queue-full"
  | Stopped => "stopped"
  end.

(** ** The nonce is not part of the mining header *)

(** The same bytes but for the nonce. *)
Record same_but_nonce (d d' : list byte) : Prop := {
  sn_length : length d' = length d;
  sn_head : d' !! 0%nat = d !! 0%nat;
  sn_tail : ∀ i, (9 ≤ i)%nat → d' !! i = d !! i }.

Lemma same_drop d d' p : same_but_nonce d d' → (9 ≤ p)%nat → drop p d' = drop p d.
Proof.
  intros Hs Hp. apply list_eq. intros i. rewrite !lookup_drop. apply (sn_tail _ _ Hs). lia.
Qed.

(** Readers past the nonce read the same, and stay past it. *)
Class TailRead {A} (m : exec Cursor A) : Prop := tail_read : ∀ d d' p,
  same_but_nonce d d' → (9 ≤ p)%nat →
  ∃ r p1, m (mkCursor d p) = (r, mkCursor d p1) ∧ m (mkCursor d' p) = (r, mkCursor d' p1) ∧ (9 ≤ p1)%nat.

#[local] Instance tail_ret {A} (a : A) : TailRead (exec_ret a).
Proof. intros d d' p Hs Hp. by exists (Ok a), p. Qed.
#[local] Instance tail_throw {A} k what : TailRead (@exec_throw Cursor A k what).
Proof. intros d d' p Hs Hp. by exists (throw k what), p. Qed.
#[local] Instance tail_bind {A B} (m : exec Cursor A) (f : A → exec Cursor B) :
  TailRead m → (∀ a, TailRead (f a)) → TailRead (exec_bind m f).
Proof.
  intros Hm Hf d d' p Hs Hp. destruct (Hm d d' p Hs Hp) as (r & p1 & E & E' & Hp1).
  unfold exec_bind. rewrite E, E'. destruct r as [a|e]; [|by exists (Throw e), p1].
  by apply Hf.
Qed.
#[local] Instance tail_if {A} (b : bool) (m1 m2 : exec Cursor A) :
  TailRead m1 → TailRead m2 → TailRead (if b then m1 else m2).
Proof. by destruct b. Qed.
#[local] Instance tail_require n : TailRead (require n).
Proof.
  intros d d' p Hs Hp. unfold require, exec_const. cbn [cur_data cur_pos].
  rewrite (sn_length _ _ Hs). eexists _, p. by split_and!.
Qed.
#[local] Instance tail_u8 : TailRead read_u8.
Proof.
  unfold read_u8. apply tail_bind; [apply _|]. intros _ d d' p Hs Hp. cbn [cur_data cur_pos].
  eexists _, (S p). split_and!; [done| |lia]. by rewrite !list_lookup_total_alt, (sn_tail _ _ Hs).
Qed.
#[local] Instance tail_skip n : TailRead (skip n).
Proof.
  unfold skip. apply tail_bind; [apply _|]. intros _ d d' p Hs Hp.
  exists (Ok ()), (p + Z.to_nat n)%nat. split_and!; [done|done|lia].
Qed.
#[local] Instance tail_position : TailRead position.
Proof. intros d d' p Hs Hp. by exists (Ok p), p. Qed.
#[local] Instance tail_varint_loop f v s : TailRead (read_varint_loop f v s).
Proof. revert v s. induction f as [|f IH]; intros v s; cbn [read_varint_loop]; apply _. Qed.
#[local] Instance tail_varint : TailRead read_varint := tail_varint_loop 10 0 0.
#[local] Instance tail_count : TailRead read_count.
Proof. unfold read_count. apply _. Qed.
#[local] Instance tail_keys n : TailRead (skip_keys n).
Proof. unfold skip_keys. apply _. Qed.
#[local] Instance tail_hashes n : TailRead (read_hashes n).
Proof.
  induction n as [|n IH]; cbn [read_hashes]; [apply _|]. apply tail_bind; [|apply _].
  intros d d' p Hs Hp. eexists _, p. split_and!; [done| |done]. cbn [cur_data cur_pos].
  by rewrite (same_drop d d' p).
Qed.
#[local] Instance tail_trailer : TailRead trailer_fields.
Proof.
  unfold trailer_fields, proof_fields, proof_shape. repeat (apply tail_bind; [apply _|]; intros ?).
  apply tail_bind; [|intros ?; cbv zeta; apply _].
  intros d d' p Hs Hp. eexists _, p. split_and!; [done| |done]. cbn [cur_data cur_pos].
  by rewrite (sn_length _ _ Hs).
Qed.

Lemma header_fields_skip d n :
  (9 ≤ length d)%nat → header_tail (mkCursor d 9) = (Ok (), mkCursor d n) →
  block_header_fields (mkCursor d 0) = (Ok (), mkCursor d n).
Proof.
  intros Hd Ht. unfold block_header_fields. apply exec_bind_ok.
  exists (byte_to_Z (d !!! 0%nat)), (mkCursor d 1). split.
  { unfold read_u8. apply exec_bind_ok. exists (), (mkCursor d 0).
    split; [apply require_ok; cbn; split_and!; [done|lia|lia]|done]. }
  apply exec_bind_ok. exists (), (mkCursor d 9). split; [|exact Ht].
  unfold skip. apply exec_bind_ok. exists (), (mkCursor d 1).
  split; [apply require_ok; cbn; split_and!; [done|lia|lia]|done].
Qed.

Lemma zero_nonce_same l l' : same_but_nonce l l' → zero_nonce l' = zero_nonce l.
Proof.
  intros Hs. apply list_eq. intros i. destruct (decide (9 ≤ i)%nat).
  { rewrite !zero_nonce_lookup by done. by apply (sn_tail _ _ Hs). }
  unfold zero_nonce. cbn [seq fold_left]. pose proof (sn_length _ _ Hs) as Hlen.
  destruct (decide (i = 0)%nat) as [->|].
  { rewrite !list_lookup_insert_ne by lia. apply (sn_head _ _ Hs). }
  destruct (decide (i < length l)%nat) as [Hi|Hi].
  - assert (i = 1 ∨ i = 2 ∨ i = 3 ∨ i = 4 ∨ i = 5 ∨ i = 6 ∨ i = 7 ∨ i = 8)%nat as Hi8 by lia.
    destruct_or! Hi8; subst i;
      repeat first [rewrite list_lookup_insert_ne by lia
        | rewrite list_lookup_insert_eq by (rewrite ?length_insert; lia)]; done.
  - rewrite !lookup_ge_None_2 by (rewrite ?length_insert; lia). done.
Qed.

Lemma same_take n d d' : same_but_nonce d d' → same_but_nonce (take n d) (take n d').
Proof.
  intros [Hl H0 Ht]. split; [by rewrite !length_take, Hl| |].
  - destruct n; [done|]. by rewrite !lookup_take_lt by lia.
  - intros i Hi. destruct (decide (i < n)%nat); [rewrite !lookup_take_lt by lia; by apply Ht|].
    by rewrite !lookup_take_ge by lia.
Qed.

Lemma trailer_same d d' p :
  same_but_nonce d d' → (9 ≤ p)%nat →
  ((do skip (Z.of_nat p) ;; trailer_fields) (mkCursor d' 0)).1
  = ((do skip (Z.of_nat p) ;; trailer_fields) (mkCursor d 0)).1.
Proof.
  intros Hs Hp. unfold skip, require, exec_const, exec_bind. cbn [cur_data cur_pos].
  rewrite (sn_length _ _ Hs). destruct (throw_if _ _ _) as [[]|x]; [|done].
  destruct (tail_trailer d d' (Z.to_nat (Z.of_nat p)) Hs ltac:(lia)) as (r & p1 & E & E' & _).
  etransitivity; [exact (f_equal fst E')|]. symmetry. exact (f_equal fst E).
Qed.

(** A block blob derives the same work with every nonce. *)
Lemma derive_same_but_nonce d d' w :
  same_but_nonce d d' → derive_mining_header_work d = Ok w → derive_mining_header_work d' = Ok w.
Proof.
  intros Hs Hd. unfold derive_mining_header_work in *.
  apply res_bind_ok in Hd as (h & Hh & Hd). destruct (parse_header_ok _ _ Hh) as (Hn & Hser & Hl & Ht).
  assert (parse_pow_block_header d' = Ok h) as Hh'.
  { unfold parse_pow_block_header.
    assert (header_tail (mkCursor d' 9) = (Ok (), mkCursor d' (bh_serialized_size h))) as Ht'.
    { destruct (local_header_tail _ _ _ _ _ Ht ltac:(lia)) as (_ & _ & Hag).
      apply Hag; [rewrite (sn_length _ _ Hs); lia|]. intros i Hi. apply (sn_tail _ _ Hs). lia. }
    apply header_fields_skip in Ht'; [|rewrite (sn_length _ _ Hs); lia].
    unfold exec_bind. rewrite Ht'. cbn [position cur_pos fst mbind res_bind].
    assert (length (take (bh_serialized_size h) d') = bh_serialized_size h) as Hlt.
    { rewrite length_take, (sn_length _ _ Hs). lia. }
    rewrite Hlt, (proj2 (Nat.ltb_ge _ _)) by lia. cbn [throw_if mbind res_bind].
    rewrite (zero_nonce_same (take (bh_serialized_size h) d)) by (by apply same_take).
    rewrite <-Hser. by destruct h. }
  rewrite Hh'. cbn [mbind res_bind].
  rewrite (same_drop d d') by (done || lia).
  apply res_bind_ok in Hd as (m & -> & Hd). cbn [mbind res_bind].
  apply res_bind_ok in Hd as (t & Htr & Hd).
  assert (parse_hf6_tx_hash_trailer d' (bh_serialized_size h + mp_serialized_size m) = Ok t) as ->.
  2:{ exact Hd. }
  unfold parse_hf6_tx_hash_trailer in *. rewrite (sn_length _ _ Hs).
  apply res_bind_ok in Htr as (u & -> & Htr). cbn [mbind res_bind].
  apply res_bind_ok in Htr as ([off hs] & Ho & Htr).
  rewrite (trailer_same d d') by (done || lia). rewrite Ho. exact Htr.
Qed.

(** The patched blob is the template but for its nonce. *)
Lemma set_nonce_same bytes nonce : (9 ≤ length bytes)%nat → same_but_nonce bytes (set_nonce bytes nonce).
Proof.
  intros Hl. unfold set_nonce. cbn [seq fold_left]. split.
  - by rewrite !length_insert.
  - by rewrite !list_lookup_insert_ne by lia.
  - intros i Hi. by rewrite !list_lookup_insert_ne by lia.
Qed.

Lemma set_nonce_lookup bytes nonce i :
  (9 ≤ length bytes)%nat → (i < 8)%nat →
  set_nonce bytes nonce !! S i = Some (byte_of_Z (nonce / 2 ^ (8 * Z.of_nat i))).
Proof.
  intros Hl Hi. unfold set_nonce. cbn [seq fold_left].
  assert (∀ k, 0 ≤ k →
    byte_of_Z (Z.land (Z.shiftr nonce k) 255) = byte_of_Z (nonce / 2 ^ k)) as Hb.
  { intros k Hk. rewrite Z.shiftr_div_pow2 by done. change 255 with (Z.ones 8).
    rewrite Z.land_ones by done. apply byte_of_Z_mod. }
  assert (i = 0 ∨ i = 1 ∨ i = 2 ∨ i = 3 ∨ i = 4 ∨ i = 5 ∨ i = 6 ∨ i = 7)%nat as Hi8 by lia.
  destruct_or! Hi8; subst i;
    repeat first [rewrite list_lookup_insert_ne by lia
      | rewrite list_lookup_insert_eq by (rewrite ?length_insert; lia)];
    rewrite Hb by lia; done.
Qed.

Lemma block_blob_with_nonce_ok blob nonce blob' :
  block_blob_with_nonce blob nonce = Ok blob' ↔
  ∃ bytes, hex_to_bytes blob = Ok bytes ∧ (9 ≤ length bytes)%nat ∧
    blob' = bytes_to_hex (set_nonce bytes nonce).
Proof.
  unfold block_blob_with_nonce. split.
  - intros H. apply res_bind_ok in H as (bytes & Hb & H).
    apply res_bind_ok in H as (u & Hl%throw_if_ok & H). injection H as <-.
    exists bytes. split_and!; [done| |done]. by apply Nat.ltb_ge in Hl.
  - intros (bytes & -> & Hl & ->). cbn [mbind res_bind].
    by rewrite (proj2 (Nat.ltb_ge _ _)) by done.
Qed.

(** ** Runs of the submitter

    Its public operations, each under the mutex, interleave with the steps of
    the worker in any order. *)

(** What is observed of a run, the latest event first. *)
Inductive sub_event :=
| Remembered (header : Hash256) (blob : text)
| Sent (q : QueuedCandidate)
| Finished (q : QueuedCandidate) (r : res BlockSubmissionResult).

Section Runs.
Context {W : Type} (submit : text → exec W BlockSubmissionResult).
Context (handler : option (BlockSubmitEvent → exec W ())).
Implicit Types s : BlockCandidateSubmitter.

Inductive worker_step : BlockCandidateSubmitter * W → list sub_event →
    BlockCandidateSubmitter * W → Prop :=
| step_wake s s' w : worker_wake s = Some s' → worker_step (s, w) [] (s', w)
| step_submit s q w r w' :
    bs_worker s = Taken q → worker_submit submit q w = (r, w') →
    worker_step (s, w) [Sent q] (set_worker (Answered q r) s, w')
| step_finish s q r w :
    bs_worker s = Answered q r →
    worker_step (s, w) [Finished q r] (worker_finish q r s, emit handler (submit_event q r) w).

Inductive sub_step : BlockCandidateSubmitter * W → list sub_event →
    BlockCandidateSubmitter * W → Prop :=
| step_remember s header blob s' w :
    remember_template header blob s = (Ok (), s') →
    sub_step (s, w) [Remembered header blob] (s', w)
| step_remember_throw s header blob e s' w :
    remember_template header blob s = (Throw e, s') → sub_step (s, w) [] (s', w)
| step_enqueue s c status s' w : enqueue c s = (status, s') → sub_step (s, w) [] (s', w)
| step_start s r s' w : start s = (r, s') → sub_step (s, w) [] (s', w)
| step_stop s w : sub_step (s, w) [] (request_stop s, w)
| step_joined s w :
    bs_stop_requested s = true → bs_worker s = Left → sub_step (s, w) [] (finish_stop s, w)
| step_worker c t c' : worker_step c t c' → sub_step c t c'.

Inductive run (step : BlockCandidateSubmitter * W → list sub_event → BlockCandidateSubmitter * W → Prop) :
    BlockCandidateSubmitter * W → list sub_event → BlockCandidateSubmitter * W → Prop :=
| run_nil c : run step c [] c
| run_snoc c t c' t' c'' : run step c t c' → step c' t' c'' → run step c (t' ++ t) c''.

End Runs.

(** The events of a run since the last acceptance of [header]. *)
Fixpoint since (header : Hash256) (t : list sub_event) : list sub_event :=
  match t with
  | [] => []
  | Finished q (Ok _) as e :: t =>
      if decide (bc_mining_header_hash (qc_candidate q) = header) then [] else e :: since header t
  | e :: t => e :: since header t
  end.

(** The blob was remembered, and its header has not been accepted since. *)
Definition fresh (t : list sub_event) (q : QueuedCandidate) : Prop :=
  let header := bc_mining_header_hash (qc_candidate q) in
  Remembered header (qc_block_blob_hex q) ∈ since header t.

Definition usable (blob : text) : Prop :=
  ∃ bytes, hex_to_bytes blob = Ok bytes ∧ (9 ≤ length bytes)%nat.

(** The template order lists the templates, each once. *)
Definition ordered (templates : gmap Hash256 text) (order : list Hash256) : Prop :=
  NoDup order ∧ ∀ h, h ∈ order ↔ is_Some (templates !! h).

Record sub_inv (s : BlockCandidateSubmitter) (t : list sub_event) : Prop := {
  si_bounds : (1 ≤ bs_max_templates s)%nat ∧ (1 ≤ bs_max_queue s)%nat;
  si_ordered : ordered (bs_templates s) (bs_template_order s);
  si_size : (template_count s ≤ bs_max_templates s)%nat;
  si_queue : (queued s ≤ bs_max_queue s)%nat;
  si_templates : ∀ h b, bs_templates s !! h = Some b → usable b ∧ Remembered h b ∈ since h t;
  si_queued : ∀ q, q ∈ bs_queue s → usable (qc_block_blob_hex q) ∧ fresh t q;
  si_taken : ∀ q, bs_worker s = Taken q → usable (qc_block_blob_hex q) ∧ fresh t q;
  si_idle : bs_running s = false → bs_worker s = NoWorker ∧ bs_queue s = [];
  si_sent : ∀ newer q older, t = newer ++ Sent q :: older →
    usable (qc_block_blob_hex q) ∧ fresh older q }.

Lemma evict_ok mt h templates order :
  (1 ≤ mt)%nat → ordered templates order → (size templates ≤ S mt)%nat → is_Some (templates !! h) →
  ∃ templates' order',
    evict 2 mt h templates order = Some (templates', order') ∧ ordered templates' order' ∧
    (size templates' ≤ mt)%nat ∧ templates' ⊆ templates ∧ templates' !! h = templates !! h.
Proof.
  intros Hmt [Hnd Hdom] Hsz Hh.
  assert (∀ o rest, (mt < size templates)%nat → o ≠ h → NoDup (o :: rest) →
    (∀ x, x ∈ o :: rest ↔ is_Some (templates !! x)) →
    ordered (delete o templates) rest ∧ (size (delete o templates) ≤ mt)%nat ∧
    delete o templates ⊆ templates ∧ delete o templates !! h = templates !! h) as Hdel.
  { intros o rest Hover Ho [Hn Hnd']%NoDup_cons Hd. split_and!.
    - split; [done|]. intros x. specialize (Hd x). rewrite elem_of_cons in Hd.
      destruct (decide (x = o)) as [->|Hx].
      + rewrite lookup_delete_eq. split; [done|by intros []].
      + rewrite lookup_delete_ne by done. rewrite <-Hd. tauto.
    - rewrite map_size_delete. destruct (proj1 (Hd o)) as [b ->]; [by left|]. cbn. lia.
    - apply delete_subseteq.
    - by rewrite lookup_delete_ne. }
  cbn [evict]. destruct (size templates <=? mt)%nat eqn:E1.
  { apply Nat.leb_le in E1. by exists templates, order. }
  apply Nat.leb_gt in E1. destruct order as [|o rest].
  { exfalso. by apply (not_elem_of_nil h), Hdom. }
  destruct (arr_eqb o h) eqn:E2.
  - apply arr_eqb_true in E2 as ->.
    destruct rest as [|o' rest].
    { exfalso. assert (size templates ≤ 1)%nat; [|lia].
      rewrite <-size_dom. assert (dom templates ⊆ {[h]}) as Hsub%subseteq_size.
      { intros x Hx. apply elem_of_dom, Hdom, list_elem_of_singleton in Hx as ->. by apply elem_of_singleton. }
      by rewrite size_singleton in Hsub. }
    assert (o' ≠ h) as Ho. { intros ->. apply NoDup_cons in Hnd as [Hn _]. apply Hn. by left. }
    cbn [app]. rewrite (proj2 (arr_eqb_false _ _) Ho).
    assert (∀ x, x ∈ o' :: rest ++ [h] ↔ is_Some (templates !! x)) as Hdom'.
    { intros x. rewrite <-Hdom, !elem_of_cons, elem_of_app, list_elem_of_singleton. tauto. }
    assert (NoDup (o' :: rest ++ [h])) as Hnd'.
    { change (NoDup ((o' :: rest) ++ [h])). by rewrite <-Permutation_cons_append. }
    destruct (Hdel o' (rest ++ [h]) E1 Ho Hnd' Hdom') as (R1 & R2 & R3 & R4).
    rewrite (proj2 (Nat.leb_le _ _)) by done. by eexists _, _.
  - apply arr_eqb_false in E2. destruct (Hdel o rest E1 E2 Hnd Hdom) as (R1 & R2 & R3 & R4).
    cbn [evict]. rewrite (proj2 (Nat.leb_le _ _)) by done. by eexists _, _.
Qed.

Lemma since_mono h e t x :
  (∀ q r, e = Finished q (Ok r) → bc_mining_header_hash (qc_candidate q) ≠ h) →
  x ∈ since h t → x ∈ since h (e :: t).
Proof.
  intros He Hx. destruct e as [| |q [r|]]; cbn [since]; try (by right).
  rewrite decide_False by (by eapply He). by right.
Qed.

(** Events other than acceptances keep what is known of the templates. *)
Lemma sub_inv_mono s t e :
  (∀ q r, e ≠ Finished q (Ok r)) →
  (∀ q, e = Sent q → usable (qc_block_blob_hex q) ∧ fresh t q) →
  sub_inv s t → sub_inv s (e :: t).
Proof.
  intros He Hs [Hb Ho Hz Hq Ht Hqd Htk Hi Hst].
  assert (∀ h x, x ∈ since h t → x ∈ since h (e :: t)) as Hm.
  { intros h x. apply since_mono. intros q r ->. by destruct (He q r). }
  split; try done.
  - intros h b Hl. destruct (Ht h b Hl). auto.
  - intros q Hl. destruct (Hqd q Hl). unfold fresh. auto.
  - intros q Hl. destruct (Htk q Hl). unfold fresh. auto.
  - intros [|n newer] q older E; [|injection E as -> ->; by eapply Hst].
    injection E as -> ->. by apply Hs.
Qed.

(** Remembering a usable blob, with what it does to the templates. *)
Lemma remember_ok mt mq ru st templates order queue w t h b :
  sub_inv (mkSubmitter mt mq ru st templates order queue w) t → usable b →
  ∃ templates' order',
    remember_template h b (mkSubmitter mt mq ru st templates order queue w)
    = (Ok (), mkSubmitter mt mq ru st templates' order' queue w) ∧
    ordered templates' order' ∧ (size templates' ≤ mt)%nat ∧ templates' ⊆ <[h:=b]> templates ∧
    templates' !! h = Some b.
Proof.
  intros [[Hmt _] [Hnd Hdom] Hz _ _ _ _ _ _] (bytes & Hb & Hl). unfold template_count in Hz.
  cbn in Hmt, Hnd, Hdom, Hz.
  set (order0 := match templates !! h with None => order ++ [h] | Some _ => order end).
  assert (ordered (<[h:=b]> templates) order0) as Hord.
  { subst order0. destruct (templates !! h) as [x|] eqn:El; split.
    - done.
    - intros y. rewrite Hdom, lookup_insert_is_Some. destruct (decide (h = y)) as [->|]; [|naive_solver].
      rewrite El. naive_solver.
    - apply NoDup_app. split_and!; [done| |apply NoDup_singleton].
      intros x Hx%Hdom ->%list_elem_of_singleton. by rewrite El in Hx; destruct Hx.
    - intros y. rewrite elem_of_app, list_elem_of_singleton, Hdom, lookup_insert_is_Some.
      destruct (decide (y = h)); naive_solver. }
  destruct (evict_ok mt h (<[h:=b]> templates) order0) as (tm & od & Ev & Ho & Hs & Hsub & Hh).
  { done. } { done. }
  { rewrite map_size_insert. destruct (templates !! h); cbn; lia. }
  { by rewrite lookup_insert_eq. }
  exists tm, od. split_and!; [|done|done|done|by rewrite Hh, lookup_insert_eq].
  unfold remember_template, exec_bind, exec_const.
  rewrite (proj2 (block_blob_with_nonce_ok b 0 (bytes_to_hex (set_nonce bytes 0)))) by (by exists bytes).
  cbv beta iota zeta. fold order0.
  by rewrite Ev.
Qed.

Lemma remember_inv s t h b s' :
  sub_inv s t → remember_template h b s = (Ok (), s') → sub_inv s' (Remembered h b :: t).
Proof.
  intros Hinv Hr. assert (usable b) as Hb.
  { unfold remember_template in Hr. apply exec_bind_ok in Hr as (b0 & s1 & Hb & _). injection Hb as Hb _.
    apply block_blob_with_nonce_ok in Hb as (bytes & Hb & Hl & _). by exists bytes. }
  destruct s as [mt mq ru st templates order queue w].
  destruct (remember_ok _ _ _ _ _ _ _ _ _ h _ Hinv Hb) as (tm & od & Hr' & Ho & Hs & Hsub & Hh).
  rewrite Hr' in Hr. injection Hr as <-.
  pose proof (sub_inv_mono _ t (Remembered h b) ltac:(done) ltac:(done) Hinv)
    as [Hbd _ Hz Hq Ht Hqd Htk Hi Hst].
  split; try done. cbn.
  intros x y Hx. eapply lookup_weaken in Hx; [|exact Hsub].
  apply lookup_insert_Some in Hx as [[<- <-]|[Hne Hx]]; [|by apply Ht].
  split; [done|]. cbn [since]. by left.
Qed.

Lemma enqueue_inv s t c status s' : sub_inv s t → enqueue c s = (status, s') → sub_inv s' t.
Proof.
  intros Hinv He. pose proof Hinv as [Hbd Ho Hz Hq Ht Hqd Htk Hi Hst].
  destruct s as [mt mq ru st templates order queue w]. unfold queued, template_count in *. cbn in *.
  destruct ru, st; cbn in He; try (by injection He as <- <-).
  destruct (templates !! _) as [b|] eqn:El; [|by injection He as <- <-].
  destruct (mq <=? length queue)%nat eqn:Eq; injection He as <- <-; [done|].
  apply Nat.leb_gt in Eq. split; try done; cbn.
  - unfold queued. cbn. rewrite length_app. cbn. lia.
  - intros q [Hin| ->%list_elem_of_singleton]%elem_of_app; [by apply Hqd|]. by apply Ht.
Qed.

Lemma retire_inv s t q r :
  sub_inv s t → bs_running s = true →
  sub_inv (set_worker Waiting (retire (bc_mining_header_hash (qc_candidate q)) s)) (Finished q (Ok r) :: t).
Proof.
  intros [Hbd [Hnd Hdom] Hz Hq Ht Hqd Htk Hi Hst] Hrun.
  destruct s as [mt mq ru st templates order queue w]. unfold queued, template_count in *. cbn in *.
  set (h := bc_mining_header_hash (qc_candidate q)) in *.
  assert (∀ h' x, h' ≠ h → x ∈ since h' t → x ∈ since h' (Finished q (Ok r) :: t)) as Hm.
  { intros h' x Hne. apply since_mono. intros q' r' [= <- <-]. by apply not_eq_sym. }
  split; cbn; try done.
  - split; [by apply NoDup_filter|]. intros x. rewrite list_elem_of_filter, Hdom.
    destruct (decide (x = h)) as [->|]; [rewrite lookup_delete_eq|rewrite lookup_delete_ne by done].
    + split; [tauto|by intros []].
    + tauto.
  - unfold template_count. cbn. rewrite map_size_delete. destruct (templates !! h); cbn; lia.
  - unfold queued. cbn. pose proof (length_filter (λ q, bc_mining_header_hash (qc_candidate q) ≠ h) queue).
    lia.
  - intros x b [Hx Hl]%lookup_delete_Some. destruct (Ht x b Hl). split; [done|].
    apply Hm; [by apply not_eq_sym|done].
  - intros q' [Hne Hin]%list_elem_of_filter. destruct (Hqd q' Hin) as [Hu Hf]. split; [done|].
    by apply Hm.
  - intros Hf. by rewrite Hrun in Hf.
  - intros [|n newer] q' older E; [done|]. injection E as <- ->. by eapply Hst.
Qed.

Section Correct.
Context {W : Type} (submit : text → exec W BlockSubmissionResult).
Context (handler : option (BlockSubmitEvent → exec W ())).

Lemma worker_step_inv c t e c' :
  worker_step submit handler c e c' → sub_inv c.1 t → sub_inv c'.1 (e ++ t).
Proof.
  intros Hs Hinv. pose proof Hinv as [Hbd Ho Hz Hq Ht Hqd Htk Hi Hst].
  destruct Hs as [s s' w Hw|s q w r w' Hw _|s q r w Hw]; cbn [fst app] in *.
  - destruct s as [mt mq ru st templates order queue wk]. unfold queued, template_count in *. cbn in *.
    destruct wk; try done. destruct st.
    { injection Hw as <-. split; try done; cbn. intros Hru. by destruct (Hi Hru). }
    destruct queue as [|q queue]; [done|]. injection Hw as <-. split; try done; cbn.
    + unfold queued. cbn in *. lia.
    + intros q' Hin. apply Hqd. by right.
    + intros q' [= <-]. apply Hqd. by left.
    + intros Hru. by destruct (Hi Hru).
  - apply sub_inv_mono; [done|intros q' [= <-]; by apply Htk|].
    destruct s as [mt mq ru st templates order queue wk]. split; try done; cbn.
    intros Hru. destruct (Hi Hru) as [E _]. cbn in *. by rewrite E in Hw.
  - assert (bs_running s = true) as Hru.
    { destruct (bs_running s) eqn:E; [done|]. destruct (Hi eq_refl) as [E' _]. by rewrite E' in Hw. }
    unfold worker_finish. destruct r as [r|x]; [by apply retire_inv|].
    apply sub_inv_mono; [done|done|].
    destruct s as [mt mq ru st templates order queue wk]. split; try done; cbn.
    intros Hf. cbn in Hru. by rewrite Hru in Hf.
Qed.

Lemma sub_step_inv c t e c' :
  sub_step submit handler c e c' → sub_inv c.1 t → sub_inv c'.1 (e ++ t).
Proof.
  intros Hs Hinv. destruct Hs as [s h b s' w Hr|s h b x s' w Hr|s c st s' w Hr|s r s' w Hr|s w|s w Hst Hw|].
  - by eapply remember_inv.
  - assert (s' = s) as ->; [|done]. unfold remember_template, exec_bind, exec_const in Hr.
    destruct (block_blob_with_nonce b 0); [|by injection Hr].
    destruct s as [mt mq ru st templates order queue wk]. destruct (evict _ _ _ _ _) as [[]|]; [done|].
    by injection Hr.
  - by eapply enqueue_inv.
  - destruct Hinv as [Hbd Ho Hz Hq Ht Hqd Htk Hi Hst].
    destruct s as [mt mq ru st templates order queue wk]. cbn in *.
    destruct ru; injection Hr as <- <-; by split.
  - destruct Hinv as [Hbd Ho Hz Hq Ht Hqd Htk Hi Hst].
    destruct s as [mt mq ru st templates order queue wk]. cbn in *. destruct ru; by split.
  - destruct Hinv as [Hbd Ho Hz Hq Ht Hqd Htk Hi Hst'].
    destruct s as [mt mq ru st templates order queue wk]. split; try done; cbn.
    + unfold queued. cbn. lia.
    + by intros q Hq0%not_elem_of_nil.
  - by eapply worker_step_inv.
Qed.

Lemma reachable_inv has_submit mt mq s0 w0 t c :
  new_submitter has_submit mt mq = Ok s0 → run (sub_step submit handler) (s0, w0) t c → sub_inv c.1 t.
Proof.
  intros Hn Hr. remember (s0, w0) as c0 eqn:E0. induction Hr as [c|c t c' e c'' Hr IH Hs]; subst c.
  - unfold new_submitter in Hn. apply res_bind_ok in Hn as (u & _ & Hn).
    apply res_bind_ok in Hn as (u' & Hb%throw_if_ok & Hn). injection Hn as <-.
    apply orb_false_iff in Hb as [H1%Nat.eqb_neq H2%Nat.eqb_neq].
    split; unfold template_count, queued; cbn; try done; try lia.
    + split; [apply NoDup_nil_2|]. intros h. rewrite lookup_empty.
      split; [by intros ?%not_elem_of_nil|by intros []].
    + rewrite map_size_empty. lia.
    + by intros q ?%not_elem_of_nil.
    + by intros [].
  - eapply sub_step_inv; [done|]. by apply IH.
Qed.

(** C14: In every state the submitter reaches from its construction, however
    calls and worker steps interleave, the templates and the queue keep their
    bounds and the order lists each template once; remembering a usable block
    blob succeeds and makes it the template of its header.  Every candidate
    handed to the daemon was built from a blob remembered for its header after
    the last time a candidate of that header was accepted: it is that blob with
    the nonce of the candidate, little endian, in bytes 1 to 8, and it derives the same
    mining header. *)
Theorem submitter_sound has_submit mt mq s0 w0 t s w :
  new_submitter has_submit mt mq = Ok s0 → run (sub_step submit handler) (s0, w0) t (s, w) →
  ((template_count s ≤ bs_max_templates s)%nat ∧ (queued s ≤ bs_max_queue s)%nat ∧
   ordered (bs_templates s) (bs_template_order s)) ∧
  (∀ header blob, usable blob →
     ∃ s', remember_template header blob s = (Ok (), s') ∧ bs_templates s' !! header = Some blob) ∧
  (∀ newer q older, t = newer ++ Sent q :: older →
     fresh older q ∧
     ∃ bytes bytes',
       hex_to_bytes (qc_block_blob_hex q) = Ok bytes ∧
       (∀ w1, worker_submit submit q w1 = submit (bytes_to_hex bytes') w1) ∧
       same_but_nonce bytes bytes' ∧
       (∀ i, (i < 8)%nat →
          bytes' !! S i = Some (byte_of_Z (bc_nonce (qc_candidate q) / 2 ^ (8 * Z.of_nat i)))) ∧
       (∀ work, derive_mining_header_work bytes = Ok work → derive_mining_header_work bytes' = Ok work)).
Proof.
  intros Hn Hr. pose proof (reachable_inv _ _ _ _ _ _ _ Hn Hr) as Hinv. cbn [fst] in Hinv.
  split_and!; try apply Hinv.
  - intros h b Hb. destruct s as [smt smq ru st templates order queue wk].
    destruct (remember_ok _ _ _ _ _ _ _ _ _ h _ Hinv Hb) as (tm & od & Hr' & _ & _ & _ & Hh).
    by eexists.
  - intros newer q older Ht. destruct (si_sent _ _ Hinv _ _ _ Ht) as [(bytes & Hb & Hl) Hf].
    split; [done|]. exists bytes, (set_nonce bytes (bc_nonce (qc_candidate q))).
    pose proof (set_nonce_same bytes (bc_nonce (qc_candidate q)) Hl) as Hsame. split_and!; try done.
    + intros w1. unfold worker_submit, exec_bind, exec_const.
      by rewrite (proj2 (block_blob_with_nonce_ok (qc_block_blob_hex q) _ _)) by (by exists bytes).
    + intros i Hi. by apply set_nonce_lookup.
    + intros work. by apply derive_same_but_nonce.
Qed.

Lemma run_app step (c : BlockCandidateSubmitter * W) t c' t' c'' :
  run step c t c' → run step c' t' c'' → run step c (t' ++ t) c''.
Proof.
  intros H1 H2. induction H2 as [c'|c' t' d e d' H2 IH Hs]; [done|].
  rewrite <-app_assoc. eapply run_snoc; [by apply IH|done].
Qed.
Lemma run_one step (c : BlockCandidateSubmitter * W) t c' : step c t c' → run step c t c'.
Proof. intros Hs. rewrite <-(app_nil_r t). eapply run_snoc; [apply run_nil|done]. Qed.

(** One pass over the first candidate of the queue. *)
Lemma worker_pass mt mq ru templates order q queue w :
  ∃ r w' templates' order' queue',
    run (worker_step submit handler) (mkSubmitter mt mq ru false templates order (q :: queue) Waiting, w)
      [Finished q r; Sent q] (mkSubmitter mt mq ru false templates' order' queue' Waiting, w') ∧
    (length queue' ≤ length queue)%nat ∧
    ∀ q', q' ∈ queue → q' ∈ queue' ∨
      (∃ a, r = Ok a) ∧ bc_mining_header_hash (qc_candidate q) = bc_mining_header_hash (qc_candidate q').
Proof.
  destruct (worker_submit submit q w) as [r w1] eqn:E.
  set (s2 := mkSubmitter mt mq ru false templates order queue (Answered q r)).
  assert (run (worker_step submit handler)
    (mkSubmitter mt mq ru false templates order (q :: queue) Waiting, w) [Finished q r; Sent q]
    (worker_finish q r s2, emit handler (submit_event q r) w1)) as Hrun.
  { apply (run_snoc _ _ [Sent q] (s2, w1) [Finished q r]); [|by apply step_finish].
    apply (run_snoc _ _ [] (mkSubmitter mt mq ru false templates order queue (Taken q), w) [Sent q]).
    - by apply run_one, step_wake.
    - exact (step_submit _ _ (mkSubmitter mt mq ru false templates order queue (Taken q)) _ _ _ _
        eq_refl E). }
  destruct r as [a|x]; eexists _, _, _, _, _; (split; [exact Hrun|]).
  - split; [apply length_filter|]. intros q' Hin.
    destruct (decide (bc_mining_header_hash (qc_candidate q') = bc_mining_header_hash (qc_candidate q)))
      as [Eh|Hne]; [right; split; [by eexists|done]|]. left. by apply list_elem_of_filter.
  - split; [done|]. intros q' Hin. by left.
Qed.

(** A worker asked to stop leaves, from each of its states. *)
Lemma waiting_leaves s w :
  bs_worker s = Waiting → bs_stop_requested s = true →
  ∃ s', run (worker_step submit handler) (s, w) [] (s', w) ∧
    bs_worker s' = Left ∧ bs_stop_requested s' = true.
Proof.
  destruct s as [mt mq ru st templates order queue wk]. cbn. intros -> ->.
  eexists. split; [by apply run_one, step_wake|done].
Qed.

Lemma answered_leaves s q r w :
  bs_worker s = Answered q r → bs_stop_requested s = true →
  ∃ s' w', run (worker_step submit handler) (s, w) [Finished q r] (s', w') ∧
    bs_worker s' = Left ∧ bs_stop_requested s' = true.
Proof.
  intros Hw Hst.
  destruct (waiting_leaves (worker_finish q r s) (emit handler (submit_event q r) w)) as (s' & Hr & H').
  { unfold worker_finish. by destruct r, s. }
  { unfold worker_finish. by destruct r, s. }
  eexists s', _. split; [|exact H'].
  apply (run_app _ _ [Finished q r] _ [] _ (run_one _ _ _ _ (step_finish _ _ _ _ _ _ Hw)) Hr).
Qed.

Lemma taken_leaves s q w :
  bs_worker s = Taken q → bs_stop_requested s = true →
  ∃ r s' w', run (worker_step submit handler) (s, w) [Finished q r; Sent q] (s', w') ∧
    bs_worker s' = Left ∧ bs_stop_requested s' = true.
Proof.
  intros Hw Hst. destruct (worker_submit submit q w) as [r w1] eqn:E.
  destruct (answered_leaves (set_worker (Answered q r) s) q r w1) as (s' & w' & Hr & H').
  { by destruct s. } { by destruct s. }
  exists r, s', w'. split; [|exact H'].
  apply (run_app _ _ [Sent q] _ [Finished q r] _ (run_one _ _ _ _ (step_submit _ _ _ _ _ _ _ Hw E)) Hr).
Qed.

(** C27: Left alone and not asked to stop, the waiting worker empties its queue:
    each queued candidate is submitted, or a candidate of the same header is
    accepted.  Asked to stop, the worker leaves after at most the submission it
    holds, and takes no other candidate, so the join of [stop] returns. *)
Theorem worker_progress s w :
  (bs_worker s = Waiting → bs_stop_requested s = false →
   ∃ t s' w', run (worker_step submit handler) (s, w) t (s', w') ∧
     bs_worker s' = Waiting ∧ bs_queue s' = [] ∧
     ∀ q, q ∈ bs_queue s → Sent q ∈ t ∨ ∃ q' a, Finished q' (Ok a) ∈ t ∧
       bc_mining_header_hash (qc_candidate q') = bc_mining_header_hash (qc_candidate q)) ∧
  (bs_worker s ≠ NoWorker → bs_running s = true →
   ∃ t s' w', run (worker_step submit handler) (request_stop s, w) t (s', w') ∧
     bs_worker s' = Left ∧ bs_stop_requested s' = true ∧ ∀ q, Sent q ∈ t → bs_worker s = Taken q).
Proof.
  split.
  - destruct s as [mt mq ru st templates order queue wk]. cbn. intros -> ->.
    remember (length queue) as n eqn:En. assert (length queue ≤ n)%nat as Hn by lia. clear En.
    revert queue templates order w Hn. induction n as [|n IH]; intros [|q queue] templates order w Hn;
      cbn in Hn; try lia.
    1,2: eexists [], _, w; split_and!; [apply run_nil|done|done|by intros q Hq%not_elem_of_nil].
    destruct (worker_pass mt mq ru templates order q queue w)
      as (r & w1 & templates1 & order1 & queue1 & Hrun & Hlen & Hkeep).
    destruct (IH queue1 templates1 order1 w1 ltac:(lia)) as (t & s' & w' & Hrun' & Hw & Hq & Hall).
    exists (t ++ [Finished q r; Sent q]), s', w'. split_and!; [by eapply run_app|done|done|].
    intros q' [->|Hin]%elem_of_cons; [left; set_solver|].
    destruct (Hkeep q' Hin) as [Hin'|[[a ->] Hh]].
    + destruct (Hall q' Hin') as [Hs|(q2 & a & Hf & Hh)]; [left; set_solver|].
      right. exists q2, a. split; [set_solver|done].
    + right. exists q, a. split; [set_solver|done].
  - intros Hw Hrun. assert (bs_worker (request_stop s) = bs_worker s) as Ew.
    { destruct s as [? ? ru ? ? ? ? ?]. cbn in *. by rewrite Hrun. }
    assert (bs_stop_requested (request_stop s) = true) as Hst.
    { destruct s as [? ? ru ? ? ? ? ?]. cbn in *. by rewrite Hrun. }
    destruct (bs_worker s) as [| |q|q r|] eqn:Es; [done| | | |].
    + destruct (waiting_leaves _ w Ew Hst) as (s' & Hr & H1 & H2).
      exists [], s', w. split_and!; try done. by intros q Hq%not_elem_of_nil.
    + destruct (taken_leaves _ _ w Ew Hst) as (r & s' & w' & Hr & H1 & H2).
      exists [Finished q r; Sent q], s', w'. split_and!; try done. set_solver.
    + destruct (answered_leaves _ _ _ w Ew Hst) as (s' & w' & Hr & H1 & H2).
      exists [Finished q r], s', w'. split_and!; try done. set_solver.
    + eexists [], _, w. split_and!; [apply run_nil|done|done|by intros q Hq%not_elem_of_nil].
Qed.

End Correct.

(** ** A run of one candidate *)

Definition demo_header : Hash256 := vreplicate 32 (byte_of_Z 7).
Definition demo_blob : text := bytes_to_hex (map byte_of_Z [1; 9; 9; 9; 9; 9; 9; 9; 9; 5]).
Definition demo_queued : QueuedCandidate := mkQueued (mkCandidate 10 demo_header 513) demo_blob.
Definition demo_submit (blob : text) : exec (list text) BlockSubmissionResult :=
  λ w, (Ok BlockSubmitted, blob :: w).
Definition demo_submitter (order : list Hash256) (ru : bool) (queue : list QueuedCandidate) (w : worker)
    : BlockCandidateSubmitter :=
  mkSubmitter 1 2 ru false (foldr (λ h, <[h := demo_blob]>) ∅ order) order queue w.

Lemma demo_run :
  run (sub_step demo_submit None) (demo_submitter [] false [] NoWorker, [])
    [Sent demo_queued; Remembered demo_header demo_blob]
    (demo_submitter [demo_header] true [] (Answered demo_queued (Ok BlockSubmitted)),
     [bytes_to_hex (map byte_of_Z [1; 1; 2; 0; 0; 0; 0; 0; 0; 5])]).
Proof.
  apply (run_snoc _ _ [Remembered demo_header demo_blob]
    (demo_submitter [demo_header] true [] (Taken demo_queued), []) [Sent demo_queued]).
  2:{ apply step_worker.
      exact (step_submit demo_submit None (demo_submitter [demo_header] true [] (Taken demo_queued))
        demo_queued [] (Ok BlockSubmitted) _ eq_refl ltac:(vm_compute; reflexivity)). }
  apply (run_snoc _ _ [Remembered demo_header demo_blob]
    (demo_submitter [demo_header] true [demo_queued] Waiting, []) []).
  2:{ by apply step_worker, step_wake. }
  apply (run_snoc _ _ [Remembered demo_header demo_blob]
    (demo_submitter [demo_header] true [] Waiting, []) []).
  2:{ apply (step_enqueue _ _ _ (mkCandidate 10 demo_header 513) Queued).
      unfold demo_submitter, enqueue. cbn [orb negb foldr bc_mining_header_hash].
      by rewrite lookup_insert_eq. }
  apply (run_snoc _ _ [Remembered demo_header demo_blob]
    (demo_submitter [demo_header] false [] NoWorker, []) []).
  2:{ apply (step_start _ _ _ (Ok ())). reflexivity. }
  apply run_one, step_remember. unfold remember_template, exec_bind, exec_const.
  assert (block_blob_with_nonce demo_blob 0
    = Ok (bytes_to_hex (map byte_of_Z [1; 0; 0; 0; 0; 0; 0; 0; 0; 5]))) as -> by (vm_compute; reflexivity).
  unfold demo_submitter. cbn [foldr]. rewrite lookup_empty. cbn [evict app].
  by rewrite insert_empty, map_size_singleton.
Qed.

(** The candidate that the run sends is its remembered template with nonce 513. *)
Lemma submitter_witness :
  fresh [Remembered demo_header demo_blob] demo_queued ∧
  hex_to_bytes demo_blob = Ok (map byte_of_Z [1; 9; 9; 9; 9; 9; 9; 9; 9; 5]).
Proof.
  split; [|vm_compute; reflexivity].
  destruct (submitter_sound demo_submit None true 1 2 (demo_submitter [] false [] NoWorker) [] _ _ _
    ltac:(reflexivity) demo_run) as (_ & _ & Hs).
  destruct (Hs [] demo_queued [Remembered demo_header demo_blob] eq_refl) as [Hf _]. exact Hf.
Defined.

Lemma worker_progress_witness :
  ∃ t s' w', run (worker_step demo_submit None)
    (demo_submitter [demo_header] true [demo_queued] Waiting, []) t (s', w') ∧
    bs_queue s' = [] ∧ (Sent demo_queued ∈ t ∨ ∃ q' a, Finished q' (Ok a) ∈ t ∧
      bc_mining_header_hash (qc_candidate q') = demo_header).
Proof.
  destruct (worker_progress demo_submit None (demo_submitter [demo_header] true [demo_queued] Waiting) [])
    as [H _].
  destruct (H eq_refl eq_refl) as (t & s' & w' & Hr & _ & Hq & Hall).
  exists t, s', w'. split; [exact Hr|]. split; [exact Hq|]. apply (Hall demo_queued). by left.
Defined.
