(* ===== verification/StratumProtocol.v ===== *)
(** The Stratum messages of miners: [include/zano_p2pool/stratum_protocol.hpp],
    [src/stratum_protocol.cpp].  json-c is a parameter, its tokener's end position
    included. *)
From S2P Require Import Prelude CryptoHash PowTarget BlockTemplate WorkArchive RpcClient.
Local Open Scope pool_scope.

Definition kStratumErrorDefault : Z := -32000.
Definition kStratumErrorParse : Z := -32700.
Definition kStratumErrorMethodNotFound : Z := -32601.

Inductive StratumId := IdNone | IdInt (z : Z) | IdString (s : text).
Inductive StratumMethod := SubmitLogin | GetWork | SubmitHashrate | SubmitWork | UnknownMethod.
#[export] Instance StratumMethod_eq_dec : EqDecision StratumMethod.
Proof. solve_decision. Defined.

Record StratumRequest := mkRequest {
  rq_id : StratumId;
  rq_method : text;
  rq_params : list text;
  rq_worker : text }.

Record StratumLogin := mkLogin {
  lg_username : text;
  lg_password : text;
  lg_worker : text;
  lg_requested_difficulty : option Z }.

Record StratumSubmission := mkSubmission {
  sm_nonce : Z;
  sm_header_hash : Hash256;
  sm_mix_hash : Hash256;
  sm_worker : text }.

Record StratumWork := mkStratumWork {
  sw_header_hash : Hash256;
  sw_seed_hash : Hash256;
  sw_share_target : DifficultyTarget;
  sw_height : Z }.

Definition zero_x : text := text_of "0x".

(** [0x] or [0X]. *)
Definition strip_hex_prefix (s : text) : text :=
  match s with
  | c0 :: c1 :: rest =>
      if (char_Z c0 =? 48) && ((char_Z c1 =? 120) || (char_Z c1 =? 88)) then rest else s
  | _ => s
  end.

(** [std::from_chars] in base 16 on a text all of which must be read. *)
Fixpoint hex_value (digits : text) (value : Z) : option Z :=
  match digits with
  | [] => Some value
  | c :: rest =>
      match hex_nibble c with
      | Ok d => hex_value rest (value * 16 + d)
      | Throw _ => None
      end
  end.

Definition parse_hex_u64 (s : text) : res Z :=
  let digits := strip_hex_prefix s in
  if bool_decide (digits = []) || (16 <? length digits)%nat
  then throw RuntimeError "Stratum nonce must contain 1..16 hex digits"
  else
  match hex_value digits 0 with
  | None => throw RuntimeError "invalid Stratum nonce hex"
  | Some value => Ok value
  end.

Definition parse_hash_hex (s : text) (field : string) : res Hash256 :=
  let digits := strip_hex_prefix s in
  if negb (length digits =? 64)%nat
  then throw RuntimeError (field +:+ " must be exactly 32 bytes")
  else
  (bytes ← hex_to_bytes digits;
  mret (arr_of 32 bytes))%stdpp.

(** [username.find('-')]: what is before it and after it. *)
Fixpoint split_dash (s : text) : option (text * text) :=
  match s with
  | [] => None
  | c :: rest =>
      if char_Z c =? 45 then Some ([], rest)
      else match split_dash rest with
           | Some (before, after) => Some (c :: before, after)
           | None => None
           end
  end.

(** The username left, and the difficulty asked for. *)
Definition parse_requested_difficulty (username : text) : res (text * option Z) :=
  match split_dash username with
  | None => Ok (username, None)
  | Some (before, suffix) =>
      if bool_decide (suffix = [])
      then throw RuntimeError "empty requested Stratum difficulty"
      else
      match from_chars_u64 suffix with
      | Some (value, []) =>
          if bool_decide (before = []) then throw RuntimeError "empty Stratum username"
          else Ok (before, if value =? 0 then None else Some value)
      | _ => throw RuntimeError "invalid requested Stratum difficulty"
      end
  end.

Definition stratum_method (request : StratumRequest) : StratumMethod :=
  if bool_decide (rq_method request = text_of "eth_submitLogin") then SubmitLogin
  else if bool_decide (rq_method request = text_of "eth_getWork") then GetWork
  else if bool_decide (rq_method request = text_of "eth_submitHashrate") then SubmitHashrate
  else if bool_decide (rq_method request = text_of "eth_submitWork") then SubmitWork
  else UnknownMethod.

Definition parse_stratum_login (request : StratumRequest) : res StratumLogin :=
  if negb (bool_decide (stratum_method request = SubmitLogin))
  then throw RuntimeError "request is not eth_submitLogin"
  else
  match rq_params request with
  | [username] =>
      ('(username, requested) ← parse_requested_difficulty username;
      mret (mkLogin username [] (rq_worker request) requested))%stdpp
  | [username; password] =>
      ('(username, requested) ← parse_requested_difficulty username;
      mret (mkLogin username password (rq_worker request) requested))%stdpp
  | _ => throw RuntimeError "eth_submitLogin expects username and optional password"
  end.

Definition parse_stratum_submission (request : StratumRequest) : res StratumSubmission :=
  if negb (bool_decide (stratum_method request = SubmitWork))
  then throw RuntimeError "request is not eth_submitWork"
  else
  match rq_params request with
  | [p0; p1; p2] =>
      (nonce ← parse_hex_u64 p0;
      header_hash ← parse_hash_hex p1 "Stratum header hash";
      mix_hash ← parse_hash_hex p2 "Stratum mix hash";
      mret (mkSubmission nonce header_hash mix_hash (rq_worker request)))%stdpp
  | _ => throw RuntimeError "eth_submitWork expects nonce, header, and mix hash"
  end.

(** Sixteen digits, zeros first. *)
Definition stratum_uint64_hex (value : Z) : text := zero_x ++ bytes_to_hex (be_bytes 8 value).

(** [json_tokener_get_parse_end] after [json_tokener_parse_ex] of a text. *)
Class JsonTokenerEnd := json_tokener_get_parse_end : text → nat.

Section Json.
Context `{!JsonC} `{!JsonTokenerEnd}.

Definition parse_request_id (root : json) : res StratumId :=
  match json_get root "id" with
  | None => Ok IdNone
  | Some JNull => Ok IdNone
  | Some (JInt z) => Ok (IdInt (json_int64 z))
  | Some (JString s) => Ok (IdString (c_str s))
  | Some _ => throw RuntimeError "unsupported Stratum request id type"
  end.

Fixpoint parse_params (values : list json) : res (list text) :=
  match values with
  | [] => Ok []
  | JString s :: rest => (params ← parse_params rest; mret (c_str s :: params))%stdpp
  | _ => throw RuntimeError "Stratum params must contain strings only"
  end.

Definition parse_stratum_request (line : text) : res StratumRequest :=
  let parsed := json_tokener_parse line in
  let root := jp_root parsed in
  (_ ← throw_if (json_is_null root || negb (jp_success parsed)) RuntimeError "invalid Stratum JSON";
  let trailing := drop (json_tokener_get_parse_end line) line in
  _ ← throw_if (negb (bool_decide (skip_space trailing = []))) RuntimeError
        "trailing data after Stratum JSON object";
  _ ← throw_if (match root with JObject _ => false | _ => true end) RuntimeError
        "Stratum request must be a JSON object";
  _ ← match json_get root "jsonrpc" with
      | None => Ok ()
      | Some (JString s) =>
          throw_if (negb (bool_decide (c_str s = text_of "2.0"))) RuntimeError
            "unsupported JSON-RPC version"
      | Some _ => throw RuntimeError "unsupported JSON-RPC version"
      end;
  id ← parse_request_id root;
  method ← match json_get root "method" with
           | Some (JString s) => Ok (c_str s)
           | _ => throw RuntimeError "Stratum request is missing a string method"
           end;
  worker ← match json_get root "worker" with
           | None => Ok []
           | Some (JString s) => Ok (c_str s)
           | Some _ => throw RuntimeError "Stratum worker must be a string"
           end;
  params ← match json_get root "params" with
           | None => Ok []
           | Some (JArray values) => parse_params values
           | Some _ => throw RuntimeError "Stratum params must be an array"
           end;
  mret (mkRequest id method params worker))%stdpp.

Definition json_id (id : StratumId) : json :=
  match id with
  | IdNone => JNull
  | IdInt z => JInt z
  | IdString s => JString s
  end.

Definition newline : Ascii.ascii := Ascii.ascii_of_nat 10.
Definition finalize_json (root : list (string * json)) : text :=
  c_str (json_to_string_plain (JObject root)) ++ [newline].

Definition make_response_root (id : StratumId) : list (string * json) :=
  [("jsonrpc", json_string (text_of "2.0")); ("id", json_id id)].

Definition make_work_array (work : StratumWork) : json :=
  JArray [json_string (zero_x ++ hash_to_hex (sw_header_hash work));
          json_string (zero_x ++ hash_to_hex (sw_seed_hash work));
          json_string (zero_x ++ target_hex (sw_share_target work));
          json_string (stratum_uint64_hex (sw_height work))].

Definition stratum_success_json (id : StratumId) : text :=
  finalize_json (make_response_root id ++ [("result", JBoolean true)]).

Definition stratum_error_json (id : StratumId) (code : Z) (message : text) : text :=
  finalize_json (make_response_root id ++
    [("error", JObject [("code", JInt code); ("message", JString message)])]).

Definition stratum_work_json (id : StratumId) (work : StratumWork) : text :=
  finalize_json (make_response_root id ++ [("result", make_work_array work)]).

Definition stratum_work_notification_json (work : StratumWork) : text :=
  finalize_json [("jsonrpc", json_string (text_of "2.0")); ("result", make_work_array work)].

End Json.

(** ** Hexadecimal numbers *)

Lemma hex_nibble_range c d : hex_nibble c = Ok d → 0 ≤ d < 16.
Proof. unfold hex_nibble. intros H. repeat case_match; bool_prop; res_inv; lia. Qed.

Lemma hex_value_range s : ∀ v z, 0 ≤ v → hex_value s v = Some z →
  0 ≤ z < (v + 1) * 16 ^ Z.of_nat (length s).
Proof.
  induction s as [|c s IH]; intros v z Hv; cbn [hex_value length]; [intros [= <-]; lia|].
  destruct (hex_nibble c) as [d|] eqn:E; [|done]. apply hex_nibble_range in E. intros H%IH; [|lia].
  rewrite Nat2Z.inj_succ, Z.pow_succ_r by lia. nia.
Qed.

Lemma parse_hex_u64_range s z : parse_hex_u64 s = Ok z → is_u64 z.
Proof.
  unfold parse_hex_u64. destruct (_ || _) eqn:E; [done|]. bool_prop.
  destruct (hex_value _ 0) as [v|] eqn:Ev; [|done]. intros [= <-]. apply hex_value_range in Ev; [|lia].
  apply Nat.ltb_ge in H0.
  assert (16 ^ Z.of_nat (length (strip_hex_prefix s)) ≤ 16 ^ 16) by (apply Z.pow_le_mono_r; lia).
  change (16 ^ 16) with 18446744073709551616 in *. unfold is_u64, u64_max. lia.
Qed.

Lemma submission_nonce request m : parse_stratum_submission request = Ok m → is_u64 (sm_nonce m).
Proof.
  unfold parse_stratum_submission. destruct (negb _); [done|].
  destruct (rq_params request) as [|p0 [|p1 [|p2 [|]]]]; try done. intros H. res_inv.
  by eapply parse_hex_u64_range.
Qed.
