(* ===== verification/StratumSession.v ===== *)
(** The sessions of the Stratum server: [include/zano_p2pool/stratum_session.hpp],
    [src/stratum_session.cpp].  A miner logs in, gets work derived from the published
    template, and its submission is matched with the work it was given. *)
From S2P Require Import Prelude CryptoHash PowTarget Share ShareChain BlockTemplate PayoutPolicy.
From S2P Require Import ZanoAddress RpcClient StratumProtocol.
Local Open Scope pool_scope.

Record StratumSessionConfig := mkSessionConfig {
  sc_default_share_difficulty : Z;
  sc_minimum_share_difficulty : Z;
  sc_maximum_share_difficulty : Z }.

Record StratumShareParentBinding := mkBinding {
  pb_parent_id : ShareId;
  pb_share_height : Z }.
#[export] Instance StratumShareParentBinding_eq_dec : EqDecision StratumShareParentBinding.
Proof. solve_decision. Defined.

Record StratumTemplate := mkTemplate {
  tp_version : Z;
  tp_header_hash : Hash256;
  tp_seed_hash : Hash256;
  tp_height : Z;
  tp_network_difficulty : Difficulty128;
  tp_parent_binding : option StratumShareParentBinding }.

Record StratumIssuedWork := mkIssued {
  iw_job_version : Z;
  iw_session_id : Z;
  iw_share_difficulty : Difficulty128;
  iw_wire_work : StratumWork;
  iw_trusted_context : ShareWorkContext;
  iw_parent_binding : option StratumShareParentBinding }.

Inductive StratumWorkMatch := MatchCurrent | MatchStale | MatchUnknown.
#[export] Instance StratumWorkMatch_eq_dec : EqDecision StratumWorkMatch.
Proof. solve_decision. Defined.

Record StratumSession := mkSession {
  ss_id : Z;
  ss_logged_in : bool;
  ss_username : text;
  ss_worker : text;
  ss_payout : option PayoutPublicKeys;
  ss_configured_share_difficulty : Z;
  ss_current_work : option StratumIssuedWork;
  ss_previous_work : option StratumIssuedWork }.

Record StratumSessionRegistry := mkRegistry {
  rg_config : StratumSessionConfig;
  rg_next_session_id : Z;
  rg_next_template_version : Z;
  rg_sessions : gmap Z StratumSession;
  rg_current_template : option StratumTemplate }.

Definition set_sessions (m : gmap Z StratumSession) (r : StratumSessionRegistry) : StratumSessionRegistry :=
  mkRegistry (rg_config r) (rg_next_session_id r) (rg_next_template_version r) m (rg_current_template r).

(** [std::clamp]. *)
Definition clamp_u64 (v lo hi : Z) : Z := if v <? lo then lo else if hi <? v then hi else v.

Definition clamp_requested_difficulty (config : StratumSessionConfig) (requested : option Z) : Z :=
  let chosen :=
    match requested with
    | None => sc_default_share_difficulty config
    | Some z => if z =? 0 then sc_default_share_difficulty config else z
    end in
  clamp_u64 chosen (sc_minimum_share_difficulty config) (sc_maximum_share_difficulty config).

Definition new_registry (config : StratumSessionConfig) : res StratumSessionRegistry :=
  (_ ← throw_if (sc_minimum_share_difficulty config =? 0) RuntimeError
         "Stratum minimum share difficulty must be nonzero";
  _ ← throw_if (sc_maximum_share_difficulty config <? sc_minimum_share_difficulty config) RuntimeError
        "Stratum maximum share difficulty is below minimum";
  _ ← throw_if ((sc_default_share_difficulty config <? sc_minimum_share_difficulty config) ||
                (sc_maximum_share_difficulty config <? sc_default_share_difficulty config)) RuntimeError
        "Stratum default share difficulty is outside configured range";
  mret (mkRegistry config 1 1 ∅ None))%stdpp.

Definition create_session : exec StratumSessionRegistry Z := λ r,
  if rg_next_session_id r =? 0 then (throw RuntimeError "Stratum session id space exhausted", r)
  else
  let id := rg_next_session_id r in
  let session := mkSession id false [] [] None (sc_default_share_difficulty (rg_config r)) None None in
  let sessions := match rg_sessions r !! id with
                  | Some _ => rg_sessions r
                  | None => <[id := session]> (rg_sessions r)
                  end in
  (Ok id, mkRegistry (rg_config r) (wrap64 (id + 1)) (rg_next_template_version r) sessions
            (rg_current_template r)).

Definition remove_session (session_id : Z) (r : StratumSessionRegistry) : StratumSessionRegistry :=
  set_sessions (delete session_id (rg_sessions r)) r.

Definition require_session (session_id : Z) (r : StratumSessionRegistry) : res StratumSession :=
  match rg_sessions r !! session_id with
  | None => throw RuntimeError "unknown Stratum session"
  | Some session => Ok session
  end.

Definition update_session (session_id : Z) (session : StratumSession) : exec StratumSessionRegistry () :=
  exec_modify (λ r, set_sessions (<[session_id := session]> (rg_sessions r)) r).

(** The keys of a username that is a standard address. *)
Definition decoded_payout (username : text) : option PayoutPublicKeys :=
  let decoded := decode_zano_standard_address username in
  match zd_status decoded with
  | AddressValid => Some (mkPayout (pa_spend_public_key (zd_payout decoded))
                                   (pa_view_public_key (zd_payout decoded)))
  | _ => None
  end.

Definition login (session_id : Z) (request : StratumLogin) : exec StratumSessionRegistry () :=
  session <- exec_const (require_session session_id) ;;
  if bool_decide (lg_username request = [])
  then exec_throw RuntimeError "Stratum login username must not be empty"
  else
  r <- exec_get ;;
  update_session session_id
    (mkSession (ss_id session) true (lg_username request)
       (if bool_decide (lg_worker request = []) then dec_str (ss_id session) else lg_worker request)
       (decoded_payout (lg_username request))
       (clamp_requested_difficulty (rg_config r) (lg_requested_difficulty request)) None None).

(** The two checks of a parent binding, in [publish_template] and [issue_work]. *)
Definition binding_check (what : string) (binding : option StratumShareParentBinding) : res () :=
  match binding with
  | None => Ok ()
  | Some b =>
      let root := arr_eqb (pb_parent_id b) (arr_zero 32) in
      (_ ← throw_if (root && negb (pb_share_height b =? 0)) RuntimeError
             ("root Stratum " +:+ what +:+ " binding must use share height zero");
      throw_if (negb root && (pb_share_height b =? 0)) RuntimeError
        ("non-root Stratum " +:+ what +:+ " binding must use nonzero share height"))%stdpp
  end.

(** The current template is the one asked for. *)
Definition same_template (current : option StratumTemplate) (header_hash seed_hash : Hash256) (height : Z)
    (network_difficulty : Difficulty128) (binding : option StratumShareParentBinding) : option Z :=
  match current with
  | None => None
  | Some t =>
      if arr_eqb (tp_header_hash t) header_hash && arr_eqb (tp_seed_hash t) seed_hash &&
         (tp_height t =? height) && arr_eqb (tp_network_difficulty t) network_difficulty &&
         bool_decide (tp_parent_binding t = binding)
      then Some (tp_version t) else None
  end.

Definition publish_template (header_hash seed_hash : Hash256) (height : Z)
    (network_difficulty : Difficulty128) (binding : option StratumShareParentBinding)
    : exec StratumSessionRegistry Z := λ r,
  if difficulty128_is_zero network_difficulty
  then (throw RuntimeError "Stratum template network difficulty must be nonzero", r)
  else
  match binding_check "template" binding with
  | Throw x => (Throw x, r)
  | Ok _ =>
      match same_template (rg_current_template r) header_hash seed_hash height network_difficulty binding with
      | Some version => (Ok version, r)
      | None =>
          if rg_next_template_version r =? 0
          then (throw RuntimeError "Stratum template version space exhausted", r)
          else
          let version := rg_next_template_version r in
          (Ok version,
           mkRegistry (rg_config r) (rg_next_session_id r) (wrap64 (version + 1)) (rg_sessions r)
             (Some (mkTemplate version header_hash seed_hash height network_difficulty binding)))
      end
  end.

Definition effective_share_difficulty (session : StratumSession) (t : StratumTemplate) : res Difficulty128 :=
  (configured ← difficulty128_from_decimal (dec_str (ss_configured_share_difficulty session));
  mret (if arr_lt (tp_network_difficulty t) configured then tp_network_difficulty t else configured))%stdpp.

(** The parent of a job: the published one is authoritative. *)
Definition job_parent (t : StratumTemplate) (binding : option StratumShareParentBinding)
    : res (option StratumShareParentBinding) :=
  match tp_parent_binding t with
  | None => Ok binding
  | Some _ =>
      (_ ← throw_if (match binding with
                     | Some _ => negb (bool_decide (binding = tp_parent_binding t))
                     | None => false
                     end) RuntimeError "Stratum work parent does not match published template";
      mret (tp_parent_binding t))%stdpp
  end.

Definition job_difficulty (session : StratumSession) (t : StratumTemplate)
    (consensus_share_difficulty : option Difficulty128) : res Difficulty128 :=
  match consensus_share_difficulty with
  | Some d =>
      (_ ← throw_if (difficulty128_is_zero d) RuntimeError
             "consensus Stratum share difficulty must be nonzero";
      _ ← throw_if (arr_lt (tp_network_difficulty t) d) RuntimeError
            "consensus Stratum share difficulty exceeds network difficulty";
      mret d)%stdpp
  | None => effective_share_difficulty session t
  end.

(** The work is the current one already. *)
Definition same_job (session : StratumSession) (t : StratumTemplate) (share_difficulty : Difficulty128)
    (binding : option StratumShareParentBinding) : option StratumIssuedWork :=
  match ss_current_work session with
  | None => None
  | Some work =>
      if (iw_job_version work =? tp_version t) && arr_eqb (iw_share_difficulty work) share_difficulty &&
         bool_decide (iw_parent_binding work = binding)
      then Some work else None
  end.

Definition derived_work (session_id : Z) (t : StratumTemplate) (share_difficulty : Difficulty128)
    (share_target : DifficultyTarget) (binding : option StratumShareParentBinding) : StratumIssuedWork :=
  mkIssued (tp_version t) session_id share_difficulty
    (mkStratumWork (tp_header_hash t) (tp_seed_hash t) share_target (tp_height t))
    (mkContext (tp_height t) (tp_header_hash t) (tp_network_difficulty t)) binding.

Definition issue_work (session_id : Z) (consensus_share_difficulty : option Difficulty128)
    (binding : option StratumShareParentBinding) : exec StratumSessionRegistry StratumIssuedWork :=
  session <- exec_const (require_session session_id) ;;
  if negb (ss_logged_in session) then exec_throw RuntimeError "Stratum session is not logged in"
  else
  r <- exec_get ;;
  match rg_current_template r with
  | None => exec_throw RuntimeError "no Stratum template is available"
  | Some t =>
      binding <- exec_const (λ _, job_parent t binding) ;;
      do exec_const (λ _, binding_check "parent" binding) ;;
      share_difficulty <- exec_const (λ _, job_difficulty session t consensus_share_difficulty) ;;
      match same_job session t share_difficulty binding with
      | Some work => exec_ret work
      | None =>
          share_target <- exec_const (λ _, difficulty_to_target (difficulty128_to_decimal share_difficulty)) ;;
          let issued := derived_work (ss_id session) t share_difficulty share_target binding in
          do update_session session_id
               (mkSession (ss_id session) (ss_logged_in session) (ss_username session) (ss_worker session)
                  (ss_payout session) (ss_configured_share_difficulty session) (Some issued)
                  (ss_current_work session)) ;;
          exec_ret issued
      end
  end.

Definition match_submission (session_id : Z) (header_hash : Hash256) (r : StratumSessionRegistry)
    : res StratumWorkMatch :=
  (session ← require_session session_id r;
  match ss_current_work session with
  | None => Ok MatchUnknown
  | Some current =>
      if arr_eqb (sw_header_hash (iw_wire_work current)) header_hash then Ok MatchCurrent
      else
      match ss_previous_work session with
      | Some previous =>
          if arr_eqb (sw_header_hash (iw_wire_work previous)) header_hash then Ok MatchStale
          else Ok MatchUnknown
      | None => Ok MatchUnknown
      end
  end)%stdpp.

Definition find_session (session_id : Z) (r : StratumSessionRegistry) : option StratumSession :=
  rg_sessions r !! session_id.
Definition current_template (r : StratumSessionRegistry) : option StratumTemplate := rg_current_template r.

Definition stratum_work_match_name (m : StratumWorkMatch) : string :=
  match m with MatchCurrent => "current" | MatchStale => "stale" | MatchUnknown => "unknown" end.
