(* ===== verification/StratumSubmission.v ===== *)
(** What a miner submits, into the share chain: [include/zano_p2pool/stratum_submission.hpp],
    [src/stratum_submission.cpp]. *)
From S2P Require Import Prelude CryptoHash PowTarget Share ShareChain BlockTemplate MiningContext.
From S2P Require Import StratumProtocol StratumSession.
Local Open Scope pool_scope.

Inductive StratumSubmissionDisposition :=
| SubAcceptedShare | SubBlockCandidate | SubStale | SubDuplicate | SubUnknownWork | SubRejected.
#[export] Instance StratumSubmissionDisposition_eq_dec : EqDecision StratumSubmissionDisposition.
Proof. solve_decision. Defined.

Record StratumSubmissionResult := mkSubmitted {
  sb_disposition : StratumSubmissionDisposition;
  sb_reject_reason : ShareRejectReason;
  sb_share_id : ShareId;
  sb_job_version : Z }.

(** The router with the two objects it refers to: the sessions and the chain. *)
Record StratumSubmissionRouter := mkRouter {
  sr_sessions : StratumSessionRegistry;
  sr_share_chain : ShareChain;
  sr_submitted_nonces : gmap Z (gset (Z * Z)) }.

Definition set_router_sessions (r : StratumSessionRegistry) (s : StratumSubmissionRouter)
    : StratumSubmissionRouter := mkRouter r (sr_share_chain s) (sr_submitted_nonces s).
Definition set_router_chain (c : ShareChain) (s : StratumSubmissionRouter) : StratumSubmissionRouter :=
  mkRouter (sr_sessions s) c (sr_submitted_nonces s).
Definition set_submitted (m : gmap Z (gset (Z * Z))) (s : StratumSubmissionRouter) : StratumSubmissionRouter :=
  mkRouter (sr_sessions s) (sr_share_chain s) m.

Definition kMinerDomain : list byte := [Byte.x5a; Byte.x50; Byte.x32; Byte.x4d; Byte.x00].

Definition miner_id_for_session (session : StratumSession) : MinerId :=
  match ss_payout session with
  | Some p => miner_id_from_payout p
  | None => cn_fast_hash (kMinerDomain ++ text_bytes (ss_username session))
  end.

(** The nonces submitted in a session. *)
Definition seen_nonces (s : StratumSubmissionRouter) (session_id : Z) : gset (Z * Z) :=
  default ∅ (sr_submitted_nonces s !! session_id).

Definition was_submitted (session_id job_version nonce : Z) (s : StratumSubmissionRouter) : bool :=
  match sr_submitted_nonces s !! session_id with
  | None => false
  | Some seen => bool_decide ((job_version, nonce) ∈ seen)
  end.

(** The parent and the height of a share on issued work: those snapshotted, or the
    best tip's. *)
Definition submission_parent (issued : StratumIssuedWork) (c : ShareChain) : ShareId * Z :=
  match iw_parent_binding issued with
  | Some b => (pb_parent_id b, pb_share_height b)
  | None =>
      match best_tip c with
      | Some tip => (cs_id tip, wrap64 (share_height (cs_share tip) + 1))
      | None => (arr_zero 32, 0)
      end
  end.

Definition submission_share (session : StratumSession) (issued : StratumIssuedWork)
    (submission : StratumSubmission) (now : Z) (c : ShareChain) : Share :=
  let '(parent, height) := submission_parent issued c in
  let ctx := iw_trusted_context issued in
  match ss_payout session with
  | Some p =>
      mkShare kShareVersion2 parent height now (ctx_zano_height ctx) (ctx_mining_header_hash ctx)
        (sm_nonce submission) (iw_share_difficulty issued) (ctx_network_difficulty ctx)
        (miner_id_from_payout p) (Some p)
  | None =>
      mkShare kShareVersion1 parent height now (ctx_zano_height ctx) (ctx_mining_header_hash ctx)
        (sm_nonce submission) (iw_share_difficulty issued) (ctx_network_difficulty ctx)
        (miner_id_for_session session) None
  end.

Definition no_id : ShareId := arr_zero 32.

Section Submit.
Context `{!ProgPow}.

(** From the admission of the share on. *)
Definition submit_issued (session : StratumSession) (issued : StratumIssuedWork)
    (submission : StratumSubmission) (now : Z) (mode : ProgPowZContextMode)
    : exec StratumSubmissionRouter StratumSubmissionResult :=
  s <- exec_get ;;
  let share := submission_share session issued submission now (sr_share_chain s) in
  id <- exec_const (λ _, share_id share) ;;
  result <- zoom sr_share_chain set_router_chain
              (submit_share share (iw_trusted_context issued) now mode) ;;
  if negb (bool_decide (disposition result = Connected)) && negb (bool_decide (disposition result = Orphan))
  then exec_ret (mkSubmitted SubRejected (reject_reason result) id (iw_job_version issued))
  else
  s <- exec_get ;;
  match find (sr_share_chain s) id ≫= pow_validation with
  | None => exec_ret (mkSubmitted SubRejected NoReject id (iw_job_version issued))
  | Some v =>
      exec_ret (mkSubmitted (if bool_decide (classification v = ClassBlock) then SubBlockCandidate
                             else SubAcceptedShare) NoReject id (iw_job_version issued))
  end.

Definition submit (session_id : Z) (submission : StratumSubmission) (now : Z) (mode : ProgPowZContextMode)
    : exec StratumSubmissionRouter StratumSubmissionResult :=
  s <- exec_get ;;
  let unknown := exec_ret (mkSubmitted SubUnknownWork NoReject no_id 0) in
  match find_session session_id (sr_sessions s) with
  | None => unknown
  | Some session =>
      if negb (ss_logged_in session) then unknown
      else
      match ss_current_work session with
      | None => unknown
      | Some issued =>
          m <- exec_const (λ s, match_submission session_id (sm_header_hash submission) (sr_sessions s)) ;;
          match m with
          | MatchStale =>
              exec_ret (mkSubmitted SubStale NoReject no_id
                (match ss_previous_work session with Some w => iw_job_version w | None => 0 end))
          | MatchUnknown => unknown
          | MatchCurrent =>
              let seen := seen_nonces s session_id in
              let key := (iw_job_version issued, sm_nonce submission) in
              do exec_modify (λ s, set_submitted (<[session_id := seen]> (sr_submitted_nonces s)) s) ;;
              if bool_decide (key ∈ seen)
              then exec_ret (mkSubmitted SubDuplicate NoReject no_id (iw_job_version issued))
              else
              do exec_modify (λ s, set_submitted
                   (<[session_id := {[key]} ∪ seen]> (sr_submitted_nonces s)) s) ;;
              submit_issued session issued submission now mode
          end
      end
  end.

End Submit.

Definition stratum_submission_disposition_name (d : StratumSubmissionDisposition) : string :=
  match d with
  | SubAcceptedShare => "accepted-share"
  | SubBlockCandidate => "block-candidate"
  | SubStale => "stale"
  | SubDuplicate => "duplicate"
  | SubUnknownWork => "unknown-work"
  | SubRejected => "rejected"
  end.
