(* ===== verification/StratumServer.v ===== *)
(** The Stratum server: [include/zano_p2pool/stratum_server.hpp], [src/stratum_server.cpp],
    without its sockets.  Its locks serialise the calls, so that a run of the server is a
    sequence of them. *)
From S2P Require Import Prelude CryptoHash PowTarget Share ShareChain BlockTemplate RpcClient.
From S2P Require Import StratumProtocol StratumSession StratumSubmission.
Local Open Scope pool_scope.

Record StratumServerConfig := mkServerConfig {
  sg_bind_address : text;
  sg_port : Z;
  sg_max_line_bytes : nat;
  sg_sessions : StratumSessionConfig;
  sg_max_clients : nat }.

(** [sv_shared]: the chain and its mutex are the node's.  [sv_has_handler] and
    [sv_accepted]: whether an accepted-share handler is set, and its calls so far. *)
Record StratumTcpServer := mkServer {
  sv_config : StratumServerConfig;
  sv_shared : bool;
  sv_has_handler : bool;
  sv_router : StratumSubmissionRouter;
  sv_client_sessions : gmap Z Z;
  sv_accepted : list (Share * bool) }.

Definition set_router (r : StratumSubmissionRouter) (s : StratumTcpServer) : StratumTcpServer :=
  mkServer (sv_config s) (sv_shared s) (sv_has_handler s) r (sv_client_sessions s) (sv_accepted s).
Definition set_clients (m : gmap Z Z) (s : StratumTcpServer) : StratumTcpServer :=
  mkServer (sv_config s) (sv_shared s) (sv_has_handler s) (sv_router s) m (sv_accepted s).
Definition add_accepted (share : Share) (block_candidate : bool) (s : StratumTcpServer) : StratumTcpServer :=
  mkServer (sv_config s) (sv_shared s) (sv_has_handler s) (sv_router s) (sv_client_sessions s)
    (sv_accepted s ++ [(share, block_candidate)]).

Abbreviation sv_registry s := (sr_sessions (sv_router s)).
Abbreviation sv_chain s := (sr_share_chain (sv_router s)).
Definition set_registry (r : StratumSessionRegistry) (s : StratumTcpServer) : StratumTcpServer :=
  set_router (set_router_sessions r (sv_router s)) s.
Definition set_server_chain (c : ShareChain) (s : StratumTcpServer) : StratumTcpServer :=
  set_router (set_router_chain c (sv_router s)) s.
Definition on_registry {A} : exec StratumSessionRegistry A → exec StratumTcpServer A :=
  zoom (λ s, sv_registry s) set_registry.

(** The checks of the rate limit's own configuration are those of the token bucket. *)
Definition new_server (config : StratumServerConfig) (shared_chain : option ShareChain)
    (shared_mutex has_handler : bool) : res StratumTcpServer :=
  (sessions ← new_registry (sg_sessions config);
  let router := mkRouter sessions (default empty_chain shared_chain) ∅ in
  _ ← throw_if (bool_decide (sg_bind_address config = [])) RuntimeError
        "Stratum bind address must not be empty";
  _ ← throw_if (sg_max_line_bytes config =? 0)%nat RuntimeError "Stratum max line size must be nonzero";
  _ ← throw_if (sg_max_clients config =? 0)%nat RuntimeError "Stratum max clients must be nonzero";
  _ ← throw_if (negb (eqb (bool_decide (shared_chain = None)) (negb shared_mutex))) RuntimeError
        "shared Stratum chain and mutex must be supplied together";
  mret (mkServer config shared_mutex has_handler router ∅ []))%stdpp.

Definition submission_error_message (result : StratumSubmissionResult) : string :=
  match sb_disposition result with
  | SubStale => "stale work"
  | SubDuplicate => "duplicate work"
  | SubUnknownWork => "unknown work"
  | SubRejected =>
      if negb (bool_decide (sb_reject_reason result = NoReject))
      then share_reject_reason_name (sb_reject_reason result)
      else "share rejected"
  | SubAcceptedShare | SubBlockCandidate => "share rejected"
  end.

(** The checks of the template's parent against the node's chain. *)
Definition template_parent_check (c : ShareChain) (b : StratumShareParentBinding) : res () :=
  if arr_eqb (pb_parent_id b) (arr_zero 32)
  then throw_if (negb (pb_share_height b =? 0)) RuntimeError
         "root Stratum template binding has invalid share height"
  else
  match find c (pb_parent_id b) with
  | None => throw RuntimeError "published Stratum template parent is no longer connected"
  | Some parent =>
      (_ ← throw_if ((share_height (cs_share parent) =? u64_max) ||
                     negb (pb_share_height b =? wrap64 (share_height (cs_share parent) + 1))) RuntimeError
             "published Stratum template parent height is inconsistent";
      throw_if (enforces_sidechain_difficulty c && negb (validated_ancestry parent)) RuntimeError
        "published Stratum template parent lost validated ancestry")%stdpp
  end.

Definition server_issue_work (session_id : Z) : exec StratumTcpServer StratumIssuedWork :=
  s <- exec_get ;;
  match current_template (sv_registry s) with
  | None => on_registry (issue_work session_id None None)
  | Some t =>
      if negb (sv_shared s) then on_registry (issue_work session_id None None)
      else
      match tp_parent_binding t with
      | None => exec_throw RuntimeError "full-node Stratum template has no sidechain parent binding"
      | Some b =>
          do exec_const (λ s, template_parent_check (sv_chain s) b) ;;
          consensus_difficulty <- exec_const (λ s,
            if enforces_sidechain_difficulty (sv_chain s)
            then Some <$> expected_child_share_difficulty (sv_chain s) (pb_parent_id b) (tp_network_difficulty t)
            else Ok None) ;;
          on_registry (issue_work session_id consensus_difficulty (Some b))
      end
  end.

Definition server_share_count (s : StratumTcpServer) : nat := connected_size (sv_chain s).
Definition client_count (s : StratumTcpServer) : nat := size (sv_client_sessions s).
Definition current_template_version (s : StratumTcpServer) : Z :=
  match current_template (sv_registry s) with Some t => tp_version t | None => 0 end.

(** The clients in the order of the [std::map], by descriptor. *)
Definition fd_le (p q : Z * Z) : Prop := p.1 ≤ q.1.
#[export] Instance fd_le_dec p q : Decision (fd_le p q).
Proof. unfold fd_le. apply _. Defined.
Definition clients_by_fd (s : StratumTcpServer) : list (Z * Z) :=
  merge_sort fd_le (map_to_list (sv_client_sessions s)).

Section Server.
Context `{!ProgPow} `{!JsonC} `{!JsonTokenerEnd}.

(** Work for the miners logged in; [dup] tells whether a descriptor can be duplicated. *)
Fixpoint notify_clients (dup : Z → bool) (clients : list (Z * Z)) (notifications : list (Z * text))
    : exec StratumTcpServer (list (Z * text)) :=
  match clients with
  | [] => exec_ret notifications
  | (fd, session_id) :: rest =>
      s <- exec_get ;;
      match find_session session_id (sv_registry s) with
      | None => notify_clients dup rest notifications
      | Some session =>
          if negb (ss_logged_in session) then notify_clients dup rest notifications
          else
          work <- server_issue_work session_id ;;
          let notification := stratum_work_notification_json (iw_wire_work work) in
          if dup fd then notify_clients dup rest (notifications ++ [(fd, notification)])
          else notify_clients dup rest notifications
      end
  end.

(** The version, and what is sent once the locks are released. *)
Definition server_publish_template (dup : Z → bool) (header_hash seed_hash : Hash256) (height : Z)
    (network_difficulty : Difficulty128) (binding : option StratumShareParentBinding)
    : exec StratumTcpServer (Z * list (Z * text)) :=
  version <- on_registry (publish_template header_hash seed_hash height network_difficulty binding) ;;
  s <- exec_get ;;
  notifications <- notify_clients dup (clients_by_fd s) [] ;;
  exec_ret (version, notifications).

(** The handler is called with the share admitted, its exceptions swallowed. *)
Definition hand_over (result : StratumSubmissionResult) (s : StratumTcpServer) : StratumTcpServer :=
  if sv_has_handler s then
    match find (sv_chain s) (sb_share_id result) with
    | None => s
    | Some e => add_accepted (cs_share e) (bool_decide (sb_disposition result = SubBlockCandidate)) s
    end
  else s.

Definition accepted (d : StratumSubmissionDisposition) : bool :=
  match d with SubAcceptedShare | SubBlockCandidate => true | _ => false end.

Definition dispatch_request (session_id : Z) (request : StratumRequest) (now : Z) : exec StratumTcpServer text :=
  match stratum_method request with
  | SubmitLogin =>
      login_request <- exec_const (λ _, parse_stratum_login request) ;;
      do on_registry (login session_id login_request) ;;
      work <- server_issue_work session_id ;;
      exec_ret (stratum_success_json (rq_id request) ++ stratum_work_notification_json (iw_wire_work work))
  | GetWork =>
      work <- server_issue_work session_id ;;
      exec_ret (stratum_work_json (rq_id request) (iw_wire_work work))
  | SubmitHashrate =>
      s <- exec_get ;;
      match find_session session_id (sv_registry s) with
      | Some session =>
          if ss_logged_in session then exec_ret (stratum_success_json (rq_id request))
          else exec_ret (stratum_error_json (rq_id request) kStratumErrorDefault
                           (text_of "session is not logged in"))
      | None => exec_ret (stratum_error_json (rq_id request) kStratumErrorDefault
                            (text_of "session is not logged in"))
      end
  | SubmitWork =>
      submission <- exec_const (λ _, parse_stratum_submission request) ;;
      result <- zoom sv_router set_router (submit session_id submission now Light) ;;
      if accepted (sb_disposition result) then
        do exec_modify (hand_over result) ;;
        exec_ret (stratum_success_json (rq_id request))
      else exec_ret (stratum_error_json (rq_id request) kStratumErrorDefault
                       (text_of (submission_error_message result)))
  | UnknownMethod =>
      exec_ret (stratum_error_json (rq_id request) kStratumErrorMethodNotFound (text_of "unknown method"))
  end.

Definition handle_request (session_id : Z) (request : StratumRequest) (now : Z) (s : StratumTcpServer)
    : text * StratumTcpServer :=
  match dispatch_request session_id request now s with
  | (Ok response, s') => (response, s')
  | (Throw x, s') => (stratum_error_json (rq_id request) kStratumErrorDefault (text_of (exn_what x)), s')
  end.

Definition handle_line (session_id : Z) (line : text) (now : Z) (s : StratumTcpServer)
    : text * StratumTcpServer :=
  match parse_stratum_request line with
  | Ok request => handle_request session_id request now s
  | Throw x => (stratum_error_json IdNone kStratumErrorParse (text_of (exn_what x)), s)
  end.

(** ** Clients *)

Definition register_client_fd (fd session_id : Z) (s : StratumTcpServer) : StratumTcpServer :=
  set_clients (<[fd := session_id]> (sv_client_sessions s)) s.
Definition unregister_client_fd (fd : Z) (s : StratumTcpServer) : StratumTcpServer :=
  set_clients (delete fd (sv_client_sessions s)) s.

(** A round of [accept_loop] for an accepted descriptor: the session of the client
    that is served. *)
Definition accept_client (client_fd : Z) (s : StratumTcpServer) : option Z * StratumTcpServer :=
  if (sg_max_clients (sv_config s) <=? size (sv_client_sessions s))%nat then (None, s)
  else
  match on_registry create_session s with
  | (Ok session_id, s') => (Some session_id, register_client_fd client_fd session_id s')
  | (Throw _, s') => (None, unregister_client_fd client_fd s')
  end.

(** The end of [client_loop]. *)
Definition client_gone (client_fd session_id : Z) (s : StratumTcpServer) : StratumTcpServer :=
  unregister_client_fd client_fd (set_registry (remove_session session_id (sv_registry s)) s).

(** [pending.find('\n')]: the line before it and the rest after it. *)
Fixpoint split_line (pending : text) : option (text * text) :=
  match pending with
  | [] => None
  | c :: rest =>
      if Ascii.eqb c newline then Some ([], rest)
      else match split_line rest with
           | Some (line, rest) => Some (c :: line, rest)
           | None => None
           end
  end.

(** [line.back() == '\r'] and [pop_back]. *)
Definition drop_cr (line : text) : text :=
  match rev line with
  | c :: before => if char_Z c =? 13 then rev before else line
  | [] => line
  end.

(** The clock, the socket and the token bucket of the client's thread. *)
Section Loop.
Context {W : Type} (unix_time_seconds : W → Z * W) (send_all : text → W → bool * W)
  (consume : W → bool * W).

(** [request_too_large] is sent before the connection is given up. *)
Definition request_too_large : text :=
  stratum_error_json IdNone kStratumErrorParse (text_of "Stratum request line too large").

(** The inner loop: whether to go on, what is pending, and the new state. *)
Fixpoint drain (fuel : nat) (session_id : Z) (pending : text) (s : StratumTcpServer) (w : W)
    : bool * text * StratumTcpServer * W :=
  match fuel with
  | O => (true, pending, s, w)
  | S fuel =>
      match split_line pending with
      | None => (true, pending, s, w)
      | Some (line, rest) =>
          if (sg_max_line_bytes (sv_config s) <? length line)%nat
          then let '(_, w) := send_all request_too_large w in (false, pending, s, w)
          else
          let line := drop_cr line in
          if bool_decide (line = []) then drain fuel session_id rest s w
          else
          let '(allowed, w) := consume w in
          if negb allowed then (false, rest, s, w)
          else
          let '(now, w) := unix_time_seconds w in
          let '(response, s) := handle_line session_id line now s in
          if bool_decide (response = []) then drain fuel session_id rest s w
          else
          let '(sent, w) := send_all response w in
          if negb sent then (false, rest, s, w) else drain fuel session_id rest s w
      end
  end.

(** One [recv]; every line takes a byte at least. *)
Definition client_receive (session_id : Z) (received pending : text) (s : StratumTcpServer) (w : W)
    : bool * text * StratumTcpServer * W :=
  let pending := pending ++ received in
  if (sg_max_line_bytes (sv_config s) <? length pending)%nat && bool_decide (split_line pending = None)
  then let '(_, w) := send_all request_too_large w in (false, pending, s, w)
  else drain (length pending) session_id pending s w.

(** The buffers received until the connection ends or is given up. *)
Fixpoint client_loop (session_id : Z) (buffers : list text) (pending : text) (s : StratumTcpServer) (w : W)
    : StratumTcpServer * W :=
  match buffers with
  | [] => (s, w)
  | received :: rest =>
      let '(keep_running, pending, s, w) := client_receive session_id received pending s w in
      if keep_running then client_loop session_id rest pending s w else (s, w)
  end.

End Loop.
End Server.
