(* ===== verification/StratumInv.v ===== *)
(** The invariant of the Stratum sessions.  It speaks of the templates published so
    far: every piece of work a session holds was derived from one of them. *)
From S2P Require Import Prelude CryptoHash PowTarget Share ShareChain BlockTemplate.
From S2P Require Import StratumProtocol StratumSession.
Local Open Scope pool_scope.

(** Roots are at height zero, and only they. *)
Definition binding_ok (binding : option StratumShareParentBinding) : Prop :=
  ∀ b, binding = Some b → pb_parent_id b = arr_zero 32 ↔ pb_share_height b = 0.

(** The height of a binding is a 64-bit number. *)
Definition binding_typed (binding : option StratumShareParentBinding) : Prop :=
  ∀ b, binding = Some b → is_u64 (pb_share_height b).

Record template_ok (t : StratumTemplate) : Prop := {
  to_height : is_u64 (tp_height t);
  to_typed : binding_typed (tp_parent_binding t);
  to_difficulty : 0 < arr_Z (tp_network_difficulty t);
  to_binding : binding_ok (tp_parent_binding t) }.

(** The work handed to session [id] comes from template [t]. *)
Record from_template (id : Z) (t : StratumTemplate) (w : StratumIssuedWork) : Prop := {
  ft_version : iw_job_version w = tp_version t;
  ft_session : iw_session_id w = id;
  ft_wire : iw_wire_work w =
    mkStratumWork (tp_header_hash t) (tp_seed_hash t) (sw_share_target (iw_wire_work w)) (tp_height t);
  ft_context : iw_trusted_context w = mkContext (tp_height t) (tp_header_hash t) (tp_network_difficulty t);
  ft_parent : tp_parent_binding t ≠ None → iw_parent_binding w = tp_parent_binding t;
  ft_binding : binding_ok (iw_parent_binding w);
  ft_typed : is_u64 (tp_height t) ∧ binding_typed (iw_parent_binding w);
  ft_difficulty : 0 < arr_Z (iw_share_difficulty w) ≤ arr_Z (tp_network_difficulty t);
  ft_target : arr_Z (big_endian (sw_share_target (iw_wire_work w))) = u256_max / arr_Z (iw_share_difficulty w) }.

Definition held (ss : StratumSession) (w : StratumIssuedWork) : Prop :=
  ss_current_work ss = Some w ∨ ss_previous_work ss = Some w.

Record config_ok (config : StratumSessionConfig) : Prop := {
  co_min : 0 < sc_minimum_share_difficulty config;
  co_default : sc_minimum_share_difficulty config ≤ sc_default_share_difficulty config ≤
               sc_maximum_share_difficulty config;
  co_max : sc_maximum_share_difficulty config ≤ u64_max }.

(** A session of a registry whose next identifier is [next]. *)
Record session_ok (config : StratumSessionConfig) (published : list StratumTemplate) (next id : Z)
    (ss : StratumSession) : Prop := {
  so_id : ss_id ss = id;
  so_range : 1 ≤ id ≤ u64_max;
  so_fresh : next = 0 ∨ id < next;
  so_difficulty : sc_minimum_share_difficulty config ≤ ss_configured_share_difficulty ss ≤
                  sc_maximum_share_difficulty config;
  so_payout : ss_payout ss = if ss_logged_in ss then decoded_payout (ss_username ss) else None;
  so_works : ∀ w, held ss w → ss_logged_in ss = true ∧ ∃ t, t ∈ published ∧ from_template id t w }.

Record reg_inv (published : list StratumTemplate) (r : StratumSessionRegistry) : Prop := {
  ri_config : config_ok (rg_config r);
  ri_versions : ∀ i t, published !! i = Some t → tp_version t = Z.of_nat i + 1 ∧ template_ok t;
  ri_current : last published = rg_current_template r;
  ri_next_version : rg_next_template_version r = wrap64 (Z.of_nat (length published) + 1);
  ri_versions_bound : Z.of_nat (length published) ≤ u64_max;
  ri_next_id : is_u64 (rg_next_session_id r);
  ri_sessions : ∀ id ss, rg_sessions r !! id = Some ss →
    session_ok (rg_config r) published (rg_next_session_id r) id ss }.

(** ** Templates *)

(** What was published before, and a new template when [current] is one. *)
Definition record_template (current : option StratumTemplate) (published : list StratumTemplate)
    : list StratumTemplate :=
  match current with
  | None => published
  | Some t => match last published with
              | Some t' => if (tp_version t' =? tp_version t) then published else published ++ [t]
              | None => published ++ [t]
              end
  end.

Lemma record_template_same published r : reg_inv published r →
  record_template (rg_current_template r) published = published.
Proof.
  intros Hr. unfold record_template. rewrite <-(ri_current _ _ Hr). destruct (last published); [|done].
  by rewrite Z.eqb_refl.
Qed.

Lemma versions_unique published r t t' :
  reg_inv published r → t ∈ published → t' ∈ published → tp_version t = tp_version t' → t = t'.
Proof.
  intros Hr [i Hi]%list_elem_of_lookup [j Hj]%list_elem_of_lookup Hv.
  apply (ri_versions _ _ Hr) in Hi as Hi'. apply (ri_versions _ _ Hr) in Hj as Hj'.
  assert (i = j) as -> by lia. by simplify_eq.
Qed.

Lemma current_published published r t :
  reg_inv published r → rg_current_template r = Some t → t ∈ published ∧ template_ok t.
Proof.
  intros Hr Ht. rewrite <-(ri_current _ _ Hr) in Ht. apply last_Some_elem_of in Ht as Hin. split; [done|].
  apply list_elem_of_lookup in Hin as [i Hi]. by apply (ri_versions _ _ Hr) in Hi as [_ ?].
Qed.

Lemma binding_check_ok what b u : binding_check what b = Ok u → binding_ok b.
Proof.
  intros H b' ->. cbn in H. res_inv. bool_prop. destruct (arr_eqb _ _) eqn:E; cbn in *; bool_prop; naive_solver.
Qed.

Lemma session_ok_mono config published published' next next' id ss :
  published ⊆ published' → next' = 0 ∨ (next ≠ 0 ∧ next ≤ next') →
  session_ok config published next id ss → session_ok config published' next' id ss.
Proof.
  intros Hp Hn [? ? Hf ? ? Hw]. constructor; try done.
  - destruct Hn as [?|[? ?]]; [by left|right]. destruct Hf; lia.
  - intros w Hh. destruct (Hw w Hh) as (Hl & t & Ht & ?). eauto.
Qed.

Lemma publish_inv published r header seed height d b out r' :
  reg_inv published r → is_u64 height → binding_typed b →
  publish_template header seed height d b r = (out, r') →
  reg_inv (record_template (rg_current_template r') published) r' ∧ rg_sessions r' = rg_sessions r ∧
  rg_config r' = rg_config r ∧
  ∀ version, out = Ok version →
    rg_current_template r' = Some (mkTemplate version header seed height d b).
Proof.
  intros Hr Hheight Hbt. unfold publish_template.
  assert (reg_inv (record_template (rg_current_template r) published) r) as Hsame
    by by rewrite (record_template_same _ _ Hr).
  destruct (difficulty128_is_zero d) eqn:Ez; [by intros [= <- <-]|].
  destruct (binding_check _ b) as [u|x] eqn:Eb; [|by intros [= <- <-]]. apply binding_check_ok in Eb.
  destruct (same_template _ _ _ _ _ _) as [v|] eqn:Es.
  { intros [= <- <-]. split_and!; try done. intros version [= <-]. unfold same_template in Es.
    destruct (rg_current_template r) as [t|]; [|done]. destruct (_ && _) eqn:E; [|done]. bool_prop.
    destruct t; cbn in *. by simplify_eq. }
  destruct (_ =? 0) eqn:En; [by intros [= <- <-]|]. intros [= <- <-]. cbn. bool_prop.
  rewrite (ri_next_version _ _ Hr) in *. set (t := mkTemplate _ _ _ _ _ _).
  pose proof (ri_versions_bound _ _ Hr) as Hb.
  assert (Z.of_nat (length published) + 1 ≤ u64_max) as Hlt.
  { destruct (decide (Z.of_nat (length published) = u64_max)) as [E|]; [by rewrite E in En|lia]. }
  assert (wrap64 (Z.of_nat (length published) + 1) = Z.of_nat (length published) + 1) as Hw
    by (apply wrap64_id; unfold is_u64; lia).
  assert (record_template (Some t) published = published ++ [t]) as Hrec.
  { cbn. destruct (last published) as [t'|] eqn:El; [|done]. rewrite last_lookup in El.
    pose proof (lookup_lt_Some _ _ _ El). apply (ri_versions _ _ Hr) in El as [Hv _]. rewrite (proj2 (Z.eqb_neq _ _)); [done|].
    cbn [t tp_version]. rewrite Hw. lia. }
  change (match last published with Some _ => _ | None => _ end) with (record_template (Some t) published).
  rewrite Hrec. split_and!; try done; [|by intros version [= <-]].
  constructor; cbn; try apply Hr.
  - intros i t0 Hi. apply lookup_snoc_Some in Hi as [[_ Hi]|[-> <-]]; [by apply (ri_versions _ _ Hr)|].
    split; [exact Hw|]. constructor; [done..| |done]. rewrite difficulty128_is_zero_Z in Ez. bool_prop.
    pose proof (diff128_range d). change (0 < arr_Z d). lia.
  - apply last_snoc.
  - rewrite Hw, length_app. cbn. f_equal. lia.
  - rewrite length_app. cbn. lia.
  - intros id ss Hs. apply (ri_sessions _ _ Hr) in Hs. eapply session_ok_mono; [| |done].
    + set_solver.
    + destruct (decide (rg_next_session_id r = 0)); [by left|right; lia].
Qed.

(** ** Sessions *)

Lemma new_registry_inv config r :
  is_u64 (sc_minimum_share_difficulty config) → is_u64 (sc_maximum_share_difficulty config) →
  new_registry config = Ok r → reg_inv [] r.
Proof.
  unfold is_u64. intros Hmin Hmax H. unfold new_registry in H. res_inv. bool_prop.
  constructor; cbn; try done. constructor; lia.
Qed.

Lemma set_sessions_inv published r m :
  reg_inv published r →
  (∀ id ss, m !! id = Some ss → session_ok (rg_config r) published (rg_next_session_id r) id ss) →
  reg_inv published (set_sessions m r).
Proof. intros Hr Hm. constructor; try apply Hr. exact Hm. Qed.

Lemma update_inv published r id ss :
  reg_inv published r → session_ok (rg_config r) published (rg_next_session_id r) id ss →
  reg_inv published (set_sessions (<[id := ss]> (rg_sessions r)) r).
Proof.
  intros Hr Hs. apply set_sessions_inv; [done|]. intros i s. rewrite lookup_insert_Some.
  intros [[<- <-]|[_ Hi]]; [done|by apply (ri_sessions _ _ Hr)].
Qed.

Lemma remove_inv published r id : reg_inv published r → reg_inv published (remove_session id r).
Proof.
  intros Hr. apply set_sessions_inv; [done|]. intros i s [_ Hi]%lookup_delete_Some.
  by apply (ri_sessions _ _ Hr).
Qed.

(** A session that is created is new. *)
Lemma create_inv published r out r' :
  reg_inv published r → create_session r = (out, r') →
  reg_inv published r' ∧ rg_current_template r' = rg_current_template r ∧
  match out with
  | Throw _ => r' = r
  | Ok id => 1 ≤ id ≤ u64_max ∧ id = rg_next_session_id r ∧
             rg_next_session_id r' = wrap64 (id + 1) ∧ rg_sessions r !! id = None ∧
             ∃ ss, rg_sessions r' = <[id := ss]> (rg_sessions r)
  end.
Proof.
  intros Hr. unfold create_session. destruct (_ =? 0) eqn:E; [by intros [= <- <-]|]. bool_prop.
  set (id := rg_next_session_id r) in *. pose proof (ri_next_id _ _ Hr) as Hid. unfold is_u64 in Hid. fold id in Hid.
  assert (rg_sessions r !! id = None) as Hnew.
  { destruct (rg_sessions r !! id) as [ss|] eqn:Es; [|done]. apply (ri_sessions _ _ Hr) in Es as [? ? Hf].
    destruct Hf; unfold id in *; lia. }
  rewrite Hnew. intros [= <- <-]. split_and!; try done; try lia; [|by eexists].
  assert (is_u64 (wrap64 (id + 1))) as Hw by (pose proof (Z.mod_pos_bound (id + 1) 18446744073709551616);
    unfold is_u64, wrap64, u64_max; lia).
  assert (wrap64 (id + 1) = 0 ∨ (id ≠ 0 ∧ id < wrap64 (id + 1))) as Hnext.
  { destruct (decide (id = u64_max)) as [->|]; [by left|right]. rewrite wrap64_id by (unfold is_u64; lia). lia. }
  constructor; try apply Hr; [done|]. cbn. intros i s. rewrite lookup_insert_Some. intros [[<- <-]|[_ Hi]].
  - pose proof (co_default _ (ri_config _ _ Hr)).
    constructor; cbn; try done; try lia. by intros w [|].
  - apply (ri_sessions _ _ Hr) in Hi. eapply session_ok_mono; [done| |done]. fold id.
    destruct Hnext; [by left|right; lia].
Qed.

Lemma clamp_u64_range v lo hi : lo ≤ hi → lo ≤ clamp_u64 v lo hi ≤ hi.
Proof. intros H. unfold clamp_u64. repeat case_match; bool_prop; lia. Qed.

Lemma login_inv published r id request out r' :
  reg_inv published r → login id request r = (out, r') →
  reg_inv published r' ∧ rg_current_template r' = rg_current_template r ∧
  rg_next_session_id r' = rg_next_session_id r ∧
  match out with
  | Throw _ => r' = r
  | Ok _ => ∃ ss, rg_sessions r' = <[id := ss]> (rg_sessions r) ∧ ss_logged_in ss = true ∧
                  ss_username ss = lg_username request ∧ ss_payout ss = decoded_payout (lg_username request) ∧
                  ∀ w, ¬ held ss w
  end.
Proof.
  intros Hr. unfold login, exec_bind, exec_const, exec_get, exec_throw, update_session, exec_modify, require_session.
  destruct (rg_sessions r !! id) as [ss|] eqn:Es; cbn; [|by intros [= <- <-]].
  case_bool_decide; [by intros [= <- <-]|]. intros [= <- <-].
  apply (ri_sessions _ _ Hr) in Es. destruct Es as [Hid Hrange Hfresh _ _ _].
  split_and!; try done; [|eexists; split_and!; try done; by intros w [|]].
  apply update_inv; [done|]. constructor; cbn; try done.
  - apply clamp_u64_range. pose proof (co_default _ (ri_config _ _ Hr)). lia.
  - by intros w [|].
Qed.

(** ** Work *)

Lemma effective_difficulty published r id ss t d :
  reg_inv published r → rg_sessions r !! id = Some ss → template_ok t →
  effective_share_difficulty ss t = Ok d →
  0 < arr_Z d ∧ arr_Z d = Z.min (arr_Z (tp_network_difficulty t)) (ss_configured_share_difficulty ss).
Proof.
  intros Hr Hs Ht. unfold effective_share_difficulty, difficulty128_from_decimal, parse_uint128_decimal.
  apply (ri_sessions _ _ Hr), so_difficulty in Hs. destruct (ri_config _ _ Hr) as [? ? Hmax].
  pose proof (to_difficulty _ Ht). unfold u64_max in Hmax.
  rewrite parse_u128_dec_str by (unfold u128_max; lia). cbn. intros [= <-].
  assert (arr_Z (fill_be 16 (ss_configured_share_difficulty ss)) = ss_configured_share_difficulty ss) as Ha.
  { rewrite arr_Z_fill_be. apply Z.mod_small. change (pow256 16) with (u128_max + 1). unfold u128_max. lia. }
  destruct (arr_lt_spec (tp_network_difficulty t) (fill_be 16 (ss_configured_share_difficulty ss))); lia.
Qed.

Lemma job_difficulty_range published r id ss t cd d :
  reg_inv published r → rg_sessions r !! id = Some ss → template_ok t → job_difficulty ss t cd = Ok d →
  0 < arr_Z d ≤ arr_Z (tp_network_difficulty t) ∧ ∀ d', cd = Some d' → d = d'.
Proof.
  intros Hr Hs Ht. destruct cd as [d'|]; cbn [job_difficulty]; intros H.
  - res_inv. rewrite difficulty128_is_zero_Z in *. bool_prop. pose proof (diff128_range d).
    match goal with H : arr_lt _ _ = false |- _ => rewrite arr_lt_Z in H end. bool_prop.
    split; [lia|]. by intros ? [= <-].
  - destruct (effective_difficulty _ _ _ _ _ _ Hr Hs Ht H) as [Hpos Heq]. split; [lia|done].
Qed.

Lemma job_parent_ok t b b' :
  job_parent t b = Ok b' → (tp_parent_binding t ≠ None → b' = tp_parent_binding t) ∧
  (tp_parent_binding t = None → b' = b).
Proof.
  unfold job_parent. destruct (tp_parent_binding t) eqn:E; intros H; [|by res_inv].
  apply res_bind_ok in H as (? & _ & H). injection H as <-. done.
Qed.

Lemma target_of_difficulty (d : Difficulty128) target :
  0 < arr_Z d → difficulty_to_target (difficulty128_to_decimal d) = Ok target →
  arr_Z (big_endian target) = u256_max / arr_Z d.
Proof.
  intros Hd. unfold difficulty_to_target. rewrite parse_difficulty_decimal.
  - cbn. intros [= <-]. by apply target_Z.
  - rewrite difficulty128_is_zero_Z. apply Z.eqb_neq. lia.
Qed.

(** What [issue_work] does to a registry. *)
Inductive issued (published : list StratumTemplate) (id : Z) (cd : option Difficulty128)
    (b : option StratumShareParentBinding) (r : StratumSessionRegistry)
    : res StratumIssuedWork → StratumSessionRegistry → Prop :=
| issued_throw x : issued published id cd b r (Throw x) r
| issued_work t ss ss' w :
    rg_current_template r = Some t → t ∈ published → rg_sessions r !! id = Some ss →
    from_template id t w → ss_current_work ss' = Some w →
    ss_logged_in ss' = true → ss_username ss' = ss_username ss → ss_payout ss' = ss_payout ss →
    ss_previous_work ss' = ss_previous_work ss ∨ ss_previous_work ss' = ss_current_work ss →
    (∀ d, cd = Some d → iw_share_difficulty w = d) →
    (tp_parent_binding t = None → iw_parent_binding w = b) →
    issued published id cd b r (Ok w) (set_sessions (<[id := ss']> (rg_sessions r)) r).

Lemma set_sessions_id r id ss :
  rg_sessions r !! id = Some ss → set_sessions (<[id := ss]> (rg_sessions r)) r = r.
Proof. intros H. unfold set_sessions. rewrite insert_id by done. by destruct r. Qed.

Lemma issue_work_inv published r id cd b out r' :
  reg_inv published r → binding_typed b → issue_work id cd b r = (out, r') →
  reg_inv published r' ∧ issued published id cd b r out r'.
Proof.
  intros Hr Hbt. unfold issue_work, exec_bind, exec_const, exec_get, exec_throw, exec_ret, require_session.
  assert (∀ x, reg_inv published r ∧ issued published id cd b r (Throw x) r) as Hthrow by (split; [done|constructor]).
  destruct (rg_sessions r !! id) as [ss|] eqn:Es; cbn beta iota; [|intros [= <- <-]; apply Hthrow].
  destruct (ss_logged_in ss) eqn:El; cbn beta iota delta [negb]; [|intros [= <- <-]; apply Hthrow].
  destruct (rg_current_template r) as [t|] eqn:Et; [|intros [= <- <-]; apply Hthrow].
  destruct (current_published _ _ _ Hr Et) as [Hin Hok].
  destruct (job_parent t b) as [b'|x] eqn:Ep; [|intros [= <- <-]; apply Hthrow]. apply job_parent_ok in Ep as [Hp1 Hp2].
  destruct (binding_check _ b') as [u|x] eqn:Ebc; [|intros [= <- <-]; apply Hthrow]. apply binding_check_ok in Ebc.
  destruct (job_difficulty ss t cd) as [d|x] eqn:Ed; [|intros [= <- <-]; apply Hthrow].
  destruct (job_difficulty_range _ _ _ _ _ _ _ Hr Es Hok Ed) as [Hd Hcd].
  pose proof (ri_sessions _ _ Hr _ _ Es) as Hs.
  destruct (same_job ss t d b') as [w|] eqn:Ej.
  - intros [= <- <-]. split; [done|]. unfold same_job in Ej.
    destruct (ss_current_work ss) as [w'|] eqn:Ew; [|done]. destruct (_ && _) eqn:E; [|done]. bool_prop. simplify_eq.
    rewrite <-(set_sessions_id r id ss Es) at 2.
    destruct (so_works _ _ _ _ _ Hs w (or_introl Ew)) as (_ & t' & Hin' & Hft).
    assert (t' = t) as -> by (apply (versions_unique _ _ _ _ Hr Hin' Hin); by rewrite <-(ft_version _ _ _ Hft)).
    econstructor; eauto.
  - destruct (difficulty_to_target _) as [target|x] eqn:Etg; [|intros [= <- <-]; apply Hthrow].
    apply target_of_difficulty in Etg; [|lia]. cbv zeta. intros [= <- <-].
    set (w := derived_work _ _ _ _ _). set (ss' := mkSession _ _ _ _ _ _ _ _).
    assert (from_template id t w) as Hft by (constructor; cbn; try done; try apply Hs; split; [apply Hok|];
      destruct (tp_parent_binding t) eqn:Etb; [by rewrite Hp1, <-Etb; [apply Hok|]|by rewrite Hp2]).
    split; [|econstructor; eauto].
    apply update_inv; [done|]. destruct Hs as [? ? ? ? Hpay Hw]. constructor; cbn; try done; [by rewrite El in Hpay|].
    intros w0 [[= <-]|Hprev]; [eauto|]. split; [done|]. apply (Hw w0). by left.
Qed.
