(* ===== verification/NodeState.v ===== *)
(** The state of the node protocol and the operations on it that do not depend
    on a message: [include/zano_p2pool/p2p_node.hpp] and, of [src/p2p_node.cpp],
    the bounded tables of historical recovery, the local mining context and the
    reconciliation with the Zano chain.  [state_mutex_] is held by each public
    operation, so each is atomic. *)
From S2P Require Import Prelude CryptoHash PowTarget Share SidechainParams ShareChain P2pProtocol.
From S2P Require Import P2pShare P2pSync PplnsCoinbase PayoutPolicy BlockTemplate MiningContext.
From S2P Require Import WorkArchive WorkRetrieval HistoricalTrust Restart.
Local Open Scope pool_scope.

(** ** Records *)

Record P2pCanonicalReconciliationResult := mkReconciled {
  rk_pruned_connected_shares : nat;
  rk_revoked_trusted_work : nat }.

Record P2pNodeMetricsSnapshot := mkMetrics {
  ms_connected_shares : nat;
  ms_orphan_shares : nat;
  ms_tip_height : Z;
  ms_trusted_work_contexts : nat }.

Record PendingHistoricalCandidate := mkPendingHistorical {
  ph_share : Share;
  ph_required_capability : Z;
  ph_started : Z }.

Record HistoricalEvidence := mkEvidence {
  he_proposal : P2pMiningContextProposal;
  he_source_peer : P2pHandshake;
  he_received : Z }.

Record DeferredHistoricalCandidate := mkDeferred {
  df_share : Share;
  df_candidate_peer : P2pHandshake;
  df_evidence : HistoricalEvidence;
  df_required_capability : Z;
  df_recovery_root : ShareId;
  df_last_progress : Z }.

Record RetryableHistoricalCandidate := mkRetryable {
  ry_share : Share;
  ry_candidate_peer : P2pHandshake;
  ry_required_capability : Z;
  ry_started : Z }.

Abbreviation PendingHistoricalKey := (NodeId * MiningWorkKey)%type.
Abbreviation ReplayFrontierKey := (NodeId * ShareId)%type.

(** What [set_historical_trust_sources] installs, all of it at once: the
    parameters and the three callbacks. *)
Record HistoricalSources (W : Type) := mkSources {
  src_params : SidechainParameters;
  src_observations : P2pMiningContextProposal → exec W (list P2pMiningAnchor);
  src_parent_lookup : Z → exec W RpcCanonicalHeader;
  src_pow_lookup : Z → exec W (option RpcHistoricalPowContext) }.
Arguments mkSources {W}.
Arguments src_params {W}.
Arguments src_observations {W}.
Arguments src_parent_lookup {W}.
Arguments src_pow_lookup {W}.

(** [P2pWorkRetrieval] with the archive it reads. *)
Record RetrievalHandle := mkRetrievalHandle {
  rh_sidechain_id : Hash256;
  rh_archive : Directory;
  rh_state : P2pWorkRetrieval }.

Record P2pNodeProtocol (W : Type) := mkProtocol {
  np_work_retrieval : option RetrievalHandle;
  np_chain : ShareChain;
  np_trusted_work : P2pTrustedWorkRegistry;
  np_local_mining_anchor : option P2pMiningAnchor;
  np_local_mining_context : option P2pMiningContextProposal;
  np_expected_payout : option P2pPayoutAddress;
  np_expected_payout_plan : option PplnsCoinbasePlan;
  np_expected_payout_parent_id : option ShareId;
  np_sources : option (HistoricalSources W);
  np_pending_historical : gmap PendingHistoricalKey PendingHistoricalCandidate;
  np_historical_evidence : gmap MiningWorkKey HistoricalEvidence;
  np_deferred_historical : gmap ShareId DeferredHistoricalCandidate;
  np_active_deferred_recovery_root : gmap NodeId ShareId;
  np_retryable_historical : gmap ShareId RetryableHistoricalCandidate;
  np_replay_frontier_attempts : gmap ReplayFrontierKey Z }.
Arguments mkProtocol {W}.
Arguments np_work_retrieval {W}.
Arguments np_chain {W}.
Arguments np_trusted_work {W}.
Arguments np_local_mining_anchor {W}.
Arguments np_local_mining_context {W}.
Arguments np_expected_payout {W}.
Arguments np_expected_payout_plan {W}.
Arguments np_expected_payout_parent_id {W}.
Arguments np_sources {W}.
Arguments np_pending_historical {W}.
Arguments np_historical_evidence {W}.
Arguments np_deferred_historical {W}.
Arguments np_active_deferred_recovery_root {W}.
Arguments np_retryable_historical {W}.
Arguments np_replay_frontier_attempts {W}.

Definition new_node {W : Type} (chain : ShareChain) (trusted_work : P2pTrustedWorkRegistry)
    : P2pNodeProtocol W :=
  mkProtocol None chain trusted_work None None None None None None ∅ ∅ ∅ ∅ ∅ ∅.

(** ** Field updates *)

Section Fields.
Context {W : Type}.
Implicit Types n : P2pNodeProtocol W.

Definition set_work_retrieval x n : P2pNodeProtocol W :=
  let '(mkProtocol rt c tw an cx po pl pp src pd ev df ar ry fa) := n in
  mkProtocol x c tw an cx po pl pp src pd ev df ar ry fa.
Definition set_chain x n : P2pNodeProtocol W :=
  let '(mkProtocol rt c tw an cx po pl pp src pd ev df ar ry fa) := n in
  mkProtocol rt x tw an cx po pl pp src pd ev df ar ry fa.
Definition set_trusted_work x n : P2pNodeProtocol W :=
  let '(mkProtocol rt c tw an cx po pl pp src pd ev df ar ry fa) := n in
  mkProtocol rt c x an cx po pl pp src pd ev df ar ry fa.
Definition set_pending_historical x n : P2pNodeProtocol W :=
  let '(mkProtocol rt c tw an cx po pl pp src pd ev df ar ry fa) := n in
  mkProtocol rt c tw an cx po pl pp src x ev df ar ry fa.
Definition set_historical_evidence x n : P2pNodeProtocol W :=
  let '(mkProtocol rt c tw an cx po pl pp src pd ev df ar ry fa) := n in
  mkProtocol rt c tw an cx po pl pp src pd x df ar ry fa.
Definition set_deferred_historical x n : P2pNodeProtocol W :=
  let '(mkProtocol rt c tw an cx po pl pp src pd ev df ar ry fa) := n in
  mkProtocol rt c tw an cx po pl pp src pd ev x ar ry fa.
Definition set_active_deferred_recovery_root x n : P2pNodeProtocol W :=
  let '(mkProtocol rt c tw an cx po pl pp src pd ev df ar ry fa) := n in
  mkProtocol rt c tw an cx po pl pp src pd ev df x ry fa.
Definition set_retryable_historical x n : P2pNodeProtocol W :=
  let '(mkProtocol rt c tw an cx po pl pp src pd ev df ar ry fa) := n in
  mkProtocol rt c tw an cx po pl pp src pd ev df ar x fa.
Definition set_replay_frontier_attempts x n : P2pNodeProtocol W :=
  let '(mkProtocol rt c tw an cx po pl pp src pd ev df ar ry fa) := n in
  mkProtocol rt c tw an cx po pl pp src pd ev df ar ry x.

(** The three payout expectations. *)
Definition set_expectation payout plan parent n : P2pNodeProtocol W :=
  let '(mkProtocol rt c tw an cx po pl pp src pd ev df ar ry fa) := n in
  mkProtocol rt c tw an cx payout plan parent src pd ev df ar ry fa.
Definition reset_expectation : P2pNodeProtocol W → P2pNodeProtocol W := set_expectation None None None.
Definition set_local anchor context n : P2pNodeProtocol W :=
  let '(mkProtocol rt c tw an cx po pl pp src pd ev df ar ry fa) := n in
  mkProtocol rt c tw (Some anchor) (Some context) po pl pp src pd ev df ar ry fa.
Definition set_sources sources n : P2pNodeProtocol W :=
  let '(mkProtocol rt c tw an cx po pl pp src pd ev df ar ry fa) := n in
  mkProtocol rt c tw an cx po pl pp (Some sources) pd ev df ar ry fa.

Definition on_chain {A} : exec ShareChain A → exec (P2pNodeProtocol W) A := zoom np_chain set_chain.
Definition on_trusted_work {A} : exec P2pTrustedWorkRegistry A → exec (P2pNodeProtocol W) A :=
  zoom np_trusted_work set_trusted_work.

End Fields.

(** ** The tables of historical recovery *)

Section Tables.
Context {W : Type}.
Implicit Types n : P2pNodeProtocol W.

(** [now < time || now - time >= kMiningWorkRequestLifetime]. *)
Definition outlived (now time : Z) : bool :=
  (now <? time) || (kMiningWorkRequestLifetime <=? now - time).

(** A recovery root of a peer that still has a deferred candidate. *)
Definition root_live (deferred : gmap ShareId DeferredHistoricalCandidate) (peer_id : NodeId)
    (recovery_root : ShareId) : bool :=
  existsb (λ item, arr_eqb (hs_node_id (df_candidate_peer item.2)) peer_id &&
                   arr_eqb (df_recovery_root item.2) recovery_root) (map_sorted deferred).

Definition expire_historical_state (now : Z) n : P2pNodeProtocol W :=
  let '(mkProtocol rt c tw an cx po pl pp src pd ev df ar ry fa) := n in
  let pd := filter (λ kv, outlived now (ph_started kv.2) = false) pd in
  let ev := filter (λ kv, outlived now (he_received kv.2) = false) ev in
  let df := filter (λ kv, outlived now (df_last_progress kv.2) = false) df in
  let ar := filter (λ kv, root_live df kv.1 kv.2 = true) ar in
  let ry := filter (λ kv, outlived now (ry_started kv.2) = false) ry in
  let fa := filter (λ kv, outlived now kv.2 = false) fa in
  mkProtocol rt c tw an cx po pl pp src pd ev df ar ry fa.

Definition remember_pending_historical (peer : P2pHandshake) (share : Share)
    (required_capability now : Z) n : P2pNodeProtocol W :=
  let n := expire_historical_state now n in
  if (kMiningWorkMaxPending <=? size (np_pending_historical n))%nat then n
  else
  let work_key := (zano_height share, mining_header_hash share) in
  set_pending_historical
    (try_emplace (hs_node_id peer, work_key) (mkPendingHistorical share required_capability now)
       (np_pending_historical n)) n.

(** [historical_evidence_.begin()]. *)
Definition first_evidence (m : gmap MiningWorkKey HistoricalEvidence) : option MiningWorkKey :=
  head (merge_sort work_key_le (map_to_list m).*1).

Definition remember_historical_evidence (key : MiningWorkKey) (evidence : HistoricalEvidence)
    (now : Z) n : P2pNodeProtocol W :=
  let n := expire_historical_state now n in
  let m := np_historical_evidence n in
  match m !! key with
  | Some existing =>
      set_historical_evidence
        (<[key := mkEvidence (he_proposal evidence) (he_source_peer evidence)
                    (he_received existing)]> m) n
  | None =>
      let m := if (kMiningWorkMaxReceived <=? size m)%nat
               then match first_evidence m with Some k => delete k m | None => m end
               else m in
      set_historical_evidence
        (<[key := mkEvidence (he_proposal evidence) (he_source_peer evidence) now]> m) n
  end.

(** The roots of the walks whose deferred child points at [id], in key order. *)
Definition joined_roots (peer_id : NodeId) (id : ShareId)
    (m : gmap ShareId DeferredHistoricalCandidate) : list ShareId :=
  omap (λ item, if arr_eqb (hs_node_id (df_candidate_peer item.2)) peer_id &&
                   arr_eqb (parent_id (df_share item.2)) id
                then Some (df_recovery_root item.2) else None) (map_sorted m).

(** A member of one of the joined walks gets the merged root and the time. *)
Definition join_walk (peer_id : NodeId) (roots : list ShareId) (recovery_root : ShareId) (now : Z)
    (d : DeferredHistoricalCandidate) : DeferredHistoricalCandidate :=
  if arr_eqb (hs_node_id (df_candidate_peer d)) peer_id &&
     existsb (λ r, arr_eqb (df_recovery_root d) r) roots
  then mkDeferred (df_share d) (df_candidate_peer d) (df_evidence d) (df_required_capability d)
         recovery_root now
  else d.

Definition remember_deferred_historical (share : Share) (candidate_peer : P2pHandshake)
    (evidence : HistoricalEvidence) (required_capability now : Z)
    : exec (P2pNodeProtocol W) bool :=
  do exec_modify (expire_historical_state now) ;;
  if Z.land (hs_capabilities candidate_peer) kP2pCapabilityShareSync =? 0 then exec_ret false
  else
  id <- exec_const (λ _, share_id share) ;;
  n <- exec_get ;;
  match np_sources n with
  | None => exec_ret false
  | Some sources =>
      let max_deferred := difficulty_window_shares (src_params sources) in
      let m := np_deferred_historical n in
      if bool_decide (m !! id = None) && (max_deferred <=? Z.of_nat (size m)) then exec_ret false
      else
      let peer_id := hs_node_id candidate_peer in
      let roots := joined_roots peer_id id m in
      let recovery_root := match roots with root :: _ => root | [] => id end in
      let m := join_walk peer_id roots recovery_root now <$> m in
      do exec_modify (set_deferred_historical
           (<[id := mkDeferred share candidate_peer evidence required_capability recovery_root
                      now]> m)) ;;
      exec_ret true
  end.

(** The oldest entry, the first of them in key order. *)
Definition older_retry (best item : ShareId * RetryableHistoricalCandidate)
    : ShareId * RetryableHistoricalCandidate :=
  if ry_started item.2 <? ry_started best.2 then item else best.
Definition oldest_retry (m : gmap ShareId RetryableHistoricalCandidate) : option ShareId :=
  match map_sorted m with
  | [] => None
  | first :: rest => Some (fold_left older_retry (first :: rest) first).1
  end.

Definition remember_retryable_historical (share : Share) (candidate_peer : P2pHandshake)
    (required_capability now : Z) : exec (P2pNodeProtocol W) () :=
  do exec_modify (expire_historical_state now) ;;
  if negb (required_capability =? kP2pCapabilityShareGossip) &&
     negb (required_capability =? kP2pCapabilityShareSync)
  then exec_throw LogicError "unsupported historical retry capability"
  else
  id <- exec_const (λ _, share_id share) ;;
  exec_modify (λ n,
    let m := np_retryable_historical n in
    let entry := mkRetryable share candidate_peer required_capability in
    match m !! id with
    | Some existing => set_retryable_historical (<[id := entry (ry_started existing)]> m) n
    | None =>
        let m := if (kMiningWorkMaxReceived <=? size m)%nat
                 then match oldest_retry m with Some k => delete k m | None => m end
                 else m in
        set_retryable_historical (<[id := entry now]> m) n
    end).

End Tables.

(** ** Reconciliation with the Zano chain *)

Section Reconciliation.
Context {W : Type}.
Implicit Types n : P2pNodeProtocol W.

(** The connected shares, lower ones first. *)
Definition ids_by_height (c : ShareChain) : list ShareId :=
  merge_sort (recovery_le c) (connected_share_ids c).

(** The loop that prunes under every connected share picked by [stale]; shares
    that a removed ancestor took along are skipped. *)
Fixpoint prune_where (stale : ConnectedShare → bool) (ids : list ShareId) (pruned : nat)
    : exec ShareChain nat :=
  match ids with
  | [] => exec_ret pruned
  | id :: rest =>
      c <- exec_get ;;
      match find c id with
      | None => prune_where stale rest pruned
      | Some connected =>
          if negb (stale connected) then prune_where stale rest pruned
          else
          removed <- prune_connected_subtree id ;;
          prune_where stale rest (pruned + removed)
      end
  end.

Definition revoke (f : P2pTrustedWorkRegistry → nat * P2pTrustedWorkRegistry)
    : exec (P2pNodeProtocol W) nat :=
  on_trusted_work (λ tw, let '(k, tw') := f tw in (Ok k, tw')).

(** Work whose recorded Zano parent is another block. *)
Definition conflicting_parent (tw : P2pTrustedWorkRegistry) (h : Z) (canonical : Hash256)
    (connected : ConnectedShare) : bool :=
  let share := cs_share connected in
  (zano_height share =? h) &&
  match find_zano_parent_hash tw (zano_height share) (mining_header_hash share) (parent_id share) with
  | Some recorded => negb (arr_eqb recorded canonical)
  | None => false
  end.

Definition reconcile_canonical_parent (h : Z) (canonical_parent_hash : Hash256)
    : exec (P2pNodeProtocol W) P2pCanonicalReconciliationResult :=
  n <- exec_get ;;
  pruned <- on_chain (prune_where (conflicting_parent (np_trusted_work n) h canonical_parent_hash)
              (ids_by_height (np_chain n)) 0) ;;
  revoked <- revoke (erase_zano_parent_mismatch h canonical_parent_hash) ;;
  do (if (pruned =? 0)%nat then exec_ret () else exec_modify reset_expectation) ;;
  exec_ret (mkReconciled pruned revoked).

Definition reconcile_unavailable (stale : ConnectedShare → bool)
    (f : P2pTrustedWorkRegistry → nat * P2pTrustedWorkRegistry)
    : exec (P2pNodeProtocol W) P2pCanonicalReconciliationResult :=
  n <- exec_get ;;
  pruned <- on_chain (prune_where stale (ids_by_height (np_chain n)) 0) ;;
  revoked <- revoke f ;;
  do (if (pruned =? 0)%nat && (revoked =? 0)%nat then exec_ret ()
      else exec_modify reset_expectation) ;;
  exec_ret (mkReconciled pruned revoked).

Definition reconcile_unavailable_work_height (h : Z)
    : exec (P2pNodeProtocol W) P2pCanonicalReconciliationResult :=
  reconcile_unavailable (λ e, zano_height (cs_share e) =? h) (erase_zano_height h).
Definition reconcile_unavailable_work_above (maximum : Z)
    : exec (P2pNodeProtocol W) P2pCanonicalReconciliationResult :=
  reconcile_unavailable (λ e, negb (zano_height (cs_share e) <=? maximum))
    (erase_zano_heights_above maximum).

Definition reconcile_local_parent_replacement (next_anchor : P2pMiningAnchor)
    : exec (P2pNodeProtocol W) () :=
  n <- exec_get ;;
  match np_local_mining_anchor n with
  | None => exec_ret ()
  | Some anchor =>
      if negb (an_zano_height anchor =? an_zano_height next_anchor) ||
         arr_eqb (an_prev_hash anchor) (an_prev_hash next_anchor)
      then exec_ret ()
      else
      do reconcile_canonical_parent (an_zano_height next_anchor) (an_prev_hash next_anchor) ;;
      exec_modify reset_expectation
  end.

(** ** The local mining context *)

Definition best_tip_or_root (c : ShareChain) : ShareId :=
  match best_tip c with Some parent => cs_id parent | None => arr_zero 32 end.

(** A given parent must be connected, and validated where difficulty is
    enforced. *)
Definition resolve_parent (missing unvalidated : string) (c : ShareChain)
    (parent : ShareId) : res () :=
  if is_zero_share_id parent then Ok ()
  else match find c parent with
  | None => throw RuntimeError missing
  | Some e => throw_if (enforces_sidechain_difficulty c && negb (validated_ancestry e)) RuntimeError
                unvalidated
  end.

Definition set_local_mining_context (anchor : P2pMiningAnchor)
    (proposal : P2pMiningContextProposal) : exec (P2pNodeProtocol W) () :=
  do reconcile_local_parent_replacement anchor ;;
  exec_modify (set_local anchor proposal).

Definition set_local_mining_context_payout (anchor : P2pMiningAnchor)
    (proposal : P2pMiningContextProposal) (payout : P2pPayoutAddress)
    : exec (P2pNodeProtocol W) () :=
  do reconcile_local_parent_replacement anchor ;;
  do exec_modify (set_local anchor proposal) ;;
  exec_modify (λ n, set_expectation (Some payout) None (Some (best_tip_or_root (np_chain n))) n).

Definition set_local_mining_context_plan (anchor : P2pMiningAnchor)
    (proposal : P2pMiningContextProposal) (plan : PplnsCoinbasePlan) (parent : option ShareId)
    : exec (P2pNodeProtocol W) () :=
  do reconcile_local_parent_replacement anchor ;;
  n <- exec_get ;;
  resolved <- (match parent with
               | Some parent =>
                   do exec_const (λ n, resolve_parent "local payout-plan parent is not connected"
                        "local payout-plan parent lacks validated ancestry" (np_chain n) parent) ;;
                   exec_ret parent
               | None => exec_ret (best_tip_or_root (np_chain n))
               end) ;;
  do exec_modify (set_local anchor proposal) ;;
  exec_modify (set_expectation None (Some plan) (Some resolved)).

Definition set_expected_payout (payout : P2pPayoutAddress) n : P2pNodeProtocol W :=
  set_expectation (Some payout) None (Some (best_tip_or_root (np_chain n))) n.
Definition set_expected_payout_plan (plan : PplnsCoinbasePlan) n : P2pNodeProtocol W :=
  set_expectation None (Some plan) (Some (best_tip_or_root (np_chain n))) n.
Definition clear_expected_payout : P2pNodeProtocol W → P2pNodeProtocol W := reset_expectation.

(** [None] for an empty [std::function]. *)
Definition set_historical_trust_sources (params : SidechainParameters)
    (load : option (P2pMiningContextProposal → exec W (list P2pMiningAnchor)))
    (lookup : option (Z → exec W RpcCanonicalHeader))
    (pow_lookup : option (Z → exec W (option RpcHistoricalPowContext)))
    : exec (P2pNodeProtocol W) () :=
  match load, lookup, pow_lookup with
  | Some load, Some lookup, Some pow_lookup =>
      matches <- exec_const (λ n, matches_sidechain_parameters (np_chain n) params) ;;
      if negb matches
      then exec_throw RuntimeError "historical trust sidechain parameters do not match chain"
      else exec_modify (set_sources (mkSources params load lookup pow_lookup))
  | _, _, _ => exec_throw InvalidArgument "historical trust sources must be callable"
  end.

End Reconciliation.

Section Local.
Context `{!JsonC} {W : Type}.
Implicit Types n : P2pNodeProtocol W.

(** The work is the one of the installed context. *)
Definition matches_installed (anchor : P2pMiningAnchor) (proposal : P2pMiningContextProposal)
    (context : ShareWorkContext) : res bool :=
  if negb (an_zano_height anchor =? ctx_zano_height context) ||
     negb (pp_zano_height proposal =? ctx_zano_height context) ||
     negb (arr_eqb (an_network_difficulty anchor) (ctx_network_difficulty context)) ||
     negb (arr_eqb (pp_network_difficulty proposal) (ctx_network_difficulty context)) ||
     negb (arr_eqb (an_prev_hash anchor) (pp_prev_hash proposal))
  then Ok false
  else (header ← validate_p2p_mining_context_structure proposal;
       mret (arr_eqb header (ctx_mining_header_hash context)))%stdpp.

Definition remember_trusted_work (context : ShareWorkContext) (parent : option ShareId)
    : exec (P2pNodeProtocol W) () :=
  n <- exec_get ;;
  match np_local_mining_anchor n, np_local_mining_context n with
  | Some anchor, Some proposal =>
      matches <- exec_const (λ _, matches_installed anchor proposal context) ;;
      if negb matches
      then exec_throw RuntimeError "trusted local work does not match installed Zano mining context"
      else
      resolved <- (match parent with
                   | Some parent =>
                       do exec_const (λ n, resolve_parent "trusted local work parent is not connected"
                            "trusted local work parent lacks validated ancestry" (np_chain n) parent) ;;
                       if match np_expected_payout_parent_id n with
                          | Some expected => negb (arr_eqb expected parent)
                          | None => false
                          end
                       then exec_throw RuntimeError
                              "trusted local work parent does not match payout parent"
                       else exec_ret parent
                   | None => exec_ret (best_tip_or_root (np_chain n))
                   end) ;;
      on_trusted_work (remember_canonical context resolved (an_prev_hash anchor))
  | _, _ => exec_throw RuntimeError "trusted local work has no installed Zano mining context"
  end.

(** ** What the node reports *)

Definition trusted_work_count n : nat := size (np_trusted_work n).
Definition trusted_work_provenance_heights n : list Z := provenance_zano_heights (np_trusted_work n).
Definition connected_share_count n : nat := connected_size (np_chain n).
Definition local_tip n : P2pTipHint := p2p_tip_hint_from_chain (np_chain n).

(** [try_lock]: nothing when another thread holds the state. *)
Definition try_metrics_snapshot (owns_lock : bool) n : option P2pNodeMetricsSnapshot :=
  if negb owns_lock then None
  else Some (mkMetrics (connected_size (np_chain n)) (orphan_size (np_chain n))
               match best_tip (np_chain n) with
               | Some tip => share_height (cs_share tip)
               | None => 0
               end (size (np_trusted_work n))).

Definition periodic_tip_announce n : res (option P2pEnvelope) :=
  let tip := p2p_tip_hint_from_chain (np_chain n) in
  if is_zero_share_id (th_share_id tip) then Ok None
  else (Some <$> make_p2p_tip_announce_envelope tip)%stdpp.

Definition expects_payout n : bool :=
  (bool_decide (is_Some (np_expected_payout n)) || bool_decide (is_Some (np_expected_payout_plan n))) &&
  bool_decide (is_Some (np_expected_payout_parent_id n)).
Definition mining_context_trust_ready n : bool :=
  bool_decide (is_Some (np_local_mining_anchor n)) &&
  bool_decide (is_Some (np_local_mining_context n)) && expects_payout n.

Definition local_mining_context_envelope n : res (option P2pEnvelope) :=
  match np_local_mining_context n with
  | Some proposal =>
      if expects_payout n then (Some <$> make_p2p_mining_context_envelope proposal)%stdpp else Ok None
  | None => Ok None
  end.

(** [historical_trust_sources_ready_unlocked]. *)
Definition historical_trust_sources_ready n : bool := bool_decide (is_Some (np_sources n)).

Definition initial_sync_request (peer : P2pHandshake) n : res (option P2pEnvelope) :=
  (hint ← p2p_tip_hint_from_handshake peer;
  let decision := plan_p2p_tip_sync peer hint (np_chain n) in
  match td_requested_id decision with
  | Some id => Some <$> make_p2p_share_request_envelope id
  | None =>
      if bool_decide (td_status decision = KnownConnectedTip) &&
         bool_decide (is_Some (np_work_retrieval n)) && historical_trust_sources_ready n &&
         match find (np_chain n) (th_share_id hint) with
         | Some connected => negb (validated_ancestry connected)
         | None => false
         end
      then Some <$> make_p2p_share_request_envelope (th_share_id hint)
      else if negb (Z.land (hs_capabilities peer) kP2pCapabilityShareSync =? 0) &&
              (bool_decide (td_status decision = NoRemoteTip) ||
               bool_decide (td_status decision = KnownConnectedTip))
      then periodic_tip_announce n
      else mret None
  end)%stdpp.

End Local.
