(* ===== verification/NodeLogic.v ===== *)
(** A program logic for the node: weakest preconditions of [exec] computations
    that keep an invariant and move along a preorder, whether they return or
    throw. *)
From S2P Require Import Prelude HistoricalTrust NodeState.
Local Open Scope pool_scope.
#[local] Set Default Proof Using "Type*".

Section Logic.
Context {S : Type} (I : S → Prop) (R : relation S) `{!PreOrder R}.

(** After [m] the invariant holds and the state has moved along [R]; a value
    returned satisfies [Q]. *)
Definition wp {A} (m : exec S A) (Q : A → S → Prop) (s : S) : Prop :=
  I (m s).2 ∧ R s (m s).2 ∧ match (m s).1 with Ok a => Q a (m s).2 | Throw _ => True end.

Lemma wp_mono {A} (m : exec S A) (Q Q' : A → S → Prop) s :
  (∀ a s', I s' → Q a s' → Q' a s') → wp m Q s → wp m Q' s.
Proof. intros H (HI & HR & HQ). split_and!; try done. destruct (m s).1; [by apply H|done]. Qed.

Lemma wp_ret {A} (a : A) (Q : A → S → Prop) s : I s → Q a s → wp (exec_ret a) Q s.
Proof. intros HI HQ. by split_and!. Qed.

Lemma wp_throw {A} k what (Q : A → S → Prop) s : I s → wp (exec_throw k what) Q s.
Proof. intros HI. by split_and!. Qed.

Lemma wp_bind {A B} (m : exec S A) (f : A → exec S B) (Q : B → S → Prop) s :
  wp m (λ a s', I s' → wp (f a) Q s') s → wp (exec_bind m f) Q s.
Proof.
  intros (HI & HR & HQ). unfold wp, exec_bind. destruct (m s) as [[a|e] s']; [|done].
  cbn in *. destruct (HQ HI) as (HI' & HR' & HQ'). split_and!; try done. by transitivity s'.
Qed.

Lemma wp_const {A} (f : S → res A) (Q : A → S → Prop) s :
  I s → (∀ a, f s = Ok a → Q a s) → wp (exec_const f) Q s.
Proof. intros HI HQ. split_and!; try done. cbn. destruct (f s); [by apply HQ|done]. Qed.

Lemma wp_modify (f : S → S) (Q : () → S → Prop) s :
  I (f s) → R s (f s) → Q () (f s) → wp (exec_modify f) Q s.
Proof. intros. unfold wp. by split_and!. Qed.

Lemma wp_get (Q : S → S → Prop) s : I s → Q s s → wp exec_get Q s.
Proof. intros. unfold wp. by split_and!. Qed.

End Logic.

