(* ===== verification/NodeInv.v ===== *)
(** The invariant of the node protocol and the abstract machine it implements:
    a registry of trusted work and a share chain, changed by a few kinds of
    moves, each carrying the evidence the move rests on. *)
From S2P Require Import Prelude CryptoHash PowTarget Share SidechainParams Difficulty ShareChain.
From S2P Require Import ChainWork ChainInv ChainPromote ChainAdmit ChainReplay ChainPrune.
From S2P Require Import ChainHistory P2pProtocol P2pShare PplnsCoinbase PayoutPolicy MiningHeader.
From S2P Require Import BlockTemplate MiningContext WorkArchive WorkRetrieval ZanoCurve MinerTxProofs.
From S2P Require Import ContextTrust HistoricalTrust Restart NodeState NodeLogic.
Local Open Scope pool_scope.

(** ** The abstract machine *)

Section Moves.
Context `{!ProgPow, !JsonC, !ZanoCrypto} {W : Type}.

(** On whose account a call runs: for peers, at its clock reading and mode; for
    the node's own miner and its template; for the daemon, which named the
    canonical parent of a Zano height, or has no block at or above one; or on
    nobody's. *)
Inductive authority :=
| FromPeers (now : Z) (mode : ProgPowZContextMode)
| OwnTemplate (context : ShareWorkContext) (parent : option ShareId)
| CanonicalParent (h : Z) (canonical : Hash256)
| NoBlockAt (h : Z)
| NoBlockAbove (maximum : Z)
| Nobody.
Existing Class authority.

Definition from_peers (who : authority) : Prop := ∃ now mode, who = FromPeers now mode.

Abbreviation trusted_chain := (P2pTrustedWorkRegistry * ShareChain)%type.

(** The coinbase of a context pays what the node expects. *)
Definition pays_expected (plan : option PplnsCoinbasePlan) (payout : option P2pPayoutAddress)
    (p : P2pMiningContextProposal) (w : MiningHeaderWork) : Prop :=
  match plan, payout with
  | Some plan, _ => coinbase_pays plan p w
  | None, Some payout =>
      po_status (verify_miner_tx_payout_policy (mp_serialized (mw_miner_tx_prefix w))
        (pp_miner_tx_tgc_json p) (pp_block_reward_without_fee p) (pp_block_reward p)
        (pp_txs_fee p) payout) = PolVerified
  | None, None => False
  end.

(** The template [p] is the one that [share] was mined on. *)
Definition template_of (share : Share) (p : P2pMiningContextProposal) : Prop :=
  validate_p2p_mining_context_structure p = Ok (mining_header_hash share) ∧
  zano_height share = pp_zano_height p ∧ network_difficulty share = pp_network_difficulty p.

(** The observations are what the node's own source gave for the template. *)
Definition loaded (sources : HistoricalSources W) (p : P2pMiningContextProposal)
    (observations : list P2pMiningAnchor) : Prop :=
  ∃ w w', src_observations sources p w = (Ok observations, w').

(** The shares whose branch a reconciliation may prune, by the work trusted
    before it: those of the named Zano height whose recorded parent is another
    block, or those of the heights the daemon no longer has. *)
Definition prunable (who : authority) (tw : P2pTrustedWorkRegistry) (e : ConnectedShare) : Prop :=
  let share := cs_share e in
  match who with
  | CanonicalParent h canonical =>
      zano_height share = h ∧ ∃ recorded, recorded ≠ canonical ∧
        find_zano_parent_hash tw h (mining_header_hash share) (parent_id share) = Some recorded
  | NoBlockAt h => zano_height share = h
  | NoBlockAbove maximum => maximum < zano_height share
  | _ => False
  end.

(** The trusted work it revokes. *)
Definition revocable (who : authority) (key : WorkKey) (e : WorkEntry) : Prop :=
  match who with
  | CanonicalParent h canonical =>
      key.1.1 = h ∧ ∃ recorded, recorded ≠ canonical ∧ we_zano_parent_hash e = Some recorded
  | NoBlockAt h => key.1.1 = h
  | NoBlockAbove maximum => maximum < key.1.1
  | _ => False
  end.

(** The moves that the caller and the configuration of [n0] authorise: its
    daemon, its anchor and template, and the payouts it expects. *)
Inductive node_move {who : authority} (n0 : P2pNodeProtocol W)
    : trusted_chain → trusted_chain → Prop :=
(** A peer's context of the current anchor, with its payouts and proofs. *)
| mv_context tw tw' c peer envelope anchor parent r p w :
    from_peers who →
    np_local_mining_anchor n0 = Some anchor → np_expected_payout_parent_id n0 = Some parent →
    Z.land (hs_capabilities peer) kP2pCapabilityMiningContext ≠ 0 →
    crossing envelope anchor parent tw tw' r p w →
    pays_expected (np_expected_payout_plan n0) (np_expected_payout n0) p w →
    proofs_hold p w → node_move n0 (tw, c) (tw', c)
(** Historical work of a candidate, through the historical crossing. *)
| mv_historical tw tw' c sources candidate peer p observations payout w :
    from_peers who →
    np_sources n0 = Some sources → loaded sources p observations →
    Z.land (hs_capabilities peer) kP2pCapabilityMiningContext ≠ 0 →
    candidate_entry candidate tw tw' →
    HistoricalTrust.historical_evidence (src_parent_lookup sources) (Some (src_pow_lookup sources)) c
      (src_params sources) candidate p observations payout w →
    node_move n0 (tw, c) (tw', c)
(** The node's own template. *)
| mv_own tw tw' c anchor proposal context named parent :
    who = OwnTemplate context named → parent = default (best_tip_or_root c) named →
    np_local_mining_anchor n0 = Some anchor → np_local_mining_context n0 = Some proposal →
    matches_installed anchor proposal context = Ok true →
    remember_canonical context parent (an_prev_hash anchor) tw = (Ok (), tw') →
    node_move n0 (tw, c) (tw', c)
(** A share from a peer on trusted work. *)
| mv_admit tw c c' peer share required now mode ctx v a :
    who = FromPeers now mode →
    share_wf share → clock_ok now →
    authorised tw peer share required now mode c ctx v →
    add_outcome c share (Some v) (enforces_sidechain_difficulty c) (Ok a, c') →
    node_move n0 (tw, c) (tw, c')
(** A replayed share on trusted work. *)
| mv_revalidate tw c id candidate e ctx now mode v :
    who = FromPeers now mode →
    share_id candidate = Ok id → connected c !! id = Some e → validated_ancestry e = false →
    find_work tw (zano_height candidate) (mining_header_hash candidate) (parent_id candidate)
      = Some ctx →
    markable c e → proven (cs_share e) ctx now mode v →
    expected_difficulty_reject_reason c (cs_share e) = Ok NoReject →
    node_move n0 (tw, c) (tw, mark id e v c)
(** A replayed share on a template of the node's own archive. *)
| mv_archive tw c sources id candidate e p observations now mode v :
    who = FromPeers now mode →
    np_sources n0 = Some sources → loaded sources p observations →
    share_id candidate = Ok id → connected c !! id = Some e → validated_ancestry e = false →
    template_of candidate p → progpowz_seed (pp_zano_height p) = Ok (pp_seed p) →
    canonical_at (src_parent_lookup sources) (pp_zano_height p - 1) (pp_prev_hash p) →
    proposal_anchor p ∈ observations →
    markable c e → proven (cs_share e) (share_context candidate) now mode v →
    expected_difficulty_reject_reason c (cs_share e) = Ok NoReject →
    node_move n0 (tw, c) (tw, mark id e v c)
(** A replayed branch on a Zano parent that the daemon contradicts. *)
| mv_stale tw c c' sources id candidate e p hash removed :
    from_peers who →
    np_sources n0 = Some sources →
    share_id candidate = Ok id → connected c !! id = Some e → validated_ancestry e = false →
    template_of candidate p → hash ≠ pp_prev_hash p →
    canonical_at (src_parent_lookup sources) (pp_zano_height p - 1) hash →
    prune_connected_subtree_ids id c = (Ok removed, c') →
    node_move n0 (tw, c) (tw, c')
(** Reconciliation: the branch of a share on work that the daemon replaced or no
    longer has goes, and with it exactly that work. *)
| mv_prune tw c c' id e removed :
    connected c !! id = Some e → prunable who tw e →
    prune_connected_subtree_ids id c = (Ok removed, c') → node_move n0 (tw, c) (tw, c')
| mv_revoke tw tw' c :
    (∀ key e, tw' !! key = Some e ↔ tw !! key = Some e ∧ ¬ revocable who key e) →
    node_move n0 (tw, c) (tw', c).

(** Every move keeps the registry and the chain in order. *)
Lemma prune_ids_good c id removed c' :
  good c → prune_connected_subtree_ids id c = (Ok removed, c') → good c'.
Proof.
  intros Hg Hp. pose proof (prune_good c id Hg) as Hg'.
  unfold prune_connected_subtree, exec_bind in Hg'. by rewrite Hp in Hg'.
Qed.

Lemma mark_good c id e v :
  good c → connected c !! id = Some e → validated_ancestry e = false → markable c e →
  replay_validation_consistent v = true → good (mark id e v c).
Proof.
  intros [Hinv Ht] He Hv Hm Hc. eapply marks_good; [|by apply mark_marks|done].
  by apply mark_inv.
Qed.

Lemma admit_good tw c c' peer share required now mode ctx v a :
  good c → share_wf share → clock_ok now → authorised tw peer share required now mode c ctx v →
  add_outcome c share (Some v) (enforces_sidechain_difficulty c) (Ok a, c') → good c'.
Proof.
  intros Hc Hwf Hnow [_ _ Hp _] Ho.
  refine (add_outcome_good c share (Some v) _ _ _ Hc Hwf _ (pv_consistent _ _ _ _ _ Hp) _ Ho); [|done].
  unfold time_ok. pose proof (pv_time _ _ _ _ _ Hp). unfold clock_ok in Hnow. lia.
Qed.

Lemma move_ok {who : authority} n0 tw c tw' c' :
  node_move n0 (tw, c) (tw', c') → registry_ok tw → good c → registry_ok tw' ∧ good c'.
Proof.
  intros Hm Htw Hc. inversion Hm; subst; try (split; [done|by eapply prune_ids_good]).
  - split; [|done]. match goal with H : crossing _ _ _ _ _ _ _ _ |- _ =>
      by apply (ex_ok _ _ _ _ (cr_extends _ _ _ _ _ _ _ _ H)) end.
  - split; [|done]. match goal with H : candidate_entry _ _ _ |- _ => by destruct H as (_ & _ & ?) end.
  - split; [|done]. match goal with H : remember_canonical ?x ?p ?z tw = _ |- _ =>
      pose proof (remember_canonical_outcome tw x p z Htw) as Hr; rewrite H in Hr end.
    exact (registry_ok_remember _ _ _ _ _ Htw Hr).
  - split; [done|by eapply admit_good].
  - split; [done|]. apply mark_good; try done. by eapply pv_consistent.
  - split; [done|]. apply mark_good; try done. by eapply pv_consistent.
  - split; [|done]. intros h header parent e He. apply (Htw h header parent e).
    match goal with H : ∀ key e, _ |- _ => by apply H in He as [? _] end.
Qed.

Lemma moves_ok {who : authority} n0 x y :
  rtc (node_move n0) x y → registry_ok x.1 → good x.2 → registry_ok y.1 ∧ good y.2.
Proof.
  induction 1 as [x|[tw c] [tw1 c1] y Hm _ IH]; [done|]. intros Htw Hc.
  destruct (move_ok _ _ _ _ _ Hm Htw Hc). by apply IH.
Qed.

(** A chain without replayed shares stays so: every connected share is
    validated. *)
Lemma vetted_prune c id removed c' :
  vetted c → prune_connected_subtree_ids id c = (Ok removed, c') → vetted c'.
Proof.
  intros [Hg He Hc Ho] Hp. pose proof (prune_ids_good _ _ _ _ Hg Hp) as Hg'.
  destruct (prune_outcome c id (proj1 Hg)) as [[_ E]|(r0 & rm & c1 & _ & _ & Hk & E)];
    rewrite E in Hp; injection Hp as <- <-; [done|].
  destruct Hk as [Hcon _ Hrest]. split; [done| | |].
  - unfold enforces_sidechain_difficulty in *. by rewrite Hrest.
  - intros i e Hi. rewrite Hcon in Hi. destruct (decide _); [done|by eapply Hc].
  - rewrite Hrest. exact Ho.
Qed.

Lemma moves_vetted {who : authority} n0 x y : rtc (node_move n0) x y → vetted x.2 → vetted y.2.
Proof.
  induction 1 as [x|[tw c] [tw1 c1] y Hm _ IH]; [done|]. intros Hv. apply IH. cbn in *.
  inversion Hm; subst; try done; try (by eapply vetted_prune).
  - match goal with H : authorised _ _ _ _ _ _ _ _ _ |- _ => destruct H as [_ _ Hp _] end.
    by eapply vetted_admit.
  - match goal with H : connected _ !! _ = Some _ |- _ =>
      pose proof (ve_connected _ Hv _ _ H); congruence end.
  - match goal with H : connected _ !! _ = Some _ |- _ =>
      pose proof (ve_connected _ Hv _ _ H); congruence end.
Qed.

(** What of the configuration an operation may change by itself: it drops the
    payout expectation. *)
Record same_config (n n' : P2pNodeProtocol W) : Prop := {
  sc_sources : np_sources n' = np_sources n;
  sc_anchor : np_local_mining_anchor n' = np_local_mining_anchor n;
  sc_context : np_local_mining_context n' = np_local_mining_context n;
  sc_expectation :
    np_expected_payout n' = np_expected_payout n ∧
    np_expected_payout_plan n' = np_expected_payout_plan n ∧
    np_expected_payout_parent_id n' = np_expected_payout_parent_id n ∨
    np_expected_payout n' = None ∧ np_expected_payout_plan n' = None ∧
    np_expected_payout_parent_id n' = None }.

#[export] Instance same_config_preorder : PreOrder same_config.
Proof.
  split; [intros n; split; tauto|]. intros a b c [E1 E2 E3 E4] [F1 F2 F3 F4].
  split; try congruence. destruct F4 as [(-> & -> & ->)|]; tauto.
Qed.

Lemma move_mono {who : authority} n n' x y : same_config n n' → node_move n' x y → node_move n x y.
Proof.
  intros [E1 E2 E3 E4] Hm. destruct Hm; rewrite ?E1, ?E2, ?E3 in *.
  - destruct E4 as [(E5 & E6 & E7)|(_ & _ & E)]; [|congruence].
    rewrite E5, E6 in *. rewrite E7 in *. by eapply mv_context.
  - by eapply mv_historical.
  - by eapply mv_own.
  - by eapply mv_admit.
  - by eapply mv_revalidate.
  - by eapply mv_archive.
  - by eapply mv_stale.
  - by eapply mv_prune.
  - by apply mv_revoke.
Qed.

End Moves.

(** ** The invariant *)

Section Invariant.
Context `{!ProgPow, !JsonC, !ZanoCrypto} {W : Type}.
Implicit Types n : P2pNodeProtocol W.

Definition view n : P2pTrustedWorkRegistry * ShareChain := (np_trusted_work n, np_chain n).

(** The registry and the chain changed by moves that the caller and [n]
    authorise. *)
Definition moved {who : authority} n n' : Prop := same_config n n' ∧ rtc (node_move n) (view n) (view n').

#[export] Instance moved_preorder {who : authority} : PreOrder (@moved who).
Proof.
  split; [by intros n; split|]. intros a b c [Hc1 Hm1] [Hc2 Hm2].
  split; [by transitivity b|]. transitivity (view b); [done|].
  clear Hm1. induction Hm2; [done|]. eapply rtc_l; [|done]. by eapply move_mono.
Qed.

Definition evidence_ok (e : HistoricalEvidence) : Prop := proposal_wf (he_proposal e).

(** The payout expectation: one of the two, with its parent, or nothing. *)
Definition expectation_ok payout plan (parent : option ShareId) : Prop :=
  match payout : option P2pPayoutAddress, plan, parent with
  | Some _, None, Some _ => True
  | None, Some plan, Some _ => Forall (λ d, is_u64 (dest_amount d)) (destinations plan)
  | None, None, None => True
  | _, _, _ => False
  end.

(** A deferred candidate is kept under its own id. *)
Definition deferred_ok (id : ShareId) (d : DeferredHistoricalCandidate) : Prop :=
  share_id (df_share d) = Ok id ∧ share_wf (df_share d) ∧ evidence_ok (df_evidence d).

(** At most as many deferred candidates as the difficulty window has shares. *)
Definition deferred_bounded (sources : option (HistoricalSources W))
    (m : gmap ShareId DeferredHistoricalCandidate) : Prop :=
  match sources with
  | Some sources => Z.of_nat (size m) ≤ difficulty_window_shares (src_params sources)
  | None => m = ∅
  end.

Record node_ok n : Prop := {
  no_registry : registry_ok (np_trusted_work n);
  no_chain : good (np_chain n);
  no_retrieval : ∀ h, np_work_retrieval n = Some h → retrieval_ok (rh_state h);
  no_sources : ∀ s, np_sources n = Some s → params_wf (src_params s);
  no_expectation : expectation_ok (np_expected_payout n) (np_expected_payout_plan n)
                     (np_expected_payout_parent_id n);
  no_pending_size : (size (np_pending_historical n) ≤ kMiningWorkMaxPending)%nat;
  no_pending : ∀ k x, np_pending_historical n !! k = Some x → share_wf (ph_share x);
  no_evidence_size : (size (np_historical_evidence n) ≤ kMiningWorkMaxReceived)%nat;
  no_evidence : ∀ k x, np_historical_evidence n !! k = Some x → evidence_ok x;
  no_deferred_size : deferred_bounded (np_sources n) (np_deferred_historical n);
  no_deferred : ∀ id d, np_deferred_historical n !! id = Some d → deferred_ok id d;
  no_retryable : ∀ id x, np_retryable_historical n !! id = Some x → share_wf (ry_share x) }.

(** A step that keeps the invariant, the registry and the chain. *)
Definition calm n n' : Prop := node_ok n' ∧ view n' = view n ∧ same_config n n'.

Lemma calm_moved {who : authority} n n' : calm n n' → node_ok n' ∧ moved n n'.
Proof. intros (? & E & ?). split; [done|]. split; [done|]. by rewrite E. Qed.
Lemma calm_trans n1 n2 n3 : calm n1 n2 → calm n2 n3 → calm n1 n3.
Proof. intros (_ & E & Hs) (? & E' & Hs'). split_and!; [done|congruence|by transitivity n2]. Qed.

End Invariant.

(** A step on one field. *)
Ltac calm_field n Hn :=
  destruct n as [rt c tw an cx po pl pp src pd ev df ar ry fa];
  destruct Hn as [G1 G2 G3 G4 G5 G6 G7 G8 G9 G10 G11 G12];
  split_and!; [split; cbn in *; try done|done|split; cbn in *; tauto].

Section Calm.
Context `{!ProgPow, !JsonC, !ZanoCrypto} {W : Type}.
Implicit Types n : P2pNodeProtocol W.

Lemma filter_size {K A} `{Countable K} (P : K * A → Prop) `{!∀ x, Decision (P x)} (m : gmap K A) :
  (size (filter P m) ≤ size m)%nat.
Proof. apply size_subseteq, map_filter_subseteq. Qed.

Lemma filter_some {K A} `{Countable K} (P : K * A → Prop) `{!∀ x, Decision (P x)} (m : gmap K A) k x :
  filter P m !! k = Some x → m !! k = Some x.
Proof. by intros [? _]%map_lookup_filter_Some. Qed.

Lemma calm_expire now n : node_ok n → calm n (expire_historical_state now n).
Proof.
  intros Hn. calm_field n Hn.
  - etransitivity; [apply filter_size|done].
  - intros k x Hk. by eapply G7, filter_some.
  - etransitivity; [apply filter_size|done].
  - intros k x Hk. by eapply G9, filter_some.
  - destruct src; cbn in *; [|by rewrite G10, map_filter_empty].
    etransitivity; [|exact G10]. apply inj_le, filter_size.
  - intros k x Hk. by eapply G11, filter_some.
  - intros k x Hk. by eapply G12, filter_some.
Qed.

Lemma calm_reset n : node_ok n → calm n (reset_expectation n).
Proof. intros Hn. calm_field n Hn. Qed.
Lemma calm_active m n : node_ok n → calm n (set_active_deferred_recovery_root m n).
Proof. intros Hn. calm_field n Hn. Qed.
Lemma calm_attempts m n : node_ok n → calm n (set_replay_frontier_attempts m n).
Proof. intros Hn. calm_field n Hn. Qed.

Lemma calm_pending m n :
  node_ok n → (size m ≤ kMiningWorkMaxPending)%nat →
  (∀ k x, m !! k = Some x → share_wf (ph_share x)) → calm n (set_pending_historical m n).
Proof. intros Hn ? ?. calm_field n Hn. Qed.
Lemma calm_evidence m n :
  node_ok n → (size m ≤ kMiningWorkMaxReceived)%nat →
  (∀ k x, m !! k = Some x → evidence_ok x) → calm n (set_historical_evidence m n).
Proof. intros Hn ? ?. calm_field n Hn. Qed.
Lemma calm_retryable m n :
  node_ok n → (∀ k x, m !! k = Some x → share_wf (ry_share x)) →
  calm n (set_retryable_historical m n).
Proof. intros Hn ?. calm_field n Hn. Qed.
Lemma calm_deferred m n :
  node_ok n → deferred_bounded (np_sources n) m →
  (∀ id d, m !! id = Some d → deferred_ok id d) → calm n (set_deferred_historical m n).
Proof. intros Hn ? ?. calm_field n Hn. Qed.
Lemma calm_retrieval h n :
  node_ok n → retrieval_ok (rh_state h) → calm n (set_work_retrieval (Some h) n).
Proof. intros Hn ?. calm_field n Hn. by intros ? [= <-]. Qed.

(** ** The tables *)

Lemma try_emplace_some {K A} `{Countable K} k (a : A) (m : gmap K A) i x :
  try_emplace k a m !! i = Some x → i = k ∧ x = a ∨ m !! i = Some x.
Proof.
  unfold try_emplace. destruct (m !! k); [by right|].
  rewrite lookup_insert_Some. naive_solver.
Qed.
Lemma try_emplace_size {K A} `{Countable K} k (a : A) (m : gmap K A) :
  (size (try_emplace k a m) ≤ S (size m))%nat.
Proof.
  unfold try_emplace. destruct (m !! k) eqn:E; [lia|]. rewrite map_size_insert, E. cbn. lia.
Qed.

Lemma calm_remember_pending peer share cap now n :
  node_ok n → share_wf share → calm n (remember_pending_historical peer share cap now n).
Proof.
  intros Hn Hwf. pose proof (calm_expire now n Hn) as Hc.
  unfold remember_pending_historical. cbv zeta. destruct (_ <=? _)%nat eqn:E; [done|].
  apply Nat.leb_gt in E. eapply calm_trans; [done|]. destruct Hc as (Hn' & _). apply calm_pending; [done| |].
  - etransitivity; [apply try_emplace_size|lia].
  - intros k x [[-> ->]|Hk]%try_emplace_some; [done|]. by eapply no_pending.
Qed.

(** An entry inserted after the victim made room. *)
Lemma evict_size {K A} `{Countable K} (bound : nat) (victim : option K) k (a : A) (m : gmap K A) :
  (0 < bound)%nat → (size m ≤ bound)%nat → m !! k = None →
  (∀ v, victim = Some v → is_Some (m !! v)) → (victim = None → size m = 0%nat) →
  (size (<[k := a]> (if (bound <=? size m)%nat
     then match victim with Some v => delete v m | None => m end else m)) ≤ bound)%nat.
Proof.
  intros Hb Hm Hk Hv Hnone. destruct (bound <=? size m)%nat eqn:E.
  - apply Nat.leb_le in E. destruct victim as [v|]; [|specialize (Hnone eq_refl); lia].
    rewrite map_size_insert_None by (rewrite lookup_delete_None; by right).
    destruct (Hv v eq_refl) as [x Hx]. rewrite map_size_delete_Some by eauto. lia.
  - apply Nat.leb_gt in E. rewrite map_size_insert_None by done. lia.
Qed.

Lemma evict_some {K A} `{Countable K} (b : bool) (victim : option K) k (a : A) (m : gmap K A) i x :
  <[k := a]> (if b then match victim with Some v => delete v m | None => m end else m) !! i = Some x →
  x = a ∨ m !! i = Some x.
Proof.
  intros [[_ ->]|[_ Hi]]%lookup_insert_Some; [by left|right].
  destruct b; [|done]. destruct victim; [|done]. by apply lookup_delete_Some in Hi as [_ ?].
Qed.

Lemma first_evidence_some m k : first_evidence m = Some k → is_Some (m !! k).
Proof.
  unfold first_evidence. intros Hk. apply head_Some_elem_of in Hk.
  rewrite merge_sort_Permutation in Hk. apply list_elem_of_fmap in Hk as ([k' x] & -> & Hk).
  apply elem_of_map_to_list in Hk. eauto.
Qed.
Lemma first_evidence_none m : first_evidence m = None → size m = 0%nat.
Proof.
  unfold first_evidence. rewrite head_None. intros Hk.
  apply (f_equal length) in Hk. rewrite merge_sort_Permutation, length_fmap, length_map_to_list in Hk.
  done.
Qed.

Lemma calm_remember_evidence key evidence now n :
  node_ok n → evidence_ok evidence → calm n (remember_historical_evidence key evidence now n).
Proof.
  intros Hn He. pose proof (calm_expire now n Hn) as Hc.
  unfold remember_historical_evidence. cbv zeta. eapply calm_trans; [exact Hc|].
  destruct Hc as (Hn' & _). destruct (np_historical_evidence _ !! key) eqn:E; apply calm_evidence; try done.
  - rewrite map_size_insert_Some by eauto. by apply no_evidence_size.
  - intros k x [[_ <-]|[_ Hk]]%lookup_insert_Some; [done|by eapply no_evidence].
  - apply evict_size; [by apply Nat.ltb_lt|by apply no_evidence_size|done| |].
    + apply first_evidence_some.
    + apply first_evidence_none.
  - intros k x [->|Hk]%evict_some; [done|by eapply no_evidence].
Qed.

Lemma delete_some {K A} `{Countable K} k (m : gmap K A) i x : delete k m !! i = Some x → m !! i = Some x.
Proof. by intros [_ ?]%lookup_delete_Some. Qed.
Lemma delete_size {K A} `{Countable K} k (m : gmap K A) : (size (delete k m) ≤ size m)%nat.
Proof. apply size_subseteq, delete_subseteq. Qed.

Lemma calm_delete_deferred k n :
  node_ok n → calm n (set_deferred_historical (delete k (np_deferred_historical n)) n).
Proof.
  intros Hn. apply calm_deferred; [done| |].
  - pose proof (no_deferred_size _ Hn) as Hb. unfold deferred_bounded in *.
    destruct (np_sources n); [|by rewrite Hb, delete_empty].
    etransitivity; [|exact Hb]. apply inj_le, delete_size.
  - intros i d Hd. by eapply no_deferred, delete_some.
Qed.

End Calm.
