(* ===== verification/P2pNode.v ===== *)
(** Message handling and recovery scheduling of the node protocol:
    [P2pNodeProtocol::handle], [retry_historical_pow_unavailable] and
    [advance_replay_recovery] of [src/p2p_node.cpp].  The runtime that carries
    messages is an interface; it and the daemon live in the world [W]. *)
From S2P Require Import Prelude CryptoHash PowTarget Share SidechainParams ShareChain P2pProtocol.
From S2P Require Import P2pShare P2pSync PplnsCoinbase PayoutPolicy BlockTemplate MiningContext.
From S2P Require Import WorkArchive WorkRetrieval PeerGuard ZanoCurve MinerTxProofs ContextTrust.
From S2P Require Import HistoricalTrust Restart NodeState.
Local Open Scope pool_scope.

(** What the node asks of [P2pRuntime]; none of it throws. *)
Record P2pRuntime (W : Type) := mkRuntime {
  rn_peer_handshakes : W → list P2pHandshake;
  rn_report_peer_misbehavior : NodeId → Z → W → W;
  rn_send_to : NodeId → P2pEnvelope → W → bool * W;
  rn_broadcast_except : NodeId → P2pEnvelope → W → W }.
Arguments rn_peer_handshakes {W}.
Arguments rn_report_peer_misbehavior {W}.
Arguments rn_send_to {W}.
Arguments rn_broadcast_except {W}.

Inductive P2pNodeMessageStatus :=
| NodeShareProcessed | ShareRequestAnswered | ShareResponseProcessed | TipProcessed
| MiningContextProcessed | MiningContextDeferred | UnexpectedHandshake
| MiningWorkRequestAnswered | MiningWorkResponseProcessed.
#[export] Instance P2pNodeMessageStatus_eq_dec : EqDecision P2pNodeMessageStatus.
Proof. solve_decision. Defined.

(** The diagnostics of the last historical attempt, of [P2pNodeMessageResult]. *)
Record HistoricalAttempt := mkAttempt {
  at_trust_status : option HistoricalTrustStatus;
  at_anchor_status : option HistoricalAnchorStatus;
  at_payout_status : option HistoricalPayoutStatus;
  at_promotion_status : option P2pMiningContextTrustStatus;
  at_proof_status : option P2pMinerTxProofStatus;
  at_payout_policy_status : option P2pPayoutPolicyStatus;
  at_share_id : option ShareId;
  at_parent_id : option ShareId;
  at_zano_height : option Z;
  at_mining_header_hash : option Hash256 }.

Record P2pNodeMessageResult := mkMessageResult {
  mr_status : P2pNodeMessageStatus;
  mr_share_status : P2pShareReceiveStatus;
  mr_sync_status : P2pShareSyncReceiveStatus;
  mr_tip_status : P2pTipSyncStatus;
  mr_mining_context_status : P2pMiningContextTrustStatus;
  mr_mining_context_registry_inserted : bool;
  mr_untrusted_work_received : option Hash256;
  mr_attempt : HistoricalAttempt;
  mr_historical_share : option Share;
  mr_historical_admitted_shares : list Share;
  mr_historical_share_retried : bool;
  mr_historical_share_connected : bool;
  mr_historical_pruned_share_ids : list ShareId;
  mr_historical_pruned_connected_shares : nat;
  mr_sent_followup : bool;
  mr_relayed_share : bool;
  mr_relayed_tip : bool }.

Definition no_attempt : HistoricalAttempt :=
  mkAttempt None None None None None None None None None None.
Definition default_result : P2pNodeMessageResult :=
  mkMessageResult UnexpectedHandshake RecvRejected SyncNotFound NoRemoteTip ProofsRejected false None
    no_attempt None [] false false [] 0 false false false.

(** Updates of the result. *)
Definition set_status x (r : P2pNodeMessageResult) : P2pNodeMessageResult :=
  let '(mkMessageResult st ss sy ts ms mi uw at_ hs ad re co pi pc sf rs rt) := r in
  mkMessageResult x ss sy ts ms mi uw at_ hs ad re co pi pc sf rs rt.
Definition set_share_status x (r : P2pNodeMessageResult) : P2pNodeMessageResult :=
  let '(mkMessageResult st ss sy ts ms mi uw at_ hs ad re co pi pc sf rs rt) := r in
  mkMessageResult st x sy ts ms mi uw at_ hs ad re co pi pc sf rs rt.
Definition set_sync_status x (r : P2pNodeMessageResult) : P2pNodeMessageResult :=
  let '(mkMessageResult st ss sy ts ms mi uw at_ hs ad re co pi pc sf rs rt) := r in
  mkMessageResult st ss x ts ms mi uw at_ hs ad re co pi pc sf rs rt.
Definition set_tip_status x (r : P2pNodeMessageResult) : P2pNodeMessageResult :=
  let '(mkMessageResult st ss sy ts ms mi uw at_ hs ad re co pi pc sf rs rt) := r in
  mkMessageResult st ss sy x ms mi uw at_ hs ad re co pi pc sf rs rt.
Definition set_context_status x inserted (r : P2pNodeMessageResult) : P2pNodeMessageResult :=
  let '(mkMessageResult st ss sy ts ms mi uw at_ hs ad re co pi pc sf rs rt) := r in
  mkMessageResult st ss sy ts x inserted uw at_ hs ad re co pi pc sf rs rt.
Definition set_untrusted_work x (r : P2pNodeMessageResult) : P2pNodeMessageResult :=
  let '(mkMessageResult st ss sy ts ms mi uw at_ hs ad re co pi pc sf rs rt) := r in
  mkMessageResult st ss sy ts ms mi x at_ hs ad re co pi pc sf rs rt.
Definition set_attempt x (r : P2pNodeMessageResult) : P2pNodeMessageResult :=
  let '(mkMessageResult st ss sy ts ms mi uw at_ hs ad re co pi pc sf rs rt) := r in
  mkMessageResult st ss sy ts ms mi uw x hs ad re co pi pc sf rs rt.
Definition set_retried share (r : P2pNodeMessageResult) : P2pNodeMessageResult :=
  let '(mkMessageResult st ss sy ts ms mi uw at_ hs ad re co pi pc sf rs rt) := r in
  mkMessageResult st ss sy ts ms mi uw at_ (Some share) ad true co pi pc sf rs rt.
Definition add_admitted share (r : P2pNodeMessageResult) : P2pNodeMessageResult :=
  let '(mkMessageResult st ss sy ts ms mi uw at_ hs ad re co pi pc sf rs rt) := r in
  mkMessageResult st ss sy ts ms mi uw at_ hs (ad ++ [share]) re co pi pc sf rs rt.
Definition set_share_connected x (r : P2pNodeMessageResult) : P2pNodeMessageResult :=
  let '(mkMessageResult st ss sy ts ms mi uw at_ hs ad re co pi pc sf rs rt) := r in
  mkMessageResult st ss sy ts ms mi uw at_ hs ad re x pi pc sf rs rt.
Definition add_pruned_ids ids count (r : P2pNodeMessageResult) : P2pNodeMessageResult :=
  let '(mkMessageResult st ss sy ts ms mi uw at_ hs ad re co pi pc sf rs rt) := r in
  mkMessageResult st ss sy ts ms mi uw at_ hs ad re co (pi ++ ids) (pc + count)%nat sf rs rt.
Definition set_sent x (r : P2pNodeMessageResult) : P2pNodeMessageResult :=
  let '(mkMessageResult st ss sy ts ms mi uw at_ hs ad re co pi pc sf rs rt) := r in
  mkMessageResult st ss sy ts ms mi uw at_ hs ad re co pi pc x rs rt.
Definition set_relayed share tip (r : P2pNodeMessageResult) : P2pNodeMessageResult :=
  let '(mkMessageResult st ss sy ts ms mi uw at_ hs ad re co pi pc sf rs rt) := r in
  mkMessageResult st ss sy ts ms mi uw at_ hs ad re co pi pc sf share tip.

(** The local variables of [handle] that its lambdas share. *)
Record pass := mkPass {
  pa_result : P2pNodeMessageResult;
  pa_followup : option P2pEnvelope;
  pa_followup_peer : NodeId;
  pa_fresh_tip_followup : option P2pEnvelope;
  pa_relay_share : option P2pEnvelope;
  pa_relay_tip : option P2pEnvelope }.

Definition new_pass (peer : P2pHandshake) : pass :=
  mkPass default_result None (hs_node_id peer) None None None.
Definition on_result (f : P2pNodeMessageResult → P2pNodeMessageResult) (l : pass) : pass :=
  let '(mkPass r fu fp ft rs rt) := l in mkPass (f r) fu fp ft rs rt.
Definition set_followup (e : option P2pEnvelope) (l : pass) : pass :=
  let '(mkPass r fu fp ft rs rt) := l in mkPass r e fp ft rs rt.
Definition set_followup_to (peer : NodeId) (e : option P2pEnvelope) (l : pass) : pass :=
  let '(mkPass r fu fp ft rs rt) := l in mkPass r e peer ft rs rt.
Definition set_fresh_tip (e : option P2pEnvelope) (l : pass) : pass :=
  let '(mkPass r fu fp ft rs rt) := l in mkPass r fu fp e rs rt.
Definition set_relay_share (e : option P2pEnvelope) (l : pass) : pass :=
  let '(mkPass r fu fp ft rs rt) := l in mkPass r fu fp ft e rt.
Definition set_relay_tip (e : option P2pEnvelope) (l : pass) : pass :=
  let '(mkPass r fu fp ft rs rt) := l in mkPass r fu fp ft rs e.

(** ** The statuses of a trust crossing in the result *)

Definition begin_attempt (share : Share) (id : ShareId) (a : HistoricalAttempt)
    : HistoricalAttempt :=
  mkAttempt (at_trust_status a) None None None None None (Some id) (Some (parent_id share))
    (Some (zano_height share)) (Some (mining_header_hash share)).

Definition end_attempt (trust : HistoricalTrustResult) (a : HistoricalAttempt) : HistoricalAttempt :=
  let '(mkAttempt _ anchor payout promotion proof policy id parent h header) := a in
  let status := ht_status trust in
  let rejected := bool_decide (status = PromotionRejected) in
  mkAttempt (Some status)
    (if bool_decide (status = AnchorRejected) then Some (ha_status (ht_initial_anchor trust))
     else if bool_decide (status = AnchorChangedBeforePromotion)
     then Some (ha_status (ht_final_anchor trust)) else anchor)
    (if bool_decide (status = PayoutRejected) then Some (hy_status (ht_payout trust)) else payout)
    (if rejected then Some (tr_status (ht_promotion trust)) else promotion)
    (if rejected then Some (tr_proof_status (ht_promotion trust)) else proof)
    (if rejected then Some (tr_payout_status (ht_promotion trust)) else policy)
    id parent h header.

Definition blocked_status (s : HistoricalPayoutStatus) : bool :=
  bool_decide (s = ParentMissing) || bool_decide (s = UnverifiedAncestry).

Definition parent_blocked (allow_parent_defer : bool) (share : Share)
    (trust : HistoricalTrustResult) : bool :=
  allow_parent_defer && negb (is_zero_share_id (parent_id share)) &&
  bool_decide (ht_status trust = PayoutRejected) && blocked_status (hy_status (ht_payout trust)).

Definition pow_unavailable (trust : HistoricalTrustResult) : bool :=
  (bool_decide (ht_status trust = AnchorRejected) &&
   bool_decide (ha_status (ht_initial_anchor trust) = CanonicalPowContextUnavailable)) ||
  (bool_decide (ht_status trust = AnchorChangedBeforePromotion) &&
   bool_decide (ha_status (ht_final_anchor trust) = CanonicalPowContextUnavailable)).

Definition stable_parent_mismatch (trust : HistoricalTrustResult) : bool :=
  bool_decide (ht_status trust = AnchorRejected) &&
  bool_decide (ha_status (ht_initial_anchor trust) = AnchorParentMismatch).

(** The share status of a replayed share that was revalidated. *)
Definition revalidated_status (s : RevalidateShareStatus) : P2pShareReceiveStatus :=
  match s with
  | Validated => RecvConnected
  | AlreadyValidated => RecvDuplicate
  | ParentUnvalidated | NotConnected | RevalRejected => RecvRejected
  end.

Section Node.
Context `{!ProgPow, !JsonC, !ZanoCrypto} {W : Type} (runtime : P2pRuntime W).
Context (now : Z) (mode : ProgPowZContextMode).

(** The node, the world, and the local variables of one pass. *)
Abbreviation node := (P2pNodeProtocol W).
Abbreviation state := (pass * (node * W))%type.

Definition locals (f : pass → pass) : exec state () := on_state (exec_modify f).
Definition node_op {A} (m : exec node A) : exec state A := on_world (on_state m).
Definition modify_node (f : node → node) : exec state () := node_op (exec_modify f).
Definition daemon_op {A} (m : exec W A) : exec state A := on_world (on_world m).
Definition get_node : exec state node := node_op exec_get.
Definition of_res {S A} (m : res A) : exec S A := exec_const (λ _, m).

(** The registry and the daemon, for the crossing. *)
Definition registry_op {A} (m : exec (P2pTrustedWorkRegistry * W) A) : exec state A :=
  on_world (λ s, let '(r, (tw, w)) := m (np_trusted_work s.1, s.2) in
                 (r, (set_trusted_work tw s.1, w))).

(** [work_retrieval_->f(...)]; the pointer is tested before. *)
Definition retrieval_op {A} (m : exec P2pWorkRetrieval A) : exec node A := λ n,
  match np_work_retrieval n with
  | None => (throw LogicError "model: work retrieval is not installed", n)
  | Some h =>
      let '(r, st) := m (rh_state h) in
      (r, set_work_retrieval (Some (mkRetrievalHandle (rh_sidechain_id h) (rh_archive h) st)) n)
  end.
Definition retrieval_read_local (key : MiningWorkKey) (n : node) : res (option (list byte)) :=
  match np_work_retrieval n with
  | None => throw LogicError "model: work retrieval is not installed"
  | Some h => read_local (rh_sidechain_id h) (rh_archive h) (rh_state h) key
  end.

Definition share_work_key (share : Share) : MiningWorkKey :=
  (zano_height share, mining_header_hash share).

Definition erase_retryable (id : ShareId) (n : node) : node :=
  set_retryable_historical (delete id (np_retryable_historical n)) n.
Definition erase_evidence (key : MiningWorkKey) (n : node) : node :=
  set_historical_evidence (delete key (np_historical_evidence n)) n.
Definition erase_pending (key : PendingHistoricalKey) (n : node) : node :=
  set_pending_historical (delete key (np_pending_historical n)) n.

(** ** One historical candidate *)

(** A replayed branch on a parent that the daemon contradicts. *)
Definition prune_stale_replay (candidate_id : ShareId) : exec state () :=
  n <- get_node ;;
  match find (np_chain n) candidate_id with
  | Some replayed =>
      if validated_ancestry replayed then exec_ret ()
      else
      pruned_ids <- node_op (on_chain (prune_connected_subtree_ids candidate_id)) ;;
      do locals (on_result (add_pruned_ids pruned_ids (length pruned_ids))) ;;
      match pruned_ids with
      | [] => exec_ret ()
      | _ :: _ =>
          do modify_node reset_expectation ;;
          n <- get_node ;;
          let current_tip := p2p_tip_hint_from_chain (np_chain n) in
          if is_zero_share_id (th_share_id current_tip) then exec_ret ()
          else
          tip <- of_res (make_p2p_tip_announce_envelope current_tip) ;;
          locals (set_relay_tip (Some tip))
      end
  | None => exec_ret ()
  end.

Definition reject_historical (candidate : Share) (candidate_id : ShareId)
    (candidate_peer : P2pHandshake) (evidence : HistoricalEvidence) (required_capability : Z)
    (allow_parent_defer : bool) (trust : HistoricalTrustResult) : exec state () :=
  let blocked := parent_blocked allow_parent_defer candidate trust in
  let key := share_work_key candidate in
  do (if stable_parent_mismatch trust then prune_stale_replay candidate_id else exec_ret ()) ;;
  do (if blocked then modify_node (erase_retryable candidate_id) else exec_ret ()) ;;
  deferred <- (if blocked
               then node_op (remember_deferred_historical candidate candidate_peer evidence
                               required_capability now)
               else exec_ret false) ;;
  if (deferred : bool) then
    do modify_node (remember_historical_evidence key evidence now) ;;
    request <- of_res (make_p2p_share_request_envelope (parent_id candidate)) ;;
    locals (set_followup_to (hs_node_id candidate_peer) (Some request))
  else if pow_unavailable trust then
    do modify_node (remember_historical_evidence key evidence now) ;;
    node_op (remember_retryable_historical candidate candidate_peer required_capability now)
  else
    do modify_node (erase_retryable candidate_id) ;;
    modify_node (erase_evidence key).

(** A share already connected by replay is revalidated in place. *)
Definition revalidate_replayed (candidate : Share) (candidate_id : ShareId)
    : exec state (option ShareId) :=
  n <- get_node ;;
  match find_work (np_trusted_work n) (zano_height candidate) (mining_header_hash candidate)
          (parent_id candidate) with
  | None => exec_throw LogicError "trusted historical replay work was not registered"
  | Some trusted =>
      revalidated <- node_op (on_chain (revalidate_connected_share candidate_id trusted now mode)) ;;
      let status := reval_status revalidated in
      do locals (on_result (set_share_status (revalidated_status status))) ;;
      match status with
      | Validated =>
          do locals (on_result (set_share_connected true)) ;; exec_ret (Some candidate_id)
      | AlreadyValidated | RevalRejected => exec_ret None
      | ParentUnvalidated =>
          exec_throw LogicError "historical replay parent lost validated ancestry"
      | NotConnected => exec_throw LogicError "historical replay disappeared during revalidation"
      end
  end.

Definition admit_historical (candidate : Share) (candidate_peer : P2pHandshake)
    (required_capability : Z) : exec state (option ShareId) :=
  n <- get_node ;;
  retried <- node_op (on_chain (receive_share (np_trusted_work n) candidate_peer candidate
               required_capability now mode)) ;;
  let status := recv_status retried in
  do locals (on_result (set_share_status status)) ;;
  do (if best_tip_changed (recv_chain_result retried) then modify_node reset_expectation
      else exec_ret ()) ;;
  do (match recv_missing_parent_id retried with
      | Some missing =>
          request <- of_res (make_p2p_share_request_envelope missing) ;;
          locals (set_followup_to (hs_node_id candidate_peer) (Some request))
      | None => exec_ret ()
      end) ;;
  do (if bool_decide (status = RecvConnected) || bool_decide (status = RecvOrphan)
      then locals (on_result (add_admitted candidate)) else exec_ret ()) ;;
  if bool_decide (status = RecvConnected) then
    do locals (on_result (set_share_connected true)) ;;
    announce <- of_res (make_p2p_share_announce_envelope candidate) ;;
    do locals (set_relay_share (Some announce)) ;;
    n <- get_node ;;
    tip <- of_res (make_p2p_tip_announce_envelope (p2p_tip_hint_from_chain (np_chain n))) ;;
    do locals (set_relay_tip (Some tip)) ;;
    id <- of_res (share_id candidate) ;;
    exec_ret (Some id)
  else exec_ret None.

Definition attempt_historical (candidate : Share) (candidate_peer : P2pHandshake)
    (evidence : HistoricalEvidence) (required_capability : Z) (allow_parent_defer : bool)
    : exec state (option ShareId) :=
  n <- get_node ;;
  match np_sources n with
  | None => exec_ret None
  | Some sources =>
  candidate_id <- of_res (share_id candidate) ;;
  do locals (on_result (λ r, set_attempt (begin_attempt candidate candidate_id (mr_attempt r)) r)) ;;
  observations <- daemon_op (src_observations sources (he_proposal evidence)) ;;
  n <- get_node ;;
  trust <- registry_op (promote_historical_mining_context (src_parent_lookup sources)
             (Some (src_pow_lookup sources)) (np_chain n) (src_params sources) candidate
             (he_source_peer evidence) (he_proposal evidence) observations) ;;
  do locals (on_result (λ r, set_attempt (end_attempt trust (mr_attempt r)) r)) ;;
  if negb (bool_decide (ht_status trust = HistTrusted)) then
    do reject_historical candidate candidate_id candidate_peer evidence required_capability
         allow_parent_defer trust ;;
    exec_ret None
  else
  do modify_node (erase_retryable candidate_id) ;;
  do modify_node (remember_historical_evidence (share_work_key candidate) evidence now) ;;
  do locals (on_result (set_retried candidate)) ;;
  n <- get_node ;;
  match find (np_chain n) candidate_id with
  | Some replayed =>
      if validated_ancestry replayed
      then admit_historical candidate candidate_peer required_capability
      else revalidate_replayed candidate candidate_id
  | None => admit_historical candidate candidate_peer required_capability
  end
  end.

(** ** Deferred descendants *)

(** The candidates whose parent has just connected; those that connect in turn. *)
Fixpoint resume_ready (ready : list ShareId) : exec state (list ShareId) :=
  match ready with
  | [] => exec_ret []
  | candidate_id :: rest =>
      n <- get_node ;;
      match np_deferred_historical n !! candidate_id with
      | None => resume_ready rest
      | Some deferred =>
          do modify_node (λ n, set_deferred_historical
               (delete candidate_id (np_deferred_historical n)) n) ;;
          connected <- attempt_historical (df_share deferred) (df_candidate_peer deferred)
                         (df_evidence deferred) (df_required_capability deferred) false ;;
          more <- resume_ready rest ;;
          exec_ret (match connected with Some id => id :: more | None => more end)
      end
  end.

Definition ready_children (n : node) (parent : ShareId) : list ShareId :=
  (filter (λ item, parent_id (df_share item.2) = parent) (map_sorted (np_deferred_historical n))).*1.

(** The loop over the growing queue, from its [index] on. *)
Fixpoint resume_loop (fuel : nat) (queue : list ShareId) : exec state () :=
  match queue with
  | [] => exec_ret ()
  | parent :: rest =>
      match fuel with
      | O => exec_throw LogicError fuel_exhausted
      | S fuel =>
          n <- get_node ;;
          connected <- resume_ready (ready_children n parent) ;;
          resume_loop fuel (rest ++ connected)
      end
  end.

(** Each share pushed was a deferred candidate before, and no candidate is
    deferred again by the loop. *)
Definition resume_deferred_descendants (connected_parent_id : ShareId) : exec state () :=
  n <- get_node ;;
  resume_loop (S (size (np_deferred_historical n))) [connected_parent_id].

Definition resume_if (connected : option ShareId) : exec state () :=
  match connected with Some id => resume_deferred_descendants id | None => exec_ret () end.

(** ** Local evidence first *)

(** Whether the attempt on the node's own archive settles the candidate. *)
Definition settled (a : HistoricalAttempt) : bool :=
  match at_trust_status a with
  | Some HistTrusted => true
  | Some PayoutRejected => match at_payout_status a with Some s => blocked_status s | None => false end
  | Some AnchorRejected | Some AnchorChangedBeforePromotion =>
      bool_decide (at_anchor_status a = Some CanonicalPowContextUnavailable)
  | _ => false
  end.

Definition attempt_local_historical (candidate : Share) (candidate_peer : P2pHandshake)
    (required_capability : Z) : exec state bool :=
  n <- get_node ;;
  if negb (bool_decide (is_Some (np_work_retrieval n)) && historical_trust_sources_ready n)
  then exec_ret false
  else
  local_bytes <- of_res (retrieval_read_local (share_work_key candidate) n) ;;
  match local_bytes with
  | None => exec_ret false
  | Some bytes =>
      proposal <- of_res (deserialize_p2p_mining_context_payload bytes) ;;
      before <- on_state exec_get ;;
      connected <- attempt_historical candidate candidate_peer (mkEvidence proposal candidate_peer now)
                     required_capability true ;;
      do resume_if connected ;;
      after <- on_state exec_get ;;
      exec_ret (settled (mr_attempt (pa_result after)) ||
                (mr_historical_pruned_connected_shares (pa_result before) <?
                 mr_historical_pruned_connected_shares (pa_result after))%nat)
  end.

(** Ask the peer for the work of a share. *)
Definition request_work (peer : P2pHandshake) (share : Share) (required_capability : Z)
    : exec state () :=
  work_request <- node_op (retrieval_op (begin peer (share_work_key share) now)) ;;
  match work_request with
  | None => exec_ret ()
  | Some request =>
      do locals (set_followup (Some request)) ;;
      n <- get_node ;;
      if historical_trust_sources_ready n
      then modify_node (remember_pending_historical peer share required_capability now)
      else exec_ret ()
  end.

(** ** The message types *)

Definition relay_tip_now : exec state () :=
  n <- get_node ;;
  tip <- of_res (make_p2p_tip_announce_envelope (p2p_tip_hint_from_chain (np_chain n))) ;;
  locals (set_relay_tip (Some tip)).

(** What a reception changes besides the chain, up to the relay. *)
Definition after_receive (r : P2pShareReceiveResult) : exec state () :=
  do (if best_tip_changed (recv_chain_result r) then modify_node reset_expectation
      else exec_ret ()) ;;
  match recv_missing_parent_id r with
  | Some missing =>
      request <- of_res (make_p2p_share_request_envelope missing) ;;
      locals (set_followup (Some request))
  | None => exec_ret ()
  end.

Definition handle_share_announce (peer : P2pHandshake) (envelope : P2pEnvelope) : exec state () :=
  n <- get_node ;;
  received <- node_op (on_chain (receive (np_trusted_work n) peer envelope now mode)) ;;
  do locals (on_result (set_status NodeShareProcessed)) ;;
  do locals (on_result (set_share_status (recv_status received))) ;;
  do (if bool_decide (recv_status received = UnknownWorkContext) &&
         bool_decide (is_Some (np_work_retrieval n))
      then
        share <- of_res (parse_p2p_share_announce_envelope envelope) ;;
        do modify_node (expire_historical_state now) ;;
        n <- get_node ;;
        match np_historical_evidence n !! share_work_key share with
        | Some evidence =>
            if historical_trust_sources_ready n then
              connected <- attempt_historical share peer evidence kP2pCapabilityShareGossip true ;;
              resume_if connected
            else request_work peer share kP2pCapabilityShareGossip
        | None => request_work peer share kP2pCapabilityShareGossip
        end
      else exec_ret ()) ;;
  do after_receive received ;;
  if bool_decide (recv_status received = RecvConnected) then
    do locals (set_relay_share (Some envelope)) ;;
    do relay_tip_now ;;
    resume_deferred_descendants (result_id (recv_chain_result received))
  else exec_ret ().

Definition handle_share_request (peer : P2pHandshake) (envelope : P2pEnvelope) : exec state () :=
  n <- get_node ;;
  reply <- of_res (answer_p2p_share_request peer envelope (np_chain n)) ;;
  do locals (set_followup (Some reply)) ;;
  response <- of_res (parse_p2p_share_response_envelope reply) ;;
  do (match sr_code response with
      | NotFound =>
          let current_tip := p2p_tip_hint_from_chain (np_chain n) in
          if is_zero_share_id (th_share_id current_tip) then exec_ret ()
          else
          tip <- of_res (make_p2p_tip_announce_envelope current_tip) ;;
          locals (set_fresh_tip (Some tip))
      | Found => exec_ret ()
      end) ;;
  locals (on_result (set_status ShareRequestAnswered)).

(** The share of a response on work that is not trusted yet. *)
Definition recover_response_share (peer : P2pHandshake) (share : Share) : exec state () :=
  do modify_node (expire_historical_state now) ;;
  n <- get_node ;;
  match (if historical_trust_sources_ready n
         then np_historical_evidence n !! share_work_key share else None) with
  | Some evidence =>
      connected <- attempt_historical share peer evidence kP2pCapabilityShareSync true ;;
      resume_if connected
  | None =>
      handled <- attempt_local_historical share peer kP2pCapabilityShareSync ;;
      if (handled : bool) then exec_ret () else request_work peer share kP2pCapabilityShareSync
  end.

Definition handle_share_response (peer : P2pHandshake) (envelope : P2pEnvelope) : exec state () :=
  n <- get_node ;;
  sync <- node_op (on_chain (receive_p2p_share_response (np_trusted_work n) peer envelope now mode)) ;;
  do locals (on_result (set_status ShareResponseProcessed)) ;;
  do locals (on_result (set_sync_status (sy_status sync))) ;;
  match sy_share_result sync with
  | None => exec_ret ()
  | Some received =>
      do locals (on_result (set_share_status (recv_status received))) ;;
      do (if bool_decide (recv_status received = UnknownWorkContext) &&
             bool_decide (is_Some (np_work_retrieval n))
          then
            response <- of_res (parse_p2p_share_response_envelope envelope) ;;
            match sr_share response with
            | Some share => recover_response_share peer share
            | None => exec_ret ()
            end
          else exec_ret ()) ;;
      do after_receive received ;;
      if bool_decide (recv_status received = RecvConnected) then
        response <- of_res (parse_p2p_share_response_envelope envelope) ;;
        match sr_share response with
        | Some share =>
            announce <- of_res (make_p2p_share_announce_envelope share) ;;
            do locals (set_relay_share (Some announce)) ;;
            do relay_tip_now ;;
            resume_deferred_descendants (result_id (recv_chain_result received))
        | None => exec_ret ()
        end
      else exec_ret ()
  end.

(** The network frontier of a deferred walk: a candidate whose parent is neither
    deferred for the same peer nor validated here. *)
Definition unresolved_frontier (n : node) (peer_id : NodeId) (d : DeferredHistoricalCandidate)
    : bool :=
  let parent := parent_id (df_share d) in
  if is_zero_share_id parent then false
  else if match np_deferred_historical n !! parent with
          | Some p => arr_eqb (hs_node_id (df_candidate_peer p)) peer_id
          | None => false
          end then false
  else negb match find (np_chain n) parent with
            | Some p => validated_ancestry p
            | None => false
            end.

(** The loops that keep the best candidate seen, in key order. *)
Definition select_best (eligible : DeferredHistoricalCandidate → bool)
    (better : DeferredHistoricalCandidate → DeferredHistoricalCandidate → bool) (n : node)
    : option DeferredHistoricalCandidate :=
  fold_left (λ selected item,
    if negb (eligible item.2) then selected
    else match selected with
         | None => Some item.2
         | Some s => if better item.2 s then Some item.2 else selected
         end) (map_sorted (np_deferred_historical n)) None.

Definition lower_share (d s : DeferredHistoricalCandidate) : bool :=
  share_height (df_share d) <? share_height (df_share s).

Definition select_frontier_for_root (n : node) (peer_id : NodeId) (recovery_root : ShareId)
    : option DeferredHistoricalCandidate :=
  select_best (λ d, arr_eqb (hs_node_id (df_candidate_peer d)) peer_id &&
                    arr_eqb (df_recovery_root d) recovery_root && unresolved_frontier n peer_id d)
    lower_share n.

Definition select_oldest_frontier (n : node) (peer_id : NodeId)
    : option DeferredHistoricalCandidate :=
  select_best (λ d, arr_eqb (hs_node_id (df_candidate_peer d)) peer_id &&
                    unresolved_frontier n peer_id d)
    (λ d s, (df_last_progress d <? df_last_progress s) ||
            ((df_last_progress d =? df_last_progress s) && lower_share d s)) n.

(** The frontier to ask for, keeping the walk that was chosen before. *)
Definition deferred_frontier (peer_id : NodeId) (n : node)
    : option DeferredHistoricalCandidate * node :=
  let roots := np_active_deferred_recovery_root n in
  let sticky := match roots !! peer_id with
                | Some root => select_frontier_for_root n peer_id root
                | None => None
                end in
  match sticky with
  | Some d => (Some d, n)
  | None =>
      let roots := delete peer_id roots in
      match select_oldest_frontier n peer_id with
      | None => (None, set_active_deferred_recovery_root roots n)
      | Some d =>
          (Some d, set_active_deferred_recovery_root (<[peer_id := df_recovery_root d]> roots) n)
      end
  end.

Definition has_share_sync (peer : P2pHandshake) : bool :=
  negb (Z.land (hs_capabilities peer) kP2pCapabilityShareSync =? 0).

Definition recovery_enabled (n : node) : bool :=
  bool_decide (is_Some (np_work_retrieval n)) && historical_trust_sources_ready n.

Definition handle_tip_announce (peer : P2pHandshake) (envelope : P2pEnvelope) : exec state () :=
  hint <- of_res (parse_p2p_tip_announce_envelope envelope) ;;
  n <- get_node ;;
  let decision := plan_p2p_tip_sync peer hint (np_chain n) in
  do locals (on_result (set_status TipProcessed)) ;;
  do locals (on_result (set_tip_status (td_status decision))) ;;
  do modify_node (expire_historical_state now) ;;
  n <- get_node ;;
  frontier <- (if recovery_enabled n && has_share_sync peer
               then let '(d, n') := deferred_frontier (hs_node_id peer) n in
                    do modify_node (λ _, n') ;; exec_ret d
               else exec_ret None) ;;
  match frontier with
  | Some d =>
      request <- of_res (make_p2p_share_request_envelope (parent_id (df_share d))) ;;
      locals (set_followup_to (hs_node_id peer) (Some request))
  | None =>
      match td_requested_id decision with
      | Some id =>
          request <- of_res (make_p2p_share_request_envelope id) ;;
          locals (set_followup (Some request))
      | None =>
          if bool_decide (td_status decision = KnownConnectedTip) && recovery_enabled n &&
             match find (np_chain n) (th_share_id hint) with
             | Some connected => negb (validated_ancestry connected)
             | None => false
             end
          then
            request <- of_res (make_p2p_share_request_envelope (th_share_id hint)) ;;
            locals (set_followup_to (hs_node_id peer) (Some request))
          else exec_ret ()
      end
  end.

Definition handle_mining_context (peer : P2pHandshake) (envelope : P2pEnvelope) : exec state () :=
  n <- get_node ;;
  let defer := locals (on_result (set_status MiningContextDeferred)) in
  match np_local_mining_anchor n, np_expected_payout_parent_id n with
  | Some anchor, Some parent =>
      let promoted m :=
        trust <- node_op (on_trusted_work m) ;;
        do locals (on_result (set_status MiningContextProcessed)) ;;
        locals (on_result (set_context_status (tr_status trust) (tr_registry_inserted trust))) in
      match np_expected_payout_plan n, np_expected_payout n with
      | Some plan, _ => promoted (promote_p2p_mining_context peer envelope anchor parent plan)
      | None, Some payout =>
          promoted (promote_p2p_mining_context_payout peer envelope anchor parent payout)
      | None, None => defer
      end
  | _, _ => defer
  end.

Definition handle_work_request (peer : P2pHandshake) (envelope : P2pEnvelope) : exec state () :=
  n <- get_node ;;
  match np_work_retrieval n with
  | None => exec_throw RuntimeError "work retrieval is disabled"
  | Some h =>
      reply <- of_res (answer (rh_sidechain_id h) (rh_archive h) (rh_state h) peer envelope) ;;
      do locals (set_followup (Some reply)) ;;
      locals (on_result (set_status MiningWorkRequestAnswered))
  end.

(** [try { m } catch (...) { cleanup; throw; }]. *)
Definition on_throw {S A} (m : exec S A) (cleanup : S → S) : exec S A := λ s,
  match m s with
  | (Throw e, s') => (Throw e, cleanup s')
  | out => out
  end.

Definition handle_work_response (peer : P2pHandshake) (envelope : P2pEnvelope) : exec state () :=
  n <- get_node ;;
  match np_work_retrieval n with
  | None => exec_throw RuntimeError "work retrieval is disabled"
  | Some _ =>
  response <- of_res (parse_mining_work_response envelope) ;;
  let work_key := wr_key (ws_request response) in
  let pending_key := (hs_node_id peer, work_key) in
  received <- node_op (on_throw (retrieval_op (receive_work peer envelope now))
                (erase_pending pending_key)) ;;
  do locals (set_followup (wv_followup received)) ;;
  do locals (on_result (set_untrusted_work (wv_received_id received))) ;;
  do locals (on_result (set_status MiningWorkResponseProcessed)) ;;
  if ws_total_size response =? 0 then modify_node (erase_pending pending_key)
  else
  match wv_received_id received with
  | None => exec_ret ()
  | Some _ =>
      do modify_node (expire_historical_state now) ;;
      n <- get_node ;;
      match (if historical_trust_sources_ready n
             then np_pending_historical n !! pending_key else None) with
      | None => exec_ret ()
      | Some candidate =>
          work_bytes <- node_op (retrieval_op (take_untrusted work_key)) ;;
          match work_bytes with
          | None => exec_throw RuntimeError
                      "completed historical work is missing from untrusted cache"
          | Some bytes =>
              proposal <- of_res (deserialize_p2p_mining_context_payload bytes) ;;
              do modify_node (erase_pending pending_key) ;;
              connected <- attempt_historical (ph_share candidate) peer
                             (mkEvidence proposal peer now) (ph_required_capability candidate) true ;;
              resume_if connected
          end
      end
  end
  end.

Definition handle_message (peer : P2pHandshake) (envelope : P2pEnvelope) : exec state () :=
  match env_type envelope with
  | ShareAnnounce => handle_share_announce peer envelope
  | ShareRequest => handle_share_request peer envelope
  | ShareResponse => handle_share_response peer envelope
  | TipAnnounce => handle_tip_announce peer envelope
  | MiningContextAnnounce => handle_mining_context peer envelope
  | P2pProtocol.MiningWorkRequest => handle_work_request peer envelope
  | P2pProtocol.MiningWorkResponse => handle_work_response peer envelope
  | Handshake => locals (on_result (set_status UnexpectedHandshake))
  | UnknownMessage _ => exec_ret ()
  end.

(** ** Other replay frontiers *)

(** Replayed, not validated, and its parent is. *)
Definition replay_frontier (c : ShareChain) (connected : ConnectedShare) : bool :=
  negb (validated_ancestry connected) &&
  (is_zero_share_id (parent_id (cs_share connected)) ||
   match find c (parent_id (cs_share connected)) with
   | Some parent => validated_ancestry parent
   | None => false
   end).

Definition mark_attempt (key : ReplayFrontierKey) (n : node) : node :=
  set_replay_frontier_attempts (<[key := now]> (np_replay_frontier_attempts n)) n.
Definition unmark_attempt (key : ReplayFrontierKey) (n : node) : node :=
  set_replay_frontier_attempts (delete key (np_replay_frontier_attempts n)) n.

(** The frontier to try next for a peer, if [id] is one. *)
Definition eligible_frontier (n : node) (peer_id : NodeId) (id : ShareId) : option Share :=
  match find (np_chain n) id with
  | Some connected =>
      if replay_frontier (np_chain n) connected &&
         bool_decide (np_replay_frontier_attempts n !! (peer_id, id) = None)
      then Some (cs_share connected) else None
  | None => None
  end.

Fixpoint frontier_loop (peer : P2pHandshake) (ids : list ShareId) (frontier_budget : nat)
    (frontier_connected : bool) : exec state bool :=
  match ids with
  | [] => exec_ret frontier_connected
  | candidate_id :: rest =>
      l <- on_state exec_get ;;
      if (frontier_budget =? 0)%nat || bool_decide (is_Some (pa_followup l))
      then exec_ret frontier_connected
      else
      n <- get_node ;;
      match eligible_frontier n (hs_node_id peer) candidate_id with
      | None => frontier_loop peer rest frontier_budget frontier_connected
      | Some candidate =>
          let key := (hs_node_id peer, candidate_id) in
          handled_locally <- attempt_local_historical candidate peer kP2pCapabilityShareSync ;;
          if (handled_locally : bool) then
            do modify_node (mark_attempt key) ;;
            l <- on_state exec_get ;;
            frontier_loop peer rest (frontier_budget - 1)
              (frontier_connected || mr_historical_share_connected (pa_result l))
          else
          work_request <- node_op (retrieval_op (begin peer (share_work_key candidate) now)) ;;
          match work_request with
          | None => exec_ret frontier_connected
          | Some request =>
              do modify_node (mark_attempt key) ;;
              do locals (set_followup_to (hs_node_id peer) (Some request)) ;;
              do modify_node (remember_pending_historical peer candidate kP2pCapabilityShareSync now) ;;
              exec_ret frontier_connected
          end
      end
  end.

(** What the scheduler leaves of the result: that of the message, with what was
    connected and pruned besides. *)
Definition merge_results (outer inner : P2pNodeMessageResult) (frontier_connected : bool)
    : res P2pNodeMessageResult :=
  let before := mr_historical_pruned_connected_shares outer in
  let after := mr_historical_pruned_connected_shares inner in
  let ids_before := mr_historical_pruned_share_ids outer in
  let ids_after := mr_historical_pruned_share_ids inner in
  (_ ← throw_if ((after <? before)%nat || (length ids_after <? length ids_before)%nat) LogicError
        "historical prune aggregation regressed";
  let count := (after - before)%nat in
  let ids := drop (length ids_before) ids_after in
  _ ← throw_if (negb (count =? length ids)%nat) LogicError "historical prune ID/count mismatch";
  mret (add_pruned_ids ids count
          (set_share_connected (mr_historical_share_connected outer || frontier_connected) outer)))%stdpp.

Definition schedule_frontiers (peer : P2pHandshake) : exec state () :=
  l <- on_state exec_get ;;
  n <- get_node ;;
  if bool_decide (is_Some (pa_followup l)) || negb (bool_decide (is_Some (np_work_retrieval n))) ||
     negb (has_share_sync peer)
  then exec_ret ()
  else
  let outer := pa_result l in
  do modify_node (expire_historical_state now) ;;
  n <- get_node ;;
  frontier_connected <-
    (if historical_trust_sources_ready n then
       do locals (on_result (set_share_connected false)) ;;
       found <- frontier_loop peer (ids_by_height (np_chain n)) kMiningWorkMaxPending false ;;
       l <- on_state exec_get ;;
       exec_ret (found || mr_historical_share_connected (pa_result l))
     else exec_ret false) ;;
  l <- on_state exec_get ;;
  merged <- of_res (merge_results outer (pa_result l) frontier_connected) ;;
  locals (on_result (λ _, merged)).

(** ** The end of a pass *)

Definition p2p_node_message_penalty (r : P2pNodeMessageResult) : Z :=
  let penalty b := if (b : bool) then PeerScore.kP2pProtocolViolationPenalty else 0 in
  match mr_status r with
  | NodeShareProcessed => penalty (bool_decide (mr_share_status r = CapabilityMissing))
  | ShareRequestAnswered | MiningWorkRequestAnswered | MiningWorkResponseProcessed => 0
  | ShareResponseProcessed =>
      match mr_sync_status r with
      | SyncCapabilityMissing => PeerScore.kP2pProtocolViolationPenalty
      | ShareProcessed => penalty (bool_decide (mr_share_status r = CapabilityMissing))
      | SyncNotFound => 0
      end
  | TipProcessed =>
      penalty (bool_decide (mr_tip_status r = HeightMismatch) ||
               bool_decide (mr_tip_status r = TipCapabilityMissing))
  | MiningContextProcessed =>
      penalty (bool_decide (mr_mining_context_status r = TrustCapabilityMissing) ||
               bool_decide (mr_mining_context_status r = ProofsRejected))
  | MiningContextDeferred => 0
  | UnexpectedHandshake => PeerScore.kP2pProtocolViolationPenalty
  end.

Definition world (f : W → W) : exec state () := daemon_op (exec_modify f).

Definition send_replies (peer : P2pHandshake) : exec state P2pNodeMessageResult :=
  l <- on_state exec_get ;;
  let penalty := p2p_node_message_penalty (pa_result l) in
  do (if penalty =? 0 then exec_ret ()
      else world (rn_report_peer_misbehavior runtime (hs_node_id peer) penalty)) ;;
  do (match pa_followup l with
      | Some followup =>
          sent <- daemon_op (λ w, let '(b, w') := rn_send_to runtime (pa_followup_peer l) followup w in
                                  (Ok b, w')) ;;
          locals (on_result (set_sent sent))
      | None => exec_ret ()
      end) ;;
  do (match pa_fresh_tip_followup l with
      | Some tip => world (λ w, (rn_send_to runtime (hs_node_id peer) tip w).2)
      | None => exec_ret ()
      end) ;;
  do (match pa_relay_share l with
      | Some share => world (rn_broadcast_except runtime (hs_node_id peer) share)
      | None => exec_ret ()
      end) ;;
  do (match pa_relay_tip l with
      | Some tip => world (rn_broadcast_except runtime (hs_node_id peer) tip)
      | None => exec_ret ()
      end) ;;
  do locals (on_result (set_relayed (bool_decide (is_Some (pa_relay_share l)))
                          (bool_decide (is_Some (pa_relay_tip l))))) ;;
  l <- on_state exec_get ;;
  exec_ret (pa_result l).

Definition handle_pass (peer : P2pHandshake) (envelope : P2pEnvelope)
    : exec state P2pNodeMessageResult :=
  do handle_message peer envelope ;;
  do schedule_frontiers peer ;;
  send_replies peer.

Definition handle (peer : P2pHandshake) (envelope : P2pEnvelope)
    : exec (node * W) P2pNodeMessageResult :=
  λ s, let '(r, (_, s')) := handle_pass peer envelope (new_pass peer, s) in (r, s').

(** ** What a message admitted *)

Definition append_unique (admitted : list Share) (share : Share) : res (list Share) :=
  (id ← share_id share;
  present ← (fix any_of (l : list Share) : res bool :=
      match l with
      | [] => Ok false
      | existing :: rest =>
          (other ← share_id existing;
          if arr_eqb other id then mret true else any_of rest)%stdpp
      end) admitted;
  mret (if (present : bool) then admitted else admitted ++ [share]))%stdpp.

Fixpoint append_all (admitted shares : list Share) : res (list Share) :=
  match shares with
  | [] => Ok admitted
  | share :: rest => (admitted ← append_unique admitted share; append_all admitted rest)%stdpp
  end.

Definition p2p_node_unique_admitted_shares (result : P2pNodeMessageResult) (envelope : P2pEnvelope)
    : res (list Share) :=
  (let admitted_status := bool_decide (mr_share_status result = RecvConnected) ||
                          bool_decide (mr_share_status result = RecvOrphan) in
  direct ← (match mr_status result with
            | NodeShareProcessed =>
                if admitted_status
                then share ← parse_p2p_share_announce_envelope envelope; append_unique [] share
                else mret []
            | ShareResponseProcessed =>
                if admitted_status
                then response ← parse_p2p_share_response_envelope envelope;
                     match sr_share response with
                     | Some share => append_unique [] share
                     | None => mret []
                     end
                else mret []
            | _ => mret []
            end);
  append_all direct (mr_historical_admitted_shares result))%stdpp.

(** ** Retries *)

Record P2pHistoricalRetrySummary := mkRetrySummary {
  rs_attempted : nat;
  rs_trusted : nat;
  rs_connected : nat;
  rs_admitted_shares : list Share;
  rs_pruned_share_ids : list ShareId;
  rs_pruned_connected_shares : nat;
  rs_remaining : nat }.

Definition retry_envelope (candidate : RetryableHistoricalCandidate) : res P2pEnvelope :=
  if ry_required_capability candidate =? kP2pCapabilityShareGossip
  then make_p2p_share_announce_envelope (ry_share candidate)
  else if ry_required_capability candidate =? kP2pCapabilityShareSync
  then (requested_id ← share_id (ry_share candidate);
       make_p2p_share_response_envelope requested_id (Some (ry_share candidate)))%stdpp
  else throw LogicError "unsupported historical retry capability".

(** The candidate put back after an exception. *)
Definition restore_retry (candidate : RetryableHistoricalCandidate) (n : node) : node :=
  match share_id (ry_share candidate) with
  | Ok id =>
      if negb (outlived now (ry_started candidate)) &&
         bool_decide (np_retryable_historical n !! id = None)
      then set_retryable_historical (<[id := candidate]> (np_retryable_historical n)) n
      else n
  | Throw _ => n
  end.

Definition retry_one (candidate : RetryableHistoricalCandidate) (summary : P2pHistoricalRetrySummary)
    : exec (node * W) P2pHistoricalRetrySummary :=
  envelope <- of_res (retry_envelope candidate) ;;
  result <- on_throw (handle (ry_candidate_peer candidate) envelope)
              (λ s, (restore_retry candidate s.1, s.2)) ;;
  admitted <- of_res (p2p_node_unique_admitted_shares result envelope) ;;
  all <- of_res (append_all (rs_admitted_shares summary) admitted) ;;
  do (match at_trust_status (mr_attempt result) with
      | None =>
          if bool_decide (mr_share_status result = UnknownWorkContext) then exec_ret ()
          else
          id <- of_res (share_id (ry_share candidate)) ;;
          on_state (exec_modify (erase_retryable id))
      | Some _ => exec_ret ()
      end) ;;
  let '(mkRetrySummary attempted trusted connected _ ids pruned remaining) := summary in
  exec_ret (mkRetrySummary attempted
    (if bool_decide (at_trust_status (mr_attempt result) = Some HistTrusted) then S trusted else trusted)
    (if mr_historical_share_connected result then S connected else connected)
    all (ids ++ mr_historical_pruned_share_ids result)
    (pruned + mr_historical_pruned_connected_shares result) remaining).

Fixpoint retry_loop (candidates : list RetryableHistoricalCandidate)
    (summary : P2pHistoricalRetrySummary) : exec (node * W) P2pHistoricalRetrySummary :=
  match candidates with
  | [] => exec_ret summary
  | candidate :: rest => summary <- retry_one candidate summary ;; retry_loop rest summary
  end.

Definition retry_historical_pow_unavailable : exec (node * W) P2pHistoricalRetrySummary :=
  do on_state (exec_modify (expire_historical_state now)) ;;
  n <- on_state exec_get ;;
  let retry := (map_sorted (np_retryable_historical n)).*2 in
  summary <- retry_loop retry (mkRetrySummary (length retry) 0 0 [] [] 0 0) ;;
  do on_state (exec_modify (expire_historical_state now)) ;;
  n <- on_state exec_get ;;
  let '(mkRetrySummary attempted trusted connected admitted ids pruned _) := summary in
  exec_ret (mkRetrySummary attempted trusted connected admitted ids pruned
              (size (np_retryable_historical n))).

(** ** Periodic replay recovery *)

Record P2pReplayRecoverySummary := mkReplaySummary {
  rp_attempted : nat;
  rp_connected : nat;
  rp_pruned_share_ids : list ShareId;
  rp_pruned_connected_shares : nat;
  rp_remaining : nat;
  rp_attempt : HistoricalAttempt }.

Fixpoint first_eligible (n : node) (peer_id : NodeId) (ids : list ShareId)
    : option (ShareId * Share) :=
  match ids with
  | [] => None
  | id :: rest =>
      match eligible_frontier n peer_id id with
      | Some share => Some (id, share)
      | None => first_eligible n peer_id rest
      end
  end.

(** The loop over the live peers up to the first that has a frontier to try,
    which is reserved. *)
Fixpoint select_replay (peers : list P2pHandshake)
    : exec node (option (P2pHandshake * (ShareId * Share))) :=
  match peers with
  | [] => exec_ret None
  | peer :: rest =>
      if negb (has_share_sync peer) then select_replay rest
      else
      do exec_modify (expire_historical_state now) ;;
      n <- exec_get ;;
      if negb (recovery_enabled n) then exec_ret None
      else
      match first_eligible n (hs_node_id peer) (ids_by_height (np_chain n)) with
      | None => select_replay rest
      | Some (id, share) =>
          do exec_modify (mark_attempt (hs_node_id peer, id)) ;;
          exec_ret (Some (peer, (id, share)))
      end
  end.

(** The node's own archive and the stable local chain: whether they settle the
    candidate, and whether it was validated just now. *)
Definition revalidate_from_archive (candidate_id : ShareId) (candidate : Share)
    : exec (node * W) (bool * bool) :=
  n <- on_state exec_get ;;
  match np_sources n with
  | None => exec_ret (false, false)
  | Some sources =>
  local_payload <- of_res (retrieval_read_local (share_work_key candidate) n) ;;
  match local_payload with
  | None => exec_ret (false, false)
  | Some payload =>
  proposal <- of_res (deserialize_p2p_mining_context_payload payload) ;;
  header <- of_res (validate_p2p_mining_context_structure proposal) ;;
  if negb (zano_height candidate =? pp_zano_height proposal) ||
     negb (arr_eqb (mining_header_hash candidate) header) ||
     negb (arr_eqb (network_difficulty candidate) (pp_network_difficulty proposal))
  then exec_ret (false, false)
  else
  observations <- on_world (src_observations sources proposal) ;;
  initial <- on_world (audit_historical_local_anchor (src_parent_lookup sources) None proposal
               observations) ;;
  if negb (bool_decide (ha_status initial = AnchorMatchedUntrusted)) ||
     negb (arr_eqb (ha_mining_header_hash initial) header)
  then exec_ret (false, false)
  else
  final <- on_world (audit_historical_local_anchor (src_parent_lookup sources) None proposal
             observations) ;;
  if negb (bool_decide (ha_status final = AnchorMatchedUntrusted)) ||
     negb (arr_eqb (ha_mining_header_hash final) (ha_mining_header_hash initial))
  then exec_ret (false, false)
  else
  n <- on_state exec_get ;;
  match find (np_chain n) candidate_id with
  | None => exec_ret (false, false)
  | Some current =>
      if validated_ancestry current then exec_ret (true, false)
      else
      revalidated <- on_state (on_chain (revalidate_connected_share candidate_id
        (mkContext (pp_zano_height proposal) header (pp_network_difficulty proposal)) now mode)) ;;
      exec_ret (match reval_status revalidated with
                | Validated => (true, true)
                | AlreadyValidated => (true, false)
                | _ => (false, false)
                end)
  end
  end
  end.

Definition trusted_attempt (id parent : ShareId) : HistoricalAttempt :=
  mkAttempt (Some HistTrusted) None None None None None (Some id) (Some parent) None None.
Definition reported_attempt (id parent : ShareId) (a : HistoricalAttempt) : HistoricalAttempt :=
  mkAttempt (at_trust_status a) (at_anchor_status a) (at_payout_status a) (at_promotion_status a)
    (at_proof_status a) (at_payout_policy_status a) (Some id) (Some parent) None None.

Definition replay_one (peer : P2pHandshake) (id : ShareId) (candidate : Share)
    : exec (node * W) P2pReplayRecoverySummary :=
  local <- revalidate_from_archive id candidate ;;
  if (local.1 : bool)
  then exec_ret (mkReplaySummary 1 (if (local.2 : bool) then 1 else 0) [] 0 0
                   (trusted_attempt id (parent_id candidate)))
  else
  replay <- of_res (make_p2p_share_response_envelope id (Some candidate)) ;;
  result <- handle peer replay ;;
  exec_ret (mkReplaySummary 1 (if mr_historical_share_connected result then 1 else 0)
    (mr_historical_pruned_share_ids result) (mr_historical_pruned_connected_shares result) 0
    (reported_attempt id (parent_id candidate) (mr_attempt result))).

Definition unvalidated_count (c : ShareChain) : nat :=
  length (filter (λ item, validated_ancestry item.2 = false) (map_sorted (connected c))).

Definition advance_replay_recovery : exec (node * W) P2pReplayRecoverySummary :=
  w <- on_world exec_get ;;
  selected <- on_state (select_replay (rn_peer_handshakes runtime w)) ;;
  summary <- match selected with
             | None => exec_ret (mkReplaySummary 0 0 [] 0 0 no_attempt)
             | Some (peer, (key_id, candidate)) =>
                 id <- of_res (share_id candidate) ;;
                 on_throw (replay_one peer id candidate)
                   (λ s, (unmark_attempt (hs_node_id peer, key_id) s.1, s.2))
             end ;;
  do on_state (exec_modify (expire_historical_state now)) ;;
  n <- on_state exec_get ;;
  let '(mkReplaySummary attempted connected ids pruned _ a) := summary in
  exec_ret (mkReplaySummary attempted connected ids pruned (unvalidated_count (np_chain n)) a).

End Node.

Definition p2p_node_message_status_name (s : P2pNodeMessageStatus) : string :=
  match s with
  | NodeShareProcessed => "share-processed"
  | ShareRequestAnswered => "share-request-answered"
  | ShareResponseProcessed => "share-response-processed"
  | TipProcessed => "tip-processed"
  | MiningContextProcessed => "mining-context-processed"
  | MiningContextDeferred => "mining-context-deferred"
  | MiningWorkRequestAnswered => "mining-work-request-answered"
  | MiningWorkResponseProcessed => "mining-work-response-processed"
  | UnexpectedHandshake => "unexpected-handshake"
  end.
