(* ===== verification/NodeSpec.v ===== *)
(** Every operation of the node protocol keeps the invariant and changes the
    registry and the chain only along the moves of the abstract machine, whether
    it returns or throws. *)
From S2P Require Import Prelude CryptoHash PowTarget Share SidechainParams Difficulty ShareChain.
From S2P Require Import ChainWork ChainInv ChainPromote ChainAdmit ChainReplay ChainPrune.
From S2P Require Import ChainHistory P2pProtocol P2pShare P2pSync PplnsCoinbase PayoutPolicy.
From S2P Require Import MiningHeader BlockTemplate MiningContext WorkArchive WorkRetrieval ZanoCurve.
From S2P Require Import MinerTxProofs ContextTrust HistoricalTrust Restart NodeState NodeLogic NodeInv.
From S2P Require Import P2pNode.
Local Open Scope pool_scope.
#[local] Set Default Proof Using "Type*".

(** ** Rules for parts of a state *)

Section Lifts.
Context {S T : Type}.

Lemma wp_on_world {A} (I : T → Prop) (R : relation T) (m : exec T A)
    (Q : A → S * T → Prop) s :
  wp I R m (λ a t, Q a (s.1, t)) s.2 →
  wp (λ s, I s.2) (λ s s', R s.2 s'.2) (on_world m) Q s.
Proof. destruct s as [x t]. unfold wp, on_world. cbn. by destruct (m t). Qed.

Lemma wp_on_state {A} (I : S → Prop) (R : relation S) (m : exec S A)
    (Q : A → S * T → Prop) s :
  wp I R m (λ a x, Q a (x, s.2)) s.1 →
  wp (λ s, I s.1) (λ s s', R s.1 s'.1) (on_state m) Q s.
Proof. destruct s as [x t]. unfold wp, on_state. cbn. by destruct (m x). Qed.

(** The part the invariant does not look at. *)
Lemma wp_other_state {A} (I : T → Prop) (R : relation T) `{!Reflexive R} (m : exec S A)
    (Q : A → S * T → Prop) s :
  I s.2 → (∀ a x, m s.1 = (Ok a, x) → Q a (x, s.2)) →
  wp (λ s, I s.2) (λ s s', R s.2 s'.2) (on_state m) Q s.
Proof.
  destruct s as [x t]. unfold wp, on_state. cbn. intros HI HQ.
  destruct (m x) as [[a|e] x'] eqn:E; cbn; (split; [done|]); (split; [reflexivity|]); [by apply HQ|done].
Qed.
Lemma wp_other_world {A} (I : S → Prop) (R : relation S) `{!Reflexive R} (m : exec T A)
    (Q : A → S * T → Prop) s :
  I s.1 → (∀ a t, m s.2 = (Ok a, t) → Q a (s.1, t)) →
  wp (λ s, I s.1) (λ s s', R s.1 s'.1) (on_world m) Q s.
Proof.
  destruct s as [x t]. unfold wp, on_world. cbn. intros HI HQ.
  destruct (m t) as [[a|e] t'] eqn:E; cbn; (split; [done|]); (split; [reflexivity|]); [by apply HQ|done].
Qed.

End Lifts.

Section Rules.
Context {S : Type} (I : S → Prop) (R : relation S) `{!PreOrder R}.

(** A computation that is safe in every good state. *)
Definition safe {A} (m : exec S A) : Prop := ∀ s, I s → wp I R m (λ _ _, True) s.

Lemma wp_safe {A} (m : exec S A) (Q : A → S → Prop) s :
  safe m → I s → (∀ a s', I s' → Q a s') → wp I R m Q s.
Proof. intros Hm HI HQ. apply (wp_mono I R m (λ _ _, True)); [|by apply Hm]. intros a s' HI' _. by apply HQ. Qed.

Lemma safe_bind {A B} (m : exec S A) (f : A → exec S B) :
  safe m → (∀ a, safe (f a)) → safe (exec_bind m f).
Proof.
  intros Hm Hf s HI. apply wp_bind; [done|]. apply wp_safe; [done..|]. intros a s' _ HI'. by apply Hf.
Qed.
Lemma safe_ret {A} (a : A) : safe (exec_ret a).
Proof. intros s HI. by apply wp_ret. Qed.
Lemma safe_throw {A} k what : safe (exec_throw (A := A) k what).
Proof. intros s HI. by apply wp_throw. Qed.
Lemma safe_const {A} (f : S → res A) : safe (exec_const f).
Proof. intros s HI. by apply wp_const. Qed.
Lemma safe_get : safe exec_get.
Proof. intros s HI. by apply wp_get. Qed.

Lemma safe_if {A} (b : bool) (m1 m2 : exec S A) :
  safe m1 → safe m2 → safe (if b then m1 else m2).
Proof. by destruct b. Qed.

(** [try]: the cleanup runs on the state the exception left. *)
Lemma safe_on_throw {A} (m : exec S A) cleanup :
  safe m → (∀ s, I s → I (cleanup s) ∧ R s (cleanup s)) → safe (on_throw m cleanup).
Proof.
  intros Hm Hc s HI. destruct (Hm s HI) as (HI' & HR & _). unfold wp, on_throw.
  destruct (m s) as [[a|e] s']; cbn in *; [done|]. destruct (Hc s' HI') as [? ?].
  split_and!; [done|by transitivity s'|done].
Qed.

End Rules.

Abbreviation wpn W := (wp (node_ok (W := W)) moved).
Abbreviation wpw W := (wp (λ s : P2pNodeProtocol W * W, node_ok s.1) (λ s s', moved s.1 s'.1)).
Abbreviation wps W := (wp (λ s : pass * (P2pNodeProtocol W * W), node_ok s.2.1)
  (λ s s', moved s.2.1 s'.2.1)).
Abbreviation safen W := (safe (node_ok (W := W)) moved).
Abbreviation safew W := (safe (λ s : P2pNodeProtocol W * W, node_ok s.1) (λ s s', moved s.1 s'.1)).
Abbreviation safes W := (safe (λ s : pass * (P2pNodeProtocol W * W), node_ok s.2.1)
  (λ s s', moved s.2.1 s'.2.1)).

Section Steps.
Context `{!ProgPow, !JsonC, !ZanoCrypto} {W : Type} {who : authority}.

Abbreviation node := (P2pNodeProtocol W).
Abbreviation state := (pass * (node * W))%type.
Abbreviation pair := (node * W)%type.
#[export] Instance world_preorder : PreOrder (λ s s' : pair, moved s.1 s'.1).
Proof. split; [intros s; exact (reflexivity s.1)|]. intros a b c Hab Hbc. exact (transitivity Hab Hbc). Qed.
#[export] Instance state_preorder : PreOrder (λ s s' : state, moved s.2.1 s'.2.1).
Proof. split; [intros s; exact (reflexivity s.2.1)|]. intros a b c Hab Hbc. exact (transitivity Hab Hbc). Qed.

(** *** Elementary steps *)

Lemma wpn_modify f (Q : () → node → Prop) n : calm n (f n) → Q () (f n) → wpn W (exec_modify f) Q n.
Proof.
  intros [? ?]%calm_moved HQ. by apply (wp_modify _ _).
Qed.

Lemma wps_node_op {A} (m : exec node A) (Q : A → state → Prop) s :
  wpn W m (λ a n', Q a (s.1, (n', s.2.2))) s.2.1 → wps W (node_op m) Q s.
Proof.
  intros Hm. unfold node_op.
  apply (wp_on_world (λ t : pair, node_ok t.1) (λ t t', moved t.1 t'.1)).
  by apply (wp_on_state (node_ok (W := W)) moved).
Qed.
Lemma wpw_node_op {A} (m : exec node A) (Q : A → pair → Prop) s :
  wpn W m (λ a n', Q a (n', s.2)) s.1 → wpw W (on_state m) Q s.
Proof. intros Hm. by apply (wp_on_state (node_ok (W := W)) moved). Qed.
Lemma wps_pair {A} (m : exec pair A) (Q : A → state → Prop) s :
  wpw W m (λ a t, Q a (s.1, t)) s.2 → wps W (on_world m) Q s.
Proof. intros Hm. by apply (wp_on_world (λ t : pair, node_ok t.1) (λ t t', moved t.1 t'.1)). Qed.

Lemma wps_locals f (Q : () → state → Prop) s :
  node_ok s.2.1 → (∀ l, Q () (l, s.2)) → wps W (locals f) Q s.
Proof.
  intros HI HQ. unfold locals.
  apply (wp_other_state (λ t : pair, node_ok t.1) (λ t t', moved t.1 t'.1)); [done|]. intros [] l _.
  apply HQ.
Qed.
Lemma wps_pass (Q : pass → state → Prop) s :
  node_ok s.2.1 → Q s.1 s → wps W (on_state exec_get) Q s.
Proof.
  intros HI HQ.
  apply (wp_other_state (λ t : pair, node_ok t.1) (λ t t', moved t.1 t'.1)); [done|].
  intros l x [= <- <-]. by destruct s.
Qed.
Lemma wps_get (Q : node → state → Prop) s : node_ok s.2.1 → Q s.2.1 s → wps W get_node Q s.
Proof.
  intros HI HQ. apply wps_node_op, wp_get; [by apply moved_preorder|done|]. by destruct s as [l [n w]].
Qed.
Lemma wps_modify f (Q : () → state → Prop) s :
  calm s.2.1 (f s.2.1) → Q () (s.1, (f s.2.1, s.2.2)) → wps W (modify_node f) Q s.
Proof. intros Hf HQ. by apply wps_node_op, wpn_modify. Qed.
Lemma wpw_daemon {A} (m : exec W A) (Q : A → pair → Prop) s :
  node_ok s.1 → (∀ a w, m s.2 = (Ok a, w) → Q a (s.1, w)) → wpw W (on_world m) Q s.
Proof. intros HI HQ. by apply (wp_other_world (node_ok (W := W)) moved). Qed.
Lemma wps_daemon {A} (m : exec W A) (Q : A → state → Prop) s :
  node_ok s.2.1 → (∀ a w, m s.2.2 = (Ok a, w) → Q a (s.1, (s.2.1, w))) → wps W (daemon_op m) Q s.
Proof.
  intros HI HQ. unfold daemon_op. apply wps_pair. apply wpw_daemon; [done|]. intros a w Hm. by apply HQ.
Qed.
Lemma wps_res {A} (m : res A) (Q : A → state → Prop) s :
  node_ok s.2.1 → (∀ a, m = Ok a → Q a s) → wps W (of_res m) Q s.
Proof. intros HI HQ. apply wp_const; [apply state_preorder|done|done]. Qed.

Lemma safe_locals f : safes W (locals f).
Proof. intros s HI. by apply wps_locals. Qed.
Lemma safe_modify f : (∀ n, node_ok n → calm n (f n)) → safes W (modify_node f).
Proof. intros Hf s HI. apply wps_modify; [by apply Hf|done]. Qed.
Lemma safe_node_op {A} (m : exec node A) : safen W m → safes W (node_op m).
Proof. intros Hm s HI. by apply wps_node_op, Hm. Qed.
Lemma safe_of_res {A} (m : res A) : safes W (of_res m).
Proof. intros s HI. by apply wps_res. Qed.

End Steps.

(** ** Operations on the node alone *)

Ltac w_ret := by apply (wp_ret _ _).
Ltac w_bind := apply (wp_bind _ _).
Ltac w_const := apply (wp_const _ _); [done|].
Ltac w_get := apply (wp_get _ _); [done|].

Section NodeLevel.
Context `{!ProgPow, !JsonC, !ZanoCrypto} {W : Type} {who : authority}.
Implicit Types n : P2pNodeProtocol W.

Lemma calm_erase_retryable id n : node_ok n → calm n (erase_retryable id n).
Proof. intros Hn. apply calm_retryable; [done|]. intros k x Hk%delete_some. by eapply no_retryable. Qed.
Lemma calm_erase_evidence key n : node_ok n → calm n (erase_evidence key n).
Proof.
  intros Hn. apply calm_evidence; [done| |].
  - etransitivity; [apply delete_size|by apply no_evidence_size].
  - intros k x Hk%delete_some. by eapply no_evidence.
Qed.
Lemma calm_erase_pending key n : node_ok n → calm n (erase_pending key n).
Proof.
  intros Hn. apply calm_pending; [done| |].
  - etransitivity; [apply delete_size|by apply no_pending_size].
  - intros k x Hk%delete_some. by eapply no_pending.
Qed.
Lemma calm_mark now key n : node_ok n → calm n (mark_attempt now key n).
Proof. intros Hn. by apply calm_attempts. Qed.
Lemma calm_unmark key n : node_ok n → calm n (unmark_attempt key n).
Proof. intros Hn. by apply calm_attempts. Qed.

Lemma join_walk_ok id peer_id roots root now d :
  deferred_ok id d → deferred_ok id (join_walk peer_id roots root now d).
Proof. unfold join_walk. by destruct (_ && _). Qed.

Lemma safe_remember_deferred share peer ev cap now :
  share_wf share → evidence_ok ev →
  safen W (remember_deferred_historical share peer ev cap now).
Proof.
  intros Hwf Hev n Hn. unfold remember_deferred_historical. w_bind.
  apply wpn_modify; [by apply calm_expire|]. generalize (expire_historical_state now n). clear n Hn.
  intros n Hn. destruct (_ =? 0); [w_ret|]. w_bind. w_const. intros id Hid _. w_bind. w_get. intros _.
  destruct (np_sources n) as [src|] eqn:Es; [|w_ret]. cbv zeta.
  destruct (bool_decide _ && _) eqn:E; [w_ret|]. w_bind.
  apply wpn_modify; [|by intros ?; w_ret].
  apply calm_deferred; [done| |].
  - rewrite Es. cbn. rewrite map_size_insert, lookup_fmap, map_size_fmap.
    pose proof (no_deferred_size _ Hn) as Hb. rewrite Es in Hb. cbn in Hb.
    apply andb_false_iff in E. destruct (np_deferred_historical n !! id); [done|].
    destruct E as [E|E]; [by rewrite bool_decide_true in E|]. apply Z.leb_gt in E. cbn. lia.
  - intros i d [[<- <-]|[_ Hd]]%lookup_insert_Some; [done|].
    rewrite lookup_fmap in Hd. apply fmap_Some in Hd as (d0 & Hd & ->).
    by apply join_walk_ok, (no_deferred _ Hn).
Qed.

Lemma safe_remember_retryable share peer cap now :
  share_wf share → safen W (remember_retryable_historical share peer cap now).
Proof.
  intros Hwf n Hn. unfold remember_retryable_historical. w_bind.
  apply wpn_modify; [by apply calm_expire|]. generalize (expire_historical_state now n). clear n Hn.
  intros n Hn. destruct (_ && _); [by apply (wp_throw _ _)|]. w_bind. w_const. intros id _ _.
  apply wpn_modify; [|done]. cbv zeta.
  destruct (_ !! id); (apply calm_retryable; [done|]); intros k x Hk.
  - apply lookup_insert_Some in Hk as [[_ <-]|[_ Hk]]; [done|by eapply no_retryable].
  - apply evict_some in Hk as [->|Hk]; [done|by eapply no_retryable].
Qed.

Lemma safe_retrieval_op {A} (m : exec P2pWorkRetrieval A) :
  (∀ st, retrieval_ok st → retrieval_ok (m st).2) → safen W (retrieval_op m).
Proof.
  intros Hm n Hn. unfold wp, retrieval_op. destruct (np_work_retrieval n) as [h|] eqn:E; [|done].
  pose proof (Hm _ (no_retrieval _ Hn h E)) as Hst. destruct (m (rh_state h)) as [r st]. cbn in *.
  destruct (calm_moved _ _ (calm_retrieval (mkRetrievalHandle (rh_sidechain_id h) (rh_archive h) st)
    n Hn Hst)). split_and!; [done|done|by destruct r].
Qed.

(** A change of the chain by one move, or of the registry. *)
Lemma step_view n n' :
  node_ok n → same_config n n' → (rtc (node_move n) (view n) (view n')) →
  np_work_retrieval n' = np_work_retrieval n → np_pending_historical n' = np_pending_historical n →
  np_historical_evidence n' = np_historical_evidence n →
  np_deferred_historical n' = np_deferred_historical n →
  np_retryable_historical n' = np_retryable_historical n →
  expectation_ok (np_expected_payout n') (np_expected_payout_plan n') (np_expected_payout_parent_id n') →
  node_ok n' ∧ moved n n'.
Proof.
  intros Hn Hs Hm E1 E2 E3 E4 E5 He. split; [|done].
  destruct (moves_ok _ _ _ Hm (no_registry _ Hn) (no_chain _ Hn)) as [Hr Hc].
  destruct Hn. split; rewrite ?E1, ?E2, ?E3, ?E4, ?E5, ?(sc_sources _ _ Hs); done.
Qed.

Lemma chain_step n c' : node_ok n → rtc (node_move n) (view n) (np_trusted_work n, c') →
  node_ok (set_chain c' n) ∧ moved n (set_chain c' n).
Proof.
  intros Hn Hm. pose proof (no_expectation _ Hn).
  destruct n as [rt c tw an cx po pl pp src pd ev df ar ry fa]. apply step_view; try done.
  split; cbn; tauto.
Qed.
Lemma registry_step n tw' : node_ok n → rtc (node_move n) (view n) (tw', np_chain n) →
  node_ok (set_trusted_work tw' n) ∧ moved n (set_trusted_work tw' n).
Proof.
  intros Hn Hm. pose proof (no_expectation _ Hn).
  destruct n as [rt c tw an cx po pl pp src pd ev df ar ry fa]. apply step_view; try done.
  split; cbn; tauto.
Qed.

Lemma wpn_on_chain {A} (m : exec ShareChain A) (Q : A → P2pNodeProtocol W → Prop) n :
  node_ok n → rtc (node_move n) (view n) (np_trusted_work n, (m (np_chain n)).2) →
  (∀ a c', m (np_chain n) = (Ok a, c') → Q a (set_chain c' n)) → wpn W (on_chain m) Q n.
Proof.
  intros Hn Hm HQ. unfold wp, on_chain, zoom.
  destruct (m (np_chain n)) as [[a|e] c'] eqn:E; cbn in *;
    destruct (chain_step n c' Hn Hm); split_and!; try done. by apply HQ.
Qed.
Lemma wpn_on_registry {A} (m : exec P2pTrustedWorkRegistry A) (Q : A → P2pNodeProtocol W → Prop) n :
  node_ok n → rtc (node_move n) (view n) ((m (np_trusted_work n)).2, np_chain n) →
  (∀ a tw', m (np_trusted_work n) = (Ok a, tw') → Q a (set_trusted_work tw' n)) →
  wpn W (on_trusted_work m) Q n.
Proof.
  intros Hn Hm HQ. unfold wp, on_trusted_work, zoom.
  destruct (m (np_trusted_work n)) as [[a|e] tw'] eqn:E; cbn in *;
    destruct (registry_step n tw' Hn Hm); split_and!; try done. by apply HQ.
Qed.

(** Reception of a share. *)
Lemma receive_moves n peer share required now mode :
  who = FromPeers now mode → node_ok n → clock_ok now → share_wf share →
  rtc (node_move n) (view n) (np_trusted_work n,
    (receive_share (np_trusted_work n) peer share required now mode (np_chain n)).2).
Proof.
  intros Hw Hn Hnow Hwf.
  destruct (receive_share _ _ _ _ _ _ _) as [r c'] eqn:E. cbn.
  destruct (receive_outcome _ _ _ _ _ _ _ _ _ (no_chain _ Hn) Hwf Hnow E) as [[-> _]|Ho]; [done|].
  destruct Ho as (ctx & v & a & Ha & Ho & _). apply rtc_once. by eapply mv_admit.
Qed.

Lemma revalidate_moves n candidate id ctx now mode :
  who = FromPeers now mode → node_ok n → clock_ok now → share_id candidate = Ok id →
  find_work (np_trusted_work n) (zano_height candidate) (mining_header_hash candidate)
    (parent_id candidate) = Some ctx →
  rtc (node_move n) (view n) (np_trusted_work n,
    (revalidate_connected_share id ctx now mode (np_chain n)).2).
Proof.
  intros Hw Hn Hnow Hid Hf.
  destruct (revalidate_outcome (np_chain n) id ctx now mode _ (proj1 (no_chain _ Hn))
    (clock_u64 _ Hnow) eq_refl) as [[-> _]|Ho]; [done|].
  destruct Ho as (e & v & He & Hv & Hm & Hp & Hd & ->). apply rtc_once. by eapply mv_revalidate.
Qed.

End NodeLevel.

Ltac w_locals := apply wps_locals; [done|intros ?].
Ltac w_res := apply wps_res; [done|].
Ltac w_node := apply wps_get; [done|]; intros _.

(** ** One historical candidate *)

(** The daemon contradicts the Zano parent of a template of the candidate. *)
Definition contradicted `{!JsonC} {W : Type} (sources : HistoricalSources W) (candidate : Share)
    (p : P2pMiningContextProposal) : Prop :=
  template_of candidate p ∧ ∃ hash, hash ≠ pp_prev_hash p ∧
    canonical_at (src_parent_lookup sources) (pp_zano_height p - 1) hash.

Section Candidate.
Context `{!ProgPow, !JsonC, !ZanoCrypto} {W : Type} {who : authority}.
Context (now : Z) (mode : ProgPowZContextMode) (Hwho : who = FromPeers now mode).

Lemma peers_call : from_peers who.
Proof using Hwho. by exists now, mode. Qed.

Lemma historical_mismatch (sources : HistoricalSources W) chain candidate peer p observations s r s' :
  promote_historical_mining_context (src_parent_lookup sources) (Some (src_pow_lookup sources)) chain
    (src_params sources) candidate peer p observations s = (Ok r, s') →
  ht_status r = AnchorRejected → ha_status (ht_initial_anchor r) = AnchorParentMismatch →
  contradicted sources candidate p.
Proof.
  unfold promote_historical_mining_context. cbv zeta. intros Hr Hst Ha.
  destruct (share_id candidate) as [id|[k what]]; [|destruct k; try done; by injection Hr as <- <-].
  apply exec_bind_ok in Hr as (header & s1 & Hv & Hr). unfold exec_const in Hv. injection Hv as Hv <-.
  destruct (negb _ || _ || _) eqn:Ec; [by injection Hr as <- <-|]. bool_prop.
  destruct (_ && _); [by injection Hr as <- <-|].
  apply exec_bind_ok in Hr as (initial & s2 & Hi & Hr). unfold on_world in Hi.
  destruct (audit_historical_local_anchor _ _ p observations s.2) as [r1 w1] eqn:Ea.
  injection Hi as -> <-. destruct (negb (bool_decide _)).
  { injection Hr as <- <-. cbn in Ha. split; [by split_and!; congruence|]. eapply audit_mismatch; [exact Ea|exact Ha]. }
  exfalso. revert Hr. destruct (negb _); [by intros [= <- <-]|].
  intros (y & s3 & _ & Hr)%exec_bind_ok. revert Hr. destruct (_ && _); [by intros [= <- <-]|].
  intros (f & s4 & _ & Hr)%exec_bind_ok. revert Hr. destruct (_ || _); [by intros [= <- <-]|].
  intros (e & s5 & _ & Hr)%exec_bind_ok. apply exec_bind_ok in Hr as (t & s6 & _ & Hr).
  injection Hr as <- <-. cbn in Hst. by destruct (bool_decide _).
Qed.

(** The registry and the daemon together. *)
Lemma wps_registry {A} (m : exec (P2pTrustedWorkRegistry * W) A)
    (Q : A → pass * (P2pNodeProtocol W * W) → Prop) s :
  node_ok s.2.1 →
  rtc (node_move s.2.1) (view s.2.1) ((m (np_trusted_work s.2.1, s.2.2)).2.1, np_chain s.2.1) →
  (∀ a tw w, m (np_trusted_work s.2.1, s.2.2) = (Ok a, (tw, w)) →
     Q a (s.1, (set_trusted_work tw s.2.1, w))) →
  wps W (registry_op m) Q s.
Proof using Type.
  intros Hn Hm HQ. unfold wp, registry_op, on_world. destruct s as [l [n w]]. cbn in *.
  destruct (m (np_trusted_work n, w)) as [[a|e] [tw w']] eqn:E; cbn in *;
    destruct (registry_step n tw Hn Hm); split_and!; try done. by apply HQ.
Qed.

Lemma promote_moves (n : P2pNodeProtocol W) sources candidate peer p observations w :
  node_ok n → np_sources n = Some sources → proposal_wf p → loaded sources p observations →
  rtc (node_move n) (view n)
    ((promote_historical_mining_context (src_parent_lookup sources) (Some (src_pow_lookup sources))
        (np_chain n) (src_params sources) candidate peer p observations
        (np_trusted_work n, w)).2.1, np_chain n).
Proof.
  intros Hn Hs Hp Hl.
  pose proof (historical_outcome (src_parent_lookup sources) (Some (src_pow_lookup sources))
    (np_chain n) (src_params sources) candidate peer p observations (np_trusted_work n) w
    (no_registry _ Hn) (no_sources _ Hn _ Hs) Hp) as Ho.
  unfold historical_post in Ho. destruct (promote_historical_mining_context _ _ _ _ _ _ _ _ _)
    as [[r|e] [tw w']]; cbn in *; [|by rewrite Ho].
  destruct (bool_decide _); [|by rewrite Ho]. destruct Ho as (Hcap & He & x & Hev).
  apply rtc_once. eapply mv_historical; eauto using peers_call.
Qed.

Lemma safe_seq_locals (m : res P2pEnvelope) (f : P2pEnvelope → pass → pass) :
  safes W (e <- of_res m ;; locals (f e)).
Proof using Type. apply (safe_bind _ _); [apply safe_of_res|]. intros e. apply safe_locals. Qed.

Lemma prune_stale_safe id candidate sources p s :
  node_ok s.2.1 → np_sources s.2.1 = Some sources → share_id candidate = Ok id →
  contradicted sources candidate p → wps W (prune_stale_replay id) (λ _ _, True) s.
Proof.
  intros Hn Hs Hid (Ht & hash & Hne & Hcan). unfold prune_stale_replay. w_bind. w_node.
  destruct (find (np_chain s.2.1) id) as [e|] eqn:Ef; [|w_ret].
  destruct (validated_ancestry e) eqn:Ev; [w_ret|]. w_bind. apply wps_node_op, wpn_on_chain; [done| |].
  - destruct (prune_exact (np_chain s.2.1) id (proj1 (no_chain _ Hn))) as (removed & c' & E & _).
    rewrite E. apply rtc_once. eapply mv_stale; eauto using peers_call.
  - intros removed c' _ Hn'. w_bind. w_locals. intros Hn2.
    destruct removed; [w_ret|]. w_bind. apply wps_modify; [by apply calm_reset|]. intros Hn3.
    w_bind. w_node. cbv zeta. destruct (is_zero_share_id _); [w_ret|]. by apply safe_seq_locals.
Qed.

Lemma reject_historical_safe candidate id peer ev cap defer trust sources s :
  node_ok s.2.1 → np_sources s.2.1 = Some sources → share_id candidate = Ok id →
  share_wf candidate → evidence_ok ev →
  (stable_parent_mismatch trust = true → ∃ p, contradicted sources candidate p) →
  wps W (reject_historical now candidate id peer ev cap defer trust) (λ _ _, True) s.
Proof.
  intros Hn Hs Hid Hwf Hev Hc. unfold reject_historical. cbv zeta. w_bind.
  apply (wp_mono _ _ _ (λ _ _, True)).
  2:{ destruct (stable_parent_mismatch trust); [|w_ret]. destruct (Hc eq_refl) as [p Hp].
      by eapply prune_stale_safe. }
  intros _ s' Hn' _ _. w_bind.
  apply (wp_safe _ _); [apply (safe_if _ _); [|apply (safe_ret _ _)]|done|].
  { apply safe_modify. intros. by apply calm_erase_retryable. }
  intros _ s2 Hn2 _. w_bind.
  apply (wp_safe _ _); [apply (safe_if _ _); [|apply (safe_ret _ _)]|done|].
  { by apply safe_node_op, safe_remember_deferred. }
  intros deferred s3 Hn3 _. destruct deferred; [|destruct (pow_unavailable trust)].
  - w_bind. apply wps_modify; [by apply calm_remember_evidence|]. intros Hn4. by apply safe_seq_locals.
  - w_bind. apply wps_modify; [by apply calm_remember_evidence|]. intros Hn4.
    by apply safe_node_op; [apply safe_remember_retryable|].
  - w_bind. apply wps_modify; [by apply calm_erase_retryable|]. intros Hn4.
    by apply safe_modify; [intros; apply calm_erase_evidence|].
Qed.

Hypothesis Hclock : clock_ok now.

Lemma revalidate_replayed_safe candidate id :
  share_id candidate = Ok id → safes W (revalidate_replayed now mode candidate id).
Proof.
  intros Hid s Hn. unfold revalidate_replayed. w_bind. w_node.
  destruct (find_work _ _ _ _) as [trusted|] eqn:Ef; [|by apply (wp_throw _ _)]. w_bind.
  apply wps_node_op, wpn_on_chain; [done|by eapply revalidate_moves|]. intros r c' _ Hn'. cbv zeta.
  w_bind. w_locals. intros Hn2. destruct (reval_status r); try w_ret; try by apply (wp_throw _ _).
  w_bind. w_locals. intros Hn3. w_ret.
Qed.

Lemma safe_request_followup (missing : option ShareId) (f : option P2pEnvelope → pass → pass) :
  safes W (match missing with
           | Some missing =>
               request <- of_res (make_p2p_share_request_envelope missing) ;;
               locals (f (Some request))
           | None => exec_ret ()
           end).
Proof using Type.
  destruct missing; [|apply (safe_ret _ _)]. apply (safe_seq_locals _ (λ e, f (Some e))).
Qed.

Lemma safe_reset_if b : safes W (if b : bool then modify_node reset_expectation else exec_ret ()).
Proof using Type.
  apply (safe_if _ _); [|apply (safe_ret _ _)]. apply safe_modify. intros n Hn. by apply calm_reset.
Qed.

Lemma admit_historical_safe candidate peer cap :
  share_wf candidate → safes W (admit_historical now mode candidate peer cap).
Proof.
  intros Hwf s Hn. unfold admit_historical. w_bind. w_node. w_bind.
  apply wps_node_op, wpn_on_chain; [done|by apply receive_moves|]. intros r c' _ Hn'. cbv zeta.
  generalize dependent (s.1, (set_chain c' s.2.1, s.2.2)). clear s Hn c'. intros s Hn.
  revert s Hn. repeat first [apply (safe_bind _ _); [|intros ?] | apply safe_reset_if
    | apply (safe_if _ _) | apply safe_locals | apply safe_request_followup | apply (safe_ret _ _)
    | apply safe_of_res | apply safe_node_op, (safe_get _ _)].
Qed.

Lemma sources_set_trusted_work tw (n : P2pNodeProtocol W) :
  np_sources (set_trusted_work tw n) = np_sources n.
Proof. by destruct n. Qed.

Lemma attempt_historical_safe candidate peer ev cap defer :
  share_wf candidate → evidence_ok ev →
  safes W (attempt_historical now mode candidate peer ev cap defer).
Proof.
  intros Hwf Hev s Hn. unfold attempt_historical. w_bind. w_node.
  destruct (np_sources s.2.1) as [sources|] eqn:Es; [|w_ret].
  w_bind. w_res. intros id Hid _. w_bind. w_locals. intros _. w_bind.
  apply wps_daemon; [done|]. intros observations w Hobs _. w_bind. w_node. w_bind.
  assert (loaded sources (he_proposal ev) observations) as Hl by (by eexists _, _).
  apply wps_registry; [done|by eapply promote_moves|]. intros trust tw w' Hp Hn'. w_bind.
  cbn [fst snd] in Hp, Hn'.
  w_locals. intros _. cbn [fst snd]. destruct (negb (bool_decide _)).
  { w_bind. apply (wp_mono _ _ _ (λ _ _, True)); [intros _ s' Hs' _ _; w_ret|].
    eapply (reject_historical_safe _ _ _ _ _ _ _ sources); try done.
    - exact (eq_trans (sources_set_trusted_work _ _) Es).
    - unfold stable_parent_mismatch. intros Hm. bool_prop. exists (he_proposal ev).
      by eapply historical_mismatch. }
  w_bind. apply wps_modify; [by apply calm_erase_retryable|]. intros Hn2. w_bind.
  apply wps_modify; [by apply calm_remember_evidence|]. intros Hn3. w_bind. w_locals. intros _.
  w_bind. w_node. destruct (find _ id) as [e|]; [destruct (validated_ancestry e)|].
  - by apply admit_historical_safe.
  - by apply revalidate_replayed_safe.
  - by apply admit_historical_safe.
Qed.

End Candidate.
