(* ===== verification/NodeHandle.v ===== *)
(** Message handling, retries, replay recovery and reconciliation of the node
    protocol are steps of the abstract machine: [node_refines] and its
    consequences. *)
From S2P Require Import Prelude CryptoHash PowTarget Share SidechainParams Difficulty ShareChain.
From S2P Require Import ChainWork ChainInv ChainPromote ChainAdmit ChainReplay ChainPrune.
From S2P Require Import ChainHistory P2pProtocol P2pShare P2pSync PplnsCoinbase PayoutPolicy.
From S2P Require Import MiningHeader BlockTemplate MiningContext WorkArchive WorkRetrieval ZanoCurve.
From S2P Require Import MinerTxProofs ContextTrust HistoricalTrust Restart NodeState NodeLogic NodeInv.
From S2P Require Import P2pNode NodeSpec.
Local Open Scope pool_scope.
#[local] Set Default Proof Using "Type*".

(** Computations whose safety does not depend on the state. *)
Ltac safe_step :=
  lazymatch goal with
  | |- safe _ _ (exec_bind _ _) => apply (safe_bind _ _); [|intros ?]
  | |- safe _ _ (exec_ret _) => apply (safe_ret _ _)
  | |- safe _ _ (exec_throw _ _) => apply (safe_throw _ _)
  | |- safe _ _ (locals _) => apply safe_locals
  | |- safe _ _ (of_res _) => apply safe_of_res
  | |- safe _ _ get_node => apply safe_node_op, (safe_get _ _)
  | |- safe _ _ (modify_node reset_expectation) => apply safe_modify; intros; by apply calm_reset
  | |- safe _ _ (match ?x with _ => _ end) => destruct x
  end.
Ltac safe_auto := repeat (cbv zeta; safe_step).

Lemma response_wf e r share :
  parse_p2p_share_response_envelope e = Ok r → sr_share r = Some share → share_wf share.
Proof.
  unfold parse_p2p_share_response_envelope. cbv zeta. intros Hp Hs.
  do 3 (apply res_bind_ok in Hp as (? & _ & Hp)).
  destruct (_ =? _); apply res_bind_ok in Hp as (? & _ & Hp); [by injection Hp as <-|].
  apply res_bind_ok in Hp as (? & _ & Hp). apply res_bind_ok in Hp as (s & Hd & Hp).
  do 2 (apply res_bind_ok in Hp as (? & _ & Hp)). injection Hp as <-. injection Hs as <-.
  by eapply deserialize_share_inv.
Qed.

Lemma connected_wf c id e : good c → find c id = Some e → share_wf (cs_share e).
Proof. intros [Hi _] He. by eapply eo_wf, pi_entry. Qed.

Section World.
Context `{!ProgPow, !JsonC, !ZanoCrypto} {W : Type} {who : authority}.

Lemma safew_modify f : (∀ n, node_ok n → calm n (f n)) → safew W (on_state (exec_modify f)).
Proof. intros Hf s Hn. apply wpw_node_op, wpn_modify; [by apply Hf|done]. Qed.
Lemma safew_res {A} (m : res A) : safew W (of_res m).
Proof. apply (safe_const _ _). Qed.

Lemma safew_expire now : safew W (on_state (exec_modify (expire_historical_state now))).
Proof. apply safew_modify. intros n Hn. by apply calm_expire. Qed.
Lemma safew_get : safew W (on_state exec_get).
Proof. intros s Hn. by apply wpw_node_op, (wp_get _ _). Qed.

End World.

Section Messages.
Context `{!ProgPow, !JsonC, !ZanoCrypto} {W : Type} {who : authority}.
Context (now : Z) (mode : ProgPowZContextMode) (Hwho : who = FromPeers now mode).
Context (Hclock : clock_ok now).

(** ** Deferred descendants *)

Lemma resume_ready_safe ready : safes W (resume_ready now mode ready).
Proof.
  induction ready as [|id ready IH]; cbn [resume_ready]; [apply (safe_ret _ _)|].
  intros s Hn. w_bind. w_node. destruct (np_deferred_historical s.2.1 !! id) as [d|] eqn:Ed; [|by apply IH].
  destruct (no_deferred _ Hn _ _ Ed) as (Hid & Hwf & Hev). w_bind.
  apply wps_modify; [by apply calm_delete_deferred|]. intros Hn'. w_bind.
  apply (wp_safe _ _); [by apply attempt_historical_safe|done|]. intros connected s' Hs' _.
  apply (safe_bind _ _); [done| |done]. intros more. apply (safe_ret _ _).
Qed.

Lemma resume_loop_safe fuel : ∀ queue, safes W (resume_loop now mode fuel queue).
Proof.
  induction fuel as [|fuel IH]; intros [|parent rest]; cbn [resume_loop];
    [apply (safe_ret _ _)|apply (safe_throw _ _)|apply (safe_ret _ _)|].
  apply (safe_bind _ _); [apply safe_node_op, (safe_get _ _)|]. intros n.
  apply (safe_bind _ _); [apply resume_ready_safe|done].
Qed.

Lemma resume_safe id : safes W (resume_deferred_descendants now mode id).
Proof.
  apply (safe_bind _ _); [apply safe_node_op, (safe_get _ _)|]. intros n. apply resume_loop_safe.
Qed.
Lemma resume_if_safe connected : safes W (resume_if now mode connected).
Proof. destruct connected; [apply resume_safe|apply (safe_ret _ _)]. Qed.

Lemma attempt_resume_safe share peer ev cap defer :
  share_wf share → evidence_ok ev →
  safes W (connected <- attempt_historical now mode share peer ev cap defer ;;
           resume_if now mode connected).
Proof. intros. apply (safe_bind _ _); [by apply attempt_historical_safe|]. apply resume_if_safe. Qed.

(** ** Local evidence and requests *)

Lemma attempt_local_safe share peer cap :
  share_wf share → safes W (attempt_local_historical now mode share peer cap).
Proof.
  intros Hwf s Hn. unfold attempt_local_historical. w_bind. w_node.
  destruct (negb _); [w_ret|]. w_bind. w_res. intros local _ _. destruct local as [bytes|]; [|w_ret].
  w_bind. w_res. intros p Hp _. apply deserialize_context_inv in Hp as [Hp _].
  w_bind. apply wps_pass; [done|]. intros _. w_bind.
  apply (wp_safe _ _); [by apply attempt_historical_safe|done|]. intros connected s' Hs' _.
  w_bind. apply (wp_safe _ _); [apply resume_if_safe|done|]. intros _ s2 Hs2 _.
  w_bind. apply wps_pass; [done|]. intros _. w_ret.
Qed.

Lemma begin_safe peer key : safen W (retrieval_op (begin peer key now)).
Proof. apply safe_retrieval_op. intros st. apply begin_ok. Qed.

Lemma request_work_safe peer share cap : share_wf share → safes W (request_work now peer share cap).
Proof.
  intros Hwf. unfold request_work. apply (safe_bind _ _); [apply safe_node_op, begin_safe|].
  intros [request|]; safe_auto. apply safe_modify. intros n Hn. by apply calm_remember_pending.
Qed.

(** ** The message types *)

Lemma relay_tip_safe : safes W relay_tip_now.
Proof. unfold relay_tip_now. safe_auto. Qed.

Lemma after_receive_safe r : safes W (after_receive r).
Proof. unfold after_receive. safe_auto. Qed.

Lemma share_announce_safe peer envelope : safes W (handle_share_announce now mode peer envelope).
Proof.
  intros s Hn. unfold handle_share_announce. w_bind. w_node. w_bind.
  apply wps_node_op, wpn_on_chain; [done| |].
  { unfold receive, exec_bind, exec_const.
    destruct (parse_p2p_share_announce_envelope envelope) as [share|] eqn:Ep; [|done].
    apply receive_moves; [done..|]. by eapply announce_wf. }
  intros r c' _ Hn'. generalize dependent (s.1, (set_chain c' s.2.1, s.2.2)).
  generalize (np_work_retrieval s.2.1). clear s Hn c'. intros rt.
  apply (safe_bind _ _); [apply safe_locals|intros _].
  apply (safe_bind _ _); [apply safe_locals|intros _].
  apply (safe_bind _ _); [apply (safe_if _ _); [|apply (safe_ret _ _)]|intros _].
  - intros s Hn. w_bind. w_res. intros share Hp%announce_wf _. w_bind.
    apply wps_modify; [by apply calm_expire|]. intros Hn'. w_bind. w_node. cbn [fst snd].
    destruct (np_historical_evidence _ !! _) as [ev|] eqn:Ee; [|by apply request_work_safe].
    destruct (historical_trust_sources_ready _); [|by apply request_work_safe].
    apply attempt_resume_safe; [done| |done]. by eapply no_evidence.
  - apply (safe_bind _ _); [apply after_receive_safe|intros _]. safe_auto.
    + apply relay_tip_safe.
    + apply resume_safe.
Qed.

Lemma share_request_safe peer envelope : safes W (handle_share_request peer envelope).
Proof. unfold handle_share_request. safe_auto.
Qed.

Lemma recover_response_safe peer share :
  share_wf share → safes W (recover_response_share now mode peer share).
Proof.
  intros Hwf s Hn. unfold recover_response_share. w_bind.
  apply wps_modify; [by apply calm_expire|]. intros Hn'. w_bind. w_node. cbn [fst snd].
  destruct (if historical_trust_sources_ready _ then _ else None) as [ev|] eqn:Ee.
  - apply attempt_resume_safe; [done| |done].
    destruct (historical_trust_sources_ready _); [|done]. by eapply no_evidence.
  - apply (safe_bind _ _); [by apply attempt_local_safe| |done]. intros handled.
    apply (safe_if _ _); [apply (safe_ret _ _)|by apply request_work_safe].
Qed.

Lemma share_response_safe peer envelope : safes W (handle_share_response now mode peer envelope).
Proof.
  intros s Hn. unfold handle_share_response. w_bind. w_node. w_bind.
  apply wps_node_op, wpn_on_chain; [done| |].
  { unfold receive_p2p_share_response, exec_bind, exec_const.
    destruct (parse_p2p_share_response_envelope envelope) as [r|] eqn:Ep; [|done].
    destruct (_ =? 0); [done|]. destruct (sr_share r) as [share|] eqn:Es; [|done].
    pose proof (receive_moves _ peer share kP2pCapabilityShareSync now mode Hwho Hn Hclock
      (response_wf _ _ _ Ep Es)) as Hm. by destruct (receive_share _ _ _ _ _ _ _) as [[]]. }
  intros r c' _ Hn'. generalize dependent (s.1, (set_chain c' s.2.1, s.2.2)).
  generalize (np_work_retrieval s.2.1). clear s Hn c'. intros rt.
  do 2 (apply (safe_bind _ _); [apply safe_locals|intros _]).
  destruct (sy_share_result r) as [received|]; [|apply (safe_ret _ _)].
  apply (safe_bind _ _); [apply safe_locals|intros _].
  apply (safe_bind _ _); [apply (safe_if _ _); [|apply (safe_ret _ _)]|intros _].
  - intros s Hn. w_bind. w_res. intros x Hp _. destruct (sr_share x) as [share|] eqn:Es; [|w_ret].
    apply recover_response_safe; [|done]. by eapply response_wf.
  - apply (safe_bind _ _); [apply after_receive_safe|intros _].
    safe_auto; [apply relay_tip_safe|apply resume_safe].
Qed.

Lemma frontier_calm peer_id (n : P2pNodeProtocol W) :
  node_ok n → calm n (deferred_frontier peer_id n).2.
Proof.
  intros Hn. assert (calm n n) by done. unfold deferred_frontier. cbv zeta.
  destruct (match _ !! _ with Some _ => _ | None => _ end); [done|].
  destruct (select_oldest_frontier _ _); by apply calm_active.
Qed.

Lemma tip_announce_safe peer envelope : safes W (handle_tip_announce now peer envelope).
Proof.
  intros s Hn. unfold handle_tip_announce. w_bind. w_res. intros hint _ _. w_bind. w_node. cbv zeta.
  w_bind. w_locals. intros _. w_bind. w_locals. intros _. w_bind.
  apply wps_modify; [by apply calm_expire|]. intros Hn'. w_bind. w_node. w_bind. cbn [fst snd] in *.
  apply (wp_mono _ _ _ (λ _ _, True)).
  - intros d s' Hs' _ _. destruct d as [d|]; [by apply safe_seq_locals|].
    destruct (td_requested_id _); [by apply safe_seq_locals|].
    destruct (_ && _ && _); [by apply safe_seq_locals|w_ret].
  - destruct (_ && _); [|w_ret]. pose proof (frontier_calm (hs_node_id peer) _ Hn') as Hc.
    destruct (deferred_frontier _ _) as [d n'] eqn:Ed. cbn [snd] in Hc. w_bind.
    apply wps_modify; [done|]. intros Hn2. w_ret.
Qed.

Lemma mining_context_safe peer envelope : safes W (handle_mining_context peer envelope).
Proof.
  intros s Hn. unfold handle_mining_context. w_bind. w_node. cbv zeta.
  destruct (np_local_mining_anchor s.2.1) as [anchor|] eqn:Ea; [|by apply safe_locals].
  destruct (np_expected_payout_parent_id s.2.1) as [parent|] eqn:Ep; [|by apply safe_locals].
  pose proof (no_expectation _ Hn) as Hx. unfold expectation_ok in Hx. rewrite Ep in Hx.
  assert (∀ (m : exec P2pTrustedWorkRegistry P2pMiningContextTrustResult) verified,
    promotion_post peer envelope anchor parent (np_trusted_work s.2.1) verified
      (m (np_trusted_work s.2.1)) →
    (∀ p w, verified p w → pays_expected (np_expected_payout_plan s.2.1) (np_expected_payout s.2.1) p w) →
    wps W (trust <- node_op (on_trusted_work m) ;;
      do locals (on_result (set_status MiningContextProcessed)) ;;
      locals (on_result (set_context_status (tr_status trust) (tr_registry_inserted trust))))
      (λ _ _, True) s) as Hpromote.
  { intros m verified Hpost Hpays. w_bind. apply wps_node_op, wpn_on_registry; [done| |].
    - destruct (m (np_trusted_work s.2.1)) as [[r|e] tw']; cbn in *; [|by destruct Hpost as [-> _]].
      destruct (bool_decide _); [|by rewrite Hpost]. destruct Hpost as (Hcap & p & w & Hcr & Hv & Hpr).
      apply rtc_once. eapply mv_context; eauto. by eapply peers_call.
    - intros r tw' _ Hn'. w_bind. w_locals. intros _. by apply safe_locals. }
  destruct (np_expected_payout_plan s.2.1) as [plan|] eqn:Eplan.
  - destruct (np_expected_payout s.2.1); [done|].
    eapply Hpromote; [by apply promote_plan_outcome, Hx; apply no_registry|done].
  - destruct (np_expected_payout s.2.1) as [payout|] eqn:Epay; [|by apply safe_locals].
    eapply Hpromote; [by apply promote_outcome, no_registry|]. done.
Qed.

Lemma work_request_safe peer envelope : safes W (handle_work_request peer envelope).
Proof. unfold handle_work_request. safe_auto. Qed.

Lemma work_response_safe peer envelope : safes W (handle_work_response now mode peer envelope).
Proof.
  intros s Hn. unfold handle_work_response. w_bind. w_node.
  destruct (np_work_retrieval s.2.1); [|by apply (wp_throw _ _)]. w_bind. w_res. intros response _ _.
  cbv zeta. apply (safe_bind _ _); [|clear s Hn; intros received|done].
  { apply safe_node_op, (safe_on_throw _ _).
    - apply safe_retrieval_op. intros st. apply receive_work_ok.
    - intros n Hn'. by apply calm_moved, calm_erase_pending. }
  do 3 (apply (safe_bind _ _); [apply safe_locals|intros _]). apply (safe_if _ _).
  { apply safe_modify. intros n Hn. by apply calm_erase_pending. }
  destruct (wv_received_id received); [|apply (safe_ret _ _)]. intros s Hn. w_bind.
  apply wps_modify; [by apply calm_expire|]. intros Hn'. w_bind. w_node. cbn [fst snd] in *.
  destruct (if historical_trust_sources_ready _ then _ else None) as [x|] eqn:Ex; [|w_ret].
  assert (share_wf (ph_share x)) as Hwf.
  { destruct (historical_trust_sources_ready _); [|done]. by eapply no_pending. }
  w_bind. apply (wp_safe _ _); [|done|].
  { apply safe_node_op, safe_retrieval_op. intros st. apply take_untrusted_ok. }
  intros bytes s' Hs' _. destruct bytes as [bytes|]; [|by apply (wp_throw _ _)].
  w_bind. w_res. intros p Hp%deserialize_context_inv _. destruct Hp as [Hp _]. w_bind.
  apply wps_modify; [by apply calm_erase_pending|]. intros Hn2. by apply attempt_resume_safe.
Qed.

Lemma handle_message_safe peer envelope : safes W (handle_message now mode peer envelope).
Proof.
  unfold handle_message. destruct (env_type envelope).
  - apply safe_locals.
  - apply share_announce_safe.
  - apply share_request_safe.
  - apply share_response_safe.
  - apply tip_announce_safe.
  - apply mining_context_safe.
  - apply work_request_safe.
  - apply work_response_safe.
  - apply (safe_ret _ _).
Qed.

(** ** Replay frontiers *)

Lemma eligible_wf (n : P2pNodeProtocol W) peer_id id share :
  node_ok n → eligible_frontier n peer_id id = Some share → share_wf share.
Proof.
  unfold eligible_frontier. intros Hn. destruct (find _ id) as [e|] eqn:Ef; [|done].
  destruct (_ && _); [|done]. intros [= <-]. by eapply connected_wf, Ef; apply no_chain.
Qed.

Lemma frontier_loop_safe peer ids : ∀ budget found,
  safes W (frontier_loop now mode peer ids budget found).
Proof.
  induction ids as [|id ids IH]; intros budget found; cbn [frontier_loop]; [apply (safe_ret _ _)|].
  intros s Hn. w_bind. apply wps_pass; [done|]. intros _. destruct (_ || _); [w_ret|]. w_bind. w_node.
  destruct (eligible_frontier _ _ _) as [share|] eqn:Ee; [|by apply IH].
  apply eligible_wf in Ee; [|done]. cbv zeta. w_bind.
  apply (wp_safe _ _); [by apply attempt_local_safe|done|]. intros handled s' Hs' _.
  destruct handled.
  - w_bind. apply wps_modify; [by apply calm_mark|]. intros Hn'. w_bind. apply wps_pass; [done|].
    intros _. by apply IH.
  - apply (safe_bind _ _); [apply safe_node_op, begin_safe| |done]. intros r. safe_auto.
    + apply safe_modify. intros n' Hn'. by apply calm_mark.
    + apply safe_modify. intros n' Hn'. by apply calm_remember_pending.
Qed.

Lemma safe_pass : safes W (on_state exec_get).
Proof. intros s Hn. by apply wps_pass. Qed.

Lemma schedule_safe peer : safes W (schedule_frontiers now mode peer).
Proof.
  unfold schedule_frontiers. safe_auto; try apply safe_pass; try apply frontier_loop_safe.
  apply safe_modify. intros n Hn. by apply calm_expire.
Qed.

Context (runtime : P2pRuntime W).

Lemma safe_daemon {A} (m : exec W A) : safes W (daemon_op m).
Proof. intros s Hn. by apply wps_daemon. Qed.

Lemma send_replies_safe peer : safes W (send_replies runtime peer).
Proof. unfold send_replies. safe_auto; try apply safe_pass; apply safe_daemon. Qed.

Lemma handle_safe peer envelope : safew W (handle runtime now mode peer envelope).
Proof.
  intros s Hn. assert (safes W (handle_pass runtime now mode peer envelope)) as Hp.
  { apply (safe_bind _ _); [apply handle_message_safe|intros _].
    apply (safe_bind _ _); [apply schedule_safe|intros _]. apply send_replies_safe. }
  specialize (Hp (new_pass peer, s) Hn). unfold wp, handle in *.
  by destruct (handle_pass _ _ _ _ _ _) as [[a|e] [l s']].
Qed.

(** ** Retries and replay recovery *)

Lemma calm_restore x n : node_ok n → share_wf (ry_share x) → calm n (restore_retry (W := W) now x n).
Proof.
  intros Hn Hwf. assert (calm n n) by done. unfold restore_retry.
  destruct (share_id _) as [id|]; [|done]. destruct (_ && _); [|done].
  apply calm_retryable; [done|]. intros k y [[_ <-]|[_ Hk]]%lookup_insert_Some; [done|].
  by eapply no_retryable.
Qed.

Lemma retry_one_safe x summary :
  share_wf (ry_share x) → safew W (retry_one runtime now mode x summary).
Proof.
  intros Hwf. unfold retry_one.
  apply (safe_bind _ _); [apply safew_res|intros envelope].
  apply (safe_bind _ _); [|intros result].
  { apply (safe_on_throw _ _); [apply handle_safe|]. intros s Hn. by apply calm_moved, calm_restore. }
  apply (safe_bind _ _); [apply safew_res|intros admitted].
  apply (safe_bind _ _); [apply safew_res|intros all].
  apply (safe_bind _ _); [|intros []; destruct summary; apply (safe_ret _ _)].
  destruct (at_trust_status _); [apply (safe_ret _ _)|].
  apply (safe_if _ _); [apply (safe_ret _ _)|].
  apply (safe_bind _ _); [apply safew_res|intros id].
  apply safew_modify. intros n Hn. by apply calm_erase_retryable.
Qed.

Lemma retry_loop_safe l : ∀ summary,
  Forall (λ x, share_wf (ry_share x)) l → safew W (retry_loop runtime now mode l summary).
Proof.
  induction l as [|x l IH]; intros summary Hl; cbn [retry_loop]; [apply (safe_ret _ _)|].
  apply Forall_cons in Hl as [Hx Hl]. apply (safe_bind _ _); [by apply retry_one_safe|].
  intros summary'. by apply IH.
Qed.

Lemma retry_safe : safew W (retry_historical_pow_unavailable runtime now mode).
Proof.
  intros s Hn. unfold retry_historical_pow_unavailable. w_bind.
  apply wpw_node_op, wpn_modify; [by apply calm_expire|]. intros Hn'. w_bind.
  apply wpw_node_op, (wp_get _ _); [done|]. intros _. cbv zeta. cbn [fst snd] in *. w_bind.
  apply (wp_safe _ _); [|done|].
  - apply retry_loop_safe, Forall_forall. intros x (k & -> & Hk)%list_elem_of_fmap.
    destruct k as [k x]. apply elem_of_map_sorted in Hk. by eapply no_retryable.
  - intros summary s' Hs' _. revert s' Hs'.
    apply (safe_bind _ _); [apply safew_expire|intros _].
    apply (safe_bind _ _); [apply safew_get|intros n]. destruct summary. apply (safe_ret _ _).
Qed.

End Messages.
