(* ===== verification/NodeReconcile.v ===== *)
(** Reconciliation of the node with the Zano chain: exactly the branches on
    replaced or unavailable work go, with the work itself. *)
From S2P Require Import Prelude CryptoHash PowTarget Share SidechainParams Difficulty ShareChain.
From S2P Require Import ChainWork ChainInv ChainPromote ChainAdmit ChainReplay ChainPrune.
From S2P Require Import ChainHistory P2pProtocol P2pShare P2pSync PplnsCoinbase PayoutPolicy.
From S2P Require Import MiningHeader BlockTemplate MiningContext WorkArchive WorkRetrieval ZanoCurve.
From S2P Require Import MinerTxProofs ContextTrust HistoricalTrust Restart NodeState NodeLogic NodeInv.
From S2P Require Import P2pNode NodeSpec NodeHandle.
Local Open Scope pool_scope.

(** ** Pruning the branches under a set of shares *)

Record pruned (P : ShareId → Prop) (c c' : ShareChain) (n : nat) : Prop := {
  pr_inv : chain_inv c';
  pr_orphans : orphans c' = orphans c;
  pr_sub : connected c' ⊆ connected c;
  pr_size : (size (connected c) = size (connected c') + n)%nat;
  pr_gone : ∀ i, is_Some (connected c !! i) → (connected c' !! i = None ↔
    ∃ r, P r ∧ is_Some (connected c !! r) ∧ descendant (connected c) r i);
  pr_keep : ∀ r i, descendant (connected c) r i → is_Some (connected c' !! i) →
    descendant (connected c') r i }.

Lemma pruned_none (P : ShareId → Prop) c :
  chain_inv c → (∀ r, P r → connected c !! r = None) → pruned P c c 0.
Proof.
  intros Hc HP. split; try done; try lia. intros i [e He]. rewrite He. split; [done|].
  intros (r & Hr & [x Hx] & _). by rewrite HP in Hx.
Qed.

Lemma pruned_root c r : chain_inv c →
  ∃ n c', prune_connected_subtree r c = (Ok n, c') ∧ pruned (eq r) c c' n.
Proof.
  intros Hc. destruct (prune_count c r Hc) as (n & c' & Hp & Hi & Ho & Hs & Hz & Hg & Hk).
  exists n, c'. split; [done|]. split; try done. intros i Hi'. rewrite Hg by done.
  split; [intros []; by exists r|]. by intros (r' & <- & ? & ?).
Qed.

Lemma pruned_trans (P Q : ShareId → Prop) c c1 c2 n1 n2 :
  pruned P c c1 n1 → pruned Q c1 c2 n2 → pruned (λ r, P r ∨ Q r) c c2 (n1 + n2).
Proof.
  intros [Hi1 Ho1 Hs1 Hz1 Hg1 Hk1] [Hi2 Ho2 Hs2 Hz2 Hg2 Hk2].
  split; try done; [congruence|by etrans|lia| |].
  - intros i Hi. destruct (connected c1 !! i) as [e|] eqn:E.
    + rewrite Hg2 by eauto. split.
      * intros (r & HQ & [x Hx] & Hd). exists r. split; [by right|].
        split; [by eexists; eapply lookup_weaken|by eapply descendant_mono].
      * intros (r & [HP|HQ] & Hr & Hd).
        { assert (connected c1 !! i = None) by (apply Hg1; [done|by exists r]). congruence. }
        exists r. split; [done|]. split; [|apply Hk1; [done|by eexists]].
        destruct (connected c1 !! r) as [x|] eqn:Er; [by eexists|]. exfalso.
        apply Hg1 in Er as (r0 & HP & Hr0 & Hd0); [|done].
        assert (connected c1 !! i = None); [|congruence]. apply Hg1; [done|].
        exists r0. split; [done|]. split; [done|]. unfold descendant in *. by etrans.
    + split; [intros _|intros _].
      * apply Hg1 in E as (r & HP & Hr & Hd); [|done]. exists r. split; [by left|done].
      * destruct (connected c2 !! i) as [e|] eqn:E2; [|done].
        pose proof (lookup_weaken _ _ _ _ E2 Hs2). congruence.
  - intros r i Hd [e He]. apply Hk2; [|by eexists]. apply Hk1; [done|]. eexists.
    by eapply lookup_weaken.
Qed.

Lemma pruned_ext (P Q : ShareId → Prop) c c' n :
  (∀ r, is_Some (connected c !! r) → P r ↔ Q r) → pruned P c c' n → pruned Q c c' n.
Proof.
  intros HPQ [? ? ? ? Hg ?]. split; try done. intros i Hi. rewrite Hg by done.
  split; intros (r & HP & Hr & Hd); exists r; (split; [|done]); by apply HPQ.
Qed.

Lemma prune_where_pruned stale ids : ∀ k c, chain_inv c →
  ∃ n c', prune_where stale ids k c = (Ok (k + n)%nat, c') ∧
    pruned (λ r, r ∈ ids ∧ ∃ e, connected c !! r = Some e ∧ stale e = true) c c' n.
Proof.
  induction ids as [|id ids IH]; intros k c Hc; cbn [prune_where].
  { exists 0%nat, c. rewrite Nat.add_0_r. split; [done|]. apply pruned_none; [done|].
    by intros r [?%elem_of_nil _]. }
  assert (∀ c' n, (∀ e, connected c !! id = Some e → stale e = false) →
    pruned (λ r, r ∈ ids ∧ ∃ e, connected c !! r = Some e ∧ stale e = true) c c' n →
    pruned (λ r, r ∈ id :: ids ∧ ∃ e, connected c !! r = Some e ∧ stale e = true) c c' n) as Hskip.
  { intros c' n Hid. apply pruned_ext. intros r Hr. rewrite elem_of_cons. split; [tauto|].
    intros [[->|?] (e & He & Hst)]; [|eauto]. by rewrite (Hid e He) in Hst. }
  unfold exec_bind at 1, exec_get at 1. cbv beta iota. unfold find.
  destruct (connected c !! id) as [e|] eqn:He.
  2:{ destruct (IH k c Hc) as (n & c' & Hl & Hp). exists n, c'. split; [done|]. by apply Hskip. }
  destruct (stale e) eqn:Hst; cbn [negb].
  2:{ destruct (IH k c Hc) as (n & c' & Hl & Hp). exists n, c'. split; [done|].
      apply Hskip; [by intros e' [= <-]|done]. }
  destruct (pruned_root c id Hc) as (n1 & c1 & Hr & Hp1). unfold exec_bind at 1. rewrite Hr.
  destruct (IH (k + n1)%nat c1 (pr_inv _ _ _ _ Hp1)) as (n2 & c2 & Hl & Hp2).
  exists (n1 + n2)%nat, c2. rewrite Nat.add_assoc. split; [done|].
  pose proof (pruned_trans _ _ _ _ _ _ _ Hp1 Hp2) as Hp. destruct Hp as [? ? ? ? Hg ?].
  split; try done. intros i Hi. rewrite Hg by done. clear Hg. split.
  - intros (r & [<-|[Hin (x & Hx & Hs)]] & Hr' & Hd); exists r || exists id.
    + split; [split; [by left|eauto]|done].
    + split; [split; [by right|]|done]. exists x. split; [|done]. by eapply lookup_weaken, Hp1.
  - intros (r & [[->|Hin]%elem_of_cons (x & Hx & Hs)] & Hr' & Hd).
    + exists id. split; [by left|done].
    + destruct (connected c1 !! r) as [y|] eqn:Ey.
      * exists r. split; [right; split; [done|]|done]. exists y. split; [done|].
        pose proof (lookup_weaken _ _ _ _ Ey (pr_sub _ _ _ _ Hp1)). by simplify_eq.
      * apply (pr_gone _ _ _ _ Hp1) in Ey as (r0 & <- & Hr0 & Hd0); [|done].
        exists id. split; [by left|]. split; [done|]. unfold descendant in *. by etrans.
Qed.

Lemma elem_of_ids_by_height c i : i ∈ ids_by_height c ↔ is_Some (connected c !! i).
Proof.
  unfold ids_by_height, connected_share_ids. rewrite merge_sort_Permutation, list_elem_of_fmap. split.
  - intros ([k e] & -> & He). apply elem_of_map_sorted in He. eauto.
  - intros [e He]. exists (i, e). split; [done|]. by apply elem_of_map_sorted.
Qed.

(** All the stale shares at once. *)
Lemma prune_all_pruned stale c : chain_inv c →
  ∃ n c', prune_where stale (ids_by_height c) 0 c = (Ok n, c') ∧
    pruned (λ r, ∃ e, connected c !! r = Some e ∧ stale e = true) c c' n.
Proof.
  intros Hc. destruct (prune_where_pruned stale (ids_by_height c) 0 c Hc) as (n & c' & Hl & Hp).
  exists n, c'. split; [done|]. revert Hp. apply pruned_ext. intros r Hr.
  rewrite elem_of_ids_by_height. tauto.
Qed.

Section Reconcile.
Context `{!ProgPow, !JsonC, !ZanoCrypto} {W : Type}.
Implicit Types n : P2pNodeProtocol W.

Lemma prune_where_moves {who : authority} n tw stale ids : ∀ k c,
  (∀ e, stale e = true → prunable who tw e) → good c → rtc (node_move n) (tw, c) (tw, (prune_where stale ids k c).2).
Proof.
  induction ids as [|id ids IH]; intros k c Hstep Hc; cbn [prune_where]; [done|].
  unfold exec_bind at 1, exec_get at 1. cbv beta iota.
  destruct (find c id) as [e|] eqn:He; [|by apply IH].
  destruct (stale e) eqn:Hst; cbn [negb]; [|by apply IH].
  destruct (prune_exact c id (proj1 Hc)) as (removed & c1 & Hp & _).
  unfold exec_bind at 1, prune_connected_subtree, exec_bind. rewrite Hp. cbn [exec_ret].
  eapply rtc_l; [by eapply mv_prune, Hp; eauto|]. apply IH; [done|]. by eapply prune_ids_good.
Qed.

(** The branches and the work that go, and the expectation with them. *)
Lemma reconcile_step {who : authority} n stale p (b : nat → nat → bool) :
  node_ok n →
  (∀ e, stale e = true → prunable who (np_trusted_work n) e) →
  (∀ key e, p key e = false ↔ ¬ revocable who key e) →
  wpn W (k <- on_chain (prune_where stale (ids_by_height (np_chain n)) 0) ;;
         revoked <- revoke (erase_where p) ;;
         do (if b k revoked then exec_ret () else exec_modify reset_expectation) ;;
         exec_ret (mkReconciled k revoked)) (λ _ _, True) n.
Proof.
  intros Hn Hstale Hp. w_bind. apply wpn_on_chain; [done| |].
  { apply prune_where_moves; [done|by apply no_chain]. }
  intros k c' _ Hn'. w_bind. apply wpn_on_registry; [done| |].
  { destruct (erase_where p _) as [r tw'] eqn:E. cbn. apply rtc_once, mv_revoke.
    intros key e. rewrite <-Hp. replace tw' with (erase_where p (np_trusted_work (set_chain c' n))).2
      by (by rewrite E). apply erase_where_ok. }
  intros r tw' _ Hn2. w_bind. destruct (b k r).
  - apply (wp_ret _ _); [done|]. intros _. w_ret.
  - apply wpn_modify; [by apply calm_reset|]. intros ?. w_ret.
Qed.

Lemma conflicting_prunable tw h canonical e :
  conflicting_parent tw h canonical e = true → prunable (CanonicalParent h canonical) tw e.
Proof.
  unfold conflicting_parent. cbv zeta. intros [Hh%Z.eqb_eq Hc]%andb_true_iff. split; [done|].
  rewrite Hh in Hc. destruct (find_zano_parent_hash _ _ _ _) as [recorded|] eqn:E; [|done].
  exists recorded. split; [|done]. intros ->. by rewrite arr_eqb_refl in Hc.
Qed.

Lemma mismatch_revocable h canonical (key : WorkKey) e :
  negb (negb (key.1.1 =? h) ||
    match we_zano_parent_hash e with Some zp => arr_eqb zp canonical | None => true end) = false ↔
  ¬ revocable (CanonicalParent h canonical) key e.
Proof.
  rewrite negb_false_iff, orb_true_iff, negb_true_iff, Z.eqb_neq. cbn.
  destruct (we_zano_parent_hash e) as [zp|].
  - split.
    + intros [Hh|He%arr_eqb_true] [? (x & Hx & [= ->])]; done.
    + intros Hn. destruct (decide (key.1.1 = h)); [right|by left].
      destruct (decide (zp = canonical)) as [->|Hz]; [apply arr_eqb_refl|]. destruct Hn. eauto.
  - split; [|by right]. by intros _ [_ (x & _ & [=])].
Qed.

Lemma reconcile_canonical_safe h canonical :
  safe node_ok (@moved _ _ _ W (CanonicalParent h canonical)) (reconcile_canonical_parent h canonical).
Proof.
  intros n Hn. unfold reconcile_canonical_parent. w_bind. w_get. intros _.
  refine (reconcile_step n _ _ (λ k _, (k =? 0)%nat) Hn _ _).
  - intros e. apply conflicting_prunable.
  - apply mismatch_revocable.
Qed.

Lemma reconcile_height_safe h :
  safe node_ok (@moved _ _ _ W (NoBlockAt h)) (reconcile_unavailable_work_height h).
Proof.
  intros n Hn. unfold reconcile_unavailable_work_height, reconcile_unavailable. w_bind. w_get. intros _.
  refine (reconcile_step n _ _ (λ k r, (k =? 0)%nat && (r =? 0)%nat) Hn _ _).
  - intros e. apply Z.eqb_eq.
  - intros key e. apply Z.eqb_neq.
Qed.

Lemma reconcile_above_safe maximum :
  safe node_ok (@moved _ _ _ W (NoBlockAbove maximum)) (reconcile_unavailable_work_above maximum).
Proof.
  intros n Hn. unfold reconcile_unavailable_work_above, reconcile_unavailable. w_bind. w_get. intros _.
  refine (reconcile_step n _ _ (λ k r, (k =? 0)%nat && (r =? 0)%nat) Hn _ _).
  - intros e. cbn. lia.
  - intros key e. cbn. lia.
Qed.

(** A new anchor speaks for the parent of its height when it replaces one of the
    same height on another parent. *)
Definition local_authority n (next : P2pMiningAnchor) : authority :=
  match np_local_mining_anchor n with
  | Some anchor =>
      if decide (an_zano_height anchor = an_zano_height next ∧ an_prev_hash anchor ≠ an_prev_hash next)
      then CanonicalParent (an_zano_height next) (an_prev_hash next) else Nobody
  | None => Nobody
  end.

Lemma reconcile_local_ok anchor n (who := local_authority n anchor) :
  node_ok n → wpn W (reconcile_local_parent_replacement anchor) (λ _ _, True) n.
Proof.
  intros Hn. unfold reconcile_local_parent_replacement. w_bind. w_get. intros _. subst who.
  unfold local_authority. destruct (np_local_mining_anchor n) as [old|]; [|w_ret].
  destruct (negb _ || _) eqn:E; [w_ret|].
  apply orb_false_iff in E as [E1%negb_false_iff%Z.eqb_eq E2].
  rewrite decide_True by (split; [done|intros E; by rewrite E, arr_eqb_refl in E2]). w_bind.
  apply (wp_safe _ _); [apply reconcile_canonical_safe|done|]. intros _ n' Hn' _.
  apply wpn_modify; [by apply calm_reset|done].
Qed.

End Reconcile.

(** ** Exactness *)

Section Exact.
Context {W : Type}.
Implicit Types n : P2pNodeProtocol W.

(** What [n'] keeps of [n] when the branches under the [stale] shares and the
    work picked by [p] go. *)
Record reconciled n n' (stale : ConnectedShare → bool) (p : WorkKey → WorkEntry → bool)
    (k r : nat) : Prop := {
  rc_inv : chain_inv (np_chain n');
  rc_connected : ∀ i e, connected (np_chain n') !! i = Some e ↔
    connected (np_chain n) !! i = Some e ∧
    ∀ j x, connected (np_chain n) !! j = Some x → stale x = true →
      ¬ descendant (connected (np_chain n)) j i;
  rc_pruned : (k + size (connected (np_chain n')) = size (connected (np_chain n)))%nat;
  rc_orphans : orphans (np_chain n') = orphans (np_chain n);
  rc_work : ∀ key e, np_trusted_work n' !! key = Some e ↔
    np_trusted_work n !! key = Some e ∧ p key e = false;
  rc_revoked : (r + size (np_trusted_work n') = size (np_trusted_work n))%nat }.

Lemma pruned_lookup stale c c' k :
  pruned (λ r, ∃ e, connected c !! r = Some e ∧ stale e = true) c c' k →
  ∀ i e, connected c' !! i = Some e ↔ connected c !! i = Some e ∧
    ∀ j x, connected c !! j = Some x → stale x = true → ¬ descendant (connected c) j i.
Proof.
  intros [_ _ Hs _ Hg _] i e. split.
  - intros He. pose proof (lookup_weaken _ _ _ _ He Hs) as He'. split; [done|].
    intros j x Hj Hst Hd. assert (connected c' !! i = None); [|congruence].
    apply Hg; [by eexists|]. exists j. split; [by eexists|]. split; [by eexists|done].
  - intros [He Hno]. destruct (connected c' !! i) as [e'|] eqn:E.
    + pose proof (lookup_weaken _ _ _ _ E Hs). congruence.
    + apply Hg in E as (r & (x & Hx & Hst) & _ & Hd); [|by eexists]. by destruct (Hno r x).
Qed.

Definition after_reconcile n c' tw' : P2pNodeProtocol W := set_trusted_work tw' (set_chain c' n).

Lemma reconcile_runs n stale p (b : nat → nat → bool) :
  chain_inv (np_chain n) →
  ∃ k r c' tw', (k0 <- on_chain (prune_where stale (ids_by_height (np_chain n)) 0) ;;
         revoked <- revoke (erase_where p) ;;
         do (if b k0 revoked then exec_ret () else exec_modify reset_expectation) ;;
         exec_ret (mkReconciled k0 revoked)) n =
    (Ok (mkReconciled k r), if b k r then after_reconcile n c' tw'
                            else reset_expectation (after_reconcile n c' tw')) ∧
    reconciled n (after_reconcile n c' tw') stale p k r.
Proof.
  intros Hc. destruct (prune_all_pruned stale _ Hc) as (k & c' & Hp & Hpr).
  destruct (erase_where_ok p (np_trusted_work n)) as [Hsz Hlk].
  destruct n as [rt c tw an cx po pl pp src pd ev df ar ry fa]. cbn in Hp, Hsz, Hlk, Hpr.
  destruct (erase_where p tw) as [r tw'] eqn:Er. cbn in Hsz, Hlk.
  exists k, r, c', tw'. split.
  - unfold exec_bind, on_chain, zoom. cbn. rewrite Hp. unfold revoke, on_trusted_work, zoom. cbn.
    rewrite Er. cbn. by destruct (b k r).
  - split; cbn; try done; try apply Hpr.
    + by eapply pruned_lookup.
    + pose proof (pr_size _ _ _ _ Hpr). lia.
Qed.

Lemma reconciled_reset n n' stale p k r :
  reconciled n n' stale p k r → reconciled n (reset_expectation n') stale p k r.
Proof. destruct n'. by intros []. Qed.

Lemma reconciled_ext n n' stale p p' k r :
  (∀ key e, p key e = p' key e) → reconciled n n' stale p k r → reconciled n n' stale p' k r.
Proof. intros Hp [? ? ? ? Hw ?]. split; try done. intros key e. by rewrite Hw, Hp. Qed.

(** Nothing stale, nothing removed. *)
Lemma reconciled_idle n n' stale p k r :
  reconciled n n' stale p k r → (∀ i x, connected (np_chain n) !! i = Some x → stale x = false) →
  (∀ key e, np_trusted_work n !! key = Some e → p key e = false) → k = 0%nat ∧ r = 0%nat.
Proof.
  intros [_ Hc Hk _ Hw Hr] Hs Hp.
  assert (connected (np_chain n') = connected (np_chain n)) as Ec.
  { apply map_eq. intros i. apply option_eq. intros e. rewrite Hc. split; [tauto|].
    intros He. split; [done|]. intros j x Hj Hst. rewrite (Hs j x Hj) in Hst. done. }
  assert (np_trusted_work n' = np_trusted_work n) as Ew.
  { apply map_eq. intros i. apply option_eq. intros e. rewrite Hw. split; [tauto|]. eauto. }
  rewrite Ec in Hk. rewrite Ew in Hr. lia.
Qed.

(** Once the work with another parent is gone, no share conflicts. *)
Lemma no_conflict (tw : P2pTrustedWorkRegistry) h canonical x :
  (∀ key e zp, tw !! key = Some e → key.1.1 = h → we_zano_parent_hash e = Some zp → zp = canonical) →
  conflicting_parent tw h canonical x = false.
Proof.
  intros Hw. unfold conflicting_parent, find_zano_parent_hash. cbv zeta.
  destruct (_ =? h) eqn:E; [|done]. apply Z.eqb_eq in E. cbn [andb].
  destruct (tw !! _) as [e|] eqn:He; cbn; [|done].
  destruct (we_zano_parent_hash e) as [zp|] eqn:Hz; [|done].
  rewrite (Hw _ _ _ He E Hz). by rewrite arr_eqb_refl.
Qed.

(** C10: reconciling a Zano height with its canonical parent never throws and is
    exact.  Of the share chain exactly the branches under the connected shares
    of that height go whose trusted work names another Zano parent, and orphans
    stay; of the registry exactly the entries of the height with another recorded
    parent go; the two counts returned are the numbers removed.  The payout
    expectation is dropped if and only if a share was pruned.  So afterwards the
    same call removes nothing. *)
Theorem reconcile_exact : ∀ n h canonical,
  chain_inv (np_chain n) →
  ∃ k r n', reconcile_canonical_parent h canonical n = (Ok (mkReconciled k r), n') ∧
    reconciled n n' (conflicting_parent (np_trusted_work n) h canonical)
      (λ key e, (key.1.1 =? h) && match we_zano_parent_hash e with
                                  | Some zp => negb (arr_eqb zp canonical)
                                  | None => false
                                  end) k r ∧
    (np_expected_payout n', np_expected_payout_plan n', np_expected_payout_parent_id n') =
      (if (k =? 0)%nat
       then (np_expected_payout n, np_expected_payout_plan n, np_expected_payout_parent_id n)
       else (None, None, None)) ∧
    ∃ n'', reconcile_canonical_parent h canonical n' = (Ok (mkReconciled 0 0), n'').
Proof.
  intros n h canonical Hc.
  set (p := λ (key : WorkKey) e, (key.1.1 =? h) && match we_zano_parent_hash e with
    | Some zp => negb (arr_eqb zp canonical) | None => false end).
  assert (∀ n0, chain_inv (np_chain n0) → ∃ k r n1,
    reconcile_canonical_parent h canonical n0 = (Ok (mkReconciled k r), n1) ∧
    reconciled n0 n1 (conflicting_parent (np_trusted_work n0) h canonical) p k r ∧
    (np_expected_payout n1, np_expected_payout_plan n1, np_expected_payout_parent_id n1) =
      (if (k =? 0)%nat
       then (np_expected_payout n0, np_expected_payout_plan n0, np_expected_payout_parent_id n0)
       else (None, None, None))) as Hrun.
  { intros n0 Hc0. destruct (reconcile_runs n0 (conflicting_parent (np_trusted_work n0) h canonical)
      (λ key e, negb (negb (key.1.1 =? h) ||
         match we_zano_parent_hash e with Some zp => arr_eqb zp canonical | None => true end))
      (λ k _, (k =? 0)%nat) Hc0) as (k & r & c' & tw' & Hr & Hrc).
    exists k, r. eexists. split; [exact Hr|]. split.
    - eapply reconciled_ext; [|destruct (k =? 0)%nat; [done|by apply reconciled_reset]].
      intros key e. unfold p. destruct (_ =? h); [|done]. by destruct (we_zano_parent_hash e).
    - by destruct n0, (k =? 0)%nat. }
  destruct (Hrun n Hc) as (k & r & n' & Hr & Hrc & He). exists k, r, n'. split_and!; try done.
  destruct (Hrun n' (rc_inv _ _ _ _ _ _ Hrc)) as (k' & r' & n2 & Hr' & Hrc' & _). exists n2.
  assert (∀ key e, np_trusted_work n' !! key = Some e → p key e = false) as Hp.
  { intros key e Hk. by apply (rc_work _ _ _ _ _ _ Hrc) in Hk as [_ ?]. }
  destruct (reconciled_idle _ _ _ _ _ _ Hrc') as [-> ->]; try done.
  intros i x _. apply no_conflict. intros key e zp Hk Hh Hz. specialize (Hp key e Hk).
  unfold p in Hp. rewrite Hh, Z.eqb_refl, Hz in Hp. by apply negb_false_iff, arr_eqb_true in Hp.
Qed.

End Exact.
