(* ===== verification/NodeCalls.v ===== *)
(** The public operations of the node protocol as calls, and what holds of every
    sequence of them: [node_refines] and [node_invariant]. *)
From S2P Require Import Prelude CryptoHash PowTarget Share SidechainParams Difficulty ShareChain.
From S2P Require Import ChainWork ChainInv ChainPromote ChainAdmit ChainReplay ChainPrune.
From S2P Require Import ChainHistory P2pProtocol P2pShare P2pSync PplnsCoinbase PayoutPolicy.
From S2P Require Import MiningHeader BlockTemplate MiningContext WorkArchive WorkRetrieval ZanoCurve.
From S2P Require Import MinerTxProofs ContextTrust HistoricalTrust Restart NodeState NodeLogic NodeInv.
From S2P Require Import P2pNode NodeSpec NodeHandle NodeReconcile.
Local Open Scope pool_scope.
#[local] Set Default Proof Using "Type*".

(** ** Replay recovery *)

Section Advance.
Context `{!ProgPow, !JsonC, !ZanoCrypto} {W : Type} {who : authority} (runtime : P2pRuntime W).
Context (now : Z) (mode : ProgPowZContextMode) (Hwho : who = FromPeers now mode).
Context (Hclock : clock_ok now).

Lemma select_replay_safe peers : safen W (select_replay now peers).
Proof.
  induction peers as [|peer peers IH]; cbn [select_replay]; [apply (safe_ret _ _)|].
  apply (safe_if _ _); [done|].
  apply (safe_bind _ _); [|intros _].
  { intros n Hn. apply wpn_modify; [by apply calm_expire|done]. }
  apply (safe_bind _ _); [apply (safe_get _ _)|intros n].
  apply (safe_if _ _); [apply (safe_ret _ _)|].
  destruct (first_eligible _ _ _) as [[id share]|]; [|done].
  apply (safe_bind _ _); [|intros _; apply (safe_ret _ _)].
  intros n' Hn. apply wpn_modify; [by apply calm_mark|done].
Qed.

Lemma archive_moves (n : P2pNodeProtocol W) sources candidate id p observations header :
  node_ok n → np_sources n = Some sources → loaded sources p observations →
  share_id candidate = Ok id → template_of candidate p →
  progpowz_seed (pp_zano_height p) = Ok (pp_seed p) →
  canonical_at (src_parent_lookup sources) (pp_zano_height p - 1) (pp_prev_hash p) →
  proposal_anchor p ∈ observations →
  validate_p2p_mining_context_structure p = Ok header →
  rtc (node_move n) (view n) (np_trusted_work n,
    (revalidate_connected_share id
       (mkContext (pp_zano_height p) header (pp_network_difficulty p)) now mode (np_chain n)).2).
Proof.
  intros Hn Hs Hl Hid Ht Hseed Hcan Hobs Hv.
  destruct (revalidate_outcome (np_chain n) id
    (mkContext (pp_zano_height p) header (pp_network_difficulty p)) now mode _ (proj1 (no_chain _ Hn))
    (clock_u64 _ Hclock) eq_refl) as [[-> _]|Ho]; [done|].
  destruct Ho as (e & v & He & Hva & Hm & Hp & Hd & ->). apply rtc_once.
  pose proof Ht as (Hh & Hz & Hdf). assert (header = mining_header_hash candidate) as -> by congruence.
  rewrite <-Hz, <-Hdf in Hp. by eapply mv_archive.
Qed.

Ltac w_from := apply wpw_node_op, (wp_get _ _); [done|]; intros _.
Ltac w_wres := apply (wp_const _ _); [done|].

Lemma archive_safe id candidate :
  share_id candidate = Ok id → safew W (revalidate_from_archive now mode id candidate).
Proof.
  intros Hid s Hn. unfold revalidate_from_archive. w_bind. w_from.
  destruct (np_sources s.1) as [sources|] eqn:Es; [|w_ret]. w_bind. w_wres. intros bytes _ _.
  destruct bytes as [bytes|]; [|w_ret]. w_bind. w_wres. intros p Hp _. w_bind. w_wres.
  intros header Hv _. destruct (negb _ || _ || _) eqn:Ec; [w_ret|]. bool_prop.
  w_bind. apply wpw_daemon; [done|]. intros obs w1 Hobs _. w_bind.
  apply wpw_daemon; [done|]. intros initial w2 Ha _. destruct (negb _ || _); [w_ret|].
  w_bind. apply wpw_daemon; [done|]. intros final w3 Hf _. destruct (negb _ || _) eqn:Ef; [w_ret|].
  apply orb_false_iff in Ef as [Ef _]. apply negb_false_iff, bool_decide_eq_true in Ef.
  apply audit_ok in Hf as (Hseed & Hcan & _ & Hk); [|done].
  destruct Hk as [Hk|(? & ? & ? & ? & ? & _)]; [|done].
  w_bind. w_from. cbn [fst snd] in *. destruct (find _ id) as [e|]; [|w_ret].
  destruct (validated_ancestry e); [w_ret|]. w_bind. apply wpw_node_op, wpn_on_chain; [done| |].
  - eapply archive_moves; try done; [by eexists _, _|].
    split_and!; [by rewrite Hv; f_equal|done|done].
  - intros r c' _ Hn'. w_ret.
Qed.

Lemma replay_one_safe peer id candidate :
  share_id candidate = Ok id → safew W (replay_one runtime now mode peer id candidate).
Proof.
  intros Hid. unfold replay_one.
  apply (safe_bind _ _); [by apply archive_safe|intros [settled validated]].
  apply (safe_if _ _); [apply (safe_ret _ _)|].
  apply (safe_bind _ _); [apply safew_res|intros replay].
  apply (safe_bind _ _); [by apply handle_safe|intros result]. apply (safe_ret _ _).
Qed.

Lemma advance_safe : safew W (advance_replay_recovery runtime now mode).
Proof.
  unfold advance_replay_recovery. apply (safe_bind _ _); [|intros w].
  { intros s Hn. by apply wpw_daemon. }
  apply (safe_bind _ _); [|intros selected].
  { intros s Hn. by apply wpw_node_op, select_replay_safe. }
  apply (safe_bind _ _); [|intros summary].
  { destruct selected as [[peer [key_id candidate]]|]; [|apply (safe_ret _ _)].
    intros s Hn. w_bind. w_wres. intros id Hid _.
    apply (safe_on_throw _ _); [by apply replay_one_safe| |done]. intros s' Hs'.
    by apply calm_moved, calm_unmark. }
  apply (safe_bind _ _); [apply safew_expire|intros _].
  apply (safe_bind _ _); [apply safew_get|intros n]. destruct summary. apply (safe_ret _ _).
Qed.

End Advance.

(** ** Local configuration *)

Section Config.
Context `{!ProgPow, !JsonC, !ZanoCrypto} {W : Type}.
Implicit Types n : P2pNodeProtocol W.

(** Steps that keep the registry and the chain, whatever they configure. *)
Definition unmoved n n' : Prop := view n' = view n.
#[export] Instance unmoved_preorder : PreOrder unmoved.
Proof. unfold unmoved. split; [by intros n|]. intros a b c Hab Hbc. congruence. Qed.
Abbreviation safev := (safe (node_ok (W := W)) unmoved).

Lemma safev_modify f :
  (∀ n, node_ok n → node_ok (f n) ∧ view (f n) = view n) → safev (exec_modify f).
Proof. intros Hf n Hn. destruct (Hf n Hn). by apply (wp_modify _ _). Qed.

(** Moves first, configuration after. *)
Lemma moves_then_config {who : authority} {A B} (m : exec (P2pNodeProtocol W) A) (k : A → exec (P2pNodeProtocol W) B) n :
  wpn W m (λ _ _, True) n → (∀ a, safev (k a)) →
  node_ok (exec_bind m k n).2 ∧ rtc (node_move n) (view n) (view (exec_bind m k n).2).
Proof.
  intros (Hn' & [_ Hmv] & _) Hk. unfold exec_bind.
  destruct (m n) as [[a|e] n']; cbn in *; [|done].
  destruct (Hk a n' Hn') as (Hn2 & Hv & _). split; [done|]. by rewrite Hv.
Qed.

Lemma set_local_ok anchor proposal n :
  node_ok n → node_ok (set_local anchor proposal n) ∧ view (set_local anchor proposal n) = view n.
Proof.
  intros Hn. destruct n as [rt c tw an cx po pl pp src pd ev df ar ry fa]. split; [|done].
  by destruct Hn; split.
Qed.
Lemma set_expectation_ok payout plan parent n :
  expectation_ok payout plan parent → node_ok n →
  node_ok (set_expectation payout plan parent n) ∧ view (set_expectation payout plan parent n) = view n.
Proof.
  intros He Hn. destruct n as [rt c tw an cx po pl pp src pd ev df ar ry fa]. split; [|done].
  by destruct Hn; split.
Qed.
Lemma set_sources_ok sources n :
  params_wf (src_params sources) →
  (∀ old, np_sources n = Some old →
     difficulty_window_shares (src_params old) ≤ difficulty_window_shares (src_params sources)) →
  node_ok n → node_ok (set_sources sources n) ∧ view (set_sources sources n) = view n.
Proof.
  intros Hp Hw Hn. destruct n as [rt c tw an cx po pl pp src pd ev df ar ry fa]. split; [|done].
  destruct Hn as [G1 G2 G3 G4 G5 G6 G7 G8 G9 G10 G11 G12]. split; cbn in *; try done.
  - by intros ? [= <-].
  - destruct src as [old|]; cbn in *; [specialize (Hw old eq_refl); lia|]. subst df.
    rewrite map_size_empty. apply (pwf_window _ Hp).
Qed.

Lemma set_local_mining_context_ok anchor proposal n (who := local_authority n anchor) :
  node_ok n → let n' := (set_local_mining_context anchor proposal n).2 in
  node_ok n' ∧ rtc (node_move n) (view n) (view n').
Proof.
  intros Hn. apply moves_then_config; [by apply reconcile_local_ok|]. intros _. apply safev_modify.
  intros. by apply set_local_ok.
Qed.

Lemma set_local_payout_ok anchor proposal payout n (who := local_authority n anchor) :
  node_ok n → let n' := (set_local_mining_context_payout anchor proposal payout n).2 in
  node_ok n' ∧ rtc (node_move n) (view n) (view n').
Proof.
  intros Hn. apply moves_then_config; [by apply reconcile_local_ok|]. intros _.
  apply (safe_bind _ _); [apply safev_modify; intros; by apply set_local_ok|intros _].
  apply safev_modify. intros. by apply set_expectation_ok.
Qed.

Lemma set_local_plan_ok anchor proposal plan parent n (who := local_authority n anchor) :
  Forall (λ d, is_u64 (dest_amount d)) (destinations plan) →
  node_ok n → let n' := (set_local_mining_context_plan anchor proposal plan parent n).2 in
  node_ok n' ∧ rtc (node_move n) (view n) (view n').
Proof.
  intros Hp. intros Hn. apply moves_then_config; [by apply reconcile_local_ok|]. intros _.
  apply (safe_bind _ _); [apply (safe_get _ _)|intros n'].
  apply (safe_bind _ _); [destruct parent; [|apply (safe_ret _ _)]|intros resolved].
  { apply (safe_bind _ _); [apply (safe_const _ _)|intros _; apply (safe_ret _ _)]. }
  apply (safe_bind _ _); [apply safev_modify; intros; by apply set_local_ok|intros _].
  apply safev_modify. intros. by apply set_expectation_ok.
Qed.

Lemma set_sources_safe {who : authority} params load lookup pow n :
  params_wf params →
  (∀ old, np_sources n = Some old →
     difficulty_window_shares (src_params old) ≤ difficulty_window_shares params) →
  node_ok n → let n' := (set_historical_trust_sources params load lookup pow n).2 in
  node_ok n' ∧ rtc (node_move n) (view n) (view n').
Proof.
  intros Hp Hw Hn. unfold set_historical_trust_sources.
  destruct load as [load|]; [|done]. destruct lookup as [lookup|]; [|done].
  destruct pow as [pow|]; [|done]. unfold exec_bind, exec_const.
  destruct (matches_sidechain_parameters _ _) as [[]|]; cbn; try done.
  destruct (set_sources_ok (mkSources params load lookup pow) n Hp Hw Hn) as [? ->]. done.
Qed.

Lemma remember_trusted_safe {who : authority} context parent :
  who = OwnTemplate context parent → safen W (remember_trusted_work context parent).
Proof.
  intros Hwho.
  intros n Hn. unfold remember_trusted_work. w_bind. w_get. intros _.
  destruct (np_local_mining_anchor n) as [anchor|] eqn:Ea; [|by apply (wp_throw _ _)].
  destruct (np_local_mining_context n) as [proposal|] eqn:Ec; [|by apply (wp_throw _ _)].
  w_bind. w_const. intros b Hb _. destruct b; cbn [negb]; [|by apply (wp_throw _ _)]. w_bind.
  apply (wp_mono _ _ _ (λ resolved n', n' = n ∧ resolved = default (best_tip_or_root (np_chain n)) parent)).
  - intros resolved n' _ [-> Hresolved] _. apply wpn_on_registry; [done| |done].
    pose proof (remember_canonical_outcome (np_trusted_work n) context resolved (an_prev_hash anchor)
      (no_registry _ Hn)) as Ho.
    destruct (remember_canonical _ _ _ _) as [[[]|e] tw'] eqn:Er; [|by destruct Ho as [-> _]].
    apply rtc_once. by eapply mv_own.
  - destruct parent as [parent|]; [|w_ret]. w_bind. w_const. intros _ _ _.
    destruct (match np_expected_payout_parent_id n with Some _ => _ | None => _ end);
      [by apply (wp_throw _ _)|w_ret].
Qed.

End Config.

(** ** Calls *)

Section Calls.
Context `{!ProgPow, !JsonC, !ZanoCrypto} {W : Type} (runtime : P2pRuntime W).
Implicit Types n : P2pNodeProtocol W.

(** The operations other threads call; each holds [state_mutex_]. *)
Inductive node_call :=
| CallHandle (peer : P2pHandshake) (envelope : P2pEnvelope) (now : Z) (mode : ProgPowZContextMode)
| CallRetry (now : Z) (mode : ProgPowZContextMode)
| CallAdvance (now : Z) (mode : ProgPowZContextMode)
| CallReconcile (h : Z) (canonical : Hash256)
| CallUnavailableHeight (h : Z)
| CallUnavailableAbove (maximum : Z)
| CallRemember (context : ShareWorkContext) (parent : option ShareId)
| CallLocal (anchor : P2pMiningAnchor) (proposal : P2pMiningContextProposal)
| CallLocalPayout (anchor : P2pMiningAnchor) (proposal : P2pMiningContextProposal)
    (payout : P2pPayoutAddress)
| CallLocalPlan (anchor : P2pMiningAnchor) (proposal : P2pMiningContextProposal)
    (plan : PplnsCoinbasePlan) (parent : option ShareId)
| CallExpectPayout (payout : P2pPayoutAddress)
| CallExpectPlan (plan : PplnsCoinbasePlan)
| CallClearExpectation
| CallRetrieval (h : RetrievalHandle)
| CallSources (params : SidechainParameters)
    (load : option (P2pMiningContextProposal → exec W (list P2pMiningAnchor)))
    (lookup : option (Z → exec W RpcCanonicalHeader))
    (pow_lookup : option (Z → exec W (option RpcHistoricalPowContext))).

Definition ignore {S A} (m : exec S A) : exec S () := exec_bind m (λ _, exec_ret ()).

Definition run_call (call : node_call) : exec (P2pNodeProtocol W * W) () :=
  match call with
  | CallHandle peer envelope now mode => ignore (handle runtime now mode peer envelope)
  | CallRetry now mode => ignore (retry_historical_pow_unavailable runtime now mode)
  | CallAdvance now mode => ignore (advance_replay_recovery runtime now mode)
  | CallReconcile h canonical => on_state (ignore (reconcile_canonical_parent h canonical))
  | CallUnavailableHeight h => on_state (ignore (reconcile_unavailable_work_height h))
  | CallUnavailableAbove maximum => on_state (ignore (reconcile_unavailable_work_above maximum))
  | CallRemember context parent => on_state (remember_trusted_work context parent)
  | CallLocal anchor proposal => on_state (set_local_mining_context anchor proposal)
  | CallLocalPayout anchor proposal payout =>
      on_state (set_local_mining_context_payout anchor proposal payout)
  | CallLocalPlan anchor proposal plan parent =>
      on_state (set_local_mining_context_plan anchor proposal plan parent)
  | CallExpectPayout payout => on_state (exec_modify (set_expected_payout payout))
  | CallExpectPlan plan => on_state (exec_modify (set_expected_payout_plan plan))
  | CallClearExpectation => on_state (exec_modify clear_expected_payout)
  | CallRetrieval h => on_state (exec_modify (set_work_retrieval (Some h)))
  | CallSources params load lookup pow =>
      on_state (set_historical_trust_sources params load lookup pow)
  end.

(** What the callers see to: a clock before 2106, amounts and parameters of
    their widths, a retrieval as its constructor makes it, and sources that are
    not replaced by ones with a smaller window. *)
Definition call_ok n (call : node_call) : Prop :=
  match call with
  | CallHandle _ _ now _ | CallRetry now _ | CallAdvance now _ => clock_ok now
  | CallLocalPlan _ _ plan _ | CallExpectPlan plan =>
      Forall (λ d, is_u64 (dest_amount d)) (destinations plan)
  | CallRetrieval h => retrieval_ok (rh_state h)
  | CallSources params _ _ _ => params_wf params ∧ ∀ old, np_sources n = Some old →
      difficulty_window_shares (src_params old) ≤ difficulty_window_shares params
  | _ => True
  end.

(** The calls that install a configuration. *)
Definition configures (call : node_call) : bool :=
  match call with
  | CallLocal _ _ | CallLocalPayout _ _ _ | CallLocalPlan _ _ _ _ | CallExpectPayout _
  | CallExpectPlan _ | CallSources _ _ _ _ => true
  | _ => false
  end.

(** On whose account a call changes the registry and the chain.  Messages,
    retries and replay recovery act for peers; the two reconciliations and a new
    anchor for the daemon; the rest only configures. *)
Definition call_authority n (call : node_call) : authority :=
  match call with
  | CallHandle _ _ now mode | CallRetry now mode | CallAdvance now mode => FromPeers now mode
  | CallReconcile h canonical => CanonicalParent h canonical
  | CallUnavailableHeight h => NoBlockAt h
  | CallUnavailableAbove maximum => NoBlockAbove maximum
  | CallRemember context parent => OwnTemplate context parent
  | CallLocal anchor _ | CallLocalPayout anchor _ _ | CallLocalPlan anchor _ _ _ =>
      local_authority n anchor
  | CallExpectPayout _ | CallExpectPlan _ | CallClearExpectation | CallRetrieval _
  | CallSources _ _ _ _ => Nobody
  end.

(** The outcome of a call. *)
Definition call_post (call : node_call) n n' : Prop :=
  let who : authority := call_authority n call in
  node_ok n' ∧ rtc (node_move n) (view n) (view n') ∧ (configures call = false → same_config n n').

Lemma safew_post {A} call (m : exec (P2pNodeProtocol W * W) A) n w :
  let who : authority := call_authority n call in
  safew W m → node_ok n → call_post call n (m (n, w)).2.1.
Proof. intros who Hm Hn. destruct (Hm (n, w) Hn) as (H2 & [H3 H4] & _). by split_and!. Qed.
Lemma safen_post {A} call (m : exec (P2pNodeProtocol W) A) n w :
  let who : authority := call_authority n call in
  safen W m → node_ok n → call_post call n ((on_state m : exec (_ * W) A) (n, w)).2.1.
Proof.
  intros who Hm Hn. destruct (Hm n Hn) as (H2 & [H3 H4] & _). unfold on_state. cbn.
  by destruct (m n) as [r n'].
Qed.
Lemma config_post {A} call (m : exec (P2pNodeProtocol W) A) n w :
  let who : authority := call_authority n call in
  configures call = true → node_ok (m n).2 ∧ rtc (node_move n) (view n) (view (m n).2) →
  call_post call n ((on_state m : exec (_ * W) A) (n, w)).2.1.
Proof.
  intros who Hc [H2 H3]. unfold on_state. cbn. destruct (m n) as [r n']. split_and!; try done.
  by rewrite Hc.
Qed.
Lemma set_post call (f : P2pNodeProtocol W → P2pNodeProtocol W) n w :
  configures call = true → node_ok (f n) ∧ view (f n) = view n →
  call_post call n ((on_state (exec_modify f) : exec (_ * W) ()) (n, w)).2.1.
Proof. intros Hc [H2 H3]. apply config_post; [done|]. cbn. by rewrite H3. Qed.

Lemma safe_ignore {S A} (I : S → Prop) (R : relation S) `{!PreOrder R} (m : exec S A) :
  safe I R m → safe I R (ignore m).
Proof. intros Hm. apply (safe_bind _ _); [done|]. intros a. apply (safe_ret _ _). Qed.

Lemma calls_refine call n w :
  node_ok n → call_ok n call → call_post call n (run_call call (n, w)).2.1.
Proof.
  intros Hn Hc. destruct call; cbn [run_call call_ok] in *.
  - apply safew_post; [|done]. by apply (safe_ignore _ _), handle_safe.
  - apply safew_post; [|done]. by apply (safe_ignore _ _), retry_safe.
  - apply safew_post; [|done]. by apply (safe_ignore _ _), advance_safe.
  - apply safen_post; [|done]. apply (safe_ignore _ _), reconcile_canonical_safe.
  - apply safen_post; [|done]. apply (safe_ignore _ _), reconcile_height_safe.
  - apply safen_post; [|done]. apply (safe_ignore _ _), reconcile_above_safe.
  - apply safen_post; [|done]. by apply remember_trusted_safe.
  - apply config_post; [done|]. by apply set_local_mining_context_ok.
  - apply config_post; [done|]. by apply set_local_payout_ok.
  - apply config_post; [done|]. by apply set_local_plan_ok.
  - apply set_post; [done|]. by apply set_expectation_ok.
  - apply set_post; [done|]. by apply set_expectation_ok.
  - apply safen_post; [|done]. intros n' Hn'. apply wpn_modify; [by apply calm_reset|done].
  - apply safen_post; [|done]. intros n' Hn'. apply wpn_modify; [by apply calm_retrieval|done].
  - apply config_post; [done|]. destruct Hc. by apply set_sources_safe.
Qed.

(** C2: refinement.  Whatever is called on a node in order - messages of peers,
    retries, replay recovery, reconciliation, local work and configuration - and
    whatever the daemon, the archive and the runtime do meanwhile, the call ends
    with a node in order, and the registry and the share chain have changed only
    along the moves of the abstract machine that this call authorises.  Calls for
    peers: a context of the node's own anchor that pays what the node expects,
    historical work through the full historical crossing with the node's own
    daemon and observations, a share with proven work on trusted work, a replayed
    share revalidated on trusted or archived canonical work, and the branch of an
    unvalidated share when the daemon names another block as the Zano parent of
    its template - they revoke no work and prune nothing else.  Remembering local
    work: the named context, on the installed template and the named parent or
    the best tip.  Reconciling with a canonical parent, or with a height the
    daemon no longer has: branches of shares of exactly those heights and on
    exactly the contradicted parent, and exactly the work of the same kind.  A new
    anchor: the same, and only if it replaces one of its height on another
    parent.  Any other call: nothing.  This holds when the call throws, too.
    Calls that do not configure the node leave its configuration alone, except
    that they may drop the payout expectation. *)
Theorem node_refines : ∀ call n w, node_ok n → call_ok n call →
  let n' := (run_call call (n, w)).2.1 in
  node_ok n' ∧ rtc (node_move (who := call_authority n call) n) (view n) (view n') ∧
  (configures call = false → same_config n n').
Proof. apply calls_refine. Qed.

(** Everything that changes the node: calls, and shares of the node's own miners
    submitted to the chain it shares with them. *)
Inductive node_step : P2pNodeProtocol W → P2pNodeProtocol W → Prop :=
| step_call n call w : call_ok n call → node_step n (run_call call (n, w)).2.1
| step_submit n share ctx now mode : share_wf share → clock_ok now →
    node_step n (set_chain (submit_share share ctx now mode (np_chain n)).2 n).

Lemma submit_kept c share ctx now mode :
  good c → share_wf share → clock_ok now →
  let c' := (submit_share share ctx now mode c).2 in good c' ∧ (vetted c → vetted c').
Proof.
  intros Hc Hwf Hnow. destruct (submit_share share ctx now mode c) as [r c'] eqn:E. cbn.
  destruct (submit_outcome _ _ _ _ _ _ (proj1 Hc) Hwf (clock_u64 _ Hnow) E) as [[Ec _]|Ho].
  { cbn in Ec. by subst. }
  destruct Ho as (v & Hp & Hd & Ho).
  assert (time_ok share).
  { unfold time_ok. pose proof (pv_time _ _ _ _ _ Hp). unfold clock_ok in Hnow. lia. }
  destruct r as [a|e].
  2:{ inversion Ho as [| | | | |? ? Hn]; subst; [done|]. exfalso. apply Hn.
      split; [apply Hc|done]. }
  split; [|intros Hv; by eapply vetted_admit].
  by refine (add_outcome_good c share (Some v) _ _ _ Hc Hwf _ (pv_consistent _ _ _ _ _ Hp) _ Ho).
Qed.

Lemma set_chain_ok c' n : node_ok n → good c' → node_ok (set_chain c' n).
Proof.
  intros Hn Hc. destruct n as [rt c tw an cx po pl pp src pd ev df ar ry fa]. by destruct Hn; split.
Qed.

Lemma step_ok n n' : node_step n n' → node_ok n → node_ok n' ∧ (vetted (np_chain n) → vetted (np_chain n')).
Proof.
  intros [n0 call w Hc|n0 share ctx now mode Hwf Hnow] Hn.
  - destruct (calls_refine call n0 w Hn Hc) as (Hn' & Hm & _). split; [done|].
    by apply (moves_vetted _ _ _ Hm).
  - destruct (submit_kept (np_chain n0) share ctx now mode (no_chain _ Hn) Hwf Hnow) as [Hg Hv].
    split; [by apply set_chain_ok|]. by destruct n0.
Qed.

Lemma new_node_ok chain : good chain → node_ok (new_node (W := W) chain ∅).
Proof.
  intros Hc. split; cbn; try done.
  - rewrite map_size_empty. unfold kMiningWorkMaxPending. lia.
  - rewrite map_size_empty. unfold kMiningWorkMaxReceived. lia.
Qed.


End Calls.
