(* ===== verification/NodeResume.v ===== *)
(** The queue of [resume_deferred_descendants] drains, and the frontier of a
    deferred walk is the right one. *)
From S2P Require Import Prelude CryptoHash PowTarget Share SidechainParams Difficulty ShareChain.
From S2P Require Import ChainWork ChainInv P2pProtocol P2pShare P2pSync BlockTemplate MiningContext.
From S2P Require Import WorkArchive WorkRetrieval ZanoCurve MinerTxProofs ContextTrust HistoricalTrust.
From S2P Require Import Restart NodeState NodeLogic NodeInv P2pNode NodeSpec.
Local Open Scope pool_scope.
#[local] Set Default Proof Using "Type*".

Section Resume.
Context `{!ProgPow, !JsonC, !ZanoCrypto} {W : Type}.
Context (now : Z) (mode : ProgPowZContextMode).
Abbreviation node := (P2pNodeProtocol W).
Abbreviation state := (pass * (node * W))%type.

(** No candidate is deferred again. *)
Definition shrinks (s s' : state) : Prop :=
  np_deferred_historical s'.2.1 ⊆ np_deferred_historical s.2.1.
#[local] Instance shrinks_preorder : PreOrder shrinks.
Proof. unfold shrinks. split; [by intros s|]. intros a b c Hab Hbc. by etrans. Qed.

Abbreviation wpd := (wp (λ _ : state, True) shrinks).
Abbreviation safed := (safe (λ _ : state, True) shrinks).

Lemma sd_locals f : safed (locals f).
Proof. intros [l [n w]] _. unfold wp, shrinks. by split_and!. Qed.
Lemma sd_res {A} (m : res A) : safed (of_res m).
Proof. apply (safe_const _ _). Qed.
Lemma sd_node {A} (m : exec node A) :
  (∀ n, np_deferred_historical (m n).2 ⊆ np_deferred_historical n) → safed (node_op m).
Proof.
  intros Hm [l [n w]] _. specialize (Hm n). unfold wp, node_op, on_world, on_state, shrinks. cbn.
  by destruct (m n) as [[a|e] n'].
Qed.
Lemma sd_modify f :
  (∀ n, np_deferred_historical (f n) ⊆ np_deferred_historical n) → safed (modify_node f).
Proof. intros Hf. apply sd_node. done. Qed.
Lemma sd_get : safed get_node.
Proof. by apply sd_node. Qed.
Lemma sd_daemon {A} (m : exec W A) : safed (daemon_op m).
Proof.
  intros [l [n w]] _. unfold wp, daemon_op, on_world, shrinks. cbn. by destruct (m w) as [[]].
Qed.
Lemma sd_registry {A} (m : exec (P2pTrustedWorkRegistry * W) A) : safed (registry_op m).
Proof.
  intros [l [n w]] _. unfold wp, registry_op, on_world, shrinks. cbn.
  by destruct (m _) as [[] []], n.
Qed.
Lemma sd_on_chain {A} (m : exec ShareChain A) : safed (node_op (on_chain m)).
Proof. apply sd_node. intros n. unfold on_chain, zoom. by destruct (m _), n. Qed.

Lemma expire_deferred n : np_deferred_historical (expire_historical_state now n) ⊆
  np_deferred_historical (n : node).
Proof. destruct n. apply map_filter_subseteq. Qed.
Lemma erase_retryable_deferred id n :
  np_deferred_historical (erase_retryable id n) ⊆ np_deferred_historical (n : node).
Proof. by destruct n. Qed.
Lemma evidence_deferred key ev n :
  np_deferred_historical (remember_historical_evidence key ev now n) ⊆
  np_deferred_historical (n : node).
Proof.
  etransitivity; [|apply (expire_deferred n)]. unfold remember_historical_evidence. cbv zeta.
  generalize (expire_historical_state now n). intros n'. by destruct (_ !! key), n'.
Qed.
Lemma retryable_deferred share peer cap n :
  np_deferred_historical (remember_retryable_historical share peer cap now n).2 ⊆
  np_deferred_historical (n : node).
Proof.
  etransitivity; [|apply (expire_deferred n)]. unfold remember_retryable_historical, exec_bind, exec_modify.
  generalize (expire_historical_state now n). intros n'. destruct (_ && _); [done|].
  unfold exec_const. destruct (share_id share) as [id|]; [|done]. cbn. by destruct (_ !! id), n'.
Qed.

Ltac sd_step :=
  lazymatch goal with
  | |- safe _ _ (exec_bind _ _) => apply (safe_bind _ _); [|intros ?]
  | |- safe _ _ (exec_ret _) => apply (safe_ret _ _)
  | |- safe _ _ (exec_throw _ _) => apply (safe_throw _ _)
  | |- safe _ _ (locals _) => apply sd_locals
  | |- safe _ _ (of_res _) => apply sd_res
  | |- safe _ _ get_node => apply sd_get
  | |- safe _ _ (daemon_op _) => apply sd_daemon
  | |- safe _ _ (registry_op _) => apply sd_registry
  | |- safe _ _ (node_op (on_chain _)) => apply sd_on_chain
  | |- safe _ _ (node_op (remember_retryable_historical _ _ _ _)) => apply sd_node, retryable_deferred
  | |- safe _ _ (modify_node (remember_historical_evidence _ _ _)) => apply sd_modify, evidence_deferred
  | |- safe _ _ (modify_node _) => apply sd_modify; by intros []
  | |- safe _ _ (match ?x with _ => _ end) => destruct x
  end.
Ltac sd_auto := repeat (cbv zeta; sd_step).

Lemma sd_prune_stale id : safed (prune_stale_replay id).
Proof. unfold prune_stale_replay. sd_auto. Qed.

(** Without leave to defer, a rejection does not. *)
Lemma sd_reject candidate id peer ev cap trust :
  safed (reject_historical now candidate id peer ev cap false trust).
Proof.
  unfold reject_historical, parent_blocked. cbn [andb]. cbv zeta.
  apply (safe_bind _ _); [destruct (stable_parent_mismatch _); [apply sd_prune_stale|sd_auto]|intros _].
  apply (safe_bind _ _); [sd_auto|intros _].
  intros s _. apply (wp_bind _ _), (wp_ret _ _); [done|]. intros _.
  refine ((_ : safed _) s Logic.I). sd_auto.
Qed.

Lemma sd_attempt candidate peer ev cap :
  safed (attempt_historical now mode candidate peer ev cap false).
Proof.
  unfold attempt_historical, admit_historical, revalidate_replayed. sd_auto. apply sd_reject.
Qed.

Lemma wpd_get (Q : node → state → Prop) s : Q s.2.1 s → wpd get_node Q s.
Proof. by destruct s as [l [n w]]. Qed.
Lemma wpd_modify f (Q : () → state → Prop) s :
  np_deferred_historical (f s.2.1) ⊆ np_deferred_historical s.2.1 →
  Q () (s.1, (f s.2.1, s.2.2)) → wpd (modify_node f) Q s.
Proof. destruct s as [l [n w]]. intros Hf HQ. by split_and!. Qed.
(** The state after a safe step. *)
Lemma wpd_safe {A} (m : exec state A) (Q : A → state → Prop) s :
  safed m → (∀ a s', shrinks s s' → Q a s') → wpd m Q s.
Proof.
  intros Hm HQ. destruct (Hm s Logic.I) as (_ & HR & _). split_and!; [done|done|].
  destruct (m s).1; [by apply HQ|done].
Qed.

(** Each share that connects was a deferred candidate. *)
Lemma resume_ready_counts ready : ∀ s,
  wpd (resume_ready now mode ready) (λ more s',
    (length more + size (np_deferred_historical s'.2.1) ≤ size (np_deferred_historical s.2.1))%nat) s.
Proof.
  induction ready as [|id ready IH]; intros s; cbn [resume_ready]; [by apply (wp_ret _ _)|].
  apply (wp_bind _ _), wpd_get. intros _.
  destruct (np_deferred_historical s.2.1 !! id) as [d|] eqn:Ed; [|apply IH].
  assert (0 < size (np_deferred_historical s.2.1))%nat as Hpos.
  { assert (size (np_deferred_historical s.2.1) ≠ 0)%nat; [|lia].
    eapply map_size_ne_0_lookup_2; eauto. }
  apply (wp_bind _ _), wpd_modify.
  { destruct s as [l [n w]], n. apply delete_subseteq. }
  intros _. apply (wp_bind _ _), wpd_safe; [apply sd_attempt|]. intros connected s1 Hs1 _.
  assert (S (size (np_deferred_historical s1.2.1)) ≤ size (np_deferred_historical s.2.1))%nat as Hsz.
  { apply size_subseteq in Hs1. destruct s as [l [n w]], n. cbn in *.
    rewrite map_size_delete_Some in Hs1 by eauto. lia. }
  apply (wp_bind _ _). eapply (wp_mono _ _); [|apply IH]. intros more s2 _ Hmore _.
  apply (wp_ret _ _); [done|]. cbv beta in *. destruct connected; cbn [length]; lia.
Qed.

(** The loop without fuel, with the number of its turns: as long as a parent
    waits, its deferred children are attempted, and those that connect join the
    queue; an exception of the attempts ends it. *)
Inductive drains : nat → list ShareId → state → res () * state → Prop :=
| drained s : drains 0 [] s (Ok (), s)
| drains_turn k parent rest s more s' r :
    resume_ready now mode (ready_children s.2.1 parent) s = (Ok more, s') →
    drains k (rest ++ more) s' r → drains (S k) (parent :: rest) s r
| drains_throw parent rest s e s' :
    resume_ready now mode (ready_children s.2.1 parent) s = (Throw e, s') →
    drains 1 (parent :: rest) s (Throw e, s').

Lemma resume_loop_turn fuel parent rest s :
  resume_loop now mode (S fuel) (parent :: rest) s =
  match resume_ready now mode (ready_children s.2.1 parent) s return res () * state with
  | (Ok more, s') => resume_loop now mode fuel (rest ++ more) s'
  | (Throw e, s') => (Throw e, s')
  end.
Proof.
  destruct s as [l [n w]]. cbn [resume_loop].
  unfold exec_bind at 1, get_node, node_op, on_world, on_state, exec_get. cbn [fst snd].
  unfold exec_bind. by destruct (resume_ready _ _ _ _) as [[]].
Qed.

(** Fuel for the queue and for every candidate that may still join it is never
    used up. *)
Lemma resume_loop_drains fuel : ∀ queue (s : state),
  (length queue + size (np_deferred_historical s.2.1) ≤ fuel)%nat →
  ∃ turns, (turns ≤ length queue + size (np_deferred_historical s.2.1))%nat ∧
    drains turns queue s (resume_loop now mode fuel queue s).
Proof.
  induction fuel as [|fuel IH]; intros [|parent rest] s Hf; cbn in Hf; try lia;
    try (exists 0%nat; split; [lia|constructor]).
  rewrite resume_loop_turn. destruct (resume_ready_counts (ready_children s.2.1 parent) s) as (_ & _ & Hc).
  destruct (resume_ready now mode (ready_children s.2.1 parent) s) as [[more|e] s'] eqn:E; cbn in Hc.
  - destruct (IH (rest ++ more) s') as (turns & Hle & Hd); [rewrite length_app; lia|].
    exists (S turns). rewrite length_app in Hle. split; [cbn; lia|by eapply drains_turn].
  - exists 1%nat. split; [cbn; lia|by eapply drains_throw].
Qed.

(** C25: the resumption of deferred descendants terminates.  Its queue grows while
    it runs, but every share that joins it was a deferred candidate and leaves
    that table, and nothing the loop calls defers a candidate again.  So the loop
    as the code has it, without any bound on its turns, ends after at most one
    turn for the share that started it and one for each deferred candidate,
    whatever the daemon answers: its queue is empty, or an exception of an attempt
    ended it.  The result and the state of [resume_deferred_descendants] are those
    of that run. *)
Theorem resume_terminates : ∀ id (s : state),
  ∃ turns, (turns ≤ S (size (np_deferred_historical s.2.1)))%nat ∧
    drains turns [id] s (resume_deferred_descendants now mode id s).
Proof.
  intros id [l [n w]]. unfold resume_deferred_descendants.
  unfold exec_bind at 1, get_node, node_op, on_world, on_state, exec_get. cbn [fst snd].
  by apply (resume_loop_drains _ [id] (l, (n, w))).
Qed.

(** Without sources of historical work a candidate leaves the table for good. *)
Lemma resume_ready_sourceless id d l (n : node) w :
  np_sources n = None → np_deferred_historical n !! id = Some d →
  resume_ready now mode [id] (l, (n, w)) =
    (Ok [], (l, (set_deferred_historical (delete id (np_deferred_historical n)) n, w))).
Proof.
  destruct n as [rt c tw an cx po pl pp src pd ev df ar ry fa]. cbn. intros -> Hd.
  unfold exec_bind at 1, get_node, node_op, on_world, on_state, exec_get. cbn [fst snd].
  cbn. rewrite Hd. reflexivity.
Qed.

End Resume.

(** ** An interrupted crossing *)

Section Interrupted.
Context `{!ProgPow, !JsonC, !ZanoCrypto} {W : Type}.
Context (now : Z) (mode : ProgPowZContextMode).

(** When the source of local observations fails, the node is as before: the
    registration of a retried candidate has not been removed yet. *)
Lemma interrupted_crossing candidate id peer ev cap defer (n : P2pNodeProtocol W) sources l w e w' :
  np_sources n = Some sources → share_id candidate = Ok id →
  src_observations sources (he_proposal ev) w = (Throw e, w') →
  ∃ l', attempt_historical now mode candidate peer ev cap defer (l, (n, w)) = (Throw e, (l', (n, w'))).
Proof.
  intros Hs Hid Ho. eexists. unfold attempt_historical, get_node, node_op, daemon_op, locals, of_res,
    exec_bind, on_world, on_state, exec_get, exec_const, exec_modify. cbn [fst snd].
  rewrite Hs, Hid. cbn [fst snd]. by rewrite Ho.
Qed.

(** Restoring a candidate after an exception does not make room for it. *)
Lemma restore_grows candidate id (n : P2pNodeProtocol W) :
  share_id (ry_share candidate) = Ok id → outlived now (ry_started candidate) = false →
  np_retryable_historical n !! id = None →
  size (np_retryable_historical (restore_retry now candidate n)) =
    S (size (np_retryable_historical n)).
Proof.
  intros Hid Ho Hn. unfold restore_retry. rewrite Hid, Ho, bool_decide_true by done. destruct n.
  by apply map_size_insert_None.
Qed.

End Interrupted.

(** ** The frontier to ask for *)

Section Frontier.
Context {W : Type}.
Implicit Types (n : P2pNodeProtocol W) (d : DeferredHistoricalCandidate).

Definition held n d : Prop := ∃ id, np_deferred_historical n !! id = Some d.

Lemma best_fold (eligible : DeferredHistoricalCandidate → bool)
    (better : DeferredHistoricalCandidate → DeferredHistoricalCandidate → bool)
    (l : list (ShareId * DeferredHistoricalCandidate)) : ∀ (seen : list DeferredHistoricalCandidate) acc,
  (∀ x, better x x = false) →
  (∀ x y z, better x y = true → better y z = true → better x z = true) →
  match acc with
  | Some s => s ∈ seen ∧ eligible s = true ∧
      ∀ x, x ∈ seen → eligible x = true → better x s = false
  | None => ∀ x, x ∈ seen → eligible x = false
  end →
  match fold_left (λ selected item,
    if negb (eligible item.2) then selected
    else match selected with
         | None => Some item.2
         | Some s => if better item.2 s then Some item.2 else selected
         end) l acc with
  | Some s => s ∈ seen ++ l.*2 ∧ eligible s = true ∧
      ∀ x, x ∈ seen ++ l.*2 → eligible x = true → better x s = false
  | None => ∀ x, x ∈ seen ++ l.*2 → eligible x = false
  end.
Proof.
  induction l as [|[k d] l IH]; intros seen acc Hir Htr Hacc; cbn [fold_left].
  { cbn. by rewrite app_nil_r. }
  replace (seen ++ ((k, d) :: l).*2) with ((seen ++ [d]) ++ l.*2) by (by rewrite <-app_assoc).
  apply IH; [done|done|]. cbn [snd].
  assert (∀ x, x ∈ seen ++ [d] → x ∈ seen ∨ x = d) as Hin.
  { intros x [?|?%list_elem_of_singleton]%elem_of_app; auto. }
  destruct (eligible d) eqn:Ed; cbn [negb].
  2:{ destruct acc as [s|].
      - destruct Hacc as (Hs & He & Hb). split; [apply elem_of_app; by left|]. split; [done|].
        intros x [Hx| ->]%Hin Hex; [by apply Hb|congruence].
      - intros x [Hx| ->]%Hin; [by apply Hacc|done]. }
  destruct acc as [s|].
  - destruct Hacc as (Hs & He & Hb). destruct (better d s) eqn:Eb.
    + split; [apply elem_of_app; right; by left|]. split; [done|].
      intros x [Hx| ->]%Hin Hex; [|done]. apply not_true_is_false. intros Hxd.
      specialize (Hb x Hx Hex). by rewrite (Htr _ _ _ Hxd Eb) in Hb.
    + split; [apply elem_of_app; by left|]. split; [done|].
      intros x [Hx| ->]%Hin Hex; [by apply Hb|done].
  - split; [apply elem_of_app; right; by left|]. split; [done|].
    intros x [Hx| ->]%Hin Hex; [by rewrite Hacc in Hex|done].
Qed.

Lemma select_best_spec eligible better n :
  (∀ x, better x x = false) →
  (∀ x y z, better x y = true → better y z = true → better x z = true) →
  match select_best eligible better n with
  | Some s => held n s ∧ eligible s = true ∧
      ∀ d, held n d → eligible d = true → better d s = false
  | None => ∀ d, held n d → eligible d = false
  end.
Proof.
  intros Hir Htr.
  assert (∀ d, d ∈ [] ++ (map_sorted (np_deferred_historical n)).*2 ↔ held n d) as Hin.
  { intros d. cbn [app]. unfold held. rewrite list_elem_of_fmap. split.
    - intros ([k x] & -> & Hx). apply elem_of_map_sorted in Hx. by exists k.
    - intros [k Hk]. exists (k, d). split; [done|]. by apply elem_of_map_sorted. }
  pose proof (best_fold eligible better (map_sorted (np_deferred_historical n)) [] None Hir Htr) as Hf.
  unfold select_best. destruct (fold_left _ _ None) as [s|].
  - destruct Hf as (Hs & He & Hb); [by intros x ?%elem_of_nil|]. split; [by apply Hin|]. split; [done|].
    intros d Hd. by apply Hb, Hin.
  - intros d Hd. apply Hf; [by intros x ?%elem_of_nil|by apply Hin].
Qed.

(** A candidate of the peer to ask the parent of. *)
Definition frontier_of n (peer_id : NodeId) d : Prop :=
  held n d ∧ hs_node_id (df_candidate_peer d) = peer_id ∧ unresolved_frontier n peer_id d = true.

(** Less recent progress, or as recent and lower. *)
Definition waits_longer d s : Prop :=
  df_last_progress d < df_last_progress s ∨
  df_last_progress d = df_last_progress s ∧ share_height (df_share d) < share_height (df_share s).

Lemma lower_share_order :
  (∀ x, lower_share x x = false) ∧
  ∀ x y z, lower_share x y = true → lower_share y z = true → lower_share x z = true.
Proof. unfold lower_share. split; intros; lia. Qed.

Lemma root_frontier_spec n peer_id root :
  match select_frontier_for_root n peer_id root with
  | Some s => frontier_of n peer_id s ∧ df_recovery_root s = root ∧
      ∀ d, frontier_of n peer_id d → df_recovery_root d = root →
        share_height (df_share s) ≤ share_height (df_share d)
  | None => ∀ d, frontier_of n peer_id d → df_recovery_root d ≠ root
  end.
Proof.
  pose proof (select_best_spec (λ d, arr_eqb (hs_node_id (df_candidate_peer d)) peer_id &&
    arr_eqb (df_recovery_root d) root && unresolved_frontier n peer_id d) lower_share n
    (proj1 lower_share_order) (proj2 lower_share_order)) as Hs.
  unfold select_frontier_for_root. destruct (select_best _ _ _) as [s|].
  - destruct Hs as (Hh & He & Hb). bool_prop. split; [done|]. split; [done|].
    intros d (Hd & Hp & Hu) Hr. specialize (Hb d Hd). unfold lower_share in Hb.
    rewrite Hp, Hr, !arr_eqb_refl, Hu in Hb. specialize (Hb eq_refl). lia.
  - intros d (Hd & Hp & Hu) Hr. specialize (Hs d Hd).
    by rewrite Hp, Hr, !arr_eqb_refl, Hu in Hs.
Qed.

Lemma oldest_frontier_spec n peer_id :
  match select_oldest_frontier n peer_id with
  | Some s => frontier_of n peer_id s ∧ ∀ d, frontier_of n peer_id d → ¬ waits_longer d s
  | None => ∀ d, ¬ frontier_of n peer_id d
  end.
Proof.
  pose proof (select_best_spec (λ d, arr_eqb (hs_node_id (df_candidate_peer d)) peer_id &&
    unresolved_frontier n peer_id d) (λ d s, (df_last_progress d <? df_last_progress s) ||
      ((df_last_progress d =? df_last_progress s) && lower_share d s)) n) as Hs.
  unfold select_oldest_frontier. destruct (select_best _ _ _) as [s|].
  - destruct Hs as (Hh & He & Hb); [unfold lower_share; intros; lia..|]. bool_prop. split; [done|].
    intros d (Hd & Hp & Hu). specialize (Hb d Hd). unfold lower_share, waits_longer in *.
    rewrite Hp, arr_eqb_refl, Hu in Hb. specialize (Hb eq_refl). lia.
  - intros d (Hd & Hp & Hu).
    assert (false = true) as [=]. rewrite <-(Hs ltac:(unfold lower_share; intros; lia)
      ltac:(unfold lower_share; intros; lia) d Hd). by rewrite Hp, arr_eqb_refl, Hu.
Qed.

(** The choice of the next ancestor to fetch from a peer.  The walk chosen
    before goes on as long as it has an unresolved frontier, at its lowest share;
    otherwise the walk whose frontier has waited longest without progress, the
    lower share first, is chosen and remembered.  The candidate returned always is
    a deferred one of that peer whose parent is real and neither deferred for the
    same peer nor validated in the chain, and nothing is returned only when the
    peer has no such candidate; then no walk stays chosen. *)
Theorem frontier_choice : ∀ n peer_id,
  let active := np_active_deferred_recovery_root n !! peer_id in
  let '(chosen, n') := deferred_frontier peer_id n in
  match chosen with
  | Some d => frontier_of n peer_id d ∧
      np_active_deferred_recovery_root n' !! peer_id = Some (df_recovery_root d) ∧
      (active = Some (df_recovery_root d) ∧
       (∀ x, frontier_of n peer_id x → df_recovery_root x = df_recovery_root d →
          share_height (df_share d) ≤ share_height (df_share x)) ∨
       (∀ x, frontier_of n peer_id x → active ≠ Some (df_recovery_root x) ∧ ¬ waits_longer x d))
  | None => (∀ d, ¬ frontier_of n peer_id d) ∧
      np_active_deferred_recovery_root n' !! peer_id = None
  end.
Proof.
  intros n peer_id. cbv zeta. unfold deferred_frontier. cbv zeta.
  pose proof (oldest_frontier_spec n peer_id) as Ho.
  assert (∀ m : gmap NodeId ShareId,
    np_active_deferred_recovery_root (set_active_deferred_recovery_root m n) = m) as Hset by (by destruct n).
  assert (match (match np_active_deferred_recovery_root n !! peer_id with
    | Some root => select_frontier_for_root n peer_id root | None => None end) with
    | Some s => frontier_of n peer_id s ∧
        np_active_deferred_recovery_root n !! peer_id = Some (df_recovery_root s) ∧
        ∀ x, frontier_of n peer_id x → df_recovery_root x = df_recovery_root s →
          share_height (df_share s) ≤ share_height (df_share x)
    | None => ∀ x, frontier_of n peer_id x →
        np_active_deferred_recovery_root n !! peer_id ≠ Some (df_recovery_root x) end) as Hs.
  { destruct (np_active_deferred_recovery_root n !! peer_id) as [root|]; [|done].
    pose proof (root_frontier_spec n peer_id root) as Hr.
    destruct (select_frontier_for_root n peer_id root) as [s|].
    - destruct Hr as (Hf & <- & Hmin). by split_and!.
    - intros x Hx [= ->]. by eapply Hr. }
  destruct (match _ !! peer_id with Some _ => _ | None => _ end) as [s|].
  - destruct Hs as (Hf & Ha & Hmin). split_and!; [done|done|]. left. by split.
  - destruct (select_oldest_frontier n peer_id) as [d|].
    + destruct Ho as [Hf Hold]. rewrite Hset, lookup_insert_eq. split_and!; [done|done|]. right.
      intros x Hx. split; [by apply Hs|by apply Hold].
    + rewrite Hset, lookup_delete_eq. by split.
Qed.

End Frontier.
