(* ===== verification/StratumSpec.v ===== *)
(** What the Stratum server guarantees: the submissions it accepts, the state its calls
    preserve, and the sessions they leave alone. *)
From S2P Require Import Prelude CryptoHash PowTarget Share ShareChain ChainInv ChainAdmit ChainHistory.
From S2P Require Import ChainPromote ChainSpec BlockTemplate MiningContext RpcClient StratumProtocol.
From S2P Require Import StratumSession StratumSubmission StratumServer StratumInv P2pShare NodeState NodeCalls.
Local Open Scope pool_scope.

Section Spec.
Context `{!ProgPow}.

Lemma submission_wf id t w session submission now c :
  from_template id t w → is_u64 now → is_u64 (sm_nonce submission) →
  share_wf (submission_share session w submission now c).
Proof.
  intros Hft Hnow Hn. unfold submission_share.
  assert (is_u64 (submission_parent w c).2) as Hp.
  { unfold submission_parent. destruct (iw_parent_binding w) as [b|] eqn:Eb; [by apply (ft_typed _ _ _ Hft)|].
    destruct (best_tip c); [apply wrap64_range|]. unfold is_u64, u64_max. cbn. lia. }
  destruct (submission_parent w c) as [parent height]. cbn in Hp.
  rewrite (ft_context _ _ _ Hft). cbn. pose proof (proj1 (ft_typed _ _ _ Hft)).
  destruct (ss_payout session); constructor; cbn; try done; unfold is_u8, u8_max, kShareVersion1, kShareVersion2; lia.
Qed.

(** The nonce of a submission on the current work is remembered. *)
Definition remembered (session_id : Z) (key : Z * Z) (s s' : StratumSubmissionRouter) : Prop :=
  sr_submitted_nonces s' = <[session_id := {[key]} ∪ seen_nonces s session_id]> (sr_submitted_nonces s).

(** Where the share of a submission ends up. *)
Definition admitted (session : StratumSession) (issued : StratumIssuedWork) (submission : StratumSubmission)
    (now : Z) (mode : ProgPowZContextMode) (c : ShareChain) (r : StratumSubmissionResult) (c' : ShareChain) : Prop :=
  ∃ e v, let share := submission_share session issued submission now c in
    connected c' !! sb_share_id r = Some e ∧ cs_share e = share ∧
    share_id share = Ok (sb_share_id r) ∧ pow_validation e = Some v ∧
    proven share (iw_trusted_context issued) now mode v ∧
    (enforces_sidechain_difficulty c = true → difficulty_ok c share) ∧
    connected c ⊆ connected c' ∧
    (sb_disposition r = SubBlockCandidate ↔
     arr_Z (final_hash (pow v)) * arr_Z (network_difficulty share) ≤ u256_max).

(** The submission is on the current work of a session that is logged in. *)
Record on_current (session_id : Z) (submission : StratumSubmission) (s : StratumSubmissionRouter)
    (session : StratumSession) (issued : StratumIssuedWork) : Prop := {
  oc_session : rg_sessions (sr_sessions s) !! session_id = Some session;
  oc_logged_in : ss_logged_in session = true;
  oc_current : ss_current_work session = Some issued;
  oc_header : sw_header_hash (iw_wire_work issued) = sm_header_hash submission }.

(** The outcome of a submission. *)
Inductive submitted (session_id : Z) (submission : StratumSubmission) (now : Z) (mode : ProgPowZContextMode)
    (s : StratumSubmissionRouter) : res StratumSubmissionResult → StratumSubmissionRouter → Prop :=
| sub_unknown :
    (∀ session issued, rg_sessions (sr_sessions s) !! session_id = Some session →
       ss_logged_in session = true → ss_current_work session = Some issued →
       ∀ w, held session w → sw_header_hash (iw_wire_work w) ≠ sm_header_hash submission) →
    submitted session_id submission now mode s (Ok (mkSubmitted SubUnknownWork NoReject no_id 0)) s
| sub_stale session issued previous :
    rg_sessions (sr_sessions s) !! session_id = Some session → ss_current_work session = Some issued →
    sw_header_hash (iw_wire_work issued) ≠ sm_header_hash submission →
    ss_previous_work session = Some previous →
    sw_header_hash (iw_wire_work previous) = sm_header_hash submission →
    submitted session_id submission now mode s
      (Ok (mkSubmitted SubStale NoReject no_id (iw_job_version previous))) s
| sub_duplicate session issued s' :
    on_current session_id submission s session issued →
    (iw_job_version issued, sm_nonce submission) ∈ seen_nonces s session_id →
    sr_submitted_nonces s' = sr_submitted_nonces s → sr_share_chain s' = sr_share_chain s →
    submitted session_id submission now mode s
      (Ok (mkSubmitted SubDuplicate NoReject no_id (iw_job_version issued))) s'
| sub_refused session issued out s' :
    on_current session_id submission s session issued →
    (iw_job_version issued, sm_nonce submission) ∉ seen_nonces s session_id →
    remembered session_id (iw_job_version issued, sm_nonce submission) s s' →
    connected (sr_share_chain s') = connected (sr_share_chain s) →
    match out with Ok r => sb_disposition r = SubRejected | Throw _ => True end →
    submitted session_id submission now mode s out s'
| sub_credited session issued r s' :
    on_current session_id submission s session issued →
    (iw_job_version issued, sm_nonce submission) ∉ seen_nonces s session_id →
    remembered session_id (iw_job_version issued, sm_nonce submission) s s' →
    accepted (sb_disposition r) = true → sb_job_version r = iw_job_version issued →
    admitted session issued submission now mode (sr_share_chain s) r (sr_share_chain s') →
    submitted session_id submission now mode s (Ok r) s'.

Lemma match_current session_id header r session w :
  rg_sessions r !! session_id = Some session → ss_current_work session = Some w →
  match_submission session_id header r =
    if arr_eqb (sw_header_hash (iw_wire_work w)) header then Ok MatchCurrent
    else match ss_previous_work session with
         | Some p => if arr_eqb (sw_header_hash (iw_wire_work p)) header then Ok MatchStale else Ok MatchUnknown
         | None => Ok MatchUnknown
         end.
Proof. intros Hs Hw. unfold match_submission, require_session. rewrite Hs. cbn. by rewrite Hw. Qed.

(** The chain's answer to the share of a submission. *)
Lemma submit_share_cases c share ctx now mode out c' :
  good c → share_wf share → clock_ok now → submit_share share ctx now mode c = (out, c') →
  match out with
  | Throw _ => c' = c
  | Ok a =>
      match disposition a with
      | Connected => ∃ e v, share_id share = Ok (result_id a) ∧
          connected c' !! result_id a = Some e ∧ cs_share e = share ∧ pow_validation e = Some v ∧
          proven share ctx now mode v ∧
          (enforces_sidechain_difficulty c = true → difficulty_ok c share) ∧ connected c ⊆ connected c'
      | Orphan => share_id share = Ok (result_id a) ∧ connected c' = connected c ∧
                  connected c !! result_id a = None
      | Duplicate | Rejected => c' = c
      end
  end.
Proof.
  intros Hc Hwf Hnow Hout. pose proof (proj1 Hc) as Hinv.
  destruct (submit_outcome _ _ _ _ _ _ Hinv Hwf (clock_u64 _ Hnow) Hout) as [[Ec Hd]|(v & Hv & Hdiff & Ho)].
  { cbn in *. subst c'. destruct out as [a|]; [|done]. by destruct Hd as [-> | ->]. }
  assert (time_ok share).
  { unfold time_ok. pose proof (pv_time _ _ _ _ _ Hv). unfold clock_ok in Hnow. lia. }
  inversion Ho as [| | |? Hid Hfr| ? e n ? Hfr Hcn Hce Hinv' Hprom Hn|? ? Hbad]; subst; cbn; try done.
  - split_and!; try done. apply Hfr.
  - exists e, v. pose proof (pr_connected _ _ Hprom) as Hsub. cbn in Hsub.
    split_and!; [apply Hcn|by eapply lookup_weaken; [|exact Hsub]; rewrite lookup_insert_eq|apply Hce|apply Hce|done| |].
    + intros Henf. by apply expected_reason_ok; [|apply Hcn|].
    + etransitivity; [|exact Hsub]. by apply insert_subseteq, Hcn.
  - exfalso. apply Hbad. split; [apply Hc|done].
Qed.

Lemma submit_issued_outcome session_id session issued t submission now mode s out s' :
  good (sr_share_chain s) → from_template session_id t issued →
  clock_ok now → is_u64 (sm_nonce submission) →
  submit_issued session issued submission now mode s = (out, s') →
  sr_submitted_nonces s' = sr_submitted_nonces s ∧ sr_sessions s' = sr_sessions s ∧
  match out with
  | Throw _ => sr_share_chain s' = sr_share_chain s
  | Ok r => sb_job_version r = iw_job_version issued ∧
     ((sb_disposition r = SubRejected ∧ connected (sr_share_chain s') = connected (sr_share_chain s)) ∨
      (accepted (sb_disposition r) = true ∧
       admitted session issued submission now mode (sr_share_chain s) r (sr_share_chain s')))
  end.
Proof.
  intros Hc Hft Hnow Hn. unfold submit_issued, exec_bind, exec_get, exec_const, exec_ret, zoom. cbv zeta.
  set (c := sr_share_chain s) in *. set (share := submission_share session issued submission now c).
  assert (share_wf share) as Hwf by (eapply submission_wf; [done|by apply clock_u64|done]).
  destruct (share_id share) as [id|x] eqn:Eid; [|by intros [= <- <-]].
  destruct (submit_share share _ now mode c) as [out0 c'] eqn:Es.
  pose proof (submit_share_cases _ _ _ _ _ _ _ Hc Hwf Hnow Es) as Hs.
  destruct out0 as [a|x]; [|by intros [= <- <-]].
  destruct (disposition a) eqn:Ed; rewrite ?bool_decide_false by done;
    rewrite ?bool_decide_true by done; cbn [negb andb].
  - destruct Hs as (e & v & Hid & He & Hshare & Hpow & Hv & Hdiff & Hsub). rewrite Eid in Hid. injection Hid as Hid.
    cbn [sr_share_chain set_router_chain]. unfold find. rewrite Hid, He. cbn [mbind option_bind]. rewrite Hpow.
    intros [= <- <-]. split_and!; try done. right. split; [by case_bool_decide|].
    exists e, v. cbn. fold c share. rewrite <-Hid. split_and!; try done; [by rewrite Hid|].
    rewrite <-(pv_block _ _ _ _ _ Hv). by case_bool_decide.
  - destruct Hs as (Hid & Hcon & Hnone). rewrite Eid in Hid. injection Hid as ->.
    cbn [sr_share_chain set_router_chain]. unfold find. rewrite Hcon, Hnone. cbn.
    intros [= <- <-]. split_and!; try done. by left.
  - intros [= <- <-]. subst c'. split_and!; try done. by left.
  - intros [= <- <-]. subst c'. split_and!; try done. by left.
Qed.

Lemma submit_answer published session_id submission now mode s out s' :
  reg_inv published (sr_sessions s) → good (sr_share_chain s) → clock_ok now → is_u64 (sm_nonce submission) →
  submit session_id submission now mode s = (out, s') →
  sr_sessions s' = sr_sessions s ∧ submitted session_id submission now mode s out s'.
Proof.
  intros Hr Hc Hnow Hn.
  unfold submit. unfold exec_bind at 1. unfold exec_get at 1. cbv beta iota zeta. unfold find_session, exec_ret at 1 2.
  destruct (rg_sessions (sr_sessions s) !! session_id) as [session|] eqn:Es.
  2:{ intros [= <- <-]. split; [done|]. constructor. intros ? ? Hl. congruence. }
  destruct (ss_logged_in session) eqn:El; cbn [negb].
  2:{ intros [= <- <-]. split; [done|]. constructor. intros ? ? Hl. congruence. }
  destruct (ss_current_work session) as [issued|] eqn:Ew.
  2:{ intros [= <- <-]. split; [done|]. constructor. intros ? ? Hl. congruence. }
  destruct (so_works _ _ _ _ _ (ri_sessions _ _ Hr _ _ Es) issued (or_introl Ew)) as (_ & t & _ & Hft).
  unfold exec_bind at 1. unfold exec_const at 1. rewrite (match_current _ _ _ _ _ Es Ew).
  destruct (arr_eqb (sw_header_hash (iw_wire_work issued)) _) eqn:Eh; bool_prop.
  2:{ destruct (ss_previous_work session) as [w|] eqn:Ewp; [destruct (arr_eqb _ _) eqn:Ehp|]; bool_prop;
        intros [= <- <-]; (split; [done|]).
      - by apply (sub_stale _ _ _ _ _ session issued w).
      - constructor. intros ? ? Hl _ _ w'. rewrite Es in Hl. injection Hl as <-. intros [?|?]; congruence.
      - constructor. intros ? ? Hl _ _ w'. rewrite Es in Hl. injection Hl as <-. intros [?|?]; congruence. }
  assert (on_current session_id submission s session issued) as Hcur by done.
  set (key := (iw_job_version issued, sm_nonce submission)).
  unfold exec_bind at 1. unfold exec_modify at 1. cbv beta iota.
  set (s1 := set_submitted _ s). case_bool_decide as Hin.
  { intros [= <- <-]. split; [done|]. apply (sub_duplicate _ _ _ _ _ session); try done. cbn.
    apply insert_id. unfold seen_nonces in *. by destruct (sr_submitted_nonces s !! session_id). }
  unfold exec_bind at 1. unfold exec_modify at 1. cbv beta iota.
  set (s2 := set_submitted _ s1). intros E.
  assert (remembered session_id key s s2) as Hrem by (unfold remembered; cbn; by rewrite insert_insert_eq).
  destruct (submit_issued_outcome session_id session issued t submission now mode s2 out s' Hc Hft Hnow Hn E)
    as (Hnon & Hses & Hout).
  assert (remembered session_id key s s') as Hrem' by (unfold remembered in *; by rewrite Hnon).
  split; [by rewrite Hses|]. destruct out as [r|x].
  - destruct Hout as [Hj [[Hd Hcon]|[Ha Had]]]; [by eapply sub_refused|]. by eapply sub_credited.
  - eapply sub_refused; try done. by rewrite Hout.
Qed.

(** A miner's share reaches the chain through [submit_share] only. *)
Definition chain_offered (now : Z) (c c' : ShareChain) : Prop :=
  c' = c ∨ ∃ share ctx mode, share_wf share ∧ c' = (submit_share share ctx now mode c).2.

Lemma submit_offers published session_id submission now mode s out s' :
  reg_inv published (sr_sessions s) → clock_ok now → is_u64 (sm_nonce submission) →
  submit session_id submission now mode s = (out, s') →
  chain_offered now (sr_share_chain s) (sr_share_chain s').
Proof.
  intros Hr Hnow Hn. unfold submit, exec_bind, exec_get, exec_const, exec_modify, exec_ret. cbv zeta.
  unfold find_session. destruct (rg_sessions _ !! session_id) as [session|] eqn:Es; [|intros [= _ <-]; by left].
  destruct (ss_logged_in session); cbn [negb]; [|intros [= _ <-]; by left].
  destruct (ss_current_work session) as [issued|] eqn:Ew; [|intros [= _ <-]; by left].
  destruct (so_works _ _ _ _ _ (ri_sessions _ _ Hr _ _ Es) issued (or_introl Ew)) as (_ & t & _ & Hft).
  rewrite (match_current _ _ _ _ _ Es Ew). destruct (arr_eqb _ _).
  2:{ destruct (ss_previous_work session); [destruct (arr_eqb _ _)|]; intros [= _ <-]; by left. }
  case_bool_decide; [intros [= _ <-]; by left|].
  unfold submit_issued, exec_bind, exec_get, exec_const, exec_ret, zoom. cbv zeta. cbn [sr_share_chain set_submitted].
  set (share := submission_share _ _ _ _ _).
  assert (share_wf share) as Hwf by (eapply submission_wf; [done|by apply clock_u64|done]).
  destruct (share_id share) as [id0|]; [|intros [= _ <-]; by left].
  assert (∀ x : res StratumSubmissionResult * StratumSubmissionRouter, sr_share_chain x.2 =
    (submit_share share (iw_trusted_context issued) now mode (sr_share_chain s)).2 → x = (out, s') →
    chain_offered now (sr_share_chain s) (sr_share_chain s')) as Hdone.
  { intros x Hx ->. right. exists share, (iw_trusted_context issued), mode. by split. }
  destruct (submit_share _ _ _ _ _) as [[a|x] c'] eqn:E; [|by apply Hdone].
  destruct (negb _ && _); [by apply Hdone|].
  destruct (_ ≫= pow_validation); by apply Hdone.
Qed.

Lemma offered_good now c c' : good c → clock_ok now → chain_offered now c c' → good c'.
Proof. intros Hc Hnow [->|(share & ctx & mode & Hwf & ->)]; [done|].
  exact (proj1 (submit_kept c share ctx now mode Hc Hwf Hnow)).
Qed.

(** ** The server *)

Context `{!JsonC} `{!JsonTokenerEnd}.

Record server_ok (published : list StratumTemplate) (s : StratumTcpServer) : Prop := {
  sk_registry : reg_inv published (sv_registry s);
  sk_chain : good (sv_chain s);
  sk_limit : (size (sv_client_sessions s) ≤ sg_max_clients (sv_config s))%nat;
  sk_fresh : ∀ fd id, sv_client_sessions s !! fd = Some id →
    rg_next_session_id (sv_registry s) = 0 ∨ id < rg_next_session_id (sv_registry s);
  sk_distinct : ∀ fd fd' id, sv_client_sessions s !! fd = Some id → sv_client_sessions s !! fd' = Some id → fd = fd' }.

(** What a call of session [id] may change of the sessions. *)
Record own_session (id : Z) (r r' : StratumSessionRegistry) : Prop := {
  os_config : rg_config r' = rg_config r;
  os_next_id : rg_next_session_id r' = rg_next_session_id r;
  os_next_version : rg_next_template_version r' = rg_next_template_version r;
  os_template : rg_current_template r' = rg_current_template r;
  os_others : ∀ id', id' ≠ id → rg_sessions r' !! id' = rg_sessions r !! id' }.
#[export] Instance own_session_refl id : Reflexive (own_session id).
Proof. by intros r. Qed.
#[export] Instance own_session_trans id : Transitive (own_session id).
Proof.
  intros r1 r2 r3 [E1 E2 E3 E4 E5] [F1 F2 F3 F4 F5]. constructor; try congruence.
  intros id' Hne. by rewrite F5, E5.
Qed.

Lemma own_update id ss r : own_session id r (set_sessions (<[id := ss]> (rg_sessions r)) r).
Proof. constructor; try done. intros id' Hne. cbn. by rewrite lookup_insert_ne. Qed.

Lemma issued_own published id cd b r out r' : issued published id cd b r out r' → own_session id r r'.
Proof. intros [|]; [done|apply own_update]. Qed.

Lemma login_own id request r out r' : login id request r = (out, r') → own_session id r r'.
Proof.
  unfold login, exec_bind, exec_const, exec_get, exec_throw, update_session, exec_modify.
  destruct (require_session id r); [|by intros [= <- <-]]. case_bool_decide; [by intros [= <- <-]|].
  intros [= <- <-]. apply own_update.
Qed.

Lemma set_registry_id s : set_registry (sv_registry s) s = s.
Proof. by destruct s as [? ? ? []]. Qed.

(** The work the server issues: on a shared chain, under the parent the template was
    published with and at the difficulty the chain expects below it. *)
Lemma server_issue_inv published id s out s' :
  reg_inv published (sv_registry s) → server_issue_work id s = (out, s') →
  ∃ r' cd b, s' = set_registry r' s ∧ reg_inv published r' ∧ issued published id cd b (sv_registry s) out r' ∧
    ∀ w, out = Ok w → sv_shared s = true →
      ∃ t pb, rg_current_template (sv_registry s) = Some t ∧ tp_parent_binding t = Some pb ∧
        template_parent_check (sv_chain s) pb = Ok () ∧
        (enforces_sidechain_difficulty (sv_chain s) = true →
         ∃ d, cd = Some d ∧
           expected_child_share_difficulty (sv_chain s) (pb_parent_id pb) (tp_network_difficulty t) = Ok d).
Proof.
  intros Hr. unfold server_issue_work, exec_bind at 1, exec_get. cbv beta iota zeta. unfold current_template.
  assert (∀ cd b, binding_typed b → on_registry (issue_work id cd b) s = (out, s') →
    ∃ r', s' = set_registry r' s ∧ reg_inv published r' ∧ issued published id cd b (sv_registry s) out r') as Hissue.
  { intros cd b Hb. unfold on_registry, zoom. destruct (issue_work _ _ _ _) as [o r'] eqn:E. intros [= <- <-].
    exists r'. split; [done|]. by apply issue_work_inv. }
  assert (∀ x, out = Throw x → s' = s → ∃ r' cd b, s' = set_registry r' s ∧ reg_inv published r' ∧
    issued published id cd b (sv_registry s) out r' ∧ ∀ w, out = Ok w → sv_shared s = true → False) as Hthrow.
  { intros x -> ->. exists (sv_registry s), None, None. rewrite set_registry_id.
    split_and!; [done|done|constructor|done]. }
  destruct (rg_current_template (sv_registry s)) as [t|] eqn:Et.
  2:{ intros E. destruct (Hissue None None ltac:(done) E) as (r' & -> & Hr' & Hi). exists r', None, None.
      split_and!; try done. intros w ->. inversion Hi. congruence. }
  destruct (sv_shared s) eqn:Esh; cbn [negb].
  2:{ intros E. destruct (Hissue None None ltac:(done) E) as (r' & -> & Hr' & Hi). by exists r', None, None. }
  destruct (tp_parent_binding t) as [pb|] eqn:Eb.
  2:{ intros [= <- <-]. destruct (Hthrow _ eq_refl eq_refl) as (r' & cd & b & ? & ? & ? & Hf).
      exists r', cd, b. split_and!; try done. }
  unfold exec_bind at 1. unfold exec_const at 1. destruct (template_parent_check _ _) as [[]|x] eqn:Ec.
  2:{ intros [= <- <-]. destruct (Hthrow _ eq_refl eq_refl) as (r' & cd & b & ? & ? & ? & Hf).
      exists r', cd, b. split_and!; try done. }
  unfold exec_bind at 1. unfold exec_const at 1.
  destruct (current_published _ _ _ Hr Et) as [_ Hok]. pose proof (to_typed _ Hok) as Hty. rewrite Eb in Hty.
  destruct (if enforces_sidechain_difficulty (sv_chain s) then _ else _) as [cd|x] eqn:Ecd.
  2:{ intros [= <- <-]. destruct (Hthrow _ eq_refl eq_refl) as (r' & cd & b & ? & ? & ? & Hf).
      exists r', cd, b. split_and!; try done. }
  intros E. destruct (Hissue cd (Some pb) Hty E) as (r' & -> & Hr' & Hi). exists r', cd, (Some pb).
  split_and!; try done. intros w _ _. exists t, pb. split_and!; try done. intros Henf. rewrite Henf in Ecd.
  destruct (expected_child_share_difficulty _ _ _) as [d|]; [|done]. injection Ecd as <-. by exists d.
Qed.

(** What a call of session [id] at time [now] may do to the server. *)
Record own_effect (id now : Z) (s s' : StratumTcpServer) : Prop := {
  oe_config : sv_config s' = sv_config s;
  oe_shared : sv_shared s' = sv_shared s;
  oe_clients : sv_client_sessions s' = sv_client_sessions s;
  oe_session : own_session id (sv_registry s) (sv_registry s');
  oe_nonces : ∀ id', id' ≠ id →
    sr_submitted_nonces (sv_router s') !! id' = sr_submitted_nonces (sv_router s) !! id';
  oe_seen : seen_nonces (sv_router s) id ⊆ seen_nonces (sv_router s') id;
  oe_chain : chain_offered now (sv_chain s) (sv_chain s') }.

Lemma own_registry id now s r' : own_session id (sv_registry s) r' → own_effect id now s (set_registry r' s).
Proof. intros Hr. constructor; try done. by left. Qed.

Lemma own_effect_then id now s s1 r' :
  own_effect id now s s1 → own_session id (sv_registry s1) r' → own_effect id now s (set_registry r' s1).
Proof. intros [E1 E2 E3 E4 E5 E6 E7] Hr. constructor; try done. by transitivity (sv_registry s1). Qed.

Lemma submitted_nonces_own id submission now mode s out s' :
  submitted id submission now mode s out s' →
  (∀ id', id' ≠ id → sr_submitted_nonces s' !! id' = sr_submitted_nonces s !! id') ∧
  seen_nonces s id ⊆ seen_nonces s' id.
Proof.
  assert (∀ key s0 s1, remembered id key s0 s1 →
    (∀ id', id' ≠ id → sr_submitted_nonces s1 !! id' = sr_submitted_nonces s0 !! id') ∧
    seen_nonces s0 id ⊆ seen_nonces s1 id) as Hrem.
  { intros key s0 s1 Hr. unfold remembered in Hr. split.
    - intros id' Hne. by rewrite Hr, lookup_insert_ne.
    - unfold seen_nonces at 2. rewrite Hr, lookup_insert_eq. set_solver. }
  intros [| |? ? ? _ _ Hn| |]; eauto. unfold seen_nonces. by rewrite Hn.
Qed.

Lemma hand_over_fields result s :
  sv_config (hand_over result s) = sv_config s ∧ sv_shared (hand_over result s) = sv_shared s ∧
  sv_router (hand_over result s) = sv_router s ∧
  sv_client_sessions (hand_over result s) = sv_client_sessions s.
Proof. unfold hand_over. by destruct (sv_has_handler s); [destruct (find _ _)|]. Qed.

Lemma server_issue_own published id now s out s' :
  reg_inv published (sv_registry s) → server_issue_work id s = (out, s') →
  own_effect id now s s' ∧ reg_inv published (sv_registry s').
Proof.
  intros Hr E. destruct (server_issue_inv _ _ _ _ _ Hr E) as (r' & cd & b & -> & Hr' & Hi & _).
  split; [|done]. by eapply own_registry, issued_own.
Qed.

Lemma own_effect_refl id now s : own_effect id now s s.
Proof. constructor; try done. by left. Qed.

Lemma dispatch_own published id request now s out s' :
  server_ok published s → clock_ok now → dispatch_request id request now s = (out, s') →
  own_effect id now s s' ∧ reg_inv published (sv_registry s').
Proof.
  intros Hs Hnow. pose proof (sk_registry _ _ Hs) as Hr. pose proof (own_effect_refl id now s) as Hrefl.
  unfold dispatch_request. destruct (stratum_method request).
  - unfold exec_bind at 1. unfold exec_const at 1. destruct (parse_stratum_login request) as [l|]; [|by intros [= <- <-]].
    unfold exec_bind at 1, on_registry, zoom. destruct (login id l (sv_registry s)) as [o r1] eqn:El.
    pose proof (login_own _ _ _ _ _ El) as Hown. destruct (login_inv _ _ _ _ _ _ Hr El) as [Hr1 _].
    destruct o as [[]|]; [|intros [= <- <-]; split; [by apply own_registry|done]].
    unfold exec_bind. destruct (server_issue_work id _) as [o s2] eqn:Ei.
    destruct (server_issue_inv published id (set_registry r1 s) _ _ Hr1 Ei) as (r2 & cd & b & -> & Hr2 & Hi & _).
    apply issued_own in Hi. assert (own_effect id now s (set_registry r2 (set_registry r1 s))) as Heff
      by (eapply own_effect_then; [by apply own_registry|done]).
    destruct o; by intros [= <- <-].
  - unfold exec_bind. destruct (server_issue_work id s) as [o s2] eqn:Ei.
    apply (server_issue_own published _ now) in Ei; [|done]. destruct o; by intros [= <- <-].
  - unfold exec_bind, exec_get. cbv beta iota. unfold exec_ret.
    destruct (find_session _ _) as [ss|]; [destruct (ss_logged_in ss)|]; by intros [= <- <-].
  - unfold exec_bind at 1. unfold exec_const at 1.
    destruct (parse_stratum_submission request) as [m|] eqn:Em; [|by intros [= <- <-]].
    apply submission_nonce in Em. unfold exec_bind at 1, zoom.
    destruct (submit id m now Light (sv_router s)) as [o rt] eqn:Es.
    destruct (submit_answer _ _ _ _ _ _ _ _ Hr (sk_chain _ _ Hs) Hnow Em Es) as [Hses Hsub].
    apply submitted_nonces_own in Hsub as [Hn Hseen].
    pose proof (submit_offers _ _ _ _ _ _ _ _ Hr Hnow Em Es) as Hoff.
    assert (∀ s1, sv_config s1 = sv_config s → sv_shared s1 = sv_shared s → sv_router s1 = rt →
      sv_client_sessions s1 = sv_client_sessions s → own_effect id now s s1 ∧ reg_inv published (sv_registry s1)) as Hdone.
    { intros s1 Ec Esh Er Ecl. rewrite Er, Hses. split; [|done].
      constructor; rewrite ?Er, ?Hses; done. }
    destruct o as [result|x]; [|intros [= <- <-]; by apply Hdone].
    destruct (accepted _); [|intros [= <- <-]; by apply Hdone].
    unfold exec_bind, exec_modify, exec_ret. intros [= <- <-].
    destruct (hand_over_fields result (set_router rt s)) as (E1 & E2 & E3 & E4). by apply Hdone.
  - by intros [= <- <-].
Qed.

Lemma own_effect_ok published id now s s' :
  server_ok published s → clock_ok now → own_effect id now s s' → reg_inv published (sv_registry s') →
  server_ok published s'.
Proof.
  intros [Hr Hc Hl Hf Hd] Hnow [E1 E2 E3 E4 _ _ E7] Hr'.
  constructor; rewrite ?E1, ?E3, ?(os_next_id _ _ _ E4); try done. by eapply offered_good.
Qed.

Lemma line_effect published id line now s response s' :
  server_ok published s → clock_ok now → handle_line id line now s = (response, s') →
  own_effect id now s s' ∧ server_ok published s'.
Proof.
  intros Hs Hnow E. assert (own_effect id now s s' ∧ reg_inv published (sv_registry s')) as [He Hr'].
  { revert E. unfold handle_line, handle_request.
    destruct (parse_stratum_request line) as [request|x];
      [|intros [= <- <-]; split; [apply own_effect_refl|apply Hs]].
    destruct (dispatch_request id request now s) as [o s1] eqn:E. apply (dispatch_own published) in E; [|done..].
    destruct o; by intros [= <- <-]. }
  split; [done|]. by eapply own_effect_ok.
Qed.

(** The same templates and identifiers, whatever became of the sessions. *)
Record same_supply (r r' : StratumSessionRegistry) : Prop := {
  sp_config : rg_config r' = rg_config r;
  sp_next_id : rg_next_session_id r' = rg_next_session_id r;
  sp_template : rg_current_template r' = rg_current_template r }.

Lemma own_supply id r r' : own_session id r r' → same_supply r r'.
Proof. by intros []. Qed.

Lemma notify_inv published dup clients : ∀ notes s out s',
  reg_inv published (sv_registry s) → notify_clients dup clients notes s = (out, s') →
  ∃ r', s' = set_registry r' s ∧ reg_inv published r' ∧ same_supply (sv_registry s) r'.
Proof.
  induction clients as [|[fd id] clients IH]; intros notes s out s' Hr; cbn [notify_clients].
  { intros [= <- <-]. exists (sv_registry s). by rewrite set_registry_id. }
  unfold exec_bind at 1. unfold exec_get at 1. cbv beta iota.
  destruct (find_session id _) as [ss|]; [|by apply IH]. destruct (negb _); [by apply IH|].
  unfold exec_bind at 1. destruct (server_issue_work id s) as [o s1] eqn:Ei.
  destruct (server_issue_inv _ _ _ _ _ Hr Ei) as (r1 & cd & b & -> & Hr1 & Hi & _).
  apply issued_own, own_supply in Hi as [S1 S2 S3].
  destruct o as [w|x]; [|intros [= <- <-]; by exists r1]. cbv zeta.
  destruct (dup fd); intros E;
    destruct (IH _ (set_registry r1 s) _ _ Hr1 E) as (r' & -> & Hr' & [T1 T2 T3]);
    exists r'; (split_and!; [done|done|constructor]); cbn in *; congruence.
Qed.

Inductive server_call :=
| CallAccept (client_fd : Z)
| CallGone (client_fd session_id : Z)
| CallLine (session_id : Z) (line : text) (now : Z)
| CallPublish (dup : Z → bool) (header_hash seed_hash : Hash256) (height : Z) (network_difficulty : Difficulty128)
    (binding : option StratumShareParentBinding)
| CallNode (chain : ShareChain).

(** [CallNode] is what the rest of the node makes of the chain it shares. *)
Definition run_server_call (call : server_call) (s : StratumTcpServer) : StratumTcpServer :=
  match call with
  | CallAccept fd => (accept_client fd s).2
  | CallGone fd id => client_gone fd id s
  | CallLine id line now => (handle_line id line now s).2
  | CallPublish dup header seed height d b => (server_publish_template dup header seed height d b s).2
  | CallNode c => set_server_chain c s
  end.

(** Arguments in their machine ranges, the clock before the year 2106; a descriptor just
    accepted is not one in use. *)
Definition server_call_ok (s : StratumTcpServer) (call : server_call) : Prop :=
  match call with
  | CallAccept fd => sv_client_sessions s !! fd = None
  | CallLine _ _ now => clock_ok now
  | CallPublish _ _ _ height _ b => is_u64 height ∧ binding_typed b
  | CallNode c => good c
  | _ => True
  end.

(** What was published after a call. *)
Definition published_after (call : server_call) (published : list StratumTemplate) (s : StratumTcpServer)
    : list StratumTemplate :=
  record_template (rg_current_template (sv_registry (run_server_call call s))) published.

Lemma accept_ok published fd s : server_ok published s →
  sv_client_sessions s !! fd = None → server_ok published (accept_client fd s).2 ∧
  rg_current_template (sv_registry (accept_client fd s).2) = rg_current_template (sv_registry s).
Proof.
  intros [Hr Hc Hl Hf Hd] Hfd. unfold accept_client.
  destruct (_ <=? _)%nat eqn:E; [split; [by constructor|done]|]. apply Nat.leb_gt in E.
  unfold on_registry, zoom. destruct (create_session (sv_registry s)) as [o r'] eqn:Ec.
  destruct (create_inv _ _ _ _ Hr Ec) as (Hr' & Ht & Ho). destruct o as [id|x]; cbn; (split; [|done]).
  - destruct Ho as (Hid & -> & Hnext & _ & _). set (id := rg_next_session_id (sv_registry s)) in *.
    assert (∀ fd' i, sv_client_sessions s !! fd' = Some i → i < id) as Hlt.
    { intros fd' i Hi. destruct (Hf _ _ Hi); unfold id in *; lia. }
    assert (rg_next_session_id r' = 0 ∨ id < rg_next_session_id r') as Hnx.
    { rewrite Hnext. destruct (decide (id = u64_max)) as [->|]; [by left|right].
      rewrite wrap64_id by (unfold is_u64; lia). lia. }
    constructor; cbn; try done.
    + rewrite map_size_insert_None by done. lia.
    + intros fd' i. rewrite lookup_insert_Some. intros [[_ <-]|[_ Hi]]; [done|].
      apply Hlt in Hi. destruct Hnx; [by left|right; lia].
    + intros f1 f2 i. rewrite !lookup_insert_Some.
      intros [[<- <-]|[_ H1']] [[<- E2]|[_ H2']]; [done| | |by eapply Hd].
      * apply Hlt in H2'. lia.
      * apply Hlt in H1'. lia.
  - subst r'. constructor; cbn; rewrite ?delete_id by done; done.
Qed.

Lemma gone_ok published fd id s : server_ok published s → server_ok published (client_gone fd id s).
Proof.
  intros [Hr Hc Hl Hf Hd]. constructor; cbn; try done.
  - by apply remove_inv.
  - etrans; [apply map_subseteq_size, delete_subseteq|done].
  - intros fd' i [_ Hi]%lookup_delete_Some. eauto.
  - intros f1 f2 i [_ H1']%lookup_delete_Some [_ H2']%lookup_delete_Some. eauto.
Qed.

Lemma publish_server_ok published dup header seed height d b s out s' :
  server_ok published s → is_u64 height → binding_typed b →
  server_publish_template dup header seed height d b s = (out, s') →
  server_ok (record_template (rg_current_template (sv_registry s')) published) s' ∧
  sv_router s' = set_router_sessions (sv_registry s') (sv_router s).
Proof.
  intros [Hr Hc Hl Hf Hd] Hh Hb. unfold server_publish_template, exec_bind at 1, on_registry, zoom.
  destruct (publish_template header seed height d b (sv_registry s)) as [o r1] eqn:Ep.
  destruct (publish_inv _ _ _ _ _ _ _ _ _ Hr Hh Hb Ep) as (Hr1 & Hses & Hcfg & _).
  assert (rg_next_session_id r1 = rg_next_session_id (sv_registry s)) as Hid.
  { revert Ep. unfold publish_template. repeat case_match; by intros [= <- <-]. }
  assert (∀ r', reg_inv (record_template (rg_current_template r1) published) r' → same_supply r1 r' →
    s' = set_registry r' s →
    server_ok (record_template (rg_current_template (sv_registry s')) published) s' ∧
    sv_router s' = set_router_sessions (sv_registry s') (sv_router s)) as Hdone.
  { intros r' Hr' [S1 S2 S3] ->. cbn. rewrite S3. split; [|done]. constructor; cbn; try done.
    by rewrite S2, Hid. }
  destruct o as [v|x]; [|intros [= <- <-]; by apply (Hdone r1)].
  unfold exec_bind, exec_get, exec_ret. cbv beta iota.
  destruct (notify_clients dup _ [] (set_registry r1 s)) as [o s1] eqn:En.
  destruct (notify_inv (record_template (rg_current_template r1) published) dup _ [] (set_registry r1 s) _ _ Hr1 En)
    as (r' & -> & Hr' & Hsup).
  destruct o; intros [= <- <-]; by apply (Hdone r').
Qed.

Lemma server_call_step published call s :
  server_ok published s → server_call_ok s call →
  server_ok (published_after call published s) (run_server_call call s).
Proof.
  intros Hs Hcall. unfold published_after.
  assert (∀ s', server_ok published s' → rg_current_template (sv_registry s') = rg_current_template (sv_registry s) →
    server_ok (record_template (rg_current_template (sv_registry s')) published) s') as Hsame.
  { intros s' Hs' Ht. rewrite (record_template_same _ _ (sk_registry _ _ Hs')). done. }
  destruct call as [fd|fd id|id line now|dup header seed height d b|c]; cbn [run_server_call server_call_ok] in *.
  - destruct (accept_ok _ _ _ Hs Hcall). by apply Hsame.
  - apply Hsame; [by apply gone_ok|done].
  - destruct (handle_line id line now s) as [resp s'] eqn:E. cbn.
    destruct (line_effect _ _ _ _ _ _ _ Hs Hcall E) as [He Hs']. apply Hsame; [done|].
    apply (os_template _ _ _ (oe_session _ _ _ _ He)).
  - destruct Hcall as [Hh Hb]. destruct (server_publish_template _ _ _ _ _ _ _) as [o s'] eqn:E.
    by eapply publish_server_ok.
  - apply Hsame; [|done]. destruct Hs. by constructor.
Qed.

(** A run of the server, with the templates published in it. *)
Inductive server_run (config : StratumServerConfig) : list StratumTemplate → StratumTcpServer → Prop :=
| run_start chain shared has_handler s :
    is_u64 (sc_minimum_share_difficulty (sg_sessions config)) →
    is_u64 (sc_maximum_share_difficulty (sg_sessions config)) →
    good (default empty_chain chain) →
    new_server config chain shared has_handler = Ok s → server_run config [] s
| run_call published s call :
    server_run config published s → server_call_ok s call →
    server_run config (published_after call published s) (run_server_call call s).

Lemma server_run_ok config published s : server_run config published s → server_ok published s.
Proof.
  induction 1 as [chain shared has_handler s Hmin Hmax Hc Hn|published s call _ IH Hcall].
  - unfold new_server in Hn. res_inv. constructor; cbn; try done.
    + by eapply new_registry_inv.
    + rewrite map_size_empty. lia.
  - by apply server_call_step.
Qed.

(** C31: the sessions of a running server.  Whatever connections, lines, templates and
    changes of the shared chain come, in whatever order: the templates published carry
    the versions 1, 2, 3, ... and the last is current; every piece of work a session
    holds was handed to a logged-in miner and is derived from one of them, with its
    header, seed, height, network difficulty and parent, at a nonzero difficulty no
    higher than the network's and with the target of that difficulty; no more clients
    than configured are connected, and no two share a session. *)
Theorem stratum_invariant config published s :
  server_run config published s →
  (∀ i t, published !! i = Some t → tp_version t = Z.of_nat i + 1) ∧
  current_template (sv_registry s) = last published ∧
  (∀ id ss w, find_session id (sv_registry s) = Some ss → held ss w →
     ss_logged_in ss = true ∧ ss_payout ss = decoded_payout (ss_username ss) ∧
     ∃ t, t ∈ published ∧ from_template id t w) ∧
  (client_count s ≤ sg_max_clients (sv_config s))%nat ∧
  (∀ fd fd' id, sv_client_sessions s !! fd = Some id → sv_client_sessions s !! fd' = Some id → fd = fd').
Proof.
  intros [Hr Hc Hl Hf Hd]%server_run_ok. split_and!; try done.
  - intros i t Hi. apply (ri_versions _ _ Hr _ _ Hi).
  - symmetry. apply Hr.
  - intros id ss w Hs Hw. pose proof (ri_sessions _ _ Hr _ _ Hs) as [_ _ _ _ Hpay Hworks].
    destruct (Hworks w Hw) as [Hin Ht]. split_and!; try done. by rewrite Hpay, Hin.
Qed.

(** C32: what a submission does.  On a running server it is answered in one of five ways.
    Only a session that is logged in, on its current work and with a nonce not used on
    this job before, is credited: then the share it describes is connected, with its
    proof of work and the difficulty the chain expects, and it is a block candidate
    exactly when its hash meets the network's difficulty.  A nonce used on the job is a
    duplicate and changes nothing; a header of the previous work is stale; a refused
    share leaves the connected shares as they were. *)
Theorem submit_routes config published s id submission now mode :
  server_run config published s → clock_ok now → is_u64 (sm_nonce submission) →
  let '(out, router) := submit id submission now mode (sv_router s) in
  sr_sessions router = sv_registry s ∧ submitted id submission now mode (sv_router s) out router.
Proof.
  intros [Hr Hc _ _ _]%server_run_ok Hnow Hn. destruct (submit _ _ _ _ _) as [out router] eqn:E.
  by eapply submit_answer.
Qed.

(** The lines a server writes: a JSON-RPC object and a newline. *)
Definition json_line (root : list (string * json)) : text :=
  c_str (json_to_string_plain (JObject root)) ++ [newline].
Definition response_line (request_id : StratumId) (outcome : string * json) : text :=
  json_line [("jsonrpc", json_string (text_of "2.0")); ("id", json_id request_id); outcome].
Definition success_line (request_id : StratumId) : text := response_line request_id ("result", JBoolean true).
Definition error_line (request_id : StratumId) (code : Z) (message : text) : text :=
  response_line request_id ("error", JObject [("code", JInt code); ("message", JString message)]).

(** The answer of a server [s] to a line of session [id]. *)
Inductive answered (id : Z) (line : text) (now : Z) (s : StratumTcpServer) : text → Prop :=
| an_unparsable x : parse_stratum_request line = Throw x →
    answered id line now s (error_line IdNone (-32700) (text_of (exn_what x)))
| an_unknown request : parse_stratum_request line = Ok request → stratum_method request = UnknownMethod →
    answered id line now s (error_line (rq_id request) (-32601) (text_of "unknown method"))
| an_login request l s1 work s2 :
    parse_stratum_request line = Ok request → stratum_method request = SubmitLogin →
    parse_stratum_login request = Ok l → on_registry (login id l) s = (Ok (), s1) →
    server_issue_work id s1 = (Ok work, s2) →
    answered id line now s (success_line (rq_id request) ++
      json_line [("jsonrpc", json_string (text_of "2.0")); ("result", make_work_array (iw_wire_work work))])
| an_work request work s1 :
    parse_stratum_request line = Ok request → stratum_method request = GetWork →
    server_issue_work id s = (Ok work, s1) →
    answered id line now s (response_line (rq_id request) ("result", make_work_array (iw_wire_work work)))
| an_hashrate request ss :
    parse_stratum_request line = Ok request → stratum_method request = SubmitHashrate →
    find_session id (sv_registry s) = Some ss → ss_logged_in ss = true →
    answered id line now s (success_line (rq_id request))
| an_logged_out request :
    parse_stratum_request line = Ok request → stratum_method request = SubmitHashrate →
    (∀ ss, find_session id (sv_registry s) = Some ss → ss_logged_in ss = false) →
    answered id line now s (error_line (rq_id request) (-32000) (text_of "session is not logged in"))
| an_submitted request submission result router :
    parse_stratum_request line = Ok request → stratum_method request = SubmitWork →
    parse_stratum_submission request = Ok submission →
    submit id submission now Light (sv_router s) = (Ok result, router) →
    answered id line now s
      (if decide (sb_disposition result = SubAcceptedShare ∨ sb_disposition result = SubBlockCandidate)
       then success_line (rq_id request)
       else error_line (rq_id request) (-32000) (text_of (submission_error_message result)))
| an_failed request x s1 :
    parse_stratum_request line = Ok request → dispatch_request id request now s = (Throw x, s1) →
    answered id line now s (error_line (rq_id request) (-32000) (text_of (exn_what x))).

Lemma dispatch_answers id line now s request response s' :
  parse_stratum_request line = Ok request → dispatch_request id request now s = (Ok response, s') →
  answered id line now s response.
Proof.
  intros Hp. unfold dispatch_request. destruct (stratum_method request) eqn:Em; intros E.
  - apply exec_bind_ok in E as (l & s0 & [= El <-] & E). apply exec_bind_ok in E as ([] & s1 & Elog & E).
    apply exec_bind_ok in E as (work & s2 & Ei & [= <- <-]). by eapply an_login.
  - apply exec_bind_ok in E as (work & s1 & Ei & [= <- <-]). by eapply an_work.
  - apply exec_bind_ok in E as (s0 & s1 & [= <- <-] & E).
    destruct (find_session id (sv_registry s)) as [ss|] eqn:Ef.
    + destruct (ss_logged_in ss) eqn:Elog; injection E as <- <-; [by eapply an_hashrate|].
      apply an_logged_out; [done..|]. rewrite Ef. by intros ? [= <-].
    + injection E as <- <-. apply an_logged_out; [done..|]. by rewrite Ef.
  - apply exec_bind_ok in E as (submission & s0 & [= El <-] & E).
    apply exec_bind_ok in E as (result & s1 & Es & E). unfold zoom in Es.
    destruct (submit id submission now Light (sv_router s)) as [o router] eqn:Esub. injection Es as -> <-.
    assert (accepted (sb_disposition result) =
      bool_decide (sb_disposition result = SubAcceptedShare ∨ sb_disposition result = SubBlockCandidate)) as Ea.
    { symmetry. destruct (sb_disposition result); cbn;
        first [apply bool_decide_eq_true_2; auto; fail | apply bool_decide_eq_false_2; by intros [|]]. }
    pose proof (an_submitted id line now s _ _ _ _ Hp Em El Esub) as Ha. rewrite Ea in E.
    case_decide as Hd; [rewrite bool_decide_eq_true_2 in E by done|rewrite bool_decide_eq_false_2 in E by done];
      [apply exec_bind_ok in E as (? & ? & _ & [= <- <-])|injection E as <- <-]; exact Ha.
  - injection E as <- <-. by apply an_unknown.
Qed.

Lemma line_answered id line now s : answered id line now s (handle_line id line now s).1.
Proof.
  unfold handle_line, handle_request. destruct (parse_stratum_request line) as [request|x] eqn:Ep; [|by constructor].
  destruct (dispatch_request id request now s) as [[response|x] s'] eqn:Ed; [by eapply dispatch_answers|by eapply an_failed].
Qed.

(** C33: a line of one miner is its own affair, and it is always answered.  The answer is a
    JSON line with the id of the request: a line that cannot be parsed and an unknown method
    get their error codes, a login its confirmation with work, a query the work, a hashrate
    or a solution its confirmation - a solution exactly if it was credited - or the reason of
    the refusal, and whatever throws on the way is answered with its message; there is no
    silent case.  The line changes nothing of the other sessions, of their nonces, of the
    published template, or of the clients; the shared chain changes at most by [submit_share]
    of one well-formed share. *)
Theorem line_isolated config published s id line now :
  server_run config published s → clock_ok now →
  answered id line now s (handle_line id line now s).1 ∧
  own_effect id now s (handle_line id line now s).2.
Proof.
  intros Hs%server_run_ok Hnow. split; [apply line_answered|].
  destruct (handle_line id line now s) as [resp s'] eqn:E. by destruct (line_effect _ _ _ _ _ _ _ Hs Hnow E).
Qed.

(** ** Nonces *)

Inductive runs_to : StratumTcpServer → StratumTcpServer → Prop :=
| runs_none s : runs_to s s
| runs_call s call s' : server_call_ok s call → runs_to (run_server_call call s) s' → runs_to s s'.

Lemma was_submitted_seen id v n s : was_submitted id v n s = true ↔ (v, n) ∈ seen_nonces s id.
Proof.
  unfold was_submitted, seen_nonces. destruct (sr_submitted_nonces s !! id); cbn; [apply bool_decide_eq_true|].
  split; [done|set_solver].
Qed.

Lemma call_keeps_nonces published call s id :
  server_ok published s → server_call_ok s call →
  seen_nonces (sv_router s) id ⊆ seen_nonces (sv_router (run_server_call call s)) id.
Proof.
  intros Hs Hcall. destruct call as [fd|fd id'|id' line now|dup header seed height d b|c]; cbn in *; try done.
  - unfold accept_client, on_registry, zoom. destruct (_ <=? _)%nat; [done|]. by destruct (create_session _) as [[]].
  - destruct (handle_line id' line now s) as [resp s'] eqn:E. cbn.
    destruct (line_effect _ _ _ _ _ _ _ Hs Hcall E) as [He _].
    destruct (decide (id = id')) as [->|Hne]; [apply (oe_seen _ _ _ _ He)|].
    unfold seen_nonces. by rewrite (oe_nonces _ _ _ _ He).
  - destruct Hcall as [Hh Hb]. destruct (server_publish_template _ _ _ _ _ _ _) as [o s'] eqn:E.
    destruct (publish_server_ok _ _ _ _ _ _ _ _ _ _ Hs Hh Hb E) as [_ Hrt]. cbn. by rewrite Hrt.
Qed.

Lemma runs_keep_nonces s s' : runs_to s s' → ∀ published id, server_ok published s →
  seen_nonces (sv_router s) id ⊆ seen_nonces (sv_router s') id ∧ ∃ published', server_ok published' s'.
Proof.
  induction 1 as [s|s call s' Hcall _ IH]; intros published id Hs; [eauto|].
  destruct (IH _ id (server_call_step _ _ _ Hs Hcall)) as [Hsub Hok]. split; [|done].
  etrans; [|exact Hsub]. by eapply call_keeps_nonces.
Qed.

Lemma on_current_unique id submission s session issued session' issued' :
  on_current id submission s session issued →
  rg_sessions (sr_sessions s) !! id = Some session' → ss_current_work session' = Some issued' →
  session' = session ∧ issued' = issued.
Proof. intros [E1 _ E2 _] E3 E4. simplify_eq. split; [done|]. congruence. Qed.

Lemma submitted_remembers id submission now mode s out s' session issued :
  on_current id submission s session issued → submitted id submission now mode s out s' →
  (iw_job_version issued, sm_nonce submission) ∈ seen_nonces s' id.
Proof.
  assert (∀ key s1, remembered id key s s1 → key ∈ seen_nonces s1 id) as Hrem.
  { intros key s1 Hr. unfold remembered in Hr. unfold seen_nonces at 1. rewrite Hr, lookup_insert_eq. set_solver. }
  intros Hcur [Hno|se wk pr Es Ew Hh|se wk s1 [Es _ Ew _] Hin Hn|se wk o s1 [Es _ Ew _]|se wk r s1 [Es _ Ew _]].
  - destruct Hcur as [Es El Ew Eh]. by destruct (Hno _ _ Es El Ew issued (or_introl Ew)).
  - destruct (on_current_unique _ _ _ _ _ _ _ Hcur Es Ew) as [-> ->]. by destruct Hcur.
  - destruct (on_current_unique _ _ _ _ _ _ _ Hcur Es Ew) as [-> ->]. unfold seen_nonces in *. by rewrite Hn.
  - destruct (on_current_unique _ _ _ _ _ _ _ Hcur Es Ew) as [-> ->]. by apply Hrem.
  - destruct (on_current_unique _ _ _ _ _ _ _ Hcur Es Ew) as [-> ->]. by apply Hrem.
Qed.

Lemma submitted_duplicate id submission now mode s out s' session issued :
  on_current id submission s session issued →
  (iw_job_version issued, sm_nonce submission) ∈ seen_nonces s id →
  submitted id submission now mode s out s' →
  out = Ok (mkSubmitted SubDuplicate NoReject no_id (iw_job_version issued)) ∧
  sr_share_chain s' = sr_share_chain s ∧ sr_submitted_nonces s' = sr_submitted_nonces s.
Proof.
  intros Hcur Hseen
    [Hno|se wk pr Es Ew Hh|se wk s1 [Es _ Ew _] Hin Hn|se wk o s1 [Es _ Ew _]|se wk r s1 [Es _ Ew _]].
  - destruct Hcur as [Es El Ew Eh]. by destruct (Hno _ _ Es El Ew issued (or_introl Ew)).
  - destruct (on_current_unique _ _ _ _ _ _ _ Hcur Es Ew) as [-> ->]. by destruct Hcur.
  - destruct (on_current_unique _ _ _ _ _ _ _ Hcur Es Ew) as [-> ->]. done.
  - destruct (on_current_unique _ _ _ _ _ _ _ Hcur Es Ew) as [-> ->]. done.
  - destruct (on_current_unique _ _ _ _ _ _ _ Hcur Es Ew) as [-> ->]. done.
Qed.

(** C34: a nonce counts once.  After a submission on a job, whatever its outcome and
    whatever other calls the server serves in between, another submission of that
    session with the same nonce on the same job is a duplicate, and the chain and the
    nonces remembered stay as they are. *)
Theorem nonce_counts_once config published s id session issued submission now mode s1 submission' now' mode' :
  server_run config published s → clock_ok now → is_u64 (sm_nonce submission) →
  on_current id submission (sv_router s) session issued →
  runs_to (set_router (submit id submission now mode (sv_router s)).2 s) s1 →
  (∃ session', on_current id submission' (sv_router s1) session' issued) →
  sm_nonce submission' = sm_nonce submission → clock_ok now' →
  let '(out, router) := submit id submission' now' mode' (sv_router s1) in
  out = Ok (mkSubmitted SubDuplicate NoReject no_id (iw_job_version issued)) ∧
  sr_share_chain router = sv_chain s1 ∧ sr_submitted_nonces router = sr_submitted_nonces (sv_router s1).
Proof.
  intros Hs%server_run_ok Hnow Hn Hcur Hruns [session' Hcur'] Hsame Hnow'.
  destruct (submit id submission now mode (sv_router s)) as [out0 rt] eqn:E0. cbn in Hruns.
  pose proof (submit_answer _ _ _ _ _ _ _ _ (sk_registry _ _ Hs) (sk_chain _ _ Hs) Hnow Hn E0) as [Hses Hsub].
  pose proof (submit_offers _ _ _ _ _ _ _ _ (sk_registry _ _ Hs) Hnow Hn E0) as Hoff.
  pose proof (submitted_remembers _ _ _ _ _ _ _ _ _ Hcur Hsub) as Hin.
  assert (server_ok published (set_router rt s)) as Hs0.
  { destruct Hs as [Hr Hc Hl Hf Hd]. constructor; cbn; rewrite ?Hses; try done.
    exact (offered_good _ _ _ Hc Hnow Hoff). }
  destruct (runs_keep_nonces _ _ Hruns published id Hs0) as [Hkeep [published' Hs1]].
  destruct (submit id submission' now' mode' (sv_router s1)) as [out router] eqn:E1.
  rewrite <-Hsame in Hn. assert (is_u64 (sm_nonce submission')) as Hn' by done.
  pose proof (submit_answer _ _ _ _ _ _ _ _ (sk_registry _ _ Hs1) (sk_chain _ _ Hs1) Hnow' Hn' E1) as [_ Hsub'].
  eapply submitted_duplicate; [exact Hcur'| |done]. rewrite Hsame. by apply Hkeep.
Qed.

End Spec.
