(* ===== verification/StratumFlow.v ===== *)
(** Work there and back: the texts a miner echoes, the lines of a connection, and the
    credit for work that was solved. *)
From S2P Require Import Prelude CryptoHash PowTarget Share ShareChain ChainWork ChainInv ChainAdmit ChainHistory.
From S2P Require Import BlockTemplate WorkArchive RpcClient StratumProtocol StratumSession StratumSubmission.
From S2P Require Import SidechainParams StratumServer StratumInv P2pShare StratumSpec.
Local Open Scope pool_scope.

(** ** Texts *)

Lemma hex_value_bytes l : ∀ v, hex_value (bytes_to_hex l) v = Some (v * pow256 (length l) + be_Z l).
Proof.
  induction l as [|b l IH]; intros v; cbn [bytes_to_hex hex_value length].
  { rewrite be_Z_nil. unfold pow256. cbn. f_equal. lia. }
  destruct (nibbles_of_byte b) as (H1 & H2 & _).
  assert (Z.shiftr (byte_to_Z b) 4 * 16 + Z.land (byte_to_Z b) 15 = byte_to_Z b) as E by (by destruct b).
  rewrite !hex_nibble_digit by done. rewrite IH, be_Z_cons. f_equal.
  unfold pow256. rewrite Nat2Z.inj_succ, Z.pow_succ_r by lia. nia.
Qed.

(** A miner that sends back the nonce, the header and the mix hash as the server
    prints such values is understood: the submission read is the one meant. *)
Theorem submission_echo id worker nonce header mix :
  is_u64 nonce →
  parse_stratum_submission
    (mkRequest id (text_of "eth_submitWork")
       [stratum_uint64_hex nonce; zero_x ++ hash_to_hex header; zero_x ++ hash_to_hex mix] worker) =
  Ok (mkSubmission nonce header mix worker).
Proof.
  intros Hn. unfold parse_stratum_submission. rewrite bool_decide_true by done. cbn [negb rq_params].
  assert (∀ h field, parse_hash_hex (zero_x ++ hash_to_hex h) field = Ok h) as Hhash.
  { intros h field. unfold parse_hash_hex. change (strip_hex_prefix (zero_x ++ hash_to_hex h)) with (hash_to_hex h).
    rewrite length_hash_to_hex, hash_hex_id. cbn. unfold mret, res_ret. f_equal. apply arr_of_to_list. }
  assert (parse_hex_u64 (stratum_uint64_hex nonce) = Ok nonce) as ->.
  { unfold parse_hex_u64, stratum_uint64_hex. set (d := bytes_to_hex _).
    change (strip_hex_prefix (zero_x ++ d)) with d.
    assert (length d = 16%nat) as Hl by (unfold d; by rewrite length_bytes_to_hex, length_be_bytes).
    rewrite bool_decide_false by (intros E; by rewrite E in Hl). rewrite Hl. cbn [orb Nat.ltb Nat.leb].
    unfold d. rewrite hex_value_bytes, be_Z_be_bytes, Z.mod_small; [done|].
    change (pow256 8) with (u64_max + 1). unfold is_u64 in Hn. lia. }
  by rewrite !Hhash.
Qed.

Lemma submission_echo_witness :
  sm_nonce <$> parse_stratum_submission
    (mkRequest IdNone (text_of "eth_submitWork")
       [stratum_uint64_hex 255; zero_x ++ hash_to_hex (arr_zero 32); zero_x ++ hash_to_hex (arr_zero 32)] []) = Ok 255.
Proof. rewrite submission_echo; [done|]. by vm_compute. Defined.

(** ** Lines *)

(** The lines of a text that are complete, and what follows the last of them. *)
Fixpoint frame (s : text) : list text * text :=
  match s with
  | [] => ([], [])
  | c :: rest =>
      let '(lines, tail) := frame rest in
      if Ascii.eqb c newline then ([] :: lines, tail)
      else match lines with
           | [] => ([], c :: tail)
           | line :: lines => ((c :: line) :: lines, tail)
           end
  end.

(** The first line of a text, complete or not. *)
Definition head_line (f : list text * text) : text := match f.1 with line :: _ => line | [] => f.2 end.

Lemma split_frame p :
  match split_line p with
  | None => frame p = ([], p)
  | Some (line, rest) => frame p = (line :: (frame rest).1, (frame rest).2) ∧ (length rest < length p)%nat
  end.
Proof.
  induction p as [|c p IH]; [done|]. cbn [split_line frame length]. destruct (Ascii.eqb c newline).
  { destruct (frame p) as [ls t]. cbn. split; [done|lia]. }
  destruct (split_line p) as [[line rest]|].
  - destruct IH as [-> Hl]. split; [done|lia].
  - by rewrite IH.
Qed.

Lemma frame_app a b :
  frame (a ++ b) = ((frame a).1 ++ (frame ((frame a).2 ++ b)).1, (frame ((frame a).2 ++ b)).2).
Proof.
  induction a as [|c a IH]; [cbn; by destruct (frame b)|]. cbn [app frame]. rewrite IH.
  destruct (frame a) as [la ta]. cbn [fst snd]. destruct (Ascii.eqb c newline) eqn:Ec; [done|].
  destruct la as [|l la]; cbn [app fst snd]; [|done].
  cbn [frame app]. rewrite Ec. by destruct (frame (ta ++ b)) as [[|l lb] tb].
Qed.

Lemma head_line_app q r : frame q = ([], q) → head_line (frame (q ++ r)) = q ++ head_line (frame r).
Proof.
  intros Hq. rewrite frame_app, Hq. cbn [fst snd app].
  induction q as [|c q IH]; [cbn; by destruct (frame r)|]. cbn [frame app] in *.
  destruct (frame q) as [lq tq]. destruct (Ascii.eqb c newline) eqn:Ec; [done|].
  destruct lq as [|l lq]; [|done]. injection Hq as ->. specialize (IH eq_refl). cbn [fst snd] in IH.
  destruct (frame (q ++ r)) as [[|l ls] t]; unfold head_line in *; cbn in *; by rewrite IH.
Qed.

Section Loop.
Context `{!ProgPow} `{!JsonC} `{!JsonTokenerEnd}.
Context {W : Type} (unix_time_seconds : W → Z * W) (send_all : text → W → bool * W)
  (consume : W → bool * W).

(** The reference: the lines of a connection, one after the other. *)
Fixpoint serve_lines (id : Z) (lines : list text) (s : StratumTcpServer) (w : W) : bool * StratumTcpServer * W :=
  match lines with
  | [] => (true, s, w)
  | line :: rest =>
      let line := drop_cr line in
      if bool_decide (line = []) then serve_lines id rest s w
      else
      let '(allowed, w) := consume w in
      if negb allowed then (false, s, w)
      else
      let '(now, w) := unix_time_seconds w in
      let '(response, s) := handle_line id line now s in
      if bool_decide (response = []) then serve_lines id rest s w
      else
      let '(sent, w) := send_all response w in
      if negb sent then (false, s, w) else serve_lines id rest s w
  end.

Lemma serve_app id l1 : ∀ l2 s w,
  serve_lines id (l1 ++ l2) s w =
  let '(keep, s, w) := serve_lines id l1 s w in
  if keep : bool then serve_lines id l2 s w else (false, s, w).
Proof.
  induction l1 as [|l l1 IH]; intros l2 s w; cbn [app serve_lines]; [done|]. cbv zeta.
  case_bool_decide; [apply IH|]. destruct (consume w) as [allowed w1]. destruct (negb allowed); [done|].
  destruct (unix_time_seconds w1) as [now w2]. destruct (handle_line _ _ _ _) as [response s'].
  case_bool_decide; [apply IH|]. destruct (send_all _ _) as [sent w3]. destruct (negb sent); [done|apply IH].
Qed.

(** ** The configuration stays *)

Lemma on_registry_config {A} (m : exec StratumSessionRegistry A) s : sv_config (on_registry m s).2 = sv_config s.
Proof. unfold on_registry, zoom. by destruct (m _). Qed.

Lemma issue_config id s : sv_config (server_issue_work id s).2 = sv_config s.
Proof.
  unfold server_issue_work, exec_bind, exec_get, exec_const, exec_throw.
  repeat (case_match; simplify_eq/=; try done; try apply on_registry_config).
Qed.

Lemma handle_line_config id line now s : sv_config (handle_line id line now s).2 = sv_config s.
Proof.
  unfold handle_line, handle_request. destruct (parse_stratum_request line) as [rq|]; [|done].
  assert (sv_config (dispatch_request id rq now s).2 = sv_config s) as Hd.
  2:{ by destruct (dispatch_request id rq now s) as [[]]. }
  unfold dispatch_request. destruct (stratum_method rq); unfold exec_bind, exec_const.
  - destruct (parse_stratum_login rq) as [l|]; [|done]. pose proof (on_registry_config (login id l) s) as E.
    destruct (on_registry _ s) as [[] s1]; [|done]. pose proof (issue_config id s1) as E1.
    destruct (server_issue_work id s1) as [[] s2]; cbn in *; congruence.
  - pose proof (issue_config id s) as E1. by destruct (server_issue_work id s) as [[] s2].
  - unfold exec_get. destruct (find_session _ _) as [ss|]; [destruct (ss_logged_in ss)|]; done.
  - destruct (parse_stratum_submission rq) as [m|]; [|done]. unfold zoom.
    destruct (submit _ _ _ _ _) as [[r|] rt]; [|done]. destruct (accepted _); [|done]. cbn.
    apply (hand_over_fields r (set_router rt s)).
  - done.
Qed.

(** ** The loop *)

Abbreviation line_limit s := (sg_max_line_bytes (sv_config s)).

Lemma drain_serves id : ∀ fuel p s w,
  (length p ≤ fuel)%nat → Forall (λ line, (length line ≤ line_limit s)%nat) (frame p).1 →
  let '(keep, s', w') := serve_lines id (frame p).1 s w in
  ∃ pending, drain unix_time_seconds send_all consume fuel id p s w = (keep, pending, s', w') ∧
    (keep = true → pending = (frame p).2) ∧ sv_config s' = sv_config s.
Proof.
  induction fuel as [|fuel IH]; intros p s w Hl Hall; cbn [drain].
  { destruct p; [|cbn in Hl; lia]. cbn. by exists []. }
  pose proof (split_frame p) as Hf. destruct (split_line p) as [[line rest]|].
  2:{ rewrite Hf in *. cbn. by exists p. }
  destruct Hf as [Hf Hlt]. rewrite Hf in Hall |- *. cbn [fst snd] in *.
  apply Forall_cons in Hall as [Hline Hrest]. rewrite (proj2 (Nat.ltb_ge _ _)) by done.
  cbn [serve_lines]. cbv zeta.
  assert (∀ s1 w1, sv_config s1 = sv_config s →
    let '(keep, s', w') := serve_lines id (frame rest).1 s1 w1 in
    ∃ pending, drain unix_time_seconds send_all consume fuel id rest s1 w1 = (keep, pending, s', w') ∧
      (keep = true → pending = (frame rest).2) ∧ sv_config s' = sv_config s) as Hnext.
  { intros s1 w1 Ecfg. rewrite <-Ecfg. apply IH; [lia|by rewrite Ecfg]. }
  case_bool_decide; [by apply Hnext|].
  destruct (consume w) as [allowed w1]. destruct (negb allowed); [by eexists|].
  destruct (unix_time_seconds w1) as [now w2]. pose proof (handle_line_config id (drop_cr line) now s) as Hcfg.
  destruct (handle_line _ _ _ _) as [response s1]. cbn in Hcfg.
  case_bool_decide; [by apply Hnext|].
  destruct (send_all _ _) as [sent w3]. destruct (negb sent); [by eexists|]. by apply Hnext.
Qed.

Lemma client_loop_serves id buffers : ∀ pending s w,
  frame pending = ([], pending) →
  Forall (λ line, (length line ≤ line_limit s)%nat)
    ((frame (pending ++ concat buffers)).2 :: (frame (pending ++ concat buffers)).1) →
  client_loop unix_time_seconds send_all consume id buffers pending s w =
  let '(_, s', w') := serve_lines id (frame (pending ++ concat buffers)).1 s w in (s', w').
Proof.
  induction buffers as [|b buffers IH]; intros pending s w Hp Hall; cbn [client_loop concat] in *.
  { rewrite app_nil_r, Hp. done. }
  rewrite app_assoc in Hall |- *. set (q := pending ++ b) in *. unfold client_receive. fold q.
  assert (Forall (λ line, (length line ≤ line_limit s)%nat) (frame q).1 ∧
    Forall (λ line, (length line ≤ line_limit s)%nat)
      ((frame ((frame q).2 ++ concat buffers)).2 :: (frame ((frame q).2 ++ concat buffers)).1)) as [Hq Hrest].
  { rewrite frame_app in Hall. cbn [fst snd] in Hall. apply Forall_cons in Hall as [Ht Hls].
    apply Forall_app in Hls as [? ?]. by repeat constructor. }
  assert ((line_limit s <? length q)%nat && bool_decide (split_line q = None) = false) as ->.
  { destruct (bool_decide _) eqn:E; [|by rewrite andb_false_r]. apply bool_decide_eq_true in E.
    pose proof (split_frame q) as Hf. rewrite E in Hf. rewrite andb_true_r. apply Nat.ltb_ge.
    pose proof (head_line_app q (concat buffers) Hf) as Hh. unfold head_line at 1 in Hh.
    apply Forall_cons in Hall as [Ht Hls]. apply (f_equal length) in Hh. rewrite length_app in Hh.
    destruct (frame (q ++ concat buffers)) as [[|l ls] t]; cbn [fst snd] in *; [lia|].
    apply Forall_cons in Hls as [Hl _]. lia. }
  pose proof (drain_serves id (length q) q s w (le_n _) Hq) as Hd.
  rewrite (frame_app q). cbn [fst snd]. rewrite serve_app.
  destruct (serve_lines id (frame q).1 s w) as [[keep s1] w1]. destruct Hd as (pend & -> & Hpend & Hcfg).
  destruct keep; [|done]. rewrite (Hpend eq_refl). apply IH; [|by rewrite Hcfg].
  pose proof (frame_app q []) as Happ. rewrite !app_nil_r in Happ.
  destruct (frame q) as [lq tq]. cbn [fst snd] in *. injection Happ as H1' H2'.
  destruct (frame tq) as [l t]. cbn [fst snd] in *. rewrite H2'. f_equal. 
  apply (f_equal length) in H1'. rewrite length_app in H1'. destruct l; [done|cbn in H1'; lia].
Qed.

(** C35: how a connection's bytes are cut into receive buffers does not matter.  As long as
    no line exceeds the limit, the client loop serves exactly the complete lines of the
    whole stream, in order. *)
Theorem framing_independent id buffers s w :
  Forall (λ line, (length line ≤ line_limit s)%nat) ((frame (concat buffers)).2 :: (frame (concat buffers)).1) →
  client_loop unix_time_seconds send_all consume id buffers [] s w =
  let '(_, s', w') := serve_lines id (frame (concat buffers)).1 s w in (s', w').
Proof. by apply (client_loop_serves id buffers []). Qed.

End Loop.

(** ** Credit *)

Section Credit.
Context `{!ProgPow}.

(** A share whose checks pass is connected. *)
Record connects (c : ShareChain) (share : Share) (id : ShareId) : Prop := {
  cx_id : share_id share = Ok id;
  cx_fresh : fresh_id c id;
  cx_struct : structural_reject_reason c share = NoReject;
  cx_parent : is_root share = true ∨ is_Some (connected c !! parent_id share);
  cx_link : connect_parent_reason c share = Ok NoReject;
  cx_difficulty : expected_difficulty_reject_reason c share = Ok NoReject;
  cx_work : ∀ w, share_work (share_difficulty share) = Ok w → is_Some (connect_work c share w) }.

Lemma connect_passes c share id pow enforce changed rc c' :
  connects c share id → connect_share share id pow enforce changed c = (Ok rc, c') → rc.1 = NoReject.
Proof.
  intros [Hid [Hf _] Hs Hp Hl Hd Hw]. unfold connect_share, exec_bind, exec_const, exec_get, exec_ret, exec_throw, exec_modify.
  destruct (share_work _) as [w|] eqn:Ew; [|done]. rewrite Hl. rewrite bool_decide_true by done. cbn [negb].
  assert (∀ f : ShareRejectReason → exec ShareChain (ShareRejectReason * bool),
    exec_bind (if enforce then exec_const (λ c, expected_difficulty_reject_reason c share) else exec_ret NoReject) f c =
    f NoReject c) as Hb.
  { intros f. unfold exec_bind, exec_const, exec_ret. destruct enforce; [by rewrite Hd|done]. }
  unfold exec_bind, exec_const, exec_ret in Hb. rewrite Hb.
  rewrite bool_decide_true by done. cbn [negb]. destruct (Hw w eq_refl) as [cum ->].
  intros E. repeat (case_match; simplify_eq/=; try done).
Qed.

Lemma admission_connects c share id pow enforce out c' :
  good c → share_wf share → time_ok share → pow_ok pow →
  (enforce = true → enforces_sidechain_difficulty c = true) → connects c share id →
  add_prevalidated_share share pow enforce c = (out, c') → ∃ a, out = Ok a ∧ disposition a = Connected.
Proof.
  intros [Hinv Ht] Hwf Htime Hpow Henf Hx E.
  pose proof (add_prevalidated_outcome c share pow enforce Hinv Hwf Hpow Henf) as Ho. rewrite E in Ho.
  destruct out as [a|x].
  2:{ exfalso. inversion Ho as [? Hcan| | | | |? ? Hbad]; subst; [|by destruct Hbad].
      pose proof (share_id_canonical share) as Hc. rewrite Hcan in Hc. destruct Hc as [y Hc].
      pose proof (cx_id _ _ _ Hx). congruence. }
  exists a. split; [done|]. revert E. unfold add_prevalidated_share, exec_bind, exec_const, exec_get, exec_ret.
  rewrite (cx_id _ _ _ Hx). destruct (fresh_id_spec c id) as [_ Hfr]. rewrite (Hfr (cx_fresh _ _ _ Hx)).
  cbv zeta. rewrite (cx_struct _ _ _ Hx), bool_decide_true by done. cbn [negb].
  assert (negb (is_zero_share_id (parent_id share)) && negb (contains c (parent_id share)) = false) as ->.
  { destruct (cx_parent _ _ _ Hx) as [Hroot|Hpar].
    - unfold is_root in Hroot. by rewrite Hroot.
    - unfold contains. rewrite bool_decide_true by done. by rewrite andb_false_r. }
  destruct (connect_share share id pow enforce false c) as [[rc|] c1] eqn:Ec; [|done].
  pose proof (connect_passes _ _ _ _ _ _ _ _ Hx Ec) as Hrc. rewrite Hrc, bool_decide_true by done. cbn [negb].
  destruct (promote_children _ _ _ _ _) as [[pc|] c2]; [|done]. by intros [= <- <-].
Qed.

(** So is one that is submitted with its proof of work. *)
Lemma submission_connects c share ctx now mode id p :
  good c → share_wf share → clock_ok now → connects c share id →
  zano_height share = ctx_zano_height ctx → mining_header_hash share = ctx_mining_header_hash ctx →
  network_difficulty share = ctx_network_difficulty ctx → timestamp share = now →
  progpowz_available = true →
  progpowz_hash (zano_height share) (mining_header_hash share) (nonce share) mode = Ok p →
  arr_Z (final_hash p) * arr_Z (share_difficulty share) ≤ u256_max →
  ∃ a c', submit_share share ctx now mode c = (Ok a, c') ∧ disposition a = Connected.
Proof.
  intros Hc Hwf Hnow Hx E1 E2 E3 E4 Hav Hp Hmeets.
  pose proof (cx_struct _ _ _ Hx) as Hst. destruct (structural_network_nonzero c share Hst) as [Hsd Hnd].
  apply parse_difficulty_decimal in Hsd, Hnd.
  set (block := bool_decide (arr_Z (final_hash p) * arr_Z (network_difficulty share) ≤ u256_max)).
  set (v := mkValidation p true block (if block then ClassBlock else ClassShare)).
  assert (validate_share share ctx mode = Ok v) as Hv.
  { unfold validate_share, validate_candidate. rewrite <-E1, <-E2, <-E3, Hp. cbn.
    rewrite (hash_meets_difficulty_parsed _ _ _ Hsd), (hash_meets_difficulty_parsed _ _ _ Hnd).
    cbn. by rewrite (bool_decide_true (_ * arr_Z (share_difficulty share) ≤ _)). }
  assert (pow_rejected v = false) as Hpr by (unfold pow_rejected; cbn; by destruct block).
  assert (trusted_context_reject_reason share ctx = NoReject) as Hctx.
  { unfold trusted_context_reject_reason. by rewrite E1, E2, E3, Z.eqb_refl, !arr_eqb_refl. }
  assert (absolute_timestamp_reject_reason share now = NoReject) as Hts.
  { unfold absolute_timestamp_reject_reason. by rewrite E4, Z.ltb_irrefl. }
  pose proof (validated_proven _ _ _ _ _ _ (clock_u64 _ Hnow) Hwf Hst Hctx Hts Hv Hpr) as Hproven.
  unfold submit_share, exec_bind, exec_const, exec_get. rewrite (cx_id _ _ _ Hx).
  destruct (fresh_id_spec c id) as [_ Hfr]. rewrite (Hfr (cx_fresh _ _ _ Hx)). cbv zeta.
  rewrite Hst, Hctx, Hts, !bool_decide_true by done. cbn [negb].
  assert ((if is_zero_share_id (parent_id share) then NoReject
           else match connected c !! parent_id share with
                | None => NoReject
                | Some parent => linked_parent_reason share (cs_share parent)
                end) = NoReject) as ->.
  { pose proof (cx_link _ _ _ Hx) as Hl. unfold connect_parent_reason in Hl.
    destruct (is_zero_share_id _); [done|]. destruct (connected c !! _) as [parent|]; [|done].
    unfold linked_parent_reason. destruct (height_mismatch _ _); congruence. }
  rewrite bool_decide_true by done. cbn [negb].
  rewrite (cx_difficulty _ _ _ Hx), bool_decide_true by done. cbn [negb]. rewrite Hav, Hv, Hpr. cbn [negb].
  destruct (add_prevalidated_share _ _ _ c) as [out c'] eqn:E.
  destruct (admission_connects c share id (Some v) (enforces_sidechain_difficulty c) out c') as (a & -> & Ha); try done.
  - unfold time_ok. rewrite E4. unfold clock_ok, kShareMaxFutureSeconds in Hnow. lia.
  - apply (pv_consistent _ _ _ _ _ Hproven).
  - by exists a, c'.
Qed.

(** What only the moment of the submission decides: the share is new, not too long before its
    parent, and the chain's work does not overflow. *)
Record timely (c : ShareChain) (share : Share) : Prop := {
  ty_fresh : ∀ id, share_id share = Ok id → fresh_id c id;
  ty_parent : ∀ e, connected c !! parent_id share = Some e →
    timestamp (cs_share e) ≤ timestamp share + kShareMaxParentBackstepSeconds;
  ty_work : ∀ e, connected c !! parent_id share = Some e →
    tip_work e + arr_Z (share_difficulty share) ≤ u256_max }.

(** The fields of the share of a submission on work bound to a parent. *)
Lemma submission_fields id t session w submission now c b :
  from_template id t w → iw_parent_binding w = Some b →
  let share := submission_share session w submission now c in
  parent_id share = pb_parent_id b ∧ share_height share = pb_share_height b ∧ timestamp share = now ∧
  zano_height share = tp_height t ∧ mining_header_hash share = tp_header_hash t ∧
  nonce share = sm_nonce submission ∧ share_difficulty share = iw_share_difficulty w ∧
  network_difficulty share = tp_network_difficulty t ∧ share_canonical share = true.
Proof.
  intros Hft Hb. unfold submission_share, submission_parent. rewrite Hb, (ft_context _ _ _ Hft).
  destruct (ss_payout session); cbn; split_and!; try done. unfold share_canonical. cbn. by rewrite arr_eqb_refl.
Qed.

Lemma connect_work_fits c share w :
  share_work (share_difficulty share) = Ok w → is_root share = true ∨ is_Some (connected c !! parent_id share) →
  (∀ e, connected c !! parent_id share = Some e → tip_work e + arr_Z (share_difficulty share) ≤ u256_max) →
  is_Some (connect_work c share w).
Proof.
  intros Hw Hp Hfit. unfold connect_work, is_root in *. destruct (is_zero_share_id _); [done|].
  destruct Hp as [|[e He]]; [done|]. rewrite He. apply Hfit in He as Hsum.
  assert (difficulty128_is_zero (share_difficulty share) = false) as Hz.
  { revert Hw. unfold share_work. by destruct (difficulty128_is_zero _). }
  destruct (share_work_ok _ Hz) as (w' & Hw' & Ew). assert (w' = w) as -> by congruence.
  destruct (add_chain_work_Z (cumulative_work e) w) as [Hok _].
  destruct (add_chain_work_checked _ _) as [sum ok]. cbn in Hok. unfold tip_work in Hsum.
  rewrite Ew, (proj2 (Z.leb_le _ _)) in Hok by lia. subst ok. done.
Qed.

(** Work that was issued under the parent it is bound to is connected. *)
Lemma issued_connects id t session w b submission now c :
  chain_inv c → is_u64 now → from_template id t w → iw_parent_binding w = Some b →
  template_parent_check c b = Ok () →
  (enforces_sidechain_difficulty c = true →
   expected_child_share_difficulty c (pb_parent_id b) (tp_network_difficulty t) = Ok (iw_share_difficulty w)) →
  let share := submission_share session w submission now c in
  (∀ p, difficulty_policy c = Some p →
     dp_minimum_share_version p ≤ version share ≤ dp_maximum_share_version p) →
  timely c share → ∃ sid, connects c share sid.
Proof.
  intros Hinv Hnow Hft Hb Hcheck Hexp share Hver [Hfresh Htime Hwork].
  destruct (submission_fields id t session w submission now c b Hft Hb)
    as (Ep & Eh & Et & _ & _ & _ & Ed & En & Ecan). fold share in Ep, Eh, Et, Ed, En, Ecan.
  pose proof (share_id_canonical share) as Hid. rewrite Ecan in Hid. eexists. pose proof (Hfresh _ Hid) as Hf.
  pose proof (ft_binding _ _ _ Hft b Hb) as Hroot. pose proof (ft_difficulty _ _ _ Hft) as Hd.
  assert (is_root share = true ∨ ∃ e, connected c !! parent_id share = Some e ∧
    height_mismatch share (cs_share e) = false) as Hpar.
  { unfold is_root. rewrite Ep. unfold template_parent_check in Hcheck.
    destruct (arr_eqb _ _) eqn:Ez; bool_prop; [left; by apply is_zero_share_id_spec|right].
    unfold find in Hcheck. destruct (connected c !! _) as [e|]; [|done]. res_inv. bool_prop. exists e. split; [done|].
    unfold height_mismatch. rewrite Eh. apply orb_false_iff. split; [by apply Z.eqb_neq|].
    apply negb_false_iff. by apply Z.eqb_eq. }
  constructor; try done.
  - unfold structural_reject_reason. replace (match difficulty_policy c with Some _ => _ | None => _ end) with false.
    2:{ destruct (difficulty_policy c) as [p|]; [|done]. specialize (Hver p eq_refl).
        rewrite !(proj2 (Z.ltb_ge _ _)) by lia. done. }
    rewrite !difficulty128_is_zero_Z, Ed, En, !(proj2 (Z.eqb_neq _ 0)) by lia.
    rewrite arr_lt_Z, (proj2 (Z.ltb_ge _ _)) by lia. rewrite Eh.
    destruct (is_zero_share_id (parent_id share)) eqn:Ez.
    + apply is_zero_share_id_spec in Ez. rewrite Ep in Ez. apply Hroot in Ez. by rewrite Ez.
    + destruct (Z.eqb_spec (pb_share_height b) 0) as [E0|]; [|done]. exfalso. apply Hroot in E0. rewrite <-Ep in E0.
      apply is_zero_share_id_spec in E0. congruence.
  - destruct Hpar as [?|(e & He & _)]; [by left|right; eauto].
  - unfold connect_parent_reason. unfold is_root in Hpar. destruct (is_zero_share_id _); [done|].
    destruct Hpar as [|(e & He & Hh)]; [done|]. rewrite He, Hh. f_equal. apply Htime in He as Ht.
    unfold parent_timestamp_reject_reason. destruct (Z.leb_spec (timestamp (cs_share e)) (timestamp share)); [done|].
    pose proof (wf_timestamp _ (eo_wf _ _ _ (pi_entry _ _ _ Hinv _ _ He))). unfold kShareMaxParentBackstepSeconds in *.
    cbv zeta. unfold is_u64 in *. rewrite wrap64_id by (unfold is_u64; lia). rewrite (proj2 (Z.ltb_ge _ _)) by lia. done.
  - unfold expected_difficulty_reject_reason. destruct (enforces_sidechain_difficulty c) eqn:Ee; cbn [negb]; [|done].
    destruct (negb _ && negb _); [done|]. rewrite Ep, En, (Hexp eq_refl). cbn. by rewrite Ed, arr_eqb_refl.
  - intros w0 Hw0. apply connect_work_fits; try done. destruct Hpar as [?|(e & He & _)]; [by left|right; eauto].
Qed.

Lemma submit_current id submission now mode s session issued :
  on_current id submission s session issued →
  (iw_job_version issued, sm_nonce submission) ∉ seen_nonces s id →
  ∃ nonces, submit id submission now mode s =
    submit_issued session issued submission now mode (set_submitted nonces s).
Proof.
  intros [Es El Ew Eh] Hn. eexists. unfold submit. unfold exec_bind at 1, exec_get at 1. cbv beta iota zeta.
  unfold find_session. rewrite Es, El, Ew. cbn [negb]. unfold exec_bind at 1, exec_const at 1.
  rewrite (match_current _ _ _ _ _ Es Ew), Eh, arr_eqb_refl. unfold exec_bind at 1, exec_modify at 1.
  cbv beta iota. rewrite bool_decide_false by done. reflexivity.
Qed.

Lemma submit_issued_connected session issued submission now mode s a c' :
  good (sr_share_chain s) → clock_ok now →
  let share := submission_share session issued submission now (sr_share_chain s) in
  share_wf share → submit_share share (iw_trusted_context issued) now mode (sr_share_chain s) = (Ok a, c') →
  disposition a = Connected →
  ∃ r, (submit_issued session issued submission now mode s).1 = Ok r ∧ accepted (sb_disposition r) = true.
Proof.
  intros Hc Hnow share Hwf Es Ha. pose proof (submit_share_cases _ _ _ _ _ _ _ Hc Hwf Hnow Es) as Hs. cbn in Hs.
  rewrite Ha in Hs. destruct Hs as (e & v & Hid & He & _ & Hpow & _).
  unfold submit_issued, exec_bind, exec_get, exec_const, exec_ret, zoom. cbv zeta. fold share.
  rewrite Hid, Es, Ha, bool_decide_true by done. cbn [negb andb sr_share_chain set_router_chain].
  unfold find. rewrite He. cbn [mbind option_bind]. rewrite Hpow. eexists. split; [done|]. cbn. by case_bool_decide.
Qed.

Lemma accepted_answer id submission now mode s session issued r s' :
  on_current id submission s session issued → submitted id submission now mode s (Ok r) s' →
  accepted (sb_disposition r) = true →
  sb_job_version r = iw_job_version issued ∧
  admitted session issued submission now mode (sr_share_chain s) r (sr_share_chain s').
Proof.
  intros Hoc Hans Hacc.
  inversion Hans as [| | |? ? ? ? _ _ _ _ Hrej|session' issued' ? ? [F1 _ F2 _] _ _ _ Hj Had]; subst; try done.
  - by rewrite Hrej in Hacc.
  - by destruct (on_current_unique _ _ _ _ _ _ _ Hoc F1 F2) as [-> ->].
Qed.

(** The session that was issued work. *)
Lemma issued_session published id cd b r w r' ss' :
  issued published id cd b r (Ok w) r' → rg_sessions r' !! id = Some ss' →
  ∃ t, rg_current_template r = Some t ∧ from_template id t w ∧
    ss_current_work ss' = Some w ∧ ss_logged_in ss' = true ∧ ∀ d, cd = Some d → iw_share_difficulty w = d.
Proof.
  intros Hi. inversion Hi as [|t ss ss0 w0 Et _ _ Hft Hcur Hlog _ _ _ Hcd _]; subst. cbn.
  rewrite lookup_insert_eq. intros [= <-]. by exists t.
Qed.

Context `{!JsonC} `{!JsonTokenerEnd}.

(** The chain takes payout shares, version 2, and no others: the policy of the default
    parameters. *)
Definition payout_shares_only (c : ShareChain) : Prop :=
  ∃ p, difficulty_policy c = Some p ∧
    dp_minimum_share_version p = kShareVersion2 ∧ dp_maximum_share_version p = kShareVersion2.

Lemma default_payout_shares_only c : new_chain default_sidechain_parameters = Ok c → payout_shares_only c.
Proof. vm_compute. intros [= <-]. eexists. split; [reflexivity|done]. Qed.

(** A share of another version is refused before anything else about it is asked. *)
Lemma submit_issued_refused session issued submission now mode s :
  payout_shares_only (sr_share_chain s) → ss_payout session = None →
  let share := submission_share session issued submission now (sr_share_chain s) in
  share_canonical share = true → (∀ id, share_id share = Ok id → fresh_id (sr_share_chain s) id) →
  ∃ id, submit_issued session issued submission now mode s =
    (Ok (mkSubmitted SubRejected UnexpectedShareVersion id (iw_job_version issued)), s).
Proof.
  intros (p & Hp & Hmin & Hmax) Hpay share Hcan Hfresh.
  pose proof (share_id_canonical share) as Hid. rewrite Hcan in Hid. specialize (Hfresh _ Hid).
  destruct (fresh_id_spec (sr_share_chain s) (cn_fast_hash (share_layout share))) as [_ Hfr].
  assert (structural_reject_reason (sr_share_chain s) share = UnexpectedShareVersion) as Hst.
  { unfold structural_reject_reason. rewrite Hp, Hmin. replace (version share) with kShareVersion1; [done|].
    unfold share, submission_share. rewrite Hpay. by destruct (submission_parent _ _). }
  eexists. unfold submit_issued, exec_bind, exec_get, exec_const, exec_ret, zoom, submit_share. cbv zeta. fold share.
  unfold exec_bind, exec_get, exec_const, exec_ret. rewrite Hid, (Hfr Hfresh), Hst. by destruct s.
Qed.


End Credit.
