(* ===== verification/TrustDemo.v ===== *)
(** A trust crossing run to its end: a toy curve library, a block template whose
    coinbase pays one miner in two outputs, and the promotion of its context. *)
From S2P Require Import Prelude CryptoHash PowTarget Share SidechainParams P2pProtocol P2pShare.
From S2P Require Import Pplns PplnsCoinbase ShareChain MiningHeader BlockTemplate MiningContext.
From S2P Require Import ZanoCurve MinerTxBinding PayoutPolicy MinerTxProofs ContextTrust.
From S2P Require Import Demo HistoricalTrust.
Local Open Scope pool_scope.

Lemma empty_registry_ok : registry_ok ∅.
Proof. intros h header parent e. by rewrite lookup_empty. Qed.

(** ** A toy curve: the integers, with every proof accepted *)

Definition toy_curve : ZanoCrypto := {|
  have_zano_curve := true;
  scalar_t := Z;
  point_t := Z;
  secret_key_to_public_key := Some;
  generate_key_derivation view _ := Some view;
  derive_public_key d i spend := Some (fill_be 32 (arr_Z d + arr_Z spend + Z.of_nat i));
  scalar_of_key := arr_Z;
  scalar_of_u64 z := z;
  is_reduced _ := true;
  scalar_eqb := Z.eqb;
  point_of_key k := Ok (arr_Z k);
  to_public_key p := fill_be 32 p;
  modify_mul8 p := 8 * p;
  point_add := Z.add;
  point_sub := Z.sub;
  point_mul := Z.mul;
  point_eqb a b := (a - b) mod 2 ^ 256 =? 0;
  c_point_0 := 0;
  c_point_G := 8;
  c_point_H := 8 * arr_Z kNativeCoinAssetId1Div8;
  c_point_U := 8;
  verify_double_schnorr_sig _ _ _ _ := true;
  c_bpp_values_max := 32;
  c_bpp_log2_n := 6;
  bpp_verify _ _ := true;
  calc_hash _ := be_Z demo_key |}.

(** ** The transaction *)

Definition trust_payout : PayoutPublicKeys := mkPayout (fill_be 32 901) (fill_be 32 902).
Definition trust_reward : Z := 1000000000000.
Definition trust_amounts : list Z := [400000000000; 600000000000].
Definition trust_masks : list Z := [5; 6].
Definition trust_tx_key : ZanoCurveKey := fill_be 32 4242.

(** A little-endian scalar. *)
Definition scalar_hex (z : Z) : text := bytes_to_hex (rev (be_bytes 32 z)).
Definition comma_list (l : list text) : text :=
  match l with
  | [] => []
  | x :: rest => x ++ concat ((λ y, Ascii.ascii_of_nat 44 :: y) <$> rest)
  end.

Definition trust_json : JsonC := {|
  json_tokener_parse _ := mkParsed true "success" (JObject [
    ("tx_key", JString (bytes_to_hex (vec_to_list trust_tx_key ++ vec_to_list trust_tx_key)));
    ("amounts", JString (comma_list (scalar_hex <$> trust_amounts)));
    ("amount_blinding_masks",
      JString (comma_list ((λ z, bytes_to_hex (be_bytes 32 z)) <$> trust_masks)));
    ("asset_id_blinding_masks", JString (comma_list (scalar_hex <$> [0; 0])))]);
  json_to_string_plain _ := String.list_ascii_of_string "{}" |}.

Definition trust_output (i : nat) : list byte :=
  [Byte.x3f; Byte.x00] ++ be_bytes 32 (901 + 902 + Z.of_nat i) ++ demo_key ++
  be_bytes 32 (trust_amounts !!! i * arr_Z kNativeCoinAssetId1Div8 + trust_masks !!! i) ++
  vec_to_list kNativeCoinAssetId1Div8 ++ replicate 17 Byte.x00.

Definition trust_prefix : list byte :=
  [Byte.x04; Byte.x01; Byte.x00] ++ varint_bytes 1000 ++ [Byte.x01; Byte.x16] ++
  vec_to_list trust_tx_key ++ [Byte.x02] ++ trust_output 0 ++ trust_output 1 ++ [Byte.x06].

Definition trust_block : list byte :=
  [Byte.x03] ++ replicate 8 Byte.x00 ++ vec_to_list (fill_be 32 77) ++
  [Byte.x00] ++ varint_bytes 1700000000 ++ [Byte.x00] ++ trust_prefix ++
  [Byte.x00; Byte.x00; Byte.x02; Byte.x2f] ++ demo_keys 7 ++ demo_keys 7 ++
  concat (replicate 6 demo_key) ++ demo_keys 2 ++ demo_keys 2 ++ demo_keys 2 ++ demo_key ++
  [Byte.x30] ++ concat (replicate 3 demo_key) ++ [Byte.x00].

Definition trust_work : MiningHeaderWork :=
  Eval vm_compute in
    match derive_mining_header_work trust_block with
    | Ok w => w
    | Throw _ => demo_work
    end.

Definition trust_proposal : P2pMiningContextProposal :=
  mkProposal 1 1000 (fill_be 32 77) (fill_be 16 5000000000) (arr_zero 32) trust_reward
    trust_reward 0 trust_block (String.list_ascii_of_string "{}").
Definition trust_envelope : P2pEnvelope :=
  mkEnvelope kP2pProtocolVersion MiningContextAnnounce 0 (context_layout trust_proposal).
Definition trust_anchor : P2pMiningAnchor := proposal_anchor trust_proposal.
Definition trust_plan : PplnsCoinbasePlan :=
  mkPlan Ready trust_reward [mkDest (miner_id_from_payout trust_payout) trust_payout trust_reward].

#[local] Existing Instance toy_curve.
#[local] Existing Instance trust_json.

Lemma trust_work_ok : derive_mining_header_work trust_block = Ok trust_work.
Proof. vm_compute. reflexivity. Qed.

Lemma trust_proposal_wf : proposal_wf trust_proposal.
Proof. by split. Qed.

Lemma trust_proposal_valid : proposal_valid trust_proposal.
Proof. vm_compute. reflexivity. Qed.

Lemma trust_proposal_serializes :
  serialize_p2p_mining_context_payload trust_proposal = Ok (context_layout trust_proposal).
Proof. apply serialize_context_ok. split; [exact trust_proposal_valid|reflexivity]. Qed.

Definition trust_check : P2pMiningContextCheckResult :=
  mkCheck AnchoredUnverifiedMinerTx (cn_fast_hash (context_layout trust_proposal))
    (mw_header_hash trust_work) 0.

Lemma trust_id : p2p_mining_context_id trust_proposal = Ok (ck_proposal_id trust_check).
Proof. unfold p2p_mining_context_id. by rewrite trust_proposal_serializes. Qed.

Lemma trust_parses : parse_p2p_mining_context_envelope trust_envelope = Ok trust_proposal.
Proof. exact (deserialize_context_layout trust_proposal trust_proposal_wf trust_proposal_valid). Qed.

Lemma trust_bindings : require_current_hf6_structural_bindings trust_proposal trust_work = Ok ().
Proof. vm_compute. reflexivity. Qed.

Lemma trust_structure :
  validate_p2p_mining_context_structure trust_proposal = Ok (mw_header_hash trust_work).
Proof.
  unfold validate_p2p_mining_context_structure.
  replace (pp_block_template_blob trust_proposal) with trust_block by done.
  rewrite trust_work_ok. cbn [mbind res_bind]. by rewrite trust_bindings.
Qed.

Lemma trust_inspect :
  inspect_p2p_mining_context demo_context_peer trust_envelope trust_anchor = Ok trust_check.
Proof.
  unfold inspect_p2p_mining_context. rewrite trust_parses. cbn [mbind res_bind].
  rewrite trust_id. replace (pp_block_template_blob trust_proposal) with trust_block by done.
  rewrite trust_work_ok. cbn [mbind res_bind]. rewrite trust_bindings. reflexivity.
Qed.

(** The proofs, once the header is derived. *)
Lemma trust_proofs :
  balance_status trust_proposal trust_check = Ok BalanceVerifiedRangePending ∧
  range_status trust_proposal trust_check = Ok ProofsVerified.
Proof.
  unfold balance_status, range_status.
  replace (pp_block_template_blob trust_proposal) with trust_block by done.
  rewrite trust_work_ok. cbn [mbind res_bind]. split; vm_compute; reflexivity.
Qed.

Definition trust_tx : list byte := mp_serialized (mw_miner_tx_prefix trust_work).

Lemma trust_plan_verified : po_status (verify_miner_tx_plan_policy trust_tx
  (pp_miner_tx_tgc_json trust_proposal) trust_reward trust_reward 0 trust_plan) = PolVerified.
Proof. vm_compute. reflexivity. Qed.

Lemma trust_gated verify :
  po_status (verify trust_tx) = PolVerified →
  gated trust_proposal trust_check verify = Ok (mkProof ProofsVerified PolVerified).
Proof.
  intros Hv. destruct trust_proofs as [Hb Hr].
  by apply (gated_accepts _ _ _ trust_work trust_id eq_refl trust_work_ok).
Qed.

(** A promotion of the template, whatever the payout gate that accepts it. *)
Lemma trust_promotes parent (policy : P2pMiningContextProposal → list byte → P2pPayoutPolicyResult) :
  po_status (policy trust_proposal trust_tx) = PolVerified →
  ∃ r m', promote_p2p_mining_context_impl demo_context_peer trust_envelope trust_anchor parent
    (λ p check, gated p check (policy p)) ∅ = (Ok r, m') ∧ tr_status r = Trusted.
Proof.
  intros Hv. unfold promote_p2p_mining_context_impl, exec_bind, exec_const.
  rewrite trust_inspect. cbn [ck_status trust_check]. rewrite trust_parses, (trust_gated _ Hv).
  rewrite bool_decide_true by done. cbn [negb exec_get]. unfold remember_canonical.
  eexists _, _. split; [reflexivity|done].
Qed.

Lemma trust_plan_promotes : ∃ r m',
  promote_p2p_mining_context demo_context_peer trust_envelope trust_anchor (fill_be 32 9)
    trust_plan ∅ = (Ok r, m') ∧ tr_status r = Trusted.
Proof.
  exact (trust_promotes (fill_be 32 9) (λ p prefix, verify_miner_tx_plan_policy prefix
    (pp_miner_tx_tgc_json p) (pp_block_reward_without_fee p) (pp_block_reward p) (pp_txs_fee p)
    trust_plan) trust_plan_verified).
Qed.

(** The hypotheses of [plan_policy_exact] hold of the plan. *)
Lemma trust_plan_u64 : Forall (λ d, is_u64 (dest_amount d)) (destinations trust_plan).
Proof. repeat constructor; cbn; unfold is_u64, trust_reward, u64_max; lia. Qed.

Lemma plan_policy_witness : ∃ outputs tgc assign,
  opened trust_tx (pp_miner_tx_tgc_json trust_proposal) outputs tgc ∧
  pays_plan tgc outputs (destinations trust_plan) assign.
Proof.
  destruct (plan_policy_exact trust_tx (pp_miner_tx_tgc_json trust_proposal) trust_reward
    trust_reward 0 trust_plan trust_plan_u64) as [[Hv _] _].
  destruct (Hv trust_plan_verified) as (_ & _ & _ & _ & _ & Hpays). exact Hpays.
Defined.

Lemma gates_read_witness : ∃ outputs, parse_current_outputs trust_tx = Ok outputs.
Proof.
  destruct (parse_proof_inputs trust_tx) as [inputs|e] eqn:E.
  - destruct (gates_read_same_outputs trust_tx inputs E) as (_ & outputs & Ho & _).
    exists outputs. exact Ho.
  - exfalso. vm_compute in E. discriminate E.
Defined.

Lemma promotion_witness : ∃ r m' p w,
  crossing trust_envelope trust_anchor (fill_be 32 9) ∅ m' r p w ∧
  coinbase_pays trust_plan p w ∧ proofs_hold p w.
Proof.
  destruct trust_plan_promotes as (r & m' & Hp & Hr).
  pose proof (promotion_sound demo_context_peer trust_envelope trust_anchor (fill_be 32 9)
    trust_plan ∅ empty_registry_ok trust_plan_u64) as Hs.
  rewrite Hp, Hr, bool_decide_true in Hs by reflexivity.
  destruct Hs as (_ & p & w & Hc). exists r, m', p, w. exact Hc.
Defined.

(** ** A candidate root whose work is retrieved *)

Definition trust_root : Share :=
  mkShare 2 (arr_zero 32) 0 1700000000 1000 (mw_header_hash trust_work) 1 (fill_be 16 1000)
    (fill_be 16 5000000000) (miner_id_from_payout trust_payout) (Some trust_payout).

Definition trust_lookup (height : Z) : exec () RpcCanonicalHeader :=
  exec_ret (mkCanonical height (fill_be 32 77)).

Lemma trust_root_id : ∃ id, share_id trust_root = Ok id.
Proof.
  unfold share_id. assert (share_canonical trust_root = true) as Hc.
  { unfold share_canonical. cbn. by rewrite ?arr_eqb_refl. }
  rewrite (proj2 (serialize_share_ok _ _) (conj Hc eq_refl)). by eexists.
Qed.

Lemma trust_audit : audit_historical_local_anchor trust_lookup None trust_proposal [trust_anchor] () =
  (Ok (mkAnchorResult AnchorMatchedUntrusted (mw_header_hash trust_work) 1), ()).
Proof.
  unfold audit_historical_local_anchor, exec_bind at 1, exec_const at 1.
  assert (progpowz_seed (pp_zano_height trust_proposal) = Ok (arr_zero 32)) as ->
    by (vm_compute; reflexivity).
  unfold exec_bind at 1, audit_historical_parent.
  assert ((pp_zano_height trust_proposal =? 0) = false) as -> by done.
  unfold exec_bind at 1, exec_const at 1. rewrite trust_structure.
  vm_compute. reflexivity.
Qed.

Lemma trust_bootstrap_promotes : ∃ r m',
  promote_bootstrap_p2p_mining_context demo_context_peer trust_envelope trust_anchor ∅ =
    (Ok r, m') ∧ tr_status r = Trusted.
Proof.
  refine (trust_promotes (arr_zero 32) (λ p prefix, verify_miner_tx_bootstrap_policy prefix
    (pp_miner_tx_tgc_json p) (pp_block_reward_without_fee p) (pp_block_reward p) (pp_txs_fee p)) _).
  vm_compute. reflexivity.
Qed.

Lemma trust_envelope_made : make_p2p_mining_context_envelope trust_proposal = Ok trust_envelope.
Proof. unfold make_p2p_mining_context_envelope. by rewrite trust_proposal_serializes. Qed.

Lemma trust_historical : ∃ r m',
  promote_historical_mining_context trust_lookup None demo_chain demo_params trust_root
    demo_context_peer trust_proposal [trust_anchor] (∅, ()) = (Ok r, (m', ())) ∧
  ht_status r = HistTrusted.
Proof.
  unfold promote_historical_mining_context. destruct trust_root_id as [id ->].
  unfold exec_bind at 1, exec_const at 1. rewrite trust_structure.
  assert (is_zero_share_id (parent_id trust_root) = true) as Hz by (vm_compute; reflexivity).
  assert (bootstrap_shape trust_root = true) as Hb.
  { unfold bootstrap_shape. cbn. by rewrite arr_eqb_refl. }
  rewrite Hz, Hb. cbn [andb negb].
  assert (negb (zano_height trust_root =? pp_zano_height trust_proposal)
    || negb (arr_eqb (mining_header_hash trust_root) (mw_header_hash trust_work))
    || negb (arr_eqb (network_difficulty trust_root) (pp_network_difficulty trust_proposal)) = false)
    as -> by (vm_compute; reflexivity).
  unfold exec_bind at 1, on_world at 1. cbn [fst snd]. rewrite trust_audit.
  cbn [ha_status ha_mining_header_hash]. rewrite bool_decide_true by done. rewrite arr_eqb_refl.
  cbn [negb]. unfold exec_bind at 1, exec_ret at 1. unfold exec_bind at 1, on_world at 1.
  cbn [fst snd]. rewrite trust_audit. cbn [ha_status ha_mining_header_hash].
  rewrite bool_decide_true by done. rewrite arr_eqb_refl. cbn [negb orb].
  unfold exec_bind at 1, exec_const at 1. rewrite trust_envelope_made.
  destruct trust_bootstrap_promotes as (r & m' & Hp & Hr).
  unfold exec_bind, on_state. cbn [fst snd]. fold trust_anchor.
  rewrite Hp.
  eexists _, _. split; [reflexivity|]. cbn. by rewrite bool_decide_true.
Qed.

Lemma historical_trust_witness : ∃ m' payout w, candidate_entry trust_root ∅ m' ∧
  historical_evidence trust_lookup None demo_chain demo_params trust_root trust_proposal
    [trust_anchor] payout w.
Proof.
  destruct trust_historical as (r & m' & Hp & Hr).
  pose proof (historical_trust_sound trust_lookup None demo_chain demo_params trust_root
    demo_context_peer trust_proposal [trust_anchor] ∅ ()
    empty_registry_ok demo_params_wf trust_proposal_wf) as Hs.
  rewrite Hp in Hs. cbn [fst snd] in Hs. rewrite Hr, bool_decide_true in Hs by reflexivity.
  destruct Hs as (_ & Hc & w & He). exists m', (ht_payout r), w. split; [exact Hc|exact He].
Defined.
