(* ===== verification/RestartDemo.v ===== *)
(** The restart theorems on the concrete pool: the verdicts of three shares saved
    and restored, and a recovery pass over the same shares. *)
From S2P Require Import Prelude CryptoHash PowTarget Share SidechainParams Difficulty ShareChain.
From S2P Require Import ChainWork ChainInv ChainPromote ChainAdmit ChainReplay ChainPrune.
From S2P Require Import ChainHistory Demo ReplayStore MiningHeader BlockTemplate MiningContext.
From S2P Require Import ShareStore P2pShare WorkArchive HistoricalTrust Restart TrustDemo.
Local Open Scope pool_scope.

#[local] Existing Instance demo_pow.
#[local] Existing Instance trust_json.

Definition demo_prev : Hash256 := fill_be 32 77.

Lemma demo_prev_nonzero : demo_prev ≠ arr_zero 32.
Proof. apply arr_eqb_false. by vm_compute. Qed.

Lemma demo_v3_matches : matches_sidechain_parameters demo_v3 demo_params = Ok true.
Proof. unfold demo_v3, demo_v1, demo_u3, demo_reval. demo_unfold. vm_compute. reflexivity. Qed.

Lemma demo_within : export_beyond demo_v3 3000000 (omap entry_record (snapshot_entries demo_v3)) = Ok false.
Proof. unfold demo_v3, demo_v1, demo_u3, demo_reval. demo_unfold. vm_compute. reflexivity. Qed.

Definition demo_saved (n : nat) : RestartReplayValidationPersistResult :=
  mkPersist CacheSaved (Some (mkCheckpoint (3000000 - 1) demo_prev)) n n.
Lemma demo_height_u64 : is_u64 3000000.
Proof. done. Qed.
Lemma demo_stable : stable_at trust_lookup (3000000 - 1) demo_prev () ().
Proof. exists (). by split. Qed.

(** Persisting, once the parts are known. *)
Lemma persist_runs c params sid records f :
  matches_sidechain_parameters c params = Ok true → replay_validation_snapshot c = Ok records →
  export_beyond c 3000000 records = Ok false →
  snapshot_valid (sorted_snapshot (mkSnapshot (mkCheckpoint (3000000 - 1) demo_prev) records)) →
  ∃ f', persist_replayed_validation_cache trust_lookup c params sid 3000000 demo_prev (f, ()) =
    (Ok (demo_saved (length records)), (f', ())).
Proof.
  intros Hm Hs Hb Hv. unfold persist_replayed_validation_cache, exec_bind, exec_const, on_world, on_state.
  rewrite Hm. cbn [negb].
  assert (stable_canonical_parent_for_work_height trust_lookup 3000000 () = (Ok demo_prev, ())) as Hst
    by (vm_compute; reflexivity).
  assert (arr_eqb demo_prev (arr_zero 32) = false) as Hz by (apply arr_eqb_false, demo_prev_nonzero).
  change (3000000 =? 0) with false. rewrite Hz. cbn [fst snd]. rewrite Hst, Hz, arr_eqb_refl.
  cbn [negb]. rewrite Hs, Hb. cbn [fst snd].
  destruct (save_cases sid (mkSnapshot (mkCheckpoint (3000000 - 1) demo_prev) records) f
    ltac:(done)) as [[_ ->]|[Hno _]]; [|done]. by eexists.
Qed.

Lemma demo_persist : ∃ f' n,
  persist_replayed_validation_cache trust_lookup demo_v3 demo_params (fill_be 32 7) 3000000
    demo_prev (None, ()) =
  (Ok (demo_saved n), (f', ())).
Proof.
  destruct (persist_runs demo_v3 demo_params (fill_be 32 7) _ None demo_v3_matches demo_snapshot_ok
    demo_within (chain_snapshot_valid demo_v3 _ (3000000 - 1) _
      (proj1 (@reachable_good demo_pow _ (proj1 demo_v3_ok))) demo_ids_nonzero (Permutation_refl _)
      ltac:(done) demo_prev_nonzero demo_snapshot_length)) as [f' Hf]. eauto.
Qed.

Lemma cache_restart_witness : ∃ f' n k,
  restore_replayed_validation_cache trust_lookup demo_params (fill_be 32 7) f' (demo_u3, ()) =
  (Ok (mkRestore CacheRestored (Some (mkCheckpoint (3000000 - 1) demo_prev)) n k), (demo_v3, ())).
Proof.
  destruct demo_persist as (f' & n & Hp). exists f', n.
  pose proof (@cache_restart demo_pow () trust_lookup demo_params (fill_be 32 7) 3000000 demo_prev
    demo_v3 demo_u3 None () (demo_saved n) f' () demo_prev () () (proj1 demo_v3_ok) demo_u3_reachable
    (proj2 demo_v3_ok) demo_ids_nonzero demo_height_u64 Hp eq_refl demo_prev_nonzero demo_stable) as Hr.
  apply proj2 in Hr.
  cbv zeta in Hr. rewrite bool_decide_true in Hr by reflexivity.
  destruct Hr as [k Hk]. exists k. exact Hk.
Defined.

