(* ===== verification/NodeDemo.v ===== *)
(** The theorems of the node protocol on a concrete node: the demo chain, a daemon
    that always answers and a runtime that drops what it is given. *)
From S2P Require Import Prelude CryptoHash PowTarget Share SidechainParams Difficulty ShareChain.
From S2P Require Import ChainWork ChainInv ChainPromote ChainAdmit ChainReplay ChainPrune.
From S2P Require Import ChainHistory Demo ChainSpec P2pProtocol P2pShare P2pSync P2pSpec.
From S2P Require Import MiningHeader BlockTemplate MiningContext WorkArchive WorkRetrieval ZanoCurve.
From S2P Require Import MinerTxProofs ContextTrust HistoricalTrust Restart NodeState NodeLogic NodeInv.
From S2P Require Import P2pNode NodeSpec NodeHandle NodeReconcile NodeCalls NodeResume TrustDemo.
Local Open Scope pool_scope.
#[local] Existing Instance demo_pow.
#[local] Existing Instance trust_json.
#[local] Existing Instance toy_curve.

Definition demo_runtime : P2pRuntime () :=
  mkRuntime () (λ _, [demo_peer]) (λ _ _ w, w) (λ _ _ w, (true, w)) (λ _ _ w, w).

Definition demo_sources : HistoricalSources () :=
  mkSources demo_params (λ _, exec_ret [trust_anchor]) trust_lookup (λ _, exec_ret None).

(** The replayed chain, with work of the child on record under another Zano
    block than the daemon's. *)
Definition replay_entry : WorkEntry := mkWorkEntry demo_ctx (Some (fill_be 32 501)).
Definition replay_registry : P2pTrustedWorkRegistry :=
  {[ (3000000, fill_be 32 77, demo_root_id) := replay_entry ]}.
Definition replay_node : P2pNodeProtocol () :=
  set_sources demo_sources (new_node demo_u3 replay_registry).

Lemma demo_u3_good : good demo_u3.
Proof. exact (reachable_good _ demo_u3_reachable). Qed.

Lemma fresh_node_ok : node_ok (new_node (W := ()) demo_u3 ∅).
Proof. apply (new_node_ok demo_runtime), demo_u3_good. Qed.

Definition child_entry : ConnectedShare :=
  Eval vm_compute in default (mkConnected demo_child demo_child_id (arr_zero 32) None false)
    (connected demo_u3 !! demo_child_id).
Lemma demo_u3_child : connected demo_u3 !! demo_child_id = Some child_entry.
Proof. unfold demo_u3. demo_unfold. vm_compute. reflexivity. Qed.

Lemma child_conflicts : conflicting_parent replay_registry 3000000 (fill_be 32 502) child_entry = true.
Proof.
  unfold conflicting_parent, find_zano_parent_hash, replay_registry.
  change (zano_height (cs_share child_entry), mining_header_hash (cs_share child_entry),
    parent_id (cs_share child_entry)) with (3000000, fill_be 32 77 : Hash256, demo_root_id).
  rewrite lookup_singleton_eq. vm_compute. reflexivity.
Qed.

(** The daemon's block at the child's height is another one than the recorded:
    the child goes. *)
Lemma reconcile_witness : ∃ k r n',
  reconcile_canonical_parent 3000000 (fill_be 32 502) replay_node = (Ok (mkReconciled k r), n') ∧
  connected (np_chain n') !! demo_child_id = None.
Proof.
  destruct (reconcile_exact replay_node 3000000 (fill_be 32 502) (proj1 demo_u3_good))
    as (k & r & n' & Hr & Hrc & _).
  exists k, r, n'. split; [exact Hr|].
  destruct (connected (np_chain n') !! demo_child_id) as [e|] eqn:E; [|reflexivity].
  apply (rc_connected _ _ _ _ _ _ Hrc) in E as [_ Hno].
  exfalso. exact (Hno demo_child_id child_entry demo_u3_child child_conflicts (rtc_refl _ _)).
Defined.

(** A peer announces the root to a node on an empty chain. *)
Definition root_envelope : P2pEnvelope :=
  mkEnvelope kP2pProtocolVersion ShareAnnounce 0 (share_layout demo_root).
Definition announce_root : node_call (W := ()) := CallHandle demo_peer root_envelope demo_now Light.

Lemma demo_chain_good : good demo_chain.
Proof. exact (reachable_good _ demo_chain_reachable). Qed.

Lemma node_refines_witness :
  let n := new_node (W := ()) demo_u3 ∅ in
  let n' := (run_call demo_runtime announce_root (n, ())).2.1 in
  node_ok n' ∧ rtc (node_move (who := FromPeers demo_now Light) n) (view n) (view n') ∧
  same_config n n'.
Proof.
  destruct (node_refines demo_runtime announce_root (new_node demo_u3 ∅) () fresh_node_ok demo_clock)
    as (Hn & Hm & Hc).
  split; [exact Hn|split; [exact Hm|exact (Hc eq_refl)]].
Defined.

Lemma announce_steps : node_step demo_runtime (new_node demo_chain ∅)
  (run_call demo_runtime announce_root (new_node demo_chain ∅, ())).2.1.
Proof. apply step_call. exact demo_clock. Qed.


(** The child waits for its root, on a node without historical sources: the root
    has its turn, and the child leaves the table. *)
Definition waiting_node : P2pNodeProtocol () :=
  set_deferred_historical {[ demo_child_id := mkDeferred demo_child demo_peer
    (mkEvidence trust_proposal demo_peer 0) 0 demo_child_id 0 ]} (new_node demo_u3 ∅).

Lemma waiting_child_attempted : ∃ l,
  resume_ready demo_now Light (ready_children waiting_node demo_root_id) (new_pass demo_peer, (waiting_node, ()))
  = (Ok [], (l, (set_deferred_historical ∅ waiting_node, ()))).
Proof.
  assert (ready_children waiting_node demo_root_id = [demo_child_id]) as ->.
  { unfold ready_children, waiting_node. cbn [np_deferred_historical set_deferred_historical new_node].
    vm_compute. reflexivity. }
  eexists. rewrite (resume_ready_sourceless _ _ demo_child_id (mkDeferred demo_child demo_peer
    (mkEvidence trust_proposal demo_peer 0) 0 demo_child_id 0)) by
    (exact eq_refl || exact (lookup_singleton_eq _ _)).
  f_equal.
Qed.

Lemma resume_witness : ∃ turns l,
  (turns ≤ 2)%nat ∧ drains demo_now Light turns [demo_root_id] (new_pass demo_peer, (waiting_node, ()))
    (Ok (), (l, (set_deferred_historical ∅ waiting_node, ()))).
Proof.
  destruct waiting_child_attempted as [l Hl].
  destruct (resume_terminates demo_now Light demo_root_id (new_pass demo_peer, (waiting_node, ())))
    as (turns & Hle & Hd).
  exists turns, l. split; [exact Hle|].
  replace (Ok (), (l, (set_deferred_historical ∅ waiting_node, ())))
    with (resume_deferred_descendants demo_now Light demo_root_id (new_pass demo_peer, (waiting_node, ()))); [exact Hd|].
  unfold resume_deferred_descendants, exec_bind at 1, get_node, node_op, on_world, on_state, exec_get.
  cbn [fst snd]. rewrite resume_loop_turn. cbn [fst snd]. rewrite Hl. by destruct (size _).
Defined.
