(* ===== verification/StratumDemo.v ===== *)
(** The theorems of the Stratum server on a concrete one: a miner connects, a template is
    published, the miner logs in and is given work. *)
From S2P Require Import Prelude CryptoHash PowTarget Share ShareChain ChainInv ChainAdmit ChainHistory Demo.
From S2P Require Import PayoutPolicy ZanoAddress BlockTemplate RpcClient StratumProtocol StratumSession StratumSubmission.
From S2P Require Import StratumServer StratumInv P2pShare StratumSpec StratumFlow.
Local Open Scope pool_scope.
#[local] Existing Instance demo_pow.

(** Three requests, named by a letter each: logins without and with an address to pay to, and
    a query for work. *)
Definition login_json : json := JObject
  [("jsonrpc", JString (text_of "2.0")); ("id", JInt 1); ("method", JString (text_of "eth_submitLogin"));
   ("params", JArray [JString (text_of "miner-500")])].
Definition pool_address : text := Eval vm_compute in
  encode_zano_standard_address (mkPayoutAddress (fill_be 32 11) (fill_be 32 12)).
Definition address_json : json := JObject
  [("jsonrpc", JString (text_of "2.0")); ("id", JInt 1); ("method", JString (text_of "eth_submitLogin"));
   ("params", JArray [JString pool_address])].
Definition work_json : json := JObject [("id", JInt 2); ("method", JString (text_of "eth_getWork"))].
#[local] Instance stratum_json : JsonC := {|
  json_tokener_parse s :=
    if bool_decide (s = text_of "L") then mkParsed true "" login_json
    else if bool_decide (s = text_of "P") then mkParsed true "" address_json
    else if bool_decide (s = text_of "W") then mkParsed true "" work_json
    else mkParsed false "unexpected" JNull;
  json_to_string_plain _ := text_of "{}" |}.
#[local] Instance stratum_json_end : JsonTokenerEnd := λ s, length s.

Definition stratum_config : StratumServerConfig :=
  mkServerConfig (text_of "127.0.0.1") 3333 256 (mkSessionConfig 100 1 1000) 2.
Definition stratum_binding : StratumShareParentBinding := mkBinding (arr_zero 32) 0.

(** A full node on an empty chain. *)
Definition stratum_start : StratumTcpServer :=
  mkServer stratum_config true true
    (mkRouter (mkRegistry (mkSessionConfig 100 1 1000) 1 1 ∅ None) empty_chain ∅) ∅ [].
Definition stratum_accept : server_call := CallAccept 5.
Definition stratum_publish : server_call :=
  CallPublish (λ _, true) (fill_be 32 77) (fill_be 32 78) 3000000 (fill_be 16 5000) (Some stratum_binding).
Definition stratum_login : server_call := CallLine 1 (text_of "L") demo_now.

Definition stratum_waiting : StratumTcpServer :=
  run_server_call stratum_publish (run_server_call stratum_accept stratum_start).
Definition stratum_mining : StratumTcpServer := run_server_call stratum_login stratum_waiting.
Definition stratum_published : list StratumTemplate :=
  [mkTemplate 1 (fill_be 32 77) (fill_be 32 78) 3000000 (fill_be 16 5000) (Some stratum_binding)].

Definition stratum_session : StratumSession := Eval vm_compute in
  default (mkSession 0 false [] [] None 0 None None) (find_session 1 (sv_registry stratum_mining)).
Definition stratum_work : StratumIssuedWork := Eval vm_compute in
  default (mkIssued 0 0 (arr_zero 16) (mkStratumWork (arr_zero 32) (arr_zero 32) (mkTarget (arr_zero 32)) 0)
             (mkContext 0 (arr_zero 32) (arr_zero 16)) None) (ss_current_work stratum_session).

Lemma empty_good : good empty_chain.
Proof. exact (reachable_good _ reach_default). Qed.

Lemma stratum_start_run : server_run stratum_config [] stratum_start.
Proof. by apply (run_start stratum_config (Some empty_chain) true true); [| |apply empty_good|]. Qed.

Lemma stratum_waiting_run : server_run stratum_config stratum_published stratum_waiting.
Proof.
  assert (server_run stratum_config [] (run_server_call stratum_accept stratum_start)) as Hrun.
  { exact (run_call stratum_config [] stratum_start stratum_accept stratum_start_run eq_refl). }
  refine (run_call stratum_config [] _ stratum_publish Hrun _).
  split; [done|]. by intros b [= <-].
Qed.

Lemma stratum_mining_run : server_run stratum_config stratum_published stratum_mining.
Proof. exact (run_call stratum_config stratum_published stratum_waiting stratum_login stratum_waiting_run ltac:(done)). Qed.

Lemma stratum_session_found : find_session 1 (sv_registry stratum_mining) = Some stratum_session.
Proof. vm_compute. reflexivity. Qed.

Definition stratum_solution : StratumSubmission := mkSubmission 7 (fill_be 32 77) (arr_zero 32) [].

Lemma stratum_on_current : on_current 1 stratum_solution (sv_router stratum_mining) stratum_session stratum_work.
Proof. constructor; vm_compute; reflexivity. Qed.

(** The work the miner was given comes from the published template. *)
Lemma stratum_invariant_witness :
  from_template 1 (mkTemplate 1 (fill_be 32 77) (fill_be 32 78) 3000000 (fill_be 16 5000) (Some stratum_binding))
    stratum_work.
Proof.
  destruct (stratum_invariant stratum_config stratum_published stratum_mining stratum_mining_run)
    as (_ & _ & Hw & _). specialize (Hw 1 stratum_session stratum_work stratum_session_found).
  destruct Hw as (_ & _ & t & Hin & Hft); [left; vm_compute; reflexivity|].
  apply list_elem_of_singleton in Hin. subst t. exact Hft.
Defined.

(** Its solution is answered: it is on the current work. *)
Lemma submit_routes_witness :
  submitted 1 stratum_solution demo_now Light (sv_router stratum_mining)
    (submit 1 stratum_solution demo_now Light (sv_router stratum_mining)).1
    (submit 1 stratum_solution demo_now Light (sv_router stratum_mining)).2.
Proof.
  pose proof (submit_routes stratum_config stratum_published stratum_mining 1 stratum_solution demo_now Light
    stratum_mining_run ltac:(done) ltac:(done)) as Hr.
  destruct (submit 1 stratum_solution demo_now Light (sv_router stratum_mining)) as [out router]. exact (proj2 Hr).
Defined.

(** A line of session 2 does not touch session 1. *)
Lemma line_isolated_witness :
  answered 2 (text_of "W") demo_now stratum_mining (handle_line 2 (text_of "W") demo_now stratum_mining).1 ∧
  rg_sessions (sv_registry (handle_line 2 (text_of "W") demo_now stratum_mining).2) !! 1 = Some stratum_session.
Proof.
  pose proof (line_isolated stratum_config stratum_published stratum_mining 2 (text_of "W") demo_now
    stratum_mining_run ltac:(done)) as [Ha He].
  split; [exact Ha|]. rewrite (os_others _ _ _ (oe_session _ _ _ _ He)) by done. exact stratum_session_found.
Defined.

(** The same solution after another line of the miner is a duplicate. *)
Definition stratum_after : StratumTcpServer :=
  set_router (submit 1 stratum_solution demo_now Light (sv_router stratum_mining)).2 stratum_mining.
Definition stratum_later : StratumTcpServer :=
  run_server_call (CallLine 1 (text_of "W") demo_now) stratum_after.

Lemma stratum_later_current :
  on_current 1 stratum_solution (sv_router stratum_later) stratum_session stratum_work.
Proof. constructor; vm_compute; reflexivity. Qed.

Lemma stratum_later_runs :
  runs_to (set_router (submit 1 stratum_solution demo_now Light (sv_router stratum_mining)).2 stratum_mining) stratum_later.
Proof.
  unfold stratum_later, stratum_after. eapply (runs_call _ (CallLine 1 (text_of "W") demo_now)); [|apply runs_none].
  by vm_compute.
Qed.

Lemma nonce_counts_once_witness :
  (submit 1 stratum_solution demo_now Light (sv_router stratum_later)).1 =
  Ok (mkSubmitted SubDuplicate NoReject no_id 1).
Proof.
  pose proof (nonce_counts_once stratum_config stratum_published stratum_mining 1 stratum_session stratum_work
    stratum_solution demo_now Light stratum_later stratum_solution demo_now Light stratum_mining_run
    ltac:(done) ltac:(done) stratum_on_current stratum_later_runs
    (ex_intro _ stratum_session stratum_later_current) eq_refl ltac:(done)) as Hn.
  destruct (submit 1 stratum_solution demo_now Light (sv_router stratum_later)) as [out router].
  exact (proj1 Hn).
Defined.

(** A login and a request for work, cut in the middle of a line. *)
Definition quiet_clock (w : nat) : Z * nat := (demo_now, w).
Definition counted_send (_ : text) (w : nat) : bool * nat := (true, S w).
Definition free_bucket (w : nat) : bool * nat := (true, w).
Definition stratum_buffers : list text :=
  [text_of "L" ++ [newline]; text_of "W"; [newline] ++ text_of "L"].

Lemma framing_witness :
  client_loop quiet_clock counted_send free_bucket 1 stratum_buffers [] stratum_waiting O =
  let '(_, s', w') := serve_lines quiet_clock counted_send free_bucket 1 [text_of "L"; text_of "W"] stratum_waiting O in
  (s', w').
Proof.
  rewrite (framing_independent quiet_clock counted_send free_bucket 1 stratum_buffers stratum_waiting O).
  - reflexivity.
  - apply (bool_decide_unpack _). by vm_compute.
Defined.

(** A full node on an empty chain of the default parameters, with a miner that logged in. *)
Definition pool_start : StratumTcpServer :=
  mkServer stratum_config true true
    (mkRouter (mkRegistry (mkSessionConfig 100 1 1000) 1 1 ∅ None) demo_chain ∅) ∅ [].
Definition pool_publish : server_call :=
  CallPublish (λ _, true) (fill_be 32 77) (fill_be 32 78) 3000000 (fill_be 16 5000000000) (Some stratum_binding).
Definition pool_published : list StratumTemplate :=
  [mkTemplate 1 (fill_be 32 77) (fill_be 32 78) 3000000 (fill_be 16 5000000000) (Some stratum_binding)].
Definition pool_waiting : StratumTcpServer :=
  run_server_call pool_publish (run_server_call stratum_accept pool_start).
Definition pool_mining (login : text) : StratumTcpServer :=
  run_server_call (CallLine 1 login demo_now) pool_waiting.
#[local] Abbreviation pool_issue login := (server_issue_work 1 (pool_mining login)).
Definition pool_session (login : text) : StratumSession :=
  default (mkSession 0 false [] [] None 0 None None) (find_session 1 (sv_registry (pool_issue login).2)).
Definition pool_work (login : text) : StratumIssuedWork := ok_or stratum_work (pool_issue login).1.

Lemma pool_mining_run login :
  published_after (CallLine 1 login demo_now) pool_published pool_waiting = pool_published →
  server_run stratum_config pool_published (pool_mining login).
Proof.
  intros Hp. rewrite <-Hp.
  assert (server_run stratum_config [] pool_start) as Hstart.
  { apply (run_start stratum_config (Some demo_chain) true true); [done|done| |done].
    exact (reachable_good _ demo_chain_reachable). }
  assert (server_run stratum_config [] (run_server_call stratum_accept pool_start)) as Hrun.
  { exact (run_call stratum_config [] pool_start stratum_accept Hstart eq_refl). }
  assert (server_run stratum_config pool_published pool_waiting) as Hwait.
  { refine (run_call stratum_config [] _ pool_publish Hrun _). split; [done|]. by intros b [= <-]. }
  exact (run_call stratum_config pool_published pool_waiting (CallLine 1 login demo_now) Hwait ltac:(done)).
Qed.

Lemma pool_of_login login : login = text_of "P" ∨ login = text_of "L" →
  server_run stratum_config pool_published (pool_mining login) ∧ sv_shared (pool_mining login) = true ∧
  sv_chain (pool_mining login) = demo_chain.
Proof. intros [->| ->]; (split; [apply pool_mining_run|split]); vm_compute; reflexivity. Qed.

Lemma pool_payout_only : payout_shares_only demo_chain.
Proof. exact (default_payout_shares_only demo_chain demo_chain_new). Qed.

Lemma fresh_chain_empty params c : new_chain params = Ok c → connected c = ∅ ∧ orphans c = ∅.
Proof. unfold new_chain. intros Hc. res_inv. done. Qed.

Lemma pool_timely share : timely demo_chain share.
Proof.
  destruct (fresh_chain_empty _ _ demo_chain_new) as [Hc Ho].
  constructor.
  - intros id _. unfold fresh_id. rewrite Hc, Ho. split; apply lookup_empty.
  - intros e. rewrite Hc, lookup_empty. done.
  - intros e. rewrite Hc, lookup_empty. done.
Qed.

(** The work of a login, and a nonce that solves it. *)
Definition pool_solved (login : text) : Prop :=
  sm_header_hash stratum_solution = sw_header_hash (iw_wire_work (pool_work login)) ∧
  (iw_job_version (pool_work login), sm_nonce stratum_solution) ∉ seen_nonces (sv_router (pool_mining login)) 1 ∧
  progpowz_hash (sw_height (iw_wire_work (pool_work login))) (sm_header_hash stratum_solution)
    (sm_nonce stratum_solution) Light = Ok (mkPow (fill_be 32 1) (fill_be 32 2)) ∧
  arr_Z (final_hash (mkPow (fill_be 32 1) (fill_be 32 2))) ≤
    arr_Z (big_endian (sw_share_target (iw_wire_work (pool_work login)))).

Lemma pool_solves login : login = text_of "P" ∨ login = text_of "L" → pool_solved login.
Proof.
  intros [->| ->]; (split_and!; [vm_compute; reflexivity|apply (bool_decide_unpack _); by vm_compute|
    vm_compute; reflexivity|by vm_compute]).
Qed.

Lemma pool_runs :
  pool_issue (text_of "P") = (Ok (pool_work (text_of "P")), (pool_issue (text_of "P")).2) ∧
  find_session 1 (sv_registry (pool_issue (text_of "P")).2) = Some (pool_session (text_of "P")) ∧
  decoded_payout (ss_username (pool_session (text_of "P"))) = Some (mkPayout (fill_be 32 11) (fill_be 32 12)) ∧
  pool_solved (text_of "P") ∧
  pool_issue (text_of "L") = (Ok (pool_work (text_of "L")), (pool_issue (text_of "L")).2) ∧
  find_session 1 (sv_registry (pool_issue (text_of "L")).2) = Some (pool_session (text_of "L")) ∧
  decoded_payout (ss_username (pool_session (text_of "L"))) = None ∧
  pool_solved (text_of "L").
Proof. split_and!; (by apply pool_solves; auto) || (vm_compute; reflexivity). Qed.

