(* ===== verification/P2pTransport.v ===== *)
(** Peer connections over stream sockets: [include/zano_p2pool/p2p_transport.hpp],
    [src/p2p_transport.cpp].

    A socket is what the calls on it will see: the results of its next [recv] and
    [send] calls, and the bytes it has taken for sending.  How addresses are resolved
    and sockets opened is the operating system's, the class [SocketApi]. *)
From S2P Require Import Prelude CryptoHash Share SidechainParams P2pProtocol BlockTemplate RpcClient.
Local Open Scope pool_scope.

(** ** Sockets *)

(** What a [recv] finds: bytes that have arrived, a signal, or an error with the text of
    [strerror(errno)].  No bytes are the end of the stream. *)
Inductive recv_event := RecvData (bytes : list byte) | RecvInterrupted | RecvFailed (what : string).
(** What a [send] does: take up to so many bytes, be interrupted, or fail. *)
Inductive send_event := SendAccepts (count : nat) | SendInterrupted | SendFailed (what : string).

#[export] Instance recv_event_eq_dec : EqDecision recv_event.
Proof. solve_decision. Defined.
#[export] Instance send_event_eq_dec : EqDecision send_event.
Proof. solve_decision. Defined.

Record Socket := mkSocket {
  so_in : list recv_event;
  so_plan : list send_event;
  so_sent : list byte;
  so_shut : bool }.
#[export] Instance Socket_eq_dec : EqDecision Socket.
Proof. solve_decision. Defined.

(** What a call returns: its count (with the bytes), or -1 and the error. *)
Inductive call_result (A : Type) := Returned (a : A) | Interrupted | Failed (what : string).
Arguments Returned {_} _.
Arguments Interrupted {_}.
Arguments Failed {_} _.

(** [::recv(fd, data, n, 0)]: at most [n] of the bytes that arrived next. *)
Definition sys_recv (n : nat) (s : Socket) : call_result (list byte) * Socket :=
  if so_shut s then (Returned [], s) else
  match so_in s with
  | [] => (Returned [], s)
  | RecvData b :: rest =>
      (Returned (take n b),
       mkSocket (if (n <? length b)%nat then RecvData (drop n b) :: rest else rest)
         (so_plan s) (so_sent s) (so_shut s))
  | RecvInterrupted :: rest => (Interrupted, mkSocket rest (so_plan s) (so_sent s) (so_shut s))
  | RecvFailed what :: rest => (Failed what, mkSocket rest (so_plan s) (so_sent s) (so_shut s))
  end.

(** [::send(fd, data, size, MSG_NOSIGNAL)]. *)
Definition sys_send (data : list byte) (s : Socket) : call_result nat * Socket :=
  if so_shut s then (Failed "Broken pipe", s) else
  match so_plan s with
  | [] => (Returned (length data), mkSocket (so_in s) [] (so_sent s ++ data) (so_shut s))
  | SendAccepts k :: plan =>
      (Returned (length (take k data)), mkSocket (so_in s) plan (so_sent s ++ take k data) (so_shut s))
  | SendInterrupted :: plan => (Interrupted, mkSocket (so_in s) plan (so_sent s) (so_shut s))
  | SendFailed what :: plan => (Failed what, mkSocket (so_in s) plan (so_sent s) (so_shut s))
  end.

(** The loops of [send_all] and [recv_exact]: each turn uses one event of the socket, or
    is the last one. *)
Fixpoint send_all_loop (fuel : nat) (data : list byte) : exec Socket () := λ s,
  match data, fuel with
  | [], _ => (Ok (), s)
  | _, O => (throw LogicError "fuel", s)
  | _, S fuel =>
      match sys_send data s with
      | (Interrupted, s) => send_all_loop fuel data s
      | (Failed what, s) => (throw RuntimeError ("P2P send failed: " +:+ what), s)
      | (Returned O, s) => (throw RuntimeError "P2P socket closed during send", s)
      | (Returned sent, s) => send_all_loop fuel (drop sent data) s
      end
  end.
Definition send_all (data : list byte) : exec Socket () := λ s,
  send_all_loop (S (length (so_plan s))) data s.

Fixpoint recv_exact_loop (fuel size : nat) : exec Socket (list byte) := λ s,
  match size, fuel with
  | O, _ => (Ok [], s)
  | _, O => (throw LogicError "fuel", s)
  | _, S fuel =>
      match sys_recv size s with
      | (Interrupted, s) => recv_exact_loop fuel size s
      | (Failed what, s) => (throw RuntimeError ("P2P receive failed: " +:+ what), s)
      | (Returned [], s) => (throw RuntimeError "P2P socket closed during receive", s)
      | (Returned bytes, s) =>
          (rest <- recv_exact_loop fuel (size - length bytes) ;; exec_ret (bytes ++ rest)) s
      end
  end.
Definition recv_exact (size : nat) : exec Socket (list byte) := λ s,
  recv_exact_loop (S (length (so_in s))) size s.

(** ** Frames *)

Definition stream_field (n offset : nat) (header : list byte) : Z := be_Z (take n (drop offset header)).

Definition validate_stream_header (header : list byte) : res Z :=
  (_ ← throw_if (negb (bool_decide (take 4 header = kP2pMagic))) RuntimeError "invalid P2P envelope magic";
  _ ← throw_if (negb (byte_to_Z (header !!! 4%nat) =? kP2pProtocolVersion)) RuntimeError
        "unsupported P2P protocol version";
  _ ← throw_if (negb (p2p_message_type_supported (byte_to_Z (header !!! 5%nat)))) RuntimeError
        "unsupported P2P message type";
  _ ← throw_if (negb (stream_field 2 6 header =? 0)) RuntimeError "unsupported P2P envelope flags";
  let payload_size := stream_field 4 8 header in
  _ ← throw_if (kP2pMaxPayloadSize <? payload_size) RuntimeError "P2P payload exceeds maximum size";
  mret payload_size)%stdpp.

Definition receive_envelope_fd : exec Socket P2pEnvelope :=
  header <- recv_exact kP2pEnvelopeHeaderSize ;;
  payload_size <- exec_const (λ _, validate_stream_header header) ;;
  payload <- (if negb (payload_size =? 0) then recv_exact (Z.to_nat payload_size) else exec_ret []) ;;
  exec_const (λ _, deserialize_p2p_envelope (header ++ payload)).

Definition send_envelope_fd (envelope : P2pEnvelope) : exec Socket () :=
  bytes <- exec_const (λ _, serialize_p2p_envelope envelope) ;;
  send_all bytes.

Definition require_accepted_handshake (peer local : P2pHandshake) : res () :=
  (expected_sidechain_id ← resolved_p2p_sidechain_id local;
  match validate_p2p_handshake peer (hs_network local) expected_sidechain_id (hs_node_id local) with
  | Accept => mret ()
  | WrongNetwork => throw RuntimeError "P2P peer is on the wrong network"
  | WrongSidechain => throw RuntimeError "P2P peer is on the wrong sidechain"
  | SelfConnection => throw RuntimeError "P2P self-connection rejected"
  end)%stdpp.

(** What a connection does before it is used: the dialling side speaks first. *)
Definition accept_exchange (local : P2pHandshake) : exec Socket P2pHandshake :=
  peer_envelope <- receive_envelope_fd ;;
  peer_handshake <- exec_const (λ _, parse_p2p_handshake_envelope peer_envelope) ;;
  do exec_const (λ _, require_accepted_handshake peer_handshake local) ;;
  envelope <- exec_const (λ _, make_p2p_handshake_envelope local) ;;
  do send_envelope_fd envelope ;;
  exec_ret peer_handshake.

Definition connect_exchange (local : P2pHandshake) : exec Socket P2pHandshake :=
  envelope <- exec_const (λ _, make_p2p_handshake_envelope local) ;;
  do send_envelope_fd envelope ;;
  peer_envelope <- receive_envelope_fd ;;
  peer_handshake <- exec_const (λ _, parse_p2p_handshake_envelope peer_envelope) ;;
  do exec_const (λ _, require_accepted_handshake peer_handshake local) ;;
  exec_ret peer_handshake.

(** ** Descriptors *)

Record P2pEndpoint := mkEndpoint { ep_host : text; ep_port : Z }.
#[export] Instance P2pEndpoint_eq_dec : EqDecision P2pEndpoint.
Proof. solve_decision. Defined.

(** What an [accept] on the listening socket returns. *)
Inductive accept_event := AcceptConnection (fd : Z) (socket : Socket) | AcceptInterrupted | AcceptFailed (what : string).

(** The process's sockets, and what waits at its listening socket. *)
Record Net := mkNet { nt_sockets : gmap Z Socket; nt_accepts : list accept_event }.

Definition set_sockets (sockets : gmap Z Socket) (net : Net) : Net := mkNet sockets (nt_accepts net).

(** A call on a descriptor; a closed one is refused with [what]. *)
Definition on_fd {A} (fd : Z) (what : string) (m : exec Socket A) : exec Net A := λ net,
  match nt_sockets net !! fd with
  | None => (throw RuntimeError what, net)
  | Some socket => let '(r, socket) := m socket in (r, set_sockets (<[fd := socket]> (nt_sockets net)) net)
  end.

Definition shutdown_fd (fd : Z) (net : Net) : Net :=
  set_sockets (alter (λ s, mkSocket (so_in s) (so_plan s) (so_sent s) true) fd (nt_sockets net)) net.

Definition close_fd (fd : Z) (net : Net) : Net :=
  if 0 <=? fd then set_sockets (delete fd (nt_sockets net)) net else net.

Record P2pTcpConnection := mkConnection {
  cn_socket_fd : Z;
  cn_peer_handshake : P2pHandshake;
  cn_inbound : bool }.

Definition valid (c : P2pTcpConnection) : bool := 0 <=? cn_socket_fd c.

Definition send_envelope (c : P2pTcpConnection) (envelope : P2pEnvelope) : exec Net () :=
  if negb (valid c) then exec_throw RuntimeError "P2P connection is closed"
  else on_fd (cn_socket_fd c) "P2P send failed: Bad file descriptor" (send_envelope_fd envelope).

Definition receive_envelope (c : P2pTcpConnection) : exec Net P2pEnvelope :=
  if negb (valid c) then exec_throw RuntimeError "P2P connection is closed"
  else on_fd (cn_socket_fd c) "P2P receive failed: Bad file descriptor" receive_envelope_fd.

Definition shutdown (c : P2pTcpConnection) (net : Net) : Net :=
  if 0 <=? cn_socket_fd c then shutdown_fd (cn_socket_fd c) net else net.

Definition close (c : P2pTcpConnection) (net : Net) : P2pTcpConnection * Net :=
  (mkConnection (-1) (cn_peer_handshake c) (cn_inbound c), close_fd (cn_socket_fd c) net).

(** Run an exchange on a descriptor and close it on any exception. *)
Definition exchange (fd : Z) (m : exec Socket P2pHandshake) (inbound : bool) : exec Net P2pTcpConnection := λ net,
  match on_fd fd "P2P receive failed: Bad file descriptor" m net with
  | (Ok peer, net) => (Ok (mkConnection fd peer inbound), net)
  | (Throw e, net) => (Throw e, close_fd fd net)
  end.

(** ** Opening sockets *)

Inductive address_family := Inet | Inet6 | OtherFamily.

Class SocketApi := {
  addrinfo : Type;
  getaddrinfo : option text → text → string + list addrinfo;
  sys_socket : addrinfo → Net → option Z * Net;
  sys_bind : Z → addrinfo → Net → bool * Net;
  sys_listen : Z → Net → bool * Net;
  sys_connect : Z → addrinfo → Net → bool * Net;
  getsockname : Z → Net → option (address_family * Z);
  strerror : Net → string }.

Section Open.
Context `{!SocketApi}.

Definition port_string (port : Z) : text := dec_str port.

(** The first address that a socket can be opened on and prepared with. *)
Fixpoint first_socket (prepare : Z → addrinfo → Net → bool * Net) (addresses : list addrinfo) (net : Net)
    : option Z * Net :=
  match addresses with
  | [] => (None, net)
  | current :: rest =>
      match sys_socket current net with
      | (None, net) => first_socket prepare rest net
      | (Some fd, net) =>
          let '(ok, net) := prepare fd current net in
          if ok then (Some fd, net) else first_socket prepare rest (close_fd fd net)
      end
  end.

Definition bind_and_listen (fd : Z) (address : addrinfo) (net : Net) : bool * Net :=
  let '(bound, net) := sys_bind fd address net in
  if bound then sys_listen fd net else (false, net).

Definition open_listen_socket (endpoint : P2pEndpoint) : exec Net (Z * Z) := λ net,
  let host := if bool_decide (ep_host endpoint = []) then None else Some (ep_host endpoint) in
  match getaddrinfo host (port_string (ep_port endpoint)) with
  | inl gai => (throw RuntimeError ("P2P getaddrinfo(bind) failed: " +:+ gai), net)
  | inr addresses =>
      match first_socket bind_and_listen addresses net with
      | (None, net) => (throw RuntimeError ("P2P bind/listen failed: " +:+ strerror net), net)
      | (Some listen_fd, net) =>
          match getsockname listen_fd net with
          | None => (throw RuntimeError ("P2P getsockname failed: " +:+ strerror net), close_fd listen_fd net)
          | Some (Inet, port) | Some (Inet6, port) => (Ok (listen_fd, port), net)
          | Some (OtherFamily, _) =>
              (throw RuntimeError "P2P listener has unsupported address family", close_fd listen_fd net)
          end
      end
  end.

Definition open_connected_socket (endpoint : P2pEndpoint) : exec Net Z := λ net,
  if ep_port endpoint =? 0 then (throw RuntimeError "P2P connect port must be non-zero", net) else
  match getaddrinfo (Some (ep_host endpoint)) (port_string (ep_port endpoint)) with
  | inl gai => (throw RuntimeError ("P2P getaddrinfo(connect) failed: " +:+ gai), net)
  | inr addresses =>
      match first_socket sys_connect addresses net with
      | (None, net) => (throw RuntimeError ("P2P connect failed: " +:+ strerror net), net)
      | (Some fd, net) => (Ok fd, net)
      end
  end.

(** ** Listener *)

Record P2pTcpListener := mkListener {
  ls_endpoint : P2pEndpoint;
  ls_local_handshake : P2pHandshake;
  ls_listen_fd : Z;
  ls_bound_port : Z }.

(** The handshake with its sidechain named. *)
Definition normalized (h : P2pHandshake) : res P2pHandshake :=
  (id ← resolved_p2p_sidechain_id h;
  let h := mkHandshake (hs_network h) (hs_node_id h) (hs_capabilities h) (hs_listen_port h)
             (hs_best_share_id h) (hs_best_share_height h) id in
  _ ← serialize_p2p_handshake_payload h;
  mret h)%stdpp.

Definition new_listener (endpoint : P2pEndpoint) (local : P2pHandshake) : res P2pTcpListener :=
  (h ← normalized local; mret (mkListener endpoint h (-1) 0))%stdpp.

Definition listener_running (l : P2pTcpListener) : bool := 0 <=? ls_listen_fd l.

Definition with_listen_port (port : Z) (h : P2pHandshake) : P2pHandshake :=
  mkHandshake (hs_network h) (hs_node_id h) (hs_capabilities h) port
    (hs_best_share_id h) (hs_best_share_height h) (hs_sidechain_id h).

Definition listener_start (l : P2pTcpListener) : exec Net P2pTcpListener :=
  if listener_running l then exec_throw RuntimeError "P2P listener already running"
  else
    opened <- open_listen_socket (ls_endpoint l) ;;
    let '(fd, actual_port) := opened in
    exec_ret (mkListener (ls_endpoint l)
      (if hs_listen_port (ls_local_handshake l) =? 0
       then with_listen_port actual_port (ls_local_handshake l) else ls_local_handshake l)
      fd actual_port).

Definition listener_stop (l : P2pTcpListener) (net : Net) : P2pTcpListener * Net :=
  (mkListener (ls_endpoint l) (ls_local_handshake l) (-1) 0, close_fd (ls_listen_fd l) net).

(** The accept loop: a signal is retried. *)
Fixpoint accept_fd (pending : list accept_event) (net : Net) : res Z * Net :=
  match pending with
  | [] => (throw RuntimeError ("P2P accept failed: " +:+ strerror net), mkNet (nt_sockets net) [])
  | AcceptConnection fd socket :: rest => (Ok fd, mkNet (<[fd := socket]> (nt_sockets net)) rest)
  | AcceptInterrupted :: rest => accept_fd rest net
  | AcceptFailed what :: rest =>
      (throw RuntimeError ("P2P accept failed: " +:+ what), mkNet (nt_sockets net) rest)
  end.

Definition accept_peer (l : P2pTcpListener) : exec Net P2pTcpConnection :=
  if negb (listener_running l) then exec_throw RuntimeError "P2P listener is not running"
  else
    peer_fd <- (λ net, accept_fd (nt_accepts net) net) ;;
    exchange peer_fd (accept_exchange (ls_local_handshake l)) true.

Definition connect_p2p_peer (endpoint : P2pEndpoint) (local : P2pHandshake) : exec Net P2pTcpConnection :=
  normalized_local <- exec_const (λ _, normalized local) ;;
  socket_fd <- open_connected_socket endpoint ;;
  exchange socket_fd (connect_exchange normalized_local) false.

End Open.

(** ** What a socket delivers *)

(** The bytes that a socket will still deliver. *)
Fixpoint stream (events : list recv_event) : list byte :=
  match events with
  | [] | RecvData [] :: _ | RecvFailed _ :: _ => []
  | RecvData b :: events => b ++ stream events
  | RecvInterrupted :: events => stream events
  end.

Definition with_in (events : list recv_event) (s : Socket) : Socket :=
  mkSocket events (so_plan s) (so_sent s) (so_shut s).

Lemma stream_data b events : b ≠ [] → stream (RecvData b :: events) = b ++ stream events.
Proof. by destruct b. Qed.

(** [recv_exact] returns the next bytes of the stream, however they arrive, or throws when
    the stream ends before. *)
Lemma recv_exact_loop_spec fuel : ∀ size s,
  so_shut s = false → (length (so_in s) < fuel)%nat →
  if (size <=? length (stream (so_in s)))%nat
  then ∃ events, recv_exact_loop fuel size s = (Ok (take size (stream (so_in s))), with_in events s) ∧
         stream events = drop size (stream (so_in s))
  else ∃ e s', recv_exact_loop fuel size s = (Throw e, s').
Proof.
  induction fuel as [|fuel IH]; intros size [ev plan sent shut] Hs Hf; cbn [so_in so_shut] in *; [lia|]. subst shut.
  destruct size as [|size]; [by exists ev; split; [destruct ev as [|[]]|rewrite drop_0]|].
  cbn [recv_exact_loop]. unfold sys_recv. cbn [so_shut so_in so_plan so_sent].
  destruct ev as [|[b| |what] ev]; cbn [length] in Hf.
  - cbn. eauto.
  - destruct b as [|x b]; [cbn; eauto|]. rewrite stream_data by done.
    change (take (S size) (x :: b)) with (x :: take size b).
    cbn [length]. set (ev' := if (_ <? _)%nat then _ else _).
    specialize (IH (S size - S (length (take size b)))%nat (mkSocket ev' plan sent false) eq_refl).
    cbn [so_in] in IH. assert (length ev' < fuel ∨ S size < S (length b))%nat as Hcase.
    { unfold ev'. destruct (Nat.ltb_spec (S size) (S (length b))); [by right|left; lia]. }
    unfold exec_bind. rewrite length_take in *.
    destruct (Nat.ltb_spec (S size) (S (length b))) as [Hlt|Hge].
    + replace (S size - S (size `min` length b))%nat with 0%nat in * by lia.
      rewrite (proj2 (Nat.leb_le _ _)) by (cbn; rewrite length_app; lia).
      exists ev'. split.
      * destruct fuel; cbn [recv_exact_loop exec_ret]; rewrite app_nil_r, take_app_le by (cbn; lia); done.
      * unfold ev'. rewrite stream_data, drop_app_le; [done|cbn; lia|].
        intros Hd. apply (f_equal length) in Hd. cbn in Hd. rewrite length_drop in Hd. lia.
    + unfold ev' in *. replace (S size - S (size `min` length b))%nat with (size - length b)%nat in * by lia.
      specialize (IH ltac:(lia)). rewrite (take_ge b) in * by lia.
      destruct (Nat.leb_spec (size - length b) (length (stream ev))) as [Hle|Hgt].
      * rewrite (proj2 (Nat.leb_le _ _)) by (cbn; rewrite length_app; lia).
        destruct IH as (events & -> & He). exists events. split.
        -- cbn [exec_ret app]. do 2 f_equal. cbn [take app]. by rewrite take_app_ge by lia.
        -- cbn [drop app]. by rewrite drop_app_ge by lia.
      * rewrite (proj2 (Nat.leb_gt _ _)) by (cbn; rewrite length_app; lia).
        destruct IH as (e & s' & ->). eauto.
  - apply (IH (S size) (mkSocket ev plan sent false)); [done|cbn; lia].
  - cbn. eauto.
Qed.

Lemma recv_exact_spec size s :
  so_shut s = false →
  if (size <=? length (stream (so_in s)))%nat
  then ∃ events, recv_exact size s = (Ok (take size (stream (so_in s))), with_in events s) ∧
         stream events = drop size (stream (so_in s))
  else ∃ e s', recv_exact size s = (Throw e, s').
Proof. intros Hs. apply recv_exact_loop_spec; [done|lia]. Qed.

Lemma recv_exact_ok size s bytes s' :
  so_shut s = false → recv_exact size s = (Ok bytes, s') →
  length bytes = size ∧ stream (so_in s) = bytes ++ stream (so_in s') ∧ ∃ ev, s' = with_in ev s.
Proof.
  intros Hs Hr. pose proof (recv_exact_spec size s Hs) as Hspec.
  destruct (Nat.leb_spec size (length (stream (so_in s)))); [|destruct Hspec as (e & s1 & E); congruence].
  destruct Hspec as (ev & E & Hev). rewrite E in Hr. injection Hr as <- <-. cbn [with_in so_in].
  rewrite length_take, Hev, take_drop. eauto with lia.
Qed.

(** Receiving sends nothing. *)
Lemma recv_exact_loop_sent fuel : ∀ size s, so_sent (recv_exact_loop fuel size s).2 = so_sent s.
Proof.
  induction fuel as [|fuel IH]; intros [|size] s; cbn [recv_exact_loop]; try done.
  destruct (sys_recv (S size) s) as [r s1] eqn:E.
  assert (so_sent s1 = so_sent s) as <-.
  { unfold sys_recv in E. destruct (so_shut s); [by injection E as _ <-|].
    by destruct (so_in s) as [|[]]; injection E as _ <-. }
  destruct r as [[|b bytes]| |what]; try done.
  unfold exec_bind. destruct (recv_exact_loop fuel _ s1) as [[] s2] eqn:E2; cbn; rewrite <-(IH (S size - length (b :: bytes))%nat s1), E2; done.
Qed.

(** ** Frames *)

Definition header_layout (e : P2pEnvelope) : list byte :=
  kP2pMagic ++ [byte_of_Z (env_version e)] ++ [byte_of_Z (message_type_value (env_type e))] ++
  be_bytes 2 (env_flags e) ++ be_bytes 4 (Z.of_nat (length (env_payload e))).

Lemma layout_header e : envelope_layout e = header_layout e ++ env_payload e.
Proof. unfold envelope_layout, header_layout. by rewrite <-!app_assoc. Qed.

Lemma length_header_layout e : length (header_layout e) = kP2pEnvelopeHeaderSize.
Proof. unfold header_layout. by rewrite !length_app, !length_be_bytes. Qed.

Lemma validate_header_layout e :
  envelope_valid e → validate_stream_header (header_layout e) = Ok (Z.of_nat (length (env_payload e))).
Proof.
  intros (Hv & Ht & Hf & Hp). unfold validate_stream_header, header_layout. rewrite Hv, Hf.
  rewrite bool_decide_true by done. cbn [negb throw_if mbind res_bind].
  change (kP2pMagic ++ [byte_of_Z kP2pProtocolVersion] ++ [byte_of_Z (message_type_value (env_type e))] ++
    be_bytes 2 0 ++ be_bytes 4 (Z.of_nat (length (env_payload e))))
    with ([Byte.x5a; Byte.x50; Byte.x32; Byte.x50; Byte.x02] ++ byte_of_Z (message_type_value (env_type e)) ::
      [Byte.x00; Byte.x00] ++ be_bytes 4 (Z.of_nat (length (env_payload e)))).
  set (b := byte_of_Z _). set (m := be_bytes 4 _). set (l := _ ++ b :: _).
  change (l !!! 4%nat) with Byte.x02. change (l !!! 5%nat) with b.
  change (stream_field 2 6 l) with 0. change (stream_field 4 8 l) with (be_Z (take 4 m)). clear l.
  unfold b, m. rewrite byte_to_of_Z, Z.mod_small, (proj2 (supported_types _) Ht) by lia.
  rewrite take_ge, be_Z_be_bytes, Z.mod_small
    by (rewrite ?length_be_bytes; unfold kP2pMaxPayloadSize in Hp; try change (pow256 4) with 4294967296; lia).
  by rewrite (proj2 (Z.ltb_ge _ _) Hp).
Qed.

(** A whole frame at the head of the stream is received, and nothing beyond it is read. *)
Lemma receive_frame s e rest :
  so_shut s = false → envelope_wf e → envelope_valid e →
  stream (so_in s) = envelope_layout e ++ rest →
  ∃ events, receive_envelope_fd s = (Ok e, with_in events s) ∧ stream events = rest.
Proof.
  intros Hs Hwf Hv Hst. unfold receive_envelope_fd. unfold exec_bind at 1.
  pose proof (length_header_layout e) as Hlen. rewrite layout_header, <-app_assoc in Hst.
  pose proof (recv_exact_spec kP2pEnvelopeHeaderSize s Hs) as H1. rewrite Hst, <-Hlen in H1.
  rewrite (proj2 (Nat.leb_le _ _)), take_app_length, drop_app_length in H1 by (rewrite length_app; lia).
  destruct H1 as (ev & E1 & Hev). rewrite Hlen in E1. rewrite E1.
  unfold exec_bind at 1, exec_const at 1. rewrite (validate_header_layout e Hv). unfold exec_bind at 1.
  assert (∃ events, (if negb (Z.of_nat (length (env_payload e)) =? 0)
     then recv_exact (Z.to_nat (Z.of_nat (length (env_payload e)))) else exec_ret []) (with_in ev s) =
     (Ok (env_payload e), with_in events s) ∧ stream events = rest) as (events & -> & He).
  { destruct (Z.eqb_spec (Z.of_nat (length (env_payload e))) 0) as [H0|_]; cbn [negb].
    - destruct (env_payload e); [|done]. by exists ev.
    - rewrite Nat2Z.id. pose proof (recv_exact_spec (length (env_payload e)) (with_in ev s) Hs) as H2.
      cbn [with_in so_in] in H2. rewrite Hev in H2.
      rewrite (proj2 (Nat.leb_le _ _)), take_app_length, drop_app_length in H2 by (rewrite length_app; lia).
      destruct H2 as (ev2 & E2 & Hev2). exists ev2. by rewrite E2. }
  exists events. split; [|done]. unfold exec_const. rewrite <-layout_header.
  by rewrite deserialize_envelope_layout.
Qed.

(** Whatever is received was the next frame of the stream. *)
Lemma receive_frame_inv s e s' :
  so_shut s = false → receive_envelope_fd s = (Ok e, s') →
  envelope_wf e ∧ envelope_valid e ∧ stream (so_in s) = envelope_layout e ++ stream (so_in s') ∧
  ∃ ev, s' = with_in ev s.
Proof.
  intros Hs Hr. unfold receive_envelope_fd in Hr.
  apply exec_bind_ok in Hr as (header & s1 & E1 & Hr). apply recv_exact_ok in E1 as (_ & Hst1 & ev1 & ->); [|done].
  apply exec_bind_ok in Hr as (size & s2 & E2 & Hr). unfold exec_const in E2. injection E2 as _ <-.
  apply exec_bind_ok in Hr as (payload & s3 & E3 & Hr). unfold exec_const in Hr. injection Hr as Hd <-.
  assert (stream (so_in (with_in ev1 s)) = payload ++ stream (so_in s3) ∧ ∃ ev, s3 = with_in ev s) as [Hst3 Hev].
  { destruct (negb _).
    - apply recv_exact_ok in E3 as (_ & ? & ev & ->); [|done]. split; [done|by exists ev].
    - unfold exec_ret in E3. injection E3 as <- <-. split; [done|by exists ev1]. }
  apply deserialize_envelope_inv in Hd as (Hwf & Hv & Hl). split_and!; try done.
  by rewrite Hst1, Hst3, app_assoc, Hl.
Qed.

(** ** Sending *)

(** Sends that make progress and do not fail. *)
Definition send_goes_through (e : send_event) : Prop :=
  match e with SendAccepts k => (0 < k)%nat | SendInterrupted => True | SendFailed _ => False end.

Definition with_sent (plan : list send_event) (data : list byte) (s : Socket) : Socket :=
  mkSocket (so_in s) plan (so_sent s ++ data) (so_shut s).

Lemma send_all_loop_ok fuel : ∀ data s s',
  send_all_loop fuel data s = (Ok (), s') → ∃ plan, s' = with_sent plan data s ∧ suffix plan (so_plan s).
Proof.
  induction fuel as [|fuel IH]; intros [|x data] [ev plan sent shut] s' Hs; cbn in Hs;
    try (injection Hs as <-; exists plan; unfold with_sent; cbn; by rewrite app_nil_r); [done|].
  unfold sys_send in Hs. cbn [so_shut so_plan so_sent so_in] in Hs.
  destruct shut; [done|]. destruct plan as [|[[|k]| |what] plan]; cbn in Hs; try done.
  - rewrite drop_ge in Hs by done.
    assert (∀ f s, send_all_loop f [] s = (Ok (), s)) as Hnil by (by intros []).
    rewrite Hnil in Hs. injection Hs as <-. by exists [].
  - apply IH in Hs as (plan' & -> & Hp). exists plan'. unfold with_sent. cbn in *. split.
    + rewrite <-app_assoc, length_take. cbn [app]. do 2 f_equal.
      destruct (Nat.le_ge_cases k (length data)).
      * rewrite Nat.min_l by lia. by rewrite take_drop.
      * rewrite Nat.min_r by lia. rewrite drop_all, app_nil_r. by rewrite take_ge.
    + etrans; [done|]. by apply suffix_cons_r.
  - apply IH in Hs as (plan' & -> & Hp). exists plan'. split; [done|]. etrans; [done|]. by apply suffix_cons_r.
Qed.

Lemma send_all_ok data s s' :
  send_all data s = (Ok (), s') → ∃ plan, s' = with_sent plan data s ∧ suffix plan (so_plan s).
Proof. apply send_all_loop_ok. Qed.

Lemma send_all_loop_goes fuel : ∀ data s,
  so_shut s = false → Forall send_goes_through (so_plan s) → (length (so_plan s) < fuel)%nat →
  is_ok (send_all_loop fuel data s).1 = true.
Proof.
  induction fuel as [|fuel IH]; intros [|x data] [ev plan sent shut] Hs Hp Hf; cbn in *; try done; [lia|].
  subst shut. unfold sys_send. cbn [so_shut so_plan so_sent so_in].
  destruct plan as [|[[|k]| |what] plan]; cbn; cbn in Hf; try (apply Forall_cons in Hp as [Hk Hp]; cbn in Hk); try lia.
  - rewrite drop_ge by done. by destruct fuel.
  - apply IH; [done|done|cbn; lia].
  - apply IH; [done|done|cbn; lia].
Qed.

Lemma send_all_goes data s :
  so_shut s = false → Forall send_goes_through (so_plan s) →
  ∃ plan, send_all data s = (Ok (), with_sent plan data s) ∧ suffix plan (so_plan s).
Proof.
  intros Hs Hp. pose proof (send_all_loop_goes (S (length (so_plan s))) data s Hs Hp (le_n _)) as Hok.
  destruct (send_all data s) as [[[]|e] s'] eqn:E; [|unfold send_all in E; by rewrite E in Hok].
  apply send_all_ok in E as Hs'. by destruct Hs' as (plan & -> & Hsuf); exists plan.
Qed.

(** ** Envelopes in order *)

Fixpoint send_many (es : list P2pEnvelope) : exec Socket () :=
  match es with
  | [] => exec_ret ()
  | e :: es => do send_envelope_fd e ;; send_many es
  end.

Fixpoint receive_many (n : nat) : exec Socket (list P2pEnvelope) :=
  match n with
  | O => exec_ret []
  | S n => e <- receive_envelope_fd ;; es <- receive_many n ;; exec_ret (e :: es)
  end.

Lemma send_envelope_fd_ok e s s' :
  send_envelope_fd e s = (Ok (), s') →
  envelope_valid e ∧ ∃ plan, s' = with_sent plan (envelope_layout e) s.
Proof.
  unfold send_envelope_fd. intros (b & s1 & E & Hs)%exec_bind_ok. unfold exec_const in E. injection E as Eb <-.
  apply serialize_envelope_ok in Eb as [Hv ->]. apply send_all_ok in Hs as (plan & -> & _). eauto.
Qed.

Lemma send_many_ok es : ∀ s s',
  send_many es s = (Ok (), s') →
  Forall envelope_valid es ∧ so_sent s' = so_sent s ++ concat (envelope_layout <$> es).
Proof.
  induction es as [|e es IH]; intros s s' Hs; cbn in Hs.
  - injection Hs as <-. by rewrite app_nil_r.
  - apply exec_bind_ok in Hs as ([] & s1 & He & Hs). apply send_envelope_fd_ok in He as (Hv & plan & ->).
    apply IH in Hs as (Hvs & ->). split; [by constructor|]. cbn. by rewrite <-app_assoc.
Qed.

Lemma receive_many_frames es : ∀ s rest,
  so_shut s = false → Forall envelope_wf es → Forall envelope_valid es →
  stream (so_in s) = concat (envelope_layout <$> es) ++ rest →
  ∃ events, receive_many (length es) s = (Ok es, with_in events s) ∧ stream events = rest.
Proof.
  induction es as [|e es IH]; intros s rest Hs Hw Hv Hst.
  - exists (so_in s). by destruct s.
  - apply Forall_cons in Hw as [Hw Hws], Hv as [Hv Hvs]. cbn in Hst. rewrite <-app_assoc in Hst.
    destruct (receive_frame s e _ Hs Hw Hv Hst) as (ev & E & Hev).
    destruct (IH (with_in ev s) rest Hs Hws Hvs Hev) as (ev' & E' & Hev').
    exists ev'. split; [|done]. cbn. unfold exec_bind. by rewrite E, E'.
Qed.

(** Frames delimit themselves. *)
Lemma layout_prefix_free e e' r r' :
  envelope_wf e → envelope_valid e → envelope_wf e' → envelope_valid e' →
  envelope_layout e ++ r = envelope_layout e' ++ r' → e = e' ∧ r = r'.
Proof.
  intros Hw Hv Hw' Hv' Heq. set (s := mkSocket [RecvData (envelope_layout e ++ r)] [] [] false).
  assert (stream (so_in s) = envelope_layout e ++ r) as Hst
    by (cbn; by destruct (envelope_layout e ++ r) eqn:E; [rewrite layout_header in E|rewrite app_nil_r]).
  destruct (receive_frame s e r eq_refl Hw Hv Hst) as (ev & E & <-).
  destruct (receive_frame s e' r' eq_refl Hw' Hv') as (ev' & E' & <-); [by rewrite Hst|].
  rewrite E in E'. by injection E' as -> ->.
Qed.

Lemma receive_many_prefix n : ∀ s s' got es,
  so_shut s = false → Forall envelope_wf es → Forall envelope_valid es →
  stream (so_in s) `prefix_of` concat (envelope_layout <$> es) →
  receive_many n s = (Ok got, s') → got = take n es.
Proof.
  induction n as [|n IH]; intros s s' got es Hs Hw Hv Hpre Hr; cbn in Hr; [by injection Hr as <-|].
  apply exec_bind_ok in Hr as (e & s1 & E & Hr).
  apply receive_frame_inv in E as (Hwe & Hve & Hst & ev & ->); [|done].
  apply exec_bind_ok in Hr as (got' & s2 & Hr & E2). unfold exec_ret in E2. injection E2 as <- <-.
  destruct Hpre as [k Hk]. rewrite Hst, <-app_assoc in Hk.
  destruct es as [|e' es]; [by rewrite layout_header in Hk|]. cbn in Hk.
  apply Forall_cons in Hw as [Hw' Hws], Hv as [Hv' Hvs].
  apply layout_prefix_free in Hk as [-> Hk]; try done. cbn. f_equal.
  apply (IH (with_in ev s) s2); try done. by exists k.
Qed.

(** C38: envelopes sent over a connection arrive as they were sent.  However the network
    cuts the bytes into pieces and whatever signals interrupt the calls, the receiver reads
    the same envelopes in the same order and nothing else; and if the stream breaks off
    anywhere, what it has read is a beginning of what was sent. *)
Theorem envelopes_travel es a a' :
  Forall envelope_wf es → so_sent a = [] → send_many es a = (Ok (), a') →
  (∀ b, so_shut b = false → stream (so_in b) = so_sent a' →
     ∃ b', receive_many (length es) b = (Ok es, b') ∧ stream (so_in b') = []) ∧
  (∀ b n got b', so_shut b = false → stream (so_in b) `prefix_of` so_sent a' →
     receive_many n b = (Ok got, b') → got = take n es).
Proof.
  intros Hw H0 (Hv & Hsent)%send_many_ok. rewrite H0 in Hsent. cbn in Hsent. rewrite Hsent. split.
  - intros b Hb Hst. destruct (receive_many_frames es b [] Hb Hw Hv) as (ev & E & Hev); [by rewrite app_nil_r|].
    by eexists.
  - intros b n got b' Hb Hpre Hr. by eapply receive_many_prefix.
Qed.

(** ** Handshakes *)

Definition handshake_envelope (h : P2pHandshake) : P2pEnvelope :=
  mkEnvelope kP2pProtocolVersion Handshake 0 (handshake_layout h).

Lemma handshake_envelope_ok h : envelope_wf (handshake_envelope h) ∧ envelope_valid (handshake_envelope h).
Proof.
  unfold envelope_wf, envelope_valid, handshake_envelope. cbn [env_version env_type env_flags env_payload].
  rewrite length_handshake_layout. unfold is_u8, is_u16, u8_max, kP2pProtocolVersion, kP2pMaxPayloadSize. cbn. split; split_and!; try done; lia.
Qed.

Lemma make_handshake_ok h :
  handshake_valid h → make_p2p_handshake_envelope h = Ok (handshake_envelope h).
Proof.
  intros [Hr Hz]. unfold make_p2p_handshake_envelope.
  by rewrite (proj2 (serialize_handshake_ok h (handshake_layout h) Hz)).
Qed.

Lemma parse_handshake_ok h :
  handshake_wf h → handshake_valid h → parse_p2p_handshake_envelope (handshake_envelope h) = Ok h.
Proof.
  intros Hw Hv. unfold parse_p2p_handshake_envelope, handshake_envelope. cbn [env_version env_type env_flags env_payload].
  rewrite bool_decide_true by done. cbn. by apply deserialize_handshake_layout.
Qed.

(** Nodes of the same pool that are not the same node. *)
Definition compatible (a b : P2pHandshake) : Prop :=
  hs_network a = hs_network b ∧ hs_sidechain_id a = hs_sidechain_id b ∧ hs_node_id a ≠ hs_node_id b.
#[export] Instance compatible_dec a b : Decision (compatible a b).
Proof. unfold compatible. apply _. Defined.

Lemma compatible_sym a b : compatible a b → compatible b a.
Proof. intros (? & ? & ?). split_and!; congruence. Qed.

Lemma require_accepted_spec peer local :
  handshake_valid local →
  (compatible peer local → require_accepted_handshake peer local = Ok ()) ∧
  (¬ compatible peer local → ∃ e, require_accepted_handshake peer local = Throw e).
Proof.
  intros [_ Hz]. unfold require_accepted_handshake, resolved_p2p_sidechain_id, validate_p2p_handshake, compatible.
  rewrite Hz. cbn [negb mbind res_bind]. split.
  - intros (Hn & Hs & Hid). rewrite bool_decide_true, Hs, arr_eqb_refl by done. cbn [negb].
    by rewrite (proj2 (arr_eqb_false _ _) Hid).
  - intros Hnot. destruct (bool_decide _) eqn:E1; cbn [negb]; [|by eexists]. bool_prop.
    destruct (arr_eqb (hs_sidechain_id peer) _) eqn:E2; cbn [negb]; [|by eexists]. bool_prop.
    destruct (arr_eqb _ _) eqn:E3; [by eexists|]. bool_prop. by destruct Hnot.
Qed.

Lemma canonical_id_nonzero n id : canonical_p2p_sidechain_id n = Ok id → is_zero_sidechain_id id = false.
Proof.
  destruct n; [| |done];
    match goal with |- ?m = _ → _ => let v := eval vm_compute in m in replace m with v by (vm_compute; reflexivity) end;
    intros [= <-]; by vm_compute.
Qed.

Lemma normalized_ok h h' :
  handshake_wf h → normalized h = Ok h' →
  handshake_wf h' ∧ handshake_valid h' ∧ hs_node_id h' = hs_node_id h ∧ hs_network h' = hs_network h.
Proof.
  intros Hw Hn. unfold normalized in Hn. apply res_bind_ok in Hn as (id & Hid & Hn).
  assert (is_zero_sidechain_id id = false) as Hz.
  { unfold resolved_p2p_sidechain_id in Hid. destruct (is_zero_sidechain_id (hs_sidechain_id h)) eqn:E; cbn in Hid.
    - by eapply canonical_id_nonzero. - by injection Hid as <-. }
  apply res_bind_ok in Hn as (b & Hb & [= <-]). apply serialize_handshake_ok in Hb as [Hr _]; [|done].
  by split_and!.
Qed.

Lemma send_handshake h s :
  so_shut s = false → Forall send_goes_through (so_plan s) → handshake_valid h →
  ∃ plan, send_envelope_fd (handshake_envelope h) s =
    (Ok (), with_sent plan (envelope_layout (handshake_envelope h)) s).
Proof.
  intros Hs Hp Hv. unfold send_envelope_fd, exec_bind, exec_const.
  rewrite (proj2 (serialize_envelope_ok _ _) (conj (proj2 (handshake_envelope_ok h)) eq_refl)).
  destruct (send_all_goes (envelope_layout (handshake_envelope h)) s Hs Hp) as (plan & -> & _). by eexists.
Qed.

Lemma receive_sent s : so_sent (receive_envelope_fd s).2 = so_sent s.
Proof.
  assert (∀ size s, so_sent (recv_exact size s).2 = so_sent s) as Hr by (intros; apply recv_exact_loop_sent).
  unfold receive_envelope_fd, exec_bind at 1. rewrite <-(Hr kP2pEnvelopeHeaderSize s).
  destruct (recv_exact kP2pEnvelopeHeaderSize s) as [[h|] s1]; [|done]. unfold exec_bind, exec_const.
  destruct (validate_stream_header h); [|done]. cbn [snd]. destruct (negb _); [|done].
  rewrite <-(Hr (Z.to_nat a) s1). by destruct (recv_exact _ s1) as [[] s2].
Qed.

(** What the accepting side answers to the handshake of a peer. *)
Lemma accept_exchange_spec local peer s rest :
  so_shut s = false → Forall send_goes_through (so_plan s) →
  handshake_valid local → handshake_wf peer → handshake_valid peer →
  stream (so_in s) = envelope_layout (handshake_envelope peer) ++ rest →
  if decide (compatible peer local)
  then ∃ s', accept_exchange local s = (Ok peer, s') ∧
         so_sent s' = so_sent s ++ envelope_layout (handshake_envelope local)
  else ∃ e s', accept_exchange local s = (Throw e, s') ∧ so_sent s' = so_sent s.
Proof.
  intros Hs Hp Hl Hpw Hpv Hst.
  destruct (handshake_envelope_ok peer) as [Hw Hv].
  destruct (receive_frame s _ _ Hs Hw Hv Hst) as (ev & E & _).
  assert (accept_exchange local s =
    match require_accepted_handshake peer local with
    | Ok _ => (envelope <- exec_const (λ _, make_p2p_handshake_envelope local) ;;
               do send_envelope_fd envelope ;; exec_ret peer) (with_in ev s)
    | Throw e => (Throw e, with_in ev s)
    end) as ->.
  { unfold accept_exchange, exec_bind, exec_const. by rewrite E, parse_handshake_ok by done. }
  destruct (require_accepted_spec peer local Hl) as [Hyes Hno]. destruct (decide _) as [Hc|Hc].
  - rewrite (Hyes Hc). unfold exec_bind, exec_const. rewrite make_handshake_ok by done.
    destruct (send_handshake local (with_in ev s) Hs Hp Hl) as [plan ->]. by eexists.
  - destruct (Hno Hc) as [e ->]. by do 2 eexists.
Qed.

Lemma receive_nothing s : so_shut s = false → stream (so_in s) = [] → ∃ e s', receive_envelope_fd s = (Throw e, s').
Proof.
  intros Hs Hst. destruct (receive_envelope_fd s) as [[env|e] s'] eqn:E; [|by do 2 eexists].
  apply receive_frame_inv in E as (_ & _ & Hl & _); [|done]. by rewrite Hst, layout_header in Hl.
Qed.

Lemma connect_exchange_sends local s :
  so_shut s = false → Forall send_goes_through (so_plan s) → handshake_valid local →
  so_sent (connect_exchange local s).2 = so_sent s ++ envelope_layout (handshake_envelope local).
Proof.
  intros Hs Hp Hl. unfold connect_exchange, exec_bind at 1, exec_const at 1. rewrite make_handshake_ok by done.
  destruct (send_handshake local s Hs Hp Hl) as [plan Es]. unfold exec_bind at 1. rewrite Es.
  unfold exec_bind at 1. destruct (receive_envelope_fd _) as [[env|e] s'] eqn:E.
  - apply receive_frame_inv in E as (_ & _ & _ & ev & ->); [|done]. unfold exec_bind, exec_const.
    destruct (parse_p2p_handshake_envelope env); [|done]. by destruct (require_accepted_handshake _ _).
  - pose proof (receive_sent (with_sent plan (envelope_layout (handshake_envelope local)) s)) as Hr. by rewrite E in Hr.
Qed.

(** What the dialling side makes of the answer. *)
Lemma connect_exchange_spec local peer s rest :
  so_shut s = false → Forall send_goes_through (so_plan s) →
  handshake_valid local → handshake_wf peer → handshake_valid peer →
  (stream (so_in s) = envelope_layout (handshake_envelope peer) ++ rest → compatible peer local →
     (connect_exchange local s).1 = Ok peer) ∧
  (stream (so_in s) = [] → ∃ e, (connect_exchange local s).1 = Throw e).
Proof.
  intros Hs Hp Hl Hpw Hpv. destruct (send_handshake local s Hs Hp Hl) as [plan Es].
  set (s1 := with_sent _ _ _) in Es.
  assert (connect_exchange local s =
    (peer_envelope <- receive_envelope_fd ;;
     peer_handshake <- exec_const (λ _, parse_p2p_handshake_envelope peer_envelope) ;;
     do exec_const (λ _, require_accepted_handshake peer_handshake local) ;;
     exec_ret peer_handshake) s1) as ->.
  { unfold connect_exchange, exec_bind at 1, exec_const at 1. rewrite make_handshake_ok by done.
    unfold exec_bind at 1. by rewrite Es. }
  unfold exec_bind, exec_const. split.
  - intros Hst Hc. destruct (handshake_envelope_ok peer) as [Hw Hv].
    destruct (receive_frame s1 _ rest Hs Hw Hv Hst) as (ev & -> & _). rewrite parse_handshake_ok by done.
    by rewrite (proj1 (require_accepted_spec peer local Hl) Hc).
  - intros Hst. destruct (receive_nothing s1 Hs Hst) as (e & s2 & ->). by eexists.
Qed.

(** C39: the two ends of a connection agree.  When a node dials another and the network
    carries the bytes each of them sends to the other, in whatever pieces: if they are
    different nodes of the same network and sidechain, each accepts and knows the other by
    its handshake; otherwise both refuse. *)
Theorem handshake_agreement dialler listener local_d local_l d l :
  handshake_wf dialler → normalized dialler = Ok local_d →
  handshake_wf listener → normalized listener = Ok local_l →
  so_shut d = false → Forall send_goes_through (so_plan d) → so_sent d = [] →
  so_shut l = false → Forall send_goes_through (so_plan l) → so_sent l = [] →
  let '(rd, d') := connect_exchange local_d d in
  let '(rl, l') := accept_exchange local_l l in
  stream (so_in l) = so_sent d' → stream (so_in d) = so_sent l' →
  if decide (compatible local_d local_l) then rd = Ok local_l ∧ rl = Ok local_d
  else is_ok rd = false ∧ is_ok rl = false.
Proof.
  intros Hwd Hnd Hwl Hnl Hsd Hpd H0d Hsl Hpl H0l.
  apply normalized_ok in Hnd as (Hwd' & Hvd & _ & _); [|done].
  apply normalized_ok in Hnl as (Hwl' & Hvl & _ & _); [|done].
  pose proof (connect_exchange_sends local_d d Hsd Hpd Hvd) as Hsent. rewrite H0d, app_nil_l in Hsent.
  destruct (connect_exchange local_d d) as [rd d'] eqn:Ed. destruct (accept_exchange local_l l) as [rl l'] eqn:El.
  cbn [snd] in Hsent. intros Hlin Hdin. rewrite Hsent in Hlin.
  pose proof (accept_exchange_spec local_l local_d l [] Hsl Hpl Hvl Hwd' Hvd) as Ha.
  rewrite app_nil_r in Ha. specialize (Ha Hlin).
  destruct (connect_exchange_spec local_d local_l d [] Hsd Hpd Hvd Hwl' Hvl) as [Hyes Hno].
  rewrite Ed, app_nil_r in *. cbn [fst] in *. destruct (decide _) as [Hc|Hc].
  - destruct Ha as (l1 & E & Hsl'). rewrite El in E. injection E as -> ->. rewrite H0l in Hsl'. cbn in Hsl'.
    split; [|done]. apply Hyes; [by rewrite Hdin, Hsl'|by apply compatible_sym].
  - destruct Ha as (e & l1 & E & Hsl'). rewrite El in E. injection E as -> ->. rewrite H0l in Hsl'.
    destruct Hno as [e' ->]; [by rewrite Hdin|]. done.
Qed.

(** ** Instances *)

Definition demo_frames : list P2pEnvelope := [demo_envelope; mkEnvelope 2 TipAnnounce 0 []].
Definition demo_sender : Socket := mkSocket [] [SendAccepts 5; SendInterrupted; SendAccepts 1] [] false.
Definition demo_sent : list byte := concat (envelope_layout <$> demo_frames).
(** The same bytes in pieces, with a signal between them. *)
Definition demo_receiver : Socket :=
  mkSocket [RecvData (take 3 demo_sent); RecvInterrupted; RecvData (drop 3 demo_sent)] [] [] false.

Lemma envelopes_travel_witness :
  ∃ b', receive_many 2 demo_receiver = (Ok demo_frames, b') ∧ stream (so_in b') = [].
Proof.
  assert (Forall envelope_wf demo_frames) as Hw.
  { repeat constructor; unfold is_u8, is_u16, u8_max; cbn; lia. }
  refine (proj1 (envelopes_travel demo_frames demo_sender _ Hw eq_refl eq_refl) demo_receiver eq_refl _).
  vm_compute. reflexivity.
Defined.

Definition demo_dialler : P2pHandshake :=
  mkHandshake P2pTestnet (fill_be 32 8) kP2pCapabilitiesV1 0 (arr_zero 32) 0 (fill_be 32 7).
Definition demo_listener : P2pHandshake :=
  mkHandshake P2pTestnet (fill_be 32 9) kP2pCapabilitiesV1 37889 (fill_be 32 5) 12 (fill_be 32 7).
Definition demo_socket (h : P2pHandshake) : Socket :=
  mkSocket [RecvData (envelope_layout (handshake_envelope h))] [SendAccepts 7] [] false.

Lemma handshake_agreement_witness :
  (connect_exchange demo_dialler (demo_socket demo_listener)).1 = Ok demo_listener ∧
  (accept_exchange demo_listener (demo_socket demo_dialler)).1 = Ok demo_dialler.
Proof.
  assert (∀ h, h = demo_dialler ∨ h = demo_listener → handshake_wf h) as Hw.
  { intros h [-> | ->]; unfold handshake_wf; cbn; unfold is_u64, is_u16, u64_max; split_and!; vm_compute; done. }
  pose proof (handshake_agreement demo_dialler demo_listener demo_dialler demo_listener
    (demo_socket demo_listener) (demo_socket demo_dialler) (Hw _ (or_introl eq_refl)) ltac:(vm_compute; reflexivity)
    (Hw _ (or_intror eq_refl)) ltac:(vm_compute; reflexivity) eq_refl ltac:(repeat constructor) eq_refl
    eq_refl ltac:(repeat constructor) eq_refl) as H.
  destruct (connect_exchange _ _) as [rd d'] eqn:Ed. destruct (accept_exchange _ _) as [rl l'] eqn:El.
  rewrite decide_True in H by (split_and!; vm_compute; done).
  apply H.
  - apply (f_equal (so_sent ∘ snd)) in Ed. cbn [compose snd] in Ed. rewrite <-Ed. vm_compute. reflexivity.
  - apply (f_equal (so_sent ∘ snd)) in El. cbn [compose snd] in El. rewrite <-El. vm_compute. reflexivity.
Defined.
