(* ===== verification/TokenBucket.v ===== *)
(** Rate limits: [include/zano_p2pool/token_bucket.hpp].  A [double] is an IEEE 754
    binary64 number, with the operations of [SpecFloat] at that format; clock readings are
    nanoseconds. *)
From S2P Require Import Prelude.
From Stdlib Require Import Floats.SpecFloat.

Abbreviation double := spec_float.

Definition double_of_Z (z : Z) : double := binary_normalize 53 1024 z 0 false.
Definition double_add (x y : double) : double := SFadd 53 1024 x y.
Definition double_sub (x y : double) : double := SFsub 53 1024 x y.
Definition double_mul (x y : double) : double := SFmul 53 1024 x y.
Definition double_div (x y : double) : double := SFdiv 53 1024 x y.

Definition is_finite (x : double) : bool :=
  match x with S754_zero _ | S754_finite _ _ _ => true | S754_infinity _ | S754_nan => false end.

Record TokenBucketConfig := mkBucketConfig { tc_burst : Z; tc_refill_per_second : double }.

Definition validate_token_bucket_config (config : TokenBucketConfig) (label : string) : res () :=
  _ ← throw_if (tc_burst config =? 0) RuntimeError (label +:+ " burst must be nonzero");
  throw_if (negb (is_finite (tc_refill_per_second config)) ||
            SFleb (tc_refill_per_second config) (double_of_Z 0)) RuntimeError
    (label +:+ " refill rate must be finite and positive").

Record TokenBucket := mkBucket {
  tb_config : TokenBucketConfig;
  tb_tokens : double;
  tb_last_refill : Z }.

Definition new_token_bucket (config : TokenBucketConfig) (now : Z) : res TokenBucket :=
  _ ← validate_token_bucket_config config "token bucket";
  mret (mkBucket config (double_of_Z (tc_burst config)) now).

(** [std::min(a, b)]. *)
Definition double_min (a b : double) : double := if SFltb b a then b else a.

(** [duration<double>(d).count()] of [d] nanoseconds. *)
Definition seconds_of (nanoseconds : Z) : double := double_div (double_of_Z nanoseconds) (double_of_Z 1000000000).

Definition consume (now : Z) (b : TokenBucket) : bool * TokenBucket :=
  let b :=
    if tb_last_refill b <? now then
      let elapsed_seconds := seconds_of (now - tb_last_refill b) in
      mkBucket (tb_config b)
        (double_min (double_of_Z (tc_burst (tb_config b)))
           (double_add (tb_tokens b) (double_mul elapsed_seconds (tc_refill_per_second (tb_config b)))))
        now
    else b in
  if SFltb (tb_tokens b) (double_of_Z 1) then (false, b)
  else (true, mkBucket (tb_config b) (double_sub (tb_tokens b) (double_of_Z 1)) (tb_last_refill b)).

(** How many of [n] messages at the same moment pass. *)
Fixpoint passed (n : nat) (now : Z) (b : TokenBucket) : nat * TokenBucket :=
  match n with
  | O => (O, b)
  | S n => let '(ok, b) := consume now b in
           let '(k, b) := passed n now b in ((if ok then S k else k), b)
  end.

(** The limit of the P2P runtime: 512 messages at once, then 256 a second. *)
Definition default_message_limit : TokenBucketConfig := mkBucketConfig 512 (double_of_Z 256).

Example default_limit_holds :
  let b := mkBucket default_message_limit (double_of_Z 512) 0 in
  let '(k, b) := passed 600 0 b in
  let '(k', _) := passed 600 (3 * 1000000000 / 2) b in k = 512%nat ∧ k' = 384%nat.
Proof. vm_compute. done. Qed.
