(* ===== verification/P2pRuntime.v ===== *)
(** The peers of a node: [include/zano_p2pool/p2p_runtime.hpp], [src/p2p_runtime.cpp].

    Peer and target objects live in stores that only grow, and the vectors of the class
    hold their indices: an index is a [shared_ptr], so a target and [peers_] share a peer.
    Each section under a mutex is one definition; what runs between them on other threads
    is in [P2pRuntimeSpec].  Clock readings and ban durations are nanoseconds, delays
    milliseconds as in the source. *)
From S2P Require Import Prelude CryptoHash Share SidechainParams P2pProtocol PeerGuard BlockTemplate.
From S2P Require Import RpcClient TokenBucket P2pTransport P2pNode.
Import PeerScore.
Local Open Scope pool_scope.

Definition same_endpoint (left right : P2pEndpoint) : bool :=
  bool_decide (ep_host left = ep_host right) && (ep_port left =? ep_port right).

Definition next_backoff (current maximum : Z) : Z :=
  if maximum <=? current then maximum
  else if maximum / 2 <? current then maximum
  else Z.min (current * 2) maximum.

(** ** State *)

Record P2pRuntimeConfig := mkRuntimeConfig {
  rc_listen_endpoint : P2pEndpoint;
  rc_handshake : P2pHandshake;
  rc_outbound_reconnect_initial : Z;
  rc_outbound_reconnect_max : Z;
  rc_peer_score : P2pPeerScoreConfig;
  rc_max_peers : nat;
  rc_inbound_message_rate_limit : TokenBucketConfig }.

Record Peer := mkPeer {
  pe_connection : P2pTcpConnection;
  pe_inbound_message_limiter : TokenBucket;
  pe_alive : bool;
  pe_reader : bool }.

(** [ot_next_attempt] is [None] for [time_point::max()]. *)
Record OutboundTarget := mkTarget {
  ot_endpoint : P2pEndpoint;
  ot_peer : option nat;
  ot_node_id : option NodeId;
  ot_backoff : Z;
  ot_next_attempt : option Z;
  ot_attempt_in_progress : bool }.

Record RuntimeState := mkRuntimeState {
  rt_config : P2pRuntimeConfig;
  rt_peer_scores : Entries;
  rt_running : bool;
  rt_listener : option P2pTcpListener;
  rt_peer_store : list Peer;
  rt_peers : list nat;
  rt_target_store : list OutboundTarget;
  rt_outbound_targets : list nat }.

(** The runtime, the sockets, and what the callbacks work on. *)
Record World (App : Type) := mkWorld { wd_runtime : RuntimeState; wd_net : Net; wd_app : App }.
Arguments mkWorld {_}.
Arguments wd_runtime {_}.
Arguments wd_net {_}.
Arguments wd_app {_}.

Definition pe_node_id (p : Peer) : NodeId := hs_node_id (cn_peer_handshake (pe_connection p)).

Definition set_alive (alive : bool) (p : Peer) : Peer :=
  mkPeer (pe_connection p) (pe_inbound_message_limiter p) alive (pe_reader p).
Definition set_connection (c : P2pTcpConnection) (p : Peer) : Peer :=
  mkPeer c (pe_inbound_message_limiter p) (pe_alive p) (pe_reader p).
Definition set_limiter (b : TokenBucket) (p : Peer) : Peer :=
  mkPeer (pe_connection p) b (pe_alive p) (pe_reader p).
Definition set_reader (joinable : bool) (p : Peer) : Peer :=
  mkPeer (pe_connection p) (pe_inbound_message_limiter p) (pe_alive p) joinable.

Definition set_rt_config x s := mkRuntimeState x (rt_peer_scores s) (rt_running s) (rt_listener s)
  (rt_peer_store s) (rt_peers s) (rt_target_store s) (rt_outbound_targets s).
Definition set_peer_scores x s := mkRuntimeState (rt_config s) x (rt_running s) (rt_listener s)
  (rt_peer_store s) (rt_peers s) (rt_target_store s) (rt_outbound_targets s).
Definition set_running x s := mkRuntimeState (rt_config s) (rt_peer_scores s) x (rt_listener s)
  (rt_peer_store s) (rt_peers s) (rt_target_store s) (rt_outbound_targets s).
Definition set_listener x s := mkRuntimeState (rt_config s) (rt_peer_scores s) (rt_running s) x
  (rt_peer_store s) (rt_peers s) (rt_target_store s) (rt_outbound_targets s).
Definition set_peer_store x s := mkRuntimeState (rt_config s) (rt_peer_scores s) (rt_running s) (rt_listener s)
  x (rt_peers s) (rt_target_store s) (rt_outbound_targets s).
Definition set_peers x s := mkRuntimeState (rt_config s) (rt_peer_scores s) (rt_running s) (rt_listener s)
  (rt_peer_store s) x (rt_target_store s) (rt_outbound_targets s).
Definition set_target_store x s := mkRuntimeState (rt_config s) (rt_peer_scores s) (rt_running s) (rt_listener s)
  (rt_peer_store s) (rt_peers s) x (rt_outbound_targets s).
Definition set_outbound_targets x s := mkRuntimeState (rt_config s) (rt_peer_scores s) (rt_running s) (rt_listener s)
  (rt_peer_store s) (rt_peers s) (rt_target_store s) x.

Definition peer_alive (s : RuntimeState) (i : nat) : bool :=
  match rt_peer_store s !! i with Some p => pe_alive p | None => false end.
Definition peer_has_id (s : RuntimeState) (id : NodeId) (i : nat) : bool :=
  match rt_peer_store s !! i with Some p => arr_eqb (pe_node_id p) id | None => false end.

(** The live peers of [peers_], in order. *)
Definition live_peers (s : RuntimeState) : list nat := filter (λ i, peer_alive s i = true) (rt_peers s).

Definition new_runtime (config : P2pRuntimeConfig) : res RuntimeState :=
  (_ ← new_score_book (rc_peer_score config);
  mret (mkRuntimeState config ∅ false None [] [] [] []))%stdpp.

Section Runtime.
Context `{!SocketApi} {App : Type}.
Implicit Types w : World App.

(** The two callbacks; an absent one is [None]. *)
Context (handler : option (P2pHandshake → P2pEnvelope → exec (World App) ())).
Context (peer_connected_handler : option (P2pHandshake → exec (World App) (option P2pEnvelope))).

Definition update (f : RuntimeState → RuntimeState) w : World App := mkWorld (f (wd_runtime w)) (wd_net w) (wd_app w).
Definition update_net (f : Net → Net) w : World App := mkWorld (wd_runtime w) (f (wd_net w)) (wd_app w).
Definition update_peer (i : nat) (f : Peer → Peer) : World App → World App :=
  update (λ s, set_peer_store (alter f i (rt_peer_store s)) s).
Definition update_target (i : nat) (f : OutboundTarget → OutboundTarget) : World App → World App :=
  update (λ s, set_target_store (alter f i (rt_target_store s)) s).

Definition on_net {A} : exec Net A → exec (World App) A :=
  zoom wd_net (λ net w, mkWorld (wd_runtime w) net (wd_app w)).

Definition connection_of w (i : nat) : option P2pTcpConnection :=
  pe_connection <$> rt_peer_store (wd_runtime w) !! i.

(** [peer->connection.shutdown()] and [close()]. *)
Definition shutdown_peer (i : nat) w : World App :=
  match connection_of w i with Some c => update_net (shutdown c) w | None => w end.
Definition close_peer (i : nat) w : World App :=
  match connection_of w i with
  | Some c => let '(c, net) := close c (wd_net w) in
              update_peer i (set_connection c) (update_net (λ _, net) w)
  | None => w
  end.
(** [peer->alive.store(false)] and the shutdown of its socket. *)
Definition drop_peer (i : nat) w : World App := shutdown_peer i (update_peer i (set_alive false) w).

(** ** Sending *)

Definition send_peer (i : nat) (envelope : P2pEnvelope) w : bool * World App :=
  match rt_peer_store (wd_runtime w) !! i with
  | None => (false, w)
  | Some peer =>
      if negb (pe_alive peer) then (false, w) else
      match on_net (send_envelope (pe_connection peer) envelope) w with
      | (Ok _, w) => (true, w)
      | (Throw _, w) => (false, drop_peer i w)
      end
  end.

(** A loop over a copy of [peers_]: each live peer that [wanted] selects is sent to. *)
Fixpoint send_each (wanted : NodeId → bool) (envelope : P2pEnvelope) (peers : list nat) (sent : bool) w
    : bool * World App :=
  match peers with
  | [] => (sent, w)
  | i :: peers =>
      match rt_peer_store (wd_runtime w) !! i with
      | Some peer =>
          if pe_alive peer && wanted (pe_node_id peer) then
            let '(ok, w) := send_peer i envelope w in send_each wanted envelope peers (ok || sent) w
          else send_each wanted envelope peers sent w
      | None => send_each wanted envelope peers sent w
      end
  end.

Definition send_to (id : NodeId) (envelope : P2pEnvelope) w : bool * World App :=
  send_each (λ n, arr_eqb n id) envelope (rt_peers (wd_runtime w)) false w.
Definition broadcast (envelope : P2pEnvelope) w : World App :=
  (send_each (λ _, true) envelope (rt_peers (wd_runtime w)) false w).2.
Definition broadcast_except (excluded : NodeId) (envelope : P2pEnvelope) w : World App :=
  (send_each (λ n, negb (arr_eqb n excluded)) envelope (rt_peers (wd_runtime w)) false w).2.

(** ** Queries *)

Definition peer_count w : nat := length (live_peers (wd_runtime w)).
Definition peer_handshakes w : list P2pHandshake :=
  omap (λ i, cn_peer_handshake <$> connection_of w i) (live_peers (wd_runtime w)).

(** Queries of the score book refresh the entry they look at. *)
Definition on_scores {A} (f : Entries → A * Entries) w : A * World App :=
  let '(a, entries) := f (rt_peer_scores (wd_runtime w)) in (a, update (set_peer_scores entries) w).
Definition peer_score (id : NodeId) (now : Z) : World App → Z * World App := on_scores (score id now).
Definition peer_banned (id : NodeId) (now : Z) : World App → bool * World App := on_scores (banned id now).

(** ** Misbehaviour *)

Definition report_peer_misbehavior (id : NodeId) (penalty now : Z) w : World App :=
  let '(result, w) := on_scores (penalize (rc_peer_score (rt_config (wd_runtime w))) id penalty now) w in
  if negb (pr_ban_started result) then w
  else
    let banned_peers := filter (λ i, peer_alive (wd_runtime w) i && peer_has_id (wd_runtime w) id i = true)
                          (rt_peers (wd_runtime w)) in
    foldl (λ w i, drop_peer i w) w banned_peers.

(** ** Admission *)

(** The checks before [peers_mutex_]: a node that is stopped, its own identity, and a
    banned one are refused. *)
Definition admission_check (c : P2pTcpConnection) (now : Z) w : bool * World App :=
  let id := hs_node_id (cn_peer_handshake c) in
  if negb (rt_running (wd_runtime w)) then (false, update_net (λ net, (close c net).2) w)
  else if arr_eqb id (hs_node_id (rc_handshake (rt_config (wd_runtime w))))
  then (false, update_net (λ net, (close c net).2) w)
  else
    let '(is_banned, w) := peer_banned id now w in
    if is_banned then (false, update_net (λ net, (close c net).2) w) else (true, w).

(** The section under [peers_mutex_]: duplicates of a live peer and more than [max_peers]
    are refused. *)
Definition insert_peer (c : P2pTcpConnection) (now : Z) : exec (World App) (option nat) := λ w,
  let s := wd_runtime w in
  match new_token_bucket (rc_inbound_message_rate_limit (rt_config s)) now with
  | Throw e => (Throw e, update_net (λ net, (close c net).2) w)
  | Ok limiter =>
      let duplicate := existsb (λ i, peer_alive s i && peer_has_id s (hs_node_id (cn_peer_handshake c)) i) (rt_peers s) in
      if duplicate || (rc_max_peers (rt_config s) <=? length (live_peers s))%nat
      then (Ok None, update_net (λ net, (close c net).2) w)
      else
        let i := length (rt_peer_store s) in
        (Ok (Some i), update (λ s, set_peers (rt_peers s ++ [i])
           (set_peer_store (rt_peer_store s ++ [mkPeer c limiter true false]) s)) w)
  end.

(** After it: the first request to the peer, before its reader thread runs. *)
Definition initial_request (i : nat) : exec (World App) () := λ w,
  match peer_connected_handler, connection_of w i with
  | Some f, Some c =>
      (initial <- f (cn_peer_handshake c) ;;
       match initial with
       | None => exec_ret ()
       | Some envelope => λ w,
           let '(sent, w) := send_peer i envelope w in
           (throw_if (negb sent) RuntimeError "P2P initial peer sync send failed", w)
       end) w
  | _, _ => (Ok (), w)
  end.

Definition greet_peer (i : nat) : exec (World App) () := λ w,
  match (do initial_request i ;; exec_modify (update_peer i (set_reader true))) w with
  | (Ok _, w) => (Ok (), w)
  | (Throw e, w) => (Throw e, close_peer i (drop_peer i w))
  end.

Definition add_peer (c : P2pTcpConnection) (now : Z) : exec (World App) (option nat) := λ w,
  let '(admitted, w) := admission_check c now w in
  if negb admitted then (Ok None, w)
  else
    (inserted <- insert_peer c now ;;
     match inserted with
     | None => exec_ret None
     | Some i => do greet_peer i ;; exec_ret (Some i)
     end) w.

(** One turn of [accept_loop]. *)
Definition accept_turn (now : Z) w : World App :=
  if negb (rt_running (wd_runtime w)) then w else
  match rt_listener (wd_runtime w) with
  | None => w
  | Some listener =>
      match on_net (accept_peer listener) w with
      | (Throw _, w) => w
      | (Ok c, w) =>
          if negb (rt_running (wd_runtime w)) then update_net (λ net, (close c net).2) w
          else (add_peer c now w).2
      end
  end.

(** ** Reading *)

(** One turn of [peer_loop]: whether the loop goes on. *)
Definition peer_turn (i : nat) (now : Z) w : bool * World App :=
  match rt_peer_store (wd_runtime w) !! i with
  | None => (false, w)
  | Some peer =>
      if negb (rt_running (wd_runtime w) && pe_alive peer) then (false, drop_peer i w) else
      match on_net (receive_envelope (pe_connection peer)) w with
      | (Throw _, w) => (false, drop_peer i w)
      | (Ok envelope, w) =>
          let '(allowed, limiter) := consume now (pe_inbound_message_limiter peer) in
          let w := update_peer i (set_limiter limiter) w in
          if negb allowed then (false, drop_peer i w) else
          match handler with
          | None => (true, w)
          | Some f =>
              match f (cn_peer_handshake (pe_connection peer)) envelope w with
              | (Ok _, w) => (true, w)
              | (Throw _, w) => (false, drop_peer i w)
              end
          end
      end
  end.

(** ** Reconnection *)

Definition reap_dead_peers w : World App :=
  let s := wd_runtime w in
  let dead := filter (λ i, peer_alive s i = false) (rt_peers s) in
  let w := update (set_peers (filter (λ i, peer_alive s i = true) (rt_peers s))) w in
  foldl (λ w i, close_peer i (update_peer i (set_reader false) (shutdown_peer i w))) w dead.

Definition set_target (peer : option nat) (node_id : option NodeId) (backoff : Z) (next_attempt : option Z)
    (in_progress : bool) (t : OutboundTarget) : OutboundTarget :=
  mkTarget (ot_endpoint t) peer node_id backoff next_attempt in_progress.

Definition milliseconds (count : Z) : Z := count * 1000000.

(** The target of a peer that has died is scheduled again. *)
Definition release_dead (now : Z) (s : RuntimeState) (t : OutboundTarget) : OutboundTarget :=
  match ot_peer t with
  | Some i =>
      if peer_alive s i then t
      else set_target None (match rt_peer_store s !! i with Some p => Some (pe_node_id p) | None => ot_node_id t end)
             (next_backoff (rc_outbound_reconnect_initial (rt_config s)) (rc_outbound_reconnect_max (rt_config s)))
             (Some (now + milliseconds (rc_outbound_reconnect_initial (rt_config s))))
             (ot_attempt_in_progress t) t
  | None => t
  end.

Definition due (now : Z) (t : OutboundTarget) : bool :=
  bool_decide (ot_peer t = None) && negb (ot_attempt_in_progress t) &&
  match ot_next_attempt t with Some at_ => at_ <=? now | None => false end.

(** The scan for the next target to dial, under [reconnect_mutex_]. *)
Fixpoint pick_target (now : Z) (targets : list nat) w : option nat * World App :=
  match targets with
  | [] => (None, w)
  | k :: targets =>
      match rt_target_store (wd_runtime w) !! k with
      | None => pick_target now targets w
      | Some candidate =>
          let candidate := release_dead now (wd_runtime w) candidate in
          let w := update_target k (λ _, candidate) w in
          let '(ban, w) :=
            match ot_peer candidate, ot_node_id candidate with
            | None, Some id => on_scores (banned_until id now) w
            | _, _ => (None, w)
            end in
          match ban with
          | Some until =>
              let w := update_target k (set_target (ot_peer candidate) (ot_node_id candidate) (ot_backoff candidate)
                         (Some until) (ot_attempt_in_progress candidate)) w in
              pick_target now targets w
          | None =>
              if due now candidate
              then (Some k, update_target k (set_target (ot_peer candidate) (ot_node_id candidate)
                      (ot_backoff candidate) (ot_next_attempt candidate) true) w)
              else pick_target now targets w
          end
      end
  end.

(** Dialling an endpoint and admitting the peer. *)
Definition dial (endpoint : P2pEndpoint) (now : Z) : exec (World App) nat := λ w,
  (c <- on_net (connect_p2p_peer endpoint (rc_handshake (rt_config (wd_runtime w)))) ;;
   peer <- add_peer c now ;;
   match peer with
   | Some i => exec_ret i
   | None => exec_throw RuntimeError "P2P peer rejected: self-connection, duplicate, or banned node id"
   end) w.

(** The target of a peer that was connected. *)
Definition settle (k i : nat) w : World App :=
  update_target k (λ t, set_target (Some i)
    (match rt_peer_store (wd_runtime w) !! i with Some p => Some (pe_node_id p) | None => ot_node_id t end)
    (rc_outbound_reconnect_initial (rt_config (wd_runtime w))) None false t) w.

(** The attempt of [reconnect_loop] on the target it has picked. *)
Definition reconnect_attempt (k : nat) (now later : Z) w : World App :=
  match rt_target_store (wd_runtime w) !! k with
  | None => w
  | Some target =>
      match dial (ot_endpoint target) now w with
      | (Ok i, w) =>
          if negb (rt_running (wd_runtime w)) then
            update_target k (λ t, set_target (ot_peer t) (ot_node_id t) (ot_backoff t) (ot_next_attempt t) false t)
              (drop_peer i w)
          else settle k i w
      | (Throw _, w) =>
          if negb (rt_running (wd_runtime w)) then
            update_target k (λ t, set_target (ot_peer t) (ot_node_id t) (ot_backoff t) (ot_next_attempt t) false t) w
          else
            update_target k (λ t, set_target (ot_peer t) (ot_node_id t)
              (next_backoff (ot_backoff t) (rc_outbound_reconnect_max (rt_config (wd_runtime w))))
              (Some (later + milliseconds (ot_backoff t))) false t) w
      end
  end.

(** One turn of [reconnect_loop]; when the runtime has stopped, what follows the loop. *)
Definition reconnect_turn (now later : Z) w : World App :=
  let running := rt_running (wd_runtime w) in
  let w := reap_dead_peers w in
  if negb running then w else
  match pick_target now (rt_outbound_targets (wd_runtime w)) w with
  | (None, w) => w
  | (Some k, w) => reconnect_attempt k now later w
  end.

Definition connect_peer (endpoint : P2pEndpoint) (now later : Z) : exec (World App) () := λ w,
  let s := wd_runtime w in
  if negb (rt_running s) then (throw RuntimeError "P2P runtime is not running", w) else
  let managed k := match rt_target_store s !! k with Some t => same_endpoint (ot_endpoint t) endpoint | None => false end in
  if existsb managed (rt_outbound_targets s)
  then (throw RuntimeError "P2P outbound endpoint is already managed", w) else
  let initial := rc_outbound_reconnect_initial (rt_config s) in
  let k := length (rt_target_store s) in
  let w := update (λ s, set_outbound_targets (rt_outbound_targets s ++ [k])
             (set_target_store (rt_target_store s ++ [mkTarget endpoint None None initial (Some now) true]) s)) w in
  match dial endpoint now w with
  | (Ok i, w) => (Ok (), settle k i w)
  | (Throw e, w) =>
      let config := rt_config (wd_runtime w) in
      (Throw e, update_target k (λ t, set_target (ot_peer t) (ot_node_id t)
         (next_backoff (rc_outbound_reconnect_initial config) (rc_outbound_reconnect_max config))
         (Some (later + milliseconds (rc_outbound_reconnect_initial config))) false t) w)
  end.

(** ** Starting and stopping *)

Definition start : exec (World App) () := λ w,
  let s := wd_runtime w in
  let config := rt_config s in
  (do exec_const (λ _, throw_if (rt_running s) RuntimeError "P2P runtime is already running") ;;
   do exec_const (λ _, throw_if (rc_max_peers config =? 0)%nat RuntimeError "P2P max peers must be nonzero") ;;
   do exec_const (λ _, validate_token_bucket_config (rc_inbound_message_rate_limit config) "P2P inbound message rate limit") ;;
   do exec_const (λ _, throw_if (rc_outbound_reconnect_initial config <=? 0) RuntimeError
        "P2P outbound reconnect initial delay must be positive") ;;
   do exec_const (λ _, throw_if (rc_outbound_reconnect_max config <? rc_outbound_reconnect_initial config) RuntimeError
        "P2P outbound reconnect maximum delay must be >= initial delay") ;;
   listener <- exec_const (λ _, new_listener (rc_listen_endpoint config) (rc_handshake config)) ;;
   listener <- on_net (listener_start listener) ;;
   exec_modify (update (λ s, set_running true (set_listener (Some listener)
     (set_rt_config (mkRuntimeConfig (rc_listen_endpoint config) (ls_local_handshake listener)
        (rc_outbound_reconnect_initial config) (rc_outbound_reconnect_max config) (rc_peer_score config)
        (rc_max_peers config) (rc_inbound_message_rate_limit config)) s))))) w.

Definition stop w : World App :=
  if negb (rt_running (wd_runtime w)) then w else
  let w := update (set_running false) w in
  let w := match rt_listener (wd_runtime w) with
           | Some listener => let '(listener, net) := listener_stop listener (wd_net w) in
                              update (set_listener (Some listener)) (update_net (λ _, net) w)
           | None => w
           end in
  let peers := rt_peers (wd_runtime w) in
  let w := foldl (λ w i, drop_peer i w) w peers in
  let w := update (set_peers []) w in
  let w := foldl (λ w i, close_peer i (update_peer i (set_reader false) (drop_peer i w))) w peers in
  update (λ s, set_listener None (set_outbound_targets [] s)) w.

(** What the node protocol is given: the interface [P2pNode.P2pRuntime]. *)
Definition runtime_interface (clock : World App → Z) : P2pRuntime (World App) := {|
  rn_peer_handshakes := peer_handshakes;
  rn_report_peer_misbehavior := λ id penalty w, report_peer_misbehavior id penalty (clock w) w;
  rn_send_to := send_to;
  rn_broadcast_except := broadcast_except |}.

End Runtime.
