(* ===== verification/P2pRuntimeSpec.v ===== *)
(** What the peer runtime guarantees, whatever its threads do between each other's critical
    sections: the theorems about [P2pRuntime]. *)
From S2P Require Import Prelude CryptoHash Share SidechainParams P2pProtocol PeerGuard BlockTemplate.
From S2P Require Import RpcClient TokenBucket P2pTransport P2pNode P2pRuntime.
Import PeerScore.
Local Open Scope pool_scope.

(** ** Critical sections

    The state of the class changes only by these sections, each of which runs under its
    mutex or is one atomic store.  [checked] are the connections that have passed the
    checks before [peers_mutex_]. *)

Abbreviation rstate := (list P2pTcpConnection * RuntimeState)%type.

(** Changes of a peer object that keep who it is and whether it lives. *)
Definition same_peer (p p' : Peer) : Prop := pe_node_id p' = pe_node_id p ∧ pe_alive p' = pe_alive p.

(** The change of a target that a section may make. *)
Inductive target_change (s : RuntimeState) (t : OutboundTarget) : OutboundTarget → Prop :=
| tc_release now : target_change s t (release_dead now s t)
| tc_ban until : target_change s t (set_target (ot_peer t) (ot_node_id t) (ot_backoff t) (Some until) (ot_attempt_in_progress t) t)
| tc_mark b : target_change s t (set_target (ot_peer t) (ot_node_id t) (ot_backoff t) (ot_next_attempt t) b t)
| tc_settle i p : rt_peer_store s !! i = Some p →
    target_change s t (set_target (Some i) (Some (pe_node_id p)) (rc_outbound_reconnect_initial (rt_config s)) None false t)
| tc_fail at_ : target_change s t (set_target (ot_peer t) (ot_node_id t)
    (next_backoff (ot_backoff t) (rc_outbound_reconnect_max (rt_config s))) (Some at_) false t)
| tc_first_fail at_ : target_change s t (set_target (ot_peer t) (ot_node_id t)
    (next_backoff (rc_outbound_reconnect_initial (rt_config s)) (rc_outbound_reconnect_max (rt_config s))) (Some at_) false t).

Definition admissible (s : RuntimeState) (c : P2pTcpConnection) : Prop :=
  (∀ i, i ∈ live_peers s → peer_has_id s (hs_node_id (cn_peer_handshake c)) i = false) ∧
  (length (live_peers s) < rc_max_peers (rt_config s))%nat.

Inductive rsection : rstate → rstate → Prop :=
| rs_die q s i : rsection (q, s) (q, set_peer_store (alter (set_alive false) i (rt_peer_store s)) s)
| rs_peer q s i f : (∀ p, rt_peer_store s !! i = Some p → same_peer p (f p)) →
    rsection (q, s) (q, set_peer_store (alter f i (rt_peer_store s)) s)
| rs_scores q s entries : rsection (q, s) (q, set_peer_scores entries s)
| rs_check q s c now : rt_running s = true →
    hs_node_id (cn_peer_handshake c) ≠ hs_node_id (rc_handshake (rt_config s)) →
    (banned (hs_node_id (cn_peer_handshake c)) now (rt_peer_scores s)).1 = false → rsection (q, s) (c :: q, s)
| rs_insert q s c limiter : c ∈ q → admissible s c →
    rsection (q, s) (q, set_peers (rt_peers s ++ [length (rt_peer_store s)])
      (set_peer_store (rt_peer_store s ++ [mkPeer c limiter true false]) s))
| rs_reap q s : rsection (q, s) (q, set_peers (live_peers s) s)
| rs_clear q s : rsection (q, s) (q, set_peers [] s)
| rs_target q s k t t' : rt_target_store s !! k = Some t → target_change s t t' →
    rsection (q, s) (q, set_target_store (<[k := t']> (rt_target_store s)) s)
| rs_manage q s endpoint now :
    (∀ k t, k ∈ rt_outbound_targets s → rt_target_store s !! k = Some t → ot_endpoint t ≠ endpoint) →
    rsection (q, s) (q, set_outbound_targets (rt_outbound_targets s ++ [length (rt_target_store s)])
      (set_target_store (rt_target_store s ++
         [mkTarget endpoint None None (rc_outbound_reconnect_initial (rt_config s)) (Some now) true]) s))
| rs_forget q s : rsection (q, s) (q, set_outbound_targets [] s)
| rs_listener q s l : rsection (q, s) (q, set_listener l s)
| rs_running q s b : rsection (q, s) (q, set_running b s)
| rs_handshake q s h : hs_node_id h = hs_node_id (rc_handshake (rt_config s)) →
    let c := rt_config s in
    rsection (q, s) (q, set_rt_config (mkRuntimeConfig (rc_listen_endpoint c) h (rc_outbound_reconnect_initial c)
      (rc_outbound_reconnect_max c) (rc_peer_score c) (rc_max_peers c) (rc_inbound_message_rate_limit c)) s).

Abbreviation rsections := (rtc rsection).

(** ** Invariant *)

Record runtime_inv (q : list P2pTcpConnection) (s : RuntimeState) : Prop := {
  ri_peers : NoDup (rt_peers s) ∧ Forall (λ i, (i < length (rt_peer_store s))%nat) (rt_peers s);
  ri_ids : ∀ i j p p', i ∈ live_peers s → j ∈ live_peers s → rt_peer_store s !! i = Some p →
    rt_peer_store s !! j = Some p' → pe_node_id p = pe_node_id p' → i = j;
  ri_self : ∀ i p, i ∈ live_peers s → rt_peer_store s !! i = Some p →
    pe_node_id p ≠ hs_node_id (rc_handshake (rt_config s));
  ri_checked : ∀ c, c ∈ q → hs_node_id (cn_peer_handshake c) ≠ hs_node_id (rc_handshake (rt_config s));
  ri_count : (length (live_peers s) ≤ rc_max_peers (rt_config s))%nat;
  ri_targets : NoDup (rt_outbound_targets s) ∧ Forall (λ k, (k < length (rt_target_store s))%nat) (rt_outbound_targets s);
  ri_endpoints : ∀ k l t t', k ∈ rt_outbound_targets s → l ∈ rt_outbound_targets s →
    rt_target_store s !! k = Some t → rt_target_store s !! l = Some t' → ot_endpoint t = ot_endpoint t' → k = l;
  ri_backoff : ∀ k t, rt_target_store s !! k = Some t →
    rc_outbound_reconnect_initial (rt_config s) ≤ ot_backoff t ≤ rc_outbound_reconnect_max (rt_config s);
  ri_retried : ∀ k t, rt_target_store s !! k = Some t → ot_next_attempt t = None → is_Some (ot_peer t);
  ri_owner : ∀ k t i, rt_target_store s !! k = Some t → ot_peer t = Some i →
    ∃ p, rt_peer_store s !! i = Some p ∧ ot_node_id t = Some (pe_node_id p) }.

Definition delays_ok (s : RuntimeState) : Prop :=
  0 < rc_outbound_reconnect_initial (rt_config s) ≤ rc_outbound_reconnect_max (rt_config s).

Lemma next_backoff_range initial current maximum :
  0 < initial → initial ≤ current ≤ maximum → initial ≤ next_backoff current maximum ≤ maximum.
Proof.
  unfold next_backoff. intros H0 H. destruct (Z.leb_spec maximum current); [lia|].
  destruct (Z.ltb_spec (maximum / 2) current); lia.
Qed.

Lemma elem_live s i : i ∈ live_peers s ↔ i ∈ rt_peers s ∧ peer_alive s i = true.
Proof. unfold live_peers. rewrite list_elem_of_filter. tauto. Qed.

(** Peers only die, leave the vector, or change in what does not identify them. *)
Record peers_shrink (s s' : RuntimeState) : Prop := {
  ps_config : rt_config s' = rt_config s;
  ps_peers : rt_peers s' ⊆ rt_peers s;
  ps_nodup : NoDup (rt_peers s) → NoDup (rt_peers s');
  ps_length : length (rt_peer_store s') = length (rt_peer_store s);
  ps_store : ∀ i p', rt_peer_store s' !! i = Some p' → ∃ p, rt_peer_store s !! i = Some p ∧
    pe_node_id p' = pe_node_id p ∧ (pe_alive p' = true → pe_alive p = true);
  ps_targets : rt_target_store s' = rt_target_store s ∧ rt_outbound_targets s' = rt_outbound_targets s }.

Lemma shrink_live s s' i : peers_shrink s s' → i ∈ live_peers s' → i ∈ live_peers s.
Proof.
  intros Hs. rewrite !elem_live. intros [Hi Ha]. split; [by apply Hs|].
  unfold peer_alive in *. destruct (rt_peer_store s' !! i) as [p'|] eqn:E; [|done].
  destruct (ps_store _ _ Hs _ _ E) as (p & -> & _ & Hal). auto.
Qed.

Lemma shrink_inv q s s' : peers_shrink s s' → runtime_inv q s → runtime_inv q s'.
Proof.
  intros Hs [[Hnd Hr] Hid Hself Hq Hc Ht He Hb Hn Ho]. pose proof (shrink_live s s') as Hlive.
  pose proof (ps_store _ _ Hs) as Hst. destruct (ps_targets _ _ Hs) as [Ets Eot].
  pose proof (ps_config _ _ Hs) as Ec. pose proof (ps_length _ _ Hs) as El.
  constructor; rewrite ?Ec, ?Ets, ?Eot; try done.
  - split; [by apply Hs|]. rewrite El, Forall_forall in *. intros i Hi. by apply Hr, Hs.
  - intros i j p p' Hi Hj (p0 & E1 & Hp0 & _)%Hst (p1 & E2 & Hp1 & _)%Hst Heq. apply (Hid i j p0 p1); auto. congruence.
  - intros i p Hi (p0 & E1 & -> & _)%Hst. apply (Hself i); auto.
  - etrans; [|exact Hc]. apply submseteq_length, NoDup_submseteq; [|intros i Hi; auto].
    apply NoDup_filter. by apply Hs.
  - intros k t i Hk Hi. destruct (Ho k t i Hk Hi) as (p & Ep & Hid').
    apply lookup_lt_Some in Ep as Hlt. rewrite <-El in Hlt. apply lookup_lt_is_Some in Hlt as [p' Ep'].
    destruct (Hst _ _ Ep') as (p0 & Ep0 & Hn0 & _). exists p'. split; [done|]. congruence.
Qed.

Lemma alter_shrink s i f :
  (∀ p, rt_peer_store s !! i = Some p →
     pe_node_id (f p) = pe_node_id p ∧ (pe_alive (f p) = true → pe_alive p = true)) →
  peers_shrink s (set_peer_store (alter f i (rt_peer_store s)) s).
Proof.
  intros Hf. constructor; cbn; try done; [by rewrite length_alter|].
  intros j p'. destruct (decide (i = j)) as [->|Hne].
  - rewrite list_lookup_alter_eq. intros (p & Ep & ->)%fmap_Some. destruct (Hf p Ep). eauto.
  - rewrite list_lookup_alter_ne by done. eauto.
Qed.

(** The bounds of a target and its owner survive its changes. *)
Lemma target_change_inv q s k t t' :
  delays_ok s → runtime_inv q s → rt_target_store s !! k = Some t → target_change s t t' →
  runtime_inv q (set_target_store (<[k := t']> (rt_target_store s)) s).
Proof.
  intros Hd [Hp Hid Hself Hq Hc [Htn Htr] He Hb Hn Ho] Hk Hch.
  assert (ot_endpoint t' = ot_endpoint t) as Hend.
  { destruct Hch; try done. unfold release_dead. destruct (ot_peer t) as [i|]; [|done]. by destruct (peer_alive s i). }
  pose proof (Hb k t Hk) as Hbt. unfold delays_ok in Hd.
  assert (rc_outbound_reconnect_initial (rt_config s) ≤ ot_backoff t' ≤ rc_outbound_reconnect_max (rt_config s)) as Hb'.
  { destruct Hch; cbn; try lia; try (apply next_backoff_range; lia).
    unfold release_dead. destruct (ot_peer t) as [i|]; [|done]. destruct (peer_alive s i); [done|].
    cbn. apply next_backoff_range; lia. }
  assert (ot_next_attempt t' = None → is_Some (ot_peer t')) as Hn'.
  { pose proof (Hn k t Hk) as Hnt. destruct Hch; cbn; try done; try (by eauto).
    unfold release_dead. destruct (ot_peer t) as [i|] eqn:Ep; [|by rewrite Ep]. by destruct (peer_alive s i); [rewrite Ep|]. }
  assert (∀ i, ot_peer t' = Some i → ∃ p, rt_peer_store s !! i = Some p ∧ ot_node_id t' = Some (pe_node_id p)) as Ho'.
  { intros j. pose proof (Ho k t) as Hot. destruct Hch; cbn; try (by intros; eapply Hot); [|intros [= <-]; by eexists].
    unfold release_dead. destruct (ot_peer t) as [i|] eqn:Ep; [|by rewrite Ep]. destruct (peer_alive s i); [|done].
    rewrite Ep. intros [= <-]. by eapply Hot. }
  constructor; cbn; try done.
  - split; [done|]. by rewrite length_insert.
  - intros a b u u' Ha Hb0 Hu Hu' Heq.
    apply list_lookup_insert_Some in Hu as [(<- & <- & _)|[_ Hu]];
      apply list_lookup_insert_Some in Hu' as [(<- & <- & _)|[_ Hu']]; try done;
      eapply He; eauto; congruence.
  - intros a u [(<- & <- & _)|[_ Hu]]%list_lookup_insert_Some; [done|by eapply Hb].
  - intros a u [(<- & <- & _)|[_ Hu]]%list_lookup_insert_Some; [done|by eapply Hn].
  - intros a u i [(<- & <- & _)|[_ Hu]]%list_lookup_insert_Some; [by apply Ho'|by eapply Ho].
Qed.

Lemma insert_inv q s c limiter :
  runtime_inv q s → c ∈ q → admissible s c →
  runtime_inv q (set_peers (rt_peers s ++ [length (rt_peer_store s)])
    (set_peer_store (rt_peer_store s ++ [mkPeer c limiter true false]) s)).
Proof.
  intros [[Hnd Hr] Hid Hself Hq Hc Ht He Hb Hn Ho] Hcq [Hfresh Hroom].
  set (n := length (rt_peer_store s)). set (p0 := mkPeer c limiter true false). set (s' := set_peers _ _).
  assert (∀ i p, rt_peer_store s' !! i = Some p → (rt_peer_store s !! i = Some p ∧ i ≠ n) ∨ (i = n ∧ p = p0)) as Hst.
  { intros i p. cbn. rewrite lookup_app_Some. intros [Hi|[Hge Hi]].
    - left. split; [done|]. apply lookup_lt_Some in Hi. unfold n. lia.
    - apply list_lookup_singleton_Some in Hi as [Hi <-]. right. split; [unfold n; lia|done]. }
  assert (∀ i, i ∈ live_peers s' → i ∈ live_peers s ∨ i = n) as Hlive.
  { intros i [Hi Ha]%elem_live. unfold s' in Hi. cbn in Hi. apply elem_of_app in Hi as [Hi|Hi%list_elem_of_singleton]; [left|by right].
    apply elem_live. split; [done|]. unfold peer_alive in *. destruct (rt_peer_store s' !! i) as [p|] eqn:E; [|done].
    destruct (Hst _ _ E) as [[-> _]|[-> _]]; [done|]. rewrite Forall_forall in Hr. specialize (Hr _ Hi). unfold n in Hr. lia. }
  assert (∀ i p, i ∈ live_peers s → rt_peer_store s !! i = Some p → pe_node_id p ≠ hs_node_id (cn_peer_handshake c)) as Hne.
  { intros i p Hi Ep Heq. specialize (Hfresh i Hi). unfold peer_has_id in Hfresh. rewrite Ep, Heq, arr_eqb_refl in Hfresh. done. }
  assert (∀ i, i ∈ live_peers s → i ≠ n) as Hlt.
  { intros i [Hi _]%elem_live ->. rewrite Forall_forall in Hr. specialize (Hr _ Hi). unfold n in Hr. lia. }
  constructor; try done.
  - cbn. split.
    + apply NoDup_app. split; [done|]. split; [|apply NoDup_singleton]. intros i Hi ->%list_elem_of_singleton.
      rewrite Forall_forall in Hr. specialize (Hr _ Hi). lia.
    + rewrite length_app, Forall_app. cbn. split; [|repeat constructor; lia].
      eapply Forall_impl; [exact Hr|]. cbn. lia.
  - intros i j p p' [Hi|Hi]%Hlive [Hj|Hj]%Hlive [[Ep Hin]|[Ei Ep]]%Hst [[Ep' Hjn]|[Ej Ep']]%Hst Heq; subst; try done;
      try (by eapply Hid); try (by destruct (Hlt _ Hi)); try (by destruct (Hlt _ Hj)).
    + by destruct (Hne _ _ Hi Ep).
    + by destruct (Hne _ _ Hj Ep').
  - intros i p [Hi|Hi]%Hlive [[Ep Hin]|[Ei ->]]%Hst; try done; [by eapply Hself|by apply Hq|by apply Hq].
  - transitivity (length (live_peers s ++ [n])); [|rewrite length_app; cbn; lia].
    apply submseteq_length, NoDup_submseteq.
    + apply NoDup_filter. cbn. apply NoDup_app. split; [done|]. split; [|apply NoDup_singleton].
      intros i Hi ->%list_elem_of_singleton. rewrite Forall_forall in Hr. specialize (Hr _ Hi). lia.
    + intros i [Hi|Hi]%Hlive; apply elem_of_app; [by left|right; by apply list_elem_of_singleton].
  - intros k t i Hk Hi. destruct (Ho k t i Hk Hi) as (p & Ep & Hid'). exists p. split; [|done]. cbn.
    by apply lookup_app_l_Some.
Qed.

Lemma manage_inv q s endpoint now :
  delays_ok s → runtime_inv q s →
  (∀ k t, k ∈ rt_outbound_targets s → rt_target_store s !! k = Some t → ot_endpoint t ≠ endpoint) →
  runtime_inv q (set_outbound_targets (rt_outbound_targets s ++ [length (rt_target_store s)])
    (set_target_store (rt_target_store s ++
       [mkTarget endpoint None None (rc_outbound_reconnect_initial (rt_config s)) (Some now) true]) s)).
Proof.
  intros Hd [Hp Hid Hself Hq Hc [Htn Htr] He Hb Hn Ho] Hnew. set (n := length (rt_target_store s)).
  set (t0 := mkTarget _ _ _ _ _ _). set (s' := set_outbound_targets _ _).
  assert (∀ i p, rt_target_store s' !! i = Some p → (rt_target_store s !! i = Some p ∧ i ≠ n) ∨ (i = n ∧ p = t0)) as Hst.
  { intros i p. cbn. rewrite lookup_app_Some. intros [Hi|[Hge Hi]].
    - left. split; [done|]. apply lookup_lt_Some in Hi. unfold n. lia.
    - apply list_lookup_singleton_Some in Hi as [Hi <-]. right. split; [unfold n; lia|done]. }
  assert (∀ k, k ∈ rt_outbound_targets s' → k ∈ rt_outbound_targets s ∨ k = n) as Hin.
  { intros k. cbn. rewrite elem_of_app, list_elem_of_singleton. done. }
  assert (∀ k, k ∈ rt_outbound_targets s → k ≠ n) as Hlt.
  { intros k Hk ->. rewrite Forall_forall in Htr. specialize (Htr _ Hk). unfold n in Htr. lia. }
  constructor; try done.
  - cbn. split.
    + apply NoDup_app. split; [done|]. split; [|apply NoDup_singleton]. intros i Hi ->%list_elem_of_singleton.
      rewrite Forall_forall in Htr. specialize (Htr _ Hi). lia.
    + rewrite length_app, Forall_app. cbn. split; [|repeat constructor; lia].
      eapply Forall_impl; [exact Htr|]. cbn. lia.
  - intros k l t t' [Hk|Hk]%Hin [Hl|Hl]%Hin [[Et Hkn]|[Ek Et]]%Hst [[Et' Hln]|[El Et']]%Hst Heq; subst; try done;
      try (by eapply He); try (by destruct (Hlt _ Hk)); try (by destruct (Hlt _ Hl)).
    + by destruct (Hnew _ _ Hk Et).
    + by destruct (Hnew _ _ Hl Et').
  - intros k t [[Et _]|[_ ->]]%Hst; [by eapply Hb|]. cbn. unfold delays_ok in Hd. lia.
  - intros k t [[Et _]|[_ ->]]%Hst; [by eapply Hn|done].
  - intros k t i [[Et _]|[_ ->]]%Hst; [by eapply Ho|done].
Qed.

Lemma rsection_inv q s q' s' :
  rsection (q, s) (q', s') → delays_ok s → runtime_inv q s → delays_ok s' ∧ runtime_inv q' s'.
Proof.
  intros Hstep Hd Hi. split; [by inversion Hstep; subst|].
  inversion Hstep; subst; try done.
  - eapply shrink_inv; [|done]. by apply alter_shrink.
  - eapply shrink_inv; [|done]. apply alter_shrink. intros p Ep.
    match goal with Hf : ∀ p, _ → same_peer p _ |- _ => by destruct (Hf p Ep) as [-> ->] end.
  - by destruct Hi.
  - destruct Hi. constructor; try done. by intros c' [->|Hc]%elem_of_cons; [|auto].
  - by apply insert_inv.
  - eapply shrink_inv; [|done]. constructor; try done; cbn.
    + intros i. rewrite elem_live. tauto.
    + apply NoDup_filter.
    + eauto.
  - eapply shrink_inv; [|done]. constructor; try done; cbn; [set_solver|intros; constructor|eauto].
  - by eapply target_change_inv.
  - by apply manage_inv.
  - destruct Hi. constructor; try done; cbn; [split; constructor|set_solver].
  - by destruct Hi.
  - by destruct Hi.
  - destruct Hi as [Hp Hid Hself Hq Hc Ht He Hb Hn Ho]. cbn in *. constructor; cbn; try done;
      match goal with Hh : hs_node_id _ = _ |- _ => by rewrite Hh end.
Qed.

(** ** The operations are sequences of sections *)

Section Sections.
Context {App : Type}.
Implicit Types w : World App.

Definition runs w w' : Prop := ∀ q, ∃ q', rsections (q, wd_runtime w) (q', wd_runtime w').

Lemma runs_same w w' : wd_runtime w' = wd_runtime w → runs w w'.
Proof. intros E q. exists q. by rewrite E. Qed.

Lemma runs_trans w1 w2 w3 : runs w1 w2 → runs w2 w3 → runs w1 w3.
Proof. intros H1 H2 q. destruct (H1 q) as [q1 Hq1]. destruct (H2 q1) as [q2 Hq2]. exists q2. by etrans. Qed.

Lemma runs_one w w' : (∀ q, rsection (q, wd_runtime w) (q, wd_runtime w')) → runs w w'.
Proof. intros H0 q. exists q. by apply rtc_once. Qed.

Lemma runs_foldl {A} (f : World App → A → World App) l : (∀ w x, runs w (f w x)) → ∀ w, runs w (foldl f w l).
Proof.
  intros Hf. induction l as [|x l IH]; intros w; cbn; [by apply runs_same|]. eapply runs_trans; [apply Hf|apply IH].
Qed.

Lemma on_net_runs {A} (m : exec Net A) w r w' : on_net m w = (r, w') → wd_runtime w' = wd_runtime w.
Proof. unfold on_net, zoom. destruct (m _). by intros [= _ <-]. Qed.

Lemma shutdown_peer_same i w : wd_runtime (shutdown_peer i w) = wd_runtime w.
Proof. unfold shutdown_peer. by destruct (connection_of w i). Qed.

Lemma drop_peer_runs i w : runs w (drop_peer i w).
Proof.
  eapply runs_trans; [apply (runs_one _ (update_peer i (set_alive false) w)); intros q; apply rs_die|].
  apply runs_same, shutdown_peer_same.
Qed.

Lemma update_peer_runs i f w :
  (∀ p, rt_peer_store (wd_runtime w) !! i = Some p → same_peer p (f p)) → runs w (update_peer i f w).
Proof. intros Hf. apply runs_one. intros q. by apply rs_peer. Qed.

Lemma close_peer_runs i w : runs w (close_peer i w).
Proof.
  unfold close_peer, connection_of. destruct (rt_peer_store (wd_runtime w) !! i) as [p|] eqn:E; cbn; [|by apply runs_same].
  apply runs_one. intros q. cbn. apply rs_peer. intros p' Ep'. rewrite E in Ep'. by injection Ep' as <-.
Qed.

Lemma on_scores_runs {A} (f : Entries → A * Entries) w : runs w (on_scores f w).2.
Proof. unfold on_scores. destruct (f _). apply runs_one. intros q. apply rs_scores. Qed.

Lemma send_peer_runs i e w : runs w (send_peer i e w).2.
Proof.
  unfold send_peer. destruct (rt_peer_store (wd_runtime w) !! i) as [p|]; [|by apply runs_same].
  destruct (negb _); [by apply runs_same|].
  destruct (on_net _ w) as [[u|x] w1] eqn:E; apply on_net_runs in E; cbn; [by apply runs_same|].
  eapply runs_trans; [by apply runs_same|apply drop_peer_runs].
Qed.

Lemma send_each_runs wanted e l : ∀ sent w, runs w (send_each wanted e l sent w).2.
Proof.
  induction l as [|i l IH]; intros sent w; cbn; [by apply runs_same|].
  destruct (rt_peer_store (wd_runtime w) !! i) as [p|]; [|apply IH]. destruct (_ && _); [|apply IH].
  pose proof (send_peer_runs i e w) as Hs. destruct (send_peer i e w) as [ok w1]. eapply runs_trans; [exact Hs|apply IH].
Qed.

Lemma report_runs id penalty now w : runs w (report_peer_misbehavior id penalty now w).
Proof.
  unfold report_peer_misbehavior. pose proof (on_scores_runs (penalize (rc_peer_score (rt_config (wd_runtime w))) id penalty now) w) as Hs.
  destruct (on_scores _ w) as [r w1]. destruct (negb _); [done|]. eapply runs_trans; [exact Hs|].
  apply runs_foldl. intros. apply drop_peer_runs.
Qed.

Lemma reap_runs w : runs w (reap_dead_peers w).
Proof.
  unfold reap_dead_peers. eapply runs_trans; [|apply runs_foldl].
  - apply runs_one. intros q. apply rs_reap.
  - intros w' i. eapply runs_trans; [|apply close_peer_runs].
    eapply runs_trans; [by apply runs_same, shutdown_peer_same|]. by apply update_peer_runs.
Qed.

(** Peer objects are never freed. *)
Lemma rsections_store (m m' : rstate) i :
  rsections m m' → is_Some (rt_peer_store m.2 !! i) → is_Some (rt_peer_store m'.2 !! i).
Proof.
  induction 1 as [|m m1 m' Hstep _ IH]; [done|]. intros Hi. apply IH. clear IH m'.
  rewrite !lookup_lt_is_Some in *. destruct Hstep; cbn in *; rewrite ?length_alter, ?length_app; try done. cbn. lia.
Qed.

Lemma runs_store w w' i :
  runs w w' → is_Some (rt_peer_store (wd_runtime w) !! i) → is_Some (rt_peer_store (wd_runtime w') !! i).
Proof. intros Hr. destruct (Hr []) as [q Hq]. apply (rsections_store _ _ i Hq). Qed.

(** ** Targets *)

Lemma update_target_runs k (f : OutboundTarget → OutboundTarget) w :
  (∀ t, rt_target_store (wd_runtime w) !! k = Some t → target_change (wd_runtime w) t (f t)) →
  runs w (update_target k f w).
Proof.
  intros Hf. destruct (rt_target_store (wd_runtime w) !! k) as [t|] eqn:E.
  - apply runs_one. intros q. unfold update_target, update. cbn.
    replace (alter f k (rt_target_store (wd_runtime w))) with (<[k := f t]> (rt_target_store (wd_runtime w))).
    { eapply rs_target; [done|]. by apply Hf. }
    apply list_eq. intros j. destruct (decide (k = j)) as [->|Hne].
    + rewrite list_lookup_alter_eq, E, list_lookup_insert_eq; [done|]. by eapply lookup_lt_Some.
    + by rewrite list_lookup_alter_ne, list_lookup_insert_ne.
  - apply runs_same. unfold update_target, update. cbn.
    replace (alter f k (rt_target_store (wd_runtime w))) with (rt_target_store (wd_runtime w)); [by destruct (wd_runtime w)|].
    apply list_eq. intros j. destruct (decide (k = j)) as [->|Hne].
    + by rewrite list_lookup_alter_eq, E.
    + by rewrite list_lookup_alter_ne.
Qed.

Lemma pick_target_runs now l : ∀ w, runs w (pick_target now l w).2.
Proof.
  induction l as [|k l IH]; intros w; cbn; [by apply runs_same|].
  destruct (rt_target_store (wd_runtime w) !! k) as [t|] eqn:E; [|apply IH].
  set (c := release_dead now (wd_runtime w) t). set (w1 := update_target k (λ _, c) w).
  assert (runs w w1) as H1.
  { apply update_target_runs. intros t' Et'. rewrite E in Et'. injection Et' as <-. apply tc_release. }
  assert (rt_target_store (wd_runtime w1) !! k = Some c) as Ec.
  { cbn. by rewrite list_lookup_alter_eq, E. }
  set (m := match ot_peer c with Some _ => _ | None => _ end).
  assert (runs w1 m.2 ∧ rt_target_store (wd_runtime m.2) = rt_target_store (wd_runtime w1)) as [H2 Em].
  { unfold m. destruct (ot_peer c), (ot_node_id c); try (split; [by apply runs_same|done]).
    split; [apply on_scores_runs|]. unfold on_scores. by destruct (banned_until _ _ _). }
  destruct m as [ban w2]. cbn [snd] in H2, Em. rewrite <-Em in Ec.
  assert (∀ f, target_change (wd_runtime w2) c (f c) → runs w (update_target k f w2)) as Hup.
  { intros f Hf. eapply runs_trans; [exact H1|]. eapply runs_trans; [exact H2|].
    apply update_target_runs. intros t' Et'. rewrite Ec in Et'. by injection Et' as <-. }
  destruct ban as [until|].
  - eapply runs_trans; [|apply IH]. apply Hup. apply tc_ban.
  - destruct (due now c); cbn; [apply Hup, tc_mark|]. eapply runs_trans; [exact H1|]. eapply runs_trans; [exact H2|apply IH].
Qed.

End Sections.

Section Calls.
#[local] Set Default Proof Using "Type*".
Context `{!SocketApi} {App : Type}.
Implicit Types w : World App.
Context (handler : option (P2pHandshake → P2pEnvelope → exec (World App) ())).
Context (peer_connected_handler : option (P2pHandshake → exec (World App) (option P2pEnvelope))).

(** The callbacks reach the runtime only through its operations. *)
Context (handler_runs : ∀ f h e w, handler = Some f → runs w (f h e w).2).
Context (connected_runs : ∀ f h w, peer_connected_handler = Some f → runs w (f h w).2).

Abbreviation greet_peer := (greet_peer peer_connected_handler).
Abbreviation add_peer := (add_peer peer_connected_handler).
Abbreviation dial := (dial peer_connected_handler).

Lemma admission_true c now w w1 :
  admission_check c now w = (true, w1) →
  ∀ q, rsections (q, wd_runtime w) (c :: q, wd_runtime w1).
Proof.
  unfold admission_check. destruct (rt_running (wd_runtime w)) eqn:Er; [|done]. cbn [negb].
  destruct (arr_eqb _ _) eqn:Es; [done|]. apply arr_eqb_false in Es. unfold peer_banned, on_scores.
  destruct (banned _ now _) as [b entries] eqn:Eb. destruct b; [done|]. intros [= <-] q.
  eapply rtc_l; [apply (rs_check q _ c now)|apply rtc_once, rs_scores]; try done. by rewrite Eb.
Qed.

Lemma admission_false c now w w1 : admission_check c now w = (false, w1) → runs w w1.
Proof.
  unfold admission_check. destruct (negb _); [intros [= <-]; by apply runs_same|].
  destruct (arr_eqb _ _); [intros [= <-]; by apply runs_same|]. unfold peer_banned.
  pose proof (on_scores_runs (banned (hs_node_id (cn_peer_handshake c)) now) w) as Hs.
  destruct (on_scores _ w) as [b w2]. destruct b; [|done]. intros [= <-].
  eapply runs_trans; [exact Hs|]. by apply runs_same.
Qed.

Lemma insert_peer_section c now w r w' :
  insert_peer c now w = (r, w') →
  (∀ q, c ∈ q → rsections (q, wd_runtime w) (q, wd_runtime w')) ∧
  (∀ i, r = Ok (Some i) → is_Some (rt_peer_store (wd_runtime w') !! i)).
Proof.
  unfold insert_peer. destruct (new_token_bucket _ now) as [limiter|x]; [|intros [= <- <-]; done].
  destruct (_ || _) eqn:E; intros [= <- <-]; [done|]. apply orb_false_iff in E as [Ed El]. split.
  - intros q Hq. apply rtc_once, rs_insert; [done|]. split; [|by apply Nat.leb_gt in El].
    intros i [Hi Ha]%elem_live. rewrite <-not_true_iff_false in Ed |- *. intros Hid. destruct Ed.
    apply existsb_exists. exists i. split; [by apply list_elem_of_In|]. by rewrite Ha.
  - intros i [= <-]. cbn. rewrite lookup_app_r, Nat.sub_diag by lia. by eexists.
Qed.

Lemma initial_request_runs i w : runs w (initial_request peer_connected_handler i w).2.
Proof.
  unfold initial_request. destruct peer_connected_handler as [f|]; [|by apply runs_same].
  destruct (connection_of w i) as [c|]; [|by apply runs_same]. unfold exec_bind.
  pose proof (connected_runs f (cn_peer_handshake c) w eq_refl) as Hf.
  destruct (f _ w) as [[[e|]|x] w1]; try done. cbn in Hf.
  pose proof (send_peer_runs i e w1) as Hs. destruct (send_peer i e w1) as [sent w2]. by eapply runs_trans.
Qed.

Lemma greet_peer_runs i w : runs w (greet_peer i w).2.
Proof.
  unfold P2pRuntime.greet_peer. unfold exec_bind. pose proof (initial_request_runs i w) as Hm.
  destruct (initial_request peer_connected_handler i w) as [[u|x] w1]; cbn in Hm |- *.
  - eapply runs_trans; [exact Hm|]. by apply update_peer_runs.
  - eapply runs_trans; [exact Hm|]. eapply runs_trans; [apply drop_peer_runs|apply close_peer_runs].
Qed.

Lemma add_peer_runs c now w :
  runs w (add_peer c now w).2 ∧
  ∀ i, (add_peer c now w).1 = Ok (Some i) → is_Some (rt_peer_store (wd_runtime (add_peer c now w).2) !! i).
Proof.
  unfold P2pRuntime.add_peer. destruct (admission_check c now w) as [[] w1] eqn:Ea; cbn [negb];
    [|split; [by eapply admission_false|done]].
  unfold exec_bind. destruct (insert_peer c now w1) as [r w2] eqn:Ei.
  destruct (insert_peer_section _ _ _ _ _ Ei) as [Hs Hsome].
  assert (runs w w2) as H2.
  { intros q. exists (c :: q). etrans; [by apply (admission_true _ _ _ _ Ea)|]. apply Hs. by left. }
  destruct r as [[i|]|x]; [|done|done].
  pose proof (greet_peer_runs i w2) as Hg. destruct (greet_peer i w2) as [[u|x] w3]; cbn in *.
  - split; [by eapply runs_trans|]. intros j [= <-]. eapply runs_store; [exact Hg|]. by apply Hsome.
  - split; [by eapply runs_trans|done].
Qed.

Lemma dial_runs endpoint now w :
  runs w (dial endpoint now w).2 ∧
  ∀ i, (dial endpoint now w).1 = Ok i → is_Some (rt_peer_store (wd_runtime (dial endpoint now w).2) !! i).
Proof.
  unfold P2pRuntime.dial, exec_bind. destruct (on_net _ w) as [[c|x] w1] eqn:E; apply on_net_runs in E;
    [|split; [by apply runs_same|done]].
  destruct (add_peer_runs c now w1) as [Ha Hsome]. destruct (add_peer c now w1) as [[[i|]|x] w2]; cbn in *;
    (split; [eapply runs_trans; [by apply runs_same|done]|]); try done.
  intros j [= <-]. by apply Hsome.
Qed.

Lemma settle_runs k i w : is_Some (rt_peer_store (wd_runtime w) !! i) → runs w (settle k i w).
Proof. intros [p Ep]. apply update_target_runs. intros t _. rewrite Ep. by apply tc_settle. Qed.

Lemma reconnect_attempt_runs k now later w : runs w (reconnect_attempt peer_connected_handler k now later w).
Proof.
  unfold reconnect_attempt. destruct (rt_target_store (wd_runtime w) !! k) as [t|]; [|by apply runs_same].
  destruct (dial_runs (ot_endpoint t) now w) as [Hd Hsome]. destruct (dial (ot_endpoint t) now w) as [[i|x] w1];
    cbn in Hd, Hsome; destruct (negb _); (eapply runs_trans; [exact Hd|]).
  - eapply runs_trans; [apply drop_peer_runs|]. apply update_target_runs. intros. apply tc_mark.
  - by apply settle_runs, Hsome.
  - apply update_target_runs. intros. apply tc_mark.
  - apply update_target_runs. intros. apply tc_fail.
Qed.

Lemma reconnect_turn_runs now later w : runs w (reconnect_turn peer_connected_handler now later w).
Proof.
  unfold reconnect_turn. destruct (negb _); [apply reap_runs|]. eapply runs_trans; [apply reap_runs|].
  set (w1 := reap_dead_peers w). pose proof (pick_target_runs now (rt_outbound_targets (wd_runtime w1)) w1) as Hp.
  destruct (pick_target now _ w1) as [[k|] w2]; [|done]. eapply runs_trans; [exact Hp|apply reconnect_attempt_runs].
Qed.

Lemma connect_peer_runs endpoint now later w : runs w (connect_peer peer_connected_handler endpoint now later w).2.
Proof.
  unfold connect_peer. destruct (negb _); [by apply runs_same|]. destruct (existsb _ _) eqn:Ex; [by apply runs_same|].
  set (w1 := update _ w). assert (runs w w1) as H1.
  { apply runs_one. intros q. cbn. apply rs_manage. intros k t Hk Et Heq. rewrite <-not_true_iff_false in Ex. destruct Ex.
    apply existsb_exists. exists k. split; [by apply list_elem_of_In|]. rewrite Et. unfold same_endpoint.
    rewrite Heq, bool_decide_true, Z.eqb_refl; done. }
  destruct (dial_runs endpoint now w1) as [Hd Hsome]. destruct (dial endpoint now w1) as [[i|x] w2] eqn:Edial; cbn in Hd, Hsome |- *.
  - eapply runs_trans; [exact H1|]. eapply runs_trans; [exact Hd|]. by apply settle_runs, Hsome.
  - eapply runs_trans; [exact H1|]. eapply runs_trans; [exact Hd|]. apply update_target_runs. intros t _. apply tc_first_fail.
Qed.

Lemma accept_turn_runs now w : runs w (accept_turn peer_connected_handler now w).
Proof.
  unfold accept_turn. destruct (negb _); [by apply runs_same|].
  destruct (rt_listener _) as [l|]; [|by apply runs_same].
  destruct (on_net _ w) as [[c|x] w1] eqn:E; apply on_net_runs in E; [|by apply runs_same].
  destruct (negb _); [by apply runs_same|]. eapply runs_trans; [by apply runs_same|apply add_peer_runs].
Qed.

Lemma peer_turn_runs i now w : runs w (peer_turn handler i now w).2.
Proof.
  unfold peer_turn. destruct (rt_peer_store (wd_runtime w) !! i) as [p|]; [|by apply runs_same].
  destruct (negb _); [apply drop_peer_runs|].
  destruct (on_net _ w) as [[e|x] w1] eqn:E; apply on_net_runs in E;
    (eapply runs_trans; [by apply (runs_same w w1)|]); [|apply drop_peer_runs].
  destruct (consume now _) as [ok b]. set (w2 := update_peer i (set_limiter b) w1).
  assert (runs w1 w2) as H2 by (by apply update_peer_runs).
  destruct (negb ok); [eapply runs_trans; [exact H2|apply drop_peer_runs]|].
  destruct handler as [f|]; [|done].
  pose proof (handler_runs f (cn_peer_handshake (pe_connection p)) e w2 eq_refl) as Hf.
  destruct (f _ e w2) as [[u|x] w3]; cbn in Hf |- *; [by eapply runs_trans|].
  eapply runs_trans; [exact H2|]. eapply runs_trans; [exact Hf|apply drop_peer_runs].
Qed.

Lemma listener_node_id endpoint h l net r net' :
  new_listener endpoint h = Ok l → listener_start l net = (Ok r, net') →
  hs_node_id (ls_local_handshake r) = hs_node_id h.
Proof.
  unfold new_listener. intros (h' & Hh & [= <-])%res_bind_ok. unfold normalized in Hh.
  apply res_bind_ok in Hh as (id & _ & Hh). apply res_bind_ok in Hh as (b & _ & [= <-]).
  unfold listener_start. destruct (listener_running _); [done|]. intros ([fd port] & net1 & _ & Hr)%exec_bind_ok.
  unfold exec_ret in Hr. injection Hr as <- _. cbn. by destruct (_ =? _).
Qed.

Lemma start_runs w : runs w (start w).2.
Proof.
  unfold start. set (s := wd_runtime w). unfold exec_bind, exec_const.
  repeat match goal with |- context [match throw_if ?b ?k ?t with _ => _ end] =>
    destruct (throw_if b k t); [|by apply runs_same] end.
  destruct (validate_token_bucket_config _ _); [|by apply runs_same].
  repeat match goal with |- context [match throw_if ?b ?k ?t with _ => _ end] =>
    destruct (throw_if b k t); [|by apply runs_same] end.
  destruct (new_listener _ _) as [l|x] eqn:El; [|by apply runs_same]. unfold on_net, zoom.
  destruct (listener_start l (wd_net w)) as [[r|x] net] eqn:Es; [|by apply runs_same]. cbn.
  intros q. exists q. eapply rtc_l; [|eapply rtc_l; [|apply rtc_once]].
  - apply (rs_handshake q s (ls_local_handshake r)). by eapply listener_node_id.
  - apply (rs_listener q _ (Some r)).
  - apply (rs_running q _ true).
Qed.

Lemma stop_runs w : runs w (stop w).
Proof.
  unfold stop. destruct (negb _); [by apply runs_same|]. cbv zeta.
  eapply runs_trans; [apply (runs_one w (update (set_running false) w)); intros q; apply (rs_running q)|].
  set (w1 := update _ w). set (w2 := match rt_listener (wd_runtime w1) with Some _ => _ | None => _ end).
  assert (runs w1 w2) as H2.
  { unfold w2. destruct (rt_listener (wd_runtime w1)) as [l|]; [|by apply runs_same]. cbn.
    apply runs_one. intros q. apply (rs_listener q). }
  eapply runs_trans; [exact H2|]. clearbody w2.
  set (w3 := foldl (λ w i, drop_peer i w) w2 (rt_peers (wd_runtime w2))). set (w4 := update (set_peers []) w3).
  set (w5 := foldl _ w4 (rt_peers (wd_runtime w2))).
  assert (runs w2 w3) as H3 by (apply runs_foldl; intros; apply drop_peer_runs).
  assert (runs w3 w4) as H4 by (apply runs_one; intros q; apply (rs_clear q)).
  assert (runs w4 w5) as H5.
  { apply runs_foldl. intros w' i. eapply runs_trans; [apply drop_peer_runs|].
    eapply runs_trans; [|apply close_peer_runs]. by apply update_peer_runs. }
  eapply runs_trans; [exact H3|]. eapply runs_trans; [exact H4|]. eapply runs_trans; [exact H5|].
  intros q. exists q. eapply rtc_l; [apply (rs_forget q)|]. apply rtc_once, (rs_listener q _ None).
Qed.

(** What callers and threads do. *)
Inductive RuntimeCall :=
| CallStart
| CallStop
| CallConnectPeer (endpoint : P2pEndpoint) (now later : Z)
| CallReport (id : NodeId) (penalty now : Z)
| CallScore (id : NodeId) (now : Z)
| CallBanned (id : NodeId) (now : Z)
| CallSendTo (id : NodeId) (envelope : P2pEnvelope)
| CallBroadcast (envelope : P2pEnvelope)
| CallBroadcastExcept (id : NodeId) (envelope : P2pEnvelope)
| AcceptTurn (now : Z)
| PeerTurn (i : nat) (now : Z)
| ReconnectTurn (now later : Z).

Definition run_runtime_call (call : RuntimeCall) w : World App :=
  match call with
  | CallStart => (start w).2
  | CallStop => stop w
  | CallConnectPeer endpoint now later => (connect_peer peer_connected_handler endpoint now later w).2
  | CallReport id penalty now => report_peer_misbehavior id penalty now w
  | CallScore id now => (peer_score id now w).2
  | CallBanned id now => (peer_banned id now w).2
  | CallSendTo id envelope => (send_to id envelope w).2
  | CallBroadcast envelope => broadcast envelope w
  | CallBroadcastExcept id envelope => broadcast_except id envelope w
  | AcceptTurn now => accept_turn peer_connected_handler now w
  | PeerTurn i now => (peer_turn handler i now w).2
  | ReconnectTurn now later => reconnect_turn peer_connected_handler now later w
  end.


End Calls.

(** ** The peers at any moment *)

Definition live_ids (s : RuntimeState) : list NodeId := omap (λ i, pe_node_id <$> rt_peer_store s !! i) (live_peers s).

Lemma live_ids_nodup q s : runtime_inv q s → NoDup (live_ids s).
Proof.
  intros [[Hnd Hr] Hid _ _ _ _ _ _ _ _]. unfold live_ids.
  assert (NoDup (live_peers s)) as Hl by (by apply NoDup_filter).
  assert (∀ i, i ∈ live_peers s → i ∈ live_peers s) as Hsub by done. revert Hsub Hl.
  generalize (live_peers s) at 1 3 4. intros l. induction l as [|i l IH]; intros Hsub Hl; cbn; [constructor|].
  apply NoDup_cons in Hl as [Hi Hl]. specialize (IH (λ j Hj, Hsub j (list_elem_of_further _ _ _ Hj)) Hl).
  destruct (rt_peer_store s !! i) as [p|] eqn:Ep; cbn; [|done]. constructor; [|done].
  intros (j & Hj & Ej)%list_elem_of_omap. apply fmap_Some in Ej as (p' & Ep' & Heq). destruct Hi.
  rewrite (Hid i j p p'); try done; apply Hsub; [by left|by right].
Qed.

Lemma initial_inv config s : new_runtime config = Ok s → runtime_inv [] s ∧ rt_config s = config.
Proof.
  unfold new_runtime. intros (c & _ & [= <-])%res_bind_ok. split; [|done].
  constructor; cbn; try done; try (split; constructor); try set_solver; try (intros; by rewrite lookup_nil in *). lia.
Qed.

Lemma sections_inv m m' :
  rsections m m' → delays_ok m.2 → runtime_inv m.1 m.2 → delays_ok m'.2 ∧ runtime_inv m'.1 m'.2.
Proof.
  induction 1 as [|[q s] [q1 s1] m' Hstep _ IH]; [done|]. intros Hd Hi.
  destruct (rsection_inv _ _ _ _ Hstep Hd Hi). by apply IH.
Qed.



(** ** Bans *)

Section Bans.
Context {App : Type}.
Implicit Types w : World App.

Lemma drop_all_store l : ∀ w j,
  rt_peer_store (wd_runtime (foldl (λ w i, drop_peer i w) w l)) !! j =
  (if bool_decide (j ∈ l) then set_alive false else id) <$> rt_peer_store (wd_runtime w) !! j.
Proof.
  induction l as [|i l IH]; intros w j; cbn [foldl].
  { rewrite bool_decide_false by set_solver. by destruct (_ !! j). }
  rewrite IH. unfold drop_peer. rewrite shutdown_peer_same. cbn. destruct (decide (i = j)) as [->|Hne].
  - rewrite list_lookup_alter_eq, (bool_decide_true (j ∈ j :: l)) by set_solver.
    destruct (rt_peer_store (wd_runtime w) !! j) as [p|]; [|done]. cbn. by destruct (bool_decide _).
  - rewrite list_lookup_alter_ne by done. f_equal.
    destruct (decide (j ∈ l)); [rewrite !bool_decide_true by set_solver|rewrite !bool_decide_false by set_solver]; done.
Qed.

Lemma drop_all_rest l : ∀ w,
  rt_peers (wd_runtime (foldl (λ w i, drop_peer i w) w l)) = rt_peers (wd_runtime w) ∧
  rt_peer_scores (wd_runtime (foldl (λ w i, drop_peer i w) w l)) = rt_peer_scores (wd_runtime w).
Proof.
  induction l as [|i l IH]; intros w; cbn [foldl]; [done|]. destruct (IH (drop_peer i w)) as [-> ->].
  unfold drop_peer. by rewrite shutdown_peer_same.
Qed.

(** A ban in the book at the time of a query. *)
Definition ban_stands (id : NodeId) (now : Z) (entries : Entries) : Prop :=
  ∃ e until, entries !! id = Some e ∧ sc_banned_until e = Some until ∧ now < until.

Lemma ban_refresh id now entries :
  ban_stands id now entries → is_Some (banned_until id now entries).1.
Proof.
  intros (e & until & E & Hu & Hlt). unfold banned_until. rewrite E. cbn. unfold refresh_locked.
  by rewrite Hu, (proj2 (Z.leb_gt _ _)), Hu by done.
Qed.

Lemma ban_kept id other now entries :
  ban_stands id now entries → ban_stands id now (banned_until other now entries).2.
Proof.
  intros (e & until & E & Hu & Hlt). unfold banned_until. destruct (entries !! other) as [e'|] eqn:E'; [|by exists e, until].
  cbn. destruct (decide (id = other)) as [->|Hne].
  - rewrite E in E'. injection E' as <-. unfold refresh_locked. rewrite Hu, (proj2 (Z.leb_gt _ _)) by done.
    exists e, until. by rewrite lookup_insert_eq.
  - exists e, until. by rewrite lookup_insert_ne.
Qed.

Lemma admission_banned id now w c :
  ban_stands id now (rt_peer_scores (wd_runtime w)) → hs_node_id (cn_peer_handshake c) = id →
  (admission_check c now w).1 = false.
Proof.
  intros Hb Hid. unfold admission_check. destruct (negb _); [done|]. destruct (arr_eqb _ _); [done|].
  rewrite Hid. unfold peer_banned, on_scores, banned. apply ban_refresh in Hb as [u Hu].
  destruct (banned_until _ _ _) as [o entries]. cbn in Hu. by subst o.
Qed.

Lemma pick_not_banned id now l : ∀ w k w',
  ban_stands id now (rt_peer_scores (wd_runtime w)) → pick_target now l w = (Some k, w') →
  ∀ t, rt_target_store (wd_runtime w') !! k = Some t → ot_node_id t ≠ Some id.
Proof.
  induction l as [|j l IH]; intros w k w' Hb; cbn; [done|].
  destruct (rt_target_store (wd_runtime w) !! j) as [t0|] eqn:E; [|by apply IH].
  set (c := release_dead now (wd_runtime w) t0). set (w1 := update_target j (λ _, c) w).
  assert (rt_target_store (wd_runtime w1) !! j = Some c) as Ec by (cbn; by rewrite list_lookup_alter_eq, E).
  destruct (ot_peer c) as [i|] eqn:Ep.
  { cbn [fst snd]. unfold due. rewrite Ep. cbn. by apply IH. }
  destruct (ot_node_id c) as [n|] eqn:En.
  - unfold on_scores. destruct (banned_until n now _) as [ban entries] eqn:Eb.
    assert (ban_stands id now entries) as Hb'.
    { pose proof (ban_kept id n now _ Hb) as Hk. cbn in Eb. by rewrite Eb in Hk. }
    destruct ban as [until|]; [by apply IH|]. destruct (due now c); [|by apply IH].
    intros [= <- <-] t. cbn. rewrite list_lookup_alter_eq. cbn in Ec. rewrite Ec. cbn. intros [= <-]. cbn.
    intros [= ->]. apply ban_refresh in Hb as [u Hu]. cbn in Eb. by rewrite Eb in Hu.
  - destruct (due now c); [|by apply IH]. intros [= <- <-] t. cbn. rewrite list_lookup_alter_eq. cbn in Ec.
    rewrite Ec. cbn. by intros [= <-].
Qed.

(** C19: a ban takes effect at once.  A report that brings the score of an identity to the
    threshold leaves no live peer of that identity; and until the ban ends, a connection of
    it that is checked is refused, and the reconnect loop does not pick a target known to
    be it. *)
Theorem ban_enforced id penalty now w :
  let config := rc_peer_score (rt_config (wd_runtime w)) in
  let scores := rt_peer_scores (wd_runtime w) in
  config_ok config → book_ok config scores → is_u32 penalty →
  sc_banned_until (standing id now scores) = None →
  cf_ban_threshold config ≤ sc_score (standing id now scores) + penalty →
  let w' := report_peer_misbehavior id penalty now w in
  id ∉ live_ids (wd_runtime w') ∧
  ∀ later w2, later < now + cf_ban_duration config →
    rt_peer_scores (wd_runtime w2) !! id = rt_peer_scores (wd_runtime w') !! id →
    (∀ c, hs_node_id (cn_peer_handshake c) = id → (admission_check c later w2).1 = false) ∧
    (∀ targets k w3 t, pick_target later targets w2 = (Some k, w3) →
       rt_target_store (wd_runtime w3) !! k = Some t → ot_node_id t ≠ Some id).
Proof.
  intros config scores Hc Hb Hp Hnot Hreach.
  pose proof (penalize_standing config id penalty now scores Hc Hb Hp) as Hpen. cbv zeta in Hpen.
  unfold report_peer_misbehavior, on_scores. fold config scores.
  destruct (penalize config id penalty now scores) as [r entries]. rewrite Hnot, (proj2 (Z.leb_le _ _) Hreach) in Hpen.
  destruct Hpen as (-> & _ & _ & _ & Hstart). cbn in Hstart. rewrite Hstart. cbn [negb]. set (e := mkEntry _ _).
  set (w1 := update _ w). set (l := filter _ _). cbv zeta. split.
  - intros (i & Hi & Ei)%list_elem_of_omap. apply elem_live in Hi as [Hi Ha].
    destruct (drop_all_rest l w1) as [Epeers _]. rewrite Epeers in Hi.
    unfold peer_alive in Ha. rewrite drop_all_store in Ha, Ei.
    destruct (rt_peer_store (wd_runtime w1) !! i) as [p|] eqn:Ep; [|done].
    cbn [fmap option_fmap option_map] in Ha, Ei.
    destruct (bool_decide_reflect (i ∈ l)) as [Hin|Hout]; [done|]. unfold Datatypes.id in Ha, Ei. injection Ei as Ei. destruct Hout.
    unfold l. apply list_elem_of_filter. split; [|done]. unfold peer_alive, peer_has_id.
    rewrite Ep, Ha, Ei, arr_eqb_refl. done.
  - intros later w2 Hlt Hsame. destruct (drop_all_rest l w1) as [_ Escores]. rewrite Escores in Hsame. cbn in Hsame.
    rewrite lookup_insert_eq in Hsame.
    assert (ban_stands id later (rt_peer_scores (wd_runtime w2))) as Hstands by (by exists e, (now + cf_ban_duration config)).
    split; [intros; by eapply admission_banned|]. intros. by eapply pick_not_banned.
Qed.

(** ** Relaying *)

Lemma send_peer_effect i e w ok w' p :
  rt_peer_store (wd_runtime w) !! i = Some p → send_peer i e w = (ok, w') →
  (∀ fd, fd ≠ cn_socket_fd (pe_connection p) → nt_sockets (wd_net w') !! fd = nt_sockets (wd_net w) !! fd) ∧
  (∀ j, j ≠ i → rt_peer_store (wd_runtime w') !! j = rt_peer_store (wd_runtime w) !! j) ∧
  (rt_peer_store (wd_runtime w') !! i = Some p ∨ rt_peer_store (wd_runtime w') !! i = Some (set_alive false p)) ∧
  rt_peers (wd_runtime w') = rt_peers (wd_runtime w).
Proof.
  intros Ep. unfold send_peer. rewrite Ep. destruct (negb _); [intros [= <- <-]; by auto|].
  destruct (on_net _ w) as [r w1] eqn:E.
  assert (wd_runtime w1 = wd_runtime w) as Er by (by eapply on_net_runs).
  assert (∀ fd, fd ≠ cn_socket_fd (pe_connection p) → nt_sockets (wd_net w1) !! fd = nt_sockets (wd_net w) !! fd) as Hfd.
  { intros fd Hne. unfold on_net, zoom in E. destruct (send_envelope _ _ _) as [r1 net] eqn:Es. injection E as <- <-.
    unfold send_envelope in Es. destruct (negb _); [by injection Es as _ <-|]. unfold on_fd in Es.
    destruct (nt_sockets _ !! _) as [so|]; [|by injection Es as _ <-]. destruct (send_envelope_fd e so).
    injection Es as _ <-. cbn. by rewrite lookup_insert_ne. }
  destruct r; intros [= <- <-]; rewrite ?Er; [split_and!; by auto|]. unfold drop_peer. rewrite shutdown_peer_same. cbn. rewrite Er.
  rewrite list_lookup_alter_eq, Ep. split_and!; try done; [|intros; by rewrite list_lookup_alter_ne|by right].
  intros fd Hne. rewrite <-(Hfd fd Hne). unfold shutdown_peer, connection_of. cbn. rewrite Er, list_lookup_alter_eq, Ep.
  cbn. unfold shutdown, shutdown_fd. destruct (0 <=? _); [|done]. cbn. by rewrite lookup_alter_ne.
Qed.

Lemma send_each_changes wanted e l : ∀ sent w fd,
  nt_sockets (wd_net (send_each wanted e l sent w).2) !! fd ≠ nt_sockets (wd_net w) !! fd →
  ∃ i p, i ∈ l ∧ rt_peer_store (wd_runtime w) !! i = Some p ∧ pe_alive p = true ∧
    wanted (pe_node_id p) = true ∧ cn_socket_fd (pe_connection p) = fd.
Proof.
  induction l as [|i l IH]; intros sent w fd Hne; cbn in Hne; [done|].
  destruct (rt_peer_store (wd_runtime w) !! i) as [p|] eqn:Ep.
  2:{ destruct (IH _ _ _ Hne) as (j & pj & Hj & Hrest). exists j, pj. split; [by right|done]. }
  destruct (_ && _) eqn:Ea.
  2:{ destruct (IH _ _ _ Hne) as (j & pj & Hj & Hrest). exists j, pj. split; [by right|done]. }
  apply andb_true_iff in Ea as [Ha Hw]. destruct (send_peer i e w) as [ok w1] eqn:Es.
  destruct (send_peer_effect _ _ _ _ _ _ Ep Es) as (Hfd & Hstore & Hi & _).
  destruct (decide (fd = cn_socket_fd (pe_connection p))) as [->|Hfne]; [by exists i, p; split_and!; [left|..]|].
  rewrite <-(Hfd fd Hfne) in Hne. destruct (IH _ _ _ Hne) as (j & pj & Hj & Ej & Haj & Hwj & Hfj).
  exists j, pj. split_and!; try done; [by right|]. destruct (decide (j = i)) as [->|Hji]; [|by rewrite <-Hstore].
  destruct Hi as [Hi|Hi]; rewrite Hi in Ej; injection Ej as <-; [done|]. by cbn in Haj.
Qed.

Lemma send_each_peer wanted e l : ∀ sent w i,
  i ∉ l → rt_peer_store (wd_runtime (send_each wanted e l sent w).2) !! i = rt_peer_store (wd_runtime w) !! i ∧
  rt_peers (wd_runtime (send_each wanted e l sent w).2) = rt_peers (wd_runtime w).
Proof.
  induction l as [|j l IH]; intros sent w i Hi; cbn; [done|]. apply not_elem_of_cons in Hi as [Hij Hi].
  destruct (rt_peer_store (wd_runtime w) !! j) as [p|] eqn:Ep; [|by apply IH]. destruct (_ && _); [|by apply IH].
  destruct (send_peer j e w) as [ok w1] eqn:Es. destruct (send_peer_effect _ _ _ _ _ _ Ep Es) as (_ & Hstore & _ & Hpeers).
  rewrite <-(Hstore i Hij), <-Hpeers. by apply IH.
Qed.

(** A peer whose socket takes what it is given. *)
Record reachable_peer (w : World App) (i : nat) (p : Peer) (so : Socket) : Prop := {
  rp_store : rt_peer_store (wd_runtime w) !! i = Some p;
  rp_alive : pe_alive p = true;
  rp_valid : valid (pe_connection p) = true;
  rp_socket : nt_sockets (wd_net w) !! cn_socket_fd (pe_connection p) = Some so;
  rp_open : so_shut so = false;
  rp_sends : Forall send_goes_through (so_plan so) }.

Lemma send_peer_delivers i e w p so :
  envelope_valid e → reachable_peer w i p so →
  ∃ w' plan, send_peer i e w = (true, w') ∧ wd_runtime w' = wd_runtime w ∧
    nt_sockets (wd_net w') !! cn_socket_fd (pe_connection p) = Some (with_sent plan (envelope_layout e) so).
Proof.
  intros He [Ep Ha Hv Hso Hopen Hplan]. unfold send_peer. rewrite Ep, Ha. cbn [negb].
  unfold on_net, zoom, send_envelope. rewrite Hv. cbn [negb]. unfold on_fd. rewrite Hso.
  unfold send_envelope_fd, exec_bind, exec_const.
  rewrite (proj2 (serialize_envelope_ok e _) (conj He eq_refl)).
  destruct (send_all_goes (envelope_layout e) so Hopen Hplan) as (plan & -> & _).
  eexists _, plan. split; [done|]. split; [done|]. cbn. by rewrite lookup_insert_eq.
Qed.

Lemma send_each_delivers wanted e l : ∀ sent w i p so,
  envelope_valid e → NoDup l → i ∈ l → reachable_peer w i p so → wanted (pe_node_id p) = true →
  (∀ j pj, j ∈ l → j ≠ i → rt_peer_store (wd_runtime w) !! j = Some pj →
     cn_socket_fd (pe_connection pj) ≠ cn_socket_fd (pe_connection p)) →
  let w' := (send_each wanted e l sent w).2 in
  rt_peer_store (wd_runtime w') !! i = Some p ∧
  ∃ plan, nt_sockets (wd_net w') !! cn_socket_fd (pe_connection p) = Some (with_sent plan (envelope_layout e) so).
Proof.
  induction l as [|j l IH]; intros sent w i p so He Hnd Hi Hp Hw Hfd; [by apply not_elem_of_nil in Hi|].
  apply NoDup_cons in Hnd as [Hj Hnd]. cbn [send_each]. destruct (decide (i = j)) as [->|Hij].
  - rewrite (rp_store _ _ _ _ Hp), (rp_alive _ _ _ _ Hp), Hw. cbn [andb].
    destruct (send_peer_delivers j e w p so He Hp) as (w1 & plan & -> & Er & Hso). cbv zeta.
    destruct (send_each_peer wanted e l (true || sent) w1 j Hj) as [Hst _]. rewrite Er in Hst.
    split; [rewrite Hst; apply Hp|]. exists plan. rewrite <-Hso.
    match goal with |- ?a = ?b => destruct (decide (a = b)) as [|Hne]; [done|exfalso] end.
    destruct (send_each_changes wanted e l _ w1 _ Hne) as (k & pk & Hk & Ek & _ & _ & Hfk).
    apply (Hfd k pk); [by right|by intros ->|by rewrite <-Er|done].
  - apply elem_of_cons in Hi as [?|Hi]; [done|].
    assert (∀ k pk, k ∈ l → k ≠ i → rt_peer_store (wd_runtime w) !! k = Some pk →
      cn_socket_fd (pe_connection pk) ≠ cn_socket_fd (pe_connection p)) as Hfd' by (intros; eapply Hfd; [by right|done|done]).
    destruct (rt_peer_store (wd_runtime w) !! j) as [pj|] eqn:Ej; [|by apply IH].
    destruct (_ && _); [|by apply IH]. destruct (send_peer j e w) as [ok w1] eqn:Es.
    destruct (send_peer_effect _ _ _ _ _ _ Ej Es) as (Hso & Hst & Hjs & _).
    assert (cn_socket_fd (pe_connection p) ≠ cn_socket_fd (pe_connection pj)) as Hne
      by (intros Heq; apply (Hfd j pj); [by left|done|done|done]).
    destruct Hp as [E1 E2 E3 E4 E5 E6]. apply IH; try done.
    + constructor; try done; [by rewrite Hst|by rewrite Hso].
    + intros k pk Hk Hki Ek. destruct (decide (k = j)) as [->|Hkj]; [by destruct Hj|].
      rewrite Hst in Ek by done. by eapply Hfd'.
Qed.

(** C20: a relayed frame is not echoed.  [broadcast_except] touches only the sockets of live
    peers with another identity than the one excluded, and to each of them whose socket
    takes it the frame is sent once, in one piece, whatever happens to the others. *)
Theorem relay_exact excluded e w :
  envelope_valid e → NoDup (rt_peers (wd_runtime w)) →
  let w' := broadcast_except excluded e w in
  (∀ fd, nt_sockets (wd_net w') !! fd ≠ nt_sockets (wd_net w) !! fd →
     ∃ i p, i ∈ live_peers (wd_runtime w) ∧ rt_peer_store (wd_runtime w) !! i = Some p ∧
       pe_node_id p ≠ excluded ∧ cn_socket_fd (pe_connection p) = fd) ∧
  ∀ i p so, i ∈ rt_peers (wd_runtime w) → reachable_peer w i p so → pe_node_id p ≠ excluded →
    (∀ j pj, j ∈ rt_peers (wd_runtime w) → j ≠ i → rt_peer_store (wd_runtime w) !! j = Some pj →
       cn_socket_fd (pe_connection pj) ≠ cn_socket_fd (pe_connection p)) →
    rt_peer_store (wd_runtime w') !! i = Some p ∧
    ∃ plan, nt_sockets (wd_net w') !! cn_socket_fd (pe_connection p) = Some (with_sent plan (envelope_layout e) so).
Proof.
  intros He Hnd. unfold broadcast_except. cbv zeta. split.
  - intros fd (i & p & Hi & Ep & Ha & Hw & Hfd)%send_each_changes. exists i, p. split_and!; try done.
    + apply elem_live. split; [done|]. unfold peer_alive. by rewrite Ep.
    + apply negb_true_iff in Hw. by apply arr_eqb_false in Hw.
  - intros i p so Hi Hp Hne Hfd. apply send_each_delivers; try done.
    by rewrite (proj2 (arr_eqb_false _ _) Hne).
Qed.
End Bans.

(** ** Instances *)

Definition runtime_demo_config : P2pRuntimeConfig :=
  mkRuntimeConfig (mkEndpoint (text_of "127.0.0.1") 0) demo_listener 250 5000
    (mkConfig 100 (300 * 1000000000)) 2 default_message_limit.

Definition runtime_demo_bucket : TokenBucket := mkBucket default_message_limit (double_of_Z 512) 0.
Definition runtime_demo_peer (fd id : Z) : Peer :=
  mkPeer (mkConnection fd (mkHandshake P2pTestnet (fill_be 32 id) kP2pCapabilitiesV1 0 (arr_zero 32) 0 (fill_be 32 7)) true)
    runtime_demo_bucket true true.
(** A node with two peers, and a target for the first of them. *)
Definition runtime_demo_state : RuntimeState :=
  mkRuntimeState runtime_demo_config ∅ true None [runtime_demo_peer 5 21; runtime_demo_peer 6 22] [0; 1]%nat
    [mkTarget (mkEndpoint (text_of "seed") 37889) (Some 0%nat) (Some (fill_be 32 21)) 250 None false] [0]%nat.
Definition runtime_demo_world : World () :=
  mkWorld runtime_demo_state
    (mkNet {[ 5 := mkSocket [] [] [] false; 6 := mkSocket [] [SendAccepts 3] [] false ]} []) ().

Lemma ban_enforced_witness :
  fill_be 32 21 ∉ live_ids (wd_runtime (report_peer_misbehavior (fill_be 32 21) 100 7 runtime_demo_world)) ∧
  (admission_check (pe_connection (runtime_demo_peer 9 21)) 8
     (report_peer_misbehavior (fill_be 32 21) 100 7 runtime_demo_world)).1 = false.
Proof.
  assert (config_ok (rc_peer_score (rt_config (wd_runtime runtime_demo_world)))) as Hc
    by (unfold config_ok, u32_max; cbn; lia).
  destruct (ban_enforced (fill_be 32 21) 100 7 runtime_demo_world Hc ltac:(by intros node e He) ltac:(done) eq_refl
    ltac:(done)) as [H1 H2].
  split; [exact H1|]. by apply (H2 8).
Defined.

Lemma relay_exact_witness :
  ∃ plan, nt_sockets (wd_net (broadcast_except (fill_be 32 21) demo_envelope runtime_demo_world)) !! 6 =
    Some (with_sent plan (envelope_layout demo_envelope) (mkSocket [] [SendAccepts 3] [] false)).
Proof.
  assert (envelope_valid demo_envelope) as He
    by (unfold envelope_valid, kP2pProtocolVersion, kP2pMaxPayloadSize; cbn; lia).
  assert (NoDup (rt_peers (wd_runtime runtime_demo_world))) as Hnd by (by apply (bool_decide_unpack _)).
  destruct (relay_exact (fill_be 32 21) demo_envelope runtime_demo_world He Hnd) as [_ H].
  refine (proj2 (H 1%nat (runtime_demo_peer 6 22) (mkSocket [] [SendAccepts 3] [] false) _ _ _ _)).
  - by right; left.
  - constructor; try done. repeat constructor.
  - by intros [=].
  - intros j pj Hj Hne. apply elem_of_cons in Hj as [->|[->|Hj%not_elem_of_nil]%elem_of_cons]; [|done|done].
    by intros [= <-].
Defined.

(** A socket interface on which nothing can be opened, and callbacks that only answer. *)
#[local] Instance demo_sockets : SocketApi := {|
  addrinfo := ();
  getaddrinfo := λ _ _, inr [];
  sys_socket := λ _ net, (None, net);
  sys_bind := λ _ _ net, (false, net);
  sys_listen := λ _ net, (false, net);
  sys_connect := λ _ _ net, (false, net);
  getsockname := λ _ _, None;
  strerror := λ _, "unreachable" |}.

Definition demo_handler : option (P2pHandshake → P2pEnvelope → exec (World ()) ()) :=
  Some (λ h e w, (Ok (), broadcast_except (hs_node_id h) e w)).


Definition runtime_fresh : RuntimeState := mkRuntimeState runtime_demo_config ∅ false None [] [] [] [].
(** Two connections of one identity are checked before either is inserted. *)
Definition runtime_started : RuntimeState := set_running true runtime_fresh.
Definition runtime_joined : RuntimeState :=
  set_peers (rt_peers runtime_started ++ [0%nat])
    (set_peer_store (rt_peer_store runtime_started ++ [runtime_demo_peer 5 21]) runtime_started).


(** The check and the insertion are two sections: an identity banned between them has a
    live peer. *)
Lemma ban_race : ∃ q s,
  rsections ([], runtime_fresh) (q, s) ∧ fill_be 32 21 ∈ live_ids s ∧ ban_stands (fill_be 32 21) 8 (rt_peer_scores s).
Proof.
  set (c := pe_connection (runtime_demo_peer 5 21)).
  set (book := (penalize (mkConfig 100 (300 * 1000000000)) (fill_be 32 21) 100 7 ∅).2).
  eexists [c], _. split.
  { eapply rtc_l; [apply (rs_running _ _ true)|]. eapply rtc_l; [apply (rs_check _ _ c 1); vm_compute; done|].
    eapply rtc_l; [apply (rs_scores _ _ book)|]. apply rtc_once, (rs_insert _ _ c runtime_demo_bucket); [by left|].
    split; [by intros i Hi%not_elem_of_nil|]. vm_compute. lia. }
  split; [by left|]. by exists (mkEntry 100 (Some (7 + 300 * 1000000000))), (7 + 300 * 1000000000).
Qed.
