(* ===== verification/RuntimeSetup.v ===== *)
(** What the daemon is told to do: networks and their defaults
    ([include/zano_p2pool/runtime_network.hpp], [src/runtime_network.cpp]), seed nodes
    ([src/seed_nodes.cpp]) and the command line ([src/main.cpp], [parse_args] and the
    parsers of its values).  [std::stod] is a parameter. *)
From S2P Require Import Prelude CryptoHash PowTarget Share SidechainParams P2pProtocol BlockTemplate RpcClient.
From S2P Require Import TokenBucket P2pTransport.
From Stdlib Require Import Floats.SpecFloat.

(** ** Networks *)

Inductive RuntimeNetwork := RuntimeMainnet | RuntimeTestnet | RuntimeUnknown (value : Z).
#[export] Instance RuntimeNetwork_eq_dec : EqDecision RuntimeNetwork.
Proof. solve_decision. Defined.

Definition kRuntimeMainnetRpcUrl : text := text_of "http://127.0.0.1:11211/json_rpc".
Definition kRuntimeTestnetRpcUrl : text := text_of "http://127.0.0.1:12111/json_rpc".

Definition parse_runtime_network (value : text) : res RuntimeNetwork :=
  if bool_decide (value = text_of "testnet") then Ok RuntimeTestnet
  else if bool_decide (value = text_of "mainnet") then Ok RuntimeMainnet
  else throw RuntimeError "--network must be either 'testnet' or 'mainnet'".

Definition unsupported_network {A} : res A := throw InvalidArgument "unsupported runtime network".

Definition runtime_network_name (network : RuntimeNetwork) : res text :=
  match network with
  | RuntimeTestnet => Ok (text_of "testnet")
  | RuntimeMainnet => Ok (text_of "mainnet")
  | RuntimeUnknown _ => unsupported_network
  end.

Definition runtime_default_rpc_url (network : RuntimeNetwork) : res text :=
  match network with
  | RuntimeTestnet => Ok kRuntimeTestnetRpcUrl
  | RuntimeMainnet => Ok kRuntimeMainnetRpcUrl
  | RuntimeUnknown _ => unsupported_network
  end.

(** [path / component]. *)
Definition slash : Ascii.ascii := Ascii.ascii_of_nat 47.
Definition path_join (path component : text) : text :=
  match last path with
  | Some c => if Ascii.eqb c slash then path ++ component else path ++ slash :: component
  | None => component
  end.

Definition runtime_default_share_store_path (network : RuntimeNetwork) (home : text) : res text :=
  _ ← throw_if (bool_decide (home = [])) InvalidArgument "home path must not be empty for default share store";
  name ← runtime_network_name network;
  mret (path_join (path_join (path_join home (text_of ".zano-p2pool")) name) (text_of "shares.dat")).

Definition runtime_p2p_network (network : RuntimeNetwork) : res P2pNetwork :=
  match network with
  | RuntimeTestnet => Ok P2pTestnet
  | RuntimeMainnet => Ok P2pMainnet
  | RuntimeUnknown _ => unsupported_network
  end.

Definition runtime_sidechain_parent_network (network : RuntimeNetwork) : res SidechainParentNetwork :=
  match network with
  | RuntimeTestnet => Ok Testnet
  | RuntimeMainnet => Ok Mainnet
  | RuntimeUnknown _ => unsupported_network
  end.

Definition runtime_network_operation_allowed (network : RuntimeNetwork)
    (long_lived_runtime experimental_mainnet_opt_in : bool) : bool :=
  if negb (bool_decide (network = RuntimeMainnet)) then true
  else if negb long_lived_runtime then true
  else experimental_mainnet_opt_in.

(** ** Seed nodes *)

Definition same_seed_endpoint (left right : P2pEndpoint) : bool :=
  bool_decide (ep_host left = ep_host right) && (ep_port left =? ep_port right).

Definition append_unique_endpoint (result : list P2pEndpoint) (endpoint : P2pEndpoint) : list P2pEndpoint :=
  if existsb (λ existing, same_seed_endpoint existing endpoint) result then result else result ++ [endpoint].

(** Both networks have no public seeds at present. *)
Definition default_p2p_seed_nodes (network : P2pNetwork) : list P2pEndpoint := [].

Definition p2p_bootstrap_nodes (network : P2pNetwork) (explicit_peers : list P2pEndpoint)
    (include_default_seeds : bool) : list P2pEndpoint :=
  let seeds := if include_default_seeds then default_p2p_seed_nodes network else [] in
  foldl append_unique_endpoint (foldl append_unique_endpoint [] explicit_peers) seeds.

(** ** Values *)

Definition is_space (c : Ascii.ascii) : bool := (char_Z c =? 32) || ((9 <=? char_Z c) && (char_Z c <=? 13)).

Fixpoint skip_spaces (s : text) : text :=
  match s with
  | c :: rest => if is_space c then skip_spaces rest else s
  | [] => []
  end.

Definition minus_sign : Ascii.ascii := Ascii.ascii_of_nat 45.
Definition plus_sign : Ascii.ascii := Ascii.ascii_of_nat 43.

(** [std::stoull(value, &parsed, 10)]: spaces, a sign and digits are read; a negative number
    wraps around.  [None] is an exception. *)
Definition stoull (value : text) : option (Z * nat) :=
  let s := skip_spaces value in
  let '(negative, s) :=
    match s with
    | c :: rest => if Ascii.eqb c minus_sign then (true, rest) else if Ascii.eqb c plus_sign then (false, rest) else (false, s)
    | [] => (false, [])
    end in
  match from_chars_u64 s with
  | None => None
  | Some (v, rest) => Some (if (negative : bool) then wrap64 (- v) else v, (length value - length rest)%nat)
  end.

Definition starts_with_minus (value : text) : bool :=
  match value with c :: _ => Ascii.eqb c minus_sign | [] => false end.

Definition parse_u64_option (option_name : string) (value : text) : res Z :=
  let bad := option_name +:+ " requires an unsigned integer" in
  _ ← throw_if (bool_decide (value = []) || starts_with_minus value) RuntimeError bad;
  match stoull value with
  | None => throw RuntimeError bad
  | Some (result, parsed) =>
      _ ← throw_if (negb (parsed =? length value)%nat) RuntimeError bad;
      mret result
  end.

(** [std::size_t] is 64 bits wide. *)
Definition parse_size_option (option_name : string) (value : text) : res Z :=
  parsed ← parse_u64_option option_name value;
  _ ← throw_if ((parsed =? 0) || (u64_max <? parsed)) RuntimeError (option_name +:+ " must be a positive integer");
  mret parsed.

Definition parse_port (option_name : string) (value : text) (allow_zero : bool) : res Z :=
  port ← parse_u64_option option_name value;
  _ ← throw_if ((negb allow_zero && (port =? 0)) || (65535 <? port)) RuntimeError
        (option_name +:+ (if allow_zero then " must be between 0 and 65535" else " must be between 1 and 65535"));
  mret port.

Definition colon : Ascii.ascii := Ascii.ascii_of_nat 58.
Definition open_bracket : Ascii.ascii := Ascii.ascii_of_nat 91.
Definition close_bracket : Ascii.ascii := Ascii.ascii_of_nat 93.

(** [find]: what is before the first such character, and after it. *)
Fixpoint split_first (c : Ascii.ascii) (s : text) : option (text * text) :=
  match s with
  | [] => None
  | x :: rest =>
      if Ascii.eqb x c then Some ([], rest)
      else match split_first c rest with Some (a, b) => Some (x :: a, b) | None => None end
  end.
(** [rfind]. *)
Fixpoint split_last (c : Ascii.ascii) (s : text) : option (text * text) :=
  match s with
  | [] => None
  | x :: rest =>
      match split_last c rest with
      | Some (a, b) => Some (x :: a, b)
      | None => if Ascii.eqb x c then Some ([], rest) else None
      end
  end.

Definition parse_p2p_endpoint (value : text) : res P2pEndpoint :=
  _ ← throw_if (bool_decide (value = [])) RuntimeError "--p2p-peer requires HOST:PORT";
  parts ← match value with
          | c :: rest =>
              if Ascii.eqb c open_bracket then
                match split_first close_bracket rest with
                | Some (host, x :: port_text) =>
                    if Ascii.eqb x colon then Ok (host, port_text)
                    else throw RuntimeError "--p2p-peer IPv6 endpoints must use [HOST]:PORT"
                | _ => throw RuntimeError "--p2p-peer IPv6 endpoints must use [HOST]:PORT"
                end
              else
                match split_last colon value with
                | Some parts => Ok parts
                | None => throw RuntimeError "--p2p-peer requires HOST:PORT"
                end
          | [] => throw RuntimeError "--p2p-peer requires HOST:PORT"
          end;
  _ ← throw_if (bool_decide (parts.1 = [])) RuntimeError "--p2p-peer host must not be empty";
  port ← parse_port "--p2p-peer port" parts.2 false;
  mret (mkEndpoint parts.1 port).

(** ** Options *)

Record Options := mkOptions {
  op_network : RuntimeNetwork;
  op_rpc_url : text;
  op_wallet : text;
  op_stratum : bool;
  op_stratum_bind : text;
  op_stratum_port : Z;
  op_stratum_difficulty : Z;
  op_stratum_max_clients : Z;
  op_stratum_request_burst : Z;
  op_stratum_request_rate : double;
  op_template_refresh_seconds : Z;
  op_rpc_reconnect_initial_seconds : Z;
  op_rpc_reconnect_max_seconds : Z;
  op_p2p : bool;
  op_p2p_bind : text;
  op_p2p_port : Z;
  op_p2p_peers : list P2pEndpoint;
  op_no_seed_nodes : bool;
  op_p2p_max_peers : Z;
  op_p2p_message_burst : Z;
  op_p2p_message_rate : double;
  op_metrics : bool;
  op_metrics_bind : text;
  op_metrics_port : Z;
  op_no_share_store : bool;
  op_experimental_mainnet : bool;
  op_share_store_path : option text }.

(** Assignments to one member. *)
Definition set_network (x : RuntimeNetwork) (o : Options) : Options :=
  let '(mkOptions _ o1 o2 o3 o4 o5 o6 o7 o8 o9 o10 o11 o12 o13 o14 o15 o16 o17 o18 o19 o20 o21 o22
    o23 o24 o25 o26) := o in
  mkOptions x o1 o2 o3 o4 o5 o6 o7 o8 o9 o10 o11 o12 o13 o14 o15 o16 o17 o18 o19 o20 o21 o22
    o23 o24 o25 o26.
Definition set_rpc_url (x : text) (o : Options) : Options :=
  let '(mkOptions o0 _ o2 o3 o4 o5 o6 o7 o8 o9 o10 o11 o12 o13 o14 o15 o16 o17 o18 o19 o20 o21 o22
    o23 o24 o25 o26) := o in
  mkOptions o0 x o2 o3 o4 o5 o6 o7 o8 o9 o10 o11 o12 o13 o14 o15 o16 o17 o18 o19 o20 o21 o22
    o23 o24 o25 o26.
Definition set_wallet (x : text) (o : Options) : Options :=
  let '(mkOptions o0 o1 _ o3 o4 o5 o6 o7 o8 o9 o10 o11 o12 o13 o14 o15 o16 o17 o18 o19 o20 o21 o22
    o23 o24 o25 o26) := o in
  mkOptions o0 o1 x o3 o4 o5 o6 o7 o8 o9 o10 o11 o12 o13 o14 o15 o16 o17 o18 o19 o20 o21 o22
    o23 o24 o25 o26.
Definition set_stratum (x : bool) (o : Options) : Options :=
  let '(mkOptions o0 o1 o2 _ o4 o5 o6 o7 o8 o9 o10 o11 o12 o13 o14 o15 o16 o17 o18 o19 o20 o21 o22
    o23 o24 o25 o26) := o in
  mkOptions o0 o1 o2 x o4 o5 o6 o7 o8 o9 o10 o11 o12 o13 o14 o15 o16 o17 o18 o19 o20 o21 o22
    o23 o24 o25 o26.
Definition set_stratum_bind (x : text) (o : Options) : Options :=
  let '(mkOptions o0 o1 o2 o3 _ o5 o6 o7 o8 o9 o10 o11 o12 o13 o14 o15 o16 o17 o18 o19 o20 o21 o22
    o23 o24 o25 o26) := o in
  mkOptions o0 o1 o2 o3 x o5 o6 o7 o8 o9 o10 o11 o12 o13 o14 o15 o16 o17 o18 o19 o20 o21 o22
    o23 o24 o25 o26.
Definition set_stratum_port (x : Z) (o : Options) : Options :=
  let '(mkOptions o0 o1 o2 o3 o4 _ o6 o7 o8 o9 o10 o11 o12 o13 o14 o15 o16 o17 o18 o19 o20 o21 o22
    o23 o24 o25 o26) := o in
  mkOptions o0 o1 o2 o3 o4 x o6 o7 o8 o9 o10 o11 o12 o13 o14 o15 o16 o17 o18 o19 o20 o21 o22
    o23 o24 o25 o26.
Definition set_stratum_difficulty (x : Z) (o : Options) : Options :=
  let '(mkOptions o0 o1 o2 o3 o4 o5 _ o7 o8 o9 o10 o11 o12 o13 o14 o15 o16 o17 o18 o19 o20 o21 o22
    o23 o24 o25 o26) := o in
  mkOptions o0 o1 o2 o3 o4 o5 x o7 o8 o9 o10 o11 o12 o13 o14 o15 o16 o17 o18 o19 o20 o21 o22
    o23 o24 o25 o26.
Definition set_stratum_max_clients (x : Z) (o : Options) : Options :=
  let '(mkOptions o0 o1 o2 o3 o4 o5 o6 _ o8 o9 o10 o11 o12 o13 o14 o15 o16 o17 o18 o19 o20 o21 o22
    o23 o24 o25 o26) := o in
  mkOptions o0 o1 o2 o3 o4 o5 o6 x o8 o9 o10 o11 o12 o13 o14 o15 o16 o17 o18 o19 o20 o21 o22
    o23 o24 o25 o26.
Definition set_stratum_request_burst (x : Z) (o : Options) : Options :=
  let '(mkOptions o0 o1 o2 o3 o4 o5 o6 o7 _ o9 o10 o11 o12 o13 o14 o15 o16 o17 o18 o19 o20 o21 o22
    o23 o24 o25 o26) := o in
  mkOptions o0 o1 o2 o3 o4 o5 o6 o7 x o9 o10 o11 o12 o13 o14 o15 o16 o17 o18 o19 o20 o21 o22
    o23 o24 o25 o26.
Definition set_stratum_request_rate (x : double) (o : Options) : Options :=
  let '(mkOptions o0 o1 o2 o3 o4 o5 o6 o7 o8 _ o10 o11 o12 o13 o14 o15 o16 o17 o18 o19 o20 o21 o22
    o23 o24 o25 o26) := o in
  mkOptions o0 o1 o2 o3 o4 o5 o6 o7 o8 x o10 o11 o12 o13 o14 o15 o16 o17 o18 o19 o20 o21 o22
    o23 o24 o25 o26.
Definition set_template_refresh_seconds (x : Z) (o : Options) : Options :=
  let '(mkOptions o0 o1 o2 o3 o4 o5 o6 o7 o8 o9 _ o11 o12 o13 o14 o15 o16 o17 o18 o19 o20 o21 o22
    o23 o24 o25 o26) := o in
  mkOptions o0 o1 o2 o3 o4 o5 o6 o7 o8 o9 x o11 o12 o13 o14 o15 o16 o17 o18 o19 o20 o21 o22
    o23 o24 o25 o26.
Definition set_rpc_reconnect_initial_seconds (x : Z) (o : Options) : Options :=
  let '(mkOptions o0 o1 o2 o3 o4 o5 o6 o7 o8 o9 o10 _ o12 o13 o14 o15 o16 o17 o18 o19 o20 o21 o22
    o23 o24 o25 o26) := o in
  mkOptions o0 o1 o2 o3 o4 o5 o6 o7 o8 o9 o10 x o12 o13 o14 o15 o16 o17 o18 o19 o20 o21 o22
    o23 o24 o25 o26.
Definition set_rpc_reconnect_max_seconds (x : Z) (o : Options) : Options :=
  let '(mkOptions o0 o1 o2 o3 o4 o5 o6 o7 o8 o9 o10 o11 _ o13 o14 o15 o16 o17 o18 o19 o20 o21 o22
    o23 o24 o25 o26) := o in
  mkOptions o0 o1 o2 o3 o4 o5 o6 o7 o8 o9 o10 o11 x o13 o14 o15 o16 o17 o18 o19 o20 o21 o22
    o23 o24 o25 o26.
Definition set_p2p (x : bool) (o : Options) : Options :=
  let '(mkOptions o0 o1 o2 o3 o4 o5 o6 o7 o8 o9 o10 o11 o12 _ o14 o15 o16 o17 o18 o19 o20 o21 o22
    o23 o24 o25 o26) := o in
  mkOptions o0 o1 o2 o3 o4 o5 o6 o7 o8 o9 o10 o11 o12 x o14 o15 o16 o17 o18 o19 o20 o21 o22
    o23 o24 o25 o26.
Definition set_p2p_bind (x : text) (o : Options) : Options :=
  let '(mkOptions o0 o1 o2 o3 o4 o5 o6 o7 o8 o9 o10 o11 o12 o13 _ o15 o16 o17 o18 o19 o20 o21 o22
    o23 o24 o25 o26) := o in
  mkOptions o0 o1 o2 o3 o4 o5 o6 o7 o8 o9 o10 o11 o12 o13 x o15 o16 o17 o18 o19 o20 o21 o22
    o23 o24 o25 o26.
Definition set_p2p_port (x : Z) (o : Options) : Options :=
  let '(mkOptions o0 o1 o2 o3 o4 o5 o6 o7 o8 o9 o10 o11 o12 o13 o14 _ o16 o17 o18 o19 o20 o21 o22
    o23 o24 o25 o26) := o in
  mkOptions o0 o1 o2 o3 o4 o5 o6 o7 o8 o9 o10 o11 o12 o13 o14 x o16 o17 o18 o19 o20 o21 o22
    o23 o24 o25 o26.
Definition set_p2p_peers (x : list P2pEndpoint) (o : Options) : Options :=
  let '(mkOptions o0 o1 o2 o3 o4 o5 o6 o7 o8 o9 o10 o11 o12 o13 o14 o15 _ o17 o18 o19 o20 o21 o22
    o23 o24 o25 o26) := o in
  mkOptions o0 o1 o2 o3 o4 o5 o6 o7 o8 o9 o10 o11 o12 o13 o14 o15 x o17 o18 o19 o20 o21 o22
    o23 o24 o25 o26.
Definition set_no_seed_nodes (x : bool) (o : Options) : Options :=
  let '(mkOptions o0 o1 o2 o3 o4 o5 o6 o7 o8 o9 o10 o11 o12 o13 o14 o15 o16 _ o18 o19 o20 o21 o22
    o23 o24 o25 o26) := o in
  mkOptions o0 o1 o2 o3 o4 o5 o6 o7 o8 o9 o10 o11 o12 o13 o14 o15 o16 x o18 o19 o20 o21 o22
    o23 o24 o25 o26.
Definition set_p2p_max_peers (x : Z) (o : Options) : Options :=
  let '(mkOptions o0 o1 o2 o3 o4 o5 o6 o7 o8 o9 o10 o11 o12 o13 o14 o15 o16 o17 _ o19 o20 o21 o22
    o23 o24 o25 o26) := o in
  mkOptions o0 o1 o2 o3 o4 o5 o6 o7 o8 o9 o10 o11 o12 o13 o14 o15 o16 o17 x o19 o20 o21 o22
    o23 o24 o25 o26.
Definition set_p2p_message_burst (x : Z) (o : Options) : Options :=
  let '(mkOptions o0 o1 o2 o3 o4 o5 o6 o7 o8 o9 o10 o11 o12 o13 o14 o15 o16 o17 o18 _ o20 o21 o22
    o23 o24 o25 o26) := o in
  mkOptions o0 o1 o2 o3 o4 o5 o6 o7 o8 o9 o10 o11 o12 o13 o14 o15 o16 o17 o18 x o20 o21 o22
    o23 o24 o25 o26.
Definition set_p2p_message_rate (x : double) (o : Options) : Options :=
  let '(mkOptions o0 o1 o2 o3 o4 o5 o6 o7 o8 o9 o10 o11 o12 o13 o14 o15 o16 o17 o18 o19 _ o21 o22
    o23 o24 o25 o26) := o in
  mkOptions o0 o1 o2 o3 o4 o5 o6 o7 o8 o9 o10 o11 o12 o13 o14 o15 o16 o17 o18 o19 x o21 o22
    o23 o24 o25 o26.
Definition set_metrics (x : bool) (o : Options) : Options :=
  let '(mkOptions o0 o1 o2 o3 o4 o5 o6 o7 o8 o9 o10 o11 o12 o13 o14 o15 o16 o17 o18 o19 o20 _ o22
    o23 o24 o25 o26) := o in
  mkOptions o0 o1 o2 o3 o4 o5 o6 o7 o8 o9 o10 o11 o12 o13 o14 o15 o16 o17 o18 o19 o20 x o22
    o23 o24 o25 o26.
Definition set_metrics_bind (x : text) (o : Options) : Options :=
  let '(mkOptions o0 o1 o2 o3 o4 o5 o6 o7 o8 o9 o10 o11 o12 o13 o14 o15 o16 o17 o18 o19 o20 o21 _
    o23 o24 o25 o26) := o in
  mkOptions o0 o1 o2 o3 o4 o5 o6 o7 o8 o9 o10 o11 o12 o13 o14 o15 o16 o17 o18 o19 o20 o21 x
    o23 o24 o25 o26.
Definition set_metrics_port (x : Z) (o : Options) : Options :=
  let '(mkOptions o0 o1 o2 o3 o4 o5 o6 o7 o8 o9 o10 o11 o12 o13 o14 o15 o16 o17 o18 o19 o20 o21 o22
    _ o24 o25 o26) := o in
  mkOptions o0 o1 o2 o3 o4 o5 o6 o7 o8 o9 o10 o11 o12 o13 o14 o15 o16 o17 o18 o19 o20 o21
    o22 x o24 o25 o26.
Definition set_no_share_store (x : bool) (o : Options) : Options :=
  let '(mkOptions o0 o1 o2 o3 o4 o5 o6 o7 o8 o9 o10 o11 o12 o13 o14 o15 o16 o17 o18 o19 o20 o21 o22
    o23 _ o25 o26) := o in
  mkOptions o0 o1 o2 o3 o4 o5 o6 o7 o8 o9 o10 o11 o12 o13 o14 o15 o16 o17 o18 o19 o20 o21
    o22 o23 x o25 o26.
Definition set_experimental_mainnet (x : bool) (o : Options) : Options :=
  let '(mkOptions o0 o1 o2 o3 o4 o5 o6 o7 o8 o9 o10 o11 o12 o13 o14 o15 o16 o17 o18 o19 o20 o21 o22
    o23 o24 _ o26) := o in
  mkOptions o0 o1 o2 o3 o4 o5 o6 o7 o8 o9 o10 o11 o12 o13 o14 o15 o16 o17 o18 o19 o20 o21
    o22 o23 o24 x o26.
Definition set_share_store_path (x : option text) (o : Options) : Options :=
  let '(mkOptions o0 o1 o2 o3 o4 o5 o6 o7 o8 o9 o10 o11 o12 o13 o14 o15 o16 o17 o18 o19 o20 o21 o22
    o23 o24 o25 _) := o in
  mkOptions o0 o1 o2 o3 o4 o5 o6 o7 o8 o9 o10 o11 o12 o13 o14 o15 o16 o17 o18 o19 o20 o21
    o22 o23 o24 o25 x.


Definition kDefaultStratumPort : Z := 3333.
Definition kDefaultMetricsPort : Z := 37890.
Definition kDefaultStratumDifficulty : Z := 100000000.
Definition kDefaultTemplateRefreshSeconds : Z := 5.
Definition kDefaultRpcReconnectInitialSeconds : Z := 1.
Definition kDefaultRpcReconnectMaxSeconds : Z := 30.

Definition loopback : text := text_of "127.0.0.1".
Definition default_options : Options :=
  mkOptions RuntimeTestnet [] [] false loopback kDefaultStratumPort kDefaultStratumDifficulty 512 256
    (double_of_Z 128) kDefaultTemplateRefreshSeconds kDefaultRpcReconnectInitialSeconds
    kDefaultRpcReconnectMaxSeconds false loopback 0 [] false 64 512 (double_of_Z 256) false loopback
    kDefaultMetricsPort false false None.

Section Arguments.
Context (stod : text → option (double * nat)).

Definition parse_positive_double_option (option_name : string) (value : text) : res double :=
  let bad := option_name +:+ " requires a positive number" in
  _ ← throw_if (bool_decide (value = []) || starts_with_minus value) RuntimeError bad;
  match stod value with
  | None => throw RuntimeError bad
  | Some (result, parsed) =>
      _ ← throw_if (negb (parsed =? length value)%nat || negb (is_finite result) || SFleb result (double_of_Z 0))
            RuntimeError (option_name +:+ " requires a positive finite number");
      mret result
  end.

(** Options without a value. *)
Definition flag_option (arg : text) : option (Options → Options) :=
  if bool_decide (arg = text_of "--experimental-mainnet") then Some (set_experimental_mainnet true)
  else if bool_decide (arg = text_of "--stratum") then Some (set_stratum true)
  else if bool_decide (arg = text_of "--p2p") then Some (set_p2p true)
  else if bool_decide (arg = text_of "--no-seed-nodes") then Some (set_no_seed_nodes true)
  else if bool_decide (arg = text_of "--metrics") then Some (set_metrics true)
  else if bool_decide (arg = text_of "--no-share-store") then Some (set_no_share_store true)
  else None.

(** A value that must not be zero. *)
Definition parse_nonzero_option (option_name : string) (value : text) : res Z :=
  v ← parse_u64_option option_name value;
  _ ← throw_if (v =? 0) RuntimeError (option_name +:+ " must be nonzero");
  mret v.

(** Options with a value: what is thrown without one, and what the value does. *)
Definition value_option (arg : text) : option (string * (text → Options → res Options)) :=
  let takes (name missing : string) (f : text → Options → res Options)
      (rest : option (string * (text → Options → res Options))) :=
    if bool_decide (arg = text_of name) then Some (name +:+ missing, f) else rest in
  let value := " requires a value" in
  takes "--wallet" value (λ v o, Ok (set_wallet v o)) (
  takes "--network" value (λ v o, n ← parse_runtime_network v; mret (set_network n o)) (
  takes "--rpc-reconnect-initial-seconds" value (λ v o,
    n ← parse_nonzero_option "--rpc-reconnect-initial-seconds" v; mret (set_rpc_reconnect_initial_seconds n o)) (
  takes "--rpc-reconnect-max-seconds" value (λ v o,
    n ← parse_nonzero_option "--rpc-reconnect-max-seconds" v; mret (set_rpc_reconnect_max_seconds n o)) (
  takes "--rpc-url" value (λ v o, Ok (set_rpc_url v o)) (
  takes "--stratum-bind" value (λ v o, Ok (set_stratum_bind v o)) (
  takes "--stratum-port" value (λ v o, n ← parse_port "--stratum-port" v false; mret (set_stratum_port n o)) (
  takes "--stratum-difficulty" value (λ v o,
    n ← parse_nonzero_option "--stratum-difficulty" v; mret (set_stratum_difficulty n o)) (
  takes "--stratum-max-clients" value (λ v o,
    n ← parse_size_option "--stratum-max-clients" v; mret (set_stratum_max_clients n o)) (
  takes "--stratum-request-burst" value (λ v o,
    n ← parse_size_option "--stratum-request-burst" v; mret (set_stratum_request_burst n o)) (
  takes "--stratum-request-rate" value (λ v o,
    n ← parse_positive_double_option "--stratum-request-rate" v; mret (set_stratum_request_rate n o)) (
  takes "--p2p-bind" value (λ v o, Ok (set_p2p_bind v o)) (
  takes "--p2p-port" value (λ v o, n ← parse_port "--p2p-port" v true; mret (set_p2p_port n o)) (
  takes "--p2p-peer" " requires HOST:PORT" (λ v o,
    e ← parse_p2p_endpoint v; mret (set_p2p_peers (op_p2p_peers o ++ [e]) (set_p2p true o))) (
  takes "--p2p-max-peers" value (λ v o, n ← parse_size_option "--p2p-max-peers" v; mret (set_p2p_max_peers n o)) (
  takes "--p2p-message-burst" value (λ v o,
    n ← parse_size_option "--p2p-message-burst" v; mret (set_p2p_message_burst n o)) (
  takes "--p2p-message-rate" value (λ v o,
    n ← parse_positive_double_option "--p2p-message-rate" v; mret (set_p2p_message_rate n o)) (
  takes "--metrics-bind" value (λ v o, Ok (set_metrics_bind v (set_metrics true o))) (
  takes "--metrics-port" value (λ v o,
    n ← parse_port "--metrics-port" v false; mret (set_metrics_port n (set_metrics true o))) (
  takes "--share-store" " requires PATH" (λ v o,
    _ ← throw_if (bool_decide (v = [])) RuntimeError "--share-store requires PATH";
    mret (set_share_store_path (Some v) o)) (
  takes "--template-refresh-seconds" value (λ v o,
    n ← parse_nonzero_option "--template-refresh-seconds" v; mret (set_template_refresh_seconds n o))
  None)))))))))))))))))))).

(** The loop over the arguments; [None] is [std::exit(0)] after the usage text. *)
Fixpoint parse_loop (args : list text) (o : Options) : res (option Options) :=
  match args with
  | [] => Ok (Some o)
  | arg :: rest =>
      if bool_decide (arg = text_of "--help") || bool_decide (arg = text_of "-h") then Ok None
      else match flag_option arg with
      | Some f => parse_loop rest (f o)
      | None =>
          match value_option arg, rest with
          | Some (_, f), v :: rest => o ← f v o; parse_loop rest o
          | Some (missing, _), [] => throw RuntimeError missing
          | None, _ => throw RuntimeError ("unknown argument: " +:+ String.string_of_list_ascii arg)
          end
      end
  end.

(** The checks after the loop. *)
Definition finish_options (o : Options) : res Options :=
  _ ← throw_if (bool_decide (op_wallet o = [])) RuntimeError "--wallet is required";
  _ ← throw_if (op_no_share_store o && bool_decide (is_Some (op_share_store_path o))) RuntimeError
        "--share-store and --no-share-store cannot be used together";
  o ← (if bool_decide (op_rpc_url o = [])
       then url ← runtime_default_rpc_url (op_network o); mret (set_rpc_url url o) else Ok o);
  _ ← throw_if (op_rpc_reconnect_max_seconds o <? op_rpc_reconnect_initial_seconds o) RuntimeError
        "--rpc-reconnect-max-seconds must not be less than --rpc-reconnect-initial-seconds";
  mret o.

Definition parse_args (args : list text) : res (option Options) :=
  parsed ← parse_loop args default_options;
  match parsed with
  | None => Ok None
  | Some o => o ← finish_options o; mret (Some o)
  end.

End Arguments.

(** ** What is accepted *)

Definition port_ok (p : Z) : Prop := 1 ≤ p ≤ 65535.
Definition rate_ok (r : double) : Prop := is_finite r = true ∧ SFleb r (double_of_Z 0) = false.

(** Options the rest of the program can work with. *)
Record options_ok (o : Options) : Prop := {
  oo_network : op_network o = RuntimeMainnet ∨ op_network o = RuntimeTestnet;
  oo_stratum_port : port_ok (op_stratum_port o);
  oo_stratum_difficulty : 1 ≤ op_stratum_difficulty o ≤ u64_max;
  oo_stratum_clients : 1 ≤ op_stratum_max_clients o ≤ u64_max;
  oo_stratum_burst : 1 ≤ op_stratum_request_burst o ≤ u64_max;
  oo_stratum_rate : rate_ok (op_stratum_request_rate o);
  oo_refresh : 1 ≤ op_template_refresh_seconds o ≤ u64_max;
  oo_reconnect_initial : 1 ≤ op_rpc_reconnect_initial_seconds o ≤ u64_max;
  oo_reconnect_max : 1 ≤ op_rpc_reconnect_max_seconds o ≤ u64_max;
  oo_p2p_port : 0 ≤ op_p2p_port o ≤ 65535;
  oo_p2p_peers : Forall (λ e, ep_host e ≠ [] ∧ port_ok (ep_port e)) (op_p2p_peers o);
  oo_p2p : op_p2p_peers o ≠ [] → op_p2p o = true;
  oo_p2p_max : 1 ≤ op_p2p_max_peers o ≤ u64_max;
  oo_p2p_burst : 1 ≤ op_p2p_message_burst o ≤ u64_max;
  oo_p2p_rate : rate_ok (op_p2p_message_rate o);
  oo_metrics_port : port_ok (op_metrics_port o);
  oo_store : ∀ path, op_share_store_path o = Some path → path ≠ [] }.

Lemma default_options_ok : options_ok default_options.
Proof. constructor; unfold port_ok, rate_ok, u64_max; cbn; try done; try lia; auto. Qed.

Lemma from_chars_range s v rest : from_chars_u64 s = Some (v, rest) → is_u64 v.
Proof.
  unfold from_chars_u64. destruct (take_digits s) as [[|c d] r] eqn:E; [done|].
  set (v0 := digits_value (c :: d) 0). destruct (u64_max <? v0) eqn:El; [done|]. intros [= <- <-]. bool_prop. split; [|done].
  assert (∀ l acc, Forall (λ c, is_digit c = true) l → 0 ≤ acc → 0 ≤ digits_value l acc) as Hpos.
  { induction l as [|x l IH]; intros acc Hl Hacc; cbn; [done|]. apply Forall_cons in Hl as [Hx Hl].
    rewrite Hx. apply IH; [done|]. unfold is_digit in Hx. bool_prop. lia. }
  assert (∀ s d r, take_digits s = (d, r) → Forall (λ c, is_digit c = true) d) as Hd.
  { clear. induction s as [|x s IH]; intros d r; cbn; [by intros [= <- _]|].
    destruct (is_digit x) eqn:Ex; [|by intros [= <- _]]. destruct (take_digits s) as [d' r'].
    intros [= <- _]. constructor; [done|]. by eapply IH. }
  apply (Hpos (c :: d) 0); [by eapply Hd|done].
Qed.

Lemma parse_u64_range name value v : parse_u64_option name value = Ok v → is_u64 v.
Proof.
  unfold parse_u64_option. destruct (throw_if _ _ _); [|done]. cbn [mbind res_bind].
  destruct (stoull value) as [[r parsed]|] eqn:E; [|done].
  intros Hp. res_inv. unfold stoull in E. destruct (match skip_spaces value with [] => _ | _ => _ end) as [neg s].
  destruct (from_chars_u64 s) as [[u rest]|] eqn:Ef; [|done]. injection E as <- _.
  destruct neg; [apply wrap64_range|by eapply from_chars_range].
Qed.

Lemma parse_nonzero_range name value v : parse_nonzero_option name value = Ok v → 1 ≤ v ≤ u64_max.
Proof.
  unfold parse_nonzero_option. intros (u & Hu%parse_u64_range & Hp)%res_bind_ok. res_inv. bool_prop.
  unfold is_u64 in Hu. lia.
Qed.

Lemma parse_size_range name value v : parse_size_option name value = Ok v → 1 ≤ v ≤ u64_max.
Proof.
  unfold parse_size_option. intros (u & Hu%parse_u64_range & Hp)%res_bind_ok. res_inv.
  match goal with Hx : _ || _ = false |- _ => apply orb_false_iff in Hx as [Hz _] end. bool_prop. unfold is_u64 in Hu. lia.
Qed.

Lemma parse_port_range name value allow v :
  parse_port name value allow = Ok v → 0 ≤ v ≤ 65535 ∧ (allow = false → port_ok v).
Proof.
  unfold parse_port. intros (u & Hu%parse_u64_range & Hp)%res_bind_ok. res_inv. unfold is_u64 in Hu.
  match goal with Hx : _ || _ = false |- _ => apply orb_false_iff in Hx as [Hz Hm] end. bool_prop.
  split; [lia|]. intros ->. cbn in Hz. bool_prop. unfold port_ok. lia.
Qed.

Lemma parse_endpoint_ok value e : parse_p2p_endpoint value = Ok e → ep_host e ≠ [] ∧ port_ok (ep_port e).
Proof.
  unfold parse_p2p_endpoint. intros (u & _ & Hp)%res_bind_ok. apply res_bind_ok in Hp as (parts & _ & Hp).
  apply res_bind_ok in Hp as (u' & Hh%throw_if_ok & Hp). apply res_bind_ok in Hp as (port & Hport & [= <-]).
  apply parse_port_range in Hport as [_ Hport]. bool_prop. split; [done|by apply Hport].
Qed.

Section Accepted.
Context (stod : text → option (double * nat)).

Lemma parse_double_rate name value r : parse_positive_double_option stod name value = Ok r → rate_ok r.
Proof.
  unfold parse_positive_double_option. intros (u & _ & Hp)%res_bind_ok. destruct (stod value) as [[x n]|]; [|done].
  res_inv. match goal with Hx : _ || _ || _ = false |- _ => apply orb_false_iff in Hx as [[_ Hf]%orb_false_iff Hl] end.
  bool_prop. done.
Qed.

Lemma flag_option_ok arg f o : flag_option arg = Some f → options_ok o → options_ok (f o).
Proof.
  unfold flag_option. intros Hf Ho. repeat (case_bool_decide; [injection Hf as <-; by destruct o, Ho|]). done.
Qed.

Lemma value_option_ok arg missing f v o o' :
  value_option stod arg = Some (missing, f) → options_ok o → f v o = Ok o' → options_ok o'.
Proof.
  unfold value_option. intros Hf Ho Hv.
  repeat (case_bool_decide; [injection Hf as <- <-|]); try done;
    repeat match goal with
    | Hx : (_ ≫= _) = Ok _ |- _ => apply res_bind_ok in Hx as (? & ? & Hx)
    | Hx : mret _ = Ok _ |- _ => injection Hx as <-
    | Hx : Ok _ = Ok _ |- _ => injection Hx as <-
    | Hx : parse_nonzero_option _ _ = Ok _ |- _ => apply parse_nonzero_range in Hx
    | Hx : parse_size_option _ _ = Ok _ |- _ => apply parse_size_range in Hx
    | Hx : parse_port _ _ _ = Ok _ |- _ => apply parse_port_range in Hx as [? ?]
    | Hx : parse_positive_double_option _ _ _ = Ok _ |- _ => apply parse_double_rate in Hx
    | Hx : parse_p2p_endpoint _ = Ok _ |- _ => apply parse_endpoint_ok in Hx as [? ?]
    end;
    destruct o, Ho; cbn in *; constructor; cbn; auto.
  - unfold parse_runtime_network in *. repeat case_bool_decide; try done; match goal with Hx : Ok _ = Ok _ |- _ => injection Hx as <- end; auto.
  - apply Forall_app. split; [done|]. apply Forall_singleton. by split.
  - intros path [= <-]. match goal with Hx : throw_if _ _ _ = Ok _ |- _ => apply throw_if_ok in Hx end. by bool_prop.
Qed.

Lemma parse_loop_ok args : ∀ o o', options_ok o → parse_loop stod args o = Ok (Some o') → options_ok o'.
Proof.
  remember (length args) as n eqn:Hn. revert args Hn. induction (lt_wf n) as [n _ IH].
  intros [|arg rest] -> o o' Ho Hp; cbn in Hp; [by injection Hp as <-|].
  destruct (_ || _); [done|]. destruct (flag_option arg) as [f|] eqn:Ef.
  { eapply (IH (length rest)); [cbn; lia|done| |done]. by eapply flag_option_ok. }
  destruct (value_option stod arg) as [[missing f]|] eqn:Ev; [|done]. destruct rest as [|v rest]; [done|].
  apply res_bind_ok in Hp as (o1 & H1 & Hp). eapply (IH (length rest)); [cbn; lia|done| |done].
  by eapply value_option_ok.
Qed.

(** A command line that is accepted is usable.  The options that [parse_args] returns name
    a network, a wallet and a daemon; every port, size, delay and rate is in its range; a
    peer that is given turns the P2P node on and has a host and a port; the retry delays are
    ordered, and a share store is not both named and disabled. *)
Theorem args_typed args o :
  parse_args stod args = Ok (Some o) →
  options_ok o ∧ op_wallet o ≠ [] ∧ op_rpc_url o ≠ [] ∧
  op_rpc_reconnect_initial_seconds o ≤ op_rpc_reconnect_max_seconds o ∧
  (op_no_share_store o = true → op_share_store_path o = None).
Proof.
  unfold parse_args. intros ([o1|] & H1 & Hp)%res_bind_ok; [|done]. apply (parse_loop_ok args default_options) in H1 as Ho;
    [|apply default_options_ok]. apply res_bind_ok in Hp as (o2 & Hf & [= <-]). unfold finish_options in Hf.
  apply res_bind_ok in Hf as (u & Hw%throw_if_ok & Hf). apply res_bind_ok in Hf as (u' & Hs%throw_if_ok & Hf).
  apply res_bind_ok in Hf as (o3 & Hu & Hf). apply res_bind_ok in Hf as (u'' & Hm%throw_if_ok & [= <-]). bool_prop.
  assert (options_ok o3 ∧ op_wallet o3 = op_wallet o1 ∧ op_rpc_url o3 ≠ [] ∧ op_no_share_store o3 = op_no_share_store o1 ∧
    op_share_store_path o3 = op_share_store_path o1) as (Ho3 & Ew & Hurl & En & Ep).
  { case_bool_decide as Hempty.
    - apply res_bind_ok in Hu as (url & Eurl & [= <-]). destruct Ho as [Hnet]. destruct o1; cbn in *.
      split; [by constructor|]. split_and!; try done. by destruct Hnet as [-> | ->]; injection Eurl as <-.
    - injection Hu as <-. done. }
  split_and!; try done; [by rewrite Ew|]. rewrite En, Ep. intros Hno. rewrite Hno in Hs. cbn in Hs. bool_prop.
  by destruct (op_share_store_path o1); [destruct Hs; eauto|].
Qed.
End Accepted.

Definition demo_args : list text :=
  [text_of "--wallet"; text_of "ZxDemo"; text_of "--stratum"; text_of "--p2p-peer"; text_of "[::1]:37889";
   text_of "--p2p-peer"; text_of "pool.example:4000"].

Lemma args_typed_witness :
  ∃ o, parse_args (λ _, None) demo_args = Ok (Some o) ∧ options_ok o ∧
    op_p2p_peers o = [mkEndpoint (text_of "::1") 37889; mkEndpoint (text_of "pool.example") 4000].
Proof.
  eexists. split; [vm_compute; reflexivity|]. split; [|reflexivity].
  apply (args_typed (λ _, None) demo_args). vm_compute. reflexivity.
Defined.

(** ** Bootstrap nodes *)

Lemma append_unique_spec l e :
  NoDup l → NoDup (append_unique_endpoint l e) ∧ ∀ x, x ∈ append_unique_endpoint l e ↔ x ∈ l ∨ x = e.
Proof.
  intros Hl. unfold append_unique_endpoint.
  assert (∀ x y, same_seed_endpoint x y = true ↔ x = y) as Hsame.
  { intros [h p] [h' p']. unfold same_seed_endpoint. cbn. rewrite andb_true_iff, bool_decide_eq_true, Z.eqb_eq. naive_solver. }
  destruct (existsb _ l) eqn:E.
  - apply existsb_exists in E as (x & Hx%list_elem_of_In & ->%Hsame). split; [done|]. intros y. split; [by left|]. by intros [?| ->].
  - assert (e ∉ l) as He.
    { intros Hin. rewrite <-not_true_iff_false in E. apply E, existsb_exists. exists e. split; [by apply list_elem_of_In|by apply Hsame]. }
    split.
    + apply NoDup_app. split; [done|]. split; [by intros x Hx ->%list_elem_of_singleton|apply NoDup_singleton].
    + intros x. by rewrite elem_of_app, list_elem_of_singleton.
Qed.

(** Every peer named is dialled once, and no other. *)
Lemma bootstrap_nodes_exact network peers seeds :
  NoDup (p2p_bootstrap_nodes network peers seeds) ∧ ∀ e, e ∈ p2p_bootstrap_nodes network peers seeds ↔ e ∈ peers.
Proof.
  assert (∀ l acc, NoDup acc → NoDup (foldl append_unique_endpoint acc l) ∧
    ∀ e, e ∈ foldl append_unique_endpoint acc l ↔ e ∈ acc ∨ e ∈ l) as H.
  { induction l as [|x l IH]; intros acc Hacc; cbn; [split; [done|]; intros; rewrite elem_of_nil; tauto|].
    destruct (append_unique_spec acc x Hacc) as [Hnd Hin]. destruct (IH _ Hnd) as [H1 H2]. split; [done|].
    intros e. rewrite H2, Hin, elem_of_cons. tauto. }
  unfold p2p_bootstrap_nodes. replace (if seeds then default_p2p_seed_nodes network else []) with (@nil P2pEndpoint) by (by destruct seeds).
  cbn. destruct (H peers [] (NoDup_nil_2)) as [H1 H2]. split; [done|]. intros e. rewrite H2, elem_of_nil. tauto.
Qed.
