(* ===== verification/TemplateRefresh.v ===== *)
(** Template refresh decisions ([src/template_refresh.cpp]): which canonical
    reorganisation two daemon templates show, the audit that follows it, and when miners
    need a new template.  The callbacks of the audit are statements over a state. *)
From S2P Require Import Prelude CryptoHash MiningHeader BlockTemplate.
Local Open Scope pool_scope.

(** ** Canonical reorganisations *)

Inductive CanonicalReorgKind := ReorgNone | SameHeightReplacement | AdvancedReplacement | Rollback.
#[export] Instance CanonicalReorgKind_eq_dec : EqDecision CanonicalReorgKind.
Proof. solve_decision. Defined.

Definition classify_canonical_reorg (current_block next_block : BlockTemplate.BlockTemplate)
    (advanced_parent_replacement : bool) : CanonicalReorgKind :=
  if bt_height next_block <? bt_height current_block then Rollback
  else if (bt_height next_block =? bt_height current_block) &&
          negb (bool_decide (bt_prev_hash next_block = bt_prev_hash current_block))
  then SameHeightReplacement
  else if (bt_height current_block <? bt_height next_block) && advanced_parent_replacement
  then AdvancedReplacement
  else ReorgNone.

Record CanonicalReorgAuditPlan := mkAuditPlan {
  ap_kind : CanonicalReorgKind;
  ap_maximum_work_height : Z;
  ap_canonical_parents : list (Z * Hash256) }.

Section Audit.
Context {S : Type} (stop_publication : exec S ()) (provenance_heights : exec S (list Z)).
Context (canonical_parent_for_work_height : Z → exec S Hash256).

Fixpoint audit_heights (maximum_work_height : Z) (heights : list Z) (parents : list (Z * Hash256))
    : exec S (list (Z * Hash256)) :=
  match heights with
  | [] => exec_ret parents
  | height :: rest =>
      if (height =? 0) || (maximum_work_height <? height)
      then audit_heights maximum_work_height rest parents
      else
      parent <- canonical_parent_for_work_height height ;;
      audit_heights maximum_work_height rest (parents ++ [(height, parent)])
  end.

Definition prepare_canonical_reorg_audit (kind : CanonicalReorgKind) (maximum_work_height : Z)
    : exec S CanonicalReorgAuditPlan :=
  if bool_decide (kind = ReorgNone) then exec_ret (mkAuditPlan kind maximum_work_height [])
  else
  do stop_publication ;;
  heights <- provenance_heights ;;
  parents <- audit_heights maximum_work_height heights [] ;;
  exec_ret (mkAuditPlan kind maximum_work_height parents).

End Audit.

Definition should_refresh_stratum_template (current_block : BlockTemplate.BlockTemplate)
    (current_work : MiningHeaderWork) (next_block : BlockTemplate.BlockTemplate) (next_work : MiningHeaderWork) : bool :=
  if negb (bt_height current_block =? bt_height next_block) ||
     negb (bool_decide (bt_prev_hash current_block = bt_prev_hash next_block)) ||
     negb (bool_decide (bt_difficulty current_block = bt_difficulty next_block)) ||
     negb (bool_decide (bt_seed current_block = bt_seed next_block)) ||
     negb (bt_block_reward current_block =? bt_block_reward next_block) ||
     negb (bt_block_reward_without_fee current_block =? bt_block_reward_without_fee next_block) ||
     negb (bt_txs_fee current_block =? bt_txs_fee next_block)
  then true
  else negb (bool_decide (tt_hashes (mw_tx_hashes current_work) = tt_hashes (mw_tx_hashes next_work))).

(** ** The audit *)

Section AuditSpec.
Context {S : Type} (stop_publication : exec S ()) (provenance_heights : exec S (list Z)).
Context (lookup : Z → exec S Hash256).

(** The heights the audit asks for, in order. *)
Definition audited (maximum_work_height : Z) (heights : list Z) : list Z :=
  filter (λ h, h ≠ 0 ∧ h ≤ maximum_work_height) heights.

Lemma audit_heights_fst maximum heights : ∀ parents s ps s',
  audit_heights lookup maximum heights parents s = (Ok ps, s') →
  ps.*1 = parents.*1 ++ audited maximum heights.
Proof.
  induction heights as [|h rest IH]; intros parents s ps s' E; cbn [audit_heights] in E.
  { injection E as <- _. unfold audited. by rewrite filter_nil, app_nil_r. }
  destruct ((h =? 0) || (maximum <? h)) eqn:G.
  - rewrite (IH _ _ _ _ E). unfold audited. rewrite filter_cons_False; [done|lia].
  - apply exec_bind_ok in E as (p & s1 & _ & E). rewrite (IH _ _ _ _ E).
    unfold audited. rewrite filter_cons_True; [|lia]. by rewrite fmap_app, <- (assoc_L (++)).
Qed.

(** The audit of a reorganisation stops publication before anything else, and a plan it
    returns covers exactly the nonzero heights up to the maximum, in their order. *)
Lemma audit_fail_closed kind maximum s r s' :
  kind ≠ ReorgNone →
  prepare_canonical_reorg_audit stop_publication provenance_heights lookup kind maximum s = (r, s') →
  (∀ e, (stop_publication s).1 = Throw e → r = Throw e ∧ s' = (stop_publication s).2) ∧
  (∀ plan, r = Ok plan → ap_kind plan = kind ∧ ap_maximum_work_height plan = maximum ∧
     ∃ heights, (provenance_heights (stop_publication s).2).1 = Ok heights ∧
       (ap_canonical_parents plan).*1 = audited maximum heights).
Proof.
  intros Hk E. unfold prepare_canonical_reorg_audit in E. rewrite bool_decide_eq_false_2 in E; [|done].
  unfold exec_bind in E. destruct (stop_publication s) as [[[]|e] s1]; cbn [fst snd] in *; [|naive_solver].
  split; [naive_solver|]. intros plan ->.
  destruct (provenance_heights s1) as [[heights|] s2]; [|naive_solver].
  destruct (audit_heights lookup maximum heights [] s2) as [[ps|] s3] eqn:A; [|naive_solver].
  injection E as <- _. do 2 (split; [done|]). exists heights. split; [done|].
  by apply audit_heights_fst in A.
Qed.

End AuditSpec.

(** No reorganisation is reported exactly when the chain kept the parent it had: the same
    height on the same parent, or a greater height above an unreplaced parent. *)
Lemma classify_none current next replaced :
  classify_canonical_reorg current next replaced = ReorgNone ↔
  (bt_height next = bt_height current ∧ bt_prev_hash next = bt_prev_hash current) ∨
  (bt_height current < bt_height next ∧ replaced = false).
Proof.
  unfold classify_canonical_reorg.
  destruct (bt_height next <? bt_height current) eqn:A; [naive_solver lia|].
  destruct (bt_height next =? bt_height current) eqn:B; cbn [andb].
  - case_bool_decide; cbn [negb]; [|naive_solver lia].
    destruct (bt_height current <? bt_height next) eqn:C; [lia|]. naive_solver lia.
  - destruct (bt_height current <? bt_height next) eqn:C; [|lia].
    destruct replaced; naive_solver lia.
Qed.
