(* ===== verification/Daemon.v ===== *)
(** The daemon: the refresh loop of [src/main.cpp] that joins the components.

    Its state is the live template, the node with the share chain it shares with the Stratum
    server, the two files, the server and the block submitter.  A turn of the loop is one
    sequence of statements that sees no other thread; what the threads of the peers, the
    miners and the submitter do between two turns are [peer_message], [accepted_share] and
    [block_event].  Text written to the terminal is left out. *)
From S2P Require Import Prelude CryptoHash PowTarget Share SidechainParams ShareChain Pplns PplnsCoinbase.
From S2P Require Import P2pProtocol P2pShare P2pSync ShareStore ReplayStore MiningHeader BlockTemplate.
From S2P Require Import MiningContext WorkArchive WorkRetrieval PeerGuard ZanoCurve MinerTxProofs HistoricalTrust Restart.
From S2P Require Import RpcClient BlockSubmitter StratumProtocol StratumSession StratumSubmission.
From S2P Require Import StratumServer PplnsTemplate NodeState P2pNode TokenBucket P2pTransport RuntimeSetup.
From S2P Require Import TemplateRefresh.
Import Backoff.
Local Open Scope pool_scope.

#[export] Instance exn_kind_eq_dec : EqDecision exn_kind.
Proof. solve_decision. Defined.

(** [catch (const std::exception&)]; the end of the process is not caught. *)
Definition on_exception {S A} (m : exec S A) (h : exn → exec S A) : exec S A := λ s,
  match m s with
  | (Throw e, s') => if bool_decide (exn_class e = Terminate) then (Throw e, s') else h e s'
  | (Ok a, s') => (Ok a, s')
  end.

(** ** State *)

Record LiveTemplate := mkLive {
  lt_block : BlockTemplate.BlockTemplate;
  lt_mining_work : MiningHeaderWork;
  lt_seed_hash : Hash256;
  lt_network_difficulty : Difficulty128;
  lt_payout_plan : option PplnsCoinbasePlan;
  lt_parent_binding : option StratumShareParentBinding }.

(** The Stratum server and whether it listens. *)
Record ServerHandle := mkServerHandle { sh_running : bool; sh_server : StratumTcpServer }.

(** The atomic counters that [main] keeps. *)
Inductive counter :=
| ObservedZanoHeight | StratumAcceptedShares | P2pAdmittedShares | BlockCandidates | BlocksSubmitted
| BlocksAlternative | BlockSubmissionFailures | TemplateRefreshFailures | HistoricalRetryAttempts
| HistoricalRetryTrusted | HistoricalRetryConnected | HistoricalRetryFailures | HistoricalRetryRemaining.
#[export] Instance counter_eq_dec : EqDecision counter.
Proof. solve_decision. Defined.

Record Daemon (W : Type) := mkDaemon {
  dm_live : LiveTemplate;
  dm_node : P2pNodeProtocol W;
  dm_share_store : option File;
  dm_validation_store : option File;
  dm_server : option ServerHandle;
  dm_submitter : option BlockCandidateSubmitter;
  dm_job_sequence : Z;
  dm_cache_dirty : bool;
  dm_persistence_failed : bool;
  dm_refresh_requested : bool;
  dm_counters : counter → Z;
  dm_backoff : RpcRetryBackoff;
  dm_rpc_unavailable : bool;
  dm_refresh_delay : Z }.
Arguments mkDaemon {W}.
Arguments dm_live {W}.
Arguments dm_node {W}.
Arguments dm_share_store {W}.
Arguments dm_validation_store {W}.
Arguments dm_server {W}.
Arguments dm_submitter {W}.
Arguments dm_job_sequence {W}.
Arguments dm_cache_dirty {W}.
Arguments dm_persistence_failed {W}.
Arguments dm_refresh_requested {W}.
Arguments dm_counters {W}.
Arguments dm_backoff {W}.
Arguments dm_rpc_unavailable {W}.
Arguments dm_refresh_delay {W}.

Section Fields.
Context {W : Type}.
Implicit Types d : Daemon W.

(** Assignments to one member. *)
Definition dm_set_live (x : LiveTemplate) d : Daemon W :=
  let '(mkDaemon _ a1 a2 a3 a4 a5 a6 a7 a8 a9 a10 a11 a12 a13) := d in
  mkDaemon x a1 a2 a3 a4 a5 a6 a7 a8 a9 a10 a11 a12 a13.
Definition dm_set_node (x : P2pNodeProtocol W) d : Daemon W :=
  let '(mkDaemon a0 _ a2 a3 a4 a5 a6 a7 a8 a9 a10 a11 a12 a13) := d in
  mkDaemon a0 x a2 a3 a4 a5 a6 a7 a8 a9 a10 a11 a12 a13.
Definition dm_set_share_store (x : option File) d : Daemon W :=
  let '(mkDaemon a0 a1 _ a3 a4 a5 a6 a7 a8 a9 a10 a11 a12 a13) := d in
  mkDaemon a0 a1 x a3 a4 a5 a6 a7 a8 a9 a10 a11 a12 a13.
Definition dm_set_validation_store (x : option File) d : Daemon W :=
  let '(mkDaemon a0 a1 a2 _ a4 a5 a6 a7 a8 a9 a10 a11 a12 a13) := d in
  mkDaemon a0 a1 a2 x a4 a5 a6 a7 a8 a9 a10 a11 a12 a13.
Definition dm_set_server (x : option ServerHandle) d : Daemon W :=
  let '(mkDaemon a0 a1 a2 a3 _ a5 a6 a7 a8 a9 a10 a11 a12 a13) := d in
  mkDaemon a0 a1 a2 a3 x a5 a6 a7 a8 a9 a10 a11 a12 a13.
Definition dm_set_submitter (x : option BlockCandidateSubmitter) d : Daemon W :=
  let '(mkDaemon a0 a1 a2 a3 a4 _ a6 a7 a8 a9 a10 a11 a12 a13) := d in
  mkDaemon a0 a1 a2 a3 a4 x a6 a7 a8 a9 a10 a11 a12 a13.
Definition dm_set_job_sequence (x : Z) d : Daemon W :=
  let '(mkDaemon a0 a1 a2 a3 a4 a5 _ a7 a8 a9 a10 a11 a12 a13) := d in
  mkDaemon a0 a1 a2 a3 a4 a5 x a7 a8 a9 a10 a11 a12 a13.
Definition dm_set_cache_dirty (x : bool) d : Daemon W :=
  let '(mkDaemon a0 a1 a2 a3 a4 a5 a6 _ a8 a9 a10 a11 a12 a13) := d in
  mkDaemon a0 a1 a2 a3 a4 a5 a6 x a8 a9 a10 a11 a12 a13.
Definition dm_set_persistence_failed (x : bool) d : Daemon W :=
  let '(mkDaemon a0 a1 a2 a3 a4 a5 a6 a7 _ a9 a10 a11 a12 a13) := d in
  mkDaemon a0 a1 a2 a3 a4 a5 a6 a7 x a9 a10 a11 a12 a13.
Definition dm_set_refresh_requested (x : bool) d : Daemon W :=
  let '(mkDaemon a0 a1 a2 a3 a4 a5 a6 a7 a8 _ a10 a11 a12 a13) := d in
  mkDaemon a0 a1 a2 a3 a4 a5 a6 a7 a8 x a10 a11 a12 a13.
Definition dm_set_counters (x : counter → Z) d : Daemon W :=
  let '(mkDaemon a0 a1 a2 a3 a4 a5 a6 a7 a8 a9 _ a11 a12 a13) := d in
  mkDaemon a0 a1 a2 a3 a4 a5 a6 a7 a8 a9 x a11 a12 a13.
Definition dm_set_backoff (x : RpcRetryBackoff) d : Daemon W :=
  let '(mkDaemon a0 a1 a2 a3 a4 a5 a6 a7 a8 a9 a10 _ a12 a13) := d in
  mkDaemon a0 a1 a2 a3 a4 a5 a6 a7 a8 a9 a10 x a12 a13.
Definition dm_set_rpc_unavailable (x : bool) d : Daemon W :=
  let '(mkDaemon a0 a1 a2 a3 a4 a5 a6 a7 a8 a9 a10 a11 _ a13) := d in
  mkDaemon a0 a1 a2 a3 a4 a5 a6 a7 a8 a9 a10 a11 x a13.
Definition dm_set_refresh_delay (x : Z) d : Daemon W :=
  let '(mkDaemon a0 a1 a2 a3 a4 a5 a6 a7 a8 a9 a10 a11 a12 _) := d in
  mkDaemon a0 a1 a2 a3 a4 a5 a6 a7 a8 a9 a10 a11 a12 x.
End Fields.

(** ** Small helpers *)

Definition parse_hash256 (hex : text) : res Hash256 :=
  (bytes ← hex_to_bytes (strip_hex_prefix hex);
  _ ← throw_if (negb (length bytes =? 32)%nat) RuntimeError "expected a 32-byte hash from Zano RPC";
  mret (arr_of 32 bytes))%stdpp.

Definition trusted_context_from_live (live : LiveTemplate) : ShareWorkContext :=
  mkContext (bt_height (lt_block live)) (mw_header_hash (lt_mining_work live)) (lt_network_difficulty live).

(** [StratumTcpServer::stop]: every client's thread ends with its session. *)
Definition stop_server (h : ServerHandle) : ServerHandle :=
  if negb (sh_running h) then h
  else mkServerHandle false
         (foldr (λ client, client_gone client.1 client.2) (sh_server h) (clients_by_fd (sh_server h))).

(** [BlockCandidateSubmitter::stop]; a submission the worker still holds ends before it. *)
Definition stop_submitter (s : BlockCandidateSubmitter) : BlockCandidateSubmitter :=
  if bs_running s then finish_stop (request_stop s) else s.

Definition stratum_listening {W} (d : Daemon W) : bool :=
  match dm_server d with Some h => sh_running h | None => false end.
Definition submitter_running {W} (d : Daemon W) : bool :=
  match dm_submitter d with Some s => is_running s | None => false end.

Definition set_plan_binding (plan : option PplnsCoinbasePlan) (binding : option StratumShareParentBinding)
    (live : LiveTemplate) : LiveTemplate :=
  let '(mkLive block work seed difficulty _ _) := live in mkLive block work seed difficulty plan binding.

Section Template.
Context `{!ZanoMinerTx}.

(** Whether the template carries the pool's own payout, and the template.  A template that is
    ready always comes with its mining work. *)
Definition apply_canonical_pplns_template (chain : ShareChain) (params : SidechainParameters)
    (live : LiveTemplate) : res (bool * LiveTemplate) :=
  if (connected_size chain =? 0)%nat
  then Ok (false, set_plan_binding None (Some (mkBinding (arr_zero 32) 0)) live)
  else
  match best_tip chain with
  | None => Ok (false, set_plan_binding None None live)
  | Some tip =>
      if negb (validated_ancestry tip) then Ok (false, set_plan_binding None None live)
      else if share_height (cs_share tip) =? u64_max
      then throw RuntimeError "sidechain share height exhausted while constructing PPLNS template"
      else
      let rebuilt := build_canonical_pplns_template (lt_block live) chain params (text_of "zano-p2pool") in
      match pr_status rebuilt, pr_mining_work rebuilt with
      | TemplateReady, Some work =>
          Ok (true, mkLive (pr_block rebuilt) work (lt_seed_hash live) (lt_network_difficulty live)
                      (Some (pr_plan rebuilt))
                      (Some (mkBinding (cs_id tip) (share_height (cs_share tip) + 1))))
      | status, _ =>
          throw RuntimeError
            ("canonical PPLNS template unavailable: " +:+ pplns_template_status_name status +:+
             (if bool_decide (pr_error rebuilt = "") then ""
              else " (" +:+ pr_error rebuilt +:+ ")"))
      end
  end.

End Template.

Section Loop.
Context `{!ProgPow, !JsonC, !JsonTokenerEnd, !ZanoCrypto, !ZanoMinerTx} {W : Type}.
Context (options : Options) (params : SidechainParameters) (store_id : SidechainId).
(** The daemon's RPC, the peers when P2P is on, the clock and the listening socket. *)
Context (curl_easy_perform : text → W → curl_outcome * W).
Context (p2p_runtime : option (P2pRuntime W)) (broadcast : P2pEnvelope → W → W)
  (runtime_running : W → bool).
Context (unix_time_seconds : W → Z * W) (open_listener : StratumServerConfig → exec W ()).
Context (dup : Z → bool).

Abbreviation state := (Daemon W * W)%type.

Definition get_daemon : exec state (Daemon W) := on_state exec_get.
Definition modify_daemon (f : Daemon W → Daemon W) : exec state () := on_state (exec_modify f).
Definition rpc {A} (m : exec W A) : exec state A := on_world m.
Definition on_node {A} (m : exec (P2pNodeProtocol W) A) : exec state A :=
  on_state (zoom dm_node dm_set_node m).
(** A call of the node that also uses the runtime and the daemon. *)
Definition on_node_world {A} (m : exec (P2pNodeProtocol W * W) A) : exec state A := λ s,
  let '(r, (n, w)) := m (dm_node s.1, s.2) in (r, (dm_set_node n s.1, w)).
Definition lift {A} (m : res A) : exec state A := exec_const (λ _, m).
Definition time_now : exec state Z := on_world (λ w, let '(t, w') := unix_time_seconds w in (Ok t, w')).
Definition send_all_peers (e : P2pEnvelope) : exec state () := on_world (exec_modify (broadcast e)).

Definition canonical_header (height : Z) : exec W RpcCanonicalHeader :=
  get_canonical_header curl_easy_perform height.
Definition daemon_template : exec W BlockTemplate.BlockTemplate :=
  get_block_template curl_easy_perform (op_wallet options) (text_of "zano-p2pool/0.1.0-dev").
Definition canonical_parent (height : Z) : exec W Hash256 :=
  stable_canonical_parent_for_work_height canonical_header height.

(** Atomic counters are 64 bits wide. *)
Definition count_to (c : counter) (v : Z) (d : Daemon W) : Daemon W :=
  dm_set_counters (λ x, if bool_decide (x = c) then wrap64 v else dm_counters d x) d.
Definition count_add (c : counter) (v : Z) (d : Daemon W) : Daemon W :=
  count_to c (dm_counters d c + v) d.

(** ** Templates *)

Definition fetch_live_template : exec W LiveTemplate :=
  block <- daemon_template ;;
  exec_const (λ _,
    (block_blob ← hex_to_bytes (bt_blocktemplate_blob block);
    mining_work ← derive_mining_header_work block_blob;
    seed_hash ← parse_hash256 (bt_seed block);
    network_difficulty ← difficulty128_from_decimal (bt_difficulty block);
    mret (mkLive block mining_work seed_hash network_difficulty None None))%stdpp).

Definition set_local_p2p_context (live : LiveTemplate) : exec (P2pNodeProtocol W) () :=
  anchor <- exec_const (λ _, p2p_mining_anchor_from_template (lt_block live)) ;;
  proposal <- exec_const (λ _, p2p_mining_context_proposal_from_template (lt_block live)) ;;
  match lt_payout_plan live with
  | Some plan =>
      match lt_parent_binding live with
      | None => exec_throw RuntimeError "canonical PPLNS context has no captured sidechain parent"
      | Some binding => set_local_mining_context_plan anchor proposal plan (Some (pb_parent_id binding))
      end
  | None =>
      do exec_modify clear_expected_payout ;;
      set_local_mining_context anchor proposal
  end.

(** ** Durable state *)

Definition request_template_refresh : Daemon W → Daemon W := dm_set_refresh_requested true.
Definition persistence_failure (d : Daemon W) : Daemon W := dm_set_persistence_failed true d.

(** The archive with its index, when there is one. *)
Definition put_work (live : LiveTemplate) : exec (P2pNodeProtocol W) () :=
  n <- exec_get ;;
  match np_work_retrieval n with
  | None => exec_ret ()
  | Some handle =>
      proposal <- exec_const (λ _, p2p_mining_context_proposal_from_template (lt_block live)) ;;
      payload <- exec_const (λ _, serialize_p2p_mining_context_payload proposal) ;;
      do (λ n, let '(r, dir) := archive_put (rh_sidechain_id handle) payload (rh_archive handle) in
               (r, set_work_retrieval (Some (mkRetrievalHandle (rh_sidechain_id handle) dir (rh_state handle))) n)) ;;
      retrieval_op (remember_local proposal)
  end.
Definition archive_work (live : LiveTemplate) : exec state () :=
  on_throw (on_node (put_work live)) (λ s, (persistence_failure s.1, s.2)).

Definition persist_share (share : Share) : exec state () :=
  modify_daemon (λ d,
    match dm_share_store d with
    | None => d
    | Some file =>
        if dm_persistence_failed d then d
        else
        match append store_id share file with
        | (Ok _, file') => dm_set_share_store (Some file') d
        | (Throw _, file') => request_template_refresh (persistence_failure (dm_set_share_store (Some file') d))
        end
    end).
Fixpoint persist_shares (shares : list Share) : exec state () :=
  match shares with
  | [] => exec_ret ()
  | share :: rest => do persist_share share ;; persist_shares rest
  end.

Definition persist_pruned_shares (ids : list ShareId) : exec state () :=
  modify_daemon (λ d,
    match dm_share_store d with
    | None => d
    | Some file =>
        if bool_decide (ids = []) || dm_persistence_failed d then d
        else
        match erase_records store_id ids file with
        | (Ok removed, file') =>
            let d := dm_set_share_store (Some file') d in
            if (removed =? length ids)%nat then d else request_template_refresh (persistence_failure d)
        | (Throw _, file') => request_template_refresh (persistence_failure (dm_set_share_store (Some file') d))
        end
    end).

(** The template of the daemon must still be the one that was reconciled. *)
Definition save_validation (reconciled_template : BlockTemplate.BlockTemplate) : exec state bool :=
  checkpoint_template <- rpc daemon_template ;;
  reconciled_parent <- lift (parse_hash256 (bt_prev_hash reconciled_template)) ;;
  checkpoint_parent <- lift (parse_hash256 (bt_prev_hash checkpoint_template)) ;;
  if negb (bt_height checkpoint_template =? bt_height reconciled_template) ||
     negb (arr_eqb checkpoint_parent reconciled_parent)
  then exec_ret false
  else
  d <- get_daemon ;;
  persisted <- (λ s,
    let '(r, (file, w)) := persist_replayed_validation_cache canonical_header (np_chain (dm_node d)) params
        store_id (bt_height checkpoint_template) checkpoint_parent (default None (dm_validation_store d), s.2) in
    (r, (dm_set_validation_store (Some file) s.1, w))) ;;
  exec_ret match pv_status persisted with CacheSaved => true | CanonicalChanged | CheckpointTooOld => false end.

Definition persist_runtime_replay_validation (reconciled_template : BlockTemplate.BlockTemplate) : exec state bool :=
  d <- get_daemon ;;
  match dm_validation_store d, dm_share_store d with
  | Some _, Some _ =>
      if dm_persistence_failed d then exec_ret false
      else λ s, match save_validation reconciled_template s with
                | (Throw _, s') => (Ok false, s')
                | r => r
                end
  | _, _ => exec_ret true
  end.

Definition flush_runtime_replay_validation (reconciled_template : BlockTemplate.BlockTemplate) : exec state () :=
  d <- get_daemon ;;
  do modify_daemon (dm_set_cache_dirty false) ;;
  if negb (dm_cache_dirty d) then exec_ret ()
  else
  saved <- persist_runtime_replay_validation reconciled_template ;;
  if (saved : bool) then exec_ret () else modify_daemon (dm_set_cache_dirty true).

(** ** Recovery on a refresh *)

Definition mark_dirty (changed : bool) : exec state () :=
  if changed then modify_daemon (dm_set_cache_dirty true) else exec_ret ().

(** Each tells whether the payout has to be rebuilt. *)
Definition retry_once (runtime : P2pRuntime W) : exec state bool :=
  now <- time_now ;;
  summary <- on_node_world (retry_historical_pow_unavailable runtime now Light) ;;
  do persist_shares (rs_admitted_shares summary) ;;
  do persist_pruned_shares (rs_pruned_share_ids summary) ;;
  let changed := negb (rs_connected summary =? 0)%nat || negb (rs_pruned_connected_shares summary =? 0)%nat in
  do mark_dirty (negb (bool_decide (rs_admitted_shares summary = [])) || changed) ;;
  do modify_daemon (λ d,
       count_to HistoricalRetryRemaining (Z.of_nat (rs_remaining summary))
         (count_add HistoricalRetryConnected (Z.of_nat (rs_connected summary))
            (count_add HistoricalRetryTrusted (Z.of_nat (rs_trusted summary))
               (count_add HistoricalRetryAttempts (Z.of_nat (rs_attempted summary)) d)))) ;;
  exec_ret changed.
Definition retry_historical_pow : exec state bool :=
  match p2p_runtime with
  | None => exec_ret false
  | Some runtime =>
      on_exception (retry_once runtime)
        (λ _, do modify_daemon (count_add HistoricalRetryFailures 1) ;; exec_ret true)
  end.

Definition replay_tick (runtime : P2pRuntime W) : exec state bool :=
  now <- time_now ;;
  summary <- on_node_world (P2pNode.advance_replay_recovery runtime now Light) ;;
  do persist_pruned_shares (rp_pruned_share_ids summary) ;;
  let changed := negb (rp_connected summary =? 0)%nat || negb (rp_pruned_connected_shares summary =? 0)%nat in
  do mark_dirty changed ;;
  exec_ret changed.
Definition advance_replay_recovery : exec state bool :=
  match p2p_runtime with
  | None => exec_ret false
  | Some runtime =>
      periodic_tip <- on_node (exec_const periodic_tip_announce) ;;
      do (match periodic_tip with Some envelope => send_all_peers envelope | None => exec_ret () end) ;;
      on_exception (replay_tick runtime) (λ _, exec_ret true)
  end.

(** ** Reorganisations *)

(** The server first, then the submitter. *)
Definition withdraw (d : Daemon W) : Daemon W :=
  let d := if stratum_listening d then dm_set_server (stop_server <$> dm_server d) d else d in
  let d := if submitter_running d then dm_set_submitter (stop_submitter <$> dm_submitter d) d else d in
  dm_set_job_sequence 0 d.

Definition stop_publication (d : Daemon W) : Daemon W :=
  if negb (op_stratum options) then d else withdraw d.

(** A parent replaced below the new height shows in the header of the old one. *)
Definition detect_reorg (next : LiveTemplate) : exec state CanonicalReorgKind :=
  d <- get_daemon ;;
  let live := lt_block (dm_live d) in
  advanced <- (if (bt_height live <? bt_height (lt_block next)) && negb (bt_height live =? 0) then
                 current_old_parent <- rpc (canonical_parent (bt_height live)) ;;
                 old_parent <- lift (parse_hash256 (bt_prev_hash live)) ;;
                 exec_ret (negb (arr_eqb current_old_parent old_parent))
               else exec_ret false) ;;
  exec_ret (classify_canonical_reorg live (lt_block next) advanced).

Fixpoint reconcile_parents (parents : list (Z * Hash256)) : exec (P2pNodeProtocol W) () :=
  match parents with
  | [] => exec_ret ()
  | (height, parent) :: rest =>
      do reconcile_canonical_parent height parent ;; reconcile_parents rest
  end.

Definition reconcile_reorg (kind : CanonicalReorgKind) (next : LiveTemplate) : exec state () :=
  if bool_decide (kind = ReorgNone) then exec_ret ()
  else
  plan <- prepare_canonical_reorg_audit (modify_daemon stop_publication)
            (on_node (exec_const (λ n, Ok (trusted_work_provenance_heights n))))
            (λ height, rpc (canonical_parent height)) kind (bt_height (lt_block next)) ;;
  do on_node (reconcile_parents (ap_canonical_parents plan)) ;;
  do on_node (reconcile_unavailable_work_above (ap_maximum_work_height plan)) ;;
  do modify_daemon (dm_set_cache_dirty true) ;;
  do on_node (exec_modify clear_expected_payout) ;;
  on_node (set_local_p2p_context next).

(** ** Publication *)

(** The chain of the server is the node's. *)
Definition publish_live (live : LiveTemplate) : exec state Z := λ s,
  match dm_server s.1 with
  | None => (Ok 0, s)
  | Some h =>
      let '(r, server) :=
        server_publish_template dup (mw_header_hash (lt_mining_work live)) (lt_seed_hash live)
          (bt_height (lt_block live)) (lt_network_difficulty live) (lt_parent_binding live)
          (set_server_chain (np_chain (dm_node s.1)) (sh_server h)) in
      ((fst <$> r)%stdpp, (dm_set_server (Some (mkServerHandle (sh_running h) server)) s.1, s.2))
  end.

Definition start_submitter : exec state () := λ s,
  match dm_submitter s.1 with
  | None => (Ok (), s)
  | Some b => let '(r, b') := BlockSubmitter.start b in (r, (dm_set_submitter (Some b') s.1, s.2))
  end.

Definition start_server : exec state () := λ s,
  match dm_server s.1 with
  | None => (Ok (), s)
  | Some h =>
      if sh_running h then (throw RuntimeError "Stratum server is already running", s)
      else
      match open_listener (sv_config (sh_server h)) s.2 with
      | (Throw e, w) => (Throw e, (s.1, w))
      | (Ok _, w) => (Ok (), (dm_set_server (Some (mkServerHandle true (sh_server h))) s.1, w))
      end
  end.

Definition activate (live : LiveTemplate) : exec state () :=
  before <- get_daemon ;;
  next_version <- publish_live live ;;
  d <- get_daemon ;;
  do (if submitter_running d then exec_ret () else start_submitter) ;;
  do (if stratum_listening before then exec_ret ()
      else on_throw start_server (λ s, (dm_set_submitter (stop_submitter <$> dm_submitter s.1) s.1, s.2))) ;;
  modify_daemon (λ d, if next_version =? dm_job_sequence d then d else dm_set_job_sequence next_version d).

Definition has_stratum (d : Daemon W) : bool :=
  op_stratum options && bool_decide (is_Some (dm_server d)) && bool_decide (is_Some (dm_submitter d)).

Definition remember_block (canonical_pplns : bool) (live : LiveTemplate) : exec state () := λ s,
  match dm_submitter s.1 with
  | Some b =>
      if canonical_pplns then
        let '(r, b') := remember_template (mw_header_hash (lt_mining_work live))
                          (bt_blocktemplate_blob (lt_block live)) b in
        (r, (dm_set_submitter (Some b') s.1, s.2))
      else (Ok (), s)
  | None => (Ok (), s)
  end.

Definition publish_or_withdraw (stratum_ready : bool) (live : LiveTemplate) : exec state () :=
  d <- get_daemon ;;
  if negb (has_stratum d) then exec_ret ()
  else if stratum_ready then activate live else modify_daemon withdraw.

Definition announce_context : exec state () :=
  match p2p_runtime with
  | None => exec_ret ()
  | Some _ =>
      local <- on_node (exec_const local_mining_context_envelope) ;;
      match local with Some envelope => send_all_peers envelope | None => exec_ret () end
  end.

(** From the payout plan to the new live template. *)
Definition install (fetched : LiveTemplate) : exec state () :=
  d <- get_daemon ;;
  rebuilt <- lift (apply_canonical_pplns_template (np_chain (dm_node d)) params fetched) ;;
  let '(canonical_pplns, next) := rebuilt in
  let stratum_ready := canonical_pplns || (connected_size (np_chain (dm_node d)) =? 0)%nat in
  do archive_work next ;;
  do remember_block canonical_pplns next ;;
  do on_node (set_local_p2p_context next) ;;
  do on_node (remember_trusted_work (trusted_context_from_live next)
                (pb_parent_id <$> lt_parent_binding next)) ;;
  do publish_or_withdraw stratum_ready next ;;
  do announce_context ;;
  do flush_runtime_replay_validation (lt_block next) ;;
  modify_daemon (dm_set_live next).

(** ** A turn of the loop *)

(** Unchanged and unforced: recovery goes first, and nothing more is done when it
    changed nothing. *)
Definition idle_recovery (quiet : bool) : exec state bool :=
  if negb quiet then exec_ret false
  else
  retried <- retry_historical_pow ;;
  advanced <- advance_replay_recovery ;;
  exec_ret (negb retried && negb advanced).

Definition late_recovery (quiet : bool) : exec state () :=
  if quiet then exec_ret ()
  else
  do retry_historical_pow ;;
  do advance_replay_recovery ;;
  exec_ret ().

Definition update_pass (forced_refresh : bool) (next : LiveTemplate) : exec state () :=
  do modify_daemon (count_to ObservedZanoHeight (bt_height (lt_block next))) ;;
  d <- get_daemon ;;
  let quiet := negb forced_refresh &&
    negb (should_refresh_stratum_template (lt_block (dm_live d)) (lt_mining_work (dm_live d))
            (lt_block next) (lt_mining_work next)) in
  idle <- idle_recovery quiet ;;
  if (idle : bool) then flush_runtime_replay_validation (lt_block next)
  else
  kind <- detect_reorg next ;;
  do reconcile_reorg kind next ;;
  do late_recovery quiet ;;
  install next.

Definition refresh_turn (forced_refresh : bool) : exec state () := λ s,
  match rpc fetch_live_template s with
  | (Throw e, (d, w)) =>
      if bool_decide (exn_class e = Terminate) then (Throw e, (d, w))
      else
      let '(delay, backoff) := record_failure (dm_backoff d) in
      (Ok (), (dm_set_refresh_delay delay
                 (dm_set_backoff backoff
                    (dm_set_rpc_unavailable true (count_add TemplateRefreshFailures 1 d))), w))
  | (Ok next, (d, w)) =>
      let d := dm_set_refresh_delay (op_template_refresh_seconds options * 1000)
                 (dm_set_backoff (record_success (dm_backoff d)) (dm_set_rpc_unavailable false d)) in
      on_exception (update_pass forced_refresh next)
        (λ _, modify_daemon (count_add TemplateRefreshFailures 1)) (d, w)
  end.

(** ** What the other threads call *)

Definition handle_peer_message (runtime : P2pRuntime W) (peer : P2pHandshake) (envelope : P2pEnvelope)
    : exec state () :=
  now <- time_now ;;
  result <- on_node_world (handle runtime now Light peer envelope) ;;
  admitted_shares <- lift (p2p_node_unique_admitted_shares result envelope) ;;
  do persist_shares admitted_shares ;;
  do persist_pruned_shares (mr_historical_pruned_share_ids result) ;;
  let pruned := negb (mr_historical_pruned_connected_shares result =? 0)%nat in
  let connected := mr_historical_share_connected result in
  do mark_dirty (negb (bool_decide (admitted_shares = [])) || connected || pruned) ;;
  do modify_daemon (count_add P2pAdmittedShares (Z.of_nat (length admitted_shares))) ;;
  let direct_share_connected :=
    (bool_decide (mr_status result = NodeShareProcessed) || bool_decide (mr_status result = ShareResponseProcessed)) &&
    bool_decide (mr_share_status result = RecvConnected) in
  do (if direct_share_connected || connected || pruned then modify_daemon request_template_refresh
      else exec_ret ()) ;;
  if bool_decide (mr_status result = MiningContextProcessed) && mr_mining_context_registry_inserted result then
    local <- on_node (exec_const local_mining_context_envelope) ;;
    match local with
    | Some context => on_world (exec_modify (λ w, (rn_send_to runtime (hs_node_id peer) context w).2))
    | None => exec_ret ()
    end
  else exec_ret ().

(** The message callback of the runtime. *)
Definition peer_message (peer : P2pHandshake) (envelope : P2pEnvelope) : exec state () :=
  match p2p_runtime with
  | None => exec_ret ()
  | Some runtime => on_exception (handle_peer_message runtime peer envelope) (λ _, exec_ret ())
  end.

Definition announce_share (share : Share) : exec state () := λ s,
  if bool_decide (is_Some p2p_runtime) && runtime_running s.2 then
    (announce <- lift (make_p2p_share_announce_envelope share) ;;
     do send_all_peers announce ;;
     tip <- on_node (exec_const (λ n, make_p2p_tip_announce_envelope (local_tip n))) ;;
     send_all_peers tip) s
  else (Ok (), s).

(** The accepted-share callback of the Stratum server. *)
Definition accepted_share (share : Share) (block_candidate : bool) : exec state () :=
  do modify_daemon (count_add StratumAcceptedShares 1) ;;
  do (if block_candidate then modify_daemon (count_add BlockCandidates 1) else exec_ret ()) ;;
  do persist_share share ;;
  do modify_daemon (dm_set_cache_dirty true) ;;
  do on_node (exec_modify clear_expected_payout) ;;
  do announce_share share ;;
  do modify_daemon (λ d,
       match dm_submitter d with
       | Some b =>
           if block_candidate then
             dm_set_submitter (Some (enqueue (mkCandidate (zano_height share) (mining_header_hash share) (nonce share)) b).2) d
           else d
       | None => d
       end) ;;
  modify_daemon request_template_refresh.

(** The two callbacks of the block submitter. *)
Definition submit_to_daemon (block_blob_hex : text) : exec W BlockSubmissionResult :=
  result <- rpc_submit_block curl_easy_perform block_blob_hex ;;
  exec_ret match result with
           | RpcAlternativeAccepted => BlockAlternativeAccepted
           | _ => BlockSubmitted
           end.
Definition block_event (event : BlockSubmitEvent) : exec state () :=
  modify_daemon (λ d,
    request_template_refresh
      (count_add match ev_status event with
                 | Submitted => BlocksSubmitted
                 | AlternativeAccepted => BlocksAlternative
                 | SubmissionFailed => BlockSubmissionFailures
                 end 1 d)).

(** The callbacks between two turns, and turns. *)
Inductive daemon_step : state → state → Prop :=
| step_turn forced s s' : refresh_turn forced s = (Ok (), s') → daemon_step s s'
| step_message peer envelope s r s' : peer_message peer envelope s = (r, s') → daemon_step s s'
| step_share share block s r s' : accepted_share share block s = (r, s') → daemon_step s s'
| step_event event s r s' : block_event event s = (r, s') → daemon_step s s'.

End Loop.
