(* ===== verification/DaemonSpec.v ===== *)
(** What the refresh loop guarantees: recovery and durable state never touch what is
    published, a reorganisation withdraws everything published before it, and a pass that
    completes serves miners exactly the template it built on a validated chain. *)
From S2P Require Import Prelude CryptoHash PowTarget Share SidechainParams ShareChain Pplns PplnsCoinbase.
From S2P Require Import P2pProtocol P2pShare P2pSync ShareStore ReplayStore MiningHeader BlockTemplate.
From S2P Require Import MiningContext WorkArchive WorkRetrieval PeerGuard ZanoCurve MinerTxProofs HistoricalTrust Restart.
From S2P Require Import RpcClient BlockSubmitter StratumProtocol StratumSession StratumSubmission.
From S2P Require Import StratumServer PplnsTemplate NodeState P2pNode TokenBucket P2pTransport RuntimeSetup.
From S2P Require Import TemplateRefresh Daemon.
Local Open Scope pool_scope.

(** ** Statements that relate their states by a preorder *)

Class Frames {S A} (R : relation S) (m : exec S A) : Prop := frames : ∀ s, R s (m s).2.

Section Frames.
#[local] Set Default Proof Using "Type*".
Context {S : Type} (R : relation S) `{!PreOrder R}.

#[export] Instance frames_ret {A} (a : A) : Frames R (exec_ret a).
Proof. intros s. cbn. reflexivity. Qed.
#[export] Instance frames_throw {A} k what : Frames R (@exec_throw S A k what).
Proof. intros s. cbn. reflexivity. Qed.
#[export] Instance frames_const {A} (f : S → res A) : Frames R (exec_const f).
Proof. intros s. cbn. reflexivity. Qed.
#[export] Instance frames_get : Frames R exec_get.
Proof. intros s. cbn. reflexivity. Qed.
#[export] Instance frames_bind {A B} (m : exec S A) (f : A → exec S B) :
  Frames R m → (∀ a, Frames R (f a)) → Frames R (exec_bind m f).
Proof.
  intros Hm Hf s. unfold exec_bind. pose proof (Hm s) as H1.
  destruct (m s) as [[a|e] s1]; cbn [snd] in *; [|done]. etrans; [exact H1|apply Hf].
Qed.
#[export] Instance frames_if {A} (b : bool) (m m' : exec S A) :
  Frames R m → Frames R m' → Frames R (if b then m else m').
Proof. by destruct b. Qed.
#[export] Instance frames_option {A X} (o : option X) (f : X → exec S A) (m : exec S A) :
  (∀ x, Frames R (f x)) → Frames R m → Frames R (match o with Some x => f x | None => m end).
Proof. by destruct o. Qed.
#[export] Instance frames_exception {A} (m : exec S A) (h : exn → exec S A) :
  Frames R m → (∀ e, Frames R (h e)) → Frames R (on_exception m h).
Proof.
  intros Hm Hh s. unfold on_exception. pose proof (Hm s) as H1.
  destruct (m s) as [[a|e] s1]; cbn [snd] in *; [done|]. case_bool_decide; [done|].
  etrans; [exact H1|apply Hh].
Qed.
#[export] Instance frames_rethrow {A} (m : exec S A) (f : S → S) :
  Frames R m → (∀ s, R s (f s)) → Frames R (on_throw m f).
Proof.
  intros Hm Hf s. unfold on_throw. pose proof (Hm s) as H1.
  destruct (m s) as [[a|e] s1]; cbn [snd] in *; [done|]. etrans; [exact H1|apply Hf].
Qed.
Lemma frames_modify (f : S → S) : (∀ s, R s (f s)) → Frames R (exec_modify f).
Proof. intros Hf s. apply Hf. Qed.

End Frames.

(** ** The template a server has *)

Definition serves (live : LiveTemplate) (server : StratumTcpServer) : Prop :=
  ∃ version, current_template (sv_registry server) =
    Some (StratumSession.mkTemplate version (mw_header_hash (lt_mining_work live)) (lt_seed_hash live)
            (bt_height (lt_block live)) (lt_network_difficulty live) (lt_parent_binding live)).

Definition same_template_served (s s' : StratumTcpServer) : Prop :=
  rg_current_template (sv_registry s') = rg_current_template (sv_registry s) ∧ sv_config s' = sv_config s.
#[export] Instance same_template_served_preorder : PreOrder same_template_served.
Proof. split; [done|]. intros a b c [] []. split; congruence. Qed.

Definition same_current (r r' : StratumSessionRegistry) : Prop :=
  rg_current_template r' = rg_current_template r.
#[export] Instance same_current_preorder : PreOrder same_current.
Proof. split; [done|]. intros a b c H1 H2. unfold same_current in *. congruence. Qed.

#[export] Instance frames_update id session : Frames same_current (update_session id session).
Proof. by intros []. Qed.
#[export] Instance frames_issue id d b : Frames same_current (issue_work id d b).
Proof. unfold issue_work. apply _. Qed.
#[export] Instance frames_registry {A} (m : exec StratumSessionRegistry A) :
  Frames same_current m → Frames same_template_served (on_registry m).
Proof.
  intros Hm s. unfold on_registry, zoom. pose proof (Hm (sv_registry s)) as H1.
  destruct (m (sv_registry s)) as [r t]. destruct s as [? ? ? [] ? ?]. done.
Qed.
#[export] Instance frames_server_issue id : Frames same_template_served (server_issue_work id).
Proof. unfold server_issue_work. apply _. Qed.
#[export] Instance frames_notify `{!JsonC} dup clients notifications :
  Frames same_template_served (notify_clients dup clients notifications).
Proof.
  revert notifications. induction clients as [|[fd id] rest IH]; intros; cbn [notify_clients]; [apply _|].
  apply _.
Qed.

Lemma publish_template_current header seed height d b r out r' :
  publish_template header seed height d b r = (out, r') →
  (∃ e, out = Throw e ∧ r' = r) ∨
  ∃ version, out = Ok version ∧
    rg_current_template r' = Some (StratumSession.mkTemplate version header seed height d b).
Proof.
  unfold publish_template. destruct (difficulty128_is_zero d); [intros [= <- <-]; left; by eexists|].
  destruct (binding_check "template" b); [|intros [= <- <-]; left; by eexists].
  destruct (same_template _ _ _ _ _ _) as [v|] eqn:E.
  - intros [= <- <-]. right. exists v. split; [done|]. unfold same_template in E.
    destruct (rg_current_template r) as [[]|]; [|done]. cbn in E. destruct (_ && _) eqn:G; [|done].
    injection E as <-. bool_prop. unfold arr_eqb in *. repeat case_bool_decide; naive_solver lia.
  - destruct (_ =? 0); intros [= <- <-]; [left; by eexists|right; by eexists].
Qed.

Section Publish.
Context `{!JsonC}.

Lemma server_publish_outcome dup live s out s' :
  server_publish_template dup (mw_header_hash (lt_mining_work live)) (lt_seed_hash live)
    (bt_height (lt_block live)) (lt_network_difficulty live) (lt_parent_binding live) s = (out, s') →
  sv_config s' = sv_config s ∧
  (serves live s' ∨ (∃ e, out = Throw e) ∧ current_template (sv_registry s') = current_template (sv_registry s)).
Proof.
  unfold server_publish_template, exec_bind at 1, on_registry, zoom.
  destruct (publish_template _ _ _ _ _ _) as [o r1] eqn:E. intros F.
  apply publish_template_current in E as [(e & -> & ->)|(version & -> & Ht)].
  { injection F as <- <-. destruct s as [? ? ? [] ? ?]. split; [done|]. right. split; [by eexists|done]. }
  unfold exec_bind at 1, exec_get in F. cbv beta iota zeta in F.
  assert (same_template_served (set_registry r1 s) s') as [Hc Hg].
  { change s' with (out, s').2. rewrite <- F. apply (frames (R := same_template_served)). } rewrite Hg. destruct s as [? ? ? [] ? ?].
  split; [done|]. left. exists version. unfold current_template. rewrite Hc. done.
Qed.

End Publish.

(** ** What is published *)

#[export] Instance running_preorder : PreOrder (λ b b', is_running b' = is_running b).
Proof. split; [done|]. intros a b c H1 H2. congruence. Qed.
#[export] Instance frames_remember header blob :
  Frames (λ b b', is_running b' = is_running b) (remember_template header blob).
Proof.
  unfold remember_template. apply frames_bind; try apply _. intros _ []. by destruct (evict _ _ _ _ _) as [[]|].
Qed.

Section Public.
Context {W : Type}.
Implicit Types s : (Daemon W * W)%type.

(** The server, whether the submitter runs, and the live template. *)
Definition same_public s s' : Prop :=
  dm_server s'.1 = dm_server s.1 ∧ submitter_running s'.1 = submitter_running s.1 ∧
  (is_Some (dm_submitter s.1) → is_Some (dm_submitter s'.1)) ∧ dm_live s'.1 = dm_live s.1.
#[export] Instance same_public_preorder : PreOrder same_public.
Proof.
  split; [done|]. intros a b c (?&?&?&?) (?&?&?&?). unfold same_public. split_and!; (congruence || auto).
Qed.

Lemma modify_public (f : Daemon W → Daemon W) :
  (∀ d, dm_server (f d) = dm_server d ∧ dm_submitter (f d) = dm_submitter d ∧ dm_live (f d) = dm_live d) →
  Frames same_public (modify_daemon f).
Proof.
  intros Hf s. destruct (Hf s.1) as (?&E&?). unfold same_public, submitter_running. cbn. by rewrite E.
Qed.

#[export] Instance public_world {A} (m : exec W A) : Frames same_public (on_world m).
Proof. intros s. unfold on_world. by destruct (m s.2). Qed.
#[export] Instance public_get : Frames same_public get_daemon.
Proof. by intros []. Qed.
#[export] Instance public_node {A} (m : exec (P2pNodeProtocol W) A) : Frames same_public (on_node m).
Proof. intros [[] w]. unfold on_node, on_state, zoom. cbn. by destruct (m _). Qed.
#[export] Instance public_node_world {A} (m : exec (P2pNodeProtocol W * W) A) : Frames same_public (on_node_world m).
Proof. intros [[] w]. unfold on_node_world. cbn. by destruct (m _) as [? []]. Qed.
#[export] Instance public_dirty changed : Frames same_public (mark_dirty changed).
Proof. destruct changed; [|apply _]. apply modify_public. by intros []. Qed.
#[export] Instance public_persist id share : Frames same_public (persist_share id share).
Proof.
  apply modify_public. intros []. cbn. repeat case_match; simplify_eq; done.
Qed.
#[export] Instance public_persists id shares : Frames same_public (persist_shares id shares).
Proof. induction shares; cbn [persist_shares]; apply _. Qed.
#[export] Instance public_pruned id ids : Frames same_public (persist_pruned_shares id ids).
Proof. apply modify_public. intros []. cbn. repeat case_match; simplify_eq; done. Qed.
#[export] Instance public_archive `{!JsonC} live : Frames same_public (archive_work live).
Proof. unfold archive_work. apply frames_rethrow; try apply _. by intros [[] w]. Qed.

#[export] Instance public_remember canonical live : Frames same_public (remember_block canonical live).
Proof.
  intros [[x0 x1 x2 x3 x4 [b|] x6 x7 x8 x9 x10 x11 x12 x13] w]; [|done]. unfold remember_block. cbn [fst snd dm_submitter].
  destruct canonical; [|done].
  pose proof (frames (R := λ b b', is_running b' = is_running b)
    (m := remember_template (mw_header_hash (lt_mining_work live)) (bt_blocktemplate_blob (lt_block live))) b) as H.
  destruct (remember_template _ _ b). unfold same_public, submitter_running.
  cbn [fst snd dm_submitter dm_set_submitter dm_server dm_live] in *. split_and!; by eauto.
Qed.

End Public.

Lemma exec_bind_cases {S A B} (m : exec S A) (f : A → exec S B) s r s' :
  exec_bind m f s = (r, s') →
  (∃ e, r = Throw e ∧ m s = (Throw e, s')) ∨ ∃ a s1, m s = (Ok a, s1) ∧ f a s1 = (r, s').
Proof. unfold exec_bind. destruct (m s) as [[a|e] s1]; [|intros [= <- <-]]; eauto. Qed.

Lemma frames_run {S A} (R : relation S) (m : exec S A) `{!Frames R m} s r s' : m s = (r, s') → R s s'.
Proof. intros E. pose proof (frames (R := R) (m := m) s) as H. by rewrite E in H. Qed.

Lemma frames_step {S A B} (R : relation S) `{!PreOrder R} (m : exec S A) (f : A → exec S B) s0 sa ra sb :
  exec_bind m f sa = (ra, sb) → Frames R m → R s0 sa →
  (∃ e, ra = Throw e ∧ R s0 sb) ∨ ∃ a sc, R s0 sc ∧ f a sc = (ra, sb).
Proof.
  intros E Hm Ha. apply exec_bind_cases in E as [(e & -> & E)|(a & sc & E & Ef)].
  - left. exists e. split; [done|]. etrans; [exact Ha|]. by eapply frames_run.
  - right. exists a, sc. split; [|done]. etrans; [exact Ha|]. by eapply frames_run.
Qed.

Ltac frames := repeat (intros;
  first [ apply _
        | apply modify_public; by intros []
        | apply frames_bind; [apply _ | |]
        | apply frames_exception; [apply _ | |]
        | apply frames_if | apply frames_option ]).

Section Pass.
Context `{!ProgPow, !JsonC, !JsonTokenerEnd, !ZanoCrypto, !ZanoMinerTx} {W : Type}.
Context (options : Options) (params : SidechainParameters) (store_id : SidechainId).
Context (curl_easy_perform : text → W → curl_outcome * W).
Context (p2p_runtime : option (P2pRuntime W)) (broadcast : P2pEnvelope → W → W).
Context (unix_time_seconds : W → Z * W) (open_listener : StratumServerConfig → exec W ()).
Context (dup : Z → bool).
Implicit Types s : (Daemon W * W)%type.

#[local] Instance public_save t : Frames same_public (save_validation options params store_id curl_easy_perform t).
Proof.
  unfold save_validation. frames. intros s. cbv beta.
  destruct (persist_replayed_validation_cache _ _ _ _ _ _ _) as [? []]. by destruct s as [[] w1].
Qed.
#[local] Instance public_flush t :
  Frames same_public (flush_runtime_replay_validation options params store_id curl_easy_perform t).
Proof.
  unfold flush_runtime_replay_validation, persist_runtime_replay_validation. frames. intros s.
  pose proof (public_save t s) as Hs. by destruct (save_validation _ _ _ _ _ s) as [[] ?].
Qed.
#[local] Instance public_retry :
  Frames same_public (retry_historical_pow store_id p2p_runtime unix_time_seconds).
Proof. unfold retry_historical_pow, retry_once. frames. Qed.
#[local] Instance public_advance :
  Frames same_public (Daemon.advance_replay_recovery store_id p2p_runtime broadcast unix_time_seconds).
Proof. unfold Daemon.advance_replay_recovery, replay_tick. frames. Qed.
#[local] Instance public_late quiet :
  Frames same_public (late_recovery store_id p2p_runtime broadcast unix_time_seconds quiet).
Proof. unfold late_recovery. frames. Qed.
#[local] Instance public_idle quiet :
  Frames same_public (idle_recovery store_id p2p_runtime broadcast unix_time_seconds quiet).
Proof. unfold idle_recovery. frames. Qed.
#[local] Instance public_detect next : Frames same_public (detect_reorg curl_easy_perform next).
Proof. unfold detect_reorg. frames. Qed.
#[local] Instance public_announce : Frames same_public (announce_context p2p_runtime broadcast).
Proof. unfold announce_context. frames. Qed.

(** ** Withdrawing and activating *)

Definition withdrawn (d : Daemon W) : Prop := stratum_listening d = false ∧ submitter_running d = false.

Lemma withdraw_withdrawn (d : Daemon W) :
  withdrawn (withdraw d) ∧ dm_live (withdraw d) = dm_live d ∧
  (is_Some (dm_server d) → is_Some (dm_server (withdraw d))) ∧
  (is_Some (dm_submitter d) → is_Some (dm_submitter (withdraw d))).
Proof.
  destruct d as [x0 x1 x2 x3 sv sb x6 x7 x8 x9 x10 x11 x12 x13].
  destruct sv as [[[] sv]|], sb as [[mt mq [] [] ts o q wk]|]; cbn; by split_and!; eauto.
Qed.

Lemma public_withdrawn s s' : same_public s s' → withdrawn s.1 → withdrawn s'.1.
Proof. intros (E & E' & _) [H1' H2']. unfold withdrawn, stratum_listening in *. by rewrite E, E'. Qed.

Lemma public_listening s s' : same_public s s' → stratum_listening s'.1 = stratum_listening s.1.
Proof. intros (E & _). unfold stratum_listening. by rewrite E. Qed.

Lemma public_has_stratum s s' : same_public s s' → has_stratum options s.1 = true → has_stratum options s'.1 = true.
Proof.
  intros (E & _ & Hb & _) Hs. unfold has_stratum in *. rewrite E.
  rewrite !andb_true_iff, !bool_decide_eq_true in *. tauto.
Qed.

Lemma has_stratum_some (d : Daemon W) : has_stratum options d = true →
  op_stratum options = true ∧ is_Some (dm_server d) ∧ is_Some (dm_submitter d).
Proof. unfold has_stratum. rewrite !andb_true_iff, !bool_decide_eq_true. tauto. Qed.

Lemma activate_outcome live s r s' :
  has_stratum options s.1 = true →
  activate open_listener dup live s = (r, s') →
  dm_live s'.1 = dm_live s.1 ∧
  match r with
  | Ok _ => stratum_listening s'.1 = true ∧ submitter_running s'.1 = true ∧
            ∃ h, dm_server s'.1 = Some h ∧ serves live (sh_server h)
  | Throw _ => (stratum_listening s'.1 = true → stratum_listening s.1 = true) ∧ (withdrawn s.1 → withdrawn s'.1)
  end.
Proof.
  intros Hs E. destruct s as [[x0 x1 x2 x3 [[run sv]|] [b|] x6 x7 x8 x9 x10 x11 x12 x13] w];
    [|by apply has_stratum_some in Hs as (_ & [? ?] & [? ?])..].
  unfold activate, get_daemon, on_state, exec_get in E. apply exec_bind_cases in E as [(e & _ & [=])|(d & s1 & [= <- <-] & E)].
  apply exec_bind_cases in E as [(e & -> & E)|(version & s1 & Ep & E)].
  { unfold publish_live in E. cbn [fst dm_server sh_server sh_running] in E.
    destruct (server_publish_template _ _ _ _ _ _ _) as [[] ?]; [done|]. injection E as _ <-. done. }
  unfold publish_live in Ep. cbn [fst dm_server sh_server sh_running] in Ep.
  destruct (server_publish_template _ _ _ _ _ _ _) as [[[v ns]|] sv1] eqn:Es; [|done].
  apply server_publish_outcome in Es as [_ [Hserve|[[e [=]] _]]]. injection Ep as -> <-.
  cbn [fst snd dm_set_server stratum_listening submitter_running dm_submitter dm_server sh_running] in E.
  destruct run; cbn in E.
  - destruct b as [mt mq [] [] ts o q wk]; cbn in E; [injection E as <- <-; done|..];
      destruct (version =? x6); injection E as <- <-; cbn; split_and!; try done; eexists; done.
  - destruct b as [mt mq [] [] ts o q wk]; cbn in E; [injection E as <- <-; done|..];
      unfold exec_bind, on_throw, start_server in E; cbn in E;
      destruct (open_listener (sv_config sv1) w) as [[]  w1]; cbn in E;
      try (injection E as <- <-; done);
      destruct (version =? x6); injection E as <- <-; cbn; split_and!; try done; eexists; done.
Qed.

Lemma publish_outcome ready live s r s' :
  has_stratum options s.1 = true →
  publish_or_withdraw options open_listener dup ready live s = (r, s') →
  dm_live s'.1 = dm_live s.1 ∧
  match r with
  | Ok _ => if ready : bool then
              stratum_listening s'.1 = true ∧ submitter_running s'.1 = true ∧
              ∃ h, dm_server s'.1 = Some h ∧ serves live (sh_server h)
            else withdrawn s'.1
  | Throw _ => ready = true ∧ (stratum_listening s'.1 = true → stratum_listening s.1 = true) ∧
               (withdrawn s.1 → withdrawn s'.1)
  end.
Proof.
  intros Hs E. unfold publish_or_withdraw in E. apply exec_bind_cases in E as [(e & _ & [=])|(d & s1 & Eg & E)].
  injection Eg as <- <-. rewrite Hs in E. cbn [negb] in E. destruct ready.
  - apply activate_outcome in E as [? H']; [|by destruct s]. destruct s. split; [done|]. destruct r; [done|by destruct H'].
  - injection E as <- <-. cbn. destruct (withdraw_withdrawn s.1) as (?&?&_). done.
Qed.

(** ** Templates built on the chain *)

Inductive pool_template (c : ShareChain) (fetched : LiveTemplate) : LiveTemplate → Prop :=
| pool_bootstrap : connected_size c = 0%nat →
    pool_template c fetched (set_plan_binding None (Some (mkBinding (arr_zero 32) 0)) fetched)
| pool_canonical tip rebuilt work : best_tip c = Some tip → validated_ancestry tip = true →
    build_canonical_pplns_template (lt_block fetched) c params (text_of "zano-p2pool") = rebuilt →
    pr_status rebuilt = TemplateReady → pr_mining_work rebuilt = Some work →
    pool_template c fetched
      (mkLive (pr_block rebuilt) work (lt_seed_hash fetched) (lt_network_difficulty fetched)
         (Some (pr_plan rebuilt)) (Some (mkBinding (cs_id tip) (share_height (cs_share tip) + 1)))).

(** Connected shares without a validated tip. *)
Definition unvalidated (c : ShareChain) : Prop :=
  connected_size c ≠ 0%nat ∧ ∀ tip, best_tip c = Some tip → validated_ancestry tip = false.

Lemma pool_not_unvalidated c fetched live : pool_template c fetched live → ¬ unvalidated c.
Proof. intros [Hz|tip rebuilt work Ht Hv _ _ _] [Hn Hu]; [done|]. specialize (Hu tip Ht). congruence. Qed.

Lemma apply_outcome c fetched canonical live :
  apply_canonical_pplns_template c params fetched = Ok (canonical, live) →
  if canonical || (connected_size c =? 0)%nat then pool_template c fetched live else unvalidated c.
Proof.
  unfold apply_canonical_pplns_template. destruct (connected_size c =? 0)%nat eqn:Ez.
  { intros [= <- <-]. constructor. by apply Nat.eqb_eq. }
  apply Nat.eqb_neq in Ez. destruct (best_tip c) as [tip|] eqn:Et; [|intros [= <- <-]; split; [done|intros tip; by rewrite Et]].
  destruct (validated_ancestry tip) eqn:Ev; cbn [negb]; [|intros [= <- <-]; split; [done|intros tip'; rewrite Et; by intros [= <-]]].
  destruct (_ =? u64_max); [done|].
  destruct (pr_status _) eqn:Es; try done. destruct (pr_mining_work _) eqn:Ew; [|done].
  intros [= <- <-]. by econstructor.
Qed.

(** A pass from its payout plan on: what was published stays until the plan is built, and
    what is decided about it stays to the end. *)
Lemma install_cases fetched s r s' :
  install options params store_id curl_easy_perform p2p_runtime broadcast open_listener dup fetched s = (r, s') →
  (∃ e, r = Throw e ∧ same_public s s') ∨
  let c := np_chain (dm_node s.1) in
  ∃ canonical live s1 s2 rp,
    apply_canonical_pplns_template c params fetched = Ok (canonical, live) ∧ same_public s s1 ∧
    publish_or_withdraw options open_listener dup (canonical || (connected_size c =? 0)%nat) live s1 = (rp, s2) ∧
    match rp with
    | Throw e => r = Throw e ∧ s' = s2
    | Ok _ => (∃ e, r = Throw e ∧ same_public s2 s') ∨
              r = Ok () ∧ ∃ s3, same_public s2 s3 ∧ s' = (dm_set_live live s3.1, s3.2)
    end.
Proof.
  intros E. unfold install in E. apply exec_bind_cases in E as [(e & _ & [=])|(d & s1 & [= <- <-] & E)].
  apply exec_bind_cases in E as [(e & -> & [= Ea <-])|([canonical live] & s1 & [= Ea <-] & E)];
    [left; exists e; by destruct s|].
  destruct s as [d0 w0]. cbn [fst snd] in *.
  do 4 (apply (frames_step same_public _ _ (d0, w0)) in E as [(e & -> & Hp)|(? & ? & ? & E)];
    [left; exists e; by split| |apply _|reflexivity || assumption]; cbv beta in E).
  right. match goal with H : same_public _ ?s |- _ => exists canonical, live, s end.
  apply exec_bind_cases in E as [(e & -> & E)|([] & s2 & E & F)]; [by exists s', (Throw e)|].
  exists s2, (Ok ()). do 3 (split; [done|]).
  apply (frames_step same_public _ _ s2) in F as [(e & -> & Hp)|(? & ? & ? & F)]; [left; by exists e| |apply _|reflexivity].
  apply (frames_step same_public _ _ s2) in F as [(e & -> & Hp)|(? & s3 & ? & F)]; [left; by exists e| |apply _|done].
  injection F as <- <-. right. split; [done|]. by exists s3.
Qed.

(** ** Reorganisations *)

#[local] Instance public_audit maximum heights parents :
  Frames same_public (audit_heights (λ h, rpc (W := W) (canonical_parent curl_easy_perform h)) maximum heights parents).
Proof. revert parents. induction heights; intros; cbn [audit_heights]; frames. Qed.

Lemma reconcile_withdraws kind fetched s r s' :
  has_stratum options s.1 = true → kind ≠ ReorgNone →
  reconcile_reorg options curl_easy_perform kind fetched s = (r, s') →
  withdrawn s'.1 ∧ has_stratum options s'.1 = true.
Proof.
  intros Hs Hk E. unfold reconcile_reorg, prepare_canonical_reorg_audit in E.
  rewrite bool_decide_eq_false_2 in E by done.
  set (s0 := (withdraw s.1, s.2)).
  assert (withdrawn s0.1 ∧ has_stratum options s0.1 = true) as [Hw Hh].
  { destruct (withdraw_withdrawn s.1) as (Hw & _ & H1' & H2'). split; [done|].
    apply has_stratum_some in Hs as (Ho & ? & ?). unfold has_stratum. cbn [s0 fst].
    by rewrite Ho, !bool_decide_eq_true_2 by auto. }
  assert (same_public s0 s') as Hp; [|split; [by eapply public_withdrawn|by eapply public_has_stratum]].
  assert (stop_publication options s.1 = withdraw s.1) as Hstop.
  { apply has_stratum_some in Hs as (Ho & _). unfold stop_publication. by rewrite Ho. }
  apply exec_bind_cases in E as [(e & -> & E)|(plan & s1 & E & F)];
    (apply exec_bind_cases in E as [(? & _ & [=])|(? & s2 & [= _ <-] & E)]; rewrite Hstop in E; fold s0 in E).
  - revert E. apply frames_run. frames.
  - transitivity s1; [revert E|revert F]; apply frames_run; frames.
Qed.

(** Whether a reorganisation is seen depends on the live template and the daemon. *)
Lemma detect_live fetched d d' w kind s1 :
  dm_live d' = dm_live d → detect_reorg curl_easy_perform fetched (d, w) = (Ok kind, s1) →
  detect_reorg curl_easy_perform fetched (d', w) = (Ok kind, (d', s1.2)).
Proof.
  intros El. unfold detect_reorg, get_daemon, rpc, lift, on_world, on_state, exec_bind, exec_get, exec_const, exec_ret.
  cbn [fst snd]. rewrite El. destruct (_ && _); [|by intros [= <- <-]]. cbn [fst snd].
  destruct (canonical_parent curl_easy_perform (bt_height (lt_block (dm_live d))) w) as [[] w1]; [|intros [=]].
  destruct (parse_hash256 _); [|intros [=]].
  by intros [= <- <-].
Qed.

(** A reorganisation changes the template. *)
Lemma reorg_refreshes fetched s kind s1 :
  detect_reorg curl_easy_perform fetched s = (Ok kind, s1) → kind ≠ ReorgNone →
  should_refresh_stratum_template (lt_block (dm_live s.1)) (lt_mining_work (dm_live s.1))
    (lt_block fetched) (lt_mining_work fetched) = true.
Proof.
  intros E Hk. unfold detect_reorg in E.
  apply exec_bind_ok in E as (d & s2 & [= <- <-] & E). apply exec_bind_ok in E as (adv & s3 & _ & [= <- _]).
  unfold should_refresh_stratum_template.
  destruct (_ =? _) eqn:Eh; [|done]. case_bool_decide as Ep; [|done]. exfalso. apply Hk.
  apply classify_none. left. split; [lia|done].
Qed.

(** The chain a pass builds its payout on: that of the node once the reorganisation seen is
    reconciled and the recovery of a changed or forced refresh has run. *)
Definition pass_chain kind fetched s1 (c : ShareChain) : Prop :=
  ∃ s2 s3, reconcile_reorg options curl_easy_perform kind fetched s1 = (Ok (), s2) ∧
    late_recovery store_id p2p_runtime broadcast unix_time_seconds false s2 = (Ok (), s3) ∧
    c = np_chain (dm_node s3.1).

(** A pass that was asked for: [install] starts from the state after reconciliation and
    recovery. *)
Lemma pass_cases forced fetched s r s' :
  forced || should_refresh_stratum_template (lt_block (dm_live s.1)) (lt_mining_work (dm_live s.1))
    (lt_block fetched) (lt_mining_work fetched) = true →
  update_pass options params store_id curl_easy_perform p2p_runtime broadcast unix_time_seconds
    open_listener dup forced fetched s = (r, s') →
  let s0 := (count_to ObservedZanoHeight (bt_height (lt_block fetched)) s.1, s.2) in
  same_public s s0 ∧
  ((∃ e, r = Throw e ∧ detect_reorg curl_easy_perform fetched s0 = (Throw e, s')) ∨
   ∃ kind s1 rr s2, detect_reorg curl_easy_perform fetched s0 = (Ok kind, s1) ∧ same_public s s1 ∧
     reconcile_reorg options curl_easy_perform kind fetched s1 = (rr, s2) ∧
     ((∃ e, r = Throw e ∧ same_public s2 s') ∨
      ∃ s3, same_public s2 s3 ∧ pass_chain kind fetched s1 (np_chain (dm_node s3.1)) ∧
        install options params store_id curl_easy_perform p2p_runtime broadcast open_listener dup fetched s3 = (r, s'))).
Proof.
  intros Hq E s0. unfold update_pass in E.
  assert (same_public s s0) as H0'.
  { change s0 with ((modify_daemon (count_to ObservedZanoHeight (bt_height (lt_block fetched))) s).2).
    apply modify_public. by intros []. }
  split; [done|].
  apply exec_bind_cases in E as [(e & _ & [=])|([] & s1 & [= <-] & E)]. fold s0 in E.
  apply exec_bind_cases in E as [(e & _ & [=])|(d & s1 & Eg & E)].
  injection Eg as <- <-. change (s0.1, s0.2) with s0 in E.
  assert (dm_live (count_to ObservedZanoHeight (bt_height (lt_block fetched)) s.1) = dm_live s.1) as El by apply H0'.
  rewrite El in E.
  replace (negb forced && _) with false in E by (by destruct forced; cbn [orb] in Hq; [|rewrite Hq]).
  apply exec_bind_cases in E as [(e & _ & [=])|(idle & s1 & Ei & E)]. injection Ei as <- <-.
  apply exec_bind_cases in E as [(e & -> & E)|(kind & s1 & Ed & E)]; [left; by exists e|right].
  assert (same_public s s1) as H1'.
  { etrans; [exact H0'|]. revert Ed. apply frames_run. apply _. }
  apply exec_bind_cases in E as [(e & -> & E)|([] & s2 & Er & E)].
  { exists kind, s1, (Throw e), s'. do 3 (split; [done|]). left. exists e. split; [done|reflexivity]. }
  exists kind, s1, (Ok ()), s2. do 3 (split; [done|]).
  apply exec_bind_cases in E as [(e & -> & E)|([] & s3 & El3 & E)].
  { left. exists e. split; [done|]. revert E. apply frames_run. apply _. }
  right. exists s3. split; [revert El3; apply frames_run; apply _|]. split; [by exists s2, s3|done].
Qed.

(** C5: Fail closed.  A pass of the refresh loop that sees a canonical reorganisation, whether it
    succeeds or throws anywhere, ends with miners and block submission withdrawn, or serving the
    template this very pass built on the chain as reconciling this reorganisation, and the
    recovery after it, left the node's: bootstrap work if that chain is empty, or the payout of
    its best tip, whose ancestry is validated.  Both must have run without an exception.  Nothing
    built on the chain before the reorganisation is served. *)
Theorem reorg_fail_closed forced fetched s kind s1 r s' :
  has_stratum options s.1 = true →
  detect_reorg curl_easy_perform fetched s = (Ok kind, s1) → kind ≠ ReorgNone →
  update_pass options params store_id curl_easy_perform p2p_runtime broadcast unix_time_seconds
    open_listener dup forced fetched s = (r, s') →
  withdrawn s'.1 ∨
  ∃ c live h,
    pass_chain kind fetched (count_to ObservedZanoHeight (bt_height (lt_block fetched)) s.1, s1.2) c ∧
    pool_template c fetched live ∧ dm_server s'.1 = Some h ∧ sh_running h = true ∧
    serves live (sh_server h).
Proof.
  intros Hs Hd Hk E. apply pass_cases in E as (H0' & [(e & _ & Ed)|(kind' & s2 & rr & s3 & Ed & H1' & Er & E)]).
  3: { rewrite (reorg_refreshes _ _ _ _ Hd Hk). by destruct forced. }
  all: destruct s as [d w]; cbn [fst snd] in *;
    pose proof (detect_live fetched _ _ _ _ _ (proj2 (proj2 (proj2 H0'))) Hd) as Ed';
    cbn [fst snd] in *; rewrite Ed' in Ed.
  { done. }
  injection Ed as <- <-. apply reconcile_withdraws in Er as [Hw Hh]; [|by eapply public_has_stratum|done].
  destruct E as [(e & _ & Hp)|(s4 & Hp & Hc & E)]; [left; by eapply public_withdrawn|].
  pose proof (public_withdrawn _ _ Hp Hw) as Hw4. pose proof (public_has_stratum _ _ Hp Hh) as Hh4.
  apply install_cases in E as [(e & _ & Hp')|(canonical & live & s5 & s6 & rp & Ea & Hp' & Ep & E)];
    [left; by eapply public_withdrawn|].
  apply publish_outcome in Ep as [_ Ep]; [|by eapply public_has_stratum]. apply apply_outcome in Ea.
  destruct rp as [[]|e]; [|destruct E as [_ ->]; left; by apply Ep, (public_withdrawn s4)].
  assert (dm_server s'.1 = dm_server s6.1 ∧ submitter_running s'.1 = submitter_running s6.1) as [Es Eb].
  { destruct E as [(e & _ & Hp6)|(_ & s7 & Hp6 & ->)]; [by split; apply Hp6|].
    destruct s7 as [[] ?], Hp6 as (? & ? & _). by split. }
  destruct (canonical || _).
  - destruct Ep as (Hl & _ & h & Hh6 & Hserve). right. exists (np_chain (dm_node s4.1)), live, h.
    rewrite Es. split_and!; [done..| |done].
    unfold stratum_listening in Hl. by rewrite Hh6 in Hl.
  - left. unfold withdrawn, stratum_listening in *. by rewrite Es, Eb.
Qed.

(** C15: What a pass installs.  A pass that a changed or forced refresh asked for and that does not
    throw reconciles the reorganisation it sees, if any, runs its recovery, and makes live the
    template it built on the chain this left: miners are then served exactly this template with
    block submission running - bootstrap work if the chain is empty, the payout of its validated
    best tip otherwise.  If and only if that very chain has connected shares but no validated tip,
    both are withdrawn instead. *)
Theorem pass_installs forced fetched s s' :
  has_stratum options s.1 = true →
  forced || should_refresh_stratum_template (lt_block (dm_live s.1)) (lt_mining_work (dm_live s.1))
    (lt_block fetched) (lt_mining_work fetched) = true →
  update_pass options params store_id curl_easy_perform p2p_runtime broadcast unix_time_seconds
    open_listener dup forced fetched s = (Ok (), s') →
  ∃ kind s1 c,
    detect_reorg curl_easy_perform fetched
      (count_to ObservedZanoHeight (bt_height (lt_block fetched)) s.1, s.2) = (Ok kind, s1) ∧
    pass_chain kind fetched s1 c ∧
    (pool_template c fetched (dm_live s'.1) ∧ ¬ unvalidated c ∧ submitter_running s'.1 = true ∧
       (∃ h, dm_server s'.1 = Some h ∧ sh_running h = true ∧ serves (dm_live s'.1) (sh_server h)) ∨
     unvalidated c ∧ withdrawn s'.1).
Proof.
  intros Hs Hq E. apply pass_cases in E as (_ & [(e & [=] & _)|(kind & s2 & rr & s3 & Ed & H1' & Er & E)]); [|done].
  assert (has_stratum options s3.1 = true) as Hh.
  { destruct (decide (kind = ReorgNone)) as [->|Hk].
    - unfold reconcile_reorg in Er. injection Er as _ <-. by eapply public_has_stratum.
    - eapply reconcile_withdraws; [by eapply public_has_stratum|done..]. }
  destruct E as [(e & [=] & _)|(s4 & Hp & Hc & E)]. exists kind, s2, (np_chain (dm_node s4.1)).
  split; [done|]. split; [done|].
  apply install_cases in E as [(e & [=] & _)|(canonical & live & s5 & s6 & rp & Ea & Hp' & Ep & E)].
  destruct rp as [[]|e]; [|by destruct E as [[=] _]]. destruct E as [(e & [=] & _)|(_ & s7 & Hp7 & ->)].
  apply publish_outcome in Ep as [_ Ep]; [|by do 2 (eapply public_has_stratum; [done|])]. apply apply_outcome in Ea.
  destruct s7 as [[x0 x1 x2 x3 sv sb x6 x7 x8 x9 x10 x11 x12 x13] w7], Hp7 as (Es & Eb & _).
  cbn [fst dm_server] in Es. cbn [fst snd dm_set_live dm_live dm_server].
  destruct (canonical || _).
  - left. destruct Ep as (Hl & Hr & h & Hh6 & Hserve). split; [done|].
    split; [by eapply pool_not_unvalidated|]. split; [exact (eq_trans Eb Hr)|].
    exists h. rewrite Es. split_and!; [done| |done]. unfold stratum_listening in Hl. by rewrite Hh6 in Hl.
  - right. split; [done|]. destruct Ep as [Hl Hr]. split; [|exact (eq_trans Eb Hr)].
    unfold stratum_listening in *. cbn [dm_server dm_set_live]. by rewrite Es.
Qed.

End Pass.
