(* ===== verification/Startup.v ===== *)
(** The start of the daemon ([main] of [src/main.cpp] up to its loop): the share store is
    replayed, validation is restored or earned again, what was pruned is made durable, and
    only then is work published. *)
From S2P Require Import Prelude CryptoHash PowTarget Share SidechainParams ShareChain Pplns PplnsCoinbase.
From S2P Require Import P2pProtocol P2pShare P2pSync ShareStore ReplayStore MiningHeader BlockTemplate.
From S2P Require Import MiningContext WorkArchive WorkRetrieval PeerGuard ZanoCurve MinerTxProofs HistoricalTrust Restart.
From S2P Require Import RpcClient BlockSubmitter StratumProtocol StratumSession StratumSubmission.
From S2P Require Import StratumServer PplnsTemplate NodeState P2pNode TokenBucket P2pTransport RuntimeSetup.
From S2P Require Import TemplateRefresh Daemon DaemonSpec.
Import Backoff.
Local Open Scope pool_scope.

(** ** Refusals *)

(** The checks of [main] before anything is opened. *)
Definition check_options (progpowz_available miner_tx_available : bool) (o : Options) : res bool :=
  (_ ← throw_if (op_experimental_mainnet o && negb (bool_decide (op_network o = RuntimeMainnet))) RuntimeError
        "--experimental-mainnet requires --network mainnet";
  let long_lived_runtime := op_stratum o || op_p2p o || op_metrics o in
  _ ← throw_if (negb (runtime_network_operation_allowed (op_network o) long_lived_runtime (op_experimental_mainnet o)))
        RuntimeError
        "long-lived mainnet runtime is blocked while the mainnet-readiness audit is open; pass --experimental-mainnet to acknowledge experimental operation";
  _ ← throw_if ((op_stratum o || op_p2p o) && negb progpowz_available) RuntimeError
        "Stratum/P2P runtime requires the exact Zano ProgPoWZ backend; configure with ZANO_P2POOL_ZANO_SOURCE_DIR";
  _ ← throw_if (op_stratum o && negb miner_tx_available) RuntimeError
        "Stratum runtime requires the exact Zano miner-tx backend for canonical PPLNS block construction";
  mret long_lived_runtime)%stdpp.

(** ** History *)

(** The files of a store: shares, validations and archived work. *)
Record Disk := mkDisk { dk_shares : File; dk_validation : File; dk_work : Directory }.

(** What the start has read so far: the files, the chain and whether a write failed. *)
Record History := mkHistory { hi_disk : Disk; hi_chain : ShareChain; hi_persistence_failed : bool }.

Definition set_history_chain (c : ShareChain) (h : History) : History :=
  mkHistory (hi_disk h) c (hi_persistence_failed h).
Definition set_shares (f : File) (h : History) : History :=
  mkHistory (mkDisk f (dk_validation (hi_disk h)) (dk_work (hi_disk h))) (hi_chain h) (hi_persistence_failed h).
Definition set_history_validation (f : File) (h : History) : History :=
  mkHistory (mkDisk (dk_shares (hi_disk h)) f (dk_work (hi_disk h))) (hi_chain h) (hi_persistence_failed h).
Definition history_failure (h : History) : History := mkHistory (hi_disk h) (hi_chain h) true.

Section Open.
Context `{!ProgPow, !JsonC} {W : Type}.
Context (options : Options) (params : SidechainParameters) (store_id : SidechainId).
Context (curl_easy_perform : text → W → curl_outcome * W) (unix_time_seconds : W → Z * W).

Abbreviation opening := (History * W)%type.

Definition load_shares : exec History ShareStoreLoadResult := λ h,
  let '(r, (file, c)) := load_into store_id true (dk_shares (hi_disk h), hi_chain h) in
  (r, set_history_chain c (set_shares file h)).

(** A statement over the chain and the daemon. *)
Definition on_history_chain {A} (m : exec (ShareChain * W) A) : exec opening A := λ s,
  let '(r, (c, w)) := m (hi_chain s.1, s.2) in (r, (set_history_chain c s.1, w)).

(** An unusable cache is no failure. *)
Definition restore_cache : exec opening () :=
  h <- on_state exec_get ;;
  on_exception
    (do on_history_chain
          (restore_replayed_validation_cache (canonical_header curl_easy_perform) params store_id
             (dk_validation (hi_disk h))) ;; exec_ret ())
    (λ _, exec_ret ()).

Definition recover_history : exec opening (option RestartRecoveryResult) :=
  h <- on_state exec_get ;;
  on_exception
    (now <- on_world (λ w, let '(t, w') := unix_time_seconds w in (Ok t, w')) ;;
     result <- on_history_chain
                 (recover_replayed_history (canonical_header curl_easy_perform) params store_id
                    (dk_work (hi_disk h)) now Light u64_max) ;;
     exec_ret (Some result))
    (λ _, exec_ret None).

(** What recovery pruned is made durable; a failure ends the start. *)
Definition compact_store (result : RestartRecoveryResult) : exec History () :=
  if (rc_pruned_connected_shares result =? 0)%nat then exec_ret ()
  else
  on_throw (λ h, let '(r, file) := rewrite store_id (persistence_snapshot (hi_chain h)) (dk_shares (hi_disk h)) in
                 (r, set_shares file h))
           history_failure.

Definition refresh_cache : exec opening () :=
  on_exception
    (checkpoint_template <- on_world (daemon_template options curl_easy_perform) ;;
     expected_parent <- exec_const (λ _, parse_hash256 (bt_prev_hash checkpoint_template)) ;;
     do (λ s, let '(r, (file, w)) :=
                persist_replayed_validation_cache (canonical_header curl_easy_perform) (hi_chain s.1) params
                  store_id (bt_height checkpoint_template) expected_parent (dk_validation (hi_disk s.1), s.2) in
              (r, (set_history_validation file s.1, w))) ;;
     exec_ret ())
    (λ _, exec_ret ()).

Definition recover_trust : exec opening () :=
  h <- on_state exec_get ;;
  if (connected_size (hi_chain h) =? 0)%nat then exec_ret ()
  else
  recovered <- recover_history ;;
  match recovered with
  | None => exec_ret ()
  | Some result => do on_state (compact_store result) ;; refresh_cache
  end.

(** The whole reading of the store; the index of the archived work. *)
Definition open_history : exec opening P2pWorkRetrieval :=
  do on_state load_shares ;;
  do restore_cache ;;
  do on_state (exec_const (λ h, verify_all store_id (dk_work (hi_disk h)))) ;;
  retrieval <- on_state (exec_const (λ h, new_work_retrieval store_id (dk_work (hi_disk h)))) ;;
  do recover_trust ;;
  exec_ret retrieval.

End Open.

(** ** Publication *)

Section Start.
Context `{!ProgPow, !JsonC, !JsonTokenerEnd, !ZanoCrypto, !ZanoMinerTx} {W : Type}.
Context (options : Options) (params : SidechainParameters) (store_id : SidechainId).
Context (curl_easy_perform : text → W → curl_outcome * W).
Context (p2p_runtime : option (P2pRuntime W)) (broadcast : P2pEnvelope → W → W).
Context (open_listener : StratumServerConfig → exec W ()) (dup : Z → bool).
(** The node id drawn, the creation and the start of the runtime with its first connections,
    and the work index that the trust sources read. *)
Context (generated_node_id : NodeId) (start_p2p : P2pHandshake → list P2pEndpoint → exec W ()).
Context (retrieval_view : W → P2pWorkRetrieval).

Abbreviation state := (Daemon W * W)%type.

(** [history] and its index when the share store is on. *)
Definition initial_daemon (live : LiveTemplate) (initial_template_failures : Z) (chain : ShareChain)
    (history : option (History * P2pWorkRetrieval)) : Daemon W :=
  mkDaemon live
    (set_work_retrieval
       ((λ h, mkRetrievalHandle store_id (dk_work (hi_disk h.1)) h.2) <$> history) (new_node chain ∅))
    ((λ h, dk_shares (hi_disk h.1)) <$> history) ((λ h, dk_validation (hi_disk h.1)) <$> history)
    None None 0 false false false
    (λ c, if bool_decide (c = ObservedZanoHeight) then bt_height (lt_block live)
          else if bool_decide (c = TemplateRefreshFailures) then initial_template_failures else 0)
    (mkBackoff (op_rpc_reconnect_initial_seconds options * 1000) (op_rpc_reconnect_max_seconds options * 1000)
       (op_rpc_reconnect_initial_seconds options * 1000))
    false (op_template_refresh_seconds options * 1000).

Definition install_sources : exec (P2pNodeProtocol W) () :=
  n <- exec_get ;;
  match np_work_retrieval n with
  | None => exec_ret ()
  | Some _ =>
      set_historical_trust_sources params
        (Some (λ proposal, exec_const (λ w,
           Ok (local_observations (retrieval_view w) (pp_zano_height proposal) (pp_prev_hash proposal)))))
        (Some (canonical_header curl_easy_perform))
        (Some (λ height, get_historical_pow_context curl_easy_perform height 256))
  end.

Definition startup_handshake (network : P2pNetwork) (n : P2pNodeProtocol W) : P2pHandshake :=
  let tip := local_tip n in
  mkHandshake network generated_node_id
    (match np_work_retrieval n with
     | Some _ => Z.lor kP2pCapabilitiesV1 kP2pCapabilityWorkRetrieval
     | None => kP2pCapabilitiesV1
     end) 0 (th_share_id tip) (th_share_height tip) store_id.

Definition start_peers : exec state () :=
  if negb (op_p2p options) then exec_ret ()
  else
  network <- lift (runtime_p2p_network (op_network options)) ;;
  d <- get_daemon ;;
  do on_world (start_p2p (startup_handshake network (dm_node d))
                 (p2p_bootstrap_nodes network (op_p2p_peers options) (negb (op_no_seed_nodes options)))) ;;
  announce_context p2p_runtime broadcast.

Definition server_config : StratumServerConfig :=
  mkServerConfig (op_stratum_bind options) (op_stratum_port options) (64 * 1024)
    (mkSessionConfig 100000000 1 100000000000) (Z.to_nat (op_stratum_max_clients options)).

Definition start_stratum (canonical_pplns stratum_ready : bool) (live : LiveTemplate) : exec state () :=
  if negb (op_stratum options) then exec_ret ()
  else
  submitter <- lift (new_submitter true 8 16) ;;
  do modify_daemon (dm_set_submitter (Some submitter)) ;;
  do remember_block canonical_pplns live ;;
  do (if stratum_ready then start_submitter else exec_ret ()) ;;
  d <- get_daemon ;;
  server <- lift (new_server server_config (Some (np_chain (dm_node d))) true true) ;;
  do modify_daemon (dm_set_server (Some (mkServerHandle false server))) ;;
  if stratum_ready then
    version <- publish_live dup live ;;
    do modify_daemon (dm_set_job_sequence version) ;;
    start_server open_listener
  else exec_ret ().

(** From the payout plan to the loop. *)
Definition start_services : exec state () :=
  d <- get_daemon ;;
  rebuilt <- lift (apply_canonical_pplns_template (np_chain (dm_node d)) params (dm_live d)) ;;
  let '(canonical_pplns, live) := rebuilt in
  let stratum_ready := canonical_pplns || (connected_size (np_chain (dm_node d)) =? 0)%nat in
  do modify_daemon (dm_set_live live) ;;
  do archive_work live ;;
  do on_node install_sources ;;
  do on_node (set_local_p2p_context live) ;;
  do on_node (remember_trusted_work (trusted_context_from_live live) (pb_parent_id <$> lt_parent_binding live)) ;;
  do start_peers ;;
  start_stratum canonical_pplns stratum_ready live.

(** The start with or without a share store. *)
Definition startup (unix_time_seconds : W → Z * W) (disk : option Disk) (live : LiveTemplate)
    (initial_template_failures : Z) : W → res () * (option (Daemon W) * W) := λ w,
  match new_chain params with
  | Throw e => (Throw e, (None, w))
  | Ok chain =>
      let opened := match disk with
                    | None => (Ok None, (mkHistory (mkDisk None None ∅) chain false, w))
                    | Some disk =>
                        let '(r, (h, w')) := open_history options params store_id curl_easy_perform unix_time_seconds
                                               (mkHistory disk chain false, w) in
                        ((λ retrieval, Some (h, retrieval)) <$> r, (h, w'))%stdpp
                    end in
      match opened with
      | (Throw e, (_, w')) => (Throw e, (None, w'))
      | (Ok history, (h, w')) =>
          let '(r, (d, w2)) :=
            start_services (initial_daemon live initial_template_failures (hi_chain h) history, w') in
          (r, (Some d, w2))
      end
  end.

(** ** What the start publishes *)

#[local] Instance public_sources : Frames same_public (on_node (W := W) install_sources).
Proof. apply _. Qed.
#[local] Instance public_peers : Frames same_public start_peers.
Proof.
  unfold start_peers, announce_context. frames.
Qed.

Lemma start_stratum_outcome canonical ready live s s' :
  op_stratum options = true →
  start_stratum canonical ready live s = (Ok (), s') →
  dm_live s'.1 = dm_live s.1 ∧
  if ready : bool then submitter_running s'.1 = true ∧
    ∃ h, dm_server s'.1 = Some h ∧ sh_running h = true ∧ serves live (sh_server h)
  else withdrawn s'.1.
Proof.
  intros Ho E. unfold start_stratum in E. rewrite Ho in E. cbn [negb] in E.
  apply exec_bind_ok in E as (b & s1 & [= Eb <-] & E). apply exec_bind_ok in E as ([] & s1 & [= <-] & E).
  apply exec_bind_ok in E as ([] & s2 & Er & E).
  pose proof (frames_run same_public _ _ _ _ Er) as (Hs2 & Hr2 & Hb2 & Hl2).
  apply exec_bind_ok in E as ([] & s3 & Est & E).
  apply exec_bind_ok in E as (d & s4 & [= <- <-] & E). apply exec_bind_ok in E as (server & s4 & [= Es <-] & E).
  apply exec_bind_ok in E as ([] & s4 & [= <-] & E).
  assert (dm_live (dm_set_submitter (Some b) s.1) = dm_live s.1) as Hl0 by by destruct s as [[] ?].
  assert (submitter_running (dm_set_submitter (Some b) s.1) = false) as Hr0.
  { rewrite <- Eb. by destruct s as [[] ?]. }
  assert (is_Some (dm_submitter (dm_set_submitter (Some b) s.1))) as Hb0 by (destruct s as [[] ?]; by eexists).
  cbn [fst] in *. rewrite Hr0 in Hr2. rewrite Hl0 in Hl2. apply Hb2 in Hb0. clear Hb2 Hs2 Hl0 Hr0 Er Eb.
  destruct s2 as [[x0 x1 x2 x3 x4 [b2|] x6 x7 x8 x9 x10 x11 x12 x13] w2]; [|by destruct Hb0].
  cbn [fst dm_live] in Hl2. destruct ready.
  - unfold start_submitter in Est. cbn [fst dm_submitter] in Est.
    destruct (start b2) as [[[]|] b3] eqn:Eb; [|done]. injection Est as <-.
    assert (is_running b3 = true) as Hrun.
    { destruct b2 as [mt mq [] st ts o q wk]; cbn in Eb; [done|]. by injection Eb as <-. }
    apply exec_bind_ok in E as (version & s4 & Ep & E). unfold publish_live in Ep.
    cbn [fst snd dm_set_server dm_set_submitter dm_server sh_server sh_running dm_node] in Ep.
    destruct (server_publish_template _ _ _ _ _ _ _) as [[[v ns]|] sv] eqn:Esv; [|done].
    apply server_publish_outcome in Esv as [_ [Hserve|[[? [=]] _]]]. injection Ep as _ <-.
    apply exec_bind_ok in E as ([] & s5 & [= <-] & E). unfold start_server in E.
    cbn [fst snd dm_set_server dm_set_submitter dm_set_job_sequence dm_server sh_server sh_running] in E.
    destruct (open_listener _ _) as [[] w3]; [|done]. injection E as <-.
    split; [done|]. split; [exact Hrun|]. by eexists.
  - injection Est as <-. injection E as <-. split; [done|]. by split.
Qed.

(** The chain a start builds on: a fresh one without a store; otherwise the one that reading
    the store, its validations and its archived work from this disk ends with. *)
Definition chain_read unix_time_seconds (disk : option Disk) (w : W) (c : ShareChain) : Prop :=
  ∃ chain, new_chain params = Ok chain ∧
    match disk with
    | None => c = chain
    | Some disk => ∃ retrieval h w1,
        open_history options params store_id curl_easy_perform unix_time_seconds
          (mkHistory disk chain false, w) = (Ok retrieval, (h, w1)) ∧ c = hi_chain h
    end.

(** C16: Start closed.  A start that returns serves miners exactly the template it built on the
    history it read - the chain that [open_history] ends with on this disk, or the fresh chain
    without a store: bootstrap work if that chain is empty, or the payout of its validated best
    tip, with block submission running.  If and only if it is connected but has no validated tip,
    because no cache and no archived work proves it, the daemon starts with both withdrawn. *)
Theorem startup_closed unix_time_seconds disk live failures w d w' :
  op_stratum options = true →
  startup unix_time_seconds disk live failures w = (Ok (), (Some d, w')) →
  ∃ c, chain_read unix_time_seconds disk w c ∧
    (pool_template params c live (dm_live d) ∧ ¬ unvalidated c ∧ submitter_running d = true ∧
       (∃ h, dm_server d = Some h ∧ sh_running h = true ∧ serves (dm_live d) (sh_server h)) ∨
     unvalidated c ∧ withdrawn d).
Proof.
  intros Ho E. unfold startup in E. destruct (new_chain params) as [chain|] eqn:Enew; [|done].
  match type of E with (match ?o with _ => _ end) = _ => destruct o as [[history|] [h w1]] eqn:Eopen end; [|done].
  assert (chain_read unix_time_seconds disk w (hi_chain h)) as Hread.
  { exists chain. split; [done|]. destruct disk as [disk|]; [|by injection Eopen as _ <- _].
    destruct (open_history _ _ _ _ _ _) as [[retrieval|e] [h' w2]]; [|done].
    injection Eopen as _ <- <-. by eexists _, _, _. }
  set (d0 := initial_daemon _ _ _ _) in E. assert (dm_live d0 = live) as Hd0 by done.
  assert (np_chain (dm_node d0) = hi_chain h) as Hc0 by (subst d0; by destruct history).
  destruct (start_services (d0, w1)) as [r [d2 w2]] eqn:Es. injection E as -> <- <-. clearbody d0.
  unfold start_services in Es. apply exec_bind_ok in Es as (d & s1 & [= <- <-] & Es).
  apply exec_bind_ok in Es as ([canonical next] & s1 & [= Ea <-] & Es).
  apply exec_bind_ok in Es as ([] & s1 & [= <-] & Es).
  cbn [fst snd] in *. set (s0 := (dm_set_live next d0, w1)) in Es.
  assert (dm_live s0.1 = next) as Hl0 by by destruct d0.
  do 5 (apply (frames_step same_public _ _ s0) in Es as [(e & [=] & _)|(? & ? & ? & Es)];
    [|apply _|reflexivity || assumption]; cbv beta in Es).
  match goal with H : same_public s0 ?sx, G : start_stratum _ _ _ ?sx = _ |- _ => destruct H as (_ & _ & _ & Hl) end.
  apply start_stratum_outcome in Es as [Hl' Hout]; [|done]. cbn [fst] in *.
  assert (dm_live d2 = next) as -> by congruence. rewrite Hd0, Hc0 in Ea. apply apply_outcome in Ea.
  exists (hi_chain h). split; [done|]. rewrite Hc0 in Hout. destruct (canonical || _); [left|right]; [|done].
  split; [done|]. split; [by eapply pool_not_unvalidated|done].
Qed.

End Start.
