(* ===== verification/DaemonDemo.v ===== *)
(** The start of a daemon and a reorganisation under a serving one, run to their ends, and a
    share that is stored twice. *)
From S2P Require Import Prelude CryptoHash PowTarget Share SidechainParams ShareChain Pplns PplnsCoinbase.
From S2P Require Import P2pProtocol P2pShare P2pSync ShareStore ReplayStore MiningHeader BlockTemplate.
From S2P Require Import MiningContext WorkArchive WorkRetrieval PeerGuard ZanoCurve MinerTxProofs HistoricalTrust Restart.
From S2P Require Import RpcClient BlockSubmitter StratumProtocol StratumSession StratumSubmission.
From S2P Require Import StratumServer PplnsTemplate NodeState P2pNode TokenBucket P2pTransport RuntimeSetup.
From S2P Require Import TemplateRefresh Demo TrustDemo StratumDemo Daemon DaemonSpec Startup.
Local Open Scope pool_scope.

#[local] Existing Instance demo_pow.
#[local] Existing Instance MiningContext.demo_json.
#[local] Existing Instance toy_curve.
#[local] Existing Instance demo_miner_tx.

Definition reorg_template (parent : Z) : BlockTemplate.BlockTemplate :=
  BlockTemplate.mkTemplate 1000000500000 1000000000000 (bytes_to_hex (demo_block Byte.x00)) (dec_str 5000000000)
    3000000 (text_of "{}") (hash_to_hex (fill_be 32 parent)) (hash_to_hex (fill_be 32 3)) (text_of "OK") 500000.
Definition reorg_live (parent : Z) : LiveTemplate :=
  mkLive (reorg_template parent) demo_work (fill_be 32 3) (fill_be 16 5000000000) None
    (Some (mkBinding (arr_zero 32) 0)).

(** Miners are served work on parent 78. *)
Definition reorg_server : ServerHandle :=
  mkServerHandle true
    (server_publish_template (λ _, true) (fill_be 32 1) (fill_be 32 3) 3000000 (fill_be 16 5000000000)
       (Some (mkBinding (arr_zero 32) 0)) stratum_start).2.
Definition reorg_daemon : Daemon () :=
  mkDaemon (reorg_live 78) (new_node empty_chain ∅) None None (Some reorg_server)
    (Some (mkSubmitter 8 16 true false ∅ [] [] Waiting)) 1 false false false (λ _, 0)
    (Backoff.mkBackoff 1000 30000 1000) false 5000.
Definition reorg_options : Options := set_stratum true default_options.
Definition reorg_pass : exec (Daemon () * ()) () :=
  update_pass reorg_options demo_params (arr_zero 32) (λ _ w, (CurlError "offline", w)) None (λ _ w, w)
    (λ w, (0, w)) (λ _, exec_ret ()) (λ _, true) false (reorg_live 77).

Lemma reorg_runs : (reorg_pass (reorg_daemon, ())).1 = Ok () ∧
  stratum_listening (reorg_pass (reorg_daemon, ())).2.1 = true.
Proof. split; vm_compute; reflexivity. Qed.

Lemma reorg_has_stratum : has_stratum reorg_options reorg_daemon = true.
Proof. reflexivity. Qed.

(** The pass that replaces the parent at the same height serves the work it built, on parent 77. *)
Lemma reorg_fail_closed_witness :
  ∃ c live h, pass_chain reorg_options (arr_zero 32) (λ _ w, (CurlError "offline", w)) None
      (λ _ w, w) (λ w, (0, w)) SameHeightReplacement (reorg_live 77)
      (count_to ObservedZanoHeight 3000000 reorg_daemon, ()) c ∧
    pool_template demo_params c (reorg_live 77) live ∧
    dm_server (reorg_pass (reorg_daemon, ())).2.1 = Some h ∧ sh_running h = true ∧ serves live (sh_server h).
Proof.
  destruct (reorg_fail_closed reorg_options demo_params (arr_zero 32) (λ _ w, (CurlError "offline", w)) None
    (λ _ w, w) (λ w, (0, w)) (λ _, exec_ret ()) (λ _, true) false (reorg_live 77) (reorg_daemon, ())
    SameHeightReplacement (reorg_daemon, ()) (reorg_pass (reorg_daemon, ())).1 (reorg_pass (reorg_daemon, ())).2)
    as [[H _]|H].
  - exact reorg_has_stratum.
  - vm_compute. reflexivity.
  - discriminate.
  - fold reorg_pass. by destruct (reorg_pass (reorg_daemon, ())).
  - exfalso. pose proof (proj2 reorg_runs) as Hl. rewrite H in Hl. discriminate Hl.
  - exact H.
Defined.

(** The same pass leaves that work live. *)
Lemma pass_installs_witness :
  ∃ c, pool_template demo_params c (reorg_live 77) (dm_live (reorg_pass (reorg_daemon, ())).2.1) ∧
    submitter_running (reorg_pass (reorg_daemon, ())).2.1 = true.
Proof.
  destruct (pass_installs reorg_options demo_params (arr_zero 32) (λ _ w, (CurlError "offline", w)) None
    (λ _ w, w) (λ w, (0, w)) (λ _, exec_ret ()) (λ _, true) false (reorg_live 77) (reorg_daemon, ())
    (reorg_pass (reorg_daemon, ())).2) as (kind & s1 & c & _ & _ & [(Hp & _ & Hr & _)|[_ [H _]]]).
  - exact reorg_has_stratum.
  - vm_compute. reflexivity.
  - fold reorg_pass. pose proof (proj1 reorg_runs) as Hok.
    destruct (reorg_pass (reorg_daemon, ())). cbn [fst snd] in *. by rewrite Hok.
  - exists c. split; [exact Hp|exact Hr].
  - exfalso. pose proof (proj2 reorg_runs) as Hl. rewrite H in Hl. discriminate Hl.
Defined.

(** ** A start *)

Definition first_start : res () * (option (Daemon ()) * ()) :=
  startup reorg_options demo_params (fill_be 32 21) (λ _ w, (CurlError "offline", w)) None (λ _ w, w)
    (λ _, exec_ret ()) (λ _, true) (fill_be 32 9) (λ _ _, exec_ret ()) (λ _, empty_retrieval)
    (λ w, (0, w)) None (reorg_live 77) 0 ().
Definition first_daemon : Daemon () := default reorg_daemon first_start.2.1.

Lemma first_start_runs : first_start.1 = Ok () ∧ match first_start.2.1 with Some _ => true | None => false end = true ∧ stratum_listening first_daemon = true.
Proof. split_and!; vm_compute; reflexivity. Qed.

(** ** A share that comes back *)

Definition storing_daemon : Daemon () := dm_set_share_store (Some None) reorg_daemon.
Definition stored_twice : Daemon () :=
  (persist_shares (fill_be 32 21) [demo_root; demo_root] (storing_daemon, ())).2.1.

(** The reconciliation of a reorganisation prunes the chain and leaves the share store as it
    is.  A pruned share that a peer brings back is therefore appended a second time, and the
    store can be neither loaded nor pruned any more. *)
Lemma readmission_blocks_restart :
  dm_persistence_failed stored_twice = false ∧
  match dm_share_store stored_twice with
  | Some file =>
      (load_into (fill_be 32 21) true (file, demo_chain)).1 =
        throw RuntimeError "share store contains duplicate record" ∧
      (erase_records (fill_be 32 21) [demo_root_id] file).1 =
        throw RuntimeError "share store contains duplicate record"
  | None => False
  end.
Proof. vm_compute. repeat split. Qed.

(** ** A start on a stored history *)

(** The store holds one share; nothing proves it, and the daemon is out of reach. *)
Definition stored_disk : Disk :=
  mkDisk (default None (dm_share_store (persist_shares (fill_be 32 21) [demo_root] (storing_daemon, ())).2.1))
    None ∅.
#[local] Abbreviation stored_start :=
  (startup reorg_options demo_params (fill_be 32 21) (λ _ w, (CurlError "offline", w)) None (λ _ w, w)
    (λ _, exec_ret ()) (λ _, true) (fill_be 32 9) (λ _ _, exec_ret ()) (λ _, empty_retrieval)
    (λ w, (0, w)) (Some stored_disk) (reorg_live 77) 0 ()).
Definition stored_daemon : Daemon () := default reorg_daemon stored_start.2.1.

Lemma stored_start_runs : stored_start.1 = Ok () ∧
  match stored_start.2.1 with Some _ => true | None => false end = true ∧
  stratum_listening stored_daemon = false.
Proof. split_and!; vm_compute; reflexivity. Qed.

Lemma started {D} (d0 : D) (r : res () * (option D * ())) :
  r.1 = Ok () → match r.2.1 with Some _ => true | None => false end = true →
  r = (Ok (), (Some (default d0 r.2.1), ())).
Proof. destruct r as [r [[d|] []]]; [|done]. cbn. by intros -> _. Qed.

Lemma not_serving (d : Daemon ()) h :
  stratum_listening d = false → dm_server d = Some h → sh_running h = true → False.
Proof. unfold stratum_listening. intros Hl Hh Hrun. rewrite Hh, Hrun in Hl. discriminate Hl. Qed.

(** The start without a store serves bootstrap work; the one on the unproven history starts
    with miners and submission withdrawn. *)
Lemma startup_closed_witness :
  (∃ c, pool_template demo_params c (reorg_live 77) (dm_live first_daemon) ∧ submitter_running first_daemon = true) ∧
  ∃ c, chain_read reorg_options demo_params (fill_be 32 21) (λ _ w, (CurlError "offline", w)) (λ w, (0, w))
         (Some stored_disk) () c ∧ unvalidated c ∧ withdrawn stored_daemon.
Proof.
  split.
  - destruct (startup_closed reorg_options demo_params (fill_be 32 21) (λ _ w, (CurlError "offline", w)) None (λ _ w, w)
      (λ _, exec_ret ()) (λ _, true) (fill_be 32 9) (λ _ _, exec_ret ()) (λ _, empty_retrieval)
      (λ w, (0, w)) None (reorg_live 77) 0 () first_daemon ()) as [c [_ [(Hp & _ & Hr & _)|[_ [H _]]]]].
    + reflexivity.
    + fold first_start. pose proof (proj1 first_start_runs) as Hok. pose proof (proj1 (proj2 first_start_runs)) as Hd.
      unfold first_daemon. destruct first_start as [r [[d|] []]]; [|discriminate Hd]. cbn [fst snd] in *. by rewrite Hok.
    + exists c. split; [exact Hp|exact Hr].
    + exfalso. pose proof (proj2 (proj2 first_start_runs)) as Hl. rewrite H in Hl. discriminate Hl.
  - destruct (startup_closed reorg_options demo_params (fill_be 32 21) (λ _ w, (CurlError "offline", w)) None (λ _ w, w)
      (λ _, exec_ret ()) (λ _, true) (fill_be 32 9) (λ _ _, exec_ret ()) (λ _, empty_retrieval)
      (λ w, (0, w)) (Some stored_disk) (reorg_live 77) 0 () stored_daemon ()) as [c [Hread [(_ & _ & _ & h & Hh & Hrun & _)|Hu]]].
    + reflexivity.
    + exact (started reorg_daemon stored_start (proj1 stored_start_runs) (proj1 (proj2 stored_start_runs))).
    + exfalso. exact (not_serving _ h (proj2 (proj2 stored_start_runs)) Hh Hrun).
    + exists c. split; [exact Hread|exact Hu].
Defined.
