(* ===== verification/Metrics.v ===== *)
(** The metrics endpoint ([include/zano_p2pool/metrics_snapshot.hpp], [src/metrics_server.cpp])
    and the snapshot that [main] gives it.  What a scrape receives is what the receive buffers
    of its connection hold; sending is left to the socket. *)
From S2P Require Import Prelude PowTarget Share BlockTemplate MiningHeader RpcClient ShareChain StratumProtocol.
From S2P Require Import StratumSession StratumSubmission StratumServer NodeState RuntimeSetup PeerGuard Daemon.
Local Open Scope pool_scope.

(** ** The snapshot and its text *)

Record MetricsSnapshot := mkMetricsSnapshot {
  ms_zano_height : Z;
  ms_sidechain_connected_shares : Z;
  ms_sidechain_orphan_shares : Z;
  ms_sidechain_tip_height : Z;
  ms_p2p_peers : Z;
  ms_p2p_trusted_work_contexts : Z;
  ms_stratum_connections : Z;
  ms_stratum_job_sequence : Z;
  ms_stratum_accepted_shares_total : Z;
  ms_p2p_admitted_shares_total : Z;
  ms_block_candidates_total : Z;
  ms_blocks_submitted_total : Z;
  ms_blocks_alternative_total : Z;
  ms_block_submission_failures_total : Z;
  ms_template_refresh_failures_total : Z;
  ms_historical_pow_retry_attempts_total : Z;
  ms_historical_pow_retry_trusted_total : Z;
  ms_historical_pow_retry_connected_total : Z;
  ms_historical_pow_retry_failures_total : Z;
  ms_historical_pow_retry_remaining : Z;
  ms_persistence_ok : bool }.

Record Metric := mkMetric { me_name : string; me_type : string; me_help : string; me_value : Z }.

Definition append_metric (m : Metric) : text :=
  text_of "# HELP " ++ text_of (me_name m) ++ text_of " " ++ text_of (me_help m) ++ [newline] ++
  text_of "# TYPE " ++ text_of (me_name m) ++ text_of " " ++ text_of (me_type m) ++ [newline] ++
  text_of (me_name m) ++ text_of " " ++ dec_str (me_value m) ++ [newline].

(** The metrics in the order they are appended. *)
Definition metrics (s : MetricsSnapshot) : list Metric :=
  [
   mkMetric "zano_p2pool_up" "gauge"
     "Whether the zano-p2pool runtime is serving metrics." (1);
   mkMetric "zano_p2pool_zano_height" "gauge"
     "Latest Zano block-template height observed by the pool." (ms_zano_height s);
   mkMetric "zano_p2pool_sidechain_connected_shares" "gauge"
     "Verified connected shares currently retained in the sidechain." (ms_sidechain_connected_shares s);
   mkMetric "zano_p2pool_sidechain_orphan_shares" "gauge"
     "Verified orphan shares currently retained in the sidechain." (ms_sidechain_orphan_shares s);
   mkMetric "zano_p2pool_sidechain_tip_height" "gauge"
     "Best verified sidechain tip height, or zero for an empty chain." (ms_sidechain_tip_height s);
   mkMetric "zano_p2pool_p2p_peers" "gauge"
     "Currently connected P2P peers." (ms_p2p_peers s);
   mkMetric "zano_p2pool_p2p_trusted_work_contexts" "gauge"
     "Locally trusted mining work contexts available to P2P share validation." (ms_p2p_trusted_work_contexts s);
   mkMetric "zano_p2pool_stratum_connections" "gauge"
     "Currently connected Stratum clients." (ms_stratum_connections s);
   mkMetric "zano_p2pool_stratum_job_sequence" "gauge"
     "Current process-local Stratum work publication sequence." (ms_stratum_job_sequence s);
   mkMetric "zano_p2pool_stratum_accepted_shares_total" "counter"
     "Locally accepted Stratum shares since process start." (ms_stratum_accepted_shares_total s);
   mkMetric "zano_p2pool_p2p_admitted_shares_total" "counter"
     "P2P shares admitted as connected or orphan since process start." (ms_p2p_admitted_shares_total s);
   mkMetric "zano_p2pool_block_candidates_total" "counter"
     "Full-network-difficulty block candidates found by Stratum miners since process start." (ms_block_candidates_total s);
   mkMetric "zano_p2pool_blocks_submitted_total" "counter"
     "Block candidates accepted onto the Zano main chain since process start." (ms_blocks_submitted_total s);
   mkMetric "zano_p2pool_blocks_alternative_total" "counter"
     "Block candidates accepted into Zano's alternative chain since process start." (ms_blocks_alternative_total s);
   mkMetric "zano_p2pool_block_submission_failures_total" "counter"
     "Block submission attempts rejected or otherwise failed since process start." (ms_block_submission_failures_total s);
   mkMetric "zano_p2pool_template_refresh_failures_total" "counter"
     "Template refresh attempts that raised an error since process start." (ms_template_refresh_failures_total s);
   mkMetric "zano_p2pool_historical_pow_retry_attempts_total" "counter"
     "Historical PoW candidates reported by completed autonomous retry passes since process start." (ms_historical_pow_retry_attempts_total s);
   mkMetric "zano_p2pool_historical_pow_retry_trusted_total" "counter"
     "Historical PoW candidates that crossed full trust during autonomous retry since process start." (ms_historical_pow_retry_trusted_total s);
   mkMetric "zano_p2pool_historical_pow_retry_connected_total" "counter"
     "Historical shares connected by autonomous PoW retry since process start." (ms_historical_pow_retry_connected_total s);
   mkMetric "zano_p2pool_historical_pow_retry_failures_total" "counter"
     "Autonomous historical PoW retry passes that raised an exception since process start." (ms_historical_pow_retry_failures_total s);
   mkMetric "zano_p2pool_historical_pow_retry_remaining" "gauge"
     "Retryable historical PoW candidates remaining after the latest completed retry pass." (ms_historical_pow_retry_remaining s);
   mkMetric "zano_p2pool_persistence_ok" "gauge"
     "Whether sidechain persistence has remained healthy for this process." (if ms_persistence_ok s then 1 else 0)].

Definition render_prometheus_metrics (s : MetricsSnapshot) : text := concat (append_metric <$> metrics s).

(** ** HTTP *)

Definition crlf : text := [Ascii.ascii_of_nat 13; newline].

Definition http_response (status content_type : string) (body extra_headers : text) : text :=
  text_of "HTTP/1.1 " ++ text_of status ++ crlf ++ text_of "Content-Type: " ++ text_of content_type ++ crlf ++
  text_of "Content-Length: " ++ dec_str (Z.of_nat (length body)) ++ crlf ++ text_of "Connection: close" ++ crlf ++
  extra_headers ++ crlf ++ body.

(** [find("\r\n")]: what is before it and after it. *)
Fixpoint split_crlf (s : text) : option (text * text) :=
  match s with
  | [] => None
  | c :: rest =>
      if bool_decide (take 2 s = crlf) then Some ([], drop 1 rest)
      else match split_crlf rest with Some (line, after) => Some (c :: line, after) | None => None end
  end.

(** [find("\r\n\r\n") != npos]. *)
Fixpoint has_blank_line (s : text) : bool :=
  match s with
  | [] => false
  | _ :: rest => bool_decide (take 4 s = crlf ++ crlf) || has_blank_line rest
  end.

Record RequestLine := mkRequestLine { rl_method : text; rl_path : text; rl_version : text }.

Definition space : Ascii.ascii := Ascii.ascii_of_nat 32.

Definition parse_request_line (request : text) : option RequestLine :=
  match split_crlf request with
  | None => None
  | Some (line, _) =>
      match split_first space line with
      | None => None
      | Some (method, rest) =>
          match split_first space rest with
          | None => None
          | Some (path, version) =>
              if bool_decide (is_Some (split_first space version)) then None
              else if negb (bool_decide (method = [])) && negb (bool_decide (path = [])) &&
                      (bool_decide (version = text_of "HTTP/1.1") || bool_decide (version = text_of "HTTP/1.0"))
              then Some (mkRequestLine method path version) else None
          end
      end
  end.

Definition plain : string := "text/plain; charset=utf-8".
Definition line_of (s : string) : text := text_of s ++ [newline].

(** The body is closed with a newline. *)
Definition close_body (body : text) : text :=
  match last body with
  | Some c => if Ascii.eqb c newline then body else body ++ [newline]
  | None => body
  end.

(** The answer to a request that has its blank line; the provider may throw. *)
Definition answer_request (snapshot_provider : res text) (request : text) : text :=
  match parse_request_line request with
  | None => http_response "400 Bad Request" plain (line_of "bad request") []
  | Some parsed =>
      if negb (bool_decide (rl_method parsed = text_of "GET"))
      then http_response "405 Method Not Allowed" plain (line_of "method not allowed") (text_of "Allow: GET" ++ crlf)
      else if bool_decide (rl_path parsed = text_of "/healthz")
      then http_response "200 OK" plain (line_of "ok") []
      else if negb (bool_decide (rl_path parsed = text_of "/metrics"))
      then http_response "404 Not Found" plain (line_of "not found") []
      else
      match snapshot_provider with
      | Throw _ => http_response "500 Internal Server Error" plain (line_of "metrics snapshot failed") []
      | Ok body => http_response "200 OK" "text/plain; version=0.0.4; charset=utf-8" (close_body body) []
      end
  end.

(** What [recv] returns: data, an interruption, or the end of the connection or an error. *)
Inductive received := Received (data : text) | ReceiveInterrupted | ReceiveEnded.

(** The response sent, if any. *)
Fixpoint handle_client (max_request_bytes : nat) (snapshot_provider : res text) (request : text)
    (buffers : list received) : option text :=
  if has_blank_line request then Some (answer_request snapshot_provider request)
  else
  match buffers with
  | [] => None
  | Received data :: rest =>
      if (max_request_bytes - length request <? length data)%nat
      then Some (http_response "413 Payload Too Large" plain (line_of "request too large") [])
      else handle_client max_request_bytes snapshot_provider (request ++ data) rest
  | ReceiveInterrupted :: rest => handle_client max_request_bytes snapshot_provider request rest
  | ReceiveEnded :: _ => None
  end.

Record MetricsServerConfig := mkMetricsConfig { mc_bind_address : text; mc_port : Z; mc_max_request_bytes : nat }.

Definition new_metrics_server (config : MetricsServerConfig) (has_provider : bool) : res MetricsServerConfig :=
  (_ ← throw_if (bool_decide (mc_bind_address config = [])) RuntimeError "metrics bind address must not be empty";
  _ ← throw_if (mc_max_request_bytes config =? 0)%nat RuntimeError "metrics max request size must be nonzero";
  _ ← throw_if (negb has_provider) RuntimeError "metrics snapshot provider must be configured";
  mret config)%stdpp.

(** ** The provider *)

(** The consensus values are the latest that could be read without waiting for the state
    mutex. *)
Definition metrics_provider {W} (owns_lock : bool) (peer_count : nat) (cache : P2pNodeMetricsSnapshot)
    (d : Daemon W) : MetricsSnapshot * P2pNodeMetricsSnapshot :=
  let cache := default cache (try_metrics_snapshot owns_lock (dm_node d)) in
  let count := dm_counters d in
  let server := match dm_server d with
                | Some h => if sh_running h then Some (sh_server h) else None
                | None => None
                end in
  (mkMetricsSnapshot (count ObservedZanoHeight) (Z.of_nat (ms_connected_shares cache))
     (Z.of_nat (ms_orphan_shares cache)) (ms_tip_height cache) (Z.of_nat peer_count)
     (Z.of_nat (ms_trusted_work_contexts cache))
     (match server with Some s => Z.of_nat (client_count s) | None => 0 end)
     (match server with Some s => current_template_version s | None => 0 end)
     (count StratumAcceptedShares) (count P2pAdmittedShares) (count BlockCandidates) (count BlocksSubmitted)
     (count BlocksAlternative) (count BlockSubmissionFailures) (count TemplateRefreshFailures) 0 0 0 0 0
     (negb (dm_persistence_failed d)), cache).

(** ** Requests in pieces *)

Lemma split_crlf_app p q line after : split_crlf p = Some (line, after) → split_crlf (p ++ q) = Some (line, after ++ q).
Proof.
  revert line after. induction p as [|c p IH]; intros line after E; [done|]. cbn [split_crlf app] in *.
  case_bool_decide as H.
  - injection E as <- <-. destruct p as [|c' p]; [discriminate H|].
    by rewrite bool_decide_eq_true_2 by exact H.
  - destruct (split_crlf p) as [[l a]|] eqn:Ep; [|done]. injection E as <- <-.
    rewrite bool_decide_eq_false_2; [by rewrite (IH l a)|]. destruct p; [discriminate Ep|exact H].
Qed.

Lemma blank_line_splits p : has_blank_line p = true → is_Some (split_crlf p).
Proof.
  induction p as [|c p IH]; [done|]. cbn [has_blank_line split_crlf]. intros H.
  destruct (bool_decide (take 2 (c :: p) = crlf)) eqn:E; [by eexists|]. apply orb_prop in H as [H|H].
  - exfalso. apply bool_decide_eq_true in H. apply bool_decide_eq_false in E. apply E.
    destruct p as [|c2 p]; [done|]. cbn in H |- *. by injection H as -> -> _.
  - destruct (IH H) as [[l a] ->]. by eexists.
Qed.

Lemma answer_app provider p q : has_blank_line p = true → answer_request provider (p ++ q) = answer_request provider p.
Proof.
  intros H. destruct (blank_line_splits p H) as [[l a] E]. unfold answer_request, parse_request_line.
  by rewrite (split_crlf_app p q l a E), E.
Qed.

(** The bytes of the buffers. *)
Fixpoint received_data (buffers : list received) : text :=
  match buffers with
  | [] => []
  | Received data :: rest => data ++ received_data rest
  | ReceiveInterrupted :: rest => received_data rest
  | ReceiveEnded :: _ => []
  end.

Lemma handle_client_framed max provider buffers : ∀ request,
  ReceiveEnded ∉ buffers → has_blank_line (request ++ received_data buffers) = true →
  (length (request ++ received_data buffers) ≤ max)%nat →
  handle_client max provider request buffers = Some (answer_request provider (request ++ received_data buffers)).
Proof.
  induction buffers as [|b buffers IH]; intros request He Hb Hl.
  - cbn [received_data] in *. rewrite (right_id_L [] (++)) in *. cbn [handle_client]. by rewrite Hb.
  - cbn [handle_client]. destruct (has_blank_line request) eqn:Hr; [by rewrite answer_app|].
    apply not_elem_of_cons in He as [Hne He]. destruct b as [data| |]; [| |done].
    + cbn [received_data] in *. rewrite (assoc_L (++)) in *.
      assert ((max - length request <? length data)%nat = false) as ->.
      { apply Nat.ltb_ge. rewrite !length_app in Hl. lia. }
      by apply IH.
    + by apply IH.
Qed.

(** ** Reading the text back *)

(** The lines that a newline ends. *)
Fixpoint text_lines (line s : text) : list text :=
  match s with
  | [] => []
  | c :: rest => if Ascii.eqb c newline then line :: text_lines [] rest else text_lines (line ++ [c]) rest
  end.

(** A sample is a name, a space and a number; a comment starts with a hash. *)
Definition read_sample (line : text) : option (text * Z) :=
  match line with
  | [] => None
  | c :: _ =>
      if char_Z c =? 35 then None
      else match split_first space line with
           | Some (name, value) =>
               match parse_digits "not a number" value 0 with
               | Ok v => Some (name, v)
               | Throw _ => None
               end
           | None => None
           end
  end.
Definition read_samples (s : text) : list (text * Z) := omap read_sample (text_lines [] s).

Definition no_newline (s : text) : bool := forallb (λ c, negb (Ascii.eqb c newline)) s.

Lemma text_lines_line a : ∀ line rest, no_newline a = true →
  text_lines line (a ++ newline :: rest) = (line ++ a) :: text_lines [] rest.
Proof.
  induction a as [|c a IH]; intros line rest H; cbn [text_lines app].
  - by rewrite (right_id_L [] (++)).
  - cbn [no_newline forallb] in H. apply andb_prop in H as [Hc H]. apply negb_true_iff in Hc. rewrite Hc, IH by done.
    by rewrite <- (assoc_L (++)).
Qed.

Lemma dec_str_no_newline z : 0 ≤ z → no_newline (dec_str z) = true.
Proof.
  intros Hz. assert (∀ d, 0 ≤ d < 10 → Ascii.eqb (dec_char d) newline = false) as Hd.
  { intros d Hd. apply Ascii.eqb_neq. intros E. apply (f_equal char_Z) in E. rewrite char_Z_dec_char in E by done.
    change (char_Z newline) with 10 in E. lia. }
  apply (dec_digits_ind (λ _ l, no_newline l = true)); [| |done].
  - intros d H. cbn. by rewrite Hd.
  - intros w d l _ H IH. unfold no_newline in *. rewrite forallb_app, IH. cbn. by rewrite Hd.
Qed.

Lemma split_first_app c a b : split_first c a = None → split_first c (a ++ c :: b) = Some (a, b).
Proof.
  induction a as [|x a IH]; intros H; cbn [split_first app] in *.
  - by rewrite Ascii.eqb_refl.
  - destruct (Ascii.eqb x c); [done|]. destruct (split_first c a) as [[]|]; [done|]. by rewrite IH.
Qed.

(** The names and the help texts can be told apart. *)
Definition metric_ok (m : Metric) : bool :=
  no_newline (text_of (me_name m)) && no_newline (text_of (me_help m)) && no_newline (text_of (me_type m)) &&
  match text_of (me_name m) with c :: _ => negb (char_Z c =? 35) | [] => false end &&
  bool_decide (split_first space (text_of (me_name m)) = None).

Lemma comment_line t : read_sample (text_of "# " ++ t) = None.
Proof. reflexivity. Qed.

Lemma append_metric_lines m rest :
  append_metric m ++ rest =
  (text_of "# " ++ text_of "HELP " ++ text_of (me_name m) ++ text_of " " ++ text_of (me_help m)) ++ newline ::
  (text_of "# " ++ text_of "TYPE " ++ text_of (me_name m) ++ text_of " " ++ text_of (me_type m)) ++ newline ::
  (text_of (me_name m) ++ space :: dec_str (me_value m)) ++ newline :: rest.
Proof. unfold append_metric. by rewrite <- !(assoc_L (++)). Qed.

Lemma read_metric m rest : metric_ok m = true → is_u64 (me_value m) →
  read_samples (append_metric m ++ rest) = (text_of (me_name m), me_value m) :: read_samples rest.
Proof.
  unfold metric_ok. rewrite !andb_true_iff, bool_decide_eq_true. intros ((((Hn & Hh) & Ht) & Hc) & Hs) Hv.
  pose proof (dec_str_no_newline (me_value m) ltac:(apply Hv)) as Hd. unfold no_newline in *.
  unfold read_samples. rewrite append_metric_lines.
  rewrite text_lines_line by (unfold no_newline; by rewrite !forallb_app, Hn, Hh).
  rewrite text_lines_line by (unfold no_newline; by rewrite !forallb_app, Hn, Ht).
  rewrite text_lines_line by (unfold no_newline; rewrite forallb_app, Hn; cbn [forallb]; by rewrite Hd).
  cbn [omap list_omap app]. rewrite !comment_line. unfold read_sample.
  destruct (text_of (me_name m)) as [|c name] eqn:En; [done|]. apply negb_true_iff in Hc.
  cbn [app]. rewrite Hc. rewrite app_comm_cons, split_first_app by done.
  rewrite parse_digits_dec_str by (destruct Hv; unfold u64_max, u128_max in *; lia). done.
Qed.

Lemma rendered_closed ms : close_body (concat (append_metric <$> ms)) = concat (append_metric <$> ms).
Proof.
  assert (ms = [] ∨ ∃ b, concat (append_metric <$> ms) = b ++ [newline]) as [->|[b ->]]; [|done|].
  - induction ms as [|m ms IH]; [by left|]. right. cbn [fmap list_fmap concat]. destruct IH as [->|[b ->]].
    + cbn [fmap list_fmap concat]. rewrite (right_id_L [] (++)). unfold append_metric. rewrite !(assoc_L (++)). by eexists.
    + rewrite (assoc_L (++)). by eexists.
  - unfold close_body. rewrite last_snoc. done.
Qed.

(** What a scrape should tell, name by name: the counters of the daemon, the sizes of its chain
    and registry - those of now if the state mutex was free, else those read last - its peers,
    its Stratum clients and job while the server runs, and whether persistence has held. *)
Definition daemon_samples {W} (owns_lock : bool) (peers : nat) (last : P2pNodeMetricsSnapshot) (d : Daemon W)
    : list (string * Z) :=
  let chain := np_chain (dm_node d) in
  let now_or {A} (now last : A) : A := if owns_lock then now else last in
  let serving {A} (f : StratumTcpServer → A) (none : A) : A :=
    match dm_server d with Some (mkServerHandle true server) => f server | _ => none end in
  [("zano_p2pool_up", 1);
   ("zano_p2pool_zano_height", dm_counters d ObservedZanoHeight);
   ("zano_p2pool_sidechain_connected_shares",
     Z.of_nat (now_or (size (connected chain)) (ms_connected_shares last)));
   ("zano_p2pool_sidechain_orphan_shares",
     Z.of_nat (now_or (size (orphans chain)) (ms_orphan_shares last)));
   ("zano_p2pool_sidechain_tip_height",
     now_or (from_option (λ tip, share_height (cs_share tip)) 0 (best_tip chain)) (ms_tip_height last));
   ("zano_p2pool_p2p_peers", Z.of_nat peers);
   ("zano_p2pool_p2p_trusted_work_contexts",
     Z.of_nat (now_or (size (np_trusted_work (dm_node d))) (ms_trusted_work_contexts last)));
   ("zano_p2pool_stratum_connections", serving (λ server, Z.of_nat (client_count server)) 0);
   ("zano_p2pool_stratum_job_sequence", serving current_template_version 0);
   ("zano_p2pool_stratum_accepted_shares_total", dm_counters d StratumAcceptedShares);
   ("zano_p2pool_p2p_admitted_shares_total", dm_counters d P2pAdmittedShares);
   ("zano_p2pool_block_candidates_total", dm_counters d BlockCandidates);
   ("zano_p2pool_blocks_submitted_total", dm_counters d BlocksSubmitted);
   ("zano_p2pool_blocks_alternative_total", dm_counters d BlocksAlternative);
   ("zano_p2pool_block_submission_failures_total", dm_counters d BlockSubmissionFailures);
   ("zano_p2pool_template_refresh_failures_total", dm_counters d TemplateRefreshFailures);
   ("zano_p2pool_historical_pow_retry_attempts_total", 0);
   ("zano_p2pool_historical_pow_retry_trusted_total", 0);
   ("zano_p2pool_historical_pow_retry_connected_total", 0);
   ("zano_p2pool_historical_pow_retry_failures_total", 0);
   ("zano_p2pool_historical_pow_retry_remaining", 0);
   ("zano_p2pool_persistence_ok", if dm_persistence_failed d then 0 else 1)].

Lemma provider_samples {W} owns_lock peers last (d : Daemon W) :
  (λ m, (me_name m, me_value m)) <$> metrics (metrics_provider owns_lock peers last d).1 =
    daemon_samples owns_lock peers last d.
Proof.
  unfold daemon_samples, metrics_provider, try_metrics_snapshot, connected_size, orphan_size.
  destruct (dm_server d) as [[[] server]|], owns_lock, (dm_persistence_failed d); cbn;
    by destruct (best_tip (np_chain (dm_node d))).
Qed.

Lemma rendered_samples s : Forall (λ m, is_u64 (me_value m)) (metrics s) →
  read_samples (render_prometheus_metrics s) = (λ m, (text_of (me_name m), me_value m)) <$> metrics s.
Proof.
  intros Hv. assert (Forall (λ m, metric_ok m = true) (metrics s)) as Hok by (repeat constructor).
  unfold render_prometheus_metrics. induction (metrics s) as [|m ms IH]; [done|].
  apply Forall_cons in Hv as [Hv Hvs], Hok as [Hok Hoks]. cbn [fmap list_fmap concat].
  rewrite read_metric by done. by rewrite IH.
Qed.

(** C40: A scrape reads what the daemon counted.  However the bytes of a GET of /metrics arrive, as
    long as the request is no longer than the limit and ends in a blank line, the answer is a 200
    whose body is the rendered snapshot of the daemon, and reading the samples of that body back
    gives, under their names and in order, exactly the values of [daemon_samples]: each counter of
    the daemon under its own name, the sizes of the chain and of the registry, the peers, clients
    and job, and 1 for persistence exactly if nothing failed.  The five retry metrics read as zero,
    since the snapshot of the daemon does not fill them.  All values are 64-bit. *)
Theorem scrape_reads_back {W} max buffers request parsed owns_lock peers last (d : Daemon W) :
  ReceiveEnded ∉ buffers → received_data buffers = request → (length request ≤ max)%nat →
  has_blank_line request = true → parse_request_line request = Some parsed →
  rl_method parsed = text_of "GET" → rl_path parsed = text_of "/metrics" →
  Forall (λ sample, is_u64 sample.2) (daemon_samples owns_lock peers last d) →
  let body := render_prometheus_metrics (metrics_provider owns_lock peers last d).1 in
  handle_client max (Ok body) [] buffers =
    Some (http_response "200 OK" "text/plain; version=0.0.4; charset=utf-8" body []) ∧
  read_samples body = (λ sample, (text_of sample.1, sample.2)) <$> daemon_samples owns_lock peers last d.
Proof.
  intros He <- Hl Hb Hp Hm Hpath Hv body. split.
  - rewrite handle_client_framed by done. cbn [app]. unfold answer_request. rewrite Hp, Hm, Hpath.
    cbn [negb]. rewrite !bool_decide_eq_true_2, bool_decide_eq_false_2 by done. cbn [negb].
    unfold body, render_prometheus_metrics. by rewrite rendered_closed.
  - unfold body. rewrite <- provider_samples in Hv |- *. rewrite Forall_fmap in Hv.
    rewrite rendered_samples by exact Hv. by rewrite <- list_fmap_compose.
Qed.

Definition demo_counted : Daemon () :=
  mkDaemon (mkLive (BlockTemplate.mkTemplate 0 0 [] [] 3000000 [] [] [] [] 0) demo_work (arr_zero 32) (arr_zero 16) None None)
    (new_node empty_chain ∅) None None None None 0 true false false
    (λ c, match c with
          | ObservedZanoHeight => 3000000
          | StratumAcceptedShares => 9
          | BlocksSubmitted => 2
          | BlocksAlternative => 1
          | _ => 0
          end)
    (Backoff.mkBackoff 1000 30000 1000) false 5000.
Definition demo_buffers : list received :=
  [Received (text_of "GET /met"); ReceiveInterrupted;
   Received (text_of "rics HTTP/1.1" ++ crlf ++ text_of "Host: x" ++ crlf ++ crlf)].

Lemma scrape_reads_back_witness :
  let body := render_prometheus_metrics (metrics_provider true 3 (mkMetrics 0 0 0 0) demo_counted).1 in
  (text_of "zano_p2pool_blocks_submitted_total", 2) ∈ read_samples body ∧
  (text_of "zano_p2pool_persistence_ok", if dm_persistence_failed demo_counted then 0 else 1) ∈ read_samples body.
Proof.
  destruct (scrape_reads_back 8192 demo_buffers (received_data demo_buffers)
    (mkRequestLine (text_of "GET") (text_of "/metrics") (text_of "HTTP/1.1")) true 3 (mkMetrics 0 0 0 0)
    demo_counted) as [_ Hs].
  - unfold demo_buffers. rewrite !not_elem_of_cons. split_and!; [discriminate..|apply not_elem_of_nil].
  - reflexivity.
  - apply Nat.leb_le. vm_compute. reflexivity.
  - vm_compute. reflexivity.
  - vm_compute. reflexivity.
  - reflexivity.
  - reflexivity.
  - by repeat constructor.
  - cbv zeta in *. rewrite Hs. split; apply list_elem_of_fmap; eexists (_, _);
      (split; [reflexivity|]); apply (bool_decide_unpack _); vm_compute; exact Logic.I.
Defined.
